(* ===== verification/_CoqProject ===== *)
-Q . S2P
Prelude.v
GoTime.v
GoFloat.v
Json.v
Usage.v
Pricing.v
Budget.v
V1Alpha1.v
Policy.v
PolicyStore.v
Tier.v
Breaker.v
Limiter.v
Denial.v
Governor.v
LocalMoney.v
Governance.v
Enforcement.v
Live.v
Router.v
Boundary.v
Affinity.v
RequestRouting.v
RoutingSafety.v
AuditChain.v
AuditWriter.v
Escrow.v
EscrowSafety.v
EscrowSettle.v
EscrowStore.v
EscrowTheorems.v
Central.v
CentralSafety.v
CentralTheorems.v
Shared.v
SharedSafety.v
SharedSettle.v
SharedReserve.v
SharedTheorems.v
Settlement.v
SettlementTheorems.v
AttemptSafety.v
AttemptLedgers.v
Evidence.v
Exchange.v
Responses.v
ResponsesSafety.v
ResponsesAudit.v
ResponsesLedger.v
ResponsesTheorems.v
