(* ===== verification/Prelude.v ===== *)
(** * inferplane: a verified model of the governance core

    inferplane is a gateway between clients and model providers.  A request is
    routed to a target its policies allow, admitted against rate, quota and
    money limits, dispatched, settled by its observed cost, and recorded in a
    chained audit log.  This library models that path as the Go code is
    written and proves what each part promises.

    ** The parts, and the files that model them

    - Prelude: machine integers ([wrap64], [int64]), the state monad [ST] and
      its early return [STE], [result], sums over maps, sorted keys, strings.
    - GoTime, GoFloat: [time.Duration] and [ParseDuration], calendar windows;
      IEEE doubles as pricing uses them.
    - Usage, Pricing: pkg/schema/usage.go and internal/pricing: token counts,
      the checked and the rounding cost of a response, the bound of a request.
    - Budget, Tier, Limiter, Denial: internal/budget (spend per window),
      internal/tier (utilization and latched tiers), internal/limiter (token
      buckets, quotas and reservations), the evidence of a refusal.
    - V1Alpha1, Policy, PolicyStore: api/v1alpha1 and internal/policy: wire
      types, their conversion, the store that merges policy documents.
    - Governor, LocalMoney, Governance, Enforcement: internal/governance: the
      limits of a subject, the node-local money ledger, [PreCheck] and the
      life of an admission, and what a whole history of them keeps.
    - Live, Router, Breaker, Boundary, Affinity, RequestRouting,
      RoutingSafety: internal/live and internal/router: a generation of the
      topology, chains and breakers, the boundary a request may not leave,
      session affinity, [RouteRequest], and what every decision satisfies.
    - AuditChain, AuditWriter: internal/audit: the hash chain, its
      verification against an external anchor, the writer with its write-ahead
      log and latches.
    - Escrow, EscrowSafety, EscrowSettle, EscrowStore, EscrowTheorems:
      internal/authority/local: the journal of money leased from the control
      plane; the invariant and its preservation by admission, by settlement,
      by everything else, and the properties of whole histories.
    - Central, CentralSafety, CentralTheorems: internal/authority/pgstore and
      internal/policy/authority_definitions.go: the ledger the control plane
      leases from, [Sync] with its reports, meters, grants and tier latches,
      and what any history of them keeps.
    - Shared, SharedSafety, SharedSettle, SharedReserve, SharedTheorems:
      the shared*.go files of pgstore: one transaction books every limit of an
      attempt on top of that ledger and one settles it; the books of counters,
      rate segments, permits and accounts, their preservation by settlement
      and by reservation, and what both profiles guarantee together.
    - Json, Settlement, SettlementTheorems, AttemptSafety, AttemptLedgers:
      internal/server/requestpolicy: the money of one attempt, reserved before
      dispatch and settled by what its provider reports, over the interfaces
      of the local, the durable and the shared ledger; what is settled, what
      histories of attempts do to the node's ledger, and the shared ledger as
      an implementation of its interface.
    - Evidence: internal/audit/{evidence,record,routing,usage}.go and
      requestpolicy/attempt.go: what a request collects of its provider calls,
      and how a terminal record is stamped with it.
    - Exchange, Responses, ResponsesSafety, ResponsesAudit, ResponsesLedger,
      ResponsesTheorems: internal/server/responsesapi: one provider exchange,
      plain or streamed; [ServeHTTP] from the principal to its last deferred
      call, on top of routing, admission and the money of attempts; the answer
      to the client and the calls of providers, the audit trail, what stays
      open in the ledgers, and the four composed with [RouteRequest].

    A file requires the prelude and the parts its code calls.  State is a
    record, an operation a function from the state to its answer and the new
    state; an error is a value of [result].  Names are the source's, except
    where Rocq or another file has taken one.

    ** How the theorems are grouped

    Data: the conversions and stores keep the invariants of their types
    ([FromV1Alpha1_sound], [BuildState_wf]).  Money: counters refine an
    abstract ledger, costs are exact or saturate, admission never exceeds a
    budget by more than the stated overshoot, a settlement charges once, an
    escrowed grant is never overspent whatever fails and across restarts, the
    control plane never commits more of a hard budget than its limit, leased
    or reserved, every open permit settles, once, and no attempt, whatever
    its provider reports, settles past what it reserved.
    Routing: no decision leaves the boundary of access, budget, privacy or
    masking, and a rejected policy changes nothing.  Serving: a request to the
    Responses server is answered once, reaches only the providers of the route
    that the live router plans for it, with the body its policies allow, leaves
    a trail of every call and of how it ended, and leaves nothing reserved.  Audit: what the writer
    stored verifies, an intact anchored file is accepted and a changed one is
    not unless two lines, of it and of the original, have one SHA-256 sum, and a
    lost record stops admission.

    ** Granularity

    An operation that holds a lock, or one SQL transaction, is one atomic
    step; theorems about several callers quantify over sequences of such
    steps.  Clocks are inputs: a reading per call, or a stream of readings
    where a function reads more than once.  Metrics, logs and wake-ups are
    traces or left out where nothing reads them.  A served request is one
    sequence of such steps: what it does outside is the trace of its acts
    ([Act]), and what the outside answers (a provider, a write to the client,
    the context's error) is an environment read at increasing instants, so
    that a theorem for every environment covers every interleaving with them.

    ** Bounds and fuel

    [ParseDuration] runs with one unit per character of its input, the walk to
    the month of a day with 11, the scans of an audit file with its length
    plus one: each loop consumes input at every round, and the theorems about
    them are proved for these values.  Ledger sizes (100000 money cells, 4096
    sessions, 1024 receipts) are the source's constants.

    ** What is left to parameters

    The order in which Go visits a map ([range], any permutation of it); the
    content inspector, the redactor, classifier runs and token estimates; glob
    and tag matchers; SHA-256 and encoding/json (the class [Codec], and [sums]
    and [enc] of the escrow); random identifiers; what SQLite or a file system
    answers; a commit that fails may have landed.  A theorem that needs more than their types states it, and its
    witness instantiates them with concrete functions.  The translation between
    wire formats is the class [ResponsesWire], the providers are functions of
    the environment; a stream is the finite list of what it yields.

    ** Not modelled

    SQL text and the other PostgreSQL stores, HTTP clients, the servers of the
    other wire formats (Anthropic, OpenAI, Bedrock) and of administration,
    providers, exporters, analytics, configuration decoding and the command
    line: they are I/O around the parts above, or translations between wire
    formats.  Tracing spans and panics are left out of the Responses server.
    Detectors of sensitive text and token estimates are heuristics whose
    answers the model takes as given.

    ** Next

    The servers of the other wire formats, which share the parts above with the
    Responses server; the translations between wire formats; the key store; and
    the composition of a node's escrow with the ledger. *)

From stdpp Require Export base option list gmap strings fin_maps fin_sets sorting.
From Stdlib Require Export ZArith Lia.
From Stdlib Require Zify.

#[export] Set Default Goal Selector "!".
#[export] Set Warnings "-register-all,-clear-no-such-hyp".
Open Scope Z_scope.

(** [lia] reads [Z.div] and [Z.modulo] through their Euclidean equations. *)
Ltac Zify.zify_post_hook ::= Z.to_euclidean_division_equations.

(** ** Machine integers *)

Definition MaxInt64 : Z := 9223372036854775807.
Definition MinInt64 : Z := -9223372036854775808.

(** [v] is representable as a Go [int64]. *)
Definition int64 (v : Z) : Prop := MinInt64 <= v <= MaxInt64.

#[export] Instance int64_dec v : Decision (int64 v).
Proof. unfold int64. apply _. Defined.

(** A nonnegative [int64]: the type of every validated counter. *)
Definition nat63 (v : Z) : Prop := 0 <= v <= MaxInt64.

#[export] Instance nat63_dec v : Decision (nat63 v).
Proof. unfold nat63. apply _. Defined.

(** Two's-complement truncation: what an unchecked int64 operation stores. *)
Definition wrap64 (v : Z) : Z := (v + 2 ^ 63) mod 2 ^ 64 - 2 ^ 63.

Lemma wrap64_id v : int64 v → wrap64 v = v.
Proof.
  unfold int64, wrap64, MinInt64, MaxInt64. intros ?.
  rewrite Z.mod_small by lia. lia.
Qed.

Lemma wrap64_int64 v : int64 (wrap64 v).
Proof.
  unfold int64, wrap64, MinInt64, MaxInt64.
  pose proof (Z.mod_pos_bound (v + 2 ^ 63) (2 ^ 64)). lia.
Qed.

Lemma nat63_int64 v : nat63 v → int64 v.
Proof. unfold nat63, int64, MinInt64. lia. Qed.

Ltac int_unfold := unfold nat63, int64, MinInt64, MaxInt64 in *.
Ltac int_lia := int_unfold; lia.

(** ** Results: a Go [(T, error)] pair whose value is meaningless on error *)

Inductive result (E A : Type) :=
| Ok (a : A)
| Err (e : E).
Arguments Ok {E A} a.
Arguments Err {E A} e.

Definition is_ok {E A} (r : result E A) : bool :=
  match r with Ok _ => true | Err _ => false end.

(** [x ← r; k]: Go's [x, err := r; if err != nil { return err }; k]. *)
#[export] Instance result_ret E : MRet (result E) := λ _ a, Ok a.
#[export] Instance result_bind E : MBind (result E) :=
  λ _ _ f r, match r with Ok a => f a | Err e => Err e end.

Lemma bind_Ok {E A B} (m : result E A) (f : A → result E B) b :
  m ≫= f = Ok b → ∃ a, m = Ok a ∧ f a = Ok b.
Proof. destruct m as [a|e]; [|done]. intros H. by exists a. Qed.

(** [guard_ok b e]: Go's [if b { return e }]. *)
Definition guard_ok {E} (b : bool) (e : E) : result E unit := if b then Err e else Ok tt.

Lemma guard_Ok {E A} b (e : E) (f : unit → result E A) a :
  guard_ok b e ≫= f = Ok a → b = false ∧ f tt = Ok a.
Proof. by destruct b. Qed.

Notation "b '!>' e ';;' k" := (guard_ok b e ≫= λ _, k)
  (at level 100, e at level 99, k at level 200, right associativity).

(** Take a successful chain of guards and binds apart. *)
Ltac inv_ok :=
  repeat match goal with
  | H : guard_ok _ _ ≫= _ = Ok _ |- _ => apply guard_Ok in H as [? H]
  | H : ?m ≫= _ = Ok _ |- _ =>
      let a := fresh "a" in let E := fresh "E" in apply bind_Ok in H as (a & E & H)
  | H : Ok _ = Ok _ |- _ => injection H as H; subst
  | H : Err _ = Ok _ |- _ => discriminate H
  end.

Definition is_Some_b {A} (o : option A) : bool := match o with Some _ => true | None => false end.

Lemma is_Some_b_spec {A} (o : option A) : is_Some_b o = true ↔ is_Some o.
Proof. destruct o; simpl; split; intros H; try done; first [by eexists|by destruct H]. Qed.

(** ** The state monad every stateful component uses *)

Definition ST (S A : Type) : Type := S → A * S.

#[export] Instance st_mret S : MRet (ST S) := λ _ a s, (a, s).
#[export] Instance st_mbind S : MBind (ST S) :=
  λ _ _ f m s, let '(a, s') := m s in f a s'.

Definition st_get {S} : ST S S := λ s, (s, s).
Definition st_put {S} (s' : S) : ST S unit := λ _, (tt, s').
Definition st_modify {S} (f : S → S) : ST S unit := λ s, (tt, f s).

(** [wp m Q s]: running [m] in [s] ends in a result and state satisfying [Q]. *)
Definition wp {S A} (m : ST S A) (Q : A → S → Prop) (s : S) : Prop := Q (m s).1 (m s).2.

Lemma wp_mono {S A} (m : ST S A) (Q Q' : A → S → Prop) s :
  wp m Q s → (∀ a s', Q a s' → Q' a s') → wp m Q' s.
Proof. unfold wp. auto. Qed.

Lemma wp_ret {S A} (a : A) (Q : A → S → Prop) s : wp (mret a) Q s ↔ Q a s.
Proof. done. Qed.

Lemma wp_bind {S A B} (m : ST S A) (f : A → ST S B) Q s :
  wp (m ≫= f) Q s ↔ wp m (λ a, wp (f a) Q) s.
Proof. unfold wp, mbind, st_mbind. by destruct (m s). Qed.

Lemma wp_run {S A} (m : ST S A) (Q : A → S → Prop) s a s' : m s = (a, s') → wp m Q s ↔ Q a s'.
Proof. unfold wp. by intros ->. Qed.

Lemma wp_and {S A} (m : ST S A) (Q Q' : A → S → Prop) s :
  wp m Q s → wp m Q' s → wp m (λ a s', Q a s' ∧ Q' a s') s.
Proof. unfold wp. auto. Qed.

Lemma wp_get {S B} (f : S → ST S B) Q s : wp (st_get ≫= f) Q s ↔ wp (f s) Q s.
Proof. done. Qed.

Lemma wp_put {S B} s' (f : unit → ST S B) Q s : wp (st_put s' ≫= f) Q s ↔ wp (f tt) Q s'.
Proof. done. Qed.

Lemma wp_modify {S B} (g : S → S) (f : unit → ST S B) Q s : wp (st_modify g ≫= f) Q s ↔ wp (f tt) Q (g s).
Proof. done. Qed.

(** When what comes before does not matter. *)
Lemma wp_skip {S A B} (m : ST S A) (f : A → ST S B) Q s :
  (∀ a s', wp (f a) Q s') → wp (m ≫= f) Q s.
Proof. intros Hf. rewrite wp_bind. apply Hf. Qed.

(** With an early return: Go's [return e] in the middle of a body. *)
Definition STE (S E A : Type) : Type := S → result E A * S.

#[export] Instance ste_mret S E : MRet (STE S E) := λ _ a s, (Ok a, s).
#[export] Instance ste_mbind S E : MBind (STE S E) :=
  λ _ _ f m s, match m s with (Ok a, s') => f a s' | (Err e, s') => (Err e, s') end.

Definition ste_lift {S E A} (m : ST S A) : STE S E A := λ s, let '(a, s') := m s in (Ok a, s').
Definition early {S E A} (e : E) : STE S E A := λ s, (Err e, s).

Definition wpe {S E A} (m : STE S E A) (Q : result E A → S → Prop) (s : S) : Prop :=
  Q (m s).1 (m s).2.

Lemma wpe_mono {S E A} (m : STE S E A) (Q Q' : result E A → S → Prop) s :
  wpe m Q s → (∀ a s', Q a s' → Q' a s') → wpe m Q' s.
Proof. unfold wpe. auto. Qed.

Lemma wpe_ret {S E A} (a : A) (Q : result E A → S → Prop) s : wpe (mret a) Q s ↔ Q (Ok a) s.
Proof. done. Qed.

Lemma wpe_early {S E A} (e : E) (Q : result E A → S → Prop) s : wpe (early e) Q s ↔ Q (Err e) s.
Proof. done. Qed.

Lemma wpe_bind {S E A B} (m : STE S E A) (f : A → STE S E B) Q s :
  wpe (m ≫= f) Q s ↔
  wpe m (λ r s', match r with Ok a => wpe (f a) Q s' | Err e => Q (Err e) s' end) s.
Proof. unfold wpe, mbind, ste_mbind. by destruct (m s) as [[a|e] s']. Qed.

Lemma wpe_lift {S E A} (m : ST S A) (Q : result E A → S → Prop) s :
  wpe (ste_lift m) Q s ↔ wp m (λ a, Q (Ok a)) s.
Proof. unfold wpe, wp, ste_lift. by destruct (m s). Qed.

(** *** Bodies of transactions: an error discards the state *)

Definition hoare {S E A} (P : S → Prop) (m : STE S E A) (Q : A → S → Prop) : Prop :=
  ∀ s, P s → match m s with (Ok a, s') => Q a s' | (Err _, _) => True end.

Section Hoare.
Context {S E : Type}.

Lemma hoare_ret {A} (P : S → Prop) (a : A) (Q : A → S → Prop) :
  (∀ s, P s → Q a s) → hoare (E := E) P (mret a) Q.
Proof. intros Hpq s Hp. by apply Hpq. Qed.

Lemma hoare_early {A} P (e : E) (Q : A → S → Prop) : hoare P (early e) Q.
Proof. by intros s _. Qed.

Lemma hoare_bind {A B} P (m : STE S E A) (f : A → STE S E B) R Q :
  hoare P m R → (∀ a, hoare (R a) (f a) Q) → hoare P (m ≫= f) Q.
Proof.
  intros Hm Hf s Hp. specialize (Hm s Hp). unfold mbind, ste_mbind.
  destruct (m s) as [[a|e] s']; [by apply Hf|done].
Qed.

Lemma hoare_seq {B} P R (m : STE S E unit) (k : STE S E B) Q :
  hoare P m (λ _, R) → hoare R k Q → hoare P (_ ← m; k) Q.
Proof. intros Hm Hk. eapply hoare_bind; [exact Hm|]. by intros []. Qed.

Lemma hoare_conseq {A} (P P' : S → Prop) (m : STE S E A) Q Q' :
  hoare P' m Q' → (∀ s, P s → P' s) → (∀ a s, Q' a s → Q a s) → hoare P m Q.
Proof. intros Hm HP HQ s Hp. specialize (Hm s (HP _ Hp)). destruct (m s) as [[a|e] s']; auto. Qed.

Lemma hoare_pre {A} (P P' : S → Prop) (m : STE S E A) Q :
  hoare P' m Q → (∀ s, P s → P' s) → hoare P m Q.
Proof. intros Hm HP. by eapply hoare_conseq. Qed.
End Hoare.

(** [pres P m], [prese P m]: [m] preserves [P], whatever it returns. *)
Definition pres {S A} (P : S → Prop) (m : ST S A) : Prop := ∀ s, P s → wp m (λ _, P) s.
Definition prese {S E A} (P : S → Prop) (m : STE S E A) : Prop := ∀ s, P s → wpe m (λ _, P) s.

Lemma pres_ret {S A} (P : S → Prop) (a : A) : pres P (mret a).
Proof. by intros s Hs. Qed.

Lemma pres_bind {S A B} (P : S → Prop) (m : ST S A) (f : A → ST S B) :
  pres P m → (∀ a, pres P (f a)) → pres P (m ≫= f).
Proof.
  intros Hm Hf s Hs. rewrite wp_bind. eapply wp_mono; [by apply Hm|]. intros a s' Hs'. by apply Hf.
Qed.

Lemma pres_get {S B} (P : S → Prop) (f : S → ST S B) : (∀ s, pres P (f s)) → pres P (st_get ≫= f).
Proof. intros Hf s Hs. rewrite wp_get. by apply Hf. Qed.

Lemma pres_modify {S} (P : S → Prop) (f : S → S) : (∀ s, P s → P (f s)) → pres P (st_modify f).
Proof. intros Hf s Hs. by apply Hf. Qed.

Lemma pres_if {S A} (P : S → Prop) (b : bool) (m m' : ST S A) :
  pres P m → pres P m' → pres P (if b then m else m').
Proof. by destruct b. Qed.

Lemma prese_ret {S E A} (P : S → Prop) (a : A) : prese (E := E) P (mret a).
Proof. by intros s Hs. Qed.

Lemma prese_early {S E A} (P : S → Prop) (e : E) : prese (A := A) P (early e).
Proof. by intros s Hs. Qed.

Lemma prese_lift {S E A} (P : S → Prop) (m : ST S A) : pres P m → prese (E := E) P (ste_lift m).
Proof. intros Hm s Hs. rewrite wpe_lift. by apply Hm. Qed.

Lemma prese_bind {S E A B} (P : S → Prop) (m : STE S E A) (f : A → STE S E B) :
  prese P m → (∀ a, prese P (f a)) → prese P (m ≫= f).
Proof.
  intros Hm Hf s Hs. rewrite wpe_bind. eapply wpe_mono; [by apply Hm|].
  intros [a|e] s' Hs'; [by apply Hf|done].
Qed.

Lemma prese_if {S E A} (P : S → Prop) (b : bool) (m m' : STE S E A) :
  prese P m → prese P m' → prese P (if b then m else m').
Proof. by destruct b. Qed.

Create HintDb pres discriminated.
#[export] Hint Resolve pres_ret pres_bind pres_get pres_if prese_ret prese_early prese_lift prese_bind prese_if : pres.

(** ** Lists *)

Definition sumZ (l : list Z) : Z := foldr Z.add 0 l.

Lemma sumZ_app l k : sumZ (l ++ k) = sumZ l + sumZ k.
Proof. induction l as [|x l IH]; simpl; [done|]. lia. Qed.

Lemma sumZ_nonneg l : Forall (λ x, 0 <= x) l → 0 <= sumZ l.
Proof. induction 1; simpl; lia. Qed.

Lemma sumZ_Forall2_le (l k : list Z) : Forall2 Z.le l k → sumZ l <= sumZ k.
Proof. induction 1; simpl; lia. Qed.

(** Go's [slices.Contains]. *)
Definition contains {A} `{EqDecision A} (x : A) (l : list A) : bool :=
  bool_decide (x ∈ l).

Lemma contains_spec {A} `{EqDecision A} (x : A) (l : list A) :
  contains x l = true ↔ x ∈ l.
Proof. unfold contains. apply bool_decide_eq_true. Qed.

Lemma contains_false {A} `{EqDecision A} (x : A) (l : list A) :
  contains x l = false ↔ x ∉ l.
Proof. unfold contains. apply bool_decide_eq_false. Qed.

Lemma forallb_Forall {A} (f : A → bool) l : forallb f l = true ↔ Forall (λ x, f x = true) l.
Proof. rewrite forallb_forall, Forall_forall. by setoid_rewrite list_elem_of_In. Qed.

Lemma existsb_Forall {A} (f : A → bool) l : existsb f l = false ↔ Forall (λ x, f x = false) l.
Proof.
  induction l as [|x l IH]; simpl; [by split|].
  rewrite orb_false_iff, Forall_cons, IH. done.
Qed.

Lemma ex_snoc {A} (P : A → Prop) (l : list A) x :
  (∃ y, y ∈ l ++ [x] ∧ P y) ↔ (∃ y, y ∈ l ∧ P y) ∨ P x.
Proof.
  setoid_rewrite elem_of_app. setoid_rewrite list_elem_of_singleton. split.
  - intros (y & [Hy| ->] & HP); [left; by exists y|by right].
  - intros [(y & Hy & HP)|HP]; [exists y; auto|exists x; auto].
Qed.

Lemma Forall2_conj {A B} (P Q : A → B → Prop) l k :
  Forall2 P l k → Forall2 Q l k → Forall2 (λ x y, P x y ∧ Q x y) l k.
Proof. induction 1; inversion_clear 1; constructor; auto. Qed.

(** ** Heaps *)

(** A location no cell of the heap has. *)
Definition new_loc {A} (h : gmap nat A) : nat := S (max_list (map fst (map_to_list h))).

Lemma new_loc_None {A} (h : gmap nat A) : h !! new_loc h = None.
Proof.
  apply eq_None_not_Some. intros [x Hx]. apply elem_of_map_to_list in Hx.
  assert (new_loc h <= max_list (map fst (map_to_list h)))%nat; [|unfold new_loc in *; lia].
  apply max_list_elem_of_le, list_elem_of_fmap. by exists (new_loc h, x).
Qed.

(** The sum of [f] over a map's values. *)
Definition sum_map {K A} `{Countable K} (f : A → Z) (m : gmap K A) : Z :=
  sumZ (map (λ kv, f kv.2) (map_to_list m)).

Lemma sumZ_perm l k : l ≡ₚ k → sumZ l = sumZ k.
Proof. induction 1; simpl; lia. Qed.

Lemma sum_map_new {K A} `{Countable K} (f : A → Z) (m : gmap K A) i x :
  m !! i = None → sum_map f (<[i := x]> m) = f x + sum_map f m.
Proof.
  intros Hi. unfold sum_map. rewrite (sumZ_perm _ _ (Permutation_map _ (map_to_list_insert m i x Hi))). done.
Qed.

Lemma sum_map_update {K A} `{Countable K} (f : A → Z) (m : gmap K A) i x y :
  m !! i = Some x → sum_map f (<[i := y]> m) = sum_map f m - f x + f y.
Proof.
  intros Hi. rewrite <- (insert_delete_id m i x) at 2 by done.
  rewrite <- (insert_delete_eq m i y). rewrite !sum_map_new by apply lookup_delete_eq. lia.
Qed.

(** ** Strings *)

(** [c] does not occur in [s]. *)
Fixpoint str_free (c : Ascii.ascii) (s : string) : bool :=
  match s with
  | EmptyString => true
  | String a s => (negb (Ascii.eqb a c) && str_free c s)%bool
  end.

Lemma str_free_app c s1 s2 : str_free c (s1 +:+ s2) = (str_free c s1 && str_free c s2)%bool.
Proof.
  induction s1 as [|a s1 IH]; simpl; [done|]. by rewrite IH, andb_assoc.
Qed.

Lemma str_app_assoc s t u : (s +:+ t) +:+ u = s +:+ t +:+ u.
Proof. induction s as [|a s IH]; [done|]. apply (f_equal (String a)), IH. Qed.

Lemma str_app_nil_r s : s +:+ "" = s.
Proof. induction s as [|a s IH]; [done|]. apply (f_equal (String a)), IH. Qed.

Lemma str_length_app s t : String.length (s +:+ t) = (String.length s + String.length t)%nat.
Proof. induction s as [|a s IH]; [done|]. apply (f_equal S), IH. Qed.

(** A separator the first fields do not hold splits a string one way only. *)
Lemma str_split_inj c s1 s2 r1 r2 :
  str_free c s1 = true → str_free c s2 = true →
  s1 +:+ String c r1 = s2 +:+ String c r2 → s1 = s2 ∧ r1 = r2.
Proof.
  revert s2. induction s1 as [|a s1 IH]; intros [|b s2] H1 H2 He; simpl in *.
  - by injection He.
  - injection He as -> _. rewrite Ascii.eqb_refl in H2. done.
  - injection He as -> _. rewrite Ascii.eqb_refl in H1. done.
  - apply andb_true_iff in H1 as [_ H1], H2 as [_ H2]. injection He as -> He.
    destruct (IH _ H1 H2 He). by subst.
Qed.

(** Go's [<] on strings is transitive. *)
Lemma ltb_trans s t u : String.ltb s t = true → String.ltb t u = true → String.ltb s u = true.
Proof.
  unfold String.ltb. revert t u. induction s as [|a s IH]; intros [|b t] [|c u]; simpl; try done.
  unfold Ascii.compare.
  destruct (N.compare_spec (Ascii.N_of_ascii a) (Ascii.N_of_ascii b)) as [Hab|Hab|Hab],
    (N.compare_spec (Ascii.N_of_ascii b) (Ascii.N_of_ascii c)) as [Hbc|Hbc|Hbc]; try done;
  destruct (N.compare_spec (Ascii.N_of_ascii a) (Ascii.N_of_ascii c)) as [Hac|Hac|Hac]; try lia; try done.
  apply IH.
Qed.

Lemma ltb_total s t : String.ltb s t = false → String.ltb t s = true ∨ s = t.
Proof.
  unfold String.ltb. rewrite (String.compare_antisym t s).
  destruct (String.compare s t) eqn:E; simpl; auto.
  right. by apply String.compare_eq_iff.
Qed.

Lemma ltb_irrefl s : String.ltb s s = false.
Proof.
  unfold String.ltb. pose proof (String.compare_antisym s s) as Ha.
  by destruct (String.compare s s).
Qed.

(** sort.Strings of a map's keys. *)
Definition key_le (s t : string) : Prop := String.ltb t s = false.
#[export] Instance key_le_dec s t : Decision (key_le s t) := decide (String.ltb t s = false).

Definition sortedKeys {A} (m : gmap string A) : list string := merge_sort key_le (map_to_list m).*1.

Lemma sortedKeys_elem {A} (m : gmap string A) k : k ∈ sortedKeys m ↔ is_Some (m !! k).
Proof.
  unfold sortedKeys. rewrite merge_sort_Permutation, list_elem_of_fmap. split.
  - intros ([k' x] & -> & Hin). exists x. by apply elem_of_map_to_list.
  - intros [x Hx]. exists (k, x). split; [done|]. by apply elem_of_map_to_list.
Qed.

Lemma sortedKeys_NoDup {A} (m : gmap string A) : NoDup (sortedKeys m).
Proof. unfold sortedKeys. rewrite merge_sort_Permutation. apply NoDup_fst_map_to_list. Qed.

(** ** Automation *)

(** Split boolean conjunctions and disjunctions among the hypotheses into
    their Prop readings. *)
Ltac bsplit :=
  repeat match goal with
  | H : (_ && _)%bool = true |- _ => apply andb_true_iff in H; destruct H
  | H : (_ || _)%bool = false |- _ => apply orb_false_iff in H; destruct H
  | H : negb _ = true |- _ => apply negb_true_iff in H
  | H : negb _ = false |- _ => apply negb_false_iff in H
  | H : (_ <? _) = true |- _ => apply Z.ltb_lt in H
  | H : (_ <? _) = false |- _ => apply Z.ltb_ge in H
  | H : (_ <=? _) = true |- _ => apply Z.leb_le in H
  | H : (_ <=? _) = false |- _ => apply Z.leb_gt in H
  | H : (_ >? _) = true |- _ => rewrite Z.gtb_ltb in H
  | H : (_ >? _) = false |- _ => rewrite Z.gtb_ltb in H
  | H : (_ >=? _) = true |- _ => rewrite Z.geb_leb in H
  | H : (_ >=? _) = false |- _ => rewrite Z.geb_leb in H
  | H : (_ =? _) = true |- _ => apply Z.eqb_eq in H
  | H : (_ =? _) = false |- _ => apply Z.eqb_neq in H
  | H : bool_decide _ = true |- _ => apply bool_decide_eq_true in H
  | H : bool_decide _ = false |- _ => apply bool_decide_eq_false in H
  end.

(** The same, casing on the disjunctions. *)
Ltac bcases :=
  repeat (bsplit; match goal with
  | H : (_ && _)%bool = false |- _ => apply andb_false_iff in H; destruct H as [H|H]
  | H : (_ || _)%bool = true |- _ => apply orb_true_iff in H; destruct H as [H|H]
  end); bsplit.

(** Case on the scrutinee of some conditional or match of the goal. *)
Ltac case_goal :=
  match goal with
  | |- context [match ?x with _ => _ end] => destruct x eqn:?
  end.

(** Case on the scrutinee of some conditional or match of [H]. *)
Ltac case_hyp H :=
  match type of H with
  | context [match ?x with _ => _ end] => destruct x eqn:?
  end.

Create HintDb inferplane discriminated.
#[export] Hint Resolve nat63_int64 wrap64_int64 sumZ_nonneg : inferplane.
