(* ===== verification/GoTime.v ===== *)
(** * Time, as the program reads it from Go's [time] package

    Instants are nanoseconds since the Unix epoch, durations are [int64]
    nanoseconds.  The proleptic Gregorian calendar is [days_from_civil] and
    [civil_from_days]; a [Location] carries the zone lookup its timezone data
    defines (the data itself is not part of the program), and [Date] resolves a
    local civil date in it the way [time.Date] does.  [next_midnight] and
    [next_month] are the two boundaries the budget windows use; the lemmas say
    they are the least local midnight, and the least local first-of-month
    midnight, after the instant. *)

From S2P Require Import Prelude.
From Stdlib Require Import DecimalString DecimalN.

(** ** Instants and durations *)

Definition Time := Z.
Definition Duration := Z.

Definition Nanosecond : Duration := 1.
Definition Microsecond : Duration := 1000.
Definition Millisecond : Duration := 1000000.
Definition Second : Duration := 1000000000.
Definition Minute : Duration := 60 * Second.
Definition Hour : Duration := 60 * Minute.

(** [time.Time{}]: midnight, January 1, year 1, UTC. *)
Definition zeroTime : Time := -62135596800 * Second.
Definition IsZero (t : Time) : bool := t =? zeroTime.
Definition Before (t u : Time) : bool := t <? u.
Definition Add (t : Time) (d : Duration) : Time := t + d.

(** [t.Sub(u)] saturates at the [int64] durations. *)
Definition Sub (t u : Time) : Duration :=
  if t - u <? MinInt64 then MinInt64
  else if MaxInt64 <? t - u then MaxInt64
  else t - u.

Definition unix_sec (t : Time) : Z := t / Second.

(** ** The calendar *)

Definition is_leap (y : Z) : bool :=
  ((y mod 4 =? 0) && (negb (y mod 100 =? 0) || (y mod 400 =? 0)))%bool.

Definition month_len (leap : bool) (m : Z) : Z :=
  if m =? 2 then (if leap then 29 else 28)
  else if ((m =? 4) || (m =? 6) || (m =? 9) || (m =? 11))%bool then 30 else 31.

(** Days of the year before month [m] (1 .. 13). *)
Definition days_before_month (leap : bool) (m : Z) : Z :=
  let l := if leap then 1 else 0 in
  if m <=? 1 then 0 else if m =? 2 then 31
  else if m =? 3 then 59 + l else if m =? 4 then 90 + l
  else if m =? 5 then 120 + l else if m =? 6 then 151 + l
  else if m =? 7 then 181 + l else if m =? 8 then 212 + l
  else if m =? 9 then 243 + l else if m =? 10 then 273 + l
  else if m =? 11 then 304 + l else if m =? 12 then 334 + l
  else 365 + l.

(** Days from January 1 of year 1 to January 1 of year [y]. *)
Definition days_before_year (y : Z) : Z :=
  365 * (y - 1) + (y - 1) / 4 - (y - 1) / 100 + (y - 1) / 400.

(** Days from year 1 to the Unix epoch. *)
Definition unix_days : Z := 719162.

(** The day number (since the Unix epoch) of a civil date.  As in [time.Date],
    the month may overflow its range and is normalized into the year, and the
    day may overflow the month. *)
Definition days_from_civil (y m d : Z) : Z :=
  let y' := y + (m - 1) / 12 in
  let m' := (m - 1) mod 12 + 1 in
  days_before_year y' + days_before_month (is_leap y') m' + (d - 1) - unix_days.

Fixpoint month_of_yday (fuel : nat) (leap : bool) (m yday : Z) : Z :=
  match fuel with
  | O => m
  | S f => if yday <? days_before_month leap (m + 1) then m
           else month_of_yday f leap (m + 1) yday
  end.

(** Year and zero-based day of the year of a day number: 400-, 100-, 4- and
    1-year cycles are cut off in turn. *)
Definition year_of_days (z : Z) : Z * Z :=
  let d := z + unix_days in
  let n400 := d / 146097 in let d1 := d mod 146097 in
  let n100 := Z.min 3 (d1 / 36524) in let d2 := d1 - 36524 * n100 in
  let n4 := d2 / 1461 in let d3 := d2 mod 1461 in
  let n1 := Z.min 3 (d3 / 365) in
  (400 * n400 + 100 * n100 + 4 * n4 + n1 + 1, d3 - 365 * n1).

Definition civil_from_days (z : Z) : Z * Z * Z :=
  let '(y, yday) := year_of_days z in
  let m := month_of_yday 11 (is_leap y) 1 yday in
  (y, m, yday - days_before_month (is_leap y) m + 1).

(** ** Locations *)

(** What [Location.lookup] returns: the zone's offset in seconds and the
    half-open interval of Unix seconds in which it is in force. *)
Record Zone := { z_offset : Z; z_start : Z; z_end : Z }.

Record Location := { loc_name : string; loc_lookup : Z → Zone }.

Definition FixedZone (name : string) (off : Z) : Location :=
  {| loc_name := name;
     loc_lookup := λ _, {| z_offset := off; z_start := MinInt64; z_end := MaxInt64 |} |}.

Definition UTC : Location := FixedZone "UTC" 0.

(** The local civil date of an instant. *)
Definition civil_in (t : Time) (l : Location) : Z * Z * Z :=
  let s := unix_sec t in
  civil_from_days ((s + z_offset (loc_lookup l s)) / 86400).

(** [time.Date(y, m, d, 0, 0, 0, 0, l)]: the offset is looked up at the local
    reading taken as UTC, and looked up again at the adjusted instant when that
    falls outside the zone found first. *)
Definition Date (y m d : Z) (l : Location) : Time :=
  let unix := days_from_civil y m d * 86400 in
  let z := loc_lookup l unix in
  let off :=
    if z_offset z =? 0 then 0
    else let utc := unix - z_offset z in
         if ((utc <? z_start z) || (z_end z <=? utc))%bool
         then z_offset (loc_lookup l utc) else z_offset z in
  (unix - off) * Second.

Definition next_midnight (t : Time) (l : Location) : Time :=
  let '(y, m, d) := civil_in t l in Date y m (d + 1) l.

Definition next_month (t : Time) (l : Location) : Time :=
  let '(y, m, _) := civil_in t l in Date y (m + 1) 1 l.

(** ** Decimal printing *)

Definition dec (n : Z) : string := NilZero.string_of_uint (N.to_uint (Z.to_N n)).

Fixpoint zeros (n : nat) : string :=
  match n with O => "" | S k => "0" +:+ zeros k end.

(** Zero-padded decimal of a nonnegative number. *)
Definition pad (w : nat) (n : Z) : string :=
  let s := dec n in zeros (w - String.length s) +:+ s.

Definition pad_year (y : Z) : string :=
  if y <? 0 then "-" +:+ pad 4 (- y) else pad 4 y.

(** [Format("2006-01-02")] and [Format("2006-01")] in location [l]. *)
Definition format_day (t : Time) (l : Location) : string :=
  let '(y, m, d) := civil_in t l in
  pad_year y +:+ "-" +:+ pad 2 m +:+ "-" +:+ pad 2 d.

Definition format_month (t : Time) (l : Location) : string :=
  let '(y, m, _) := civil_in t l in pad_year y +:+ "-" +:+ pad 2 m.

(** [Duration.String]: [fmtFrac] prints [v / 10^prec] without trailing zeros. *)
Fixpoint fmt_frac (prec : nat) (v : Z) (print : bool) (acc : string) : string * Z * bool :=
  match prec with
  | O => (acc, v, print)
  | S p =>
      let digit := v mod 10 in
      let print' := (print || negb (digit =? 0))%bool in
      fmt_frac p (v / 10) print' (if print' then dec digit +:+ acc else acc)
  end.

Definition fmt_frac_int (prec : nat) (v : Z) : string * Z :=
  let '(s, v', print) := fmt_frac prec v false "" in
  ((if print then "." +:+ s else s), v').

(** The two bytes of the micro sign in UTF-8. *)
Definition micro_sign : string :=
  String (Ascii.ascii_of_nat 194) (String (Ascii.ascii_of_nat 181) "").

Definition duration_string (d : Duration) : string :=
  let u := Z.abs d in
  let body :=
    if u <? Second then
      if u =? 0 then "0s"
      else if u <? Microsecond then dec u +:+ "ns"
      else if u <? Millisecond then
        let '(f, i) := fmt_frac_int 3 u in dec i +:+ f +:+ micro_sign +:+ "s"
      else let '(f, i) := fmt_frac_int 6 u in dec i +:+ f +:+ "ms"
    else
      let '(f, s) := fmt_frac_int 9 u in
      let secs := dec (s mod 60) +:+ f +:+ "s" in
      let m := s / 60 in
      if m =? 0 then secs
      else let mins := dec (m mod 60) +:+ "m" +:+ secs in
           let h := m / 60 in
           if h =? 0 then mins else dec h +:+ "h" +:+ mins in
  if d <? 0 then "-" +:+ body else body.

(** ** Calendar lemmas *)

Definition year_len (y : Z) : Z := if is_leap y then 366 else 365.

Lemma days_before_year_succ y :
  days_before_year (y + 1) = days_before_year y + year_len y.
Proof.
  unfold days_before_year, year_len, is_leap.
  replace (y + 1 - 1) with y by lia.
  destruct (y mod 4 =? 0) eqn:?, (y mod 100 =? 0) eqn:?, (y mod 400 =? 0) eqn:?;
    simpl; bsplit; lia.
Qed.

Lemma year_of_days_spec z y yd :
  year_of_days z = (y, yd) →
  z + unix_days = days_before_year y + yd ∧ 0 <= yd < year_len y.
Proof.
  unfold year_of_days, year_len, is_leap, days_before_year. intros [= <- <-].
  set (d := z + unix_days).
  pose proof (Z.div_mod d 146097). pose proof (Z.mod_pos_bound d 146097).
  set (n400 := d / 146097) in *. set (d1 := d mod 146097) in *.
  set (n100 := Z.min 3 (d1 / 36524)).
  assert (0 <= n100 <= 3 ∧ 36524 * n100 <= d1 ∧ (d1 < 36524 * (n100 + 1) ∨ n100 = 3)) by lia.
  set (d2 := d1 - 36524 * n100).
  assert (d2 < 36524 ∨ (n100 = 3 ∧ d2 <= 36524)) by lia.
  set (n4 := d2 / 1461). set (d3 := d2 mod 1461).
  assert (d2 = 1461 * n4 + d3 ∧ 0 <= d3 < 1461) by (subst n4 d3; lia).
  set (n1 := Z.min 3 (d3 / 365)).
  assert (0 <= n1 <= 3 ∧ 365 * n1 <= d3 ∧ (d3 < 365 * (n1 + 1) ∨ n1 = 3)) by lia.
  assert (0 <= n4 <= 24) by lia.
  replace (400 * n400 + 100 * n100 + 4 * n4 + n1 + 1 - 1)
    with (400 * n400 + 100 * n100 + 4 * n4 + n1) by lia.
  replace ((400 * n400 + 100 * n100 + 4 * n4 + n1) / 4)
    with (100 * n400 + 25 * n100 + n4) by lia.
  replace ((400 * n400 + 100 * n100 + 4 * n4 + n1) / 100)
    with (4 * n400 + n100) by lia.
  replace ((400 * n400 + 100 * n100 + 4 * n4 + n1) / 400) with n400 by lia.
  split; [lia|].
  split; [lia|].
  clearbody d n400 d1 n100 d2 n4 d3 n1.
  destruct ((400 * n400 + 100 * n100 + 4 * n4 + n1 + 1) mod 4 =? 0) eqn:E4,
    ((400 * n400 + 100 * n100 + 4 * n4 + n1 + 1) mod 100 =? 0) eqn:E100,
    ((400 * n400 + 100 * n100 + 4 * n4 + n1 + 1) mod 400 =? 0) eqn:E400;
    simpl; bsplit; lia.
Qed.

Lemma days_before_month_succ leap m :
  1 <= m <= 12 →
  days_before_month leap (m + 1) = days_before_month leap m + month_len leap m.
Proof.
  intros Hm.
  assert (m = 1 ∨ m = 2 ∨ m = 3 ∨ m = 4 ∨ m = 5 ∨ m = 6 ∨ m = 7 ∨ m = 8 ∨ m = 9
          ∨ m = 10 ∨ m = 11 ∨ m = 12) as Hc by lia.
  destruct_or! Hc; subst m; destruct leap; reflexivity.
Qed.

Lemma month_of_yday_spec fuel leap m yday :
  1 <= m → m + Z.of_nat fuel = 12 → days_before_month leap m <= yday →
  yday < days_before_month leap 13 →
  let r := month_of_yday fuel leap m yday in
  1 <= r <= 12 ∧ days_before_month leap r <= yday < days_before_month leap (r + 1).
Proof.
  revert m. induction fuel as [|f IH]; intros m Hm Hf Hlo Hhi; cbn [month_of_yday].
  - assert (m = 12) as -> by lia. replace (12 + 1) with 13 by lia. lia.
  - case_match eqn:E; bsplit; [lia|].
    apply IH; lia.
Qed.

Lemma month_len_pos leap m : 28 <= month_len leap m <= 31.
Proof. unfold month_len. repeat case_match; lia. Qed.

(** Every day number is the day number of its civil date, whose fields are in
    range. *)
Lemma civil_from_days_spec z y m d :
  civil_from_days z = (y, m, d) →
  days_from_civil y m d = z ∧ 1 <= m <= 12 ∧ 1 <= d <= month_len (is_leap y) m.
Proof.
  unfold civil_from_days. destruct (year_of_days z) as [y' yd] eqn:Hy.
  remember (month_of_yday 11 (is_leap y') 1 yd) as m' eqn:Em'.
  intros [= <- <- <-]. apply year_of_days_spec in Hy as [Hz Hyd].
  assert (1 <= m' <= 12 ∧ days_before_month (is_leap y') m' <= yd
          < days_before_month (is_leap y') (m' + 1)) as [Hm Hb].
  { subst m'. apply month_of_yday_spec; [lia|lia|cbn; lia|].
    unfold year_len in Hyd. destruct (is_leap y'); cbn; lia. }
  rewrite days_before_month_succ in Hb by lia.
  split; [|lia].
  unfold days_from_civil.
  rewrite Z.div_small, Z.mod_small by lia.
  replace (y' + 0) with y' by lia. replace (m' - 1 + 1) with m' by lia. lia.
Qed.

Lemma days_from_civil_day y m d k :
  days_from_civil y m (d + k) = days_from_civil y m d + k.
Proof. unfold days_from_civil. lia. Qed.

(** The first of the next month is [month_len] days after the first, the year
    boundary included. *)
Lemma days_from_civil_month y m :
  1 <= m <= 12 →
  days_from_civil y (m + 1) 1 = days_from_civil y m 1 + month_len (is_leap y) m.
Proof.
  intros Hm. unfold days_from_civil.
  rewrite (Z.div_small (m - 1)), (Z.mod_small (m - 1)) by lia.
  destruct (decide (m = 12)) as [->|].
  - replace (12 + 1 - 1) with 12 by lia.
    change (12 / 12) with 1. rewrite days_before_year_succ. unfold year_len.
    change (days_before_month ?l (12 mod 12 + 1)) with 0.
    replace (y + 0) with y by lia. change (12 - 1 + 1) with 12.
    destruct (is_leap y); unfold days_before_month, month_len; simpl; lia.
  - replace (m + 1 - 1) with m by lia.
    rewrite Z.div_small, Z.mod_small by lia.
    replace (y + 0) with y by lia. replace (m - 1 + 1) with m by lia.
    rewrite days_before_month_succ by lia. lia.
Qed.

(** ** Local boundaries in a zone of fixed offset *)

Lemma Date_fixed y m d n off :
  Date y m d (FixedZone n off) = (days_from_civil y m d * 86400 - off) * Second.
Proof.
  unfold Date. cbn [FixedZone loc_lookup z_offset z_start z_end].
  destruct (off =? 0) eqn:E; bsplit; [subst; lia|].
  by case_match.
Qed.

(** [t] reads as midnight, and as midnight of a first of a month, in a zone of
    offset [off]. *)
Definition local_midnight (off : Z) (t : Time) : Prop :=
  ∃ day, t = (day * 86400 - off) * Second.
Definition local_month_start (off : Z) (t : Time) : Prop :=
  ∃ y m, t = (days_from_civil y m 1 * 86400 - off) * Second.

Lemma day_of_instant t off day :
  (unix_sec t + off) / 86400 = day →
  (day * 86400 - off) * Second <= t < ((day + 1) * 86400 - off) * Second.
Proof. unfold unix_sec, Second. intros <-. lia. Qed.

Lemma next_midnight_eq t n off :
  next_midnight t (FixedZone n off)
  = (((unix_sec t + off) / 86400 + 1) * 86400 - off) * Second.
Proof.
  unfold next_midnight, civil_in. cbn [FixedZone loc_lookup z_offset].
  destruct (civil_from_days _) as [[y m] d] eqn:E.
  apply civil_from_days_spec in E as (Hd & _).
  change {| loc_name := n; loc_lookup := _ |} with (FixedZone n off).
  rewrite Date_fixed, days_from_civil_day, Hd. done.
Qed.

Lemma next_month_eq t n off :
  ∃ y m, 1 <= m <= 12
  ∧ next_month t (FixedZone n off)
    = (days_from_civil y (m + 1) 1 * 86400 - off) * Second
  ∧ (days_from_civil y m 1 * 86400 - off) * Second <= t
    < (days_from_civil y (m + 1) 1 * 86400 - off) * Second.
Proof.
  unfold next_month, civil_in. cbn [FixedZone loc_lookup z_offset].
  destruct (civil_from_days _) as [[y m] d] eqn:E.
  apply civil_from_days_spec in E as (Hd & Hm & Hr).
  change {| loc_name := n; loc_lookup := _ |} with (FixedZone n off).
  exists y, m. rewrite Date_fixed. split; [done|]. split; [done|].
  symmetry in Hd. apply day_of_instant in Hd.
  pose proof (days_from_civil_month y m Hm).
  replace d with (1 + (d - 1)) in Hd by lia. rewrite days_from_civil_day in Hd.
  unfold Second in *. lia.
Qed.

(** The day number of the first of the [k]-th month, counting from January of
    year 0: strictly increasing in [k]. *)
Definition month_start (k : Z) : Z := days_from_civil 0 (k + 1) 1.

Lemma days_from_civil_month_start y m :
  days_from_civil y m 1 = month_start (12 * y + m - 1).
Proof.
  unfold month_start, days_from_civil.
  replace (12 * y + m - 1 + 1 - 1) with (m - 1 + y * 12) by lia.
  rewrite Z.div_add, Z.mod_add by lia.
  by replace (0 + ((m - 1) / 12 + y)) with (y + (m - 1) / 12) by lia.
Qed.

Lemma month_start_succ k : month_start k < month_start (k + 1).
Proof.
  pose proof (Z.div_mod k 12 ltac:(lia)) as Hk.
  pose proof (Z.mod_pos_bound k 12 ltac:(lia)) as Hb.
  generalize dependent (k mod 12). generalize (k / 12). intros q r Hk Hb.
  assert (month_start k = days_from_civil q (r + 1) 1) as ->.
  { rewrite days_from_civil_month_start. f_equal. lia. }
  assert (month_start (k + 1) = days_from_civil q (r + 1 + 1) 1) as ->.
  { rewrite days_from_civil_month_start. f_equal. lia. }
  rewrite (days_from_civil_month q (r + 1)) by lia.
  pose proof (month_len_pos (is_leap q) (r + 1)). lia.
Qed.

Lemma month_start_lt j k : j < k → month_start j < month_start k.
Proof.
  intros Hjk. replace k with (j + 1 + Z.of_nat (Z.to_nat (k - j - 1))) by lia.
  induction (Z.to_nat (k - j - 1)) as [|n IH].
  - rewrite Z.add_0_r. apply month_start_succ.
  - pose proof (month_start_succ (j + 1 + Z.of_nat n)).
    replace (j + 1 + Z.of_nat (S n)) with (j + 1 + Z.of_nat n + 1) by lia. lia.
Qed.

Lemma month_start_inv j k : month_start j < month_start k → j < k.
Proof.
  intros H. destruct (decide (j < k)) as [|Hge]; [done|].
  destruct (decide (j = k)) as [->|]; [lia|].
  pose proof (month_start_lt k j). lia.
Qed.

(** ** The two boundaries

    Each is a local midnight (the month's, on the first), lies strictly after
    the instant, and no such midnight lies between. *)
Lemma next_midnight_least t n off :
  let e := next_midnight t (FixedZone n off) in
  local_midnight off e ∧ t < e <= t + 24 * Hour ∧
  ∀ u, local_midnight off u → t < u → e <= u.
Proof.
  cbv zeta. rewrite next_midnight_eq. set (q := (unix_sec t + off) / 86400).
  pose proof (day_of_instant t off q eq_refl) as Hq. clearbody q.
  unfold Second, Hour, Minute, Second in *.
  split; [by exists (q + 1)|]. split; [lia|].
  intros u [day ->] Hu. unfold Second in *. lia.
Qed.

Lemma next_month_least t n off :
  let e := next_month t (FixedZone n off) in
  local_month_start off e ∧ t < e <= t + 31 * 24 * Hour ∧
  ∀ u, local_month_start off u → t < u → e <= u.
Proof.
  cbv zeta. destruct (next_month_eq t n off) as (y & m & Hm & -> & Hb).
  split; [by exists y, (m + 1)|].
  split.
  { pose proof (days_from_civil_month y m Hm).
    pose proof (month_len_pos (is_leap y) m).
    unfold Hour, Minute, Second in *. lia. }
  intros u (y' & m' & ->) Hu.
  rewrite !days_from_civil_month_start in *.
  assert (12 * y + m - 1 < 12 * y' + m' - 1) as Hk.
  { apply month_start_inv. unfold Second in *. lia. }
  destruct (decide (12 * y + (m + 1) - 1 = 12 * y' + m' - 1)) as [->|]; [lia|].
  pose proof (month_start_lt (12 * y + (m + 1) - 1) (12 * y' + m' - 1)).
  unfold Second. lia.
Qed.

(** ** Printed durations hold no colon *)

Definition colon : Ascii.ascii := Ascii.ascii_of_nat 58.

Lemma dec_free n : str_free colon (dec n) = true.
Proof.
  unfold dec. generalize (N.to_uint (Z.to_N n)) as u. intros u.
  assert (∀ v, str_free colon (NilEmpty.string_of_uint v) = true) as Hv.
  { intros v. induction v; simpl; done. }
  destruct u; simpl; done || apply Hv.
Qed.

Lemma fmt_frac_free prec v print acc :
  str_free colon acc = true → str_free colon (fmt_frac prec v print acc).1.1 = true.
Proof.
  revert v print acc. induction prec as [|p IH]; intros v print acc Ha; simpl; [done|].
  apply IH. case_match; [|done]. by rewrite str_free_app, dec_free, Ha.
Qed.

Lemma fmt_frac_int_free prec v : str_free colon (fmt_frac_int prec v).1 = true.
Proof.
  unfold fmt_frac_int. pose proof (fmt_frac_free prec v false "" eq_refl) as H.
  destruct (fmt_frac prec v false "") as [[s v'] print]. simpl in *. by case_match.
Qed.

Lemma duration_string_free d : str_free colon (duration_string d) = true.
Proof.
  unfold duration_string.
  repeat match goal with
  | |- context [fmt_frac_int ?p ?v] =>
      let H := fresh in
      pose proof (fmt_frac_int_free p v) as H; destruct (fmt_frac_int p v); simpl in H
  | |- _ => case_match
  end; rewrite ?str_free_app, ?dec_free; simpl; rewrite ?str_free_app, ?dec_free; simpl;
  rewrite ?andb_true_r; done.
Qed.
