(* ===== verification/GoFloat.v ===== *)
(** * float64, as Go computes it

    IEEE 754 binary64 through the Standard Library's [SpecFloat]: every operation
    rounds to nearest, ties to even.  The conversions are Go's: [of_int] from an
    [int64], [to_int] truncating toward zero (for values in range, which is all
    the program converts). *)

From S2P Require Import Prelude GoTime.
From Stdlib Require Export SpecFloat.

Definition prec : Z := 53.
Definition emax : Z := 1024.

Definition float64 : Type := spec_float.

Definition of_int (z : Z) : float64 := binary_normalize prec emax z 0 false.
Definition fadd : float64 → float64 → float64 := SFadd prec emax.
Definition fsub : float64 → float64 → float64 := SFsub prec emax.
Definition fmul : float64 → float64 → float64 := SFmul prec emax.
Definition fdiv : float64 → float64 → float64 := SFdiv prec emax.

Definition fltb (x y : float64) : bool := SFltb x y.
Definition fleb (x y : float64) : bool := SFleb x y.

(** [int64(f)] for [f] in range. *)
Definition to_int (x : float64) : Z :=
  match x with
  | S754_finite s mx e =>
      let a := if 0 <=? e then Z.pos mx * 2 ^ e else Z.pos mx / 2 ^ (- e) in
      if s then - a else a
  | _ => 0
  end.

Definition nonneg_float (x : float64) : bool := fleb (of_int 0) x.

(** [Duration.Seconds]: whole seconds plus the fraction. *)
Definition Seconds (d : Duration) : float64 :=
  fadd (of_int (Z.quot d Second)) (fdiv (of_int (Z.rem d Second)) (of_int Second)).

(** ** [time.ParseDuration] *)

Definition is_digit (a : Ascii.ascii) : bool :=
  let n := Ascii.nat_of_ascii a in ((48 <=? n)%nat && (n <=? 57)%nat)%bool.
Definition digit (a : Ascii.ascii) : Z := Z.of_nat (Ascii.nat_of_ascii a) - 48.
Definition dot : Ascii.ascii := Ascii.ascii_of_nat 46.

Definition two63 : Z := 2 ^ 63.

(** [leadingInt]: [None] on overflow. *)
Fixpoint leadingInt (s : string) (x : Z) : option (Z * string) :=
  match s with
  | String c r =>
      if is_digit c then
        if two63 / 10 <? x then None
        else let y := x * 10 + digit c in
             if two63 <? y then None else leadingInt r y
      else Some (x, s)
  | EmptyString => Some (x, s)
  end.

(** [leadingFraction]: digits past the overflow are read and ignored. *)
Fixpoint leadingFraction (s : string) (x : Z) (scale : float64) (overflow : bool)
    : Z * float64 * string :=
  match s with
  | String c r =>
      if is_digit c then
        if overflow then leadingFraction r x scale true
        else if (two63 - 1) / 10 <? x then leadingFraction r x scale true
        else let y := x * 10 + digit c in
             if two63 <? y then leadingFraction r x scale true
             else leadingFraction r y (fmul scale (of_int 10)) false
      else (x, scale, s)
  | EmptyString => (x, scale, s)
  end.

(** The longest prefix without digit or dot, and the rest. *)
Fixpoint span_unit (s : string) : string * string :=
  match s with
  | String c r =>
      if (is_digit c || Ascii.eqb c dot)%bool then (EmptyString, s)
      else let '(u, r') := span_unit r in (String c u, r')
  | EmptyString => (EmptyString, EmptyString)
  end.

(** Greek small mu in UTF-8, the other spelling of the micro unit. *)
Definition mu_sign : string :=
  String (Ascii.ascii_of_nat 206) (String (Ascii.ascii_of_nat 188) "").

Definition unitMap (u : string) : option Z :=
  if bool_decide (u = "ns") then Some Nanosecond
  else if bool_decide (u = "us") then Some Microsecond
  else if bool_decide (u = micro_sign +:+ "s") then Some Microsecond
  else if bool_decide (u = mu_sign +:+ "s") then Some Microsecond
  else if bool_decide (u = "ms") then Some Millisecond
  else if bool_decide (u = "s") then Some Second
  else if bool_decide (u = "m") then Some Minute
  else if bool_decide (u = "h") then Some Hour
  else None.

(** One [number unit] term: its nanoseconds and the rest of the text. *)
Definition duration_term (s : string) : option (Z * string) :=
  match s with
  | EmptyString => None
  | String c _ =>
      if negb (Ascii.eqb c dot || is_digit c)%bool then None
      else
        '(v, s1) ← leadingInt s 0;
        let pre := negb (Nat.eqb (String.length s) (String.length s1)) in
        let '(f, scale, s2, post) :=
          match s1 with
          | String c1 r1 =>
              if Ascii.eqb c1 dot then
                let '(f, scale, r2) := leadingFraction r1 0 (of_int 1) false in
                (f, scale, r2, negb (Nat.eqb (String.length r1) (String.length r2)))
              else (0, of_int 1, s1, false)
          | EmptyString => (0, of_int 1, s1, false)
          end in
        if negb (pre || post)%bool then None
        else
          let '(u, s3) := span_unit s2 in
          if bool_decide (u = "") then None
          else
            unit ← unitMap u;
            if two63 / unit <? v then None
            else
              let v := v * unit in
              let v := if 0 <? f
                       then v + to_int (fmul (of_int f) (fdiv (of_int unit) scale)) else v in
              if two63 <? v then None else Some (v, s3)
  end.

(** The loop over terms; every term consumes text, so the length is enough fuel. *)
Fixpoint duration_loop (fuel : nat) (s : string) (d : Z) : option Z :=
  match s, fuel with
  | EmptyString, _ => Some d
  | _, O => None
  | _, S fuel =>
      '(v, r) ← duration_term s;
      let d := d + v in
      if two63 <? d then None else duration_loop fuel r d
  end.

Definition ParseDuration (s : string) : option Duration :=
  let '(neg, s) :=
    match s with
    | String c r =>
        if Ascii.eqb c (Ascii.ascii_of_nat 45) then (true, r)
        else if Ascii.eqb c (Ascii.ascii_of_nat 43) then (false, r) else (false, s)
    | EmptyString => (false, s)
    end in
  if bool_decide (s = "0") then Some 0
  else if bool_decide (s = "") then None
  else
    d ← duration_loop (String.length s) s 0;
    if neg then Some (- d) else if two63 - 1 <? d then None else Some d.

(** ** The fuel is enough *)

Lemma leadingInt_len s x v r : leadingInt s x = Some (v, r) → (String.length r <= String.length s)%nat.
Proof.
  revert x. induction s as [|c s IH]; intros x; simpl; [by intros [= _ <-]|].
  destruct (is_digit c); [|by intros [= _ <-]].
  destruct (_ <? x); [done|]. destruct (two63 <? _); [done|].
  intros H. apply IH in H. lia.
Qed.

Lemma leadingFraction_len s x sc o :
  (String.length (leadingFraction s x sc o).2 <= String.length s)%nat.
Proof.
  revert x sc o. induction s as [|c s IH]; intros x sc o; simpl; [done|].
  destruct (is_digit c); [|done]. repeat case_match; (etrans; [apply IH|lia]).
Qed.

Lemma span_unit_len s :
  (String.length (span_unit s).1 + String.length (span_unit s).2 = String.length s)%nat.
Proof.
  induction s as [|c s IH]; simpl; [done|]. case_match; [done|].
  destruct (span_unit s). simpl in *. lia.
Qed.

Lemma duration_term_len s v r :
  duration_term s = Some (v, r) → (String.length r < String.length s)%nat.
Proof.
  destruct s as [|c s']; [done|]. unfold duration_term. set (s := String c s').
  destruct (negb _); [done|]. destruct (leadingInt s 0) as [[v0 s1]|] eqn:E; [|done].
  apply leadingInt_len in E. cbn [mbind option_bind].
  assert (∀ (s2 : string) b f sc, (String.length s2 <= String.length s1)%nat →
    (if negb b then None
     else let '(u, s3) := span_unit s2 in
       if bool_decide (u = "") then None
       else unit ← unitMap u;
            if two63 / unit <? v0 then None
            else let v := v0 * unit in
                 let v := if 0 <? f then v + to_int (fmul (of_int f) (fdiv (of_int unit) sc)) else v in
                 if two63 <? v then None else Some (v, s3)) = Some (v, r) →
    (String.length r < String.length s)%nat) as Hk.
  { intros s2 b f sc Hle. destruct (negb b); [done|].
    pose proof (span_unit_len s2) as Hsp. destruct (span_unit s2) as [u s3]. simpl in Hsp.
    case_bool_decide as Hu; [done|]. destruct (unitMap u); [|done]. cbn [mbind option_bind].
    destruct (_ <? v0); [done|]. cbv zeta. destruct (two63 <? _); [done|]. intros [= _ <-].
    destruct u; [done|]. simpl in Hsp. lia. }
  destruct s1 as [|c1 r1]; [by apply (Hk "")|].
  destruct (Ascii.eqb c1 dot); [|by apply Hk].
  pose proof (leadingFraction_len r1 0 (of_int 1) false) as Hf.
  destruct (leadingFraction r1 0 (of_int 1) false) as [[f sc] r2]. simpl in Hf.
  apply Hk. simpl. lia.
Qed.

(** More fuel than the length of the text never changes the parse. *)
Lemma duration_loop_fuel fuel s d :
  (String.length s <= fuel)%nat → duration_loop fuel s d = duration_loop (String.length s) s d.
Proof.
  assert (∀ f g s d, (String.length s <= f)%nat → (String.length s <= g)%nat →
                     duration_loop f s d = duration_loop g s d) as H; [|intros; by apply H].
  clear. intros f. induction f as [|f IH]; intros [|g] [|c s] d Hf Hg; simpl in Hf, Hg;
    try lia; try done.
  cbn [duration_loop]. destruct (duration_term (String c s)) as [[v r]|] eqn:E; [|done].
  cbn [mbind option_bind]. case_match; [done|]. apply duration_term_len in E. simpl in E.
  apply IH; lia.
Qed.
