(* ===== verification/Json.v ===== *)
(** * JSON documents (encoding/json)

    What the gateway reads of a decoded document: the members of an object, the
    last of duplicates as a map decode keeps it, and integers as they decode
    into an [int64].  Literals of numbers keep their text. *)

From S2P Require Import Prelude.

Unset Elimination Schemes.
Inductive json :=
| JNull
| JBool (b : bool)
| JNumber (literal : string)
| JString (s : string)
| JArray (l : list json)
| JObject (fields : list (string * json)).
Set Elimination Schemes.

(** Induction with the hypothesis for every element and member. *)
Definition json_ind (P : json → Prop) (Hnull : P JNull) (Hbool : ∀ b, P (JBool b)) (Hnum : ∀ s, P (JNumber s)) (Hstr : ∀ s, P (JString s))
    (Harr : ∀ l, Forall P l → P (JArray l)) (Hobj : ∀ fs, Forall (λ f, P f.2) fs → P (JObject fs)) : ∀ j, P j :=
  fix go (j : json) : P j :=
    match j with
    | JNull => Hnull | JBool b => Hbool b | JNumber s => Hnum s | JString s => Hstr s
    | JArray l => Harr l ((fix all (l : list json) : Forall P l :=
        match l with [] => List.Forall_nil _ | j :: l => @List.Forall_cons _ P _ _ (go j) (all l) end) l)
    | JObject fs => Hobj fs ((fix all (fs : list (string * json)) : Forall (λ f, P f.2) fs :=
        match fs with [] => List.Forall_nil _ | f :: fs => @List.Forall_cons _ (λ f, P f.2) _ _ (go f.2) (all fs) end) fs)
    end.

(** A member of a decoded object: the last one of its name. *)
Fixpoint member {A} (k : string) (fs : list (string * A)) : option A :=
  match fs with
  | [] => None
  | (k', v) :: fs => match member k fs with Some w => Some w | None => if bool_decide (k' = k) then Some v else None end
  end.

Lemma member_map {A B} (f : A → B) k fs : member k (map (λ p, (p.1, f p.2)) fs) = f <$> member k fs.
Proof.
  induction fs as [|[k' v] fs IH]; simpl; [done|]. rewrite IH. destruct (member k fs); simpl; [done|]. by case_bool_decide.
Qed.

Lemma member_in {A} k (fs : list (string * A)) v : member k fs = Some v → (k, v) ∈ fs.
Proof.
  induction fs as [|[k' w] fs IH]; simpl; [done|]. destruct (member k fs) as [u|].
  - intros [= ->]. right. by apply IH.
  - case_bool_decide; [|done]. intros [= ->]. subst. by left.
Qed.

(** ** Integers *)

Definition digit_of (a : Ascii.ascii) : option Z :=
  let n := Z.of_nat (Ascii.nat_of_ascii a) in if ((48 <=? n) && (n <=? 57))%bool then Some (n - 48) else None.

Fixpoint digits (s : string) (acc : Z) : option Z :=
  match s with
  | EmptyString => Some acc
  | String a s => match digit_of a with Some d => digits s (10 * acc + d) | None => None end
  end.

(** [strconv.ParseInt(s, 10, 64)] of a JSON literal, which has no plus sign. *)
Definition ParseInt (s : string) : option Z :=
  let '(neg, rest) := match s with
    | String a rest => if bool_decide (Ascii.nat_of_ascii a = 45%nat) then (true, rest) else (false, s)
    | EmptyString => (false, s)
    end in
  if bool_decide (rest = "") then None
  else match digits rest 0 with
  | Some n => let z := if (neg : bool) then - n else n in if bool_decide (int64 z) then Some z else None
  | None => None
  end.

(** [json.Unmarshal] into an [int64] that was zero. *)
Definition to_int64 (j : json) : option Z :=
  match j with JNumber s => ParseInt s | JNull => Some 0 | _ => None end.

Lemma to_int64_range j n : to_int64 j = Some n → int64 n.
Proof.
  destruct j; simpl; try done; [intros [= <-]; int_lia|]. unfold ParseInt.
  destruct (match _ with String _ _ => _ | _ => _ end) as [neg rest]. destruct (bool_decide _); [done|].
  destruct (digits rest 0); [|done]. case_bool_decide; [|done]. by intros [= <-].
Qed.
