(* ===== verification/Usage.v ===== *)
(** * Provider usage observations (pkg/schema/usage.go, response.go)

    [Usage] is the billing observation a provider frame carries; [MergeUsage]
    folds the frames of one response and [CacheWriteAccounting] resolves the two
    wire shapes of cache-write tokens.  A [*int64] field is an [option Z]; the
    passthrough [Extra] map is an optional finite map, [None] being Go's nil. *)

From S2P Require Import Prelude.

Record CacheCreation := {
  Ephemeral5mInputTokens : option Z;
  Ephemeral1hInputTokens : option Z;
  cc_Extra : option (gmap string string)
}.

Record Usage := {
  InputTokens : option Z;
  OutputTokens : option Z;
  CacheReadInputTokens : option Z;
  CacheCreationInputTokens : option Z;
  CacheCreation_ : option CacheCreation;
  Extra : option (gmap string string);
  AccountingUncertain : bool
}.

(** Go's [if next.F != nil { out.F = next.F }]. *)
Definition latest {A} (acc next : option A) : option A :=
  match next with Some _ => next | None => acc end.

(** Go's [if out.Extra == nil { out.Extra = next.Extra }]. *)
Definition first {A} (acc next : option A) : option A :=
  match acc with Some _ => acc | None => next end.

Definition deref64 (p : option Z) : Z := default 0 p.

(** [len] of a possibly nil map is zero. *)
Definition no_extra (m : option (gmap string string)) : bool :=
  match m with None => true | Some m => bool_decide (m = ∅) end.

Definition mergeCacheCreation (acc next : option CacheCreation) : option CacheCreation :=
  match next, acc with
  | None, _ => acc
  | Some n, None => Some n
  | Some n, Some a =>
      Some {| Ephemeral5mInputTokens := latest (Ephemeral5mInputTokens a) (Ephemeral5mInputTokens n);
              Ephemeral1hInputTokens := latest (Ephemeral1hInputTokens a) (Ephemeral1hInputTokens n);
              cc_Extra := first (cc_Extra a) (cc_Extra n) |}
  end.

Definition MergeUsage (acc next : option Usage) : option Usage :=
  match next, acc with
  | None, _ => acc
  | Some n, None =>
      Some {| InputTokens := InputTokens n; OutputTokens := OutputTokens n;
              CacheReadInputTokens := CacheReadInputTokens n;
              CacheCreationInputTokens := CacheCreationInputTokens n;
              CacheCreation_ := mergeCacheCreation None (CacheCreation_ n);
              Extra := Extra n; AccountingUncertain := AccountingUncertain n |}
  | Some n, Some a =>
      Some {| InputTokens := latest (InputTokens a) (InputTokens n);
              OutputTokens := latest (OutputTokens a) (OutputTokens n);
              CacheReadInputTokens := latest (CacheReadInputTokens a) (CacheReadInputTokens n);
              CacheCreationInputTokens :=
                latest (CacheCreationInputTokens a) (CacheCreationInputTokens n);
              CacheCreation_ := mergeCacheCreation (CacheCreation_ a) (CacheCreation_ n);
              Extra := first (Extra a) (Extra n);
              AccountingUncertain := (AccountingUncertain a || AccountingUncertain n)%bool |}
  end.

(** The fold every settlement path performs over the frames of one response. *)
Definition merge_frames (frames : list (option Usage)) : option Usage :=
  foldl MergeUsage None frames.

Record CacheWriteCounts := {
  FiveMinutes : Z; OneHour : Z; Total : Z;
  QuantityKnown : bool; TTLKnown : bool; Invalid : bool
}.

Definition CacheWriteAccounting (u : option Usage) : CacheWriteCounts :=
  match u with
  | None => {| FiveMinutes := 0; OneHour := 0; Total := 0;
               QuantityKnown := true; TTLKnown := true; Invalid := false |}
  | Some u =>
    let flat := deref64 (CacheCreationInputTokens u) in
    match CacheCreation_ u with
    | None =>
        {| FiveMinutes := flat; OneHour := 0; Total := flat;
           QuantityKnown := negb (flat <? 0); TTLKnown := flat =? 0; Invalid := flat <? 0 |}
    | Some cc =>
        let five := deref64 (Ephemeral5mInputTokens cc) in
        let one := deref64 (Ephemeral1hInputTokens cc) in
        if ((flat <? 0) || (five <? 0) || (one <? 0) || (MaxInt64 - one <? five))%bool
        then {| FiveMinutes := five; OneHour := one; Total := 0;
                QuantityKnown := false; TTLKnown := false; Invalid := true |}
        else
        let split := five + one in
        let complete := (bool_decide (is_Some (Ephemeral5mInputTokens cc))
                         && bool_decide (is_Some (Ephemeral1hInputTokens cc)))%bool in
        match CacheCreationInputTokens u with
        | Some _ =>
            if ((flat <? split) || (complete && negb (split =? 0) && negb (flat =? split)))%bool
            then {| FiveMinutes := five; OneHour := one; Total := split;
                    QuantityKnown := false; TTLKnown := false; Invalid := true |}
            else {| FiveMinutes := five + (flat - split); OneHour := one; Total := flat;
                    QuantityKnown := no_extra (cc_Extra cc);
                    TTLKnown := (complete && no_extra (cc_Extra cc) && (flat =? split))%bool;
                    Invalid := false |}
        | None =>
            {| FiveMinutes := five; OneHour := one; Total := split;
               QuantityKnown := (complete && no_extra (cc_Extra cc))%bool;
               TTLKnown := (complete && no_extra (cc_Extra cc) && (split =? split))%bool;
               Invalid := false |}
        end
    end
  end.

Definition CacheWriteTiers (u : option Usage) : Z * Z :=
  let c := CacheWriteAccounting u in (FiveMinutes c, OneHour c).

(** ** The fold *)

#[export] Instance latest_assoc {A} : Assoc (=) (@latest A).
Proof. by intros [] [] []. Qed.
#[export] Instance first_assoc {A} : Assoc (=) (@first A).
Proof. by intros [] [] []. Qed.

#[export] Instance mergeCacheCreation_assoc : Assoc (=) mergeCacheCreation.
Proof.
  intros [x|] [y|] [z|]; try done. simpl. f_equal. f_equal;
    (apply latest_assoc || apply first_assoc).
Qed.

(** Usage folding is a monoid with nil as its unit, so the frames may be folded
    in any grouping. *)
#[export] Instance MergeUsage_left_id : LeftId (=) None MergeUsage.
Proof. by intros [[? ? ? ? [] ? ?]|]. Qed.
#[export] Instance MergeUsage_right_id : RightId (=) None MergeUsage.
Proof. by intros [[]|]. Qed.
#[export] Instance MergeUsage_assoc_inst : Assoc (=) MergeUsage.
Proof.
  intros [x|] [y|] [z|]; simpl; try done.
  - by rewrite !(assoc_L latest), (assoc_L first), (assoc_L mergeCacheCreation), orb_assoc.
  - by destruct (CacheCreation_ z).
  - by destruct (CacheCreation_ y), (CacheCreation_ z).
  - by destruct (CacheCreation_ z).
Qed.

(** The last present value among the frames. *)
Definition last_present {A} (l : list (option A)) : option A := foldl latest None l.
(** The first present value among the frames. *)
Definition first_present {A} (l : list (option A)) : option A := foldl first None l.

Lemma merge_frames_snoc l f : merge_frames (l ++ [f]) = MergeUsage (merge_frames l) f.
Proof. unfold merge_frames. by rewrite foldl_app. Qed.

(** A field the fold refines frame by frame holds its last present value. *)
Lemma merge_field {A} (p : option Usage → option A) :
  p None = None →
  (∀ a n, p (MergeUsage a n) = latest (p a) (p n)) →
  ∀ l, p (merge_frames l) = last_present (map p l).
Proof.
  intros H0 Hp l. induction l as [|f l IH] using rev_ind; [done|].
  unfold last_present in *. rewrite merge_frames_snoc, Hp, IH, map_app, foldl_app. done.
Qed.

Definition tier5m (u : option Usage) : option Z := (u ≫= CacheCreation_) ≫= Ephemeral5mInputTokens.
Definition tier1h (u : option Usage) : option Z := (u ≫= CacheCreation_) ≫= Ephemeral1hInputTokens.

Lemma latest_None_l {A} (x : option A) : latest None x = x.
Proof. by destruct x. Qed.

Ltac merge_field_tac :=
  match goal with
  | |- _ (merge_frames ?l) = last_present (map ?p ?l) => apply (merge_field p)
  end;
  [done|]; unfold tier5m, tier1h; intros [a|] [n|]; cbn; rewrite ?latest_None_l;
  try destruct (CacheCreation_ a); try destruct (CacheCreation_ n);
  cbn; rewrite ?latest_None_l; done.

Definition uncertain (u : option Usage) : bool := from_option AccountingUncertain false u.

Lemma merge_uncertain l : uncertain (merge_frames l) = existsb uncertain l.
Proof.
  induction l as [|f l IH] using rev_ind; [done|].
  rewrite merge_frames_snoc, existsb_app, <- IH. simpl. rewrite orb_false_r.
  destruct (merge_frames l), f; simpl; by rewrite ?orb_false_r.
Qed.

Lemma CacheWriteAccounting_flat u :
  CacheCreation_ u = None →
  let c := CacheWriteAccounting (Some u) in
  FiveMinutes c = deref64 (CacheCreationInputTokens u) ∧ OneHour c = 0.
Proof. intros H. simpl. by rewrite H. Qed.

(** the fold of a response's frames holds, field by field, the latest value
    any frame reported (a fold, not a sum), and the folded observation is
    uncertain exactly when some frame was. *)
Theorem merge_frames_latest (frames : list (option Usage)) :
  let u := merge_frames frames in
  u ≫= InputTokens = last_present (map (mbind InputTokens) frames) ∧
  u ≫= OutputTokens = last_present (map (mbind OutputTokens) frames) ∧
  u ≫= CacheReadInputTokens = last_present (map (mbind CacheReadInputTokens) frames) ∧
  u ≫= CacheCreationInputTokens = last_present (map (mbind CacheCreationInputTokens) frames) ∧
  tier5m u = last_present (map tier5m frames) ∧
  tier1h u = last_present (map tier1h frames) ∧
  uncertain u = existsb uncertain frames.
Proof.
  cbv zeta. repeat split.
  - merge_field_tac.
  - merge_field_tac.
  - merge_field_tac.
  - merge_field_tac.
  - merge_field_tac.
  - merge_field_tac.
  - apply merge_uncertain.
Qed.

(** The bounds every [int64] field of a decoded observation meets. *)
Definition usage_int64 (u : Usage) : Prop :=
  int64 (deref64 (CacheCreationInputTokens u)) ∧
  ∀ cc, CacheCreation_ u = Some cc →
    int64 (deref64 (Ephemeral5mInputTokens cc)) ∧ int64 (deref64 (Ephemeral1hInputTokens cc)).

(** a valid cache-write observation conserves the reported quantity: the two
    tiers are nonnegative, sum to the total without overflow, and a reported
    flat total is that sum, never added to the split. *)
Theorem CacheWriteAccounting_conserves (u : Usage) :
  usage_int64 u →
  let c := CacheWriteAccounting (Some u) in
  Invalid c = false →
  nat63 (FiveMinutes c) ∧ nat63 (OneHour c) ∧ FiveMinutes c + OneHour c = Total c ∧
  nat63 (Total c) ∧
  (∀ flat, CacheCreationInputTokens u = Some flat → Total c = flat) ∧
  (∀ cc, CacheCreation_ u = Some cc →
    OneHour c = deref64 (Ephemeral1hInputTokens cc) ∧
    deref64 (Ephemeral5mInputTokens cc) <= FiveMinutes c).
Proof.
  intros [Hflat Hcc] c. subst c. simpl.
  destruct (CacheCreation_ u) as [cc|] eqn:E; simpl.
  - destruct (Hcc cc eq_refl) as [H5 H1].
    case_match eqn:E1; [done|].
    destruct (CacheCreationInputTokens u) as [f|] eqn:Ef; simpl in *.
    + case_match eqn:E2; [done|]. intros _. simpl in *. bsplit.
      repeat split; try int_lia; intros; simplify_eq; int_lia.
    + intros _. simpl in *. bsplit.
      repeat split; try int_lia; intros; simplify_eq; int_lia.
  - intros Hi. bsplit. repeat split; try int_lia; intros; simplify_eq; simpl; try lia.
    destruct (CacheCreationInputTokens u); simplify_eq; done.
Qed.

Lemma CacheWriteAccounting_conserves_witness :
  let u := {| InputTokens := Some 2; OutputTokens := Some 3; CacheReadInputTokens := None;
              CacheCreationInputTokens := Some 100;
              CacheCreation_ := Some {| Ephemeral5mInputTokens := Some 40;
                                        Ephemeral1hInputTokens := None; cc_Extra := None |};
              Extra := None; AccountingUncertain := false |} in
  FiveMinutes (CacheWriteAccounting (Some u)) = 100 ∧
  FiveMinutes (CacheWriteAccounting (Some u)) + OneHour (CacheWriteAccounting (Some u))
    = Total (CacheWriteAccounting (Some u)).
Proof.
  split; [reflexivity|].
  apply CacheWriteAccounting_conserves; [|reflexivity].
  split; [split; vm_compute; discriminate|].
  intros cc Hc. injection Hc as <-. repeat split; vm_compute; discriminate.
Defined.
