(* ===== verification/Pricing.v ===== *)
(** * Pricing (internal/pricing)

    Integer micro-USD rates per million tokens, the two-stage rate lookup with
    its Bedrock region prefixes, context tiers, the checked round-half-even cost
    and the conservative authority bound.  A [*Table] receiver is an
    [option Table]; Go's [math/big] integers are Rocq's [Z]. *)

From S2P Require Import Prelude.
From S2P Require Usage.

(** ** Data *)

Record Key := { Provider : string; Model : string }.

#[export] Instance Key_eq_dec : EqDecision Key.
Proof. solve_decision. Defined.
#[export] Instance Key_countable : Countable Key.
Proof.
  apply (inj_countable' (λ k, (Provider k, Model k))
                        (λ p, {| Provider := p.1; Model := p.2 |})).
  by intros [].
Defined.

(** Micro-USD per 1,000,000 tokens for each token class. *)
Inductive Rate := mkRate {
  InputPerMTok : Z;
  OutputPerMTok : Z;
  CacheReadPerMTok : Z;
  CacheWrite5mPerMTok : Z;
  CacheWrite1hPerMTok : Z;
  ShortContextLimit : Z;
  LongContext : option Rate;
  CacheWriteUnsupported : bool
}.

Record Usage := mkUsage {
  Input : Z; Output : Z; CacheRead : Z; CacheWrite5m : Z; CacheWrite1h : Z;
  Invalid : bool;
  Uncertain : bool
}.

Inductive OnMissing := OnMissingAllow | OnMissingBlock.

#[export] Instance OnMissing_eq_dec : EqDecision OnMissing.
Proof. solve_decision. Defined.

Record Table := { onMissing : OnMissing; rates : gmap Key Rate; Version : string }.

Inductive Error := ErrInvalidCost | ErrAuthorityBound.

(** ** Usage totals (usage.go) *)

(** The five token classes in the order every loop of the package visits. *)
Definition usage_counts (u : Usage) : list Z :=
  [Input u; Output u; CacheRead u; CacheWrite5m u; CacheWrite1h u].

Definition FromUsage (u : option Usage.Usage) : Usage :=
  match u with
  | None => mkUsage 0 0 0 0 0 false true
  | Some o =>
      let number (p : option Z) := match p with None => 0 | Some v => v end in
      let c := Usage.CacheWriteAccounting u in
      mkUsage (number (Usage.InputTokens o)) (number (Usage.OutputTokens o))
              (number (Usage.CacheReadInputTokens o))
              (Usage.FiveMinutes c) (Usage.OneHour c)
              (Usage.Invalid c)
              (Usage.AccountingUncertain o
               || bool_decide (Usage.InputTokens o = None)
               || bool_decide (Usage.OutputTokens o = None)
               || negb (Usage.QuantityKnown c))%bool
  end.

Fixpoint total_loop (l : list Z) (total : Z) : result Error Z :=
  match l with
  | [] => Ok total
  | n :: l' =>
      if ((n <? 0) || (MaxInt64 - total <? n))%bool then Err ErrInvalidCost
      else total_loop l' (total + n)
  end.

Definition TotalTokens (u : Usage) : result Error Z :=
  if Invalid u then Err ErrInvalidCost else total_loop (usage_counts u) 0.

(** ** Rate lookup (pricing.go) *)

Definition bedrockRegionPrefixes : list string := ["global."; "us."; "eu."; "apac."; "us-gov."].

(** [strings.HasPrefix] and the remainder after the prefix. *)
Fixpoint strip_prefix (p s : string) : option string :=
  match p, s with
  | EmptyString, _ => Some s
  | String a p', String b s' => if Ascii.eqb a b then strip_prefix p' s' else None
  | String _ _, EmptyString => None
  end.

Fixpoint normalize_loop (prefixes : list string) (model : string) : string :=
  match prefixes with
  | [] => ""
  | p :: ps => match strip_prefix p model with
               | Some rest => rest
               | None => normalize_loop ps model
               end
  end.

Definition normalizeModel (model : string) : string := normalize_loop bedrockRegionPrefixes model.

Definition BaseModelID (model : string) : string :=
  let base := normalizeModel model in
  if bool_decide (base = "") then model else base.

Definition rate_fields (r : Rate) : list Z :=
  [InputPerMTok r; OutputPerMTok r; CacheReadPerMTok r; CacheWrite5mPerMTok r; CacheWrite1hPerMTok r].

Fixpoint valid (r : Rate) : bool :=
  match r with
  | mkRate i o cr c5 c1 limit long unsupported =>
      if (unsupported && (negb (c5 =? 0) || negb (c1 =? 0)))%bool then false
      else if existsb (λ n, n <? 0) [i; o; cr; c5; c1] then false
      else match long with
           | None => limit =? 0
           | Some l =>
               ((0 <? limit)
                && match LongContext l with None => true | Some _ => false end
                && (ShortContextLimit l =? 0) && valid l)%bool
           end
  end.

Definition lookup (t : option Table) (provider model : string) : option Rate :=
  match t with
  | None => None
  | Some t =>
      let found :=
        match rates t !! {| Provider := provider; Model := model |} with
        | Some r => Some r
        | None =>
            let base := normalizeModel model in
            if bool_decide (base = "") then None
            else rates t !! {| Provider := provider; Model := base |}
        end in
      match found with
      | Some r => if valid r then Some r else None
      | None => None
      end
  end.

Definition HasRate (t : option Table) (provider model : string) : bool :=
  match lookup t provider model with Some _ => true | None => false end.

(** [isLong] subtracts in [int64]; [wrap64] is what an unchecked subtraction
    stores. *)
Fixpoint long_loop (l : list Z) (remaining : Z) : bool :=
  match l with
  | [] => false
  | n :: l' => if remaining <? n then true else long_loop l' (wrap64 (remaining - n))
  end.

Definition isLong (r : Rate) (u : Usage) : bool :=
  match LongContext r with
  | None => false
  | Some _ => long_loop [Input u; CacheRead u; CacheWrite5m u; CacheWrite1h u] (ShortContextLimit r)
  end.

Definition ContextTier (t : option Table) (provider model : string) (u : Usage) : string :=
  if (Invalid u || Uncertain u)%bool then ""
  else if existsb (λ n, n <? 0) (usage_counts u) then ""
  else match lookup t provider model with
       | None => ""
       | Some r => match LongContext r with
                   | None => ""
                   | Some _ => if isLong r u then "long" else "short"
                   end
       end.

Definition NewVersioned (om : OnMissing) (rs : gmap Key Rate) (version : string) : Table :=
  {| onMissing := om; rates := rs;
     Version := if bool_decide (version = "") then "unversioned" else version |}.

Definition New (om : OnMissing) (rs : gmap Key Rate) : Table := NewVersioned om rs "bundled".

(** ** Checked cost (checked.go) *)

Definition denominator : Z := 1000000.

(** One token class, rounded half to even on the division by 10^6. *)
Definition class_cost (count rate : Z) : Z :=
  let n := count * rate in
  let q := n ÷ denominator in
  let rem := Z.rem n denominator in
  match Z.shiftl rem 1 ?= denominator with
  | Gt => q + 1
  | Eq => if Z.testbit q 0 then q + 1 else q
  | Lt => q
  end.

Fixpoint cost_loop (items : list (Z * Z)) (total : Z) : result Error Z :=
  match items with
  | [] => Ok total
  | (count, rate) :: rest =>
      if ((count <? 0) || (rate <? 0))%bool then Err ErrInvalidCost
      else cost_loop rest (total + class_cost count rate)
  end.

Definition cost_items (u : Usage) (r : Rate) : list (Z * Z) :=
  [(Input u, InputPerMTok r); (Output u, OutputPerMTok r); (CacheRead u, CacheReadPerMTok r);
   (CacheWrite5m u, CacheWrite5mPerMTok r); (CacheWrite1h u, CacheWrite1hPerMTok r)].

(** The rate of the tier the request falls into. *)
Definition tier_rate (r : Rate) (u : Usage) : Rate :=
  if isLong r u then default r (LongContext r) else r.

Definition CostUSDMicrosChecked (t : option Table) (provider model : string) (u : Usage)
    : result Error Z :=
  _ ← TotalTokens u;
  match t with
  | None => Err ErrAuthorityBound
  | Some _ =>
      match lookup t provider model with
      | None => Err ErrAuthorityBound
      | Some r0 =>
          let r := tier_rate r0 u in
          if (CacheWriteUnsupported r
              && (negb (CacheWrite5m u =? 0) || negb (CacheWrite1h u =? 0)))%bool
          then Err ErrInvalidCost
          else total ← cost_loop (cost_items u r) 0;
               if bool_decide (int64 total) then Ok total else Err ErrInvalidCost
      end
  end.

Definition CostUSDMicros (t : option Table) (provider model : string) (u : Usage) : Z * bool :=
  match CostUSDMicrosChecked t provider model u with
  | Ok cost => (cost, false)
  | Err _ => (0, true)
  end.

(** ** Authority bound (authority.go) *)

(** One class, rounded up. *)
Definition class_bound (count rate : Z) : Z :=
  let n := count * rate in
  let q := n ÷ denominator in
  if 0 <? Z.rem n denominator then q + 1 else q.

Fixpoint bound_loop (items : list (Z * Z)) (total : Z) : result Error Z :=
  match items with
  | [] => Ok total
  | (count, rate) :: rest =>
      if rate <? 0 then Err ErrAuthorityBound
      else bound_loop rest (total + class_bound count rate)
  end.

Definition bound_rate (r : Rate) : Rate :=
  match LongContext r with
  | None => r
  | Some long =>
      mkRate (InputPerMTok r `max` InputPerMTok long)
             (OutputPerMTok r `max` OutputPerMTok long)
             (CacheReadPerMTok r `max` CacheReadPerMTok long)
             (CacheWrite5mPerMTok r `max` CacheWrite5mPerMTok long)
             (CacheWrite1hPerMTok r `max` CacheWrite1hPerMTok long)
             (ShortContextLimit r) (LongContext r) (CacheWriteUnsupported r)
  end.

Definition AuthorityBound (t : option Table) (provider model : string)
    (inputLimit outputLimit : Z) : result Error Z :=
  match t with
  | None => Err ErrAuthorityBound
  | Some _ =>
      if ((inputLimit <=? 0) || (outputLimit <=? 0))%bool then Err ErrAuthorityBound
      else match lookup t provider model with
           | None => Err ErrAuthorityBound
           | Some r0 =>
               let r := bound_rate r0 in
               total ← bound_loop
                 [(inputLimit, InputPerMTok r); (inputLimit, CacheReadPerMTok r);
                  (inputLimit, CacheWrite5mPerMTok r); (inputLimit, CacheWrite1hPerMTok r);
                  (outputLimit, OutputPerMTok r)] 0;
               if bool_decide (int64 total) then Ok total else Err ErrAuthorityBound
           end
  end.

(** ** Bundled rates (bundled.go) *)

Definition flat_rate (i o cr c5 c1 : Z) : Rate := mkRate i o cr c5 c1 0 None false.

Definition Bundled : gmap Key Rate := list_to_map [
  ({| Provider := "anthropic-direct"; Model := "claude-sonnet-4-6" |},
   flat_rate 3000000 15000000 300000 3750000 6000000);
  ({| Provider := "anthropic-direct"; Model := "claude-opus-4-8" |},
   flat_rate 5000000 25000000 500000 6250000 10000000);
  ({| Provider := "anthropic-direct"; Model := "claude-opus-5-5" |},
   flat_rate 4000000 20000000 200000 5000000 8000000);
  ({| Provider := "anthropic-direct"; Model := "claude-sonnet-5-5" |},
   flat_rate 2000000 10000000 100000 2500000 4000000)].

(** ** Rounding lemmas *)

(** [q] is [n / d] rounded to the nearest integer, ties to the even one. *)
Definition half_even (n d q : Z) : Prop :=
  2 * Z.abs (n - d * q) <= d ∧ (2 * Z.abs (n - d * q) = d → Z.even q = true).

Lemma half_even_unique n d q q' : 0 < d → half_even n d q → half_even n d q' → q = q'.
Proof.
  intros Hd [H1 E1] [H2 E2].
  destruct (Z.lt_trichotomy q q') as [Hlt|[->|Hlt]]; [|done|].
  - assert (q' = q + 1) as -> by nia.
    assert (Z.even q = true) by (apply E1; nia).
    assert (Z.even (q + 1) = true) as He by (apply E2; nia).
    rewrite Z.even_add in He. by destruct (Z.even q).
  - assert (q = q' + 1) as -> by nia.
    assert (Z.even q' = true) by (apply E2; nia).
    assert (Z.even (q' + 1) = true) as He by (apply E1; nia).
    rewrite Z.even_add in He. by destruct (Z.even q').
Qed.

Lemma quot_rem_nonneg n :
  0 <= n → n = denominator * (n ÷ denominator) + Z.rem n denominator
           ∧ 0 <= Z.rem n denominator < denominator ∧ 0 <= n ÷ denominator.
Proof.
  intros Hn. unfold denominator.
  pose proof (Z.quot_rem' n 1000000). pose proof (Z.rem_bound_pos n 1000000).
  pose proof (Z.quot_pos n 1000000). lia.
Qed.

Lemma class_cost_half_even count rate :
  0 <= count → 0 <= rate → half_even (count * rate) denominator (class_cost count rate).
Proof.
  intros Hc Hr. unfold class_cost, half_even.
  destruct (quot_rem_nonneg (count * rate)) as (Hn & Hrem & Hq); [nia|].
  set (n := count * rate) in *. set (q := n ÷ denominator) in *.
  set (rem := Z.rem n denominator) in *. clearbody n q rem.
  rewrite Z.shiftl_mul_pow2 by lia. change (2 ^ 1) with 2.
  unfold denominator in *.
  destruct (Z.compare_spec (rem * 2) 1000000) as [E|E|E].
  - rewrite Z.bit0_odd. destruct (Z.odd q) eqn:Eo.
    + split; [lia|]. intros _. rewrite Z.even_add, <- Z.negb_odd, Eo. done.
    + split; [lia|]. intros _. by rewrite <- Z.negb_odd, Eo.
  - split; lia.
  - split; lia.
Qed.

Lemma class_cost_bounds count rate :
  0 <= count → 0 <= rate → 0 <= class_cost count rate <= class_bound count rate.
Proof.
  intros Hc Hr. unfold class_cost, class_bound.
  destruct (quot_rem_nonneg (count * rate)) as (Hn & Hrem & Hq); [nia|].
  rewrite Z.shiftl_mul_pow2 by lia. change (2 ^ 1) with 2.
  destruct (0 <? Z.rem (count * rate) denominator) eqn:E; bsplit;
    repeat case_match; try lia.
  - apply Z.compare_eq in H. unfold denominator in *. lia.
  - apply Z.compare_gt_iff in H. unfold denominator in *. lia.
Qed.

Lemma class_bound_mono c c' r r' :
  0 <= c <= c' → 0 <= r <= r' → class_bound c r <= class_bound c' r'.
Proof.
  intros Hc Hr. unfold class_bound.
  destruct (quot_rem_nonneg (c * r)) as (H1 & H2 & H3); [nia|].
  destruct (quot_rem_nonneg (c' * r')) as (H1' & H2' & H3'); [nia|].
  assert (c * r <= c' * r') by nia.
  unfold denominator in *.
  case_match; case_match; bsplit; nia.
Qed.

(** ** Loop lemmas *)

Lemma total_loop_spec l total :
  0 <= total <= MaxInt64 →
  total_loop l total
  = if decide (Forall (λ n, 0 <= n) l ∧ total + sumZ l <= MaxInt64)
    then Ok (total + sumZ l) else Err ErrInvalidCost.
Proof.
  revert total. induction l as [|n l IH]; intros total Ht; simpl.
  { rewrite decide_True; [by rewrite Z.add_0_r|]. split; [constructor|lia]. }
  case_match eqn:E.
  - rewrite decide_False; [done|]. intros [Hf Hs]. inversion Hf; subst.
    pose proof (sumZ_nonneg l ltac:(done)).
    apply orb_true_iff in E as [E|E]; bsplit; lia.
  - bsplit. rewrite IH by lia.
    replace (total + (n + sumZ l)) with (total + n + sumZ l) by lia.
    apply decide_ext. rewrite Forall_cons. intuition.
Qed.

Lemma TotalTokens_spec u total :
  TotalTokens u = Ok total ↔
  Invalid u = false ∧ Forall (λ n, 0 <= n) (usage_counts u)
  ∧ total = sumZ (usage_counts u) ∧ total <= MaxInt64.
Proof.
  unfold TotalTokens. destruct (Invalid u); [naive_solver|].
  rewrite total_loop_spec by int_lia. rewrite Z.add_0_l.
  case_decide as Hd; naive_solver.
Qed.

Lemma long_loop_spec l remaining :
  Forall (λ n, 0 <= n) l → 0 <= remaining <= MaxInt64 →
  long_loop l remaining = (remaining <? sumZ l).
Proof.
  intros Hl. revert remaining. induction Hl as [|n l Hn Hl IH]; intros rem Hrem; simpl.
  { symmetry. apply Z.ltb_ge. lia. }
  case_match eqn:E; bsplit.
  - symmetry. apply Z.ltb_lt. pose proof (sumZ_nonneg l Hl). lia.
  - rewrite wrap64_id by int_lia. rewrite IH by lia.
    destruct (Z.ltb_spec (rem - n) (sumZ l)), (Z.ltb_spec rem (n + sumZ l)); lia.
Qed.

Lemma cost_loop_spec items total :
  Forall (λ i, 0 <= i.1 ∧ 0 <= i.2) items →
  cost_loop items total = Ok (total + sumZ (map (λ i, class_cost i.1 i.2) items)).
Proof.
  intros H. revert total. induction H as [|[c r] items [Hc Hr] H IH]; intros total; simpl in *.
  { by rewrite Z.add_0_r. }
  destruct ((c <? 0) || (r <? 0))%bool eqn:E.
  { apply orb_true_iff in E as [E|E]; bsplit; lia. }
  rewrite IH. f_equal. lia.
Qed.

Lemma cost_loop_total items total c :
  cost_loop items total = Ok c →
  Forall (λ i, 0 <= i.1 ∧ 0 <= i.2) items
  ∧ c = total + sumZ (map (λ i, class_cost i.1 i.2) items).
Proof.
  revert total. induction items as [|[n r] items IH]; intros total; simpl.
  { intros [= <-]. split; [constructor|lia]. }
  case_match eqn:E; [done|]. intros H. apply IH in H as [HF ->]. bsplit.
  split; [by constructor|lia].
Qed.

Lemma bound_loop_spec items total b :
  bound_loop items total = Ok b →
  b = total + sumZ (map (λ i, class_bound i.1 i.2) items).
Proof.
  revert total. induction items as [|[n r] items IH]; intros total; simpl.
  { intros [= <-]. lia. }
  case_match; [done|]. intros Hb%IH. lia.
Qed.

(** ** Valid rates *)

Lemma valid_fields r : valid r = true → Forall (λ n, 0 <= n) (rate_fields r).
Proof.
  destruct r; simpl. case_match; [done|]. case_match eqn:E; [done|]. intros _.
  bsplit. unfold rate_fields; simpl. repeat constructor; lia.
Qed.

Lemma valid_long r long :
  valid r = true → LongContext r = Some long →
  0 < ShortContextLimit r ∧ LongContext long = None ∧ valid long = true.
Proof.
  destruct r; simpl. intros Hv ->.
  do 2 (case_match; [done|]). bsplit. destruct (LongContext long); [done|]. auto.
Qed.

Lemma lookup_valid t p m r : lookup t p m = Some r → valid r = true.
Proof. unfold lookup. repeat case_match; naive_solver. Qed.

Lemma tier_rate_valid r u : valid r = true → valid (tier_rate r u) = true.
Proof.
  intros Hv. unfold tier_rate. case_match; [|done].
  destruct (LongContext r) eqn:E; simpl; [|done]. by eapply valid_long.
Qed.

Lemma tier_rate_le_bound r u :
  valid r = true → Forall2 Z.le (rate_fields (tier_rate r u)) (rate_fields (bound_rate r)).
Proof.
  intros Hv. unfold tier_rate, bound_rate, isLong.
  destruct (LongContext r) as [long|] eqn:E; simpl.
  - case_match; simpl; repeat constructor; simpl; lia.
  - repeat constructor; lia.
Qed.

(** ** Decomposition of a successful cost *)

Lemma cost_inv t p m u c :
  CostUSDMicrosChecked t p m u = Ok c →
  ∃ r, lookup t p m = Some r ∧ valid r = true ∧ TotalTokens u = Ok (sumZ (usage_counts u)) ∧
    Forall (λ i, 0 <= i.1 ∧ 0 <= i.2) (cost_items u (tier_rate r u)) ∧
    c = sumZ (map (λ i, class_cost i.1 i.2) (cost_items u (tier_rate r u))) ∧ int64 c.
Proof.
  unfold CostUSDMicrosChecked. cbn [mbind result_bind].
  destruct (TotalTokens u) as [tot|] eqn:Et; [|done].
  destruct t as [t|]; [|done].
  destruct (lookup (Some t) p m) as [r|] eqn:El; [|done].
  case_match; [done|].
  destruct (cost_loop _ 0) as [total|] eqn:Ec; [|done]. cbn.
  case_bool_decide; [|done]. intros [= <-].
  apply cost_loop_total in Ec as [HF ->]. rewrite Z.add_0_l in *.
  exists r. split; [done|]. split; [by eapply lookup_valid|].
  assert (Et' := Et). apply TotalTokens_spec in Et as (_ & _ & -> & _). done.
Qed.

Lemma cost_nonneg items :
  Forall (λ i, 0 <= i.1 ∧ 0 <= i.2) items →
  0 <= sumZ (map (λ i, class_cost i.1 i.2) items).
Proof.
  intros HF. apply sumZ_nonneg, Forall_map. eapply Forall_impl; [done|].
  intros [n r] [? ?]. simpl in *. by apply class_cost_bounds.
Qed.

Lemma CostUSDMicros_nonneg t p m u : 0 <= (CostUSDMicros t p m u).1.
Proof.
  unfold CostUSDMicros. destruct (CostUSDMicrosChecked t p m u) as [c|] eqn:E; [|done].
  apply cost_inv in E as (r & _ & _ & _ & HF & -> & _). by apply cost_nonneg.
Qed.

(** Every class of the settled cost is dominated by its reservation class. *)
Lemma class_dominated n r limit r' :
  0 <= n ∧ 0 <= r → n <= limit → r <= r' → class_cost n r <= class_bound limit r'.
Proof.
  intros [Hn Hr] Hl Hr'. etrans; [by apply class_cost_bounds|].
  apply class_bound_mono; lia.
Qed.

(** ** Theorems *)

(** the authority bound dominates settlement.  Whatever a provider reports
    within its declared limits (each input and cache class within the input
    limit, output within the output limit), the settled cost is nonnegative and
    never exceeds the bound reserved before the call, on either context tier. *)
Theorem AuthorityBound_dominates t p m inL outL bound u cost :
  AuthorityBound t p m inL outL = Ok bound →
  CostUSDMicrosChecked t p m u = Ok cost →
  Input u <= inL → CacheRead u <= inL → CacheWrite5m u <= inL → CacheWrite1h u <= inL →
  Output u <= outL →
  0 <= cost <= bound.
Proof.
  intros Hb Hc Hi Hcr H5 H1 Ho.
  apply cost_inv in Hc as (r & Hl & Hv & _ & HF & -> & _).
  unfold AuthorityBound in Hb. cbn [mbind result_bind] in Hb.
  destruct t as [t|]; [|done]. case_match; [done|]. rewrite Hl in Hb.
  destruct (bound_loop _ 0) as [total|] eqn:Eb; [|done]. cbn in Hb.
  case_bool_decide; [|done]. injection Hb as <-.
  apply bound_loop_spec in Eb as ->.
  split; [by apply cost_nonneg|].
  pose proof (tier_rate_le_bound r u Hv) as Hle. unfold rate_fields in Hle.
  repeat match goal with H : Forall2 _ (_ :: _) _ |- _ => apply Forall2_cons in H as [? H] end.
  unfold cost_items in *.
  repeat match goal with H : Forall _ (_ :: _) |- _ => apply Forall_cons in H as [? H] end.
  simpl in *.
  repeat match goal with
  | H : 0 <= ?n ∧ 0 <= ?r', Hn : ?n <= ?l, Hr : ?r' <= ?r'' |- _ =>
      pose proof (class_dominated n r' l r'' H Hn Hr); clear H
  end. lia.
Qed.

(** The declared width of a looked-up rate's context limit. *)
Definition lookup_int64 (t : option Table) (p m : string) : Prop :=
  ∀ r, lookup t p m = Some r → int64 (ShortContextLimit r).

Lemma isLong_spec r u :
  valid r = true → int64 (ShortContextLimit r) → Forall (λ n, 0 <= n) (usage_counts u) →
  isLong r u = true ↔
  is_Some (LongContext r) ∧
  ShortContextLimit r < Input u + CacheRead u + CacheWrite5m u + CacheWrite1h u.
Proof.
  intros Hv Hi HF. unfold isLong. destruct (LongContext r) as [long|] eqn:E.
  - destruct (valid_long r long Hv E) as (Hpos & _).
    unfold usage_counts in HF.
    repeat match goal with H : Forall _ (_ :: _) |- _ => apply Forall_cons in H as [? H] end.
    rewrite long_loop_spec by (repeat constructor; int_lia). simpl.
    rewrite Z.ltb_lt. split; [intros; split; [done|lia]|intros [_ ?]; lia].
  - split; [done|]. by intros [[? ?] _].
Qed.

(** the settled cost is exact.  A successful cost is the sum over the five
    token classes of [count * rate / 10^6] rounded half to even, at the rates of
    the context tier the request falls into, where the long tier applies
    exactly when the disjoint input and cache tokens exceed the short limit; the
    sum is a nonnegative [int64]. *)
Theorem CostUSDMicrosChecked_exact t p m u cost :
  lookup_int64 t p m →
  CostUSDMicrosChecked t p m u = Ok cost →
  ∃ r r' qs, lookup t p m = Some r ∧
    Forall2 (λ i q, half_even (i.1 * i.2) denominator q) (cost_items u r') qs ∧
    cost = sumZ qs ∧ nat63 cost ∧
    r' = match LongContext r with
         | Some long =>
             if decide (ShortContextLimit r < Input u + CacheRead u + CacheWrite5m u + CacheWrite1h u)
             then long else r
         | None => r
         end.
Proof.
  intros Hw Hc. apply cost_inv in Hc as (r & Hl & Hv & Ht & HF & -> & Hi).
  exists r, (tier_rate r u), (map (λ i, class_cost i.1 i.2) (cost_items u (tier_rate r u))).
  split; [done|]. split.
  { apply Forall2_fmap_r, Forall_Forall2_diag. eapply Forall_impl; [done|].
    intros [n q] [? ?]. simpl in *. by apply class_cost_half_even. }
  split; [done|]. split.
  { split; [by apply cost_nonneg|]. by destruct Hi. }
  apply TotalTokens_spec in Ht as (_ & HF' & _).
  pose proof (isLong_spec r u Hv (Hw r Hl) HF') as Hlong.
  unfold tier_rate. destruct (LongContext r) as [long|] eqn:E; simpl.
  - destruct (isLong r u); case_decide; try done; naive_solver.
  - by destruct (isLong r u).
Qed.

(** missing-price detection agrees with the rate table.  A valid observation
    is priced exactly when a rate exists ([HasRate]), the rate's tier accepts its
    cache writes, and the exact sum fits [int64]; otherwise it settles as
    missing at cost zero. *)
Theorem CostUSDMicros_missing_iff t p m u :
  TotalTokens u = Ok (sumZ (usage_counts u)) →
  (CostUSDMicros t p m u).2 = false ↔
  HasRate t p m = true ∧
  ∃ r, lookup t p m = Some r ∧
    (CacheWriteUnsupported (tier_rate r u) = true → CacheWrite5m u = 0 ∧ CacheWrite1h u = 0) ∧
    sumZ (map (λ i, class_cost i.1 i.2) (cost_items u (tier_rate r u))) <= MaxInt64.
Proof.
  intros Ht. unfold CostUSDMicros, HasRate. split.
  - destruct (CostUSDMicrosChecked t p m u) as [c|] eqn:Hc; [|done]. intros _.
    assert (Hc' := Hc). apply cost_inv in Hc as (r & Hl & Hv & _ & _ & -> & Hi).
    rewrite Hl. split; [done|]. exists r. split; [done|]. split; [|by destruct Hi].
    intros Hu. unfold CostUSDMicrosChecked in Hc'. rewrite Ht in Hc'. cbn in Hc'.
    destruct t; [|done]. rewrite Hl, Hu in Hc'.
    destruct (CacheWrite5m u =? 0) eqn:?, (CacheWrite1h u =? 0) eqn:?; simpl in Hc'; try done.
    bsplit. done.
  - intros (_ & r & Hl & Hu & Hfit). assert (Hv := lookup_valid _ _ _ _ Hl).
    unfold CostUSDMicrosChecked. rewrite Ht. cbn [mbind result_bind].
    destruct t; [|done]. rewrite Hl.
    assert (CacheWriteUnsupported (tier_rate r u)
            && (negb (CacheWrite5m u =? 0) || negb (CacheWrite1h u =? 0)) = false)%bool as ->.
    { destruct (CacheWriteUnsupported _); [|done]. destruct Hu as [-> ->]; done. }
    assert (Forall (λ i, 0 <= i.1 ∧ 0 <= i.2) (cost_items u (tier_rate r u))) as HF.
    { apply TotalTokens_spec in Ht as (_ & HF & _).
      pose proof (valid_fields _ (tier_rate_valid r u Hv)) as HR.
      unfold usage_counts, rate_fields, cost_items in *.
      repeat match goal with H : Forall _ (_ :: _) |- _ => apply Forall_cons in H as [? H] end.
      repeat constructor; simpl; done. }
    pose proof (cost_nonneg _ HF).
    rewrite cost_loop_spec by done. rewrite Z.add_0_l. cbn [mbind result_bind].
    case_bool_decide as Hd; [done|]. exfalso. apply Hd. int_lia.
Qed.

(** an exact row always decides.  When the table has a row for the exact
    upstream id it alone determines the rate: an invalid row is never rescued by
    the region-stripped base row, and without one only the base id of a single
    leading region prefix is consulted. *)
Theorem lookup_exact_shadows t p m :
  lookup (Some t) p m =
  match rates t !! {| Provider := p; Model := m |} with
  | Some r => if valid r then Some r else None
  | None =>
      match rates t !! {| Provider := p; Model := BaseModelID m |} with
      | Some r => if valid r then Some r else None
      | None => None
      end
  end.
Proof.
  unfold lookup, BaseModelID. destruct (rates t !! _) eqn:E; [done|].
  case_bool_decide; [by rewrite E|done].
Qed.

(** ** Witnesses *)

Definition long_rate : Rate := flat_rate 4000000 20000000 400000 5000000 8000000.
Definition demo_rate : Rate :=
  mkRate 2000000 10000000 200000 2500001 4000000 200000 (Some long_rate) false.
Definition demo_table : option Table :=
  Some (New OnMissingBlock {[ {| Provider := "bedrock"; Model := "zai.glm-5" |} := demo_rate ]}).
Definition demo_usage : Usage := mkUsage 150000 900 40000 10001 3 false false.

Lemma AuthorityBound_dominates_witness :
  AuthorityBound demo_table "bedrock" "us.zai.glm-5" 262144 8192 = Ok 4725146 ∧
  CostUSDMicrosChecked demo_table "bedrock" "us.zai.glm-5" demo_usage = Ok 684029 ∧
  0 <= 684029 <= 4725146.
Proof.
  split; [vm_compute; reflexivity|]. split; [vm_compute; reflexivity|].
  apply (AuthorityBound_dominates demo_table "bedrock" "us.zai.glm-5" 262144 8192 4725146
           demo_usage 684029); vm_compute; (reflexivity || discriminate).
Defined.

Lemma CostUSDMicrosChecked_exact_witness :
  isLong demo_rate demo_usage = true ∧
  ∃ r r' qs, lookup demo_table "bedrock" "us.zai.glm-5" = Some r ∧
    Forall2 (λ i q, half_even (i.1 * i.2) denominator q) (cost_items demo_usage r') qs ∧
    684029 = sumZ qs ∧ nat63 684029 ∧
    r' = match LongContext r with
         | Some long =>
             if decide (ShortContextLimit r < Input demo_usage + CacheRead demo_usage
                        + CacheWrite5m demo_usage + CacheWrite1h demo_usage)
             then long else r
         | None => r
         end.
Proof.
  split; [vm_compute; reflexivity|].
  apply CostUSDMicrosChecked_exact; [|vm_compute; reflexivity].
  intros r Hr. vm_compute in Hr. injection Hr as <-. split; vm_compute; discriminate.
Defined.

Lemma CostUSDMicros_missing_iff_witness :
  (CostUSDMicros demo_table "bedrock" "us.zai.glm-5" demo_usage).2 = false ↔
  HasRate demo_table "bedrock" "us.zai.glm-5" = true ∧
  ∃ r, lookup demo_table "bedrock" "us.zai.glm-5" = Some r ∧
    (CacheWriteUnsupported (tier_rate r demo_usage) = true →
      CacheWrite5m demo_usage = 0 ∧ CacheWrite1h demo_usage = 0) ∧
    sumZ (map (λ i, class_cost i.1 i.2) (cost_items demo_usage (tier_rate r demo_usage)))
      <= MaxInt64.
Proof. apply CostUSDMicros_missing_iff. vm_compute. reflexivity. Defined.
