(* ===== verification/Budget.v ===== *)
(** * Budget counters (internal/budget)

    [Memory] is the in-memory budget store: one spend counter per key with the
    end of its window, an amortized sweep of expired counters and a capacity
    that refuses new keys.  Its clock [now] is the sequence of readings its
    successive calls return, consumed one by one ([reads]).  [BudgetStore] is
    the interface the governor is written against, [BudgetLaws] what it may rely
    on, and [Ledger] the specification without sweep or capacity that [Memory]
    refines. *)

From S2P Require Import Prelude GoTime.

(** ** Data *)

Inductive Decision := Allow | Block | BlockCapacity.

#[export] Instance Decision_eq_dec : EqDecision Decision.
Proof. solve_decision. Defined.

Definition Decision_String (d : Decision) : string :=
  match d with Allow => "Allow" | Block => "Block" | BlockCapacity => "BlockCapacity" end.

Inductive WindowKind := Rolling | CalDay | CalMonth.

#[export] Instance WindowKind_eq_dec : EqDecision WindowKind.
Proof. solve_decision. Defined.

Record Window := { Kind : WindowKind; Dur : Duration; Loc : option Location }.

Definition CalendarDayIn (loc : option Location) : Window :=
  {| Kind := CalDay; Dur := 0; Loc := loc |}.
Definition CalendarMonthIn (loc : option Location) : Window :=
  {| Kind := CalMonth; Dur := 0; Loc := loc |}.

Definition Tag (w : Window) : string :=
  match Kind w with
  | CalDay => "day"
  | CalMonth => "month"
  | Rolling => "r" +:+ duration_string (Dur w)
  end.

Definition ScopeTeam : string := "team".
Definition ScopeKey : string := "key".
Definition ScopeUser : string := "user".

(** The store key: the window tag first, then the scope, then the id. *)
Definition Key (scope id : string) (w : Window) : string :=
  "budget:" +:+ Tag w +:+ ":" +:+ scope +:+ ":" +:+ id.

Definition loc (w : Window) : Location := default UTC (Loc w).

Definition windowEnd (t : Time) (w : Window) : Time :=
  match Kind w with
  | CalDay => next_midnight t (loc w)
  | CalMonth => next_month t (loc w)
  | Rolling => Add t (Dur w)
  end.

Record win := { spent : Z; ends : Time }.

Record Memory := {
  m : gmap string win;
  now : nat → Time;
  reads : nat;
  maxEntries : Z;
  sweepTick : Z;
  rejected : Z
}.

Definition sweepEvery : Z := 256.
Definition defaultMaxEntries : Z := 100000.

Definition NewMemory (clock : nat → Time) : Memory :=
  {| m := ∅; now := clock; reads := 0; maxEntries := defaultMaxEntries;
     sweepTick := 0; rejected := 0 |}.

(** ** Operations *)

Definition with_m (f : gmap string win → gmap string win) (b : Memory) : Memory :=
  {| m := f (m b); now := now b; reads := reads b; maxEntries := maxEntries b;
     sweepTick := sweepTick b; rejected := rejected b |}.
Definition with_tick (n : Z) (b : Memory) : Memory :=
  {| m := m b; now := now b; reads := reads b; maxEntries := maxEntries b;
     sweepTick := n; rejected := rejected b |}.
Definition with_rejected (n : Z) (b : Memory) : Memory :=
  {| m := m b; now := now b; reads := reads b; maxEntries := maxEntries b;
     sweepTick := sweepTick b; rejected := n |}.

(** One call of the store's clock. *)
Definition clock (b : Memory) : Time * Memory :=
  (now b (reads b),
   {| m := m b; now := now b; reads := S (reads b); maxEntries := maxEntries b;
      sweepTick := sweepTick b; rejected := rejected b |}).

Definition live (t : Time) (v : win) : bool := Before t (ends v).

Definition sweepExpired (t : Time) : Memory → Memory :=
  with_m (filter (λ kv, live t kv.2 = true)).

Definition full (b : Memory) : bool := maxEntries b <=? Z.of_nat (size (m b)).

Definition cur (key : string) (w : Window) : ST Memory (option win) := λ b,
  let '(t, b) := clock b in
  let b := with_tick (sweepTick b + 1) b in
  let b := if sweepEvery <=? sweepTick b then sweepExpired t (with_tick 0 b) else b in
  let bkt := m b !! key in
  let fresh b :=
    let v := {| spent := 0; ends := windowEnd t w |} in (Some v, with_m <[key := v]> b) in
  match bkt with
  | Some v => if live t v then (Some v, b) else fresh b
  | None =>
      if full b then
        let b := sweepExpired t b in
        if full b then (None, with_rejected (wrap64 (rejected b + 1)) b) else fresh b
      else fresh b
  end.

Definition Rejections (b : Memory) : Z := rejected b.

Definition Check (key : string) (estimateMicros limitMicros : Z) (w : Window)
    : ST Memory Decision := λ b,
  if estimateMicros <? 0 then (Block, b)
  else if limitMicros <=? 0 then (Allow, b)
  else
    let '(bkt, b) := cur key w b in
    match bkt with
    | None => (BlockCapacity, b)
    | Some v =>
        if ((limitMicros <? spent v) || (limitMicros - spent v <? estimateMicros))%bool
        then (Block, b) else (Allow, b)
    end.

(** Saturating addition of a nonnegative amount. *)
Definition add_spent (v : win) (actual : Z) : win :=
  {| spent := if MaxInt64 - spent v <? actual then MaxInt64 else spent v + actual;
     ends := ends v |}.

Definition Debit (key : string) (actualMicros : Z) (w : Window) : ST Memory unit := λ b,
  if actualMicros <? 0 then (tt, b)
  else
    let '(bkt, b) := cur key w b in
    match bkt with
    | None => (tt, b)
    | Some v => (tt, with_m <[key := add_spent v actualMicros]> b)
    end.

Definition Spent (key : string) (w : Window) : ST Memory Z := λ b,
  let '(bkt, b) := cur key w b in
  match bkt with None => (0, b) | Some v => (spent v, b) end.

Definition ResetsAt (key : string) (w : Window) : ST Memory Time := λ b,
  let '(bkt, b) := cur key w b in
  match bkt with
  | None => let '(t, b) := clock b in (windowEnd t w, b)
  | Some v => (ends v, b)
  end.

(** ** The interface the governor is written against *)

Class BudgetStore (S : Type) := {
  bs_check : string → Z → Z → Window → ST S Decision;
  bs_debit : string → Z → Window → ST S unit;
  bs_spent : string → Window → ST S Z;
  bs_resetsAt : string → Window → ST S Time;
  bs_rejections : S → Z
}.

#[export] Instance Memory_BudgetStore : BudgetStore Memory := {|
  bs_check := Check; bs_debit := Debit; bs_spent := Spent; bs_resetsAt := ResetsAt;
  bs_rejections := Rejections
|}.

(** [bs_within s k l]: the counter of [k], if the store holds one, is in
    [0 .. l].  Reads never raise a counter, an admitted check bounds it, and a
    debit raises at most its own. *)
Class BudgetLaws (S : Type) `{BudgetStore S} := {
  bs_within : S → string → Z → Prop;
  within_mono s k l l' : bs_within s k l → l <= l' → bs_within s k l';
  check_within s k e l w k' l' : 0 <= l' → bs_within s k' l' →
    wp (bs_check k e l w) (λ _ s', bs_within s' k' l') s;
  check_allow_within s k e l w l0 : 0 < l → 0 <= l0 → bs_within s k l0 →
    wp (bs_check k e l w) (λ d s', d = Allow → bs_within s' k (l - e)) s;
  spent_within s k w k' l' : 0 <= l' → bs_within s k' l' →
    wp (bs_spent k w) (λ _ s', bs_within s' k' l') s;
  spent_bounds s k w l : 0 <= l → bs_within s k l →
    wp (bs_spent k w) (λ x s', 0 <= x <= l ∧ bs_within s' k x) s;
  resets_within s k w k' l' : 0 <= l' → bs_within s k' l' →
    wp (bs_resetsAt k w) (λ _ s', bs_within s' k' l') s;
  debit_within s k a w k' l' : 0 <= l' → bs_within s k' l' →
    wp (bs_debit k a w) (λ _ s', bs_within s' k' (if decide (k = k') then l' + Z.max 0 a else l')) s
}.

(** [bs_holds s k v]: [k] has a counter at [v] whose window stays open for every
    later reading of the store's clock.  Its checks are exact, its reads return
    it, and only a debit of [k] changes it. *)
Class BudgetCounters (S : Type) `{BudgetStore S} := {
  bs_holds : S → string → Z → Prop;
  holds_nat63 s k v : bs_holds s k v → nat63 v;
  check_holds s k e l w k' v : bs_holds s k' v →
    wp (bs_check k e l w) (λ d s', bs_holds s' k' v ∧
      (k = k' → 0 <= e → 0 < l → d = if v + e <=? l then Allow else Block)) s;
  spent_holds s k w k' v : bs_holds s k' v →
    wp (bs_spent k w) (λ x s', bs_holds s' k' v ∧ (k = k' → x = v)) s;
  resets_holds s k w k' v : bs_holds s k' v → wp (bs_resetsAt k w) (λ _ s', bs_holds s' k' v) s;
  debit_holds s k a w k' v : 0 <= a → bs_holds s k' v →
    wp (bs_debit k a w)
      (λ _ s', bs_holds s' k' (if decide (k = k') then Z.min MaxInt64 (v + a) else v)) s
}.

(** [I] is an invariant of the store under which [K]'s window [W] keeps ending at
    [E]: what holds of a store whose clock stays inside one window. *)
Record steady {S} `{BudgetStore S} (I : S → Prop) (K : string) (W : Window) (E : Time) : Prop := {
  steady_check s k e l w : (k = K → w = W) → I s → wp (bs_check k e l w) (λ _, I) s;
  steady_spent s k w : (k = K → w = W) → I s → wp (bs_spent k w) (λ _, I) s;
  steady_debit s k a w : (k = K → w = W) → I s → wp (bs_debit k a w) (λ _, I) s;
  steady_resets s k w : (k = K → w = W) → I s →
    wp (bs_resetsAt k w) (λ t s', I s' ∧ (k = K → t = E)) s
}.

(** ** What one access does to the counters *)

(** [b'] holds [b]'s counters, less some that have ended at [t]. *)
Record pruned (t : Time) (b b' : Memory) : Prop := {
  pr_sub k v : m b' !! k = Some v → m b !! k = Some v;
  pr_live k v : m b !! k = Some v → live t v = true → m b' !! k = Some v;
  pr_size : (size (m b') <= size (m b))%nat;
  pr_max : maxEntries b' = maxEntries b;
  pr_now : now b' = now b
}.

Lemma pruned_refl t b : pruned t b b.
Proof. by split. Qed.

Lemma pruned_trans t b1 b2 b3 : pruned t b1 b2 → pruned t b2 b3 → pruned t b1 b3.
Proof.
  intros [S1 L1 Z1 M1 N1] [S2 L2 Z2 M2 N2]. split; [naive_solver|naive_solver|lia|congruence|congruence].
Qed.

Lemma pruned_sweep t b : pruned t b (sweepExpired t b).
Proof.
  split; [..|done|done]; unfold sweepExpired, with_m; simpl.
  - intros k v Hv. by apply map_lookup_filter_Some in Hv as [? _].
  - intros k v Hv Hl. by apply map_lookup_filter_Some.
  - apply map_size_filter || apply map_subseteq_size, map_filter_subseteq.
Qed.

Lemma sweep_dead t b k v : m (sweepExpired t b) !! k = Some v → live t v = true.
Proof. intros Hv. by apply map_lookup_filter_Some in Hv as [_ ?]. Qed.

Create HintDb budget discriminated.
#[export] Hint Resolve pruned_refl pruned_trans pruned_sweep : budget.

(** The state [cur] looks the key up in: the clock read, and on every
    [sweepEvery]-th call the expired counters gone. *)
Definition ticked (b : Memory) : Memory :=
  let b1 := with_tick (sweepTick b + 1) (clock b).2 in
  if sweepEvery <=? sweepTick b1 then sweepExpired (clock b).1 (with_tick 0 b1) else b1.

Lemma pruned_ticked b : pruned (now b (reads b)) b (ticked b).
Proof.
  unfold ticked. case_match; [|by split].
  eapply pruned_trans; [|apply pruned_sweep]. by split.
Qed.

Lemma reads_ticked b : reads (ticked b) = S (reads b).
Proof. unfold ticked. by case_match. Qed.

(** [cur], case by case: a live counter is returned as it is; an ended or absent
    one is replaced by a zero counter of a new window; or the key is new and the
    store stays full after a sweep. *)
Inductive cur_case (key : string) (w : Window) (b b' : Memory) : option win → Prop :=
| cur_live v b1 :
    pruned (now b (reads b)) b b1 → m b1 !! key = Some v → live (now b (reads b)) v = true →
    b' = b1 → rejected b' = rejected b →
    cur_case key w b b' (Some v)
| cur_fresh b1 :
    pruned (now b (reads b)) b b1 →
    (∀ v, m b !! key = Some v → live (now b (reads b)) v = false) →
    (m b1 !! key = None → full b1 = false) →
    b' = with_m <[key := {| spent := 0; ends := windowEnd (now b (reads b)) w |}]> b1 →
    rejected b' = rejected b →
    cur_case key w b b' (Some {| spent := 0; ends := windowEnd (now b (reads b)) w |})
| cur_refused b1 :
    pruned (now b (reads b)) b b1 → m (ticked b) !! key = None → m b1 !! key = None →
    full b1 = true → b' = with_rejected (wrap64 (rejected b + 1)) b1 →
    cur_case key w b b' None.

Lemma rejected_ticked b : rejected (ticked b) = rejected b.
Proof. unfold ticked. by case_match. Qed.

Lemma cur_unfold key w b :
  cur key w b =
  let t := now b (reads b) in
  let b1 := ticked b in
  let fresh b :=
    let v := {| spent := 0; ends := windowEnd t w |} in (Some v, with_m <[key := v]> b) in
  match m b1 !! key with
  | Some v => if live t v then (Some v, b1) else fresh b1
  | None =>
      if full b1 then
        if full (sweepExpired t b1)
        then (None, with_rejected (wrap64 (rejected (sweepExpired t b1) + 1)) (sweepExpired t b1))
        else fresh (sweepExpired t b1)
      else fresh b1
  end.
Proof. reflexivity. Qed.

Lemma cur_cases key w b r b' : cur key w b = (r, b') → cur_case key w b b' r.
Proof.
  rewrite cur_unfold. cbv zeta. set (t := now b (reads b)).
  pose proof (pruned_ticked b) as Hp. fold t in Hp.
  assert (rejected (ticked b) = rejected b) as Hr by apply rejected_ticked.
  assert (∀ v, m (ticked b) !! key = None → m b !! key = Some v → live t v = false) as Hdead.
  { intros v Hn Hv. destruct (live t v) eqn:E; [|done].
    apply (pr_live _ _ _ Hp) in Hv; [congruence|done]. }
  destruct (m (ticked b) !! key) as [v|] eqn:Ev.
  - destruct (live t v) eqn:El; intros [= <- <-].
    + by eapply cur_live.
    + eapply cur_fresh; [done| |congruence|done|done].
      intros v' Hv'. destruct (live t v') eqn:E'; [|done].
      apply (pr_live _ _ _ Hp) in Hv'; [|done]. congruence.
  - destruct (full (ticked b)) eqn:Ef.
    + assert (pruned t b (sweepExpired t (ticked b))) as Hp' by eauto with budget.
      destruct (full (sweepExpired _ _)) eqn:Ef'; intros [= <- <-].
      * eapply cur_refused; [done|done| |done|].
        -- destruct (m (sweepExpired t (ticked b)) !! key) eqn:E; [|done].
           apply (pr_sub _ _ _ (pruned_sweep t (ticked b))) in E. congruence.
        -- unfold sweepExpired, with_m. simpl. by rewrite Hr.
      * eapply cur_fresh; [done|naive_solver|done|done|done].
    + intros [= <- <-]. eapply cur_fresh; [done|naive_solver|done|done|done].
Qed.

(** An access never raises a counter and never drops a live one. *)
Lemma cur_other key w b r b' k v :
  cur key w b = (r, b') → m b' !! k = Some v →
  m b !! k = Some v ∨ (k = key ∧ spent v = 0).
Proof.
  intros Hc Hv. apply cur_cases in Hc. destruct Hc as [v' b1 Hp ? ? -> ?|b1 Hp ? ? -> ?|b1 Hp ? ? ? ->].
  - left. by apply (pr_sub _ _ _ Hp).
  - simpl in Hv. destruct (decide (k = key)) as [->|Hne].
    + rewrite lookup_insert_eq in Hv. injection Hv as <-. by right.
    + rewrite lookup_insert_ne in Hv by done. left. by apply (pr_sub _ _ _ Hp).
  - left. by apply (pr_sub _ _ _ Hp).
Qed.

Lemma cur_keeps_live key w b r b' k v :
  cur key w b = (r, b') → m b !! k = Some v → live (now b (reads b)) v = true →
  m b' !! k = Some v.
Proof.
  intros Hc Hv Hl. apply cur_cases in Hc. destruct Hc as [v' b1 Hp ? ? -> ?|b1 Hp Hd ? -> ?|b1 Hp ? ? ? ->].
  - by apply (pr_live _ _ _ Hp).
  - simpl. destruct (decide (k = key)) as [->|Hne].
    + apply Hd in Hv. congruence.
    + rewrite lookup_insert_ne by done. by apply (pr_live _ _ _ Hp).
  - by apply (pr_live _ _ _ Hp).
Qed.

Lemma cur_result key w b v b' : cur key w b = (Some v, b') → m b' !! key = Some v.
Proof.
  intros Hc. apply cur_cases in Hc. inversion Hc; subst; simpl; [done|].
  by rewrite lookup_insert_eq.
Qed.

Lemma cur_reads key w b r b' : cur key w b = (r, b') → reads b' = S (reads b).
Proof.
  rewrite cur_unfold. cbv zeta. intros H. rewrite <- reads_ticked.
  repeat case_hyp H; injection H as <- <-; unfold sweepExpired, with_m, with_rejected; done.
Qed.

(** ** Operations as data

    A program of store operations, run against the store and against the
    specification alike. *)

Inductive op :=
| OpCheck (key : string) (e l : Z) (w : Window)
| OpDebit (key : string) (a : Z) (w : Window)
| OpSpent (key : string) (w : Window)
| OpResetsAt (key : string) (w : Window).

Inductive out :=
| OutDecision (d : Decision)
| OutUnit
| OutMoney (v : Z)
| OutTime (t : Time).

Definition op_key (o : op) : string :=
  match o with
  | OpCheck k _ _ _ | OpDebit k _ _ | OpSpent k _ | OpResetsAt k _ => k
  end.

Definition step (o : op) : ST Memory out := λ b,
  match o with
  | OpCheck k e l w => let '(d, b) := Check k e l w b in (OutDecision d, b)
  | OpDebit k a w => let '(_, b) := Debit k a w b in (OutUnit, b)
  | OpSpent k w => let '(v, b) := Spent k w b in (OutMoney v, b)
  | OpResetsAt k w => let '(t, b) := ResetsAt k w b in (OutTime t, b)
  end.

Fixpoint run (os : list op) : ST Memory (list out) := λ b,
  match os with
  | [] => ([], b)
  | o :: os => let '(x, b) := step o b in let '(xs, b) := run os b in (x :: xs, b)
  end.

(** Every operation is one access at most, of its own key, and then at most one
    saturating addition to the counter the access returned. *)
Inductive stepped (o : op) (b b' : Memory) : Prop :=
| stepped_none : b' = b → stepped o b b'
| stepped_read w r : cur (op_key o) w b = (r, b') → stepped o b b'
| stepped_clock w b1 :
    cur (op_key o) w b = (None, b1) → b' = (clock b1).2 → stepped o b b'
| stepped_add w a v b1 :
    0 <= a → cur (op_key o) w b = (Some v, b1) →
    b' = with_m <[op_key o := add_spent v a]> b1 → stepped o b b'.

Lemma step_stepped o b x b' : step o b = (x, b') → stepped o b b'.
Proof.
  unfold step, Check, Debit, Spent, ResetsAt.
  destruct o as [k e l w|k a w|k w|k w].
  - destruct (e <? 0); [intros [= <- <-]; by apply stepped_none|].
    destruct (l <=? 0); [intros [= <- <-]; by apply stepped_none|].
    destruct (cur k w b) as [[v|] b1] eqn:Hc.
    + destruct (_ || _)%bool; intros [= <- <-]; by eapply stepped_read.
    + intros [= <- <-]. by eapply stepped_read.
  - destruct (a <? 0) eqn:Ea; [intros [= <- <-]; by apply stepped_none|bsplit].
    destruct (cur k w b) as [[v|] b1] eqn:Hc; intros [= <- <-].
    + by eapply stepped_add.
    + by eapply stepped_read.
  - destruct (cur k w b) as [[v|] b1] eqn:Hc; intros [= <- <-]; by eapply stepped_read.
  - destruct (cur k w b) as [[v|] b1] eqn:Hc; intros [= <- <-].
    + by eapply stepped_read.
    + by eapply stepped_clock.
Qed.

(** ** The invariant *)

Lemma with_m_insert_size k v b1 :
  (m b1 !! k = None → full b1 = false) → Z.of_nat (size (m b1)) <= maxEntries b1 →
  Z.of_nat (size (<[k := v]> (m b1))) <= maxEntries b1.
Proof.
  intros Hf Hs. destruct (m b1 !! k) as [v'|] eqn:E.
  - rewrite map_size_insert_Some by done. done.
  - rewrite map_size_insert_None by done. specialize (Hf eq_refl).
    unfold full in Hf. bsplit. lia.
Qed.

(** The map holds at most [maxEntries] counters, each a nonnegative [int64]. *)
Record wf (b : Memory) : Prop := {
  wf_size : Z.of_nat (size (m b)) <= maxEntries b;
  wf_spent k v : m b !! k = Some v → nat63 (spent v)
}.

Lemma wf_pruned t b b1 : pruned t b b1 → wf b → wf b1.
Proof.
  intros Hp [Hs Hw]. split.
  - rewrite (pr_max _ _ _ Hp). pose proof (pr_size _ _ _ Hp). lia.
  - intros k v Hv. apply (Hw k), (pr_sub _ _ _ Hp), Hv.
Qed.

Lemma wf_cur key w b r b' : cur key w b = (r, b') → wf b → wf b'.
Proof.
  intros Hc Hw. apply cur_cases in Hc.
  destruct Hc as [v b1 Hp ? ? -> ?|b1 Hp Hd Hf -> ?|b1 Hp ? ? ? ->].
  - by eapply wf_pruned.
  - pose proof (wf_pruned _ _ _ Hp Hw) as [Hs Hv]. split; simpl.
    + by apply with_m_insert_size.
    + intros k v Hk. apply lookup_insert_Some in Hk as [[<- <-]|[? Hk]]; [|by eapply Hv].
      simpl. int_lia.
  - pose proof (wf_pruned _ _ _ Hp Hw) as [Hs Hv]. by split.
Qed.

Lemma add_spent_spec v a :
  nat63 (spent v) → 0 <= a → spent (add_spent v a) = Z.min MaxInt64 (spent v + a).
Proof. intros. unfold add_spent. simpl. case_match; bsplit; int_lia. Qed.

Lemma wf_stepped o b b' : stepped o b b' → wf b → wf b'.
Proof.
  intros [->|w r Hc|w b1 Hc ->|w a v b1 Ha Hc ->] Hw; [done|by eapply wf_cur| |].
  - pose proof (wf_cur _ _ _ _ _ Hc Hw) as [??]. by split.
  - pose proof (wf_cur _ _ _ _ _ Hc Hw) as [Hs Hv]. apply cur_result in Hc.
    split; simpl.
    + apply with_m_insert_size; [congruence|done].
    + intros k u Hk. apply lookup_insert_Some in Hk as [[<- <-]|[? Hk]]; [|by eapply Hv].
      pose proof (Hv _ _ Hc). rewrite add_spent_spec by done. int_lia.
Qed.

Lemma wf_new clk : wf (NewMemory clk).
Proof. split; simpl; [rewrite map_size_empty; unfold defaultMaxEntries; lia|done]. Qed.

Lemma run_ind (P : Memory → Prop) os b xs b' :
  (∀ o b1 b2, stepped o b1 b2 → P b1 → P b2) → run os b = (xs, b') → P b → P b'.
Proof.
  intros Hs. revert b xs. induction os as [|o os IH]; intros b xs; simpl.
  - by intros [= _ <-].
  - destruct (step o b) as [x b1] eqn:E, (run os b1) as [ys b2] eqn:E'.
    intros [= _ <-] Hp. eapply IH; [done|]. eapply Hs; [|done]. by eapply step_stepped.
Qed.

(** Any sequence of operations leaves at most [maxEntries] counters in
    the store, each between 0 and [MaxInt64]: no check, debit or read overflows
    a counter, turns it negative or grows the map past its capacity. *)
Theorem run_wf os clk :
  let b := (run os (NewMemory clk)).2 in
  Z.of_nat (size (m b)) <= defaultMaxEntries ∧ map_Forall (λ _ v, nat63 (spent v)) (m b).
Proof.
  cbv zeta. destruct (run os (NewMemory clk)) as [xs b] eqn:Hr. simpl.
  assert (wf b ∧ maxEntries b = defaultMaxEntries) as [[Hs Hw] <-]; [|done].
  eapply (run_ind (λ b, wf b ∧ maxEntries b = defaultMaxEntries)); [|done|by split; [apply wf_new|]].
  intros o b1 b2 Hst [Hw He]. split; [by eapply wf_stepped|].
  assert (∀ k w r b', cur k w b1 = (r, b') → maxEntries b' = maxEntries b1) as Hm.
  { intros k w r b' Hc. apply cur_cases in Hc.
    destruct Hc as [? ? Hp ? ? -> ?|? Hp ? ? -> ?|? Hp ? ? ? ->]; simpl; by apply (pr_max _ _ _ Hp). }
  destruct Hst as [->|w r Hc|w b3 Hc ->|w a v b3 Ha Hc ->]; [done|..];
    apply Hm in Hc; simpl; congruence.
Qed.

(** ** The specification: a ledger that never forgets

    One counter per key ever used, no sweep, no capacity, arithmetic on
    unbounded integers cut at [MaxInt64]. *)

Module Ledger.

Abbreviation t := (gmap string win).

Definition current (now : Time) (key : string) (w : Window) (L : t) : win :=
  match L !! key with
  | Some v => if live now v then v else {| spent := 0; ends := windowEnd now w |}
  | None => {| spent := 0; ends := windowEnd now w |}
  end.

(** [None] when the operation answers without reading the clock. *)
Definition step (now : Time) (o : op) (L : t) : out * t * bool :=
  match o with
  | OpCheck k e l w =>
      if e <? 0 then (OutDecision Block, L, false)
      else if l <=? 0 then (OutDecision Allow, L, false)
      else let v := current now k w L in
           (OutDecision (if spent v + e <=? l then Allow else Block), <[k := v]> L, true)
  | OpDebit k a w =>
      if a <? 0 then (OutUnit, L, false)
      else let v := current now k w L in
           (OutUnit, <[k := {| spent := Z.min MaxInt64 (spent v + a); ends := ends v |}]> L, true)
  | OpSpent k w =>
      let v := current now k w L in (OutMoney (spent v), <[k := v]> L, true)
  | OpResetsAt k w =>
      let v := current now k w L in (OutTime (ends v), <[k := v]> L, true)
  end.

Fixpoint run (clk : nat → Time) (n : nat) (os : list op) (L : t) : list out :=
  match os with
  | [] => []
  | o :: os =>
      let '(x, L, ticked) := step (clk n) o L in
      x :: run clk (if ticked then S n else n) os L
  end.

End Ledger.

(** [b] holds of the ledger [L] at least what is live at its next clock reading,
    and nothing else, under keys of [K]. *)
Record refines (K : gset string) (clk : nat → Time) (b : Memory) (L : Ledger.t) : Prop := {
  rf_sub k v : m b !! k = Some v → L !! k = Some v;
  rf_live k v : L !! k = Some v → live (clk (reads b)) v = true → m b !! k = Some v;
  rf_now : now b = clk;
  rf_dom : dom (m b) ⊆ K;
  rf_wf : wf b;
  rf_rej : rejected b = 0
}.

Lemma pruned_dom t b b1 : pruned t b b1 → dom (m b1) ⊆ dom (m b).
Proof.
  intros Hp k. rewrite !elem_of_dom. intros [v Hv]. exists v. by apply (pr_sub _ _ _ Hp).
Qed.

Lemma not_full (K : gset string) key b1 :
  dom (m b1) ⊆ K → key ∈ K → m b1 !! key = None → Z.of_nat (size K) <= maxEntries b1 →
  full b1 = false.
Proof.
  intros Hd Hk Hn Hs. unfold full. apply Z.leb_gt. rewrite <- (size_dom (D := gset string)).
  assert (key ∉ dom (m b1)) as Hnd by by apply not_elem_of_dom.
  assert ({[key]} ∪ dom (m b1) ⊆ K) as Hu by set_solver.
  apply subseteq_size in Hu. rewrite size_union, size_singleton in Hu by set_solver. lia.
Qed.

Section refinement.
Context (clk : nat → Time) (Hclk : ∀ i, clk i <= clk (S i)).
Context (K : gset string) (HK : Z.of_nat (size K) <= defaultMaxEntries).

Lemma live_before i v : live (clk (S i)) v = true → live (clk i) v = true.
Proof. unfold live, Before. intros. bsplit. specialize (Hclk i). apply Z.ltb_lt. lia. Qed.

Lemma cur_refines key w b L :
  refines K clk b L → maxEntries b = defaultMaxEntries → key ∈ K →
  let v := Ledger.current (clk (reads b)) key w L in
  ∃ b', cur key w b = (Some v, b') ∧ refines K clk b' (<[key := v]> L)
        ∧ maxEntries b' = defaultMaxEntries ∧ reads b' = S (reads b).
Proof.
  intros HR Hmax Hin v. destruct (cur key w b) as [r b'] eqn:Hc.
  pose proof (cur_reads _ _ _ _ _ Hc) as Hrd.
  pose proof (wf_cur _ _ _ _ _ Hc (rf_wf _ _ _ _ HR)) as Hwf.
  destruct HR as [Hsub Hlive Hnow Hdom Hw0 Hrej].
  apply cur_cases in Hc.
  assert (∀ b1 k u, pruned (clk (reads b)) b b1 → <[key := v]> L !! k = Some u → k ≠ key →
    live (clk (reads b')) u = true → m b1 !! k = Some u) as Hlive'.
  { intros b1 k u Hp Hu Hne Hl. rewrite lookup_insert_ne in Hu by done.
    rewrite Hrd in Hl. apply live_before in Hl.
    apply (pr_live _ _ _ Hp); [|done]. by apply Hlive. }
  destruct Hc as [u b1 Hp Hu Hl -> Hr|b1 Hp Hd Hf -> Hr|b1 Hp Ht Hn Hf ->]; rewrite ?Hnow in *.
  - assert (L !! key = Some u) as HLu by by apply Hsub, (pr_sub _ _ _ Hp).
    assert (v = u) as Ev by (subst v; unfold Ledger.current; by rewrite HLu, Hl).
    rewrite <- Ev. exists b1. split; [done|].
    pose proof (pr_max _ _ _ Hp). split; [|split; [congruence|done]].
    split; [| | |pose proof (pruned_dom _ _ _ Hp); set_solver|done|congruence].
    + intros k x Hx. destruct (decide (k = key)) as [->|Hne].
      * rewrite lookup_insert_eq. congruence.
      * rewrite lookup_insert_ne by done. by apply Hsub, (pr_sub _ _ _ Hp).
    + intros k x Hx Hlx. destruct (decide (k = key)) as [->|Hne]; [|by eapply Hlive'].
      rewrite lookup_insert_eq in Hx. congruence.
    + by rewrite (pr_now _ _ _ Hp).
  - assert (v = {| spent := 0; ends := windowEnd (clk (reads b)) w |}) as Ev.
    { subst v. unfold Ledger.current. destruct (L !! key) as [u|] eqn:E; [|done].
      destruct (live _ u) eqn:El; [|done]. rewrite (Hd u) in El; [done|]. by apply Hlive. }
    rewrite <- Ev in *. eexists. split; [done|]. simpl.
    pose proof (pr_max _ _ _ Hp). split; [|split; [congruence|done]].
    pose proof (pruned_dom _ _ _ Hp).
    split; [| |by rewrite <- Hnow, <- (pr_now _ _ _ Hp)|simpl; rewrite dom_insert; set_solver|done|simpl in *; congruence].
    + simpl. intros k x Hx. destruct (decide (k = key)) as [->|Hne].
      * by rewrite lookup_insert_eq in *.
      * rewrite lookup_insert_ne in * by done. by apply Hsub, (pr_sub _ _ _ Hp).
    + simpl. intros k x Hx Hlx. destruct (decide (k = key)) as [->|Hne].
      * by rewrite lookup_insert_eq in *.
      * rewrite (lookup_insert_ne (m b1)) by done. eapply Hlive'; done.
  - rewrite (not_full K key b1) in Hf; [done|..|done|].
    + pose proof (pruned_dom _ _ _ Hp). set_solver.
    + done.
    + rewrite (pr_max _ _ _ Hp). lia.
Qed.

Lemma step_refines o b L :
  refines K clk b L → maxEntries b = defaultMaxEntries → op_key o ∈ K →
  let '(x, L', r) := Ledger.step (clk (reads b)) o L in
  ∃ b', step o b = (x, b') ∧ refines K clk b' L' ∧ maxEntries b' = defaultMaxEntries
        ∧ reads b' = if r then S (reads b) else reads b.
Proof.
  intros HR Hmax Hin. destruct o as [k e l w|k a w|k w|k w]; simpl in *.
  - unfold Check. destruct (e <? 0) eqn:Ee; [eauto|]. destruct (l <=? 0); [eauto|]. bsplit.
    destruct (cur_refines k w b L HR Hmax Hin) as (b' & -> & HR' & Hm & Hr).
    set (v := Ledger.current _ _ _ _) in *.
    replace (spent v + e <=? l) with (negb ((l <? spent v) || (l - spent v <? e)))%bool.
    { destruct (_ || _)%bool; simpl; eauto. }
    destruct (spent v + e <=? l) eqn:E1, (l <? spent v) eqn:E2, (l - spent v <? e) eqn:E3;
      simpl; bsplit; try done; lia.
  - unfold Debit. destruct (a <? 0) eqn:Ea; [eauto|]. bsplit.
    destruct (cur_refines k w b L HR Hmax Hin) as (b' & Hc & HR' & Hm & Hr).
    rewrite Hc. set (v := Ledger.current _ _ _ _) in *.
    assert (m b' !! k = Some v) as Hk by by eapply cur_result.
    assert (nat63 (spent v)) as Hv by by apply (wf_spent _ (rf_wf _ _ _ _ HR') k).
    eexists. split; [done|]. split; [|done].
    assert (add_spent v a = {| spent := Z.min MaxInt64 (spent v + a); ends := ends v |}) as <-.
    { rewrite <- add_spent_spec by done. done. }
    pose proof HR' as [Hsub Hlive Hnow Hdom Hwf' Hrej].
    split; simpl; [| |done| |by eapply wf_stepped, (rf_wf _ _ _ _ HR); eapply (stepped_add (OpDebit k a w))|done].
    + intros k' x. rewrite !lookup_insert_Some. intros [[<- <-]|[Hne Hx]]; [by left|].
      right. split; [done|]. apply Hsub in Hx. by rewrite lookup_insert_ne in Hx.
    + intros k' x. rewrite !lookup_insert_Some. intros [[<- <-]|[Hne Hx]] Hl; [by left|].
      right. split; [done|]. apply Hlive; [|done]. by rewrite lookup_insert_ne.
    + rewrite dom_insert. set_solver.
  - unfold Spent. destruct (cur_refines k w b L HR Hmax Hin) as (b' & -> & ?). eauto.
  - unfold ResetsAt. destruct (cur_refines k w b L HR Hmax Hin) as (b' & -> & ?). eauto.
Qed.

Lemma run_refines os b L :
  refines K clk b L → maxEntries b = defaultMaxEntries → Forall (λ o, op_key o ∈ K) os →
  ∃ b', run os b = (Ledger.run clk (reads b) os L, b') ∧ rejected b' = 0.
Proof.
  revert b L. induction os as [|o os IH]; intros b L HR Hmax Hin; simpl.
  - exists b. split; [done|]. apply (rf_rej _ _ _ _ HR).
  - inversion_clear Hin as [|?? Ho Hos].
    pose proof (step_refines o b L HR Hmax Ho) as Hs.
    destruct (Ledger.step _ o L) as [[x L'] r]. destruct Hs as (b1 & -> & HR1 & Hm1 & Hr1).
    destruct (IH b1 L' HR1 Hm1 Hos) as (b2 & Hrun & Hrej). rewrite Hrun, Hr1. eauto.
Qed.
End refinement.

(** The keys a program touches. *)
Definition keys (os : list op) : gset string := list_to_set (op_key <$> os).

(** C14: The in-memory store implements the ledger: over any program of checks,
    debits and reads that touches at most [defaultMaxEntries] keys, under a
    clock that does not go back, every answer is the one of a ledger that never
    sweeps, has no capacity and computes on unbounded integers; no operation is
    refused.  Deleting an expired counter is unobservable. *)
Theorem Memory_refines_Ledger os clk :
  (∀ i, clk i <= clk (S i)) → Z.of_nat (size (keys os)) <= defaultMaxEntries →
  (run os (NewMemory clk)).1 = Ledger.run clk 0 os ∅ ∧
  Rejections (run os (NewMemory clk)).2 = 0.
Proof.
  intros Hclk HK.
  destruct (run_refines clk Hclk (keys os) HK os (NewMemory clk) ∅) as (b' & Hr & Hrej).
  - by split.
  - done.
  - apply Forall_forall. intros o Ho. unfold keys. rewrite elem_of_list_to_set.
    by apply list_elem_of_fmap_2.
  - rewrite Hr. done.
Qed.

(** The laws hold of the in-memory store. *)
Lemma within_cur key w b r b' k l :
  cur key w b = (r, b') → 0 <= l →
  (∀ v, m b !! k = Some v → 0 <= spent v <= l) → ∀ v, m b' !! k = Some v → 0 <= spent v <= l.
Proof. intros Hc Hl Hb v Hv. destruct (cur_other _ _ _ _ _ _ _ Hc Hv) as [|[_ ->]]; [eauto|lia]. Qed.

#[export] Program Instance Memory_BudgetLaws : BudgetLaws Memory := {|
  bs_within b k l := ∀ v, m b !! k = Some v → 0 <= spent v <= l
|}.
Next Obligation. intros b k l l' Hb Hl v Hv. specialize (Hb v Hv). lia. Qed.
Next Obligation.
  intros b k e l w k' l' Hl Hb v Hv. simpl in Hv. unfold Check in Hv.
  case_match; [by apply Hb|]. case_match; [by apply Hb|].
  destruct (cur k w b) as [r b1] eqn:Hc.
  apply (within_cur _ _ _ _ _ _ _ Hc Hl Hb v). by repeat case_hyp Hv.
Qed.
Next Obligation.
  intros b k e l w l0 Hl H0 Hb Hd v Hv. simpl in Hd, Hv. unfold Check in Hd, Hv.
  case_match; [done|]. case_match; [bsplit; lia|].
  destruct (cur k w b) as [[u|] b1] eqn:Hc; [|done].
  pose proof (cur_result _ _ _ _ _ Hc) as Hu.
  destruct (_ || _)%bool eqn:E in *; [done|]. bsplit. simpl in Hv.
  rewrite Hu in Hv. injection Hv as <-.
  destruct (cur_other _ _ _ _ _ _ _ Hc Hu) as [Hm|[_ Hz]]; [|lia].
  specialize (Hb _ Hm). lia.
Qed.
Next Obligation.
  intros b k w k' l' Hl Hb v Hv. simpl in Hv. unfold Spent in Hv.
  destruct (cur k w b) as [r b1] eqn:Hc.
  apply (within_cur _ _ _ _ _ _ _ Hc Hl Hb v). by destruct r.
Qed.
Next Obligation.
  intros b k w l Hl Hb. unfold wp. simpl. unfold Spent. destruct (cur k w b) as [[u|] b1] eqn:Hc; simpl.
  - pose proof (cur_result _ _ _ _ _ Hc) as Hu. pose proof (within_cur _ _ _ _ _ _ _ Hc Hl Hb u Hu).
    split; [done|]. intros v Hv. simplify_eq. lia.
  - split; [lia|]. intros v Hv. pose proof Hv as Hv'.
    apply cur_cases in Hc. inversion Hc; subst; simpl in *; congruence.
Qed.
Next Obligation.
  intros b k w k' l' Hl Hb v Hv. simpl in Hv. unfold ResetsAt, clock in Hv.
  destruct (cur k w b) as [r b1] eqn:Hc.
  apply (within_cur _ _ _ _ _ _ _ Hc Hl Hb v). by destruct r.
Qed.
Next Obligation.
  intros b k a w k' l' Hl Hb v Hv. simpl in Hv. unfold Debit in Hv.
  destruct (a <? 0) eqn:Ea; bsplit.
  { specialize (Hb _ Hv). case_decide; lia. }
  destruct (cur k w b) as [r b1] eqn:Hc.
  pose proof (within_cur _ _ _ _ _ k' l' Hc Hl Hb) as Hb1.
  destruct r as [u|]; simpl in Hv.
  - apply lookup_insert_Some in Hv as [[-> <-]|[Hne Hv]].
    + rewrite decide_True by done. pose proof (Hb1 u (cur_result _ _ _ _ _ Hc)).
      unfold add_spent. simpl. case_match; bsplit; int_lia.
    + rewrite decide_False by done. eauto.
  - specialize (Hb1 _ Hv). case_decide; lia.
Qed.

(** A counter of [k] at [v], open at every reading to come. *)
Definition open_counter (b : Memory) (k : string) (v : Z) : Prop :=
  ∃ x, m b !! k = Some x ∧ spent x = v ∧ nat63 v ∧ ∀ n, (reads b <= n)%nat → live (now b n) x = true.

Lemma cur_now key w b r b' : cur key w b = (r, b') → now b' = now b.
Proof. intros Hc. apply cur_cases in Hc. inversion Hc; subst; simpl; by apply (pr_now (now b (reads b))). Qed.

Lemma open_same k v b b' :
  m b' !! k = m b !! k → now b' = now b → (reads b <= reads b')%nat → open_counter b k v → open_counter b' k v.
Proof.
  intros Hm Hn Hr (x & Hx & Hs & Hv & Hl). exists x. rewrite Hm, Hn. split_and!; try done.
  intros n ?. apply Hl. lia.
Qed.

Lemma cur_open key w b r b' k v :
  cur key w b = (r, b') → open_counter b k v →
  open_counter b' k v ∧ (key = k → ∃ x, r = Some x ∧ spent x = v).
Proof.
  intros Hc (x & Hx & Hs & Hv & Hl).
  pose proof (cur_keeps_live _ _ _ _ _ _ _ Hc Hx (Hl _ (Nat.le_refl _))) as Hk.
  pose proof (cur_now _ _ _ _ _ Hc). pose proof (cur_reads _ _ _ _ _ Hc). split.
  - apply (open_same k v b); [congruence|done|lia|]. by exists x.
  - intros ->. destruct r as [u|].
    + pose proof (cur_result _ _ _ _ _ Hc). exists u. split; [done|congruence].
    + apply cur_cases in Hc. inversion Hc as [| |b1 Hp Ht Hn]; subst. simpl in Hk. congruence.
Qed.

#[export] Program Instance Memory_BudgetCounters : BudgetCounters Memory := {|
  bs_holds := open_counter
|}.
Next Obligation. by intros b k v (x & ? & ? & ? & ?). Qed.
Next Obligation.
  intros b k e l w k' v Ho. unfold wp. simpl. unfold Check.
  destruct (e <? 0) eqn:Ee; [split; [done|bsplit; lia]|].
  destruct (l <=? 0) eqn:El; [split; [done|bsplit; lia]|]. bsplit.
  destruct (cur k w b) as [r b1] eqn:Hc. destruct (cur_open _ _ _ _ _ _ _ Hc Ho) as [Ho1 Hr].
  split; [by repeat case_match|]. intros Hk He Hlim. destruct (Hr Hk) as (x & -> & <-).
  destruct (spent x + e <=? l) eqn:E, (_ || _)%bool eqn:E2; try done; bcases; lia.
Qed.
Next Obligation.
  intros b k w k' v Ho. unfold wp. simpl. unfold Spent.
  destruct (cur k w b) as [r b1] eqn:Hc. destruct (cur_open _ _ _ _ _ _ _ Hc Ho) as [Ho1 Hr].
  split; [by destruct r|]. intros Hk. by destruct (Hr Hk) as (x & -> & <-).
Qed.
Next Obligation.
  intros b k w k' v Ho. unfold wp. simpl. unfold ResetsAt.
  destruct (cur k w b) as [r b1] eqn:Hc. destruct (cur_open _ _ _ _ _ _ _ Hc Ho) as [Ho1 Hr].
  destruct r; [done|]. apply (open_same k' v b1); [done..| |done]. simpl. lia.
Qed.
Next Obligation.
  intros b k a w k' v Ha Ho. unfold wp. simpl. unfold Debit.
  destruct (a <? 0) eqn:E; [bsplit; lia|].
  destruct (cur k w b) as [r b1] eqn:Hc. destruct (cur_open _ _ _ _ _ _ _ Hc Ho) as [Ho1 Hr].
  case_decide as Hk.
  - destruct (Hr Hk) as (x & -> & <-). subst k'. destruct Ho1 as (y & Hy & Hsy & Hv & Hl).
    exists (add_spent x a). simpl. rewrite lookup_insert_eq. split; [done|].
    assert (ends x = ends y) as Hends.
    { pose proof (cur_result _ _ _ _ _ Hc). congruence. }
    unfold add_spent. simpl. split; [case_match; bsplit; int_lia|]. split; [int_lia|].
    intros n Hn. specialize (Hl n Hn). unfold live in *. simpl. by rewrite Hends.
  - destruct r as [x|]; [|done]. apply (open_same k' v b1); [|done|done|done].
    simpl. by rewrite lookup_insert_ne.
Qed.

(** The in-memory store is steady while its clock reads instants of one window. *)
Definition in_window (K : string) (W : Window) (E : Time) (b : Memory) : Prop :=
  (∀ n, windowEnd (now b n) W = E) ∧ ∀ v, m b !! K = Some v → ends v = E.

Lemma cur_in_window key w b r b' K W E :
  cur key w b = (r, b') → (key = K → w = W) → in_window K W E b →
  in_window K W E b' ∧ (key = K → match r with Some v => ends v = E | None => True end).
Proof.
  intros Hc Hw [Hn Hk]. pose proof (cur_now _ _ _ _ _ Hc) as Hnow.
  assert (∀ v, m b' !! K = Some v → ends v = E) as Hk'.
  { intros v Hv. apply cur_cases in Hc. destruct Hc as [u b1 Hp ? ? -> ?|b1 Hp ? ? -> ?|b1 Hp ? ? ? ->].
    - apply (pr_sub _ _ _ Hp) in Hv. eauto.
    - simpl in Hv. apply lookup_insert_Some in Hv as [[He <-]|[_ Hv]].
      + simpl. rewrite Hw by done. apply Hn.
      + apply (pr_sub _ _ _ Hp) in Hv. eauto.
    - apply (pr_sub _ _ _ Hp) in Hv. eauto. }
  split; [split; [by rewrite Hnow|done]|]. intros ->.
  destruct r as [v|]; [|done]. by apply Hk', (cur_result _ _ _ _ _ Hc).
Qed.

Lemma in_window_steady K W E : steady (in_window K W E) K W E.
Proof.
  split.
  - intros b k e l w Hw Hi. unfold wp. simpl. unfold Check. case_match; [done|]. case_match; [done|].
    destruct (cur k w b) as [r b'] eqn:Hc. apply (cur_in_window _ _ _ _ _ K W E) in Hc as [? _]; [|done..].
    by repeat case_match.
  - intros b k w Hw Hi. unfold wp. simpl. unfold Spent.
    destruct (cur k w b) as [r b'] eqn:Hc. apply (cur_in_window _ _ _ _ _ K W E) in Hc as [? _]; [|done..].
    by destruct r.
  - intros b k a w Hw Hi. unfold wp. simpl. unfold Debit. case_match; [done|].
    destruct (cur k w b) as [r b'] eqn:Hc. apply (cur_in_window _ _ _ _ _ K W E) in Hc as [[Hn Hk] Hr]; [|done..].
    destruct r as [u|]; [|done]. split; [done|]. simpl.
    intros v [[-> <-]|[_ Hv]]%lookup_insert_Some; [|by apply Hk]. unfold add_spent. simpl. by apply Hr.
  - intros b k w Hw Hi. unfold wp. simpl. unfold ResetsAt.
    destruct (cur k w b) as [r b'] eqn:Hc. apply (cur_in_window _ _ _ _ _ K W E) in Hc as [[Hn Hk] Hr]; [|done..].
    destruct r as [u|]; simpl; [done|]. split; [done|]. intros ->. rewrite Hw by done. apply Hn.
Qed.

(** ** What the operations answer *)

(** The counter a call made at [b] reads: the live one, or a zero one. *)
Definition counter (b : Memory) (key : string) (w : Window) : win :=
  Ledger.current (now b (reads b)) key w (m b).

Lemma cur_counter key w b v b' : cur key w b = (Some v, b') → v = counter b key w.
Proof.
  intros Hc. apply cur_cases in Hc. unfold counter, Ledger.current.
  inversion Hc as [u b1 Hp Hu Hl Hb Hr He|b1 Hp Hd Hf Hb Hr He|]; subst.
  - apply (pr_sub _ _ _ Hp) in Hu. by rewrite Hu, Hl.
  - destruct (m b !! key) as [u|]; [|done]. by rewrite Hd.
Qed.

(** The only refusal: a key without counter, not even an ended one (rolling an
    existing key is never refused), and as many live counters of other keys as
    the store holds. *)
Lemma cur_none key w b b' :
  wf b → cur key w b = (None, b') →
  m b !! key = None ∧ m b' !! key = None
  ∧ Z.of_nat (size (m b')) = maxEntries b
  ∧ ∀ k v, m b' !! k = Some v → m b !! k = Some v ∧ live (now b (reads b)) v = true.
Proof.
  intros Hw Hc. pose proof (wf_cur _ _ _ _ _ Hc Hw) as Hw'. revert Hc. rewrite cur_unfold.
  cbv beta zeta. pose proof (pruned_ticked b) as Hp.
  destruct (m (ticked b) !! key) as [u|] eqn:Hu; [by case_match|].
  destruct (full (ticked b)) eqn:Hf; [|done].
  destruct (full (sweepExpired _ _)) eqn:Hf'; [|done]. intros [= <-].
  pose proof (pruned_trans _ _ _ _ Hp (pruned_sweep _ _)) as Hp2.
  set (b2 := sweepExpired (now b (reads b)) (ticked b)) in *.
  assert (Z.of_nat (size (m b2)) = maxEntries b) as Hsz.
  { unfold full in Hf'. bsplit. destruct Hw' as [Hs _]. simpl in *.
    rewrite (pr_max _ _ _ Hp) in *. lia. }
  assert (m b2 !! key = None) as Hk.
  { destruct (m b2 !! key) eqn:E; [|done]. apply (pr_sub _ _ _ (pruned_sweep _ _)) in E. congruence. }
  split; [|split; [done|split; [done|]]].
  - apply eq_None_not_Some. intros [v Hv]. destruct Hw as [Hs _].
    pose proof (pruned_dom _ _ _ Hp2) as Hd.
    assert (({[key]} : gset string) ∪ dom (m b2) ⊆ dom (m b)) as Hs2.
    { apply union_subseteq. split; [|done]. apply singleton_subseteq_l, elem_of_dom. by exists v. }
    apply subseteq_size in Hs2. apply not_elem_of_dom in Hk.
    rewrite size_union, size_singleton, !size_dom in Hs2 by set_solver. lia.
  - intros k v Hv. split; [by apply (pr_sub _ _ _ Hp2)|]. exact (sweep_dead _ _ _ _ Hv).
Qed.

(** [Check], completely: a negative estimate is blocked, no limit admits, and
    otherwise it admits exactly when the counter plus the estimate is within the
    limit, as an unbounded sum (no wrap-around can admit); [BlockCapacity] comes
    only when the key has no counter, live or ended (rolling an existing key is
    never refused), and the store is full of live ones. *)
Theorem Check_spec key e l w b d b' :
  wf b → Check key e l w b = (d, b') →
  match d with
  | Allow => 0 <= e ∧ (l <= 0 ∨ spent (counter b key w) + e <= l)
  | Block => e < 0 ∨ (0 < l ∧ l < spent (counter b key w) + e)
  | BlockCapacity =>
      0 <= e ∧ 0 < l ∧ m b !! key = None ∧ Z.of_nat (size (m b')) = maxEntries b
      ∧ ∀ k v, m b' !! k = Some v → m b !! k = Some v ∧ live (now b (reads b)) v = true
  end.
Proof.
  intros Hw. unfold Check.
  destruct (e <? 0) eqn:Ee; [intros [= <- <-]; bsplit; by left|].
  destruct (l <=? 0) eqn:El; [intros [= <- <-]; bsplit; lia|]. bsplit.
  destruct (cur key w b) as [[v|] b1] eqn:Hc.
  - pose proof (cur_counter _ _ _ _ _ Hc) as <-.
    destruct (_ || _)%bool eqn:E; intros [= <- <-]; bsplit; [|lia].
    apply orb_true_iff in E as [E|E]; bsplit; lia.
  - intros [= <- <-]. destruct (cur_none _ _ _ _ Hw Hc) as (? & _ & ? & ?). done.
Qed.

(** [Debit]'s effect on the counters. *)
Lemma Debit_effect key a w b b' :
  wf b → Debit key a w b = (tt, b') →
  a < 0 ∧ b' = b
  ∨ 0 <= a ∧ m b' !! key = Some {| spent := Z.min MaxInt64 (spent (counter b key w) + a);
                                   ends := ends (counter b key w) |}
  ∨ 0 <= a ∧ m b' !! key = None.
Proof.
  intros Hw. unfold Debit. destruct (a <? 0) eqn:Ea; [intros [= <-]; bsplit; by left|]. bsplit.
  destruct (cur key w b) as [[v|] b1] eqn:Hc; intros [= <-]; right.
  - left. split; [done|]. simpl. rewrite lookup_insert_eq.
    pose proof (wf_spent _ (wf_cur _ _ _ _ _ Hc Hw) _ _ (cur_result _ _ _ _ _ Hc)).
    pose proof (cur_counter _ _ _ _ _ Hc) as <-.
    rewrite <- add_spent_spec by done. done.
  - right. split; [done|]. by destruct (cur_none _ _ _ _ Hw Hc) as (? & ? & ? & ?).
Qed.

(** Debits of a list of amounts, in order. *)
Fixpoint debits (key : string) (w : Window) (l : list Z) : ST Memory unit := λ b,
  match l with
  | [] => (tt, b)
  | a :: l => let '(_, b) := Debit key a w b in debits key w l b
  end.

Lemma Debit_live key a w b v :
  wf b → m b !! key = Some v → live (now b (reads b)) v = true → 0 <= a →
  ∃ b', Debit key a w b = (tt, b') ∧ wf b' ∧ now b' = now b ∧ reads b' = S (reads b)
  ∧ m b' !! key = Some {| spent := Z.min MaxInt64 (spent v + a); ends := ends v |}.
Proof.
  intros Hw Hv Hl Ha. unfold Debit. destruct (a <? 0) eqn:E; [bsplit; lia|].
  destruct (cur key w b) as [r b1] eqn:Hc.
  pose proof (cur_reads _ _ _ _ _ Hc) as Hrd.
  pose proof (cur_keeps_live _ _ _ _ _ _ _ Hc Hv Hl) as Hk.
  assert (r = Some v) as ->.
  { destruct r as [u|]; [by rewrite (cur_result _ _ _ _ _ Hc) in Hk; simplify_eq|].
    destruct (cur_none _ _ _ _ Hw Hc) as (_ & Hn & _). congruence. }
  eexists. split; [done|]. split.
  { eapply (wf_stepped (OpDebit key a w)); [|done]. by eapply stepped_add. }
  pose proof (wf_spent _ Hw _ _ Hv). simpl.
  split.
  { apply cur_cases in Hc. inversion Hc; subst; simpl; by apply (pr_now (now b (reads b))). }
  split; [done|]. rewrite lookup_insert_eq. rewrite <- add_spent_spec by done. done.
Qed.

(** Debits accumulate exactly: after any sequence of nonnegative debits made
    while a counter's window is open, the counter is its old value plus their
    sum, cut at [MaxInt64], whatever sweeps ran in between; its end is
    unchanged. *)
Theorem debits_accumulate key w l b v :
  wf b → m b !! key = Some v → Forall (λ a, 0 <= a) l →
  (∀ i, (i < length l)%nat → live (now b (reads b + i)) v = true) →
  m (debits key w l b).2 !! key
  = Some {| spent := Z.min MaxInt64 (spent v + sumZ l); ends := ends v |}.
Proof.
  intros Hw Hv Hl. revert b v Hw Hv. induction Hl as [|a l Ha Hl IH]; intros b v Hw Hv Hi.
  - simpl. rewrite Hv. pose proof (wf_spent _ Hw _ _ Hv). destruct v; simpl in *.
    f_equal. f_equal. int_lia.
  - simpl. destruct (Debit_live key a w b v Hw Hv) as (b1 & -> & Hw1 & Hn1 & Hr1 & Hk1).
    + specialize (Hi 0%nat). rewrite Nat.add_0_r in Hi. apply Hi. simpl. lia.
    + done.
    + rewrite (IH b1 _ Hw1 Hk1); simpl.
      * f_equal. f_equal. pose proof (sumZ_nonneg l Hl). lia.
      * intros i Hlt. unfold live in *. simpl. rewrite Hn1, Hr1.
        specialize (Hi (S i)). rewrite <- plus_n_Sm in Hi. apply Hi. simpl. lia.
Qed.

(** ** Nothing live is lost *)

Lemma stepped_live o b b' k v :
  wf b → stepped o b b' → m b !! k = Some v →
  (reads b ≤ reads b')%nat ∧ now b' = now b ∧
  ((∀ i, (reads b ≤ i < reads b')%nat → live (now b i) v = true) →
   ∃ v', m b' !! k = Some v' ∧ spent v <= spent v' ∧ ends v' = ends v).
Proof.
  intros Hw Hst Hk.
  assert (∀ key w r b1, cur key w b = (r, b1) → now b1 = now b) as Hnow.
  { intros key w r b1 Hc. apply cur_cases in Hc.
    inversion Hc; subst; simpl; by apply (pr_now (now b (reads b))). }
  destruct Hst as [->|w r Hc|w b1 Hc ->|w a u b1 Ha Hc ->];
    [split; [lia|]; split; [done|]; intros _; by exists v|(pose proof (cur_reads _ _ _ _ _ Hc) as Hr; pose proof (Hnow _ _ _ _ Hc))..].
  - split; [lia|]. split; [done|]. intros Hl. exists v. split; [|done].
    eapply cur_keeps_live; [done..|]. apply Hl. lia.
  - simpl. split; [lia|]. split; [done|]. intros Hl. exists v. split; [|done].
    eapply cur_keeps_live; [done..|]. apply Hl. lia.
  - simpl. split; [lia|]. split; [done|]. intros Hl.
    assert (m b1 !! k = Some v) as Hk1.
    { eapply cur_keeps_live; [done..|]. apply Hl. lia. }
    destruct (decide (k = op_key o)) as [->|Hne].
    + rewrite lookup_insert_eq. eexists. split; [done|].
      rewrite (cur_result _ _ _ _ _ Hc) in Hk1. injection Hk1 as ->.
      pose proof (wf_spent _ Hw _ _ Hk). rewrite add_spent_spec by done. split; [int_lia|done].
    + rewrite lookup_insert_ne by done. by exists v.
Qed.

(** No operation loses money of an open window: over any sequence of
    operations, on any keys and at any fill level of the store, a counter whose
    window has not ended at any of the clock readings taken is still there at
    the end, with its end unchanged and at least its old spend. *)
Theorem run_never_drops_live os b xs b' k v :
  wf b → run os b = (xs, b') → m b !! k = Some v →
  (∀ i, (reads b ≤ i < reads b')%nat → live (now b i) v = true) →
  ∃ v', m b' !! k = Some v' ∧ spent v <= spent v' ∧ ends v' = ends v.
Proof.
  revert b xs v. induction os as [|o os IH]; intros b xs v Hw; simpl.
  { intros [= _ <-] Hk _. by exists v. }
  destruct (step o b) as [x b1] eqn:E, (run os b1) as [ys b2] eqn:E'.
  intros [= _ <-] Hk Hl. apply step_stepped in E.
  destruct (stepped_live _ _ _ _ _ Hw E Hk) as (Hr1 & Hn1 & Hstep).
  assert (reads b1 <= reads b2)%nat as Hr2.
  { eapply (run_ind (λ b, reads b1 ≤ reads b)%nat); [|done|done].
    intros o' c1 c2 Hst Hc. etrans; [done|]. clear -Hst.
    destruct Hst as [->|w r Hcur|w c Hcur ->|w a u c _ Hcur ->]; [done|..];
      apply cur_reads in Hcur; simpl; lia. }
  destruct Hstep as (v1 & Hk1 & Hs1 & He1); [intros i Hi; apply Hl; lia|].
  destruct (IH b1 ys v1) as (v2 & Hk2 & Hs2 & He2); [by eapply wf_stepped|done|done| |].
  - intros i Hi. specialize (Hl i ltac:(lia)). unfold live in *. by rewrite Hn1, He1.
  - exists v2. split; [done|]. split; [lia|congruence].
Qed.

(** ** Windows and keys *)

Lemma Tag_free w : str_free colon (Tag w) = true.
Proof. unfold Tag. destruct (Kind w); [|done..]. simpl. apply duration_string_free. Qed.

Lemma Tag_Kind w w' : Tag w = Tag w' → Kind w = Kind w'.
Proof. unfold Tag. by destruct (Kind w), (Kind w'). Qed.

Definition scopes : list string := [ScopeTeam; ScopeKey; ScopeUser].

Lemma scope_free s : s ∈ scopes → str_free colon s = true.
Proof. unfold scopes. rewrite !elem_of_cons, elem_of_nil. naive_solver. Qed.

Lemma Key_inj s s' id id' w w' :
  s ∈ scopes → s' ∈ scopes → Key s id w = Key s' id' w' →
  s = s' ∧ id = id' ∧ Kind w = Kind w' ∧ Tag w = Tag w'.
Proof.
  intros Hs Hs'. unfold Key. intros He. injection He as He.
  apply (str_split_inj colon) in He as [Ht He]; [|apply Tag_free..].
  apply (str_split_inj colon) in He as [-> ->]; [|by apply scope_free..].
  split; [done|]. split; [done|]. split; [by apply Tag_Kind|done].
Qed.

(** Store keys never collide: two counters with the same key have the same
    scope, the same id and windows of the same kind (and, rolling, of the same
    printed duration), whatever characters the ids hold.  In particular a caller-chosen
    id cannot reach another window's or scope's counter. *)
Theorem Key_injective s s' id id' w w' :
  s ∈ scopes → s' ∈ scopes → Key s id w = Key s' id' w' →
  s = s' ∧ id = id' ∧ Kind w = Kind w' ∧ Tag w = Tag w'.
Proof. apply Key_inj. Qed.

(** The instants at which a window of this kind and zone may end. *)
Definition boundary (k : WindowKind) (off : Z) : Time → Prop :=
  match k with
  | CalDay => local_midnight off
  | CalMonth => local_month_start off
  | Rolling => λ _, False
  end.

(** A calendar window in a zone of fixed offset ends at the first local
    midnight (the month's: the first local midnight of a first of a month)
    strictly after the instant, at most 24 hours (31 days) away; a rolling one
    ends [Dur] after it.  Leap years and the turn of the year are included. *)
Theorem windowEnd_least t k d n off :
  let e := windowEnd t {| Kind := k; Dur := d; Loc := Some (FixedZone n off) |} in
  match k with
  | Rolling => e = t + d
  | _ => boundary k off e
         ∧ t < e <= t + (match k with CalMonth => 31 | _ => 1 end) * 24 * Hour
         ∧ ∀ u, boundary k off u → t < u → e <= u
  end.
Proof.
  destruct k; simpl; [done| |].
  - apply next_midnight_least.
  - apply next_month_least.
Qed.

(** ** Witnesses: the theorems at concrete stores *)

Definition tick_clock (i : nat) : Time := Z.of_nat i.

Definition demo_window : Window := {| Kind := Rolling; Dur := 100; Loc := None |}.

(** One live counter of 7, in a store with room for that one only. *)
Definition demo : Memory :=
  {| m := {[ "k" := {| spent := 7; ends := 90 |} ]}; now := tick_clock; reads := 0;
     maxEntries := 1; sweepTick := 254; rejected := 0 |}.

Lemma demo_wf : wf demo.
Proof.
  split; [done|]. intros k v. unfold demo. simpl.
  rewrite lookup_singleton_Some. intros [_ <-]. done.
Qed.

Definition demo_ops : list op :=
  [OpDebit "k" 5 demo_window; OpCheck "k" 3 7 demo_window; OpSpent "j" (CalendarDayIn None);
   OpDebit "k" MaxInt64 demo_window; OpResetsAt "k" demo_window].

Lemma Memory_refines_Ledger_witness :
  (run demo_ops (NewMemory tick_clock)).1 = Ledger.run tick_clock 0 demo_ops ∅ ∧
  Rejections (run demo_ops (NewMemory tick_clock)).2 = 0.
Proof.
  apply (Memory_refines_Ledger demo_ops tick_clock).
  - intros i. unfold tick_clock. lia.
  - vm_compute. discriminate.
Defined.

Lemma Check_spec_witness :
  (0 <= 3 ∧ (10 <= 0 ∨ spent (counter demo "k" demo_window) + 3 <= 10))
  ∧ Check "k" 4 10 demo_window demo = (Block, (Check "k" 4 10 demo_window demo).2).
Proof.
  split; [|reflexivity].
  exact (Check_spec "k" 3 10 demo_window demo Allow (Check "k" 3 10 demo_window demo).2
           demo_wf eq_refl).
Defined.

Lemma debits_accumulate_witness :
  m (debits "k" demo_window [3; 4] demo).2 !! "k" = Some {| spent := 14; ends := 90 |}.
Proof.
  apply (debits_accumulate "k" demo_window [3; 4] demo {| spent := 7; ends := 90 |}).
  - apply demo_wf.
  - reflexivity.
  - repeat constructor; lia.
  - intros i Hi. simpl in *. unfold live, Before, tick_clock. simpl. apply Z.ltb_lt. lia.
Defined.

Lemma run_never_drops_live_witness :
  ∃ v', m (run [OpCheck "new" 1 9 demo_window; OpDebit "k" 2 demo_window] demo).2 !! "k" = Some v'
        ∧ 7 <= spent v' ∧ ends v' = 90.
Proof.
  eapply (run_never_drops_live
            [OpCheck "new" 1 9 demo_window; OpDebit "k" 2 demo_window] demo
            _ _ "k" {| spent := 7; ends := 90 |} demo_wf eq_refl eq_refl).
  intros i Hi. simpl in Hi. unfold live, Before, tick_clock. simpl. apply Z.ltb_lt.
  unfold tick_clock. lia.
Defined.

Lemma Key_injective_witness :
  Key ScopeTeam "user:x" (CalendarDayIn None) = Key ScopeTeam "user:x" (CalendarDayIn (Some UTC))
  ∧ Kind (CalendarDayIn None) = Kind (CalendarDayIn (Some UTC)).
Proof.
  split; [reflexivity|].
  apply (Key_injective ScopeTeam ScopeTeam "user:x" "user:x" (CalendarDayIn None)
           (CalendarDayIn (Some UTC))); [by left|by left|reflexivity].
Defined.
