(* ===== verification/V1Alpha1.v ===== *)
(** * The wire types of the config API (api/v1alpha1)

    One record per struct, an [option] per pointer, a [string] per string-kinded
    enumeration (the wire can hold any value; validation is [Policy]'s), a
    [gmap] per map. *)

From S2P Require Import Prelude.

Module v1alpha1.

Definition APIVersion : string := "inferplane.dev/v1alpha1".
Definition KindGovernancePolicy : string := "GovernancePolicy".

Record TypeMeta := { tm_APIVersion : string; tm_Kind : string }.

Record ObjectMeta := { om_Name : string; om_Generation : Z }.

Record Subject := { sub_Team : string; sub_User : string }.

(** [FailurePolicy]: a string type. *)
Definition FailOpen : string := "FailOpen".
Definition FailClosed : string := "FailClosed".

Record TraceExport := { te_Exporter : string; te_SamplePercent : option Z }.
Record SignalExport := { se_Exporter : string }.

Record ObservabilityRule := {
  ob_Traces : option TraceExport;
  ob_Audit : option SignalExport;
  ob_Content : option SignalExport
}.

(** [BudgetPeriod]: a string type. *)
Definition PeriodCalendarDay : string := "CalendarDay".
Definition PeriodCalendarMonth : string := "CalendarMonth".

Record TokenQuotaRule := { tq_LimitTokens : Z; tq_Period : string }.

Record LeaseSpec := { ls_GrantMilliUSD : Z; ls_RenewInterval : string }.

Record BudgetRule := {
  br_Unlimited : bool;
  br_LimitMilliUSD : Z;
  br_HardCap : bool;
  br_Lease : LeaseSpec;
  br_AdminContact : string;
  br_Period : string
}.

Record ModelAccessRule := { ma_Allow : list string }.

Record RateRule := { rr_Unlimited : bool; rr_RPM : Z; rr_TPM : Z }.

(** [ConflictPreference]: a string type. *)
Definition PreferAffinity : string := "PreferAffinity".
Definition PreferFallback : string := "PreferFallback".

Record BudgetTier := { bt_ThresholdPercent : Z; bt_Substitute : gmap string string }.

Record BudgetTiersRule := {
  btr_BudgetRef : string;
  btr_Tiers : list BudgetTier;
  btr_EnforceTargets : bool
}.

(** [ContextMode]: a string type. *)
Definition Shadow : string := "Shadow".
Definition Enforce : string := "Enforce".

Record ContextStability := {
  cs_MinHold : string;
  cs_MinRequests : Z;
  cs_SessionTTL : string
}.

Record ContextRule := {
  cr_Mode : string;
  cr_FromModels : list string;
  cr_SimpleModel : string;
  cr_ComplexModel : string;
  cr_MaxSimpleInputTokens : Z;
  cr_ComplexKeywords : list string;
  cr_NormalModel : string;
  cr_MaxNormalInputTokens : Z;
  cr_Stability : option ContextStability
}.

Record RoutingRule := {
  ro_OnAffinityConflict : string;
  ro_BudgetTiers : option BudgetTiersRule;
  ro_Context : option ContextRule
}.

(** [SensitiveDataAction]: a string type. *)
Definition InternalOnly : string := "InternalOnly".
Definition Block : string := "Block".
Definition Mask : string := "Mask".

Record SensitiveDataRule := {
  sd_OnDetected : string;
  sd_OnUninspectable : string;
  sd_InternalModels : list string
}.

Record Rule := {
  Name : string;
  FailurePolicy : string;
  Budget : option BudgetRule;
  Routing : option RoutingRule;
  ModelAccess : option ModelAccessRule;
  Rate : option RateRule;
  SensitiveData : option SensitiveDataRule;
  TokenQuota : option TokenQuotaRule;
  Observability : option ObservabilityRule
}.

Record GovernancePolicySpec := { sp_Subject : Subject; sp_Rules : list Rule }.

Record GovernancePolicy := {
  gp_TypeMeta : TypeMeta;
  Metadata : ObjectMeta;
  Spec : GovernancePolicySpec
}.

End v1alpha1.
