(* ===== verification/Policy.v ===== *)
(** * Governance policies: the internal form and its conversion (internal/policy)

    [FromV1Alpha1] converts a wire document into a [Policy] or rejects it with an
    [UnsupportedError]; a [Reason] constructor stands for each message of the
    code, with the values the message shows.  Go's map iteration order is the
    parameter [range] of the section that ranges over a map: any listing of the
    map's entries. *)

From S2P Require Import Prelude GoTime GoFloat V1Alpha1.

(** ** Data *)

Definition DefaultLeaseRenewInterval : Duration := 10 * Second.
Definition MinLeaseRenewInterval : Duration := Second.
Definition DefaultLeaseGrantBP : Z := 10.
Definition maxPolicyRules : nat := 256.
Definition SupportedAPIVersions : list string := [v1alpha1.APIVersion].

Definition Supports (apiVersion : string) : bool := contains apiVersion SupportedAPIVersions.

Record Subject := { Team : string; User : string }.

#[export] Instance Subject_eq_dec : EqDecision Subject.
Proof. solve_decision. Defined.
#[export] Program Instance Subject_countable : Countable Subject :=
  inj_countable' (λ s, (Team s, User s)) (λ p, {| Team := p.1; User := p.2 |}) _.
Next Obligation. by intros []. Qed.

Record TokenQuota := { q_LimitTokens : Z; q_Period : string }.

Record Budget := {
  b_Unlimited : bool;
  b_LimitMicroUSD : Z;
  b_HardCap : bool;
  b_LeaseGrantMicroUSD : Z;
  b_LeaseRenewInterval : Duration;
  b_AdminContact : string;
  b_Period : string
}.

Record ModelAccess := { Allow : list string }.
Record Rate := { rate_Unlimited : bool; RPM : Z; TPM : Z }.
Record Affinity := { OnAffinityConflict : string }.
Record BudgetTier := { ThresholdPercent : Z; Substitute : gmap string string }.
Record BudgetTiers := { BudgetRef : string; Tiers : list BudgetTier; EnforceTargets : bool }.

Record SensitiveData := {
  OnDetected : string; OnUninspectable : string; InternalModels : list string
}.

Record ContextStability := { MinHold : Duration; MinRequests : Z; SessionTTL : Duration }.

Record Context_ := {
  Mode : string;
  FromModels : list string;
  SimpleModel : string;
  ComplexModel : string;
  MaxSimpleInputTokens : Z;
  ComplexKeywords : list string;
  NormalModel : string;
  MaxNormalInputTokens : Z;
  Stability : option ContextStability
}.

(** Exactly one of the three is set after conversion. *)
Record Routing := {
  ro_Affinity : option Affinity;
  ro_BudgetTiers : option BudgetTiers;
  ro_Context : option Context_
}.

Record TraceExport := { Exporter : string; SamplePercent : Z }.
Record Observability := { o_Traces : option TraceExport; o_Audit : string; o_Content : string }.

Record Rule := mkRule {
  r_Name : string;
  r_FailurePolicy : string;
  r_Budget : option Budget;
  r_Routing : option Routing;
  r_ModelAccess : option ModelAccess;
  r_SensitiveData : option SensitiveData;
  r_Rate : option Rate;
  r_TokenQuota : option TokenQuota;
  r_Observability : option Observability
}.

Record Policy := {
  p_Name : string;
  p_Generation : Z;
  p_Subject : Subject;
  p_Rules : list Rule
}.

(** ** Rejections *)

Inductive Reason :=
| RApiVersion | RKind (kind : string) | RSubject | RNoRules | RTooManyRules
| REmptyRuleName | RDuplicateRule | RFailurePolicyRequired | RFailurePolicyUnknown (fp : string)
| ROneKind
| RTokenQuota | RTokenQuotaFailClosed
| RSensitiveFailClosed | ROnDetected | ROnUninspectable | RInternalModelsRequired | RInternalModels
| RUnlimitedCombined | RLimitRange | RHardCapFailClosed | RPeriod (p : string) | RGrantRange
| RRenewNotDuration (s : string) | RRenewFloor
| ROneRouting | RAffinityUnknown (p : string)
| RStrictSubject | RBudgetRefRequired | RBudgetRefMissing (n : string)
| RBudgetRefUnlimited (n : string) | RTiersEmpty | RThresholdRange (max got : Z)
| RThresholdOrder | RSubstituteEmpty | RSubstituteBlank | RSubstituteSelf (m : string)
| RSubstituteChain (m : string)
| RContextFailOpen | RContextMode | RContextModels | RContextFromModels | RContextMaxSimple
| RContextNormal | RMinHold | RSessionTTL | RStability | RKeywordBlank
| RAllowEmpty | RAllowBlank
| RRateNegative | RRateUnlimited | RRateNone
| RObservabilityFailOpen | RObservabilityNone | RTraceExporter (e : string)
| RSamplePercent (got : Z) | RSignalExporter (signal e : string)
(** apply time *)
| RCeiling (signal e cause : string) | RTokenQuotaShared | RTarget (m cause : string)
| RAffinityNotEnforceable | RTierTarget (m cause : string) | RRateSubject.

#[export] Instance Reason_eq_dec : EqDecision Reason.
Proof. solve_decision. Defined.

Record UnsupportedError := {
  ue_APIVersion : string; ue_Kind : string; ue_Rule : string; ue_Reason : Reason
}.

(** ** String classes *)

(** [strings.TrimSpace(s) == ""]: every rune is white space.  The multi-byte
    cases are the UTF-8 encodings of the white-space runes outside ASCII. *)
Fixpoint blank (s : string) : bool :=
  match s with
  | EmptyString => true
  | String a s1 =>
      let n := Ascii.nat_of_ascii a in
      if ((Nat.leb 9 n && Nat.leb n 13) || Nat.eqb n 32)%bool then blank s1
      else match s1 with
      | String b s2 =>
          let k := Ascii.nat_of_ascii b in
          if (Nat.eqb n 194 && (Nat.eqb k 133 || Nat.eqb k 160))%bool then blank s2
          else match s2 with
          | String c s3 =>
              let j := Ascii.nat_of_ascii c in
              if ((Nat.eqb n 225 && Nat.eqb k 154 && Nat.eqb j 128)
                  || (Nat.eqb n 226 && Nat.eqb k 128
                      && ((Nat.leb 128 j && Nat.leb j 138) || Nat.eqb j 168 || Nat.eqb j 169
                          || Nat.eqb j 175))
                  || (Nat.eqb n 226 && Nat.eqb k 129 && Nat.eqb j 159)
                  || (Nat.eqb n 227 && Nat.eqb k 128 && Nat.eqb j 128))%bool
              then blank s3 else false
          | EmptyString => false
          end
      | EmptyString => false
      end
  end.

(** [strings.ContainsAny(s, "*?[]")]. *)
Definition wildcards : string := "*?[]".
Fixpoint has_wildcard (s : string) : bool :=
  match s with
  | EmptyString => false
  | String a s => (negb (str_free a wildcards) || has_wildcard s)%bool
  end.

Definition explicitModel (name : string) : bool := (negb (blank name) && negb (has_wildcard name))%bool.

(** The exporter name pattern: a DNS label of 1 to 63 characters. *)
Definition label_alnum (a : Ascii.ascii) : bool :=
  let n := Ascii.nat_of_ascii a in
  ((Nat.leb 97 n && Nat.leb n 122) || (Nat.leb 48 n && Nat.leb n 57))%bool.
Fixpoint label_tail (s : string) : bool :=
  match s with
  | EmptyString => true
  | String a EmptyString => label_alnum a
  | String a s => ((label_alnum a || Nat.eqb (Ascii.nat_of_ascii a) 45) && label_tail s)%bool
  end.
Definition ValidExporterName (name : string) : bool :=
  match name with
  | EmptyString => false
  | String a s => (label_alnum a && label_tail s && Nat.leb (String.length name) 63)%bool
  end.

(** ** Conversion *)

Definition microPerMilli : Z := 1000.
Definition maxWireMilliUSD : Z := MaxInt64 / microPerMilli.

Definition rejection (doc : v1alpha1.GovernancePolicy) (rule : string) (reason : Reason)
    : UnsupportedError :=
  {| ue_APIVersion := v1alpha1.tm_APIVersion (v1alpha1.gp_TypeMeta doc);
     ue_Kind := v1alpha1.tm_Kind (v1alpha1.gp_TypeMeta doc);
     ue_Rule := rule; ue_Reason := reason |}.

Section conversion.
Context (range : gmap string string → list (string * string)).
Context (doc : v1alpha1.GovernancePolicy).

Abbreviation reject := (rejection doc).

Definition observabilityFromV1Alpha1 (wr : v1alpha1.Rule) (o : v1alpha1.ObservabilityRule)
    : result UnsupportedError Observability :=
  let name := v1alpha1.Name wr in
  negb (bool_decide (v1alpha1.FailurePolicy wr = v1alpha1.FailOpen))
    !> reject name RObservabilityFailOpen ;;
  (bool_decide (v1alpha1.ob_Traces o = None) && bool_decide (v1alpha1.ob_Audit o = None)
   && bool_decide (v1alpha1.ob_Content o = None))%bool !> reject name RObservabilityNone ;;
  let trace :=
    match v1alpha1.ob_Traces o with
    | None => Ok None
    | Some t =>
        let e := v1alpha1.te_Exporter t in
        negb (ValidExporterName e) !> reject name (RTraceExporter e) ;;
        let pct := default 100 (v1alpha1.te_SamplePercent t) in
        ((pct <? 1) || (100 <? pct))%bool !> reject name (RSamplePercent pct) ;;
        Ok (Some {| Exporter := e; SamplePercent := pct |})
    end in
  let signal (sig : string) (i : option v1alpha1.SignalExport) :=
    match i with
    | None => Ok ""
    | Some x =>
        let e := v1alpha1.se_Exporter x in
        negb (ValidExporterName e) !> reject name (RSignalExporter sig e) ;;
        Ok e
    end in
  traces ← trace;
  audit ← signal "audit" (v1alpha1.ob_Audit o);
  content ← signal "content" (v1alpha1.ob_Content o);
  Ok {| o_Traces := traces; o_Audit := audit; o_Content := content |}.

Definition tokenQuotaFromV1Alpha1 (wr : v1alpha1.Rule) (q : v1alpha1.TokenQuotaRule)
    : result UnsupportedError TokenQuota :=
  let name := v1alpha1.Name wr in
  let p := v1alpha1.tq_Period q in
  ((v1alpha1.tq_LimitTokens q <=? 0)
   || (negb (bool_decide (p = v1alpha1.PeriodCalendarDay))
       && negb (bool_decide (p = v1alpha1.PeriodCalendarMonth))))%bool
    !> reject name RTokenQuota ;;
  negb (bool_decide (v1alpha1.FailurePolicy wr = v1alpha1.FailClosed))
    !> reject name RTokenQuotaFailClosed ;;
  Ok {| q_LimitTokens := v1alpha1.tq_LimitTokens q; q_Period := p |}.

Definition sensitiveDataFromV1Alpha1 (wr : v1alpha1.Rule) (sd : v1alpha1.SensitiveDataRule)
    : result UnsupportedError SensitiveData :=
  let name := v1alpha1.Name wr in
  let det := v1alpha1.sd_OnDetected sd in
  let uni := v1alpha1.sd_OnUninspectable sd in
  let models := v1alpha1.sd_InternalModels sd in
  negb (bool_decide (v1alpha1.FailurePolicy wr = v1alpha1.FailClosed))
    !> reject name RSensitiveFailClosed ;;
  (negb (bool_decide (det = v1alpha1.InternalOnly)) && negb (bool_decide (det = v1alpha1.Block))
   && negb (bool_decide (det = v1alpha1.Mask)))%bool !> reject name ROnDetected ;;
  (negb (bool_decide (uni = v1alpha1.InternalOnly)) && negb (bool_decide (uni = v1alpha1.Block)))%bool
    !> reject name ROnUninspectable ;;
  ((bool_decide (det = v1alpha1.InternalOnly) || bool_decide (uni = v1alpha1.InternalOnly))
   && bool_decide (models = []))%bool !> reject name RInternalModelsRequired ;;
  negb (forallb explicitModel models) !> reject name RInternalModels ;;
  Ok {| OnDetected := det; OnUninspectable := uni; InternalModels := models |}.

Definition lease_zero (l : v1alpha1.LeaseSpec) : bool :=
  ((v1alpha1.ls_GrantMilliUSD l =? 0) && bool_decide (v1alpha1.ls_RenewInterval l = ""))%bool.

Definition budgetFromV1Alpha1 (wr : v1alpha1.Rule) (wb : v1alpha1.BudgetRule)
    : result UnsupportedError Budget :=
  let name := v1alpha1.Name wr in
  let limit := v1alpha1.br_LimitMilliUSD wb in
  let lease := v1alpha1.br_Lease wb in
  let period := v1alpha1.br_Period wb in
  if v1alpha1.br_Unlimited wb then
    (negb (limit =? 0) || v1alpha1.br_HardCap wb || negb (lease_zero lease)
     || negb (bool_decide (v1alpha1.br_AdminContact wb = "")) || negb (bool_decide (period = "")))%bool
      !> reject name RUnlimitedCombined ;;
    Ok {| b_Unlimited := true; b_LimitMicroUSD := 0; b_HardCap := false; b_LeaseGrantMicroUSD := 0;
          b_LeaseRenewInterval := 0; b_AdminContact := "";
          b_Period := v1alpha1.PeriodCalendarMonth |}
  else
    ((limit <=? 0) || (maxWireMilliUSD <? limit))%bool !> reject name RLimitRange ;;
    (v1alpha1.br_HardCap wb
     && negb (bool_decide (v1alpha1.FailurePolicy wr = v1alpha1.FailClosed)))%bool
      !> reject name RHardCapFailClosed ;;
    period' ←
      (if (bool_decide (period = v1alpha1.PeriodCalendarDay)
           || bool_decide (period = v1alpha1.PeriodCalendarMonth))%bool then Ok period
       else if bool_decide (period = "") then Ok v1alpha1.PeriodCalendarMonth
       else Err (reject name (RPeriod period)));
    let grant := v1alpha1.ls_GrantMilliUSD lease in
    ((grant <? 0) || (maxWireMilliUSD <? grant))%bool !> reject name RGrantRange ;;
    let grant :=
      if grant =? 0 then
        let g := Z.quot (wrap64 (limit * DefaultLeaseGrantBP)) 10000 in
        if g <? 1 then 1 else g
      else grant in
    let ri := v1alpha1.ls_RenewInterval lease in
    iv ←
      (if bool_decide (ri = "") then Ok DefaultLeaseRenewInterval
       else match ParseDuration ri with
            | None => Err (reject name (RRenewNotDuration ri))
            | Some d => if d <? MinLeaseRenewInterval then Err (reject name RRenewFloor) else Ok d
            end);
    Ok {| b_Unlimited := false; b_LimitMicroUSD := wrap64 (limit * microPerMilli);
          b_HardCap := v1alpha1.br_HardCap wb;
          b_LeaseGrantMicroUSD := wrap64 (grant * microPerMilli);
          b_LeaseRenewInterval := iv; b_AdminContact := v1alpha1.br_AdminContact wb;
          b_Period := period' |}.

Definition contextFromV1Alpha1 (wr : v1alpha1.Rule) (c : v1alpha1.ContextRule)
    : result UnsupportedError Context_ :=
  let name := v1alpha1.Name wr in
  negb (bool_decide (v1alpha1.FailurePolicy wr = v1alpha1.FailOpen))
    !> reject name RContextFailOpen ;;
  let mode := if bool_decide (v1alpha1.cr_Mode c = "") then v1alpha1.Shadow else v1alpha1.cr_Mode c in
  (negb (bool_decide (mode = v1alpha1.Shadow)) && negb (bool_decide (mode = v1alpha1.Enforce)))%bool
    !> reject name RContextMode ;;
  (bool_decide (v1alpha1.cr_FromModels c = []) || negb (explicitModel (v1alpha1.cr_SimpleModel c))
   || negb (explicitModel (v1alpha1.cr_ComplexModel c)))%bool !> reject name RContextModels ;;
  negb (forallb explicitModel (v1alpha1.cr_FromModels c)) !> reject name RContextFromModels ;;
  let maxS := v1alpha1.cr_MaxSimpleInputTokens c in
  (maxS <=? 0) !> reject name RContextMaxSimple ;;
  let normal := v1alpha1.cr_NormalModel c in
  let maxN := v1alpha1.cr_MaxNormalInputTokens c in
  ((bool_decide (normal = "") && negb (maxN =? 0))
   || (negb (bool_decide (normal = "")) && (negb (explicitModel normal) || (maxN <=? maxS))))%bool
    !> reject name RContextNormal ;;
  stability ←
    match v1alpha1.cr_Stability c with
    | None => Ok None
    | Some st =>
        let duration (s : string) (d : Duration) (why : Reason) :=
          if bool_decide (s = "") then Ok d
          else match ParseDuration s with Some d => Ok d | None => Err (reject name why) end in
        hold ← duration (v1alpha1.cs_MinHold st) (5 * Minute) RMinHold;
        ttl ← duration (v1alpha1.cs_SessionTTL st) (30 * Minute) RSessionTTL;
        let reqs := if v1alpha1.cs_MinRequests st =? 0 then 3 else v1alpha1.cs_MinRequests st in
        ((hold <? 0) || (24 * Hour <? hold) || (ttl <=? 0) || (24 * Hour <? ttl) || (ttl <? hold)
         || (reqs <? 1) || (10000 <? reqs))%bool !> reject name RStability ;;
        Ok (Some {| MinHold := hold; MinRequests := reqs; SessionTTL := ttl |})
    end;
  existsb blank (v1alpha1.cr_ComplexKeywords c) !> reject name RKeywordBlank ;;
  Ok {| Mode := mode; FromModels := v1alpha1.cr_FromModels c;
        SimpleModel := v1alpha1.cr_SimpleModel c; ComplexModel := v1alpha1.cr_ComplexModel c;
        MaxSimpleInputTokens := maxS; ComplexKeywords := v1alpha1.cr_ComplexKeywords c;
        NormalModel := normal; MaxNormalInputTokens := maxN; Stability := stability |}.

(** The first loop over a substitution map: the first offending entry met. *)
Fixpoint substitute_loop (name : string) (entries : list (string * string))
    : result UnsupportedError unit :=
  match entries with
  | [] => Ok tt
  | (k, v) :: entries =>
      (bool_decide (k = "") || bool_decide (v = ""))%bool !> reject name RSubstituteBlank ;;
      bool_decide (k = v) !> reject name (RSubstituteSelf k) ;;
      substitute_loop name entries
  end.

(** The second: a key that is also a value. *)
Fixpoint chain_loop (name : string) (values : list string) (entries : list (string * string))
    : result UnsupportedError unit :=
  match entries with
  | [] => Ok tt
  | (k, _) :: entries =>
      contains k values !> reject name (RSubstituteChain k) ;;
      chain_loop name values entries
  end.

Fixpoint tiers_loop (name : string) (maxThreshold prev : Z) (tiers : list v1alpha1.BudgetTier)
    : result UnsupportedError (list BudgetTier) :=
  match tiers with
  | [] => Ok []
  | t :: tiers =>
      let th := v1alpha1.bt_ThresholdPercent t in
      let sub := v1alpha1.bt_Substitute t in
      ((th <? 1) || (maxThreshold <? th))%bool !> reject name (RThresholdRange maxThreshold th) ;;
      (th <=? prev) !> reject name RThresholdOrder ;;
      Nat.eqb (size sub) 0 !> reject name RSubstituteEmpty ;;
      _ ← substitute_loop name (range sub);
      _ ← chain_loop name (range sub).*2 (range sub);
      rest ← tiers_loop name maxThreshold th tiers;
      Ok ({| ThresholdPercent := th; Substitute := sub |} :: rest)
  end.

(** The first rule of the document with this name. *)
Definition find_rule (name : string) : option v1alpha1.Rule :=
  List.find (λ r, bool_decide (v1alpha1.Name r = name)) (v1alpha1.sp_Rules (v1alpha1.Spec doc)).

Definition budgetTiersFromV1Alpha1 (wr : v1alpha1.Rule) (bt : v1alpha1.BudgetTiersRule)
    : result UnsupportedError BudgetTiers :=
  let name := v1alpha1.Name wr in
  let subj := v1alpha1.sp_Subject (v1alpha1.Spec doc) in
  let strict := v1alpha1.btr_EnforceTargets bt in
  let bref := v1alpha1.btr_BudgetRef bt in
  (strict && (bool_decide (v1alpha1.sub_Team subj = "")
              || negb (bool_decide (v1alpha1.sub_User subj = ""))))%bool
    !> reject name RStrictSubject ;;
  bool_decide (bref = "") !> reject name RBudgetRefRequired ;;
  match find_rule bref ≫= v1alpha1.Budget with
  | None => Err (reject name (RBudgetRefMissing bref))
  | Some b =>
      v1alpha1.br_Unlimited b !> reject name (RBudgetRefUnlimited bref) ;;
      bool_decide (length (v1alpha1.btr_Tiers bt) = 0%nat) !> reject name RTiersEmpty ;;
      tiers ← tiers_loop name (if strict then 100 else 99) 0 (v1alpha1.btr_Tiers bt);
      Ok {| BudgetRef := bref; Tiers := tiers; EnforceTargets := strict |}
  end.

Definition routingFromV1Alpha1 (wr : v1alpha1.Rule) (wrt : v1alpha1.RoutingRule)
    : result UnsupportedError Routing :=
  let name := v1alpha1.Name wr in
  let pref := v1alpha1.ro_OnAffinityConflict wrt in
  match bool_decide (pref = ""), v1alpha1.ro_BudgetTiers wrt, v1alpha1.ro_Context wrt with
  | true, None, Some c =>
      c' ← contextFromV1Alpha1 wr c;
      Ok {| ro_Affinity := None; ro_BudgetTiers := None; ro_Context := Some c' |}
  | false, None, None =>
      (negb (bool_decide (pref = v1alpha1.PreferAffinity))
       && negb (bool_decide (pref = v1alpha1.PreferFallback)))%bool
        !> reject name (RAffinityUnknown pref) ;;
      Ok {| ro_Affinity := Some {| OnAffinityConflict := pref |}; ro_BudgetTiers := None;
            ro_Context := None |}
  | true, Some bt, None =>
      bt' ← budgetTiersFromV1Alpha1 wr bt;
      Ok {| ro_Affinity := None; ro_BudgetTiers := Some bt'; ro_Context := None |}
  | _, _, _ => Err (reject name ROneRouting)
  end.

Definition modelAccessFromV1Alpha1 (wr : v1alpha1.Rule) (ma : v1alpha1.ModelAccessRule)
    : result UnsupportedError ModelAccess :=
  let name := v1alpha1.Name wr in
  bool_decide (v1alpha1.ma_Allow ma = []) !> reject name RAllowEmpty ;;
  contains "" (v1alpha1.ma_Allow ma) !> reject name RAllowBlank ;;
  Ok {| Allow := v1alpha1.ma_Allow ma |}.

Definition rateFromV1Alpha1 (wr : v1alpha1.Rule) (r : v1alpha1.RateRule)
    : result UnsupportedError Rate :=
  let name := v1alpha1.Name wr in
  let rpm := v1alpha1.rr_RPM r in
  let tpm := v1alpha1.rr_TPM r in
  ((rpm <? 0) || (tpm <? 0))%bool !> reject name RRateNegative ;;
  if v1alpha1.rr_Unlimited r then
    (negb (rpm =? 0) || negb (tpm =? 0))%bool !> reject name RRateUnlimited ;;
    Ok {| rate_Unlimited := true; RPM := 0; TPM := 0 |}
  else
    ((rpm =? 0) && (tpm =? 0))%bool !> reject name RRateNone ;;
    Ok {| rate_Unlimited := false; RPM := rpm; TPM := tpm |}.

Definition count_set (l : list bool) : nat := length (filter (λ b, b = true) l).

Definition is_set {A} (o : option A) : bool := match o with Some _ => true | None => false end.

(** The kind fields of a wire rule that are set. *)
Definition kinds (wr : v1alpha1.Rule) : nat :=
  count_set [is_set (v1alpha1.Budget wr); is_set (v1alpha1.Routing wr);
             is_set (v1alpha1.ModelAccess wr); is_set (v1alpha1.Rate wr);
             is_set (v1alpha1.SensitiveData wr); is_set (v1alpha1.TokenQuota wr);
             is_set (v1alpha1.Observability wr)].

Definition blank_rule (wr : v1alpha1.Rule) : Rule :=
  mkRule (v1alpha1.Name wr) (v1alpha1.FailurePolicy wr) None None None None None None None.

(** The kind switch: the rule with the one field its wire form sets. *)
Definition convert_kind (wr : v1alpha1.Rule) : result UnsupportedError Rule :=
  let mk := mkRule (v1alpha1.Name wr) (v1alpha1.FailurePolicy wr) in
  match v1alpha1.Observability wr, v1alpha1.TokenQuota wr, v1alpha1.SensitiveData wr,
        v1alpha1.Budget wr, v1alpha1.Routing wr, v1alpha1.ModelAccess wr, v1alpha1.Rate wr with
  | Some o, _, _, _, _, _, _ =>
      x ← observabilityFromV1Alpha1 wr o; Ok (mk None None None None None None (Some x))
  | None, Some q, _, _, _, _, _ =>
      x ← tokenQuotaFromV1Alpha1 wr q; Ok (mk None None None None None (Some x) None)
  | None, None, Some sd, _, _, _, _ =>
      x ← sensitiveDataFromV1Alpha1 wr sd; Ok (mk None None None (Some x) None None None)
  | None, None, None, Some b, _, _, _ =>
      x ← budgetFromV1Alpha1 wr b; Ok (mk (Some x) None None None None None None)
  | None, None, None, None, Some rt, _, _ =>
      x ← routingFromV1Alpha1 wr rt; Ok (mk None (Some x) None None None None None)
  | None, None, None, None, None, Some ma, _ =>
      x ← modelAccessFromV1Alpha1 wr ma; Ok (mk None None (Some x) None None None None)
  | None, None, None, None, None, None, Some r =>
      x ← rateFromV1Alpha1 wr r; Ok (mk None None None None (Some x) None None)
  | None, None, None, None, None, None, None => Ok (blank_rule wr)
  end.

Definition convert_rule (seen : list string) (wr : v1alpha1.Rule) : result UnsupportedError Rule :=
  let name := v1alpha1.Name wr in
  let fp := v1alpha1.FailurePolicy wr in
  bool_decide (name = "") !> reject "" REmptyRuleName ;;
  contains name seen !> reject name RDuplicateRule ;;
  _ ← (if (bool_decide (fp = v1alpha1.FailOpen) || bool_decide (fp = v1alpha1.FailClosed))%bool
       then Ok tt
       else if bool_decide (fp = "") then Err (reject name RFailurePolicyRequired)
       else Err (reject name (RFailurePolicyUnknown fp)));
  negb (Nat.eqb (kinds wr) 1) !> reject name ROneKind ;;
  convert_kind wr.

Fixpoint rules_loop (seen : list string) (rules : list v1alpha1.Rule)
    : result UnsupportedError (list Rule) :=
  match rules with
  | [] => Ok []
  | wr :: rules =>
      r ← convert_rule seen wr;
      rest ← rules_loop (v1alpha1.Name wr :: seen) rules;
      Ok (r :: rest)
  end.

Definition FromV1Alpha1 : result UnsupportedError Policy :=
  let tm := v1alpha1.gp_TypeMeta doc in
  let subj := v1alpha1.sp_Subject (v1alpha1.Spec doc) in
  let rules := v1alpha1.sp_Rules (v1alpha1.Spec doc) in
  negb (Supports (v1alpha1.tm_APIVersion tm)) !> reject "" RApiVersion ;;
  negb (bool_decide (v1alpha1.tm_Kind tm = v1alpha1.KindGovernancePolicy))
    !> reject "" (RKind (v1alpha1.tm_Kind tm)) ;;
  (bool_decide (v1alpha1.sub_Team subj = "") && bool_decide (v1alpha1.sub_User subj = ""))%bool
    !> reject "" RSubject ;;
  Nat.eqb (length rules) 0 !> reject "" RNoRules ;;
  negb (Nat.leb (length rules) maxPolicyRules) !> reject "" RTooManyRules ;;
  rs ← rules_loop [] rules;
  Ok {| p_Name := v1alpha1.om_Name (v1alpha1.Metadata doc);
        p_Generation := v1alpha1.om_Generation (v1alpha1.Metadata doc);
        p_Subject := {| Team := v1alpha1.sub_Team subj; User := v1alpha1.sub_User subj |};
        p_Rules := rs |}.

End conversion.

(** ** Well-formed policies *)

Definition budget_wf (fp : string) (b : Budget) : Prop :=
  b_Period b ∈ [v1alpha1.PeriodCalendarDay; v1alpha1.PeriodCalendarMonth] ∧
  if b_Unlimited b then b_LimitMicroUSD b = 0 ∧ b_HardCap b = false
  else 0 < b_LimitMicroUSD b <= MaxInt64 ∧ 1000 <= b_LeaseGrantMicroUSD b <= MaxInt64
       ∧ Second <= b_LeaseRenewInterval b
       ∧ (b_HardCap b = true → fp = v1alpha1.FailClosed).

(** Thresholds strictly increasing from above [prev], up to [top]. *)
Fixpoint thresholds_from (prev top : Z) (tiers : list BudgetTier) : Prop :=
  match tiers with
  | [] => True
  | t :: tiers => prev < ThresholdPercent t <= top ∧ thresholds_from (ThresholdPercent t) top tiers
  end.

(** No empty name, and no key is a value: substitution does not chain. *)
Definition substitute_wf (sub : gmap string string) : Prop :=
  sub ≠ ∅ ∧ ∀ k v, sub !! k = Some v → k ≠ "" ∧ v ≠ "" ∧ sub !! v = None.

Definition tiers_wf (p : Policy) (bt : BudgetTiers) : Prop :=
  Tiers bt ≠ [] ∧
  thresholds_from 0 (if EnforceTargets bt then 100 else 99) (Tiers bt) ∧
  Forall (λ t, substitute_wf (Substitute t)) (Tiers bt) ∧
  (EnforceTargets bt = true → Team (p_Subject p) ≠ "" ∧ User (p_Subject p) = "") ∧
  ∃ r b, r ∈ p_Rules p ∧ r_Name r = BudgetRef bt ∧ r_Budget r = Some b ∧ b_Unlimited b = false.

Definition context_wf (fp : string) (c : Context_) : Prop :=
  fp = v1alpha1.FailOpen ∧ Mode c ∈ [v1alpha1.Shadow; v1alpha1.Enforce] ∧
  FromModels c ≠ [] ∧ Forall (λ m, explicitModel m = true) (FromModels c) ∧
  explicitModel (SimpleModel c) = true ∧ explicitModel (ComplexModel c) = true ∧
  0 < MaxSimpleInputTokens c ∧
  (if bool_decide (NormalModel c = "") then MaxNormalInputTokens c = 0
   else explicitModel (NormalModel c) = true ∧ MaxSimpleInputTokens c < MaxNormalInputTokens c) ∧
  from_option (λ st, 0 <= MinHold st <= SessionTTL st ∧ 0 < SessionTTL st <= 24 * Hour
                     ∧ 1 <= MinRequests st <= 10000) True (Stability c).

Definition sensitive_wf (fp : string) (sd : SensitiveData) : Prop :=
  fp = v1alpha1.FailClosed ∧
  OnDetected sd ∈ [v1alpha1.InternalOnly; v1alpha1.Block; v1alpha1.Mask] ∧
  OnUninspectable sd ∈ [v1alpha1.InternalOnly; v1alpha1.Block] ∧
  (OnDetected sd = v1alpha1.InternalOnly ∨ OnUninspectable sd = v1alpha1.InternalOnly →
   InternalModels sd ≠ []) ∧
  Forall (λ m, explicitModel m = true) (InternalModels sd).

Definition observability_wf (fp : string) (o : Observability) : Prop :=
  fp = v1alpha1.FailOpen ∧
  (is_set (o_Traces o) = true ∨ o_Audit o ≠ "" ∨ o_Content o ≠ "") ∧
  from_option (λ t, ValidExporterName (Exporter t) = true ∧ 1 <= SamplePercent t <= 100) True
    (o_Traces o) ∧
  (o_Audit o = "" ∨ ValidExporterName (o_Audit o) = true) ∧
  (o_Content o = "" ∨ ValidExporterName (o_Content o) = true).

(** What one rule of an accepted policy [p] satisfies. *)
Record rule_wf (p : Policy) (r : Rule) : Prop := {
  rw_name : r_Name r ≠ "";
  rw_fp : r_FailurePolicy r ∈ [v1alpha1.FailOpen; v1alpha1.FailClosed];
  rw_one : count_set [is_set (r_Budget r); is_set (r_Routing r); is_set (r_ModelAccess r);
                      is_set (r_SensitiveData r); is_set (r_Rate r); is_set (r_TokenQuota r);
                      is_set (r_Observability r)] = 1%nat;
  rw_budget b : r_Budget r = Some b → budget_wf (r_FailurePolicy r) b;
  rw_routing rt : r_Routing r = Some rt →
    count_set [is_set (ro_Affinity rt); is_set (ro_BudgetTiers rt); is_set (ro_Context rt)] = 1%nat;
  rw_tiers rt bt : r_Routing r = Some rt → ro_BudgetTiers rt = Some bt → tiers_wf p bt;
  rw_context rt c : r_Routing r = Some rt → ro_Context rt = Some c →
    context_wf (r_FailurePolicy r) c;
  rw_access ma : r_ModelAccess r = Some ma → Allow ma ≠ [] ∧ "" ∉ Allow ma;
  rw_sensitive sd : r_SensitiveData r = Some sd → sensitive_wf (r_FailurePolicy r) sd;
  rw_rate rt : r_Rate r = Some rt → 0 <= RPM rt ∧ 0 <= TPM rt ∧
    (rate_Unlimited rt = true ↔ RPM rt = 0 ∧ TPM rt = 0);
  rw_quota q : r_TokenQuota r = Some q → 0 < q_LimitTokens q ∧ r_FailurePolicy r = v1alpha1.FailClosed;
  rw_obs o : r_Observability r = Some o → observability_wf (r_FailurePolicy r) o
}.

Record policy_wf (p : Policy) : Prop := {
  pw_subject : Team (p_Subject p) ≠ "" ∨ User (p_Subject p) ≠ "";
  pw_count : (1 ≤ length (p_Rules p) ≤ maxPolicyRules)%nat;
  pw_names : NoDup (r_Name <$> p_Rules p);
  pw_rules r : r ∈ p_Rules p → rule_wf p r
}.

(** ** Conversion yields well-formed policies *)

Section soundness.
Context (range : gmap string string → list (string * string)).
Context (range_perm : ∀ m, range m ≡ₚ map_to_list m).
Context (doc : v1alpha1.GovernancePolicy).

Lemma observability_sound wr o x :
  observabilityFromV1Alpha1 doc wr o = Ok x → observability_wf (v1alpha1.FailurePolicy wr) x.
Proof.
  unfold observabilityFromV1Alpha1. intros H. inv_ok. bsplit. cbv zeta in *.
  assert (∀ sig i e, match i with
          | None => Ok ""
          | Some x =>
              negb (ValidExporterName (v1alpha1.se_Exporter x)) !>
                rejection doc (v1alpha1.Name wr) (RSignalExporter sig (v1alpha1.se_Exporter x)) ;;
              Ok (v1alpha1.se_Exporter x)
          end = Ok e →
      (i = None ∧ e = "") ∨ (i ≠ None ∧ ValidExporterName e = true)) as Hsig.
  { intros sig [y|] e H; inv_ok; bsplit; [by right|by left]. }
  rename E1 into E2, E0 into E1. apply Hsig in E1, E2. unfold observability_wf. simpl. split; [done|].
  assert (∀ e, ValidExporterName e = true → e ≠ "") as Hne by (by intros ? ? ->).
  split; [|split; [|split; naive_solver]].
  - destruct (v1alpha1.ob_Traces o) as [t|] eqn:Et.
    { inv_ok. by left. }
    injection E as <-. right.
    destruct E1 as [[E1 ->]|[E1 V1]]; [|left; by apply Hne].
    destruct E2 as [[E2 ->]|[E2 V2]]; [|right; by apply Hne].
    rewrite E1, E2 in *. done.
  - destruct (v1alpha1.ob_Traces o) as [t|] eqn:Et; [|by injection E as <-].
    inv_ok. bsplit. simpl. split; [done|lia].
Qed.

Lemma sensitive_sound wr sd x :
  sensitiveDataFromV1Alpha1 doc wr sd = Ok x → sensitive_wf (v1alpha1.FailurePolicy wr) x.
Proof.
  unfold sensitiveDataFromV1Alpha1. intros H. inv_ok. bsplit.
  unfold sensitive_wf. simpl. split; [done|].
  rewrite !elem_of_cons, !elem_of_nil.
  split_and!.
  - bcases; auto.
  - bcases; auto.
  - intros Ho Hm. bcases; tauto.
  - by apply forallb_Forall.
Qed.

Lemma budget_sound wr wb x :
  budgetFromV1Alpha1 doc wr wb = Ok x → budget_wf (v1alpha1.FailurePolicy wr) x.
Proof.
  unfold budgetFromV1Alpha1. destruct (v1alpha1.br_Unlimited wb); intros H; inv_ok; bsplit.
  { split; [by right; left|]. done. }
  rename E into Hp, E0 into Hiv. unfold budget_wf. simpl.
  assert (v1alpha1.br_HardCap wb = true → v1alpha1.FailurePolicy wr = v1alpha1.FailClosed) as Hh.
  { intros Hh. rewrite Hh in *. bcases; [done|congruence]. }
  assert (maxWireMilliUSD = 9223372036854775) as Hmax by done.
  unfold microPerMilli, DefaultLeaseGrantBP.
  set (g := if v1alpha1.ls_GrantMilliUSD (v1alpha1.br_Lease wb) =? 0 then _ else _).
  assert (1 <= g <= maxWireMilliUSD) as Hg.
  { subst g. destruct (_ =? 0) eqn:Eg; bsplit; [|lia].
    rewrite wrap64_id by int_lia. destruct (_ <? 1) eqn:Eq; bsplit; [lia|].
    pose proof (Z.quot_le_upper_bound (v1alpha1.br_LimitMilliUSD wb * 10) 10000 maxWireMilliUSD). lia. }
  split; [|split_and!; try done].
  - destruct (_ || _)%bool eqn:E in Hp.
    + injection Hp as <-. rewrite !elem_of_cons. bcases; auto.
    + case_hyp Hp; [|done]. injection Hp as <-. rewrite !elem_of_cons. auto.
  - rewrite wrap64_id by int_lia. lia.
  - rewrite wrap64_id by int_lia. int_lia.
  - rewrite wrap64_id by int_lia. lia.
  - rewrite wrap64_id by int_lia. int_lia.
  - case_hyp Hiv; [injection Hiv as <-; done|].
    destruct (ParseDuration _) as [d|]; [|done]. destruct (d <? _) eqn:Ed; [done|].
    injection Hiv as <-. bsplit. done.
Qed.

Lemma quota_sound wr q x :
  tokenQuotaFromV1Alpha1 doc wr q = Ok x →
  0 < q_LimitTokens x ∧ v1alpha1.FailurePolicy wr = v1alpha1.FailClosed.
Proof. unfold tokenQuotaFromV1Alpha1. intros H. inv_ok. bsplit. simpl. split; [lia|done]. Qed.

Lemma access_sound wr ma x :
  modelAccessFromV1Alpha1 doc wr ma = Ok x → Allow x ≠ [] ∧ "" ∉ Allow x.
Proof.
  unfold modelAccessFromV1Alpha1. intros H. inv_ok. bsplit. simpl. split; [done|].
  by apply contains_false.
Qed.

Lemma rate_sound wr r x :
  rateFromV1Alpha1 doc wr r = Ok x →
  0 <= RPM x ∧ 0 <= TPM x ∧ (rate_Unlimited x = true ↔ RPM x = 0 ∧ TPM x = 0).
Proof.
  unfold rateFromV1Alpha1. intros H. inv_ok. bsplit.
  destruct (v1alpha1.rr_Unlimited r); inv_ok; bsplit; simpl; [split; [lia|]; split; [lia|]; tauto|].
  split; [lia|]. split; [lia|]. bcases; split; intros; done || lia.
Qed.

Lemma context_sound wr c x :
  contextFromV1Alpha1 doc wr c = Ok x → context_wf (v1alpha1.FailurePolicy wr) x.
Proof.
  unfold contextFromV1Alpha1. intros H. inv_ok. bsplit. rename E into Hst.
  unfold context_wf. simpl. split; [done|].
  split_and!; try done; [..|by apply forallb_Forall| |].
  - rewrite !elem_of_cons. bcases; auto.
  - case_bool_decide; bcases; done || lia || naive_solver lia.
  - destruct (v1alpha1.cr_Stability c) as [st|]; [|by injection Hst as <-].
    cbv zeta in Hst. inv_ok. bsplit. simpl. lia.
Qed.

Lemma substitute_loop_Ok name l :
  substitute_loop doc name l = Ok tt ↔ Forall (λ kv, kv.1 ≠ "" ∧ kv.2 ≠ "" ∧ kv.1 ≠ kv.2) l.
Proof.
  induction l as [|[k v] l IH]; cbn [substitute_loop]; [by split|].
  rewrite Forall_cons, <- IH. simpl. split.
  - intros H. inv_ok. bsplit. done.
  - intros [(Hk & Hv & Hkv) Hl]. rewrite !bool_decide_false by done. simpl. done.
Qed.

Lemma chain_loop_Ok name vs l :
  chain_loop doc name vs l = Ok tt ↔ Forall (λ kv, kv.1 ∉ vs) l.
Proof.
  induction l as [|[k v] l IH]; cbn [chain_loop]; [by split|].
  rewrite Forall_cons, <- IH. simpl. split.
  - intros H. inv_ok. by rewrite <- contains_false.
  - intros [Hk Hl]. apply contains_false in Hk. by rewrite Hk.
Qed.

Lemma elem_of_range m k v : (k, v) ∈ range m ↔ m !! k = Some v.
Proof. rewrite (range_perm m). apply elem_of_map_to_list. Qed.

(** What the two loops accept, whatever order they met the entries in. *)
Lemma substitute_checks_Ok name sub :
  substitute_loop doc name (range sub) = Ok tt ∧ chain_loop doc name (range sub).*2 (range sub) = Ok tt
  ↔ ∀ k v, sub !! k = Some v → k ≠ "" ∧ v ≠ "" ∧ sub !! v = None.
Proof.
  rewrite substitute_loop_Ok, chain_loop_Ok, !Forall_forall. split.
  - intros [H1 H2] k v Hkv. apply elem_of_range in Hkv as Hr.
    destruct (H1 _ Hr) as (? & ? & ?). simpl in *. split; [done|]. split; [done|].
    apply eq_None_not_Some. intros [w Hw]. apply elem_of_range in Hw.
    apply (H2 _ Hw). simpl. by apply (list_elem_of_fmap_2' _ _ (k, v)).
  - intros H. split; intros [k v] Hkv; simpl; apply elem_of_range in Hkv.
    + destruct (H _ _ Hkv) as (? & ? & Hn). split; [done|]. split; [done|]. intros ->. congruence.
    + rewrite list_elem_of_fmap. intros ([k' v'] & -> & Hr). simpl in *.
      apply elem_of_range, H in Hr as (_ & _ & Hn). congruence.
Qed.

Lemma tiers_sound name top prev ts x :
  tiers_loop range doc name top prev ts = Ok x →
  thresholds_from prev top x ∧ Forall (λ t, substitute_wf (Substitute t)) x ∧ length x = length ts.
Proof.
  revert prev x. induction ts as [|t ts IH]; intros prev x; cbn [tiers_loop].
  { intros [= <-]. done. }
  intros H. inv_ok. bsplit. destruct a, a0. apply IH in E1 as (Ht & Hs & Hl).
  simpl. split; [split; [lia|done]|]. split; [|lia].
  apply Forall_cons. split; [|done]. split; simpl.
  - intros He. rewrite He, map_size_empty in *. done.
  - by apply (substitute_checks_Ok name).
Qed.

(** Each kind's field of a converted rule is the conversion of the wire field. *)
Definition converted {A B} (f : A → result UnsupportedError B) (a : option A) (b : option B) : Prop :=
  match a, b with Some a, Some b => f a = Ok b | None, None => True | _, _ => False end.

Record kind_conv (wr : v1alpha1.Rule) (r : Rule) : Prop := {
  kc_name : r_Name r = v1alpha1.Name wr;
  kc_fp : r_FailurePolicy r = v1alpha1.FailurePolicy wr;
  kc_budget : converted (budgetFromV1Alpha1 doc wr) (v1alpha1.Budget wr) (r_Budget r);
  kc_routing : converted (routingFromV1Alpha1 range doc wr) (v1alpha1.Routing wr) (r_Routing r);
  kc_access : converted (modelAccessFromV1Alpha1 doc wr) (v1alpha1.ModelAccess wr) (r_ModelAccess r);
  kc_sensitive : converted (sensitiveDataFromV1Alpha1 doc wr) (v1alpha1.SensitiveData wr) (r_SensitiveData r);
  kc_rate : converted (rateFromV1Alpha1 doc wr) (v1alpha1.Rate wr) (r_Rate r);
  kc_quota : converted (tokenQuotaFromV1Alpha1 doc wr) (v1alpha1.TokenQuota wr) (r_TokenQuota r);
  kc_obs : converted (observabilityFromV1Alpha1 doc wr) (v1alpha1.Observability wr) (r_Observability r)
}.

Lemma convert_kind_spec wr r :
  kinds wr = 1%nat → convert_kind range doc wr = Ok r → kind_conv wr r.
Proof.
  destruct wr as [nm fp b rt ma ra sd tq ob]. unfold kinds, convert_kind. simpl.
  destruct b, rt, ma, ra, sd, tq, ob; try discriminate; intros _ H; inv_ok; by split.
Qed.

Lemma convert_rule_spec seen wr r :
  convert_rule range doc seen wr = Ok r →
  v1alpha1.Name wr ≠ "" ∧ (v1alpha1.Name wr ∉ seen)
  ∧ v1alpha1.FailurePolicy wr ∈ [v1alpha1.FailOpen; v1alpha1.FailClosed]
  ∧ kinds wr = 1%nat ∧ kind_conv wr r.
Proof.
  unfold convert_rule. intros H. inv_ok. bsplit. apply Nat.eqb_eq in H2.
  rewrite <- contains_false. split; [done|]. split; [done|]. split; [|split; [done|by apply convert_kind_spec]].
  rewrite !elem_of_cons. destruct (_ || _)%bool eqn:Eb in E; [bcases; auto|].
  by case_hyp E.
Qed.

Lemma rules_loop_spec seen ws rs :
  rules_loop range doc seen ws = Ok rs →
  Forall2 kind_conv ws rs ∧ NoDup (r_Name <$> rs) ∧ Forall (λ r, r_Name r ∉ seen) rs
  ∧ Forall (λ wr, v1alpha1.Name wr ≠ "" ∧ kinds wr = 1%nat
                  ∧ v1alpha1.FailurePolicy wr ∈ [v1alpha1.FailOpen; v1alpha1.FailClosed]) ws.
Proof.
  revert seen rs. induction ws as [|w ws IH]; intros seen rs; cbn [rules_loop].
  { intros [= <-]. repeat split; constructor. }
  intros H. inv_ok. apply convert_rule_spec in E as (Hn & Hs & Hf & Hk & Hc).
  apply IH in E0 as (Hfs & Hnd & Hseen & Hall). pose proof (kc_name _ _ Hc) as Hnm.
  split; [by constructor|]. split; [|split].
  - rewrite fmap_cons. apply NoDup_cons. split; [|done].
    rewrite list_elem_of_fmap. intros (r & He & Hr). rewrite Forall_forall in Hseen.
    apply (Hseen r Hr). rewrite <- He, Hnm. by left.
  - apply Forall_cons. split; [by rewrite Hnm|].
    eapply Forall_impl; [exact Hseen|]. simpl. intros r Hr ?. apply Hr. by right.
  - by constructor.
Qed.

(** Amounts convert exactly: no rounding, no overflow. *)
Lemma budget_amounts wr wb x :
  budgetFromV1Alpha1 doc wr wb = Ok x →
  b_Unlimited x = v1alpha1.br_Unlimited wb ∧
  (b_Unlimited x = false → b_LimitMicroUSD x = 1000 * v1alpha1.br_LimitMilliUSD wb
                           ∧ b_HardCap x = v1alpha1.br_HardCap wb).
Proof.
  unfold budgetFromV1Alpha1. destruct (v1alpha1.br_Unlimited wb); intros H; inv_ok; bsplit; simpl; [done|].
  assert (maxWireMilliUSD = 9223372036854775) as Hmax by done.
  split; [done|]. intros _. split; [|done]. unfold microPerMilli. rewrite wrap64_id by int_lia. lia.
Qed.

Lemma budgetTiers_sound wr bt x rs p :
  budgetTiersFromV1Alpha1 range doc wr bt = Ok x →
  Forall2 kind_conv (v1alpha1.sp_Rules (v1alpha1.Spec doc)) rs →
  p_Subject p = {| Team := v1alpha1.sub_Team (v1alpha1.sp_Subject (v1alpha1.Spec doc));
                   User := v1alpha1.sub_User (v1alpha1.sp_Subject (v1alpha1.Spec doc)) |} →
  p_Rules p = rs → tiers_wf p x.
Proof.
  unfold budgetTiersFromV1Alpha1. intros H Hfs Hsub <-.
  destruct (find_rule doc (v1alpha1.btr_BudgetRef bt) ≫= v1alpha1.Budget) as [b|] eqn:Eb; [|by inv_ok].
  inv_ok. bsplit. apply tiers_sound in E as (Ht & Hs & Hl).
  unfold tiers_wf. simpl. split_and!; try done.
  - intros ->. simpl in Hl. done.
  - intros Hst. rewrite Hst in *. rewrite Hsub. simpl. bcases; done.
  - apply bind_Some in Eb as (wr' & Hf & Hb). unfold find_rule in Hf.
    apply List.find_some in Hf as [Hin Hn]. bsplit.
    apply list_elem_of_In, list_elem_of_lookup in Hin as [i Hi].
    destruct (Forall2_lookup_l _ _ _ _ _ Hfs Hi) as (r & Hr & Hc).
    pose proof (kc_budget _ _ Hc) as Hcb. rewrite Hb in Hcb.
    destruct (r_Budget r) as [b'|] eqn:Er; [|done]. simpl in Hcb. apply budget_amounts in Hcb as [Hu _].
    exists r, b'. split; [by eapply list_elem_of_lookup_2|].
    split; [by rewrite (kc_name _ _ Hc)|]. split; [done|congruence].
Qed.

Lemma count_set_perm l k : l ≡ₚ k → count_set l = count_set k.
Proof. intros H. unfold count_set. by rewrite H. Qed.

Lemma converted_set {A B} (f : A → result UnsupportedError B) a b :
  converted f a b → is_set a = is_set b.
Proof. by destruct a, b. Qed.

Lemma converted_Some {A B} (f : A → result UnsupportedError B) a y :
  converted f a (Some y) → ∃ x, a = Some x ∧ f x = Ok y.
Proof. destruct a as [x|]; [|done]. intros H. by exists x. Qed.

Lemma rule_sound wr r p :
  kind_conv wr r → v1alpha1.Name wr ≠ "" → kinds wr = 1%nat →
  v1alpha1.FailurePolicy wr ∈ [v1alpha1.FailOpen; v1alpha1.FailClosed] →
  Forall2 kind_conv (v1alpha1.sp_Rules (v1alpha1.Spec doc)) (p_Rules p) →
  p_Subject p = {| Team := v1alpha1.sub_Team (v1alpha1.sp_Subject (v1alpha1.Spec doc));
                   User := v1alpha1.sub_User (v1alpha1.sp_Subject (v1alpha1.Spec doc)) |} →
  rule_wf p r.
Proof.
  intros [Hn Hfp Hb Hrt Hma Hsd Hra Htq Hob] Hne Hk Hf Hall Hsub.
  assert (∀ rt wrt, routingFromV1Alpha1 range doc wr wrt = Ok rt →
    count_set [is_set (ro_Affinity rt); is_set (ro_BudgetTiers rt); is_set (ro_Context rt)] = 1%nat
    ∧ from_option (tiers_wf p) True (ro_BudgetTiers rt)
    ∧ from_option (context_wf (v1alpha1.FailurePolicy wr)) True (ro_Context rt)) as Hrouting.
  { intros rt wrt H. unfold routingFromV1Alpha1 in H.
    repeat case_hyp H; inv_ok; simpl; split_and!; try done.
    - by eapply budgetTiers_sound.
    - by eapply context_sound. }
  split.
  - by rewrite Hn.
  - by rewrite Hfp.
  - rewrite <- Hk. unfold kinds.
    rewrite (converted_set _ _ _ Hb), (converted_set _ _ _ Hrt), (converted_set _ _ _ Hma),
      (converted_set _ _ _ Hsd), (converted_set _ _ _ Hra), (converted_set _ _ _ Htq),
      (converted_set _ _ _ Hob). apply count_set_perm. solve_Permutation.
  - intros b Eb. rewrite Eb in Hb. apply converted_Some in Hb as (x & _ & Hx).
    rewrite Hfp. by eapply budget_sound.
  - intros rt E. rewrite E in Hrt. apply converted_Some in Hrt as (x & _ & Hx).
    by apply Hrouting in Hx as (? & _).
  - intros rt bt E E'. rewrite E in Hrt. apply converted_Some in Hrt as (x & _ & Hx).
    apply Hrouting in Hx as (_ & Ht & _). by rewrite E' in Ht.
  - intros rt c E E'. rewrite E in Hrt. apply converted_Some in Hrt as (x & _ & Hx).
    apply Hrouting in Hx as (_ & _ & Ht). rewrite E' in Ht. by rewrite Hfp.
  - intros ma E. rewrite E in Hma. apply converted_Some in Hma as (x & _ & Hx). by eapply access_sound.
  - intros sd E. rewrite E in Hsd. apply converted_Some in Hsd as (x & _ & Hx).
    rewrite Hfp. by eapply sensitive_sound.
  - intros rt E. rewrite E in Hra. apply converted_Some in Hra as (x & _ & Hx). by eapply rate_sound.
  - intros q E. rewrite E in Htq. apply converted_Some in Htq as (x & _ & Hx).
    rewrite Hfp. by eapply quota_sound.
  - intros o E. rewrite E in Hob. apply converted_Some in Hob as (x & _ & Hx).
    rewrite Hfp. by eapply observability_sound.
Qed.

Lemma FromV1Alpha1_rules p :
  FromV1Alpha1 range doc = Ok p → Forall2 kind_conv (v1alpha1.sp_Rules (v1alpha1.Spec doc)) (p_Rules p).
Proof. unfold FromV1Alpha1. intros H. inv_ok. simpl. by apply rules_loop_spec in E as (? & _). Qed.

Lemma FromV1Alpha1_wf p : FromV1Alpha1 range doc = Ok p → policy_wf p.
Proof.
  intros H. pose proof (FromV1Alpha1_rules _ H) as Hfs.
  unfold FromV1Alpha1 in H. inv_ok. bsplit.
  apply rules_loop_spec in E as (_ & Hnd & _ & Hall). simpl in Hfs.
  pose proof (Forall2_length _ _ _ Hfs) as Hlen. split; simpl; [| |done|].
  - bcases; auto.
  - apply Nat.eqb_neq in H3. apply Nat.leb_le in H4. unfold maxPolicyRules in *. lia.
  - intros r Hr. apply list_elem_of_lookup in Hr as [i Hi].
    destruct (Forall2_lookup_r _ _ _ _ _ Hfs Hi) as (wr & Hw & Hc).
    rewrite Forall_lookup in Hall. destruct (Hall _ _ Hw) as (? & ? & ?).
    by eapply rule_sound.
Qed.

(** C40: A document that converts is well formed in every respect the consumers
    rely on (names distinct and present, exactly one kind per rule, hard caps fail
    closed, thresholds strictly increasing, substitutions that do not chain,
    stability bounds, budget references that resolve), and money converts exactly:
    every limited budget's micro-USD limit is 1000 times the wire's. *)
Theorem FromV1Alpha1_sound p :
  FromV1Alpha1 range doc = Ok p →
  policy_wf p ∧
  Forall2 (λ wr r, r_Name r = v1alpha1.Name wr ∧
             ∀ wb, v1alpha1.Budget wr = Some wb → v1alpha1.br_Unlimited wb = false →
             ∃ b, r_Budget r = Some b ∧ b_LimitMicroUSD b = 1000 * v1alpha1.br_LimitMilliUSD wb)
    (v1alpha1.sp_Rules (v1alpha1.Spec doc)) (p_Rules p).
Proof.
  intros H. split; [by apply FromV1Alpha1_wf|].
  eapply Forall2_impl; [by apply FromV1Alpha1_rules|]. intros wr r Hc.
  split; [apply (kc_name _ _ Hc)|].
  intros wb Hwb Hu. pose proof (kc_budget _ _ Hc) as Hb. rewrite Hwb in Hb.
  destruct (r_Budget r) as [b|]; [|done]. apply budget_amounts in Hb as [Hb1 Hb2].
  exists b. split; [done|]. apply Hb2. congruence.
Qed.
End soundness.

(** ** Map iteration order is irrelevant *)

Section order.
Context (r1 r2 : gmap string string → list (string * string)).
Context (H1 : ∀ m, r1 m ≡ₚ map_to_list m) (H2 : ∀ m, r2 m ≡ₚ map_to_list m).
Context (doc : v1alpha1.GovernancePolicy).

Lemma tiers_order name top prev ts x :
  tiers_loop r1 doc name top prev ts = Ok x → tiers_loop r2 doc name top prev ts = Ok x.
Proof.
  revert prev x. induction ts as [|t ts IH]; intros prev x; cbn [tiers_loop]; [done|].
  intros H. do 3 (apply guard_Ok in H as [-> H]; simpl).
  apply bind_Ok in H as ([] & Es & H). apply bind_Ok in H as ([] & Ec & H).
  apply bind_Ok in H as (rest & Er & H).
  pose proof (proj1 (substitute_checks_Ok r1 H1 doc name _) (conj Es Ec)) as Hc.
  apply (substitute_checks_Ok r2 H2 doc name) in Hc as [-> ->]. simpl.
  by rewrite (IH _ _ Er).
Qed.

Lemma budgetTiers_order wr bt x :
  budgetTiersFromV1Alpha1 r1 doc wr bt = Ok x → budgetTiersFromV1Alpha1 r2 doc wr bt = Ok x.
Proof.
  unfold budgetTiersFromV1Alpha1. intros H. apply guard_Ok in H as [-> H]. simpl.
  apply guard_Ok in H as [-> H]. simpl.
  destruct (find_rule doc _ ≫= v1alpha1.Budget) as [b|]; [|done].
  apply guard_Ok in H as [-> H]. simpl. apply guard_Ok in H as [-> H]. simpl.
  apply bind_Ok in H as (ts & Ht & H). by rewrite (tiers_order _ _ _ _ _ Ht).
Qed.

Lemma routing_order wr rt x :
  routingFromV1Alpha1 r1 doc wr rt = Ok x → routingFromV1Alpha1 r2 doc wr rt = Ok x.
Proof.
  unfold routingFromV1Alpha1.
  destruct (bool_decide _), (v1alpha1.ro_BudgetTiers rt) as [bt|], (v1alpha1.ro_Context rt); try done.
  intros H. apply bind_Ok in H as (y & Hy & H). by rewrite (budgetTiers_order _ _ _ Hy).
Qed.

Lemma convert_order seen wr x :
  convert_rule r1 doc seen wr = Ok x → convert_rule r2 doc seen wr = Ok x.
Proof.
  unfold convert_rule. intros H.
  apply guard_Ok in H as [-> H]. simpl. apply guard_Ok in H as [-> H]. simpl.
  apply bind_Ok in H as (y & Hy & H). rewrite Hy. simpl. apply guard_Ok in H as [-> H]. simpl.
  revert H. unfold convert_kind.
  destruct (v1alpha1.Observability wr), (v1alpha1.TokenQuota wr), (v1alpha1.SensitiveData wr),
    (v1alpha1.Budget wr), (v1alpha1.Routing wr) as [rt|]; try done.
  intros H. apply bind_Ok in H as (z & Hz & H). by rewrite (routing_order _ _ _ Hz).
Qed.

Lemma rules_order seen ws x : rules_loop r1 doc seen ws = Ok x → rules_loop r2 doc seen ws = Ok x.
Proof.
  revert seen x. induction ws as [|w ws IH]; intros seen x; cbn [rules_loop]; [done|].
  intros H. apply bind_Ok in H as (y & Hy & H). rewrite (convert_order _ _ _ Hy). simpl.
  apply bind_Ok in H as (z & Hz & H). by rewrite (IH _ _ Hz).
Qed.

Lemma FromV1Alpha1_order_le p : FromV1Alpha1 r1 doc = Ok p → FromV1Alpha1 r2 doc = Ok p.
Proof.
  unfold FromV1Alpha1. intros H.
  do 5 (apply guard_Ok in H as [-> H]; simpl).
  apply bind_Ok in H as (rs & Hr & H). by rewrite (rules_order _ _ _ Hr).
Qed.
End order.

(** Whether a document is accepted, and as what policy, does not depend on the
    order Go ranges over its substitution maps in (only which of several
    rejections is reported may). *)
Theorem FromV1Alpha1_order_irrelevant r1 r2 doc p :
  (∀ m, r1 m ≡ₚ map_to_list m) → (∀ m, r2 m ≡ₚ map_to_list m) →
  FromV1Alpha1 r1 doc = Ok p ↔ FromV1Alpha1 r2 doc = Ok p.
Proof. intros H1 H2. split; by apply FromV1Alpha1_order_le. Qed.

(** ** Routing-only budgets *)

(** The first rule of the policy with this name. *)
Definition rule_named (p : Policy) (name : string) : option Rule :=
  List.find (λ r, bool_decide (r_Name r = name)) (p_Rules p).

Definition strict_ref (ruleName : string) (r : Rule) : bool :=
  match r_Routing r ≫= ro_BudgetTiers with
  | Some t => (EnforceTargets t && bool_decide (BudgetRef t = ruleName))%bool
  | None => false
  end.

Definition IsRoutingOnlyBudget (p : option Policy) (ruleName : string) : bool :=
  match p with
  | None => false
  | Some p =>
      if (bool_decide (ruleName = "") || bool_decide (Team (p_Subject p) = "")
          || negb (bool_decide (User (p_Subject p) = "")))%bool then false
      else
        match rule_named p ruleName ≫= r_Budget with
        | None => false
        | Some b =>
            if (b_HardCap b || b_Unlimited b || (b_LimitMicroUSD b <=? 0))%bool then false
            else existsb (strict_ref ruleName) (p_Rules p)
        end
  end.

(** ** Observability decisions *)

Record ObservabilityDecision := {
  d_Traces : list TraceExport;
  d_Audit : list string;
  d_Content : string;
  d_ContentConflict : bool
}.

(** [Subject.matches]: a set selector must match, an empty one does not
    constrain. *)
Definition matches (sub : Subject) (team user : string) : bool :=
  if (negb (bool_decide (Team sub = "")) && negb (bool_decide (Team sub = team)))%bool then false
  else if (negb (bool_decide (User sub = ""))
           && (bool_decide (user = "") || negb (bool_decide (User sub = user))))%bool then false
  else true.

Record obs_acc := {
  traces : gmap string Z; audit : gset string; content : string; conflict : bool
}.

Definition obs_rule (a : obs_acc) (r : Rule) : obs_acc :=
  match r_Observability r with
  | None => a
  | Some o =>
      let tr :=
        match o_Traces o with
        | Some t => if default 0 (traces a !! Exporter t) <? SamplePercent t
                    then <[Exporter t := SamplePercent t]> (traces a) else traces a
        | None => traces a
        end in
      let au := if bool_decide (o_Audit o = "") then audit a else {[o_Audit o]} ∪ audit a in
      if bool_decide (o_Content o = "") then
        {| traces := tr; audit := au; content := content a; conflict := conflict a |}
      else
        {| traces := tr; audit := au; content := o_Content o;
           conflict := (conflict a || (negb (bool_decide (content a = ""))
                                       && negb (bool_decide (content a = o_Content o))))%bool |}
  end.

Definition obs_policy (team user : string) (a : obs_acc) (p : Policy) : obs_acc :=
  if matches (p_Subject p) team user then foldl obs_rule a (p_Rules p) else a.

Definition str_le (s t : string) : Prop := String.leb s t = true.
#[export] Instance str_le_dec s t : Decision (str_le s t).
Proof. unfold str_le. apply _. Defined.

Definition MergeObservability (policies : list Policy) (team user : string) : ObservabilityDecision :=
  let a := foldl (obs_policy team user)
             {| traces := ∅; audit := ∅; content := ""; conflict := false |} policies in
  {| d_Traces := (λ kv, {| Exporter := kv.1; SamplePercent := kv.2 |}) <$>
                 merge_sort (λ x y, str_le x.1 y.1) (map_to_list (traces a));
     d_Audit := merge_sort str_le (elements (audit a));
     d_Content := if conflict a then "" else content a;
     d_ContentConflict := conflict a |}.

Definition hasObservability (policies : list Policy) : bool :=
  existsb (λ p, existsb (λ r, is_set (r_Observability r)) (p_Rules p)) policies.

(** The observability rules that apply to a subject, in order. *)
Definition obs_matching (policies : list Policy) (team user : string) : list Observability :=
  omap r_Observability
    (mjoin (p_Rules <$> filter (λ p, matches (p_Subject p) team user = true) policies)).

(** The accumulator after the selections [l]. *)
Record obs_spec (l : list Observability) (a : obs_acc) : Prop := {
  os_traces e pct : traces a !! e = Some pct →
    0 < pct ∧ ∃ o t, o ∈ l ∧ o_Traces o = Some t ∧ Exporter t = e ∧ SamplePercent t = pct;
  os_max o t : o ∈ l → o_Traces o = Some t → SamplePercent t <= default 0 (traces a !! Exporter t);
  os_audit e : e ∈ audit a ↔ e ≠ "" ∧ ∃ o, o ∈ l ∧ o_Audit o = e;
  os_content : content a ≠ "" → ∃ o, o ∈ l ∧ o_Content o = content a;
  os_same o : conflict a = false → o ∈ l → o_Content o = "" ∨ o_Content o = content a;
  os_conflict : conflict a = true →
    ∃ o o', o ∈ l ∧ o' ∈ l ∧ o_Content o ≠ "" ∧ o_Content o' ≠ "" ∧ o_Content o ≠ o_Content o'
}.

Lemma obs_rule_spec l a r o :
  r_Observability r = Some o → obs_spec l a → obs_spec (l ++ [o]) (obs_rule a r).
Proof.
  intros Ho [T1 T2 A C S X]. unfold obs_rule. rewrite Ho.
  set (tr := match o_Traces o with Some t => _ | None => _ end).
  assert (∀ e pct, tr !! e = Some pct → traces a !! e = Some pct
    ∨ 0 < pct ∧ ∃ t, o_Traces o = Some t ∧ Exporter t = e ∧ SamplePercent t = pct) as Htr.
  { subst tr. intros e pct. destruct (o_Traces o) as [t|]; [|by left].
    destruct (_ <? _) eqn:E; [|by left]. bsplit. rewrite lookup_insert_Some.
    intros [[<- <-]|[_ ?]]; [right|by left]. split; [|by exists t].
    destruct (traces a !! Exporter t) as [z|] eqn:Ez; simpl in E; [|lia].
    apply T1 in Ez as [? _]. lia. }
  assert (∀ e, default 0 (traces a !! e) <= default 0 (tr !! e)) as Hmono.
  { subst tr. intros e. destruct (o_Traces o) as [t|]; [|lia].
    destruct (_ <? _) eqn:E; [|lia]. bsplit. destruct (decide (Exporter t = e)) as [<-|].
    - rewrite lookup_insert_eq. simpl. lia.
    - by rewrite lookup_insert_ne. }
  assert (∀ t, o_Traces o = Some t → SamplePercent t <= default 0 (tr !! Exporter t)) as Hnew.
  { subst tr. intros t ->. destruct (_ <? _) eqn:E; bsplit; [|lia].
    rewrite lookup_insert_eq. simpl. lia. }
  assert (∀ e, e ∈ (if bool_decide (o_Audit o = "") then audit a else {[o_Audit o]} ∪ audit a)
    ↔ e ≠ "" ∧ ∃ o', o' ∈ l ++ [o] ∧ o_Audit o' = e) as Hau.
  { intros e. rewrite ex_snoc. case_bool_decide as Ha.
    - rewrite A, Ha. split; [tauto|]. intros [? [?|<-]]; tauto.
    - rewrite elem_of_union, elem_of_singleton, A. split; [|naive_solver].
      intros [->|?]; tauto. }
  clearbody tr.
  assert (∀ e pct, tr !! e = Some pct → 0 < pct ∧ ∃ o' t, o' ∈ l ++ [o] ∧ o_Traces o' = Some t
            ∧ Exporter t = e ∧ SamplePercent t = pct) as HT1.
  { intros e pct [H|(Hp & t & Ht & Hte & Htp)]%Htr.
    - apply T1 in H as (Hp & o' & t & Hin & Ht). split; [done|]. exists o', t.
      rewrite elem_of_app. auto.
    - split; [done|]. exists o, t. rewrite elem_of_app, list_elem_of_singleton. auto. }
  assert (∀ o' t, o' ∈ l ++ [o] → o_Traces o' = Some t →
            SamplePercent t <= default 0 (tr !! Exporter t)) as HT2.
  { intros o' t [Hin| ->%list_elem_of_singleton]%elem_of_app Ht; [|by apply Hnew].
    pose proof (T2 _ _ Hin Ht). pose proof (Hmono (Exporter t)). lia. }
  destruct (bool_decide (o_Content o = "")) eqn:Hc; bsplit; split; simpl; try done.
  - intros Hn. apply ex_snoc. left. by apply C.
  - intros o' Hcf [Hin| ->%list_elem_of_singleton]%elem_of_app; [by apply S|by left].
  - intros (x & y & Hx & Hy & ?)%X. exists x, y. rewrite !elem_of_app. auto.
  - intros _. exists o. rewrite elem_of_app, list_elem_of_singleton. auto.
  - intros o' Hcf [Hin| ->%list_elem_of_singleton]%elem_of_app; [|by right].
    apply orb_false_iff in Hcf as [Hcf Hd]. destruct (S _ Hcf Hin) as [|He]; [by left|].
    bcases; [left|right]; congruence.
  - intros Hcf. apply orb_true_iff in Hcf as [Hcf|Hd].
    + apply X in Hcf as (x & y & Hx & Hy & ?). exists x, y. rewrite !elem_of_app. auto.
    + bsplit. destruct (C ltac:(done)) as (x & Hx & He). exists x, o.
      rewrite !elem_of_app, !list_elem_of_singleton, He. split_and!; by auto.
Qed.

Lemma obs_rules_spec l a rs :
  obs_spec l a → obs_spec (l ++ omap r_Observability rs) (foldl obs_rule a rs).
Proof.
  revert l a. induction rs as [|r rs IH]; intros l a Ha; simpl; [by rewrite app_nil_r|].
  destruct (r_Observability r) as [o|] eqn:Eo.
  - rewrite cons_middle, app_assoc. by apply (IH (l ++ [o])), obs_rule_spec.
  - replace (obs_rule a r) with a by (unfold obs_rule; by rewrite Eo). by apply IH.
Qed.

Lemma obs_policies_spec l a ps team user :
  obs_spec l a →
  obs_spec (l ++ obs_matching ps team user) (foldl (obs_policy team user) a ps).
Proof.
  revert l a. induction ps as [|p ps IH]; intros l a Ha; simpl; [by rewrite app_nil_r|].
  unfold obs_policy at 2, obs_matching. rewrite filter_cons.
  destruct (matches (p_Subject p) team user) eqn:Em.
  - rewrite decide_True by done. simpl. rewrite omap_app, app_assoc.
    by apply IH, obs_rules_spec.
  - rewrite decide_False by done. by apply IH.
Qed.

(** Observability merges by the strictest safe rule, over all policies that
    match the subject: an exporter's trace percentage is the largest any rule
    asks for, audit exporters are the union, and request content is exported only
    when every rule that selects a content exporter selects the same one. *)
Theorem MergeObservability_spec ps team user :
  let d := MergeObservability ps team user in
  let l := obs_matching ps team user in
  (∀ t, t ∈ d_Traces d →
     (∃ o, o ∈ l ∧ o_Traces o = Some t) ∧
     ∀ o t', o ∈ l → o_Traces o = Some t' → Exporter t' = Exporter t → SamplePercent t' <= SamplePercent t)
  ∧ (∀ o t, o ∈ l → o_Traces o = Some t → 0 < SamplePercent t → ∃ t', t' ∈ d_Traces d ∧ Exporter t' = Exporter t)
  ∧ (∀ e, e ∈ d_Audit d ↔ e ≠ "" ∧ ∃ o, o ∈ l ∧ o_Audit o = e)
  ∧ (∀ c, c ≠ "" → d_Content d = c ↔
       (∃ o, o ∈ l ∧ o_Content o = c) ∧ ∀ o, o ∈ l → o_Content o = "" ∨ o_Content o = c).
Proof.
  cbv zeta. set (l := obs_matching ps team user).
  assert (obs_spec l (foldl (obs_policy team user)
    {| traces := ∅; audit := ∅; content := ""; conflict := false |} ps)) as [T1 T2 A C S X].
  { apply (obs_policies_spec []). split; simpl; try done.
    - intros o t Ho. by apply not_elem_of_nil in Ho.
    - intros e. split; [set_solver|]. intros (_ & o & Ho & _). by apply not_elem_of_nil in Ho.
    - intros o _ Ho. by apply not_elem_of_nil in Ho. }
  unfold MergeObservability. simpl. set (a := foldl _ _ ps) in *. clearbody a.
  assert (∀ e pct, {| Exporter := e; SamplePercent := pct |} ∈
    ((λ kv : string * Z, {| Exporter := kv.1; SamplePercent := kv.2 |}) <$>
       merge_sort (λ x y, str_le x.1 y.1) (map_to_list (traces a))) ↔ traces a !! e = Some pct) as Ht.
  { intros e pct. rewrite merge_sort_Permutation, list_elem_of_fmap. split.
    - intros ([k v] & [= -> ->] & Hkv). by apply elem_of_map_to_list in Hkv.
    - intros H. exists (e, pct). split; [done|]. by apply elem_of_map_to_list. }
  split_and!.
  - intros [e pct]. rewrite Ht. intros He. destruct (T1 _ _ He) as (_ & o & t & Ho & Hto & <- & <-).
    split; [exists o; by destruct t|]. intros o' t' Ho' Ht' Hee. simpl in *.
    pose proof (T2 _ _ Ho' Ht') as Hle. rewrite Hee, He in Hle. done.
  - intros o t Ho Hto Hp. pose proof (T2 _ _ Ho Hto) as Hle.
    destruct (traces a !! Exporter t) as [pct|] eqn:Ee; simpl in Hle; [|lia].
    exists {| Exporter := Exporter t; SamplePercent := pct |}. by rewrite Ht.
  - intros e. by rewrite merge_sort_Permutation, elem_of_elements.
  - intros c Hc. destruct (conflict a) eqn:Ecf.
    + split; [by intros <-|]. intros [_ Hall].
      destruct (X eq_refl) as (x & y & Hx & Hy & Hnx & Hny & Hne).
      apply Hall in Hx, Hy. naive_solver congruence.
    + split.
      * intros <-. split; [by apply C|]. intros o Ho. by apply S.
      * intros [(o & Ho & Hoc) _]. destruct (S o eq_refl Ho); congruence.
Qed.

(** ** Witnesses *)

(** One team document: a hard monthly cap, a soft daily meter referenced by strict
    tiers, and a context rule. *)
Definition wire_rule (name fp : string) (b : option v1alpha1.BudgetRule)
    (rt : option v1alpha1.RoutingRule) : v1alpha1.Rule :=
  {| v1alpha1.Name := name; v1alpha1.FailurePolicy := fp; v1alpha1.Budget := b;
     v1alpha1.Routing := rt; v1alpha1.ModelAccess := None; v1alpha1.Rate := None;
     v1alpha1.SensitiveData := None; v1alpha1.TokenQuota := None;
     v1alpha1.Observability := None |}.

Definition wire_budget (limit : Z) (hard : bool) (iv period : string) : v1alpha1.BudgetRule :=
  {| v1alpha1.br_Unlimited := false; v1alpha1.br_LimitMilliUSD := limit;
     v1alpha1.br_HardCap := hard;
     v1alpha1.br_Lease := {| v1alpha1.ls_GrantMilliUSD := 0; v1alpha1.ls_RenewInterval := iv |};
     v1alpha1.br_AdminContact := ""; v1alpha1.br_Period := period |}.

Definition demo_doc : v1alpha1.GovernancePolicy :=
  {| v1alpha1.gp_TypeMeta :=
       {| v1alpha1.tm_APIVersion := v1alpha1.APIVersion;
          v1alpha1.tm_Kind := v1alpha1.KindGovernancePolicy |};
     v1alpha1.Metadata := {| v1alpha1.om_Name := "acme"; v1alpha1.om_Generation := 3 |};
     v1alpha1.Spec :=
       {| v1alpha1.sp_Subject := {| v1alpha1.sub_Team := "acme"; v1alpha1.sub_User := "" |};
          v1alpha1.sp_Rules := [
            wire_rule "month" v1alpha1.FailClosed (Some (wire_budget 50000 true "5s" "")) None;
            wire_rule "day" v1alpha1.FailOpen
              (Some (wire_budget 2000 false "" v1alpha1.PeriodCalendarDay)) None;
            wire_rule "tiers" v1alpha1.FailOpen None
              (Some {| v1alpha1.ro_OnAffinityConflict := "";
                       v1alpha1.ro_BudgetTiers := Some
                         {| v1alpha1.btr_BudgetRef := "day";
                            v1alpha1.btr_Tiers := [
                              {| v1alpha1.bt_ThresholdPercent := 80;
                                 v1alpha1.bt_Substitute := {[ "large" := "small" ]} |};
                              {| v1alpha1.bt_ThresholdPercent := 100;
                                 v1alpha1.bt_Substitute := {[ "large" := "tiny" ]} |}];
                            v1alpha1.btr_EnforceTargets := true |};
                       v1alpha1.ro_Context := None |}) ] |} |}.

Definition no_policy : Policy :=
  {| p_Name := ""; p_Generation := 0; p_Subject := {| Team := ""; User := "" |}; p_Rules := [] |}.

Definition demo_policy : Policy :=
  match FromV1Alpha1 map_to_list demo_doc with Ok p => p | Err _ => no_policy end.

Lemma FromV1Alpha1_sound_witness :
  policy_wf demo_policy ∧ IsRoutingOnlyBudget (Some demo_policy) "day" = true.
Proof.
  split; [|vm_compute; reflexivity].
  apply (FromV1Alpha1_sound map_to_list (λ m, reflexivity (map_to_list m)) demo_doc demo_policy).
  vm_compute. reflexivity.
Defined.

Lemma FromV1Alpha1_order_irrelevant_witness :
  FromV1Alpha1 (λ m, reverse (map_to_list m)) demo_doc = Ok demo_policy.
Proof.
  refine (proj1 (FromV1Alpha1_order_irrelevant map_to_list (λ m, reverse (map_to_list m))
                   demo_doc demo_policy _ _) _).
  - intros m. reflexivity.
  - intros m. apply reverse_Permutation.
  - vm_compute. reflexivity.
Defined.
