(* ===== verification/PolicyStore.v ===== *)
(** * The policy store: merged limits, distribution and the request-path views
    (internal/policy/store.go, identity.go)

    A snapshot is installed whole; the request path reads one snapshot.  The
    digest naming a distributed set ([GenerationOf]: a hash of its JSON), the
    canonical identity reference (a hash too) and the identity configuration's own
    validation are parameters, as is the order [range] Go ranges over a map in. *)

From S2P Require Import Prelude GoTime GoFloat V1Alpha1 Policy.

(** ** Merged limits *)

Record RuleRef := { ref_Policy : string; ref_Generation : Z; ref_Rule : string }.
Definition no_ref : RuleRef := {| ref_Policy := ""; ref_Generation := 0; ref_Rule := "" |}.

(** One window of an admission budget: its limit (0: none), whether it is a hard
    cap, its contact and the rule it came from. *)
Record BudgetWindow := {
  w_Micros : Z; w_Hard : bool; w_Contact : string; w_Rule : RuleRef
}.
Definition no_window : BudgetWindow :=
  {| w_Micros := 0; w_Hard := false; w_Contact := ""; w_Rule := no_ref |}.

(** The [TeamLimits] struct; the four fields of each budget window are grouped. *)
Record TeamLimits := {
  tl_RPM : Z; tl_TPM : Z;
  tl_Month : BudgetWindow; tl_Day : BudgetWindow;
  tl_RoutingMonth : Z; tl_RoutingDay : Z;
  tl_RPMRule : RuleRef; tl_TPMRule : RuleRef
}.

Definition no_team_limits : TeamLimits :=
  {| tl_RPM := 0; tl_TPM := 0; tl_Month := no_window; tl_Day := no_window;
     tl_RoutingMonth := 0; tl_RoutingDay := 0; tl_RPMRule := no_ref; tl_TPMRule := no_ref |}.

Record UserLimits := { ul_Month : BudgetWindow; ul_Day : BudgetWindow }.
Definition no_user_limits : UserLimits := {| ul_Month := no_window; ul_Day := no_window |}.

Definition takesRate (current next : Z) : bool :=
  (negb (next =? 0) && ((current =? 0) || (next <? current)))%bool.

Definition minNonZero (a b : Z) : Z :=
  if a =? 0 then b else if b =? 0 then a else if b <? a then b else a.

Definition takesBudget (limit : Z) (hard : bool) (otherLimit : Z) (otherHard : bool) : bool :=
  (negb (otherLimit =? 0)
   && ((limit =? 0) || (otherHard && negb hard)
       || (Bool.eqb otherHard hard && (otherLimit <? limit))))%bool.

Definition mergeBudgetWindow (limit : Z) (hard : bool) (contact : string)
    (otherLimit : Z) (otherHard : bool) (otherContact : string) : Z * bool * string :=
  if otherLimit =? 0 then (limit, hard, contact)
  else if takesBudget limit hard otherLimit otherHard then (otherLimit, otherHard, otherContact)
  else
    let contact :=
      if ((otherLimit =? limit) && Bool.eqb otherHard hard && bool_decide (contact = ""))%bool
      then otherContact else contact in
    (limit, hard, contact).

(** The window merge with the rule name kept by the same comparison. *)
Definition merge_window (w o : BudgetWindow) : BudgetWindow :=
  let rule := if takesBudget (w_Micros w) (w_Hard w) (w_Micros o) (w_Hard o)
              then w_Rule o else w_Rule w in
  let '(l, h, c) := mergeBudgetWindow (w_Micros w) (w_Hard w) (w_Contact w)
                      (w_Micros o) (w_Hard o) (w_Contact o) in
  {| w_Micros := l; w_Hard := h; w_Contact := c; w_Rule := rule |}.

Definition budget_window (b : Budget) (ref : RuleRef) : BudgetWindow :=
  {| w_Micros := b_LimitMicroUSD b; w_Hard := b_HardCap b; w_Contact := b_AdminContact b;
     w_Rule := ref |}.

Definition is_day (b : Budget) : bool := bool_decide (b_Period b = v1alpha1.PeriodCalendarDay).

Definition rule_ref (p : Policy) (r : Rule) : RuleRef :=
  {| ref_Policy := p_Name p; ref_Generation := p_Generation p; ref_Rule := r_Name r |}.

(** One rule folded into a team's limits: the rate, then the budget. *)
Definition team_rate (ref : RuleRef) (rt : Rate) (tl : TeamLimits) : TeamLimits :=
  {| tl_RPM := minNonZero (tl_RPM tl) (RPM rt); tl_TPM := minNonZero (tl_TPM tl) (TPM rt);
     tl_Month := tl_Month tl; tl_Day := tl_Day tl;
     tl_RoutingMonth := tl_RoutingMonth tl; tl_RoutingDay := tl_RoutingDay tl;
     tl_RPMRule := if takesRate (tl_RPM tl) (RPM rt) then ref else tl_RPMRule tl;
     tl_TPMRule := if takesRate (tl_TPM tl) (TPM rt) then ref else tl_TPMRule tl |}.

Definition set_windows (m d : BudgetWindow) (rm rd : Z) (tl : TeamLimits) : TeamLimits :=
  {| tl_RPM := tl_RPM tl; tl_TPM := tl_TPM tl; tl_Month := m; tl_Day := d;
     tl_RoutingMonth := rm; tl_RoutingDay := rd;
     tl_RPMRule := tl_RPMRule tl; tl_TPMRule := tl_TPMRule tl |}.

Definition team_budget (p : Policy) (r : Rule) (b : Budget) (tl : TeamLimits) : TeamLimits :=
  let set := λ m d rm rd, set_windows m d rm rd tl in
  if IsRoutingOnlyBudget (Some p) (r_Name r) then
    if is_day b
    then set (tl_Month tl) (tl_Day tl) (tl_RoutingMonth tl)
             (minNonZero (tl_RoutingDay tl) (b_LimitMicroUSD b))
    else set (tl_Month tl) (tl_Day tl) (minNonZero (tl_RoutingMonth tl) (b_LimitMicroUSD b))
             (tl_RoutingDay tl)
  else if b_Unlimited b then tl
  else if is_day b
  then set (tl_Month tl) (merge_window (tl_Day tl) (budget_window b (rule_ref p r)))
           (tl_RoutingMonth tl) (tl_RoutingDay tl)
  else set (merge_window (tl_Month tl) (budget_window b (rule_ref p r))) (tl_Day tl)
           (tl_RoutingMonth tl) (tl_RoutingDay tl).

Definition team_rule (p : Policy) (acc : TeamLimits * bool) (r : Rule) : TeamLimits * bool :=
  let '(tl, c) := acc in
  let '(tl, c) := match r_Rate r with
                  | Some rt => (team_rate (rule_ref p r) rt tl, true) | None => (tl, c) end in
  match r_Budget r with Some b => (team_budget p r b tl, true) | None => (tl, c) end.

(** A pure team subject. *)
Definition team_subject (p : Policy) : bool :=
  (negb (bool_decide (Team (p_Subject p) = "")) && bool_decide (User (p_Subject p) = ""))%bool.

Definition merge_team_policy (out : gmap string TeamLimits) (p : Policy) : gmap string TeamLimits :=
  if team_subject p then
    let t := Team (p_Subject p) in
    let '(tl, contributed) :=
      foldl (team_rule p)
        (match out !! t with Some tl => (tl, true) | None => (no_team_limits, false) end)
        (p_Rules p) in
    if contributed then <[t := tl]> out else out
  else out.

Definition mergeTeamLimits (policies : list Policy) : gmap string TeamLimits :=
  foldl merge_team_policy ∅ policies.

Definition narrow (u o : UserLimits) : UserLimits :=
  {| ul_Month := merge_window (ul_Month u) (ul_Month o);
     ul_Day := merge_window (ul_Day u) (ul_Day o) |}.

Definition userLimitsFromBudget (b : Budget) (ref : RuleRef) : UserLimits :=
  if is_day b then {| ul_Month := no_window; ul_Day := budget_window b ref |}
  else {| ul_Month := budget_window b ref; ul_Day := no_window |}.

Definition user_rule (p : Policy) (acc : UserLimits * bool) (r : Rule) : UserLimits * bool :=
  match r_Budget r with
  | None => acc
  | Some b =>
      if b_Unlimited b then (acc.1, true)
      else (narrow acc.1 (userLimitsFromBudget b (rule_ref p r)), true)
  end.

(** [userKey] is a [Subject]: a user-only subject is kept under the empty team. *)
Definition merge_user_policy (out : gmap Subject UserLimits) (p : Policy) : gmap Subject UserLimits :=
  if bool_decide (User (p_Subject p) = "") then out
  else
    let k := p_Subject p in
    let '(ul, contributed) :=
      foldl (user_rule p)
        (match out !! k with Some ul => (ul, true) | None => (no_user_limits, false) end)
        (p_Rules p) in
    if contributed then <[k := ul]> out else out.

Definition mergeUserLimits (policies : list Policy) : gmap Subject UserLimits :=
  foldl merge_user_policy ∅ policies.

(** ** Snapshots and the store *)

Record snapshot := {
  generation : string;
  policies : list Policy;
  rejectedRouting : gmap string (list Subject);
  teams : gmap string TeamLimits;
  users : gmap Subject UserLimits;
  observability : bool
}.

(** An external identity, and the configuration binding identities to accounts. *)
Record ID := { Organization : string; IdKind : string; Issuer : string; IdSubject : string }.
Record Binding := { Identity : ID; AccountRef : string }.
Record Config := { cfg_Organization : string; Required : bool; Bindings : list Binding }.

Inductive IdentityError := ErrIdentityConfig | ErrMustRetain | ErrNotCanonical.

Record Store := {
  paths : list string;
  snap : option snapshot;
  routedAndPriced : option (string → option string);
  sharedEnforcement : bool;
  identityConfig : option Config;
  observabilityCeiling : option (string → string → option string)
}.

Definition with_snap (sn : snapshot) (s : Store) : Store :=
  {| paths := paths s; snap := Some sn; routedAndPriced := routedAndPriced s;
     sharedEnforcement := sharedEnforcement s; identityConfig := identityConfig s;
     observabilityCeiling := observabilityCeiling s |}.

Definition empty_snapshot : snapshot :=
  {| generation := ""; policies := []; rejectedRouting := ∅; teams := ∅; users := ∅;
     observability := false |}.

Definition NewEmptyStore : Store :=
  {| paths := []; snap := Some empty_snapshot; routedAndPriced := None;
     sharedEnforcement := false; identityConfig := None; observabilityCeiling := None |}.

Definition SetSharedEnforcement (enabled : bool) (s : Store) : Store :=
  {| paths := paths s; snap := snap s; routedAndPriced := routedAndPriced s;
     sharedEnforcement := enabled; identityConfig := identityConfig s;
     observabilityCeiling := observabilityCeiling s |}.

Definition SetRoutedAndPriced (f : string → option string) (s : Store) : Store :=
  {| paths := paths s; snap := snap s; routedAndPriced := Some f;
     sharedEnforcement := sharedEnforcement s; identityConfig := identityConfig s;
     observabilityCeiling := observabilityCeiling s |}.

Definition SetObservabilityCeiling (f : string → string → option string) (s : Store) : Store :=
  {| paths := paths s; snap := snap s; routedAndPriced := routedAndPriced s;
     sharedEnforcement := sharedEnforcement s; identityConfig := identityConfig s;
     observabilityCeiling := Some f |}.

(** Why a document was refused, as reported upstream. *)
Inductive RejectReason :=
| RejIdentity (e : IdentityError)
| RejName
| RejUnsupported (r : Reason)
| RejError (e : UnsupportedError).

Record Rejection := { rej_Policy : string; rej_Rule : string; rej_Reason : RejectReason }.

Definition mandatory_rule (r : Rule) : bool :=
  (is_set (r_TokenQuota r) || is_set (r_SensitiveData r)
   || match r_Routing r ≫= ro_BudgetTiers with Some bt => EnforceTargets bt | None => false end)%bool.

Definition hasMandatoryRouting (p : Policy) : bool := existsb mandatory_rule (p_Rules p).

(** The same on the wire form of a document that did not convert. *)
Definition mandatory_wire_rule (r : v1alpha1.Rule) : bool :=
  (is_set (v1alpha1.TokenQuota r) || is_set (v1alpha1.SensitiveData r)
   || match v1alpha1.Routing r ≫= v1alpha1.ro_BudgetTiers with
      | Some bt => v1alpha1.btr_EnforceTargets bt | None => false end)%bool.

Definition doc_name (d : v1alpha1.GovernancePolicy) : string :=
  v1alpha1.om_Name (v1alpha1.Metadata d).
Definition doc_subject (d : v1alpha1.GovernancePolicy) : Subject :=
  {| Team := v1alpha1.sub_Team (v1alpha1.sp_Subject (v1alpha1.Spec d));
     User := v1alpha1.sub_User (v1alpha1.sp_Subject (v1alpha1.Spec d)) |}.

(** A lower-case hexadecimal digest of 64 characters. *)
Fixpoint hex_lower (s : string) : bool :=
  match s with
  | EmptyString => true
  | String a s =>
      let n := Ascii.nat_of_ascii a in
      (((Nat.leb 48 n && Nat.leb n 57) || (Nat.leb 97 n && Nat.leb n 102)) && hex_lower s)%bool
  end.

Definition identity_prefix : string := "identity-v1:".

Fixpoint cut_prefix (p s : string) : option string :=
  match p, s with
  | EmptyString, _ => Some s
  | String a p, String b s => if Ascii.eqb a b then cut_prefix p s else None
  | String _ _, EmptyString => None
  end.

Section store.
Context (range : gmap string string → list (string * string)).
Context (GenerationOf : list v1alpha1.GovernancePolicy → string).
Context (CanonicalRef : ID → string).
Context (Validate : Config → bool).

(** ** Apply-time checks *)

Fixpoint binding_loop (ref : string) (bs : list Binding) : option (result IdentityError unit) :=
  match bs with
  | [] => None
  | b :: bs =>
      if bool_decide (ref = AccountRef b) then Some (Ok tt)
      else if bool_decide (ref = CanonicalRef (Identity b)) then Some (Err ErrMustRetain)
      else binding_loop ref bs
  end.

Definition validateIdentitySubject (ref : string) (cfg : option Config) : result IdentityError unit :=
  match cfg with
  | None => Ok tt
  | Some c =>
      if (negb (Required c) || bool_decide (ref = ""))%bool then Ok tt
      else
        match binding_loop ref (Bindings c) with
        | Some r => r
        | None =>
            match cut_prefix identity_prefix ref with
            | Some suffix =>
                if (Nat.eqb (String.length suffix) 64 && hex_lower suffix)%bool then Ok tt
                else Err ErrNotCanonical
            | None => Err ErrNotCanonical
            end
        end
  end.

Fixpoint identity_loop (docs : list v1alpha1.GovernancePolicy) (cfg : Config)
    : result IdentityError unit :=
  match docs with
  | [] => Ok tt
  | d :: docs =>
      _ ← validateIdentitySubject (User (doc_subject d)) (Some cfg);
      identity_loop docs cfg
  end.

Definition ValidateIdentitySubjects (docs : list v1alpha1.GovernancePolicy) (cfg : option Config)
    : result IdentityError unit :=
  match cfg with
  | None => Ok tt
  | Some c =>
      if negb (Required c) then Ok tt
      else if negb (Validate c) then Err ErrIdentityConfig
      else identity_loop docs c
  end.

Definition apply_reject (rule : string) (reason : Reason) : UnsupportedError :=
  {| ue_APIVersion := v1alpha1.APIVersion; ue_Kind := "GovernancePolicy"; ue_Rule := rule;
     ue_Reason := reason |}.

(** The first exporter/signal pair the ceiling refuses. *)
Fixpoint ceiling_loop (rule : string) (ceiling : string → string → option string)
    (pairs : list (string * string)) : result UnsupportedError unit :=
  match pairs with
  | [] => Ok tt
  | (e, sig) :: pairs =>
      match ceiling e sig with
      | Some cause => Err (apply_reject rule (RCeiling sig e cause))
      | None => ceiling_loop rule ceiling pairs
      end
  end.

Definition signal_pairs (o : Observability) : list (string * string) :=
  (match o_Traces o with Some t => [(Exporter t, "traces")] | None => [] end)
  ++ (if bool_decide (o_Audit o = "") then [] else [(o_Audit o, "audit")])
  ++ (if bool_decide (o_Content o = "") then [] else [(o_Content o, "content")]).

Definition checkObservabilityCeiling (rule : string) (o : Observability)
    (ceiling : string → string → option string) : result UnsupportedError unit :=
  ceiling_loop rule ceiling (signal_pairs o).

Fixpoint targets_loop (rule : string) (mk : string → string → Reason)
    (routed : string → option string) (targets : list string) : result UnsupportedError unit :=
  match targets with
  | [] => Ok tt
  | t :: targets =>
      match routed t with
      | Some cause => Err (apply_reject rule (mk t cause))
      | None => targets_loop rule mk routed targets
      end
  end.

Definition routing_targets (r : Rule) : list string :=
  (match r_SensitiveData r with Some sd => InternalModels sd | None => [] end)
  ++ (match r_Routing r ≫= ro_Context with
      | Some c => [SimpleModel c; ComplexModel c]
                  ++ (if bool_decide (NormalModel c = "") then [] else [NormalModel c])
      | None => []
      end).

Definition user_scoped (p : Policy) : bool := negb (team_subject p).

Definition check_rule (p : Policy) (routed : option (string → option string))
    (ceiling : option (string → string → option string)) (shared : bool) (r : Rule)
    : result UnsupportedError unit :=
  let name := r_Name r in
  let tiers := r_Routing r ≫= ro_BudgetTiers in
  _ ← (match r_Observability r, ceiling with
       | Some o, Some c => checkObservabilityCeiling name o c
       | _, _ => Ok tt
       end);
  (is_set (r_TokenQuota r) && negb shared)%bool !> apply_reject name RTokenQuotaShared ;;
  _ ← (match routed with
       | Some f => targets_loop name RTarget f (routing_targets r)
       | None => Ok tt
       end);
  is_set (r_Routing r ≫= ro_Affinity) !> apply_reject name RAffinityNotEnforceable ;;
  (match tiers with Some bt => EnforceTargets bt | None => false end
   && user_scoped p && negb shared)%bool !> apply_reject name RStrictSubject ;;
  _ ← (match tiers, routed with
       | Some bt, Some f =>
           targets_loop name RTierTarget f (mjoin ((λ t, (range (Substitute t)).*2) <$> Tiers bt))
       | _, _ => Ok tt
       end);
  (is_set (r_Rate r) && user_scoped p && negb shared)%bool !> apply_reject name RRateSubject ;;
  Ok tt.

Fixpoint check_rules (p : Policy) routed ceiling shared (rs : list Rule)
    : result UnsupportedError unit :=
  match rs with
  | [] => Ok tt
  | r :: rs => _ ← check_rule p routed ceiling shared r; check_rules p routed ceiling shared rs
  end.

Definition checkEnforceable (p : Policy) (routed : option (string → option string))
    (ceiling : option (string → string → option string)) (shared : bool)
    : result UnsupportedError unit := check_rules p routed ceiling shared (p_Rules p).

(** What both [ApplyWire] passes and the file path do with one document. *)
Definition accept (s : Store) (d : v1alpha1.GovernancePolicy) : result UnsupportedError Policy :=
  p ← FromV1Alpha1 range d;
  _ ← checkEnforceable p (routedAndPriced s) (observabilityCeiling s) (sharedEnforcement s);
  Ok p.

(** ** Distribution *)

(** The pass of a store that requires identities: the first defect refuses the set. *)
Fixpoint strict_pass (s : Store) (seen : list string) (docs : list v1alpha1.GovernancePolicy)
    : option Rejection :=
  match docs with
  | [] => None
  | d :: docs =>
      let name := doc_name d in
      if (bool_decide (name = "") || contains name seen)%bool
      then Some {| rej_Policy := name; rej_Rule := ""; rej_Reason := RejName |}
      else match accept s d with
           | Err e => Some {| rej_Policy := name; rej_Rule := ""; rej_Reason := RejError e |}
           | Ok _ => strict_pass s (name :: seen) docs
           end
  end.

Definition add_subject (l : list Subject) (sub : Subject) : list Subject :=
  if contains sub l then l else l ++ [sub].

(** The subjects of the policies [ps] named [name] that hold a mandatory rule. *)
Definition mandatory_subjects (name : string) (ps : list Policy) : list Subject :=
  p_Subject <$> filter (λ p, p_Name p = name ∧ hasMandatoryRouting p = true) ps.

Definition rememberRejection (previous : option snapshot) (accepted : list Policy)
    (pending : gmap string (list Subject)) (d : v1alpha1.GovernancePolicy)
    : gmap string (list Subject) :=
  let name := doc_name d in
  let subjects := default [] (pending !! name) in
  let subjects :=
    if existsb mandatory_wire_rule (v1alpha1.sp_Rules (v1alpha1.Spec d))
    then add_subject subjects (doc_subject d) else subjects in
  let subjects := foldl add_subject subjects
                    (mandatory_subjects name (from_option policies [] previous)) in
  let subjects := foldl add_subject subjects (mandatory_subjects name accepted) in
  if bool_decide (subjects = []) then pending else <[name := subjects]> pending.

Record apply_acc := {
  accepted : list Policy;
  rejected : list Rejection;
  seen : list string;
  pending : gmap string (list Subject)
}.

Definition name_count (docs : list v1alpha1.GovernancePolicy) (name : string) : nat :=
  length (filter (λ d, doc_name d = name) docs).

Definition apply_doc (s : Store) (docs : list v1alpha1.GovernancePolicy) (a : apply_acc)
    (d : v1alpha1.GovernancePolicy) : apply_acc :=
  let name := doc_name d in
  if (bool_decide (name = "") || contains name (seen a))%bool then
    {| accepted := accepted a;
       rejected := rejected a ++ [{| rej_Policy := name; rej_Rule := ""; rej_Reason := RejName |}];
       seen := seen a;
       pending := rememberRejection (snap s) (accepted a) (pending a) d |}
  else
    match accept s d with
    | Err e =>
        {| accepted := accepted a;
           rejected := rejected a ++ [{| rej_Policy := name; rej_Rule := ue_Rule e;
                                         rej_Reason := RejUnsupported (ue_Reason e) |}];
           seen := name :: seen a;
           pending := rememberRejection (snap s) (accepted a) (pending a) d |}
    | Ok p =>
        {| accepted := accepted a ++ [p]; rejected := rejected a; seen := name :: seen a;
           pending := if Nat.eqb (name_count docs name) 1 then delete name (pending a)
                      else pending a |}
    end.

Definition apply_loop (s : Store) (docs : list v1alpha1.GovernancePolicy) : apply_acc :=
  foldl (apply_doc s docs)
    {| accepted := []; rejected := []; seen := [];
       pending := from_option rejectedRouting ∅ (snap s) |} docs.

Definition required (s : Store) : bool := from_option Required false (identityConfig s).

Definition ApplyWire (docs : list v1alpha1.GovernancePolicy) : ST Store (list Rejection) := λ s,
  match ValidateIdentitySubjects docs (identityConfig s) with
  | Err e => ([{| rej_Policy := ""; rej_Rule := ""; rej_Reason := RejIdentity e |}], s)
  | Ok _ =>
      match (if required s then strict_pass s [] docs else None) with
      | Some r => ([r], s)
      | None =>
          let a := apply_loop s docs in
          let pend :=
            if (bool_decide (rejected a = []) && negb (bool_decide (length docs = 0%nat)))%bool
            then delete "" (pending a) else pending a in
          if (required s && negb (bool_decide (rejected a = [])))%bool then (rejected a, s)
          else
            (rejected a,
             with_snap {| generation := GenerationOf docs; policies := accepted a;
                          rejectedRouting := pend; teams := mergeTeamLimits (accepted a);
                          users := mergeUserLimits (accepted a);
                          observability := hasObservability (accepted a) |} s)
      end
  end.

(** [SetIdentityConfig]: refused when the configuration is invalid or a policy in
    force names a user it does not admit. *)
Fixpoint subjects_loop (cfg : option Config) (ps : list Policy) : result IdentityError unit :=
  match ps with
  | [] => Ok tt
  | p :: ps => _ ← validateIdentitySubject (User (p_Subject p)) cfg; subjects_loop cfg ps
  end.

Definition SetIdentityConfig (cfg : option Config) : ST Store (result IdentityError unit) := λ s,
  if negb (from_option Validate true cfg) then (Err ErrIdentityConfig, s)
  else
    match subjects_loop cfg (policies (default empty_snapshot (snap s))) with
    | Err e => (Err e, s)
    | Ok _ =>
        (Ok tt, {| paths := paths s; snap := snap s; routedAndPriced := routedAndPriced s;
                   sharedEnforcement := sharedEnforcement s; identityConfig := cfg;
                   observabilityCeiling := observabilityCeiling s |})
    end.

(** ** Local files *)

Inductive LocalError := ErrNoPaths | ErrLoad | ErrIdentity (e : IdentityError)
  | ErrUnsupported (e : UnsupportedError) | ErrNoName | ErrDuplicateName (name : string).

Fixpoint checkApplicable (s : Store) (ps : list Policy) : result LocalError unit :=
  match ps with
  | [] => Ok tt
  | p :: ps =>
      match validateIdentitySubject (User (p_Subject p)) (identityConfig s) with
      | Err e => Err (ErrIdentity e)
      | Ok _ =>
          match checkEnforceable p (routedAndPriced s) (observabilityCeiling s)
                  (sharedEnforcement s) with
          | Err e => Err (ErrUnsupported e)
          | Ok _ => checkApplicable s ps
          end
      end
  end.

Fixpoint claim_names (seen : list string) (ps : list Policy) : result LocalError unit :=
  match ps with
  | [] => Ok tt
  | p :: ps =>
      if bool_decide (p_Name p = "") then Err ErrNoName
      else if contains (p_Name p) seen then Err (ErrDuplicateName (p_Name p))
      else claim_names (p_Name p :: seen) ps
  end.

Definition CheckLocal (s : Store) (ps : list Policy) : result LocalError unit :=
  _ ← claim_names [] ps; checkApplicable s ps.

(** [Reload], given what reading the files returned. *)
Definition Reload (loaded : result LocalError (list Policy)) : ST Store (result LocalError unit) := λ s,
  if bool_decide (length (paths s) = 0%nat) then (Err ErrNoPaths, s)
  else
    match loaded with
    | Err e => (Err e, s)
    | Ok ps =>
        match checkApplicable s ps with
        | Err e => (Err e, s)
        | Ok _ =>
            (Ok tt, with_snap {| generation := ""; policies := ps; rejectedRouting := ∅;
                                 teams := mergeTeamLimits ps; users := mergeUserLimits ps;
                                 observability := hasObservability ps |} s)
        end
    end.
End store.

(** ** Request-path views *)

Definition snapshot_of (s : Store) : snapshot := default empty_snapshot (snap s).

Definition Store_TeamLimits (s : Store) (team : string) : option TeamLimits :=
  teams (snapshot_of s) !! team.

Definition Store_UserLimits (s : Store) (team user : string) : option UserLimits :=
  if bool_decide (user = "") then None
  else
    let m := users (snapshot_of s) in
    match m !! {| Team := team; User := user |}, m !! {| Team := ""; User := user |} with
    | Some scoped, Some global => Some (narrow scoped global)
    | Some scoped, None => Some scoped
    | None, Some global => Some global
    | None, None => None
    end.

Definition allowsModel (allow : list string) (model : string) (canon : option (string → string)) : bool :=
  existsb (λ a, (bool_decide (a = "*") || bool_decide (a = model)
                 || match canon with Some f => bool_decide (f a = model) | None => false end)%bool)
    allow.

Definition rule_allows (model : string) (canon : option (string → string)) (r : Rule) : bool :=
  match r_ModelAccess r with Some ma => allowsModel (Allow ma) model canon | None => true end.

Definition ModelAllowed (s : Store) (team user model : string) (canon : option (string → string)) : bool :=
  forallb (λ p, (negb (matches (p_Subject p) team user)
                 || forallb (rule_allows model canon) (p_Rules p))%bool)
    (policies (snapshot_of s)).

Inductive RoutingError := ErrRoutingPolicyRejected.

Definition routing_rule (r : Rule) : bool :=
  (is_set (r_SensitiveData r) || is_set (r_Routing r ≫= ro_Context))%bool.

Definition gated (sn : snapshot) (team user : string) : bool :=
  existsb (λ kv, existsb (λ sub, matches sub team user) kv.2) (map_to_list (rejectedRouting sn)).

Definition routing_view (team user : string) (p : Policy) : option Policy :=
  if matches (p_Subject p) team user then
    let rs := filter (λ r, routing_rule r = true) (p_Rules p) in
    if bool_decide (length rs = 0%nat) then None
    else Some {| p_Name := p_Name p; p_Generation := p_Generation p; p_Subject := p_Subject p;
                 p_Rules := rs |}
  else None.

Definition RoutingSnapshot (s : Store) (team user : string)
    : string * result RoutingError (list Policy) :=
  let sn := snapshot_of s in
  (generation sn,
   if gated sn team user then Err ErrRoutingPolicyRejected
   else Ok (omap (routing_view team user) (policies sn))).

Definition MatchingRoutingPolicies (s : Store) (team user : string)
    : result RoutingError (list Policy) := (RoutingSnapshot s team user).2.

Definition Store_Observability (s : option Store) (team user : string) : ObservabilityDecision :=
  let none := {| d_Traces := []; d_Audit := []; d_Content := ""; d_ContentConflict := false |} in
  match s ≫= snap with
  | None => none
  | Some sn => if observability sn then MergeObservability (policies sn) team user else none
  end.

(** ** The strictest budget of a list *)

(** [(lim, hard)] is the binding one of the budgets [l]: a hard cap if there is
    one, the smallest of its kind; 0 if there is none. *)
Definition strictest (l : list (Z * bool)) (lim : Z) (hard : bool) : Prop :=
  match l with
  | [] => lim = 0 ∧ hard = false
  | _ => (lim, hard) ∈ l ∧ hard = existsb snd l ∧ ∀ x, (x, hard) ∈ l → lim <= x
  end.

Definition positive (l : list (Z * bool)) : Prop := Forall (λ x, 0 < x.1) l.

Lemma existsb_elem {A} (f : A → bool) l x : x ∈ l → f x = true → existsb f l = true.
Proof. intros Hx Hf. apply existsb_exists. exists x. by rewrite <- list_elem_of_In. Qed.

Lemma strictest_nonzero l lim hard : positive l → l ≠ [] → strictest l lim hard → 0 < lim.
Proof.
  intros Hp Hn. destruct l; [done|]. intros (Hin & _).
  unfold positive in Hp. rewrite Forall_forall in Hp. by apply Hp in Hin.
Qed.

(** Merging two windows binds what both lists bind. *)
Lemma strictest_app l1 l2 w o :
  positive l1 → positive l2 →
  strictest l1 (w_Micros w) (w_Hard w) → strictest l2 (w_Micros o) (w_Hard o) →
  strictest (l1 ++ l2) (w_Micros (merge_window w o)) (w_Hard (merge_window w o)).
Proof.
  intros Hp1 Hp2 H1 H2. unfold merge_window, mergeBudgetWindow.
  destruct (decide (l2 = [])) as [->|Hn2].
  { destruct H2 as [-> ->]. simpl. by rewrite app_nil_r. }
  pose proof (strictest_nonzero _ _ _ Hp2 Hn2 H2) as Hz2.
  replace (w_Micros o =? 0) with false by (symmetry; apply Z.eqb_neq; lia).
  destruct (decide (l1 = [])) as [->|Hn1].
  { destruct H1 as [-> ->]. unfold takesBudget. simpl.
    replace (w_Micros o =? 0) with false by (symmetry; apply Z.eqb_neq; lia). done. }
  pose proof (strictest_nonzero _ _ _ Hp1 Hn1 H1) as Hz1.
  assert (∀ lim hard, strictest (l1 ++ l2) lim hard ↔
    (lim, hard) ∈ l1 ++ l2 ∧ hard = (existsb snd l1 || existsb snd l2)%bool
    ∧ ∀ x, (x, hard) ∈ l1 ++ l2 → lim <= x) as Hs.
  { intros. rewrite <- existsb_app. by destruct l1. }
  rewrite Hs. unfold strictest in H1, H2. destruct l1 as [|x1 l1']; [done|].
  destruct l2 as [|x2 l2']; [done|].
  set (l1 := x1 :: l1') in *. set (l2 := x2 :: l2') in *.
  destruct H1 as (I1 & E1 & M1), H2 as (I2 & E2 & M2). rewrite <- E1, <- E2.
  clearbody l1 l2.
  unfold takesBudget.
  replace (w_Micros o =? 0) with false by (symmetry; apply Z.eqb_neq; lia).
  replace (w_Micros w =? 0) with false by (symmetry; apply Z.eqb_neq; lia). simpl.
  setoid_rewrite elem_of_app.
  assert (∀ (l : list (Z * bool)) (x : Z), existsb snd l = false → (x, true) ∉ l) as Hno.
  { intros l x He Hin. apply (existsb_elem snd) in Hin; [congruence|done]. }
  destruct (w_Hard w) eqn:Ew, (w_Hard o) eqn:Eo; simpl.
  all: destruct (w_Micros o <? w_Micros w) eqn:El; simpl; bsplit; rewrite ?Ew, ?Eo; split_and!; auto.
  all: intros x [Hx|Hx]; try (apply M1 in Hx; lia); try (apply M2 in Hx; lia).
  all: exfalso; eapply Hno; [|exact Hx]; congruence.
Qed.

Lemma strictest_unique l lim hard lim' hard' :
  strictest l lim hard → strictest l lim' hard' → lim = lim' ∧ hard = hard'.
Proof.
  destruct l as [|x l]; [intros [-> ->] [-> ->]; done|].
  intros (I & E & M) (I' & E' & M'). assert (hard = hard') as <- by congruence.
  split; [|done]. apply M in I'. apply M' in I. lia.
Qed.

(** ** The budgets a subject's policies declare *)

#[local] Arguments IsRoutingOnlyBudget : simpl never.

(** The admission budget a rule of [p] declares for a window: routing-only and
    unlimited budgets declare none. *)
Definition admission (p : Policy) (day : bool) (r : Rule) : option (Z * bool) :=
  match r_Budget r with
  | Some b =>
      if (IsRoutingOnlyBudget (Some p) (r_Name r) || b_Unlimited b || negb (Bool.eqb (is_day b) day))%bool
      then None else Some (b_LimitMicroUSD b, b_HardCap b)
  | None => None
  end.

Definition user_admission (day : bool) (r : Rule) : option (Z * bool) :=
  match r_Budget r with
  | Some b => if (b_Unlimited b || negb (Bool.eqb (is_day b) day))%bool
              then None else Some (b_LimitMicroUSD b, b_HardCap b)
  | None => None
  end.

Definition policy_budgets (p : Policy) (day : bool) : list (Z * bool) :=
  omap (admission p day) (p_Rules p).

Definition team_budgets (ps : list Policy) (team : string) (day : bool) : list (Z * bool) :=
  mjoin ((λ p, policy_budgets p day) <$> filter (λ p, team_subject p = true ∧ Team (p_Subject p) = team) ps).

Definition user_budgets (ps : list Policy) (k : Subject) (day : bool) : list (Z * bool) :=
  mjoin ((λ p, omap (user_admission day) (p_Rules p)) <$>
         filter (λ p, User (p_Subject p) ≠ "" ∧ p_Subject p = k) ps).

Definition team_window (day : bool) (tl : TeamLimits) : BudgetWindow :=
  if day then tl_Day tl else tl_Month tl.
Definition user_window (day : bool) (ul : UserLimits) : BudgetWindow :=
  if day then ul_Day ul else ul_Month ul.

Definition binds (l : list (Z * bool)) (w : BudgetWindow) : Prop :=
  strictest l (w_Micros w) (w_Hard w).

Lemma binds_nil : binds [] no_window.
Proof. done. Qed.

Lemma positive_app l1 l2 : positive (l1 ++ l2) ↔ positive l1 ∧ positive l2.
Proof. apply Forall_app. Qed.

Definition budgets_positive (rs : list Rule) : Prop :=
  Forall (λ r, ∀ b, r_Budget r = Some b → b_Unlimited b = false → 0 < b_LimitMicroUSD b) rs.

Lemma wf_budgets_positive p : policy_wf p → budgets_positive (p_Rules p).
Proof.
  intros [_ _ _ Hr]. apply Forall_forall. intros r Hin b Hb Hu.
  destruct (rw_budget _ _ (Hr r Hin) b Hb) as [_ Hw]. rewrite Hu in Hw. lia.
Qed.

Lemma omap_positive (f : Rule → option (Z * bool)) rs :
  budgets_positive rs →
  (∀ r x, f r = Some x → ∃ b, r_Budget r = Some b ∧ b_Unlimited b = false ∧ x.1 = b_LimitMicroUSD b) →
  positive (omap f rs).
Proof.
  intros Hp Hf. apply Forall_forall. intros x Hx. apply list_elem_of_omap in Hx as (r & Hr & Hx).
  apply Hf in Hx as (b & Hb & Hu & ->). unfold budgets_positive in Hp. rewrite Forall_forall in Hp. eauto.
Qed.

Lemma admission_Some p day r x :
  admission p day r = Some x →
  ∃ b, r_Budget r = Some b ∧ b_Unlimited b = false ∧ x.1 = b_LimitMicroUSD b.
Proof.
  unfold admission. destruct (r_Budget r) as [b|]; [|done]. case_match eqn:E; [done|].
  intros [= <-]. bsplit. by exists b.
Qed.

Lemma user_admission_Some day r x :
  user_admission day r = Some x →
  ∃ b, r_Budget r = Some b ∧ b_Unlimited b = false ∧ x.1 = b_LimitMicroUSD b.
Proof.
  unfold user_admission. destruct (r_Budget r) as [b|]; [|done]. case_match eqn:E; [done|].
  intros [= <-]. bsplit. by exists b.
Qed.

Lemma binds_snoc l w b ref :
  positive l → 0 < b_LimitMicroUSD b → binds l w →
  binds (l ++ [(b_LimitMicroUSD b, b_HardCap b)]) (merge_window w (budget_window b ref)).
Proof.
  intros Hp Hb Hw. apply strictest_app; [done| |done|].
  - by repeat constructor.
  - simpl. split; [by left|]. split; [by destruct (b_HardCap b)|].
    intros x [= ->]%list_elem_of_singleton. lia.
Qed.

Lemma team_rule_binds p day r l tl c :
  (∀ b, r_Budget r = Some b → b_Unlimited b = false → 0 < b_LimitMicroUSD b) →
  positive l → binds l (team_window day tl) →
  binds (l ++ option_list (admission p day r)) (team_window day (team_rule p (tl, c) r).1).
Proof.
  intros Hb Hp Hw. unfold team_rule, admission.
  assert (∀ rt ref, team_window day (team_rate ref rt tl) = team_window day tl) as Hrate
    by (by destruct day).
  destruct (r_Budget r) as [b|]; [|by destruct (r_Rate r); simpl; rewrite app_nil_r, ?Hrate].
  set (tl' := match r_Rate r with Some rt => _ | None => _ end).
  assert (binds l (team_window day tl'.1)) as Hw' by (subst tl'; destruct (r_Rate r); simpl; by rewrite ?Hrate).
  destruct tl' as [tl1 c1]. simpl in *. clear tl c Hw Hrate.
  unfold team_budget. destruct (IsRoutingOnlyBudget _ _); simpl.
  { rewrite app_nil_r. by destruct (is_day b), day. }
  destruct (b_Unlimited b) eqn:Eu; simpl; [by rewrite app_nil_r|].
  destruct (is_day b), day; simpl; rewrite ?app_nil_r; try done; apply binds_snoc; eauto.
Qed.

Lemma team_rules_binds p day rs l acc :
  budgets_positive rs → positive l → binds l (team_window day acc.1) →
  binds (l ++ omap (admission p day) rs) (team_window day (foldl (team_rule p) acc rs).1).
Proof.
  revert l acc. induction rs as [|r rs IH]; intros l [tl c] Hb Hp Hw; simpl; [by rewrite app_nil_r|].
  inversion Hb as [|?? Hr Hrs]; subst.
  pose proof (team_rule_binds p day r l tl c Hr Hp Hw) as Hs.
  assert (positive (l ++ option_list (admission p day r))) as Hp'.
  { apply positive_app. split; [done|]. destruct (admission p day r) as [x|] eqn:E; [|constructor].
    apply admission_Some in E as (b & Hbb & Hu & Hx). repeat constructor. rewrite Hx. eauto. }
  pose proof (IH _ (team_rule p (tl, c) r) Hrs Hp' Hs) as Hf. rewrite <- app_assoc in Hf.
  by destruct (admission p day r).
Qed.

(** A policy that contributes nothing declares no budget. *)
Lemma team_rules_contributed p day rs acc :
  (foldl (team_rule p) acc rs).2 = false → acc.2 = false ∧ omap (admission p day) rs = [].
Proof.
  revert acc. induction rs as [|r rs IH]; intros [tl c]; simpl; [done|].
  intros H. apply IH in H as [Hc Ho]. unfold team_rule, admission in *.
  destruct (r_Rate r), (r_Budget r); simpl in *; try done.
Qed.

Lemma team_budgets_snoc ps p t day :
  team_budgets (ps ++ [p]) t day =
  team_budgets ps t day ++
  (if (team_subject p && bool_decide (Team (p_Subject p) = t))%bool then policy_budgets p day else []).
Proof.
  unfold team_budgets. rewrite filter_app, fmap_app, join_app. f_equal.
  rewrite filter_cons, filter_nil. case_decide as Hd.
  - destruct Hd as [-> ->]. rewrite bool_decide_true by done. apply app_nil_r.
  - simpl. case_match eqn:E; [|done]. bsplit. by destruct Hd.
Qed.

Lemma team_budgets_positive ps t day : Forall policy_wf ps → positive (team_budgets ps t day).
Proof.
  intros Hps. apply Forall_forall. intros x Hx. unfold team_budgets in Hx.
  apply list_elem_of_join in Hx as (l & Hx & Hl). apply list_elem_of_fmap in Hl as (p & -> & Hp).
  apply list_elem_of_filter in Hp as [_ Hp]. rewrite Forall_forall in Hps.
  pose proof (omap_positive (admission p day) (p_Rules p) (wf_budgets_positive _ (Hps _ Hp))
                (admission_Some p day)) as Hpos.
  unfold positive in Hpos. rewrite Forall_forall in Hpos. by apply Hpos.
Qed.

(** A team's merged limits bind, in each window, the strictest budget any of
    its policies declares: a hard cap if one exists, the smallest of its kind; no
    soft budget, unlimited declaration or routing-only threshold ever narrows,
    widens or deletes it, and the order of policies and rules is irrelevant. *)
Theorem mergeTeamLimits_strictest ps team day :
  Forall policy_wf ps →
  binds (team_budgets ps team day)
    (from_option (team_window day) no_window (mergeTeamLimits ps !! team)).
Proof.
  unfold mergeTeamLimits. induction ps as [|p ps IH] using rev_ind; intros Hps; [done|].
  apply Forall_app in Hps as [Hps Hp]. rewrite Forall_singleton in Hp. specialize (IH Hps).
  rewrite foldl_app. simpl. rewrite team_budgets_snoc.
  set (out := foldl merge_team_policy ∅ ps) in *. unfold merge_team_policy at 1.
  destruct (team_subject p) eqn:Es; simpl; [|by rewrite app_nil_r].
  set (acc := match out !! Team (p_Subject p) with Some tl => (tl, true) | None => (no_team_limits, false) end).
  destruct (foldl (team_rule p) acc (p_Rules p)) as [tl c] eqn:Ef.
  case_bool_decide as Ht; [subst team|].
  - destruct c.
    + rewrite lookup_insert_eq. simpl.
      assert (tl = (foldl (team_rule p) acc (p_Rules p)).1) as -> by by rewrite Ef.
      apply team_rules_binds; [by apply wf_budgets_positive|by apply team_budgets_positive|].
      subst acc. by destruct (out !! Team (p_Subject p)), day.
    + pose proof (team_rules_contributed p day (p_Rules p) acc) as Hc. rewrite Ef in Hc.
      destruct (Hc eq_refl) as [_ Ho]. unfold policy_budgets. by rewrite Ho, app_nil_r.
  - rewrite app_nil_r. destruct c; [|done]. by rewrite lookup_insert_ne.
Qed.

(** ** The same for users, across both matching subjects *)

Lemma user_rule_binds p day r l ul c :
  (∀ b, r_Budget r = Some b → b_Unlimited b = false → 0 < b_LimitMicroUSD b) →
  positive l → binds l (user_window day ul) →
  binds (l ++ option_list (user_admission day r)) (user_window day (user_rule p (ul, c) r).1).
Proof.
  intros Hb Hp Hw. unfold user_rule, user_admission.
  destruct (r_Budget r) as [b|]; [|by rewrite app_nil_r].
  destruct (b_Unlimited b) eqn:Eu; simpl; [by rewrite app_nil_r|].
  assert (binds (l ++ []) (merge_window (user_window day ul) no_window)) as Hno.
  { apply strictest_app; [done|constructor|done|done]. }
  unfold narrow, userLimitsFromBudget.
  destruct (is_day b), day; simpl; try exact Hno; apply binds_snoc; eauto.
Qed.

Lemma user_rules_binds p day rs l acc :
  budgets_positive rs → positive l → binds l (user_window day acc.1) →
  binds (l ++ omap (user_admission day) rs) (user_window day (foldl (user_rule p) acc rs).1).
Proof.
  revert l acc. induction rs as [|r rs IH]; intros l [ul c] Hb Hp Hw; simpl; [by rewrite app_nil_r|].
  inversion Hb as [|?? Hr Hrs]; subst.
  pose proof (user_rule_binds p day r l ul c Hr Hp Hw) as Hs.
  assert (positive (l ++ option_list (user_admission day r))) as Hp'.
  { apply positive_app. split; [done|]. destruct (user_admission day r) as [x|] eqn:E; [|constructor].
    apply user_admission_Some in E as (b & Hbb & Hu & Hx). repeat constructor. rewrite Hx. eauto. }
  pose proof (IH _ (user_rule p (ul, c) r) Hrs Hp' Hs) as Hf. rewrite <- app_assoc in Hf.
  by destruct (user_admission day r).
Qed.

Lemma user_rules_contributed p day rs acc :
  (foldl (user_rule p) acc rs).2 = false → acc.2 = false ∧ omap (user_admission day) rs = [].
Proof.
  revert acc. induction rs as [|r rs IH]; intros [ul c]; simpl; [done|].
  intros H. apply IH in H as [Hc Ho]. unfold user_rule, user_admission in *.
  destruct (r_Budget r) as [b|]; simpl in *; [|done]. by destruct (b_Unlimited b).
Qed.

Lemma user_budgets_snoc ps p k day :
  user_budgets (ps ++ [p]) k day =
  user_budgets ps k day ++
  (if (negb (bool_decide (User (p_Subject p) = "")) && bool_decide (p_Subject p = k))%bool
   then omap (user_admission day) (p_Rules p) else []).
Proof.
  unfold user_budgets. rewrite filter_app, fmap_app, join_app. f_equal.
  rewrite filter_cons, filter_nil. case_decide as Hd.
  - destruct Hd as [Hu <-]. rewrite bool_decide_false, bool_decide_true by done. apply app_nil_r.
  - simpl. case_match eqn:E; [|done]. bsplit. by destruct Hd.
Qed.

Lemma user_budgets_positive ps k day : Forall policy_wf ps → positive (user_budgets ps k day).
Proof.
  intros Hps. apply Forall_forall. intros x Hx. unfold user_budgets in Hx.
  apply list_elem_of_join in Hx as (l & Hx & Hl). apply list_elem_of_fmap in Hl as (p & -> & Hp).
  apply list_elem_of_filter in Hp as [_ Hp]. rewrite Forall_forall in Hps.
  pose proof (omap_positive (user_admission day) (p_Rules p) (wf_budgets_positive _ (Hps _ Hp))
                (user_admission_Some day)) as Hpos.
  unfold positive in Hpos. rewrite Forall_forall in Hpos. by apply Hpos.
Qed.

Lemma mergeUserLimits_binds ps k day :
  Forall policy_wf ps →
  binds (user_budgets ps k day) (from_option (user_window day) no_window (mergeUserLimits ps !! k)).
Proof.
  unfold mergeUserLimits. induction ps as [|p ps IH] using rev_ind; intros Hps; [done|].
  apply Forall_app in Hps as [Hps Hp]. rewrite Forall_singleton in Hp. specialize (IH Hps).
  rewrite foldl_app. simpl. rewrite user_budgets_snoc.
  set (out := foldl merge_user_policy ∅ ps) in *. unfold merge_user_policy at 1.
  destruct (bool_decide (User (p_Subject p) = "")) eqn:Es; simpl; [by rewrite app_nil_r|].
  set (acc := match out !! p_Subject p with Some ul => (ul, true) | None => (no_user_limits, false) end).
  destruct (foldl (user_rule p) acc (p_Rules p)) as [ul c] eqn:Ef.
  destruct (decide (p_Subject p = k)) as [<-|Ht];
    [rewrite (bool_decide_true (p_Subject p = p_Subject p)) by done
    |rewrite (bool_decide_false (p_Subject p = k)) by done].
  - destruct c.
    + rewrite lookup_insert_eq. simpl.
      assert (ul = (foldl (user_rule p) acc (p_Rules p)).1) as -> by by rewrite Ef.
      apply user_rules_binds; [by apply wf_budgets_positive|by apply user_budgets_positive|].
      subst acc. by destruct (out !! p_Subject p), day.
    + pose proof (user_rules_contributed p day (p_Rules p) acc) as Hc. rewrite Ef in Hc.
      destruct (Hc eq_refl) as [_ Ho]. by rewrite Ho, app_nil_r.
  - rewrite app_nil_r. destruct c; [|done]. by rewrite lookup_insert_ne.
Qed.

(** A user's limits bind, in each window, the strictest budget over both
    subjects that match: this user in this team, and this user anywhere.  A policy
    that speaks of one window only never deletes the other window's cap. *)
Theorem UserLimits_strictest s team user day :
  Forall policy_wf (policies (snapshot_of s)) →
  users (snapshot_of s) = mergeUserLimits (policies (snapshot_of s)) → user ≠ "" →
  binds (user_budgets (policies (snapshot_of s)) {| Team := team; User := user |} day
         ++ user_budgets (policies (snapshot_of s)) {| Team := ""; User := user |} day)
    (from_option (user_window day) no_window (Store_UserLimits s team user)).
Proof.
  intros Hps Hu Hne. unfold Store_UserLimits. rewrite bool_decide_false by done. rewrite Hu.
  set (ps := policies (snapshot_of s)) in *.
  pose proof (mergeUserLimits_binds ps {| Team := team; User := user |} day Hps) as B1.
  pose proof (mergeUserLimits_binds ps {| Team := ""; User := user |} day Hps) as B2.
  pose proof (user_budgets_positive ps {| Team := team; User := user |} day Hps) as P1.
  pose proof (user_budgets_positive ps {| Team := ""; User := user |} day Hps) as P2.
  pose proof (strictest_app _ _ _ _ P1 P2 B1 B2) as Happ.
  assert (∀ l w, positive l → binds l w → l ≠ [] → w_Micros w ≠ 0) as Hnz.
  { intros l w Hl Hb Hn. pose proof (strictest_nonzero _ _ _ Hl Hn Hb). lia. }
  destruct (mergeUserLimits ps !! {| Team := team; User := user |}) as [u1|],
    (mergeUserLimits ps !! {| Team := ""; User := user |}) as [u2|]; simpl in *.
  - by destruct day.
  - destruct (user_budgets ps {| Team := ""; User := user |} day) eqn:E; [by rewrite app_nil_r|].
    exfalso. by eapply (Hnz _ _ P2 B2).
  - destruct (user_budgets ps {| Team := team; User := user |} day) eqn:E; [done|].
    exfalso. by eapply (Hnz _ _ P1 B1).
  - exact Happ.
Qed.

(** ** Distribution: what [ApplyWire] guarantees *)

Section distribution.
Context (range : gmap string string → list (string * string)).
Context (range_perm : ∀ m, range m ≡ₚ map_to_list m).
Context (GenerationOf : list v1alpha1.GovernancePolicy → string).
Context (CanonicalRef : ID → string).
Context (Validate : Config → bool).

Abbreviation ApplyWire := (ApplyWire range GenerationOf CanonicalRef Validate).
Abbreviation accept := (accept range).

Definition wire_mandatory (d : v1alpha1.GovernancePolicy) : bool :=
  existsb mandatory_wire_rule (v1alpha1.sp_Rules (v1alpha1.Spec d)).

Lemma routing_strict doc wr wrt rt :
  routingFromV1Alpha1 range doc wr wrt = Ok rt →
  (match v1alpha1.ro_BudgetTiers wrt with Some bt => v1alpha1.btr_EnforceTargets bt | None => false end)
  = (match ro_BudgetTiers rt with Some bt => EnforceTargets bt | None => false end).
Proof.
  unfold routingFromV1Alpha1. destruct (bool_decide _), (v1alpha1.ro_BudgetTiers wrt) as [bt|],
    (v1alpha1.ro_Context wrt); try done; intros H; inv_ok; try done.
  unfold budgetTiersFromV1Alpha1 in E. do 2 (apply guard_Ok in E as [_ E]).
  destruct (find_rule doc _ ≫= v1alpha1.Budget); inv_ok; done.
Qed.

Lemma mandatory_converted doc wr r :
  kind_conv range doc wr r → mandatory_wire_rule wr = mandatory_rule r.
Proof.
  intros H. unfold mandatory_wire_rule, mandatory_rule.
  rewrite (converted_set _ _ _ (kc_quota _ _ _ _ H)), (converted_set _ _ _ (kc_sensitive _ _ _ _ H)).
  f_equal. pose proof (kc_routing _ _ _ _ H) as Hr.
  destruct (v1alpha1.Routing wr), (r_Routing r); try done. by apply routing_strict in Hr.
Qed.

(** An accepted document keeps its name, its subject and its obligations. *)
Lemma accept_spec s d p :
  accept s d = Ok p →
  policy_wf p ∧ p_Name p = doc_name d ∧ p_Subject p = doc_subject d
  ∧ hasMandatoryRouting p = wire_mandatory d
  ∧ checkEnforceable range p (routedAndPriced s) (observabilityCeiling s) (sharedEnforcement s) = Ok tt.
Proof.
  unfold accept, PolicyStore.accept. intros H. inv_ok. destruct a0.
  pose proof (FromV1Alpha1_wf range range_perm d p E) as Hw.
  pose proof (FromV1Alpha1_rules range d p E) as Hr.
  split; [done|]. unfold FromV1Alpha1 in E. do 5 (apply guard_Ok in E as [_ E]).
  apply bind_Ok in E as (rs & _ & E). injection E as <-. simpl in *.
  split; [done|]. split; [done|]. split; [|done].
  unfold hasMandatoryRouting, wire_mandatory. simpl. clear Hw E0.
  induction Hr as [|wr r wrs rs' Hc Hr IH]; [done|]. simpl.
  by rewrite IH, (mandatory_converted _ _ _ Hc).
Qed.

(** [sub] is remembered under [name]. *)
Definition owed (m : gmap string (list Subject)) (name : string) (sub : Subject) : Prop :=
  sub ∈ default [] (m !! name).

Lemma add_subject_elem l x sub : sub ∈ add_subject l x ↔ sub ∈ l ∨ sub = x.
Proof.
  unfold add_subject. destruct (contains x l) eqn:E.
  - apply contains_spec in E. naive_solver.
  - by rewrite elem_of_app, list_elem_of_singleton.
Qed.

Lemma foldl_add_subject l xs sub : sub ∈ foldl add_subject l xs ↔ sub ∈ l ∨ sub ∈ xs.
Proof.
  revert l. induction xs as [|x xs IH]; intros l; simpl; [rewrite elem_of_nil; tauto|].
  rewrite IH, add_subject_elem, elem_of_cons. tauto.
Qed.

Lemma mandatory_subjects_elem name ps sub :
  sub ∈ mandatory_subjects name ps ↔
  ∃ p, p ∈ ps ∧ p_Name p = name ∧ hasMandatoryRouting p = true ∧ p_Subject p = sub.
Proof.
  unfold mandatory_subjects. rewrite list_elem_of_fmap. setoid_rewrite list_elem_of_filter.
  naive_solver.
Qed.

(** What one rejection adds: the document's own subject if it holds an
    obligation, and those of the policies in force or accepted under its name. *)
Lemma remember_spec prev acc pend d name sub :
  owed (rememberRejection prev acc pend d) name sub ↔
  owed pend name sub ∨
  name = doc_name d ∧
  ((wire_mandatory d = true ∧ sub = doc_subject d)
   ∨ sub ∈ mandatory_subjects name (from_option policies [] prev)
   ∨ sub ∈ mandatory_subjects name acc).
Proof.
  unfold rememberRejection. set (n := doc_name d).
  set (l1 := if existsb _ _ then _ else _).
  set (l3 := foldl add_subject (foldl add_subject l1 _) _).
  assert (∀ x, x ∈ l3 ↔ owed pend n x ∨ (wire_mandatory d = true ∧ x = doc_subject d)
    ∨ x ∈ mandatory_subjects n (from_option policies [] prev) ∨ x ∈ mandatory_subjects n acc) as Hl.
  { intros x. subst l3. rewrite !foldl_add_subject.
    assert (x ∈ l1 ↔ owed pend n x ∨ (wire_mandatory d = true ∧ x = doc_subject d)) as ->; [|tauto].
    subst l1. fold (wire_mandatory d). destruct (wire_mandatory d).
    - rewrite add_subject_elem. unfold owed. tauto.
    - unfold owed. split; [by left|]. intros [?|[? _]]; done. }
  clearbody l3. unfold owed at 1. case_bool_decide as Hnil.
  - fold (owed pend name sub). subst l3. split; [by left|]. intros [?|[-> H]]; [done|].
    exfalso. apply (not_elem_of_nil sub), Hl. tauto.
  - destruct (decide (name = n)) as [->|Hne].
    + rewrite lookup_insert_eq. simpl. rewrite Hl. tauto.
    + rewrite lookup_insert_ne by done. fold (owed pend name sub). tauto.
Qed.

(** The only correction: the one document of that name, accepted. *)
Definition corrected (s : Store) (docs : list v1alpha1.GovernancePolicy) (name : string) : Prop :=
  name ≠ "" ∧ ∃ d p, docs = [d] ∧ doc_name d = name ∧ accept s d = Ok p.

Definition named (docs : list v1alpha1.GovernancePolicy) (name : string) : list v1alpha1.GovernancePolicy :=
  filter (λ d, doc_name d = name) docs.

Definition start (s : Store) : apply_acc :=
  {| accepted := []; rejected := []; seen := [];
     pending := from_option rejectedRouting ∅ (snap s) |}.

Definition previous (s : Store) : list Policy := from_option policies [] (snap s).

(** The state after the documents [dn], the first part of [docs]. *)
Record progress (s : Store) (docs dn : list v1alpha1.GovernancePolicy) (a : apply_acc) : Prop := {
  pg_seen n : n ∈ seen a ↔ n ≠ "" ∧ named dn n ≠ [];
  pg_kept name sub : owed (from_option rejectedRouting ∅ (snap s)) name sub →
    ¬ corrected s (named docs name) name → owed (pending a) name sub;
  pg_wire d : d ∈ dn → wire_mandatory d = true → ¬ corrected s (named docs (doc_name d)) (doc_name d) →
    owed (pending a) (doc_name d) (doc_subject d)
    ∨ (named dn (doc_name d) = [d] ∧ named docs (doc_name d) ≠ [d]
       ∧ doc_subject d ∈ mandatory_subjects (doc_name d) (accepted a));
  pg_prev p d : p ∈ previous s → hasMandatoryRouting p = true → d ∈ dn → doc_name d = p_Name p →
    ¬ corrected s (named docs (doc_name d)) (doc_name d) →
    owed (pending a) (p_Name p) (p_Subject p)
    ∨ (named dn (doc_name d) = [d] ∧ named docs (doc_name d) ≠ [d]);
  pg_blank : rejected a = [] → named dn "" = []
}.

Lemma named_snoc dn d name :
  named (dn ++ [d]) name = named dn name ++ (if decide (doc_name d = name) then [d] else []).
Proof. unfold named. by rewrite filter_app, filter_cons, filter_nil. Qed.

Lemma named_elem docs name d : d ∈ named docs name ↔ doc_name d = name ∧ d ∈ docs.
Proof. unfold named. by rewrite list_elem_of_filter. Qed.

(** A document refused: its name is empty, already seen, or it was not accepted. *)
Lemma progress_reject s docs dn d rest a a' :
  docs = dn ++ d :: rest → progress s docs dn a →
  (doc_name d = "" ∨ doc_name d ∈ seen a ∨ ∃ e, accept s d = Err e) →
  (∀ n, n ∈ seen a' ↔ n ∈ seen a ∨ (n = doc_name d ∧ n ≠ "")) →
  accepted a' = accepted a → rejected a' ≠ [] →
  pending a' = rememberRejection (snap s) (accepted a) (pending a) d →
  progress s docs (dn ++ [d]) a'.
Proof.
  intros Hd [P1 P2 P3 P4 P5] Hwhy Hseen Hacc Hrej Hpend. split.
  - intros n. rewrite Hseen, P1, named_snoc. case_decide as Hn.
    + split; [|intros [? _]; by right]. intros [[? _]|[_ ?]]; (split; [done|]); by destruct (named dn n).
    + rewrite app_nil_r. split; [|by left]. intros [?|[-> ?]]; done.
  - intros name sub Ho Hc. rewrite Hpend. apply remember_spec. left. by apply P2.
  - intros x Hx Hm Hc. rewrite Hpend, Hacc.
    apply elem_of_app in Hx as [Hx|Hx%list_elem_of_singleton].
    + destruct (P3 x Hx Hm Hc) as [Ho|(Hn1 & Hn2 & Hs)].
      * left. apply remember_spec. by left.
      * destruct (decide (doc_name d = doc_name x)) as [He|He].
        -- left. apply remember_spec. right. split; [done|]. by right; right.
        -- right. rewrite named_snoc, decide_False, app_nil_r by done. done.
    + subst x. left. apply remember_spec. right. split; [done|]. left. done.
  - intros p x Hp Hm Hx Hn Hc. rewrite Hpend.
    apply elem_of_app in Hx as [Hx|Hx%list_elem_of_singleton].
    + destruct (P4 p x Hp Hm Hx Hn Hc) as [Ho|[Hn1 Hn2]].
      * left. apply remember_spec. by left.
      * destruct (decide (doc_name d = doc_name x)) as [He|He].
        -- left. apply remember_spec. right. split; [congruence|]. right. left.
           apply mandatory_subjects_elem. exists p. done.
        -- right. rewrite named_snoc, decide_False, app_nil_r by done. done.
    + subst x. left. apply remember_spec. right. split; [done|]. right. left.
      apply mandatory_subjects_elem. exists p. done.
  - done.
Qed.

Lemma progress_accept s docs dn d rest a p :
  docs = dn ++ d :: rest → progress s docs dn a →
  doc_name d ≠ "" → doc_name d ∉ seen a → accept s d = Ok p →
  progress s docs (dn ++ [d])
    {| accepted := accepted a ++ [p]; rejected := rejected a; seen := doc_name d :: seen a;
       pending := if Nat.eqb (name_count docs (doc_name d)) 1 then delete (doc_name d) (pending a)
                  else pending a |}.
Proof.
  intros Hd [P1 P2 P3 P4 P5] Hne Hns Hok.
  destruct (accept_spec _ _ _ Hok) as (_ & Hpn & Hps & Hpm & _).
  assert (named dn (doc_name d) = []) as Hfresh.
  { destruct (named dn (doc_name d)) eqn:E; [done|]. exfalso. apply Hns, P1. by rewrite E. }
  assert (named docs (doc_name d) = d :: named rest (doc_name d)) as Hnd.
  { unfold named in *. rewrite Hd, filter_app, Hfresh, filter_cons, decide_True by done. done. }
  assert (∀ name sub, ¬ corrected s (named docs name) name → owed (pending a) name sub →
    owed (if Nat.eqb (name_count docs (doc_name d)) 1 then delete (doc_name d) (pending a)
          else pending a) name sub) as Hkeep.
  { intros name sub Hc Ho. destruct (Nat.eqb _ 1) eqn:E; [|done]. apply Nat.eqb_eq in E.
    unfold owed. destruct (decide (name = doc_name d)) as [->|Hn]; [|by rewrite lookup_delete_ne].
    exfalso. apply Hc. split; [done|]. exists d, p. split; [|done].
    change (length (named docs (doc_name d)) = 1%nat) in E. rewrite Hnd in *.
    by destruct (named rest (doc_name d)). }
  assert (∀ x, ¬ corrected s (named docs (doc_name d)) (doc_name d) → x = d →
            named (dn ++ [d]) (doc_name x) = [x] ∧ named docs (doc_name x) ≠ [x]) as Hself.
  { intros x Hc ->. rewrite named_snoc, Hfresh, decide_True by done. split; [done|].
    intros He. apply Hc. split; [done|]. exists d, p. done. }
  split; cbn [seen accepted pending rejected].
  - intros n. rewrite elem_of_cons, P1, named_snoc. case_decide as Hn.
    + subst n. rewrite Hfresh. simpl. split; [done|by left].
    + rewrite app_nil_r. split; [|by right]. intros [->|?]; done.
  - intros name sub Ho Hc. apply Hkeep; [done|]. by apply P2.
  - intros x Hx Hm Hc. apply elem_of_app in Hx as [Hx|Hx%list_elem_of_singleton].
    + destruct (P3 x Hx Hm Hc) as [Ho|(Hn1 & Hn2 & Hs)]; [left; by apply Hkeep|].
      right. rewrite named_snoc. case_decide as He.
      * rewrite <- He, Hfresh in Hn1. done.
      * rewrite app_nil_r. split; [done|]. split; [done|].
        apply mandatory_subjects_elem in Hs as (q & Hq & ?). apply mandatory_subjects_elem.
        exists q. by rewrite elem_of_app; auto.
    + right. subst x. destruct (Hself d Hc eq_refl) as [? ?]. split; [done|]. split; [done|].
      apply mandatory_subjects_elem. exists p. rewrite elem_of_app, list_elem_of_singleton.
      rewrite Hpm. auto.
  - intros q x Hq Hm Hx Hn Hc. apply elem_of_app in Hx as [Hx|Hx%list_elem_of_singleton].
    + destruct (P4 q x Hq Hm Hx Hn Hc) as [Ho|[Hn1 Hn2]]; [left; apply Hkeep; [by rewrite <- Hn|done]|].
      right. rewrite named_snoc. case_decide as He.
      * rewrite <- He, Hfresh in Hn1. done.
      * by rewrite app_nil_r.
    + right. subst x. by apply Hself.
  - intros Hr. rewrite named_snoc, decide_False by done. rewrite app_nil_r. by apply P5.
Qed.

Lemma progress_step s docs dn d rest a :
  docs = dn ++ d :: rest → progress s docs dn a →
  progress s docs (dn ++ [d]) (apply_doc range s docs a d).
Proof.
  intros Hd Hp. unfold apply_doc.
  destruct (bool_decide (doc_name d = "") || contains (doc_name d) (seen a))%bool eqn:E.
  { eapply progress_reject; [done|done| |..]; simpl.
    - apply orb_true_iff in E as [E|E]; bsplit; [by left|]. right; left. by apply contains_spec.
    - intros n. split; [by left|]. intros [?|[-> Hne]]; [done|].
      apply orb_true_iff in E as [E|E]; bsplit; [done|]. by apply contains_spec.
    - done.
    - by destruct (rejected a).
    - done. }
  bsplit. apply contains_false in H0.
  destruct (accept s d) as [p|e] eqn:Ea.
  - by eapply progress_accept.
  - eapply progress_reject; [done|done| |..]; simpl.
    + right; right. by exists e.
    + intros n. rewrite elem_of_cons. naive_solver.
    + done.
    + by destruct (rejected a).
    + done.
Qed.

Lemma progress_loop s docs : progress s docs docs (apply_loop range s docs).
Proof.
  assert (∀ rest dn a, docs = dn ++ rest → progress s docs dn a →
    progress s docs docs (foldl (apply_doc range s docs) a rest)) as H.
  { intros rest. induction rest as [|d rest IH]; intros dn a Hd Hp; simpl.
    - by rewrite app_nil_r in Hd; subst.
    - eapply (IH (dn ++ [d])); [by rewrite <- app_assoc|]. by eapply progress_step. }
  unfold apply_loop. apply (H docs []); [done|]. split; simpl; try done.
  - intros n. rewrite elem_of_nil. unfold named. rewrite filter_nil. naive_solver.
  - intros d Hd. by apply elem_of_nil in Hd.
  - intros p d _ _ Hd. by apply elem_of_nil in Hd.
Qed.

(** The obligations a distribution leaves standing: of a document it holds, of a
    policy in force a document of its name replaces, and those still pending. *)
Inductive obliged (s : Store) (docs : list v1alpha1.GovernancePolicy) : string → Subject → Prop :=
| ob_wire d : d ∈ docs → wire_mandatory d = true → obliged s docs (doc_name d) (doc_subject d)
| ob_prev p d : p ∈ previous s → hasMandatoryRouting p = true → d ∈ docs →
    doc_name d = p_Name p → obliged s docs (p_Name p) (p_Subject p)
| ob_kept name sub : owed (from_option rejectedRouting ∅ (snap s)) name sub → name ≠ "" →
    obliged s docs name sub.

Lemma owed_gated sn name sub team user :
  owed (rejectedRouting sn) name sub → matches sub team user = true → gated sn team user = true.
Proof.
  unfold owed, gated. intros Ho Hm. destruct (rejectedRouting sn !! name) as [l|] eqn:El;
    simpl in Ho; [|by apply elem_of_nil in Ho].
  apply (existsb_elem _ _ (name, l)); [by apply elem_of_map_to_list|]. simpl.
  by apply (existsb_elem _ _ sub).
Qed.

Lemma apply_gates s docs rej s' name sub team user :
  required s = false → ApplyWire docs s = (rej, s') →
  obliged s docs name sub → ¬ corrected s (named docs name) name → matches sub team user = true →
  MatchingRoutingPolicies s' team user = Err ErrRoutingPolicyRejected.
Proof.
  intros Hreq Ha Hob Hc Hm. unfold PolicyStore.ApplyWire in Ha.
  assert (ValidateIdentitySubjects CanonicalRef Validate docs (identityConfig s) = Ok tt) as Hid.
  { unfold ValidateIdentitySubjects, required in *. destruct (identityConfig s) as [c|]; [|done].
    simpl in Hreq. by rewrite Hreq. }
  rewrite Hid, Hreq in Ha. cbn [andb] in Ha.
  pose proof (progress_loop s docs) as [_ P2 P3 P4 P5].
  set (a := apply_loop range s docs) in *. injection Ha as <- <-.
  assert (owed (pending a) name sub) as Ho.
  { destruct Hob as [d Hd Hw|p d Hp Hmand Hd Hn|n x Hk Hn].
    - destruct (P3 d Hd Hw Hc) as [?|(Hn1 & Hn2 & _)]; done.
    - rewrite <- Hn in Hc. destruct (P4 p d Hp Hmand Hd Hn Hc) as [?|[Hn1 Hn2]]; done.
    - by apply P2. }
  unfold MatchingRoutingPolicies, RoutingSnapshot, snapshot_of. simpl.
  erewrite owed_gated; [done| |exact Hm]. simpl. instantiate (1 := name).
  case_match eqn:E; [|done]. bsplit.
  destruct (decide (name = "")) as [->|Hne]; [|unfold owed; by rewrite lookup_delete_ne].
  exfalso. specialize (P5 H).
  inversion Hob as [d Hd Hw Hnm Hs|p d Hp Hmand Hd Hn Hnm Hs|n x Hk Hn Hnm Hs]; [..|done].
  - assert (d ∈ named docs "") as Hin by by apply named_elem. rewrite P5 in Hin. by apply elem_of_nil in Hin.
  - assert (d ∈ named docs "") as Hin by (apply named_elem; split; congruence).
    rewrite P5 in Hin. by apply elem_of_nil in Hin.
Qed.

(** No refused obligation is ever silently dropped: after a distribution,
    every subject of a mandatory document it holds, of a mandatory policy one of
    its documents replaces, or of an obligation still pending, is refused routing,
    unless that name's one document in the set was accepted. *)
Theorem ApplyWire_gates s docs rej s' name sub team user :
  required s = false → ApplyWire docs s = (rej, s') →
  obliged s docs name sub → ¬ corrected s (named docs name) name → matches sub team user = true →
  MatchingRoutingPolicies s' team user = Err ErrRoutingPolicyRejected.
Proof. apply apply_gates. Qed.

(** ** The snapshot invariant *)

(** What a data plane's snapshot satisfies: every policy is well formed and
    enforceable by this build, and the merged views are those of the policies. *)
Record snapshot_wf (s : Store) (sn : snapshot) : Prop := {
  sw_policies p : p ∈ policies sn → policy_wf p ∧
    checkEnforceable range p (routedAndPriced s) (observabilityCeiling s) (sharedEnforcement s) = Ok tt;
  sw_teams : teams sn = mergeTeamLimits (policies sn);
  sw_users : users sn = mergeUserLimits (policies sn);
  sw_obs : observability sn = hasObservability (policies sn)
}.

Lemma apply_doc_accepted s docs a d p :
  p ∈ accepted (apply_doc range s docs a d) → p ∈ accepted a ∨ accept s d = Ok p.
Proof.
  unfold apply_doc. case_match; [by left|]. case_match; simpl; [|by left].
  rewrite elem_of_app, list_elem_of_singleton. intros [?| ->]; auto.
Qed.

Lemma apply_loop_accepted s docs p :
  p ∈ accepted (apply_loop range s docs) → ∃ d, d ∈ docs ∧ accept s d = Ok p.
Proof.
  unfold apply_loop.
  assert (∀ rest a, p ∈ accepted (foldl (apply_doc range s docs) a rest) →
    p ∈ accepted a ∨ ∃ d, d ∈ rest ∧ accept s d = Ok p) as H.
  { intros rest. induction rest as [|d rest IH]; intros a; simpl; [by left|].
    intros [Hp|(x & Hx & Hok)]%IH.
    - apply apply_doc_accepted in Hp as [?|?]; [by left|]. right. exists d. split; [by left|done].
    - right. exists x. split; [by right|done]. }
  intros [Hp|?]%H; [by apply elem_of_nil in Hp|done].
Qed.

(** Every snapshot a distribution installs holds only well-formed policies
    this data plane can enforce, with limits merged from exactly those; a
    distribution never changes the store's own configuration. *)
Theorem ApplyWire_snapshot_wf s docs rej s' :
  from_option (snapshot_wf s) True (snap s) → ApplyWire docs s = (rej, s') →
  from_option (snapshot_wf s') True (snap s') ∧
  routedAndPriced s' = routedAndPriced s ∧ sharedEnforcement s' = sharedEnforcement s
  ∧ observabilityCeiling s' = observabilityCeiling s ∧ identityConfig s' = identityConfig s
  ∧ paths s' = paths s.
Proof.
  intros Hw. unfold PolicyStore.ApplyWire.
  destruct (ValidateIdentitySubjects _ _ _ _); [|by intros [= _ <-]].
  destruct (if required s then strict_pass range s [] docs else None); [by intros [= _ <-]|].
  cbv zeta. destruct (required s && _)%bool; [by intros [= _ <-]|].
  intros [= _ <-]. simpl. split; [|done]. split; simpl; try done.
  intros p Hp. apply apply_loop_accepted in Hp as (d & _ & Hok).
  destruct (accept_spec _ _ _ Hok) as (? & _ & _ & _ & ?). done.
Qed.

(** ** Required identity: all or nothing *)

Lemma strict_pass_None s sn docs :
  strict_pass range s sn docs = None →
  Forall (λ d, doc_name d ≠ "" ∧ is_ok (accept s d) = true) docs ∧ NoDup (doc_name <$> docs)
  ∧ Forall (λ d, doc_name d ∉ sn) docs.
Proof.
  revert sn. induction docs as [|d docs IH]; intros sn; cbn [strict_pass].
  { intros _. split; [constructor|]. split; constructor. }
  destruct (_ || _)%bool eqn:E; [done|]. bsplit. apply contains_false in H0.
  destruct (accept s d) eqn:Ea; [|done].
  intros (Hf & Hn & Hs)%IH. split; [|split].
  - constructor; [|done]. by rewrite Ea.
  - rewrite fmap_cons. constructor; [|done]. rewrite list_elem_of_fmap. intros (x & He & Hx).
    rewrite Forall_forall in Hs. apply (Hs x Hx). rewrite <- He. by left.
  - constructor; [done|]. eapply Forall_impl; [exact Hs|]. simpl. intros x Hx ?. apply Hx. by right.
Qed.

(** A store that requires managed identities treats a distribution as one
    contract: if anything in it is refused, nothing changes (the last valid
    budgets stay in force); otherwise every document was accepted and their names
    are present and distinct. *)
Theorem ApplyWire_required_atomic s docs rej s' :
  required s = true → ApplyWire docs s = (rej, s') →
  (rej ≠ [] → s' = s) ∧
  (rej = [] → Forall (λ d, doc_name d ≠ "" ∧ is_ok (accept s d) = true) docs
              ∧ NoDup (doc_name <$> docs)).
Proof.
  intros Hreq. unfold PolicyStore.ApplyWire. rewrite Hreq.
  destruct (ValidateIdentitySubjects _ _ _ _); [|by intros [= <- <-]].
  destruct (strict_pass range s [] docs) eqn:Es; [by intros [= <- <-]|].
  apply strict_pass_None in Es as (Hf & Hn & _). cbv zeta. cbn [andb].
  destruct (bool_decide (rejected (apply_loop range s docs) = [])) eqn:E; bsplit; simpl;
    intros [= <- <-]; split; done.
Qed.
End distribution.

(** ** Model access *)

(** A model is allowed exactly when every model-access rule of every policy
    matching the subject names it (or the wildcard, or an alias that resolves to
    it); so adding policies to a store can only narrow what a subject may use. *)
Theorem ModelAllowed_spec s team user model canon :
  (ModelAllowed s team user model canon = true ↔
   ∀ p r ma, p ∈ policies (snapshot_of s) → matches (p_Subject p) team user = true →
     r ∈ p_Rules p → r_ModelAccess r = Some ma →
     ∃ a, a ∈ Allow ma ∧ (a = "*" ∨ a = model ∨ ∃ f, canon = Some f ∧ f a = model))
  ∧ ∀ s', policies (snapshot_of s') ⊆ policies (snapshot_of s) →
      ModelAllowed s team user model canon = true → ModelAllowed s' team user model canon = true.
Proof.
  assert (∀ allow, allowsModel allow model canon = true ↔
    ∃ a, a ∈ allow ∧ (a = "*" ∨ a = model ∨ ∃ f, canon = Some f ∧ f a = model)) as Ha.
  { intros allow. unfold allowsModel. rewrite existsb_exists. setoid_rewrite <- list_elem_of_In.
    setoid_rewrite orb_true_iff. setoid_rewrite orb_true_iff. setoid_rewrite bool_decide_eq_true.
    split; intros (a & Hin & H); exists a; (split; [done|]).
    - destruct H as [[?|?]|H]; [auto|auto|]. right; right. destruct canon as [f|]; [|done].
      bsplit. by exists f.
    - destruct H as [?|[?|(f & -> & H)]]; [auto|auto|]. right. by apply bool_decide_eq_true. }
  unfold ModelAllowed. split.
  - rewrite forallb_Forall, Forall_forall. split.
    + intros H p r ma Hp Hm Hr Hma. specialize (H p Hp). rewrite Hm in H. simpl in H.
      rewrite forallb_Forall, Forall_forall in H. specialize (H r Hr).
      unfold rule_allows in H. rewrite Hma in H. by apply Ha.
    + intros H p Hp. destruct (matches (p_Subject p) team user) eqn:Hm; [|done]. simpl.
      rewrite forallb_Forall, Forall_forall. intros r Hr. unfold rule_allows.
      destruct (r_ModelAccess r) as [ma|] eqn:Hma; [|done]. apply Ha. by eapply H.
  - intros s' Hsub. rewrite !forallb_Forall, !Forall_forall. intros H p Hp. by apply H, Hsub.
Qed.

(** ** Witnesses *)

Definition user_doc : v1alpha1.GovernancePolicy :=
  {| v1alpha1.gp_TypeMeta := v1alpha1.gp_TypeMeta demo_doc;
     v1alpha1.Metadata := {| v1alpha1.om_Name := "ann"; v1alpha1.om_Generation := 1 |};
     v1alpha1.Spec :=
       {| v1alpha1.sp_Subject := {| v1alpha1.sub_Team := ""; v1alpha1.sub_User := "ann" |};
          v1alpha1.sp_Rules := [
            wire_rule "m" v1alpha1.FailClosed (Some (wire_budget 900 true "" "")) None;
            wire_rule "d" v1alpha1.FailOpen
              (Some (wire_budget 30 false "" v1alpha1.PeriodCalendarDay)) None ] |} |}.

(** A strict document this build refuses: its tiers name no budget rule. *)
Definition bad_doc : v1alpha1.GovernancePolicy :=
  {| v1alpha1.gp_TypeMeta := v1alpha1.gp_TypeMeta demo_doc;
     v1alpha1.Metadata := v1alpha1.Metadata demo_doc;
     v1alpha1.Spec :=
       {| v1alpha1.sp_Subject := v1alpha1.sp_Subject (v1alpha1.Spec demo_doc);
          v1alpha1.sp_Rules := drop 2 (v1alpha1.sp_Rules (v1alpha1.Spec demo_doc)) |} |}.

Definition demo_apply : list v1alpha1.GovernancePolicy → ST Store (list Rejection) :=
  ApplyWire map_to_list (λ _, "digest") (λ _, "identity-v1:x") (λ _, true).

Definition demo_store : Store := (demo_apply [demo_doc; user_doc] NewEmptyStore).2.

Definition user_policy : Policy :=
  match FromV1Alpha1 map_to_list user_doc with Ok p => p | Err _ => no_policy end.

Lemma demo_policies_wf : Forall policy_wf [demo_policy; user_policy].
Proof.
  apply Forall_cons. split; [|apply Forall_singleton].
  - apply (FromV1Alpha1_wf map_to_list (λ m, reflexivity (map_to_list m)) demo_doc).
    vm_compute. reflexivity.
  - apply (FromV1Alpha1_wf map_to_list (λ m, reflexivity (map_to_list m)) user_doc).
    vm_compute. reflexivity.
Qed.

Lemma mergeTeamLimits_strictest_witness :
  binds (team_budgets [demo_policy; user_policy] "acme" false)
    (from_option (team_window false) no_window (mergeTeamLimits [demo_policy; user_policy] !! "acme"))
  ∧ team_budgets [demo_policy; user_policy] "acme" false = [(50000000, true)]
  ∧ tl_RoutingDay <$> mergeTeamLimits [demo_policy; user_policy] !! "acme" = Some 2000000.
Proof.
  split; [|split; vm_compute; reflexivity].
  exact (mergeTeamLimits_strictest [demo_policy; user_policy] "acme" false demo_policies_wf).
Defined.

Lemma UserLimits_strictest_witness :
  binds (user_budgets [demo_policy; user_policy] {| Team := "acme"; User := "ann" |} false
         ++ user_budgets [demo_policy; user_policy] {| Team := ""; User := "ann" |} false)
    (from_option (user_window false) no_window (Store_UserLimits demo_store "acme" "ann"))
  ∧ Store_UserLimits demo_store "acme" "" = None.
Proof.
  split; [|reflexivity].
  assert (policies (snapshot_of demo_store) = [demo_policy; user_policy]) as E
    by (vm_compute; reflexivity).
  rewrite <- E. apply (UserLimits_strictest demo_store "acme" "ann" false).
  - rewrite E. apply demo_policies_wf.
  - vm_compute. reflexivity.
  - discriminate.
Defined.

Lemma ApplyWire_gates_witness :
  MatchingRoutingPolicies (demo_apply [bad_doc] demo_store).2 "acme" "bob"
  = Err ErrRoutingPolicyRejected.
Proof.
  apply (ApplyWire_gates map_to_list (λ m, reflexivity (map_to_list m)) (λ _, "digest")
           (λ _, "identity-v1:x") (λ _, true) demo_store [bad_doc]
           (demo_apply [bad_doc] demo_store).1 (demo_apply [bad_doc] demo_store).2
           "acme" {| Team := "acme"; User := "" |} "acme" "bob").
  - reflexivity.
  - unfold demo_apply. by destruct (ApplyWire _ _ _ _ _ _).
  - apply (ob_wire demo_store [bad_doc] bad_doc); [by left|reflexivity].
  - intros (_ & d & p & [= <-] & _ & Hok). vm_compute in Hok. discriminate Hok.
  - reflexivity.
Defined.

Lemma ApplyWire_snapshot_wf_witness :
  from_option (snapshot_wf map_to_list demo_store) True (snap demo_store).
Proof.
  refine (proj1 (ApplyWire_snapshot_wf map_to_list (λ m, reflexivity (map_to_list m)) (λ _, "digest")
           (λ _, "identity-v1:x") (λ _, true) NewEmptyStore [demo_doc; user_doc]
           (demo_apply [demo_doc; user_doc] NewEmptyStore).1 demo_store _ _)).
  - split; try done. intros p Hp. by apply elem_of_nil in Hp.
  - unfold demo_store, demo_apply. by destruct (ApplyWire _ _ _ _ _ _).
Defined.

Definition required_store : Store :=
  {| paths := []; snap := snap demo_store; routedAndPriced := None; sharedEnforcement := false;
     identityConfig := Some {| cfg_Organization := "org"; Required := true; Bindings := [] |};
     observabilityCeiling := None |}.

Lemma ApplyWire_required_atomic_witness :
  (demo_apply [demo_doc; bad_doc] required_store).2 = required_store.
Proof.
  refine (proj1 (ApplyWire_required_atomic map_to_list (λ _, "digest") (λ _, "identity-v1:x")
    (λ _, true) required_store [demo_doc; bad_doc]
    (demo_apply [demo_doc; bad_doc] required_store).1
    (demo_apply [demo_doc; bad_doc] required_store).2 eq_refl _) _).
  - unfold demo_apply. by destruct (ApplyWire _ _ _ _ _ _).
  - vm_compute. discriminate.
Defined.
