(* ===== verification/Tier.v ===== *)
(** * Budget tiers (internal/tier)

    [Table] is the request-path view of the active substitution maps per subject,
    [Latch] the monotone activation state per rule and window.  The inner loops
    range over maps whose keys are independent, so they are unions of maps. *)

From S2P Require Import Prelude GoTime V1Alpha1 Policy.

(** ** Data *)

(** [policy.ActiveTier]: the tier of one rule a control plane reports active. *)
Record ActiveTier := {
  at_Policy : string; at_Rule : string; at_BudgetRef : string; at_Team : string;
  at_ThresholdPercent : Z; at_Substitute : gmap string string; at_EnforceTargets : bool;
  at_User : string
}.

Record winner := { threshold : Z; w_policy : string; w_rule : string }.
Record choice := { target : string; priority : winner }.

(** [subjectKey] is a [Subject]. *)
Record Table := {
  bySubject : gmap Subject (gmap string choice);
  strict : gmap Subject (gmap string string)
}.

Definition NewTable : Table := {| bySubject := ∅; strict := ∅ |}.

Definition no_subject : Subject := {| Team := ""; User := "" |}.

(** ** Operations *)

Definition str_lt (a b : string) : bool := String.ltb a b.

Definition higherPressure (cand cur : winner) : bool :=
  if negb (threshold cand =? threshold cur) then threshold cur <? threshold cand
  else if negb (bool_decide (w_policy cand = w_policy cur)) then str_lt (w_policy cand) (w_policy cur)
  else str_lt (w_rule cand) (w_rule cur).

Definition better (cur cand : choice) : option choice :=
  Some (if higherPressure (priority cand) (priority cur) then cand else cur).

Definition agree (old to : string) : option string :=
  Some (if bool_decide (old = to) then to else "").

Definition mergeConstraints (out restrictions : gmap string string) : gmap string string :=
  union_with agree out restrictions.

Definition key_of (a : ActiveTier) : Subject := {| Team := at_Team a; User := at_User a |}.
Definition winner_of (a : ActiveTier) : winner :=
  {| threshold := at_ThresholdPercent a; w_policy := at_Policy a; w_rule := at_Rule a |}.
Definition choices_of (a : ActiveTier) : gmap string choice :=
  (λ to, {| target := to; priority := winner_of a |}) <$> at_Substitute a.

Definition set_tier (t : Table) (a : ActiveTier) : Table :=
  let key := key_of a in
  if bool_decide (key = no_subject) then t
  else
    {| bySubject := <[key := union_with better (default ∅ (bySubject t !! key)) (choices_of a)]> (bySubject t);
       strict := if at_EnforceTargets a
                 then <[key := mergeConstraints (default ∅ (strict t !! key)) (at_Substitute a)]> (strict t)
                 else strict t |}.

(** [Set] replaces the table. *)
Definition Set_ (active : list ActiveTier) : Table := foldl set_tier NewTable active.

Definition matchingKeys (team user : string) : list Subject :=
  [{| Team := team; User := "" |}; {| Team := ""; User := user |};
   if (negb (bool_decide (team = "")) && negb (bool_decide (user = "")))%bool
   then {| Team := team; User := user |} else no_subject].

Definition merge_key {A} (f : A → A → option A) (m : gmap Subject (gmap string A))
    (out : gmap string A) (key : Subject) : gmap string A :=
  if bool_decide (key = no_subject) then out else union_with f out (default ∅ (m !! key)).

(** An empty map where the code returns [nil]. *)
Definition GetForSubject (t : Table) (team user : string) : gmap string string :=
  target <$> foldl (merge_key better (bySubject t)) ∅ (matchingKeys team user).

Definition Get (t : Table) (team : string) : gmap string string := GetForSubject t team "".

Definition ConstraintsForSubject (t : Table) (team user : string) : gmap string string :=
  foldl (merge_key agree (strict t)) ∅ (matchingKeys team user).

Definition Constraints (t : Table) (team : string) : gmap string string :=
  ConstraintsForSubject t team "".

(** ** The latch *)

Record latchEntry := { window : string; tierIndex : Z }.

Abbreviation Latch := (gmap string latchEntry).
Definition NewLatch : Latch := ∅.

(** The last index whose threshold is crossed, or [crossed]. *)
Fixpoint crossed_loop (i : Z) (crossed : Z) (thresholds : list Z) (pct : Z) : Z :=
  match thresholds with
  | [] => crossed
  | th :: ths => crossed_loop (i + 1) (if th <=? pct then i else crossed) ths pct
  end.

Definition Evaluate (key win : string) (thresholds : list Z) (percentUtilized : Z) : ST Latch Z := λ l,
  let e := match l !! key with
           | Some e => if bool_decide (window e = win) then e else {| window := win; tierIndex := -1 |}
           | None => {| window := win; tierIndex := -1 |}
           end in
  let crossed := crossed_loop 0 (-1) thresholds percentUtilized in
  let i := if tierIndex e <? crossed then crossed else tierIndex e in
  let n := Z.of_nat (length thresholds) in
  let i := if n <=? i then n - 1 else i in
  (i, <[key := {| window := window e; tierIndex := i |}]> l).

Definition Forget (key : string) : ST Latch unit := λ l, (tt, delete key l).

Definition WindowKey (now : Time) : string := format_month now UTC.

(** ** Utilization *)

Definition two64 : Z := 2 ^ 64.

(** [bits.Mul64] and [bits.Div64]; the latter panics on quotient overflow. *)
Definition Mul64 (x y : Z) : Z * Z := (x * y / two64, x * y mod two64).
Definition Div64 (hi lo y : Z) : option (Z * Z) :=
  if y <=? hi then None else Some ((hi * two64 + lo) / y, (hi * two64 + lo) mod y).

(** [None] where the code would panic. *)
Definition UtilizedPercent (spent outstanding limit : Z) : option Z :=
  if ((spent <? 0) || (outstanding <? 0) || (limit <=? 0) || (limit <=? spent)
      || (limit - spent <=? outstanding))%bool then Some 100
  else
    let '(hi, lo) := Mul64 (wrap64 (spent + outstanding) mod two64) 100 in
    fst <$> Div64 hi lo limit.

(** [now] carries its location in Go; here it is [l]. *)
Definition WindowKeyForPeriod (now : Time) (l : Location) (period : string) : string :=
  if bool_decide (period = v1alpha1.PeriodCalendarDay) then format_day now l else format_month now l.

(** ** Utilization is the exact floor *)

(** Utilization never panics and is exact: 100 when the accounts are invalid
    or the limit is reached, otherwise the floor of the exact percentage, which is
    at most 99; so a threshold of at most 100 is reported crossed exactly when the
    spent and outstanding money reach that share of the limit. *)
Theorem UtilizedPercent_exact spent outstanding limit :
  int64 spent → int64 outstanding → int64 limit →
  ∃ p, UtilizedPercent spent outstanding limit = Some p ∧ 0 <= p <= 100 ∧
    (0 <= spent → 0 <= outstanding → 0 < limit →
     p = Z.min 100 ((spent + outstanding) * 100 / limit) ∧
     ∀ th, th <= 100 → th <= p ↔ th * limit <= (spent + outstanding) * 100).
Proof.
  intros Hs Ho Hl. unfold UtilizedPercent. destruct (_ || _)%bool eqn:E.
  - exists 100. split; [done|]. split; [lia|]. intros H1 H2 H3.
    assert (limit <= spent + outstanding) by (bcases; lia).
    assert (100 <= (spent + outstanding) * 100 / limit) by (apply Z.div_le_lower_bound; lia).
    split; [lia|]. intros th Hth. nia.
  - bsplit. assert (0 <= spent + outstanding < limit) as Hsum by lia.
    rewrite wrap64_id by int_lia. unfold Mul64, Div64, two64.
    rewrite (Z.mod_small (spent + outstanding)) by int_lia.
    rewrite Z.mul_comm with (n := (spent + outstanding) * 100 / 2 ^ 64).
    rewrite <- Z.div_mod by lia.
    replace (limit <=? (spent + outstanding) * 100 / 2 ^ 64) with false.
    2: { symmetry. apply Z.leb_gt. apply Z.div_lt_upper_bound; lia. }
    simpl. eexists. split; [done|].
    assert (0 <= (spent + outstanding) * 100 / limit <= 99) as Hp.
    { split; [apply Z.div_pos; lia|]. apply Z.lt_succ_r, Z.div_lt_upper_bound; lia. }
    split; [lia|]. intros _ _ _. split; [lia|]. intros th Hth. split; intros Hq.
    + pose proof (Z.mul_div_le ((spent + outstanding) * 100) limit). nia.
    + apply Z.div_le_lower_bound; lia.
Qed.

(** ** The latch is monotone within a window *)

Lemma crossed_loop_bounds i c ths p :
  -1 <= c < i → -1 <= crossed_loop i c ths p < i + Z.of_nat (length ths).
Proof.
  revert i c. induction ths as [|th ths IH]; intros i c Hc; cbn [crossed_loop length]; [lia|].
  pose proof (IH (i + 1) (if th <=? p then i else c)). case_match; lia.
Qed.

Lemma crossed_loop_max i c c' ths p q :
  c <= i → c' <= i →
  crossed_loop i (Z.max c c') ths (Z.max p q) = Z.max (crossed_loop i c ths p) (crossed_loop i c' ths q).
Proof.
  revert i c c'. induction ths as [|th ths IH]; intros i c c' Hc Hc'; cbn [crossed_loop]; [done|].
  rewrite <- IH by (case_match; lia). f_equal.
  destruct (th <=? p) eqn:E1, (th <=? q) eqn:E2, (th <=? Z.max p q) eqn:E3; bsplit; lia.
Qed.

(** Evaluations of one rule, with the samples [ps], in one window. *)
Fixpoint evaluations (key win : string) (ths : list Z) (ps : list Z) : ST Latch (list Z) := λ l,
  match ps with
  | [] => ([], l)
  | p :: ps => let '(i, l) := Evaluate key win ths p l in
               let '(js, l) := evaluations key win ths ps l in (i :: js, l)
  end.

(** The highest sample so far, from [m]. *)
Fixpoint running_max (m : Z) (ps : list Z) : list Z :=
  match ps with [] => [] | p :: ps => Z.max m p :: running_max (Z.max m p) ps end.

Lemma evaluations_latched key win ths ps l m :
  l !! key = Some {| window := win; tierIndex := crossed_loop 0 (-1) ths m |} →
  (evaluations key win ths ps l).1 = crossed_loop 0 (-1) ths <$> running_max m ps.
Proof.
  revert l m. induction ps as [|p ps IH]; intros l m Hl; [done|]. cbn [evaluations running_max].
  destruct (Evaluate key win ths p l) as [i l'] eqn:E.
  assert (i = crossed_loop 0 (-1) ths (Z.max m p) ∧
          l' !! key = Some {| window := win; tierIndex := crossed_loop 0 (-1) ths (Z.max m p) |}) as [-> Hl'].
  { unfold Evaluate in E. rewrite Hl in E. cbn [window tierIndex] in E.
    rewrite bool_decide_true in E by done. cbn [window tierIndex] in E.
    pose proof (crossed_loop_max 0 (-1) (-1) ths m p) as Hmax. rewrite Z.max_id in Hmax.
    pose proof (crossed_loop_bounds 0 (-1) ths (Z.max m p)).
    rewrite Hmax in * by lia. injection E as <- <-. rewrite lookup_insert_eq.
    set (a := crossed_loop 0 (-1) ths m) in *. set (b := crossed_loop 0 (-1) ths p) in *.
    destruct (a <? b) eqn:E1, (Z.of_nat (length ths) <=? (if a <? b then b else a)) eqn:E2;
      rewrite ?E1 in *; rewrite ?E2; bsplit; (split; [|f_equal; f_equal]); lia. }
  specialize (IH l' _ Hl'). destruct (evaluations key win ths ps l') as [js l'']. simpl in *.
  by rewrite IH.
Qed.

(** Within one budget window a latched tier never lifts: whatever the samples,
    each evaluation reports the deepest tier the highest utilization seen so far
    in that window crosses (-1: none), always a valid index; a change of window
    starts over. *)
Theorem Latch_high_water key win ths p ps l :
  (∀ e, l !! key = Some e → window e ≠ win) →
  (evaluations key win ths (p :: ps) l).1 = crossed_loop 0 (-1) ths <$> running_max p (p :: ps)
  ∧ ∀ q, -1 <= crossed_loop 0 (-1) ths q < Z.of_nat (length ths)
  ∧ ∀ i th, (ths !! i = Some th → th <= q → Z.of_nat i <= crossed_loop 0 (-1) ths q).
Proof.
  intros Hl. split.
  - cbn [evaluations running_max]. rewrite Z.max_id. destruct (Evaluate key win ths p l) as [i l'] eqn:E.
    assert (i = crossed_loop 0 (-1) ths p ∧
            l' !! key = Some {| window := win; tierIndex := crossed_loop 0 (-1) ths p |}) as [-> Hl'].
    { unfold Evaluate in E.
      assert (match l !! key with
              | Some e => if bool_decide (window e = win) then e else {| window := win; tierIndex := -1 |}
              | None => {| window := win; tierIndex := -1 |} end = {| window := win; tierIndex := -1 |}) as He.
      { destruct (l !! key) as [e|] eqn:El; [|done]. rewrite bool_decide_false; [done|]. by apply Hl. }
      rewrite He in E. injection E as <- <-. cbn [window tierIndex].
      pose proof (crossed_loop_bounds 0 (-1) ths p). rewrite lookup_insert_eq.
      set (b := crossed_loop 0 (-1) ths p) in *.
      assert ((if -1 <? b then b else -1) = b) as -> by (destruct (-1 <? b) eqn:E1; bsplit; lia).
      replace (Z.of_nat (length ths) <=? b) with false by (symmetry; apply Z.leb_gt; lia). done. }
    pose proof (evaluations_latched key win ths ps l' _ Hl') as Hr.
    destruct (evaluations key win ths ps l') as [js l'']. simpl in *. by rewrite Hr.
  - intros q. split; [pose proof (crossed_loop_bounds 0 (-1) ths q); lia|].
    assert (∀ ths i c j th, ths !! j = Some th → th <= q → i + Z.of_nat j <= crossed_loop i c ths q) as H.
    { clear. intros ths. induction ths as [|t ths IH]; intros i c [|j] th Hj Hq; cbn [crossed_loop]; try done.
      - injection Hj as ->. replace (th <=? q) with true by (symmetry; apply Z.leb_le; lia).
        assert (∀ ths i c, c < i → c <= crossed_loop i c ths q) as Hc.
        { clear. intros ths. induction ths as [|t ths IH]; intros i c Hc; cbn [crossed_loop]; [lia|].
          case_match; [etrans; [|apply IH]; lia|apply IH; lia]. }
        pose proof (Hc ths (i + 1) i). lia.
      - pose proof (IH (i + 1) (if t <=? q then i else c) j th Hj Hq). lia. }
    intros i th Hi Hq. pose proof (H ths 0 (-1) i th Hi Hq). lia.
Qed.

(** ** Who wins a substitution *)

Lemma higherPressure_trans a b c :
  higherPressure a b = true → higherPressure b c = true → higherPressure a c = true.
Proof.
  unfold higherPressure, str_lt. intros H1 H2.
  destruct (threshold a =? threshold b) eqn:E1, (threshold b =? threshold c) eqn:E2;
    simpl in *; bsplit; destruct (threshold a =? threshold c) eqn:E3; simpl; bsplit;
    try (apply Z.ltb_lt; lia); try lia.
  destruct (bool_decide (w_policy a = w_policy b)) eqn:P1,
    (bool_decide (w_policy b = w_policy c)) eqn:P2; simpl in *; bsplit.
  - rewrite bool_decide_true by congruence. simpl. by eapply ltb_trans.
  - rewrite P1. rewrite bool_decide_false by congruence. done.
  - rewrite <- P2. rewrite bool_decide_false by done. done.
  - pose proof (ltb_trans _ _ _ H1 H2) as H.
    destruct (bool_decide (w_policy a = w_policy c)) eqn:P3; simpl; [|done].
    bsplit. by rewrite P3, ltb_irrefl in H.
Qed.

Lemma higherPressure_total a b : higherPressure a b = false → higherPressure b a = true ∨ a = b.
Proof.
  destruct a as [ta pa ra], b as [tb pb rb]. unfold higherPressure, str_lt. simpl.
  destruct (ta =? tb) eqn:E; simpl; intros H; bsplit.
  - subst tb. rewrite Z.eqb_refl. simpl.
    destruct (bool_decide (pa = pb)) eqn:P; simpl in *; bsplit.
    + subst pb. rewrite bool_decide_true by done. simpl.
      apply ltb_total in H as [?| ->]; auto.
    + rewrite bool_decide_false by done. simpl. apply ltb_total in H as [?|?]; [auto|congruence].
  - left. replace (tb =? ta) with false by (symmetry; apply Z.eqb_neq; lia). simpl.
    apply Z.ltb_lt. lia.
Qed.

(** [o] is a candidate of [P] no other one beats. *)
Definition best (P : choice → Prop) (o : option choice) : Prop :=
  match o with
  | None => ∀ c, ¬ P c
  | Some c => P c ∧ ∀ d, P d → higherPressure (priority d) (priority c) = false
  end.

Lemma best_union P Q o1 o2 :
  best P o1 → best Q o2 → best (λ c, P c ∨ Q c) (union_with better o1 o2).
Proof.
  unfold best. destruct o1 as [c1|], o2 as [c2|]; simpl; try naive_solver.
  intros [H1 M1] [H2 M2]. unfold better.
  destruct (higherPressure (priority c2) (priority c1)) eqn:E; (split; [auto|]); intros d [Hd|Hd]; auto.
  - destruct (higherPressure (priority d) (priority c2)) eqn:E'; [|done].
    rewrite <- (M1 _ Hd). symmetry. by eapply higherPressure_trans.
  - destruct (higherPressure (priority d) (priority c1)) eqn:E'; [|done].
    destruct (higherPressure_total _ _ (M2 _ Hd)) as [H|H].
    + rewrite (higherPressure_trans _ _ _ H E') in E. done.
    + rewrite H in E'. congruence.
Qed.

(** [o] is the unanimous target of [P], or the empty one of a conflict. *)
Definition unanimous (P : string → Prop) (o : option string) : Prop :=
  match o with
  | None => ∀ x, ¬ P x
  | Some t => (∃ x, P x) ∧ ∀ y, y ≠ "" → t = y ↔ ∀ x, P x → x = y
  end.

Lemma unanimous_union P Q o1 o2 :
  unanimous P o1 → unanimous Q o2 → unanimous (λ x, P x ∨ Q x) (union_with agree o1 o2).
Proof.
  unfold unanimous. destruct o1 as [t1|], o2 as [t2|]; simpl.
  - intros [[x Hx] H1] [_ H2]. split; [exists x; auto|]. intros y Hy.
    specialize (H1 y Hy). specialize (H2 y Hy). case_bool_decide as E.
    + subst t2. rewrite H1 at 1. naive_solver.
    + split; [congruence|]. intros H. exfalso. apply E. transitivity y; [|symmetry].
      * apply H1. auto.
      * apply H2. auto.
  - intros [[x Hx] H1] H2. split; [exists x; auto|]. intros y Hy. rewrite (H1 y Hy). naive_solver.
  - intros H1 [[x Hx] H2]. split; [exists x; auto|]. intros y Hy. rewrite (H2 y Hy). naive_solver.
  - intros H1 H2 x [?|?]; naive_solver.
Qed.

Lemma best_ext P Q o : (∀ c, P c ↔ Q c) → best P o → best Q o.
Proof. unfold best. destruct o; naive_solver. Qed.
Lemma unanimous_ext P Q o : (∀ c, P c ↔ Q c) → unanimous P o → unanimous Q o.
Proof. unfold unanimous. destruct o; naive_solver. Qed.

(** ** What [Set] stores *)

Definition chosen (active : list ActiveTier) (key : Subject) (from : string) (c : choice) : Prop :=
  ∃ a, a ∈ active ∧ key_of a = key ∧ choices_of a !! from = Some c.
Definition enforced (active : list ActiveTier) (key : Subject) (from to : string) : Prop :=
  ∃ a, a ∈ active ∧ at_EnforceTargets a = true ∧ key_of a = key ∧ at_Substitute a !! from = Some to.

Lemma Set_chosen active key from :
  key ≠ no_subject →
  best (chosen active key from) (default ∅ (bySubject (Set_ active) !! key) !! from).
Proof.
  intros Hk. unfold Set_. induction active as [|a active IH] using rev_ind.
  { simpl. rewrite lookup_empty. simpl. rewrite lookup_empty. intros c (a & Ha & _). by apply elem_of_nil in Ha. }
  rewrite foldl_app. simpl. set (t := foldl set_tier NewTable active) in *. unfold set_tier.
  assert (∀ c, chosen (active ++ [a]) key from c ↔
    chosen active key from c ∨ (key_of a = key ∧ choices_of a !! from = Some c)) as Hx
    by (intros c; unfold chosen; by rewrite ex_snoc).
  destruct (decide (key_of a = key)) as [He|He].
  - rewrite bool_decide_false by congruence. simpl. rewrite He, lookup_insert_eq. simpl.
    rewrite lookup_union_with. eapply best_ext; [intros c; symmetry; apply Hx|].
    apply best_union; [done|]. unfold best.
    destruct (choices_of a !! from) as [c|] eqn:Ec; [|naive_solver].
    split; [done|]. intros d [_ [= ->]]. unfold higherPressure, str_lt.
    rewrite Z.eqb_refl, bool_decide_true by done. simpl. apply ltb_irrefl.
  - apply (best_ext (chosen active key from)); [intros c; rewrite Hx; naive_solver|].
    case_bool_decide; [done|]. simpl. by rewrite lookup_insert_ne.
Qed.

Lemma Set_enforced active key from :
  key ≠ no_subject →
  unanimous (enforced active key from) (default ∅ (strict (Set_ active) !! key) !! from).
Proof.
  intros Hk. unfold Set_. induction active as [|a active IH] using rev_ind.
  { simpl. rewrite lookup_empty. simpl. rewrite lookup_empty. intros c (a & Ha & _). by apply elem_of_nil in Ha. }
  rewrite foldl_app. simpl. set (t := foldl set_tier NewTable active) in *. unfold set_tier.
  assert (∀ c, enforced (active ++ [a]) key from c ↔ enforced active key from c ∨
    (at_EnforceTargets a = true ∧ key_of a = key ∧ at_Substitute a !! from = Some c)) as Hx
    by (intros c; unfold enforced; by rewrite ex_snoc).
  destruct (decide (key_of a = key)) as [He|He];
    [|apply (unanimous_ext (enforced active key from)); [intros c; rewrite Hx; naive_solver|]].
  2: { case_bool_decide; [done|]. simpl. destruct (at_EnforceTargets a); [|done]. by rewrite lookup_insert_ne. }
  rewrite bool_decide_false by congruence. simpl. destruct (at_EnforceTargets a) eqn:Een.
  - rewrite He, lookup_insert_eq. simpl. unfold mergeConstraints. rewrite lookup_union_with.
    eapply unanimous_ext; [intros c; symmetry; apply Hx|].
    apply unanimous_union; [done|]. unfold unanimous.
    destruct (at_Substitute a !! from) as [c|] eqn:Ec; [|naive_solver].
    split; [by exists c|]. naive_solver.
  - eapply unanimous_ext; [|exact IH]. intros c. rewrite Hx. naive_solver.
Qed.

(** ** What a request sees *)

(** The tiers that apply to a request: their subject matches, and is not the
    empty one. *)
Definition applies (team user : string) (a : ActiveTier) : Prop :=
  matches (key_of a) team user = true ∧ key_of a ≠ no_subject.

Lemma applies_keys team user a :
  applies team user a ↔ key_of a ∈ matchingKeys team user ∧ key_of a ≠ no_subject.
Proof.
  unfold applies. split; intros [H Hne]; (split; [|done]); revert H Hne;
    unfold matchingKeys, matches, key_of, no_subject; simpl; rewrite !elem_of_cons, elem_of_nil.
  - intros H Hne.
    destruct (bool_decide (at_Team a = "")) eqn:E1, (bool_decide (at_User a = "")) eqn:E2;
      simpl in H; bsplit.
    + by rewrite E1, E2 in Hne.
    + case_hyp H; [done|]. bsplit. right; left. congruence.
    + case_hyp H; [done|]. bsplit. left. congruence.
    + do 2 (case_hyp H; [done|]). bsplit. right; right; left.
      rewrite !bool_decide_false by congruence. simpl. congruence.
  - intros [[= -> ->]|[[= -> ->]|[H|[]]]] Hne.
    + rewrite (bool_decide_true (team = team)) by done. rewrite andb_false_r. done.
    + rewrite (bool_decide_true ("" = "")) by done. simpl.
      destruct (decide (user = "")) as [->|]; [done|].
      rewrite (bool_decide_true (user = user)), (bool_decide_false (user = "")) by done. done.
    + destruct (_ && _)%bool eqn:E in H; [|by rewrite H in Hne]. injection H as -> ->. bsplit.
      rewrite (bool_decide_true (team = team)), (bool_decide_true (user = user)),
        !bool_decide_false by done. done.
Qed.

Lemma fold_keys {A} (R : (A → Prop) → option A → Prop) f (m : gmap Subject (gmap string A))
    (P : Subject → A → Prop) from keys out Q :
  (∀ P Q o, (∀ c, P c ↔ Q c) → R P o → R Q o) →
  (∀ P Q o1 o2, R P o1 → R Q o2 → R (λ c, P c ∨ Q c) (union_with f o1 o2)) →
  (∀ key, key ≠ no_subject → R (P key) (default ∅ (m !! key) !! from)) →
  R Q (out !! from) →
  R (λ c, Q c ∨ ∃ key, key ∈ keys ∧ key ≠ no_subject ∧ P key c)
    (foldl (merge_key f m) out keys !! from).
Proof.
  intros Hext Hun Hm. revert out Q. induction keys as [|key keys IH]; intros out Q Ho; simpl.
  { eapply Hext; [|exact Ho]. intros c. setoid_rewrite elem_of_nil. naive_solver. }
  unfold merge_key at 2. case_bool_decide as Hk.
  - eapply Hext; [|by apply (IH out Q)]. intros c. setoid_rewrite elem_of_cons. naive_solver.
  - eapply Hext; [|apply (IH _ (λ c, Q c ∨ P key c))].
    + intros c. setoid_rewrite elem_of_cons. naive_solver.
    + rewrite lookup_union_with. by apply Hun; [|apply Hm].
Qed.

(** A request's substitution for a model is decided by the deepest budget
    pressure alone: it is the target of an active tier whose subject matches the
    request and that no other matching tier beats (by threshold, then policy and
    rule name), and there is none exactly when no matching tier maps the model.
    The order tiers are listed in does not matter. *)
Theorem GetForSubject_wins active team user from :
  match GetForSubject (Set_ active) team user !! from with
  | None => ∀ a, a ∈ active → applies team user a → at_Substitute a !! from = None
  | Some to =>
      ∃ a, a ∈ active ∧ applies team user a ∧ at_Substitute a !! from = Some to ∧
        ∀ b, b ∈ active → applies team user b → is_Some (at_Substitute b !! from) →
             higherPressure (winner_of b) (winner_of a) = false
  end.
Proof.
  pose proof (fold_keys best better (bySubject (Set_ active)) (λ key, chosen active key from) from
    (matchingKeys team user) ∅ (λ _, False) best_ext best_union
    (λ key H, Set_chosen active key from H)) as Hb.
  rewrite lookup_empty in Hb. specialize (Hb (λ c H, H)).
  assert (∀ c, (False ∨ ∃ key, key ∈ matchingKeys team user ∧ key ≠ no_subject ∧ chosen active key from c)
    ↔ ∃ a, a ∈ active ∧ applies team user a ∧ choices_of a !! from = Some c) as Hc.
  { intros c. unfold chosen. setoid_rewrite applies_keys. naive_solver. }
  apply (best_ext _ _ _ Hc) in Hb. unfold GetForSubject. rewrite lookup_fmap.
  assert (∀ a c, choices_of a !! from = Some c ↔
    at_Substitute a !! from = Some (target c) ∧ priority c = winner_of a) as Hch.
  { intros a [t p]. unfold choices_of. rewrite lookup_fmap_Some. simpl. naive_solver. }
  destruct (foldl _ ∅ (matchingKeys team user) !! from) as [c|]; simpl in *.
  - destruct Hb as [(a & Ha & Hap & Hac) Hmax]. apply Hch in Hac as [Hs Hp].
    exists a. split_and!; try done. intros b Hb Hbp [to Hto]. rewrite <- Hp.
    apply (Hmax {| target := to; priority := winner_of b |}). exists b. by rewrite Hch.
  - intros a Ha Hap. apply eq_None_not_Some. intros [to Hto].
    apply (Hb {| target := to; priority := winner_of a |}). exists a. by rewrite Hch.
Qed.

(** Strict restrictions are never loosened: the constraint on a model is a
    target exactly when every enforcing tier that applies and maps the model
    agrees on it; disagreement yields the empty target, which denies, and no
    constraint is missing while an enforcing tier maps the model. *)
Theorem ConstraintsForSubject_unanimous active team user from :
  let enforcing to := ∃ a, a ∈ active ∧ applies team user a ∧ at_EnforceTargets a = true
                           ∧ at_Substitute a !! from = Some to in
  match ConstraintsForSubject (Set_ active) team user !! from with
  | None => ∀ to, ¬ enforcing to
  | Some t => (∃ to, enforcing to) ∧ ∀ to, to ≠ "" → t = to ↔ ∀ x, enforcing x → x = to
  end.
Proof.
  cbv zeta.
  pose proof (fold_keys unanimous agree (strict (Set_ active)) (λ key, enforced active key from) from
    (matchingKeys team user) ∅ (λ _, False) unanimous_ext unanimous_union
    (λ key H, Set_enforced active key from H)) as Hb.
  rewrite lookup_empty in Hb. specialize (Hb (λ c H, H)).
  eapply unanimous_ext in Hb; [exact Hb|]. intros to. unfold enforced. setoid_rewrite applies_keys.
  naive_solver.
Qed.

(** ** Witnesses *)

Lemma UtilizedPercent_exact_witness :
  UtilizedPercent 9000000000000000000 1 9223372036854775807 = Some 97
  ∧ ∃ p, UtilizedPercent 9000000000000000000 1 9223372036854775807 = Some p ∧ 0 <= p <= 100 ∧
      (0 <= 9000000000000000000 → 0 <= 1 → 0 < 9223372036854775807 →
       p = Z.min 100 ((9000000000000000000 + 1) * 100 / 9223372036854775807) ∧
       ∀ th, th <= 100 → th <= p ↔ th * 9223372036854775807 <= (9000000000000000000 + 1) * 100).
Proof.
  split; [vm_compute; reflexivity|].
  apply (UtilizedPercent_exact 9000000000000000000 1 9223372036854775807); int_lia.
Defined.

Lemma Latch_high_water_witness :
  (evaluations "p/r" "2026-08" [50; 80] [60; 90; 10] ∅).1 = [0; 1; 1].
Proof.
  rewrite (proj1 (Latch_high_water "p/r" "2026-08" [50; 80] 60 [90; 10] ∅
                    (λ e H, ltac:(rewrite lookup_empty in H; discriminate H)))).
  reflexivity.
Defined.
