(* ===== verification/Breaker.v ===== *)
(** * The circuit breaker (internal/router/breaker.go)

    One state per provider: consecutive failures, the end of the open window and
    the current backoff.  The clock is the sequence of readings [now], consumed
    one by one. *)

From S2P Require Import Prelude GoTime.

Record brkState := { consecutiveFails : Z; openUntil : Time; backoff : Duration }.

Definition zeroState : brkState := {| consecutiveFails := 0; openUntil := zeroTime; backoff := 0 |}.

Record breaker := {
  threshold : Z;
  baseBackoff : Duration;
  state : gmap string brkState;
  now : nat → Time;
  reads : nat
}.

Definition newBreaker (th : Z) (base : Duration) (clk : nat → Time) : breaker :=
  {| threshold := th; baseBackoff := base; state := ∅; now := clk; reads := 0 |}.

Definition with_state (f : gmap string brkState → gmap string brkState) (b : breaker) : breaker :=
  {| threshold := threshold b; baseBackoff := baseBackoff b; state := f (state b);
     now := now b; reads := reads b |}.

(** One call of the clock. *)
Definition clock (b : breaker) : Time * breaker :=
  (now b (reads b),
   {| threshold := threshold b; baseBackoff := baseBackoff b; state := state b;
      now := now b; reads := S (reads b) |}).

Definition maxBackoff : Duration := 30 * Second.

Definition Allow (provider : string) : ST breaker bool := λ b,
  match state b !! provider with
  | None => (true, b)
  | Some s =>
      if IsZero (openUntil s) then (true, b)
      else let '(t, b) := clock b in (negb (Before t (openUntil s)), b)
  end.

Definition grow (base : Duration) (s : brkState) : Duration :=
  if backoff s =? 0 then base
  else let d := wrap64 (backoff s * 2) in if maxBackoff <? d then maxBackoff else d.

Definition RecordFailure (provider : string) : ST breaker unit := λ b,
  let s := default zeroState (state b !! provider) in
  let n := wrap64 (consecutiveFails s + 1) in
  if threshold b <=? n then
    let d := grow (baseBackoff b) s in
    let '(t, b) := clock b in
    (tt, with_state <[provider := {| consecutiveFails := n; openUntil := Add t d; backoff := d |}]> b)
  else
    (tt, with_state <[provider := {| consecutiveFails := n; openUntil := openUntil s;
                                     backoff := backoff s |}]> b).

Definition Retain (keep : gmap string bool) : ST breaker unit := λ b,
  (tt, with_state (filter (λ kv, default false (keep !! kv.1) = true)) b).

Definition RecordSuccess (provider : string) : ST breaker unit := λ b,
  match state b !! provider with
  | None => (tt, b)
  | Some _ => (tt, with_state <[provider := zeroState]> b)
  end.

(** 0 closed, 1 half-open, 2 open. *)
Definition State (provider : string) : ST breaker Z := λ b,
  match state b !! provider with
  | None => (0, b)
  | Some s =>
      if IsZero (openUntil s) then (0, b)
      else let '(t, b) := clock b in (if Before t (openUntil s) then 2 else 1, b)
  end.

(** ** The backoff schedule *)

Fixpoint failures (n : nat) (provider : string) : ST breaker unit := λ b,
  match n with
  | O => (tt, b)
  | S n => let '(_, b) := failures n provider b in RecordFailure provider b
  end.

(** The specification: base, doubled per failure past the threshold, capped. *)
Definition schedule (base : Duration) (past : Z) : Duration := Z.min maxBackoff (base * 2 ^ past).

Lemma schedule_grow base past s :
  0 < base <= maxBackoff → 0 <= past → backoff s = schedule base past →
  grow base s = schedule base (past + 1).
Proof.
  unfold grow, schedule, maxBackoff, Second. intros Hb Hp ->.
  assert (0 < 2 ^ past) by (apply Z.pow_pos_nonneg; lia).
  assert (0 < base * 2 ^ past) by nia.
  rewrite Z.pow_add_r by lia. change (2 ^ 1) with 2.
  destruct (_ =? 0) eqn:E; bsplit; [lia|].
  rewrite wrap64_id by (unfold int64, MinInt64, MaxInt64; lia).
  case_match; bsplit; lia.
Qed.

Lemma failures_state n provider b :
  1 <= threshold b → 0 < baseBackoff b <= maxBackoff → Z.of_nat n <= MaxInt64 →
  default zeroState (state b !! provider) = zeroState →
  let b' := (failures n provider b).2 in
  threshold b' = threshold b ∧ baseBackoff b' = baseBackoff b ∧ now b' = now b ∧
  reads b' = (reads b + Z.to_nat (Z.max 0 (Z.of_nat n - threshold b + 1)))%nat ∧
  default zeroState (state b' !! provider) =
    {| consecutiveFails := Z.of_nat n;
       openUntil := if threshold b <=? Z.of_nat n
                    then now b (pred (reads b')) + schedule (baseBackoff b) (Z.of_nat n - threshold b)
                    else zeroTime;
       backoff := if threshold b <=? Z.of_nat n
                  then schedule (baseBackoff b) (Z.of_nat n - threshold b) else 0 |}.
Proof.
  intros Ht Hb. induction n as [|n IH]; intros Hn Hz.
  { simpl. rewrite Hz. replace (threshold b <=? Z.of_nat 0) with false by (symmetry; apply Z.leb_gt; lia).
    split_and!; try done. simpl. lia. }
  cbn [failures]. destruct (failures n provider b) as [[] b1] eqn:E. simpl in IH.
  destruct (IH ltac:(lia) Hz) as (I1 & I2 & I3 & I4 & I5).
  unfold RecordFailure. rewrite I5. cbn [consecutiveFails openUntil backoff].
  replace (wrap64 (Z.of_nat n + 1)) with (Z.of_nat (S n)) by (rewrite wrap64_id; int_lia).
  rewrite I1. destruct (threshold b <=? Z.of_nat (S n)) eqn:Ec; bsplit; simpl.
  - split_and!; [congruence|congruence|done|lia|].
    rewrite lookup_insert_eq, I2, I3. simpl.
    assert (∀ s, s = {| consecutiveFails := Z.of_nat n;
         openUntil := if threshold b <=? Z.of_nat n
                      then now b (pred (reads b1)) + schedule (baseBackoff b) (Z.of_nat n - threshold b)
                      else zeroTime;
         backoff := if threshold b <=? Z.of_nat n
                    then schedule (baseBackoff b) (Z.of_nat n - threshold b) else 0 |} →
      grow (baseBackoff b) s = schedule (baseBackoff b) (Z.of_nat (S n) - threshold b)) as Hg.
    { intros s ->. destruct (threshold b <=? Z.of_nat n) eqn:Ec'; bsplit.
      - replace (Z.of_nat (S n) - threshold b) with (Z.of_nat n - threshold b + 1) by lia.
        apply schedule_grow; [done|lia|done].
      - unfold grow. simpl. replace (Z.of_nat (S n) - threshold b) with 0 by lia.
        unfold schedule. rewrite Z.pow_0_r. lia. }
    rewrite Hg by done. done.
  - replace (threshold b <=? Z.of_nat n) with false by (symmetry; apply Z.leb_gt; lia).
    split_and!; [congruence|congruence|done|lia|].
    rewrite lookup_insert_eq. done.
Qed.

(** The breaker opens exactly at the threshold-th consecutive failure, for the
    base backoff, doubled at each further failure and capped at 30 seconds: after
    [n] failures a provider is refused exactly while the window counted from the
    last failure has not elapsed, and below the threshold it is never refused. *)
Theorem breaker_schedule n provider b :
  1 <= threshold b → 0 < baseBackoff b <= maxBackoff → Z.of_nat n <= MaxInt64 →
  (∀ i, 0 <= now b i) → default zeroState (state b !! provider) = zeroState →
  let b' := (failures n provider b).2 in
  (Allow provider b').1 =
    if threshold b <=? Z.of_nat n
    then negb (Before (now b (reads b'))
                 (now b (pred (reads b')) + schedule (baseBackoff b) (Z.of_nat n - threshold b)))
    else true.
Proof.
  intros Ht Hb Hn Hclk Hz. cbv zeta.
  destruct (failures_state n provider b Ht Hb Hn Hz) as (I1 & I2 & I3 & I4 & I5).
  set (b' := (failures n provider b).2) in *. unfold Allow.
  destruct (state b' !! provider) as [s|] eqn:Es; simpl in I5.
  - rewrite I5. cbn [openUntil]. destruct (threshold b <=? Z.of_nat n) eqn:Ec; [|done].
    assert (0 < schedule (baseBackoff b) (Z.of_nat n - threshold b)) as Hs.
    { bsplit. unfold schedule. assert (0 < 2 ^ (Z.of_nat n - threshold b)) by (apply Z.pow_pos_nonneg; lia).
      unfold maxBackoff, Second. nia. }
    unfold IsZero. destruct (_ =? zeroTime) eqn:E0.
    + bsplit. pose proof (Hclk (pred (reads b'))). unfold zeroTime, Second in *. lia.
    + simpl. by rewrite I3.
  - destruct (threshold b <=? Z.of_nat n) eqn:Ec; [|done]. bsplit. injection I5 as H1 H2 H3. lia.
Qed.

(** ** Isolation and recovery *)

Inductive op :=
| OpAllow (p : string) | OpFailure (p : string) | OpSuccess (p : string) | OpState (p : string)
| OpRetain (keep : gmap string bool).

Definition step (b : breaker) (o : op) : breaker :=
  match o with
  | OpAllow p => (Allow p b).2
  | OpFailure p => (RecordFailure p b).2
  | OpSuccess p => (RecordSuccess p b).2
  | OpState p => (State p b).2
  | OpRetain keep => (Retain keep b).2
  end.

(** Not a failure of [p]. *)
Definition harmless (p : string) (o : op) : Prop := ∀ q, o = OpFailure q → q ≠ p.

(** Windows end within 30 seconds of the last reading of the clock. *)
Record brk_inv (clk : nat → Time) (base : Duration) (b : breaker) : Prop := {
  bi_clock : now b = clk;
  bi_base : baseBackoff b = base;
  bi_backoff p s : state b !! p = Some s → 0 <= backoff s <= maxBackoff;
  bi_open p s : state b !! p = Some s → openUntil s ≠ zeroTime →
    ∃ k, reads b = S k ∧ openUntil s <= clk k + maxBackoff
}.

Lemma grow_bound base s : 0 < base <= maxBackoff → 0 <= backoff s <= maxBackoff → 0 <= grow base s <= maxBackoff.
Proof.
  intros Hb Hs. unfold grow. destruct (backoff s =? 0); [lia|].
  rewrite wrap64_id by (unfold maxBackoff, Second in *; int_lia). destruct (_ <? _) eqn:E; bsplit; lia.
Qed.

(** One more reading of a clock that does not go back. *)
Lemma brk_inv_reads clk base b :
  (∀ i, clk i <= clk (S i)) → brk_inv clk base b →
  brk_inv clk base {| threshold := threshold b; baseBackoff := baseBackoff b; state := state b; now := now b;
                      reads := S (reads b) |}.
Proof.
  intros Hm [I1 I2 I3 I4]. split; simpl; try done. intros p s Hs Ho.
  destruct (I4 p s Hs Ho) as (k & Hk & Hle). exists (reads b). split; [done|]. rewrite Hk. specialize (Hm k). lia.
Qed.

(** Entries change to ones that satisfy the bounds. *)
Lemma brk_inv_state clk base b f :
  (∀ p s, f (state b) !! p = Some s → state b !! p = Some s ∨
     (0 <= backoff s <= maxBackoff ∧ (openUntil s ≠ zeroTime → ∃ k, reads b = S k ∧ openUntil s <= clk k + maxBackoff))) →
  brk_inv clk base b → brk_inv clk base (with_state f b).
Proof.
  intros Hf [I1 I2 I3 I4]. split; simpl; try done; intros p s Hs;
    (destruct (Hf p s Hs) as [Hs'|[Hb Ho]]; [|done]); [by eapply I3|by eapply I4].
Qed.

Lemma Allow_reads p b : (Allow p b).2 = b ∨ (Allow p b).2 = (clock b).2.
Proof. unfold Allow. destruct (state b !! p) as [s|]; [destruct (IsZero (openUntil s))|]; auto. Qed.

Lemma State_reads p b : (State p b).2 = b ∨ (State p b).2 = (clock b).2.
Proof.
  unfold State. destruct (state b !! p) as [s|]; [destruct (IsZero (openUntil s))|]; auto.
Qed.

Lemma brk_step_inv clk base b o :
  (∀ i, clk i <= clk (S i)) → 0 < base <= maxBackoff → brk_inv clk base b → brk_inv clk base (step b o).
Proof.
  intros Hm Hb Hi. destruct o as [p|p|p|p|keep]; simpl.
  - destruct (Allow_reads p b) as [->| ->]; [done|by apply brk_inv_reads].
  - unfold RecordFailure. cbv zeta. destruct (default zeroState (state b !! p)) as [n u d] eqn:Ed.
    assert (0 <= d <= maxBackoff) as Hd.
    { destruct (state b !! p) as [s|] eqn:E; simpl in Ed; subst; [by apply (bi_backoff _ _ _ Hi) in E|].
      by injection Ed as _ _ <-. }
    destruct (threshold b <=? _); simpl.
    + apply brk_inv_state; [|by apply brk_inv_reads]. simpl. intros q s.
      destruct (decide (q = p)) as [->|Hne]; [|rewrite lookup_insert_ne by done; by left].
      rewrite lookup_insert_eq. intros [= <-]. right. rewrite (bi_base _ _ _ Hi), (bi_clock _ _ _ Hi).
      pose proof (grow_bound base {| consecutiveFails := n; openUntil := u; backoff := d |} Hb Hd). simpl.
      split; [done|]. intros _. exists (reads b). unfold Add. split; [done|lia].
    + apply brk_inv_state; [|done]. intros q s. destruct (decide (q = p)) as [->|Hne].
      * rewrite lookup_insert_eq. intros [= <-]. right. simpl. split; [done|]. intros Hz.
        destruct (state b !! p) as [s|] eqn:E; simpl in Ed; subst; [by apply (bi_open _ _ _ Hi p _ E)|].
        by injection Ed as _ <- _.
      * rewrite lookup_insert_ne by done. by left.
  - unfold RecordSuccess. destruct (state b !! p) as [s0|] eqn:E; simpl; [|done]. apply brk_inv_state; [|done].
    intros q s. destruct (decide (q = p)) as [->|Hne]; [|rewrite lookup_insert_ne by done; by left].
    rewrite lookup_insert_eq. intros [= <-]. right. simpl. unfold maxBackoff, Second. split; [lia|done].
  - destruct (State_reads p b) as [->| ->]; [done|by apply brk_inv_reads].
  - apply brk_inv_state; [|done]. intros q s [Hs _]%map_lookup_filter_Some. by left.
Qed.

Lemma steps_inv clk base b os :
  (∀ i, clk i <= clk (S i)) → 0 < base <= maxBackoff → brk_inv clk base b → brk_inv clk base (foldl step b os).
Proof. intros Hm Hb. revert b. induction os as [|o os IH]; intros b Hi; [done|]. by apply IH, brk_step_inv. Qed.

Lemma newBreaker_inv th base clk : brk_inv clk base (newBreaker th base clk).
Proof. split; simpl; try done; intros p s Hs; by rewrite lookup_empty in Hs. Qed.

(** The window of [p] has elapsed, and stays so until a failure of [p]. *)
Definition elapsed (p : string) (b : breaker) : Prop :=
  ∀ s, state b !! p = Some s → openUntil s = zeroTime ∨ openUntil s <= now b (reads b).

Lemma elapsed_step p b o :
  (∀ i, now b i <= now b (S i)) → harmless p o → elapsed p b →
  elapsed p (step b o) ∧ now (step b o) = now b.
Proof.
  intros Hm Hh He. assert (∀ s, state b !! p = Some s → openUntil s = zeroTime ∨ openUntil s <= now b (S (reads b))) as Hr.
  { intros s Hs. specialize (Hm (reads b)). destruct (He s Hs); [by left|right; lia]. }
  destruct o as [q|q|q|q|keep]; simpl.
  - destruct (Allow_reads q b) as [->| ->]; done.
  - assert (q ≠ p) as Hne by by apply Hh. unfold RecordFailure.
    destruct (_ <=? _); simpl; (split; [|done]); unfold elapsed; simpl; rewrite lookup_insert_ne by done; [exact Hr|exact He].
  - unfold RecordSuccess. destruct (state b !! q) eqn:E; simpl; [|done]. split; [|done]. intros s. simpl.
    destruct (decide (q = p)) as [->|Hne]; [|rewrite lookup_insert_ne by done; apply He].
    rewrite lookup_insert_eq. intros [= <-]. by left.
  - destruct (State_reads q b) as [->| ->]; done.
  - split; [|done]. intros s [Hs _]%map_lookup_filter_Some. by apply He.
Qed.

Lemma elapsed_Allow p b : elapsed p b → (Allow p b).1 = true.
Proof.
  intros He. unfold Allow. destruct (state b !! p) as [s|] eqn:E; [|done].
  destruct (IsZero (openUntil s)) eqn:Ez; [done|]. unfold IsZero in Ez. bsplit. simpl.
  destruct (He s E) as [?|?]; [done|]. unfold Before. destruct (_ <? _) eqn:Eb; bsplit; [lia|done].
Qed.

(** The windows of a breaker whose clock has stood for the longest backoff are over. *)
Lemma waited_elapsed th base clk os p :
  0 < base <= maxBackoff → (∀ i, clk i <= clk (S i)) →
  let b := foldl step (newBreaker th base clk) os in
  (∀ k, reads b = S k → clk k + maxBackoff <= clk (S k)) → elapsed p b.
Proof.
  intros Hb Hm b Hw s Hs.
  assert (brk_inv clk base b) as Hi by (apply steps_inv; [done|done|apply newBreaker_inv]).
  destruct (decide (openUntil s = zeroTime)) as [|Hz]; [by left|right].
  destruct (bi_open _ _ _ Hi p s Hs Hz) as (k & Hk & Hle). rewrite (bi_clock _ _ _ Hi), Hk. specialize (Hw k Hk). lia.
Qed.

(** From then on calls are allowed until one of them is recorded as a failure. *)
Lemma elapsed_harmless os p b :
  (∀ i, now b i <= now b (S i)) → elapsed p b → Forall (harmless p) os → (Allow p (foldl step b os)).1 = true.
Proof.
  intros Hmb He Hh. revert b He Hmb. induction Hh as [|o os Ho Hh IH]; intros b He Hmb; cbn [foldl]; [by apply elapsed_Allow|].
  destruct (elapsed_step p b o Hmb Ho He) as [He' Hn]. apply IH; [done|]. intros i. rewrite Hn. apply Hmb.
Qed.

(** C39: A provider is always tried again.  Whatever sequence of calls, failures,
    successes and reloads came before, once 30 seconds have passed since the last
    reading of a clock that does not go back, the provider is allowed. *)
Theorem breaker_recovers th base clk os p :
  0 < base <= maxBackoff → (∀ i, clk i <= clk (S i)) →
  let b := foldl step (newBreaker th base clk) os in
  (∀ k, reads b = S k → clk k + maxBackoff <= clk (S k)) →
  (Allow p b).1 = true.
Proof. intros. by apply elapsed_Allow, (waited_elapsed th base clk). Qed.

Lemma breaker_schedule_witness :
  let b := newBreaker 3 Second (λ i, Z.of_nat i * Second) in
  (Allow "p" (failures 5 "p" b).2).1 = false ∧ (Allow "p" (failures 2 "p" b).2).1 = true.
Proof.
  cbv zeta. split; [|reflexivity].
  rewrite (breaker_schedule 5 "p" (newBreaker 3 Second (λ i, Z.of_nat i * Second)));
    [vm_compute; reflexivity|simpl; lia|vm_compute; split; [done|discriminate]|vm_compute; discriminate
    |simpl; intros i; unfold Second; lia|reflexivity].
Defined.

Lemma breaker_recovers_witness :
  let clk i := if (i <? 3)%nat then 1000 * Second else 1040 * Second in
  (Allow "p" (foldl step (newBreaker 1 Second clk) [OpFailure "p"; OpFailure "p"])).1 = false ∧
  (Allow "p" (foldl step (newBreaker 1 Second clk) [OpFailure "p"; OpFailure "p"; OpAllow "p"])).1 = true.
Proof.
  cbv zeta. split; [vm_compute; reflexivity|].
  apply (breaker_recovers 1 Second (λ i, if (i <? 3)%nat then 1000 * Second else 1040 * Second)
           [OpFailure "p"; OpFailure "p"; OpAllow "p"]).
  - unfold maxBackoff, Second. lia.
  - intros i. destruct (Nat.ltb_spec i 3), (Nat.ltb_spec (S i) 3); unfold Second; lia.
  - intros k Hk. vm_compute in Hk. injection Hk as <-. vm_compute. discriminate.
Defined.
