(* ===== verification/Limiter.v ===== *)
(** * Rate and quota limits (internal/limiter)

    [Memory] keeps token buckets and quota windows.  A bucket is shared: the map
    points to it and so does the finish function of every reservation made on it,
    so buckets live in a heap and the map holds locations; a finish function is
    a handle into the table of reservations, whose [done] flag is its once guard.
    Token levels are float64 ([GoFloat]).  The clock is the sequence of readings
    [now], consumed one by one. *)

From S2P Require Import Prelude GoTime GoFloat.

(** ** Data *)

Inductive Decision := Allow | Block.

#[export] Instance Decision_eq_dec : EqDecision Decision.
Proof. solve_decision. Defined.

Record bucket := {
  tokens : float64; last : Time; b_pending : Z; ratePerMin : Z; burst : Z
}.

Record quotaWin := { used : Z; windowEnd : Time }.

Definition sweepEvery : Z := 256.
Definition defaultMaxEntries : Z := 100000.

(** One reservation: the bucket its finish function captured, its cost, and
    whether the finish function has run. *)
Record reservation := { r_loc : nat; r_cost : Z; r_done : bool }.

Record Memory := {
  buckets : gmap string nat;
  quotas : gmap string quotaWin;
  now : nat → Time;
  maxEntries : Z;
  sweepTick : Z;
  rejected : Z;
  reads : nat;
  heap : gmap nat bucket;
  fresh_loc : nat;
  reservations : gmap nat reservation
}.

Definition NewMemory (clk : nat → Time) : Memory :=
  {| buckets := ∅; quotas := ∅; now := clk; maxEntries := defaultMaxEntries; sweepTick := 0;
     rejected := 0; reads := 0; heap := ∅; fresh_loc := 0; reservations := ∅ |}.

(** ** Field updates *)

Definition upd (bs : gmap string nat) (qs : gmap string quotaWin) (tick rej : Z) (m : Memory) : Memory :=
  {| buckets := bs; quotas := qs; now := now m; maxEntries := maxEntries m; sweepTick := tick;
     rejected := rej; reads := reads m; heap := heap m; fresh_loc := fresh_loc m;
     reservations := reservations m |}.
Definition with_quotas (f : gmap string quotaWin → gmap string quotaWin) (m : Memory) : Memory :=
  upd (buckets m) (f (quotas m)) (sweepTick m) (rejected m) m.
Definition with_tick (n : Z) (m : Memory) : Memory := upd (buckets m) (quotas m) n (rejected m) m.
Definition with_rejected (n : Z) (m : Memory) : Memory := upd (buckets m) (quotas m) (sweepTick m) n m.

Definition with_heap (h : gmap nat bucket) (rs : gmap nat reservation) (m : Memory) : Memory :=
  {| buckets := buckets m; quotas := quotas m; now := now m; maxEntries := maxEntries m;
     sweepTick := sweepTick m; rejected := rejected m; reads := reads m; heap := h;
     fresh_loc := fresh_loc m; reservations := rs |}.

Definition store_bucket (l : nat) (b : bucket) (m : Memory) : Memory :=
  with_heap (<[l := b]> (heap m)) (reservations m) m.

Definition clock (m : Memory) : Time * Memory :=
  (now m (reads m),
   {| buckets := buckets m; quotas := quotas m; now := now m; maxEntries := maxEntries m;
      sweepTick := sweepTick m; rejected := rejected m; reads := S (reads m); heap := heap m;
      fresh_loc := fresh_loc m; reservations := reservations m |}).

(** [m.buckets[key] = &bucket{...}]. *)
Definition alloc (key : string) (b : bucket) (m : Memory) : nat * Memory :=
  (fresh_loc m,
   {| buckets := <[key := fresh_loc m]> (buckets m); quotas := quotas m; now := now m;
      maxEntries := maxEntries m; sweepTick := sweepTick m; rejected := rejected m;
      reads := reads m; heap := <[fresh_loc m := b]> (heap m); fresh_loc := S (fresh_loc m);
      reservations := reservations m |}).

Definition no_bucket : bucket :=
  {| tokens := of_int 0; last := 0; b_pending := 0; ratePerMin := 0; burst := 0 |}.
Definition deref (m : Memory) (l : nat) : bucket := default no_bucket (heap m !! l).

(** ** Operations *)

(** Tokens at [t], before the cap. *)
Definition projected (b : bucket) (t : Time) (rate : Z) : float64 :=
  fadd (tokens b) (fmul (Seconds (Sub t (last b))) (fdiv (of_int rate) (of_int 60))).

Definition cap_at (bst : Z) (x : float64) : float64 :=
  if fltb (of_int bst) x then of_int bst else x.

Definition reclaimable (t : Time) (b : bucket) : bool :=
  if ((ratePerMin b <=? 0) || (0 <? b_pending b))%bool then false
  else fleb (of_int (burst b)) (projected b t (ratePerMin b)).

Definition sweepReclaimable (t : Time) (m : Memory) : Memory :=
  upd (filter (λ kl, reclaimable t (deref m kl.2) = false) (buckets m))
      (filter (λ kq, Before t (windowEnd kq.2) = true) (quotas m))
      (sweepTick m) (rejected m) m.

Definition entries (m : Memory) : Z := Z.of_nat (size (buckets m)) + Z.of_nat (size (quotas m)).

(** [admit]: whether a new entry may be created. *)
Definition admitEntry (t : Time) : ST Memory bool := λ m,
  if entries m <? maxEntries m then (true, m)
  else
    let m := sweepReclaimable t m in
    if entries m <? maxEntries m then (true, m)
    else (false, with_rejected (wrap64 (rejected m + 1)) m).

Definition tick (t : Time) (m : Memory) : Memory :=
  let m := with_tick (sweepTick m + 1) m in
  if sweepEvery <=? sweepTick m then sweepReclaimable t (with_tick 0 m) else m.

Definition Rejections (m : Memory) : Z := rejected m.

(** Refill a bucket at [t] and charge [cost]. *)
Definition charge_cell (b : bucket) (t : Time) (cost rate bst : Z) : bool * bucket :=
  let tk := cap_at bst (projected b t rate) in
  let ok := fleb (of_int cost) tk in
  (ok, {| tokens := if ok then fsub tk (of_int cost) else tk; last := t;
          b_pending := b_pending b; ratePerMin := rate; burst := bst |}).

Definition charge (l : nat) (t : Time) (cost rate bst : Z) : ST Memory bool := λ m,
  let '(ok, b) := charge_cell (deref m l) t cost rate bst in (ok, store_bucket l b m).

Definition new_bucket (t : Time) (bst : Z) : bucket :=
  {| tokens := of_int bst; last := t; b_pending := 0; ratePerMin := 0; burst := 0 |}.

(** The bucket, or [None] when a new one is refused at capacity. *)
Definition allowRate (key : string) (cost rate bst : Z) : ST Memory (option nat * bool) := λ m,
  let '(t, m) := clock m in
  let m := tick t m in
  match buckets m !! key with
  | Some l => let '(ok, m) := charge l t cost rate bst m in ((Some l, ok), m)
  | None =>
      let '(adm, m) := admitEntry t m in
      if adm then
        let '(l, m) := alloc key (new_bucket t bst) m in
        let '(ok, m) := charge l t cost rate bst m in ((Some l, ok), m)
      else ((None, false), m)
  end.

Definition AllowRate (key : string) (cost rate bst : Z) : ST Memory bool := λ m,
  if cost <? 0 then (false, m)
  else if rate <=? 0 then (true, m)
  else let '((_, ok), m) := allowRate key cost rate bst m in (ok, m).

(** A finish function: the one that does nothing, or a reservation's. *)
Inductive Finish := FinishNothing | FinishReservation (id : nat).

Definition add_pending (d : Z) (b : bucket) : bucket :=
  {| tokens := tokens b; last := last b; b_pending := b_pending b + d;
     ratePerMin := ratePerMin b; burst := burst b |}.

Definition fresh_id (m : Memory) : nat := size (reservations m).

Definition ReserveRate (key : string) (cost rate bst : Z) : ST Memory (option Finish * bool) := λ m,
  if cost <? 0 then ((None, false), m)
  else if rate <=? 0 then ((Some FinishNothing, true), m)
  else
    let '((l, ok), m) := allowRate key cost rate bst m in
    match l, ok with
    | Some l, true =>
        let id := fresh_id m in
        ((Some (FinishReservation id), true),
         with_heap (<[l := add_pending 1 (deref m l)]> (heap m))
                   (<[id := {| r_loc := l; r_cost := cost; r_done := false |}]> (reservations m)) m)
    | _, _ => ((None, false), m)
    end.

Definition settle (cost : Z) (actual : option Z) (b : bucket) : bucket :=
  let b := add_pending (-1) b in
  match actual with
  | None => b
  | Some a =>
      if a <? 0 then b
      else {| tokens := cap_at (burst b) (fadd (tokens b) (of_int (cost - a))); last := last b;
              b_pending := b_pending b; ratePerMin := ratePerMin b; burst := burst b |}
  end.

(** Calling a finish function. *)
Definition finish (f : Finish) (actual : option Z) : ST Memory unit := λ m,
  match f with
  | FinishNothing => (tt, m)
  | FinishReservation id =>
      match reservations m !! id with
      | None => (tt, m)
      | Some r =>
          if r_done r then (tt, m)
          else
            (tt, with_heap (<[r_loc r := settle (r_cost r) actual (deref m (r_loc r))]> (heap m))
                   (<[id := {| r_loc := r_loc r; r_cost := r_cost r; r_done := true |}]>
                      (reservations m)) m)
      end
  end.

Definition curWindow (key : string) (window : Duration) : ST Memory (option quotaWin) := λ m,
  let '(t, m) := clock m in
  let q := quotas m !! key in
  let m := tick t m in
  let fresh m :=
    let v := {| used := 0; windowEnd := Add t window |} in (Some v, with_quotas <[key := v]> m) in
  match q with
  | Some v => if Before t (windowEnd v) then (Some v, m) else fresh m
  | None =>
      let '(adm, m) := admitEntry t m in
      if adm then fresh m else (None, m)
  end.

Definition CheckQuota (key : string) (estimate limit : Z) (window : Duration) : ST Memory Decision := λ m,
  if estimate <? 0 then (Block, m)
  else if limit <=? 0 then (Allow, m)
  else
    let '(q, m) := curWindow key window m in
    match q with
    | None => (Block, m)
    | Some q => (if ((limit <? used q) || (limit - used q <? estimate))%bool then Block else Allow, m)
    end.

Definition DebitQuota (key : string) (actual : Z) (window : Duration) : ST Memory unit := λ m,
  if actual <? 0 then (tt, m)
  else
    let '(q, m) := curWindow key window m in
    match q with
    | None => (tt, m)
    | Some q =>
        (tt, with_quotas <[key := {| used := if MaxInt64 - used q <? actual then MaxInt64
                                             else used q + actual;
                                     windowEnd := windowEnd q |}]> m)
    end.

Definition QuotaUsed (key : string) (window : Duration) : ST Memory Z := λ m,
  match quotas m !! key with
  | None => (0, m)
  | Some q => let '(t, m) := clock m in (if Before t (windowEnd q) then used q else 0, m)
  end.

(** 0.5 and MaxInt64 as floats. *)
Definition half : float64 := fdiv (of_int 1) (of_int 2).

Definition RateUsed (key : string) (rate bst : Z) : ST Memory Z := λ m,
  if rate <=? 0 then (0, m)
  else
    match buckets m !! key with
    | None => (0, m)
    | Some l =>
        let '(t, m) := clock m in
        let tk := cap_at bst (projected (deref m l) t rate) in
        let u := fsub (of_int bst) tk in
        let u := if fltb u (of_int 0) then of_int 0 else u in
        (if fleb (of_int MaxInt64) u then MaxInt64 else to_int (fadd u half), m)
    end.

Definition AdjustRate (key : string) (delta bst : Z) : ST Memory unit := λ m,
  match buckets m !! key with
  | None => (tt, m)
  | Some l =>
      let b := deref m l in
      (tt, store_bucket l {| tokens := cap_at bst (fadd (tokens b) (of_int delta)); last := last b;
                             b_pending := b_pending b; ratePerMin := ratePerMin b; burst := burst b |} m)
  end.

(** ** The interface the governor is written against *)

Class LimiterStore (S F : Type) := {
  ls_allowRate : string → Z → Z → Z → ST S bool;
  ls_reserveRate : string → Z → Z → Z → ST S (option F * bool);
  ls_finish : F → option Z → ST S unit;
  ls_checkQuota : string → Z → Z → Duration → ST S Decision;
  ls_debitQuota : string → Z → Duration → ST S unit;
  ls_quotaUsed : string → Duration → ST S Z;
  ls_rateUsed : string → Z → Z → ST S Z;
  ls_adjustRate : string → Z → Z → ST S unit;
  ls_rejections : S → Z
}.

(** [ls_open s f]: the reservation behind the finish function [f] is unfinished.
    Only a granted reservation opens one, and a fresh one; only calling its finish
    function closes it. *)
Class LimiterLaws (S F : Type) `{LimiterStore S F} := {
  ls_inv : S → Prop;
  ls_open : S → F → Prop;
  allowRate_keeps k c r b s : ls_inv s →
    wp (ls_allowRate k c r b) (λ _ s', ls_inv s' ∧ ∀ f, ls_open s' f ↔ ls_open s f) s;
  checkQuota_keeps k e l w s : ls_inv s →
    wp (ls_checkQuota k e l w) (λ _ s', ls_inv s' ∧ ∀ f, ls_open s' f ↔ ls_open s f) s;
  debitQuota_keeps k a w s : ls_inv s →
    wp (ls_debitQuota k a w) (λ _ s', ls_inv s' ∧ ∀ f, ls_open s' f ↔ ls_open s f) s;
  quotaUsed_keeps k w s : ls_inv s →
    wp (ls_quotaUsed k w) (λ _ s', ls_inv s' ∧ ∀ f, ls_open s' f ↔ ls_open s f) s;
  rateUsed_keeps k r b s : ls_inv s →
    wp (ls_rateUsed k r b) (λ _ s', ls_inv s' ∧ ∀ f, ls_open s' f ↔ ls_open s f) s;
  reserve_opens k c r b s : ls_inv s → 0 < r →
    wp (ls_reserveRate k c r b) (λ x s', ls_inv s' ∧
      if x.2
      then ∃ f, x.1 = Some f ∧ ¬ ls_open s f ∧ ∀ f', ls_open s' f' ↔ ls_open s f' ∨ f' = f
      else ∀ f', ls_open s' f' ↔ ls_open s f') s;
  finish_closes f a s : ls_inv s →
    wp (ls_finish f a) (λ _ s', ls_inv s' ∧ ∀ f', ls_open s' f' ↔ ls_open s f' ∧ f' ≠ f) s
}.

#[export] Instance Memory_LimiterStore : LimiterStore Memory Finish := {|
  ls_allowRate := AllowRate; ls_reserveRate := ReserveRate; ls_finish := finish;
  ls_checkQuota := CheckQuota; ls_debitQuota := DebitQuota; ls_quotaUsed := QuotaUsed;
  ls_rateUsed := RateUsed; ls_adjustRate := AdjustRate; ls_rejections := Rejections
|}.

(** ** The invariant *)

(** The unfinished reservations on a location. *)
Definition open_at (rs : gmap nat reservation) (l : nat) : nat :=
  size (filter (λ kr, r_loc kr.2 = l ∧ r_done kr.2 = false) rs).

(** Map entries point to distinct live cells; an unfinished reservation's bucket is
    still in the map; a bucket's pending count is its number of unfinished
    reservations; the entries are within capacity, the quotas in range. *)
Record inv (m : Memory) : Prop := {
  inv_loc k l : buckets m !! k = Some l → (l < fresh_loc m)%nat;
  inv_inj k k' l : buckets m !! k = Some l → buckets m !! k' = Some l → k = k';
  inv_pin id r : reservations m !! id = Some r → r_done r = false →
    ∃ k, buckets m !! k = Some (r_loc r);
  inv_count l : b_pending (deref m l) = Z.of_nat (open_at (reservations m) l);
  inv_id id : is_Some (reservations m !! id) → (id < fresh_id m)%nat;
  inv_cap : entries m <= maxEntries m;
  inv_used k q : quotas m !! k = Some q → nat63 (used q)
}.

Lemma open_pending m id r :
  inv m → reservations m !! id = Some r → r_done r = false → 0 < b_pending (deref m (r_loc r)).
Proof.
  intros Hi Hr Hd. rewrite (inv_count _ Hi). unfold open_at.
  assert (size (filter (λ kr : nat * reservation, r_loc kr.2 = r_loc r ∧ r_done kr.2 = false)
            (reservations m)) ≠ 0%nat); [|lia].
  apply (map_size_ne_0_lookup_2 _ id). exists r. by apply map_lookup_filter_Some.
Qed.

(** [m'] differs from [m] by reclaimed entries, clock readings and counters only. *)
Record swept (m m' : Memory) : Prop := {
  sw_buckets k l : buckets m' !! k = Some l → buckets m !! k = Some l;
  sw_keep k l : buckets m !! k = Some l → 0 < b_pending (deref m l) → buckets m' !! k = Some l;
  sw_quotas k q : quotas m' !! k = Some q → quotas m !! k = Some q;
  sw_entries : entries m' <= entries m;
  sw_max : maxEntries m' = maxEntries m;
  sw_heap : heap m' = heap m;
  sw_fresh : fresh_loc m' = fresh_loc m;
  sw_res : reservations m' = reservations m
}.

Lemma swept_refl m : swept m m.
Proof. by split. Qed.

Lemma swept_trans m1 m2 m3 : swept m1 m2 → swept m2 m3 → swept m1 m3.
Proof.
  intros [] []. split; try congruence; try lia; eauto.
  intros k l Hk Hp. apply sw_keep1; [eauto|]. unfold deref in *. congruence.
Qed.

Lemma swept_sweep t m : swept m (sweepReclaimable t m).
Proof.
  split; try done; simpl.
  - intros k l Hk. by apply map_lookup_filter_Some in Hk as [? _].
  - intros k l Hk Hp. apply map_lookup_filter_Some. split; [done|]. simpl.
    unfold reclaimable. replace (0 <? b_pending (deref m l)) with true by (symmetry; by apply Z.ltb_lt).
    by rewrite orb_true_r.
  - intros k q Hk. by apply map_lookup_filter_Some in Hk as [? _].
  - unfold entries. simpl.
    pose proof (map_subseteq_size _ _ (map_filter_subseteq (λ kl, reclaimable t (deref m kl.2) = false) (buckets m))).
    pose proof (map_subseteq_size _ _ (map_filter_subseteq (λ kq, Before t (windowEnd kq.2) = true) (quotas m))).
    lia.
Qed.

Lemma swept_clock m : swept m (clock m).2.
Proof. by split. Qed.

Lemma swept_tick t m : swept m (tick t m).
Proof.
  unfold tick. case_match; [|by split].
  eapply swept_trans; [|apply swept_sweep]. by split.
Qed.

Lemma admit_cases t m ok m' :
  admitEntry t m = (ok, m') → swept m m' ∧ (ok = true → entries m' < maxEntries m').
Proof.
  unfold admitEntry. destruct (_ <? _) eqn:E; [intros [= <- <-]; bsplit; split; [apply swept_refl|done]|].
  destruct (entries (sweepReclaimable t m) <? _) eqn:E'; intros [= <- <-]; bsplit.
  - split; [apply swept_sweep|]. intros _. done.
  - split; [|done]. eapply swept_trans; [apply (swept_sweep t)|]. by split.
Qed.

Lemma inv_swept m m' : swept m m' → inv m → inv m'.
Proof.
  intros Hs [L I P C D E U].
  assert (∀ l, deref m' l = deref m l) as Hd by (intros; unfold deref; by rewrite (sw_heap _ _ Hs)).
  assert (inv m) as Hm by by split.
  split.
  - intros k l Hk. rewrite (sw_fresh _ _ Hs). by apply (L k), (sw_buckets _ _ Hs).
  - intros k k' l Hk Hk'. by apply (I k k' l); apply (sw_buckets _ _ Hs).
  - intros id r Hr Hdn. rewrite (sw_res _ _ Hs) in Hr. destruct (P id r Hr Hdn) as [k Hk].
    exists k. apply (sw_keep _ _ Hs); [done|]. by eapply open_pending.
  - intros l. rewrite Hd, (sw_res _ _ Hs). apply C.
  - intros id Hid. unfold fresh_id. rewrite (sw_res _ _ Hs) in *. by apply D.
  - pose proof (sw_entries _ _ Hs). rewrite (sw_max _ _ Hs). lia.
  - intros k q Hq. by apply (U k), (sw_quotas _ _ Hs).
Qed.

(** Rewriting a cell without changing its pending count. *)
Lemma deref_store l b m l' : deref (store_bucket l b m) l' = if decide (l = l') then b else deref m l'.
Proof.
  unfold deref, store_bucket. simpl. case_decide as E.
  - subst. by rewrite lookup_insert_eq.
  - by rewrite lookup_insert_ne.
Qed.

Lemma inv_store l b m : b_pending b = b_pending (deref m l) → inv m → inv (store_bucket l b m).
Proof.
  intros Hb [L I P C D E U]. split; try done.
  intros l'. rewrite deref_store. case_decide as He; [subst; by rewrite Hb|]. apply C.
Qed.

Lemma inv_alloc key t bst m :
  inv m → buckets m !! key = None → entries m < maxEntries m →
  inv (alloc key (new_bucket t bst) m).2.
Proof.
  intros [L I P C D E U] Hn He. split; simpl.
  - intros k l [[<- <-]|[_ Hk]]%lookup_insert_Some; [lia|]. pose proof (L k l Hk). lia.
  - intros k k' l [[<- <-]|[Hne Hk]]%lookup_insert_Some [[<- Hl]|[Hne' Hk']]%lookup_insert_Some; try done.
    + apply L in Hk'. lia.
    + subst l. apply L in Hk. lia.
    + by eapply I.
  - intros id r Hr Hd. destruct (P id r Hr Hd) as [k Hk]. exists k.
    rewrite lookup_insert_ne by congruence. done.
  - intros l. unfold deref. simpl. destruct (decide (l = fresh_loc m)) as [->|Hl].
    + rewrite lookup_insert_eq. simpl.
      assert (open_at (reservations m) (fresh_loc m) = 0%nat) as ->; [|done].
      unfold open_at. apply map_size_empty_iff, map_empty_filter, map_Forall_lookup.
      intros id r Hr [Hl Hd]. simpl in *. destruct (P id r Hr Hd) as [k Hk].
      apply L in Hk. lia.
    + rewrite lookup_insert_ne by done. apply C.
  - intros id Hid. by apply D.
  - unfold entries in *. simpl. rewrite map_size_insert_None by done. lia.
  - done.
Qed.

Lemma deref_alloc key b m l :
  deref (alloc key b m).2 l = if decide (l = fresh_loc m) then b else deref m l.
Proof.
  unfold deref, alloc. simpl. case_decide as E; [subst; by rewrite lookup_insert_eq|by rewrite lookup_insert_ne].
Qed.

(** What [allowRate] leaves: the invariant, the reservations, every pinned bucket,
    and the bucket it returns in the map. *)
Record touched (m m' : Memory) : Prop := {
  tc_inv : inv m → inv m';
  tc_res : reservations m' = reservations m;
  tc_keep k l : buckets m !! k = Some l → 0 < b_pending (deref m l) → buckets m' !! k = Some l
}.

Lemma charge_touched l t c r b m : touched m (charge l t c r b m).2.
Proof. unfold charge. simpl. split; try done. by apply inv_store. Qed.

Lemma swept_touched m m' : swept m m' → touched m m'.
Proof. intros Hs. split; [by apply inv_swept|apply (sw_res _ _ Hs)|apply (sw_keep _ _ Hs)]. Qed.

Lemma allowRate_spec key c r b m l ok m' :
  inv m → allowRate key c r b m = ((l, ok), m') →
  touched m m' ∧ (∀ l', l = Some l' → buckets m' !! key = Some l') ∧ (ok = true → l ≠ None).
Proof.
  intros Hi. unfold allowRate. destruct (clock m) as [t m0] eqn:Ec.
  assert (swept m m0) as S0 by (pose proof (swept_clock m) as H; by rewrite Ec in H).
  set (m1 := tick t m0). assert (swept m m1) as S1 by (eapply swept_trans; [done|apply swept_tick]).
  destruct (buckets m1 !! key) as [l1|] eqn:El.
  - destruct (charge l1 t c r b m1) as [ok' m2] eqn:Eh. intros [= <- <- <-].
    pose proof (charge_touched l1 t c r b m1) as [T1 T2 T3]. rewrite Eh in *. simpl in *.
    assert (buckets m2 = buckets m1) as Hb by (unfold charge in Eh; by injection Eh as _ <-).
    split; [|split; [|done]].
    + split; [intros _; by apply T1, (inv_swept m)| |].
      * by rewrite T2, (sw_res _ _ S1).
      * intros k x Hk Hp. rewrite Hb. by apply (sw_keep _ _ S1).
    + intros l' [= <-]. by rewrite Hb.
  - destruct (admitEntry t m1) as [adm m2] eqn:Ea. apply admit_cases in Ea as [S2 Hcap].
    assert (swept m m2) as S12 by by eapply swept_trans.
    destruct adm.
    + destruct (alloc key (new_bucket t b) m2) as [l2 m3] eqn:Eal.
      destruct (charge l2 t c r b m3) as [ok' m4] eqn:Eh. intros [= <- <- <-].
      assert (buckets m2 !! key = None) as Hn.
      { destruct (buckets m2 !! key) eqn:E; [|done]. apply (sw_buckets _ _ S2) in E. congruence. }
      assert (m3 = (alloc key (new_bucket t b) m2).2) as E3 by by rewrite Eal.
      assert (m4 = (charge l2 t c r b m3).2) as E4 by by rewrite Eh.
      assert (buckets m4 = <[key := fresh_loc m2]> (buckets m2)) as Hb by by subst m4 m3.
      assert (l2 = fresh_loc m2) as -> by (unfold alloc in Eal; by injection Eal as <- _).
      split; [split|].
      * intros _. subst m4. apply charge_touched. subst m3. apply inv_alloc; [by eapply inv_swept|done|auto].
      * subst m4 m3. apply (sw_res _ _ S12).
      * intros k x Hk Hp. rewrite Hb. pose proof (sw_keep _ _ S12 k x Hk Hp) as Hk2.
        rewrite lookup_insert_ne; [done|congruence].
      * split; [|done]. intros l' [= <-]. by rewrite Hb, lookup_insert_eq.
    + intros [= <- <- <-]. split; [by apply swept_touched|done].
Qed.

Lemma open_at_new rs id r l :
  rs !! id = None → r_done r = false →
  open_at (<[id := r]> rs) l = (open_at rs l + if decide (r_loc r = l) then 1 else 0)%nat.
Proof.
  intros Hn Hd. unfold open_at. case_decide as Hl.
  - rewrite map_filter_insert_True by done. rewrite map_size_insert_None; [lia|].
    apply map_lookup_filter_None. by left.
  - rewrite map_filter_insert_False by (by intros [? _]). rewrite delete_id by done. lia.
Qed.

Lemma open_at_finish rs id r l :
  rs !! id = Some r → r_done r = false →
  (open_at (<[id := {| r_loc := r_loc r; r_cost := r_cost r; r_done := true |}]> rs) l
   + if decide (r_loc r = l) then 1 else 0)%nat = open_at rs l.
Proof.
  intros Hr Hd. unfold open_at. rewrite map_filter_insert_False by (by intros [_ ?]).
  rewrite map_filter_delete. case_decide as Hl.
  - assert (is_Some (filter (λ kr : nat * reservation, r_loc kr.2 = l ∧ r_done kr.2 = false) rs !! id)) as Hs.
    { exists r. by apply map_lookup_filter_Some. }
    destruct Hs as [x Hx]. rewrite map_size_delete_Some by eauto.
    assert (size (filter (λ kr : nat * reservation, r_loc kr.2 = l ∧ r_done kr.2 = false) rs) ≠ 0%nat); [|lia].
    apply (map_size_ne_0_lookup_2 _ id). eauto.
  - rewrite delete_id; [lia|]. apply map_lookup_filter_None. right. intros x Hx [? _].
    simpl in *. congruence.
Qed.

Lemma inv_reserve m l cost key :
  inv m → buckets m !! key = Some l →
  inv (with_heap (<[l := add_pending 1 (deref m l)]> (heap m))
        (<[fresh_id m := {| r_loc := l; r_cost := cost; r_done := false |}]> (reservations m)) m).
Proof.
  intros [L I P C D E U] Hk.
  assert (reservations m !! fresh_id m = None) as Hn.
  { apply eq_None_not_Some. intros H. apply D in H. lia. }
  split; simpl; try done.
  - intros id r [[<- <-]|[_ Hr]]%lookup_insert_Some Hd; [by exists key|by eapply P].
  - intros l'. rewrite open_at_new by done. unfold deref. simpl. case_decide as Hl.
    + subst l'. rewrite lookup_insert_eq. simpl. fold (deref m l). rewrite C. lia.
    + rewrite lookup_insert_ne by done. fold (deref m l'). rewrite C. lia.
  - intros id Hid. unfold fresh_id in *. simpl. rewrite map_size_insert_None by done.
    apply lookup_insert_is_Some in Hid as [<-|[_ Hid]]; [lia|]. apply D in Hid. lia.
Qed.

Lemma settle_pending c a b : b_pending (settle c a b) = b_pending b - 1.
Proof. unfold settle. destruct a as [a|]; [destruct (a <? 0)|]; simpl; lia. Qed.

Lemma inv_finish m id a r :
  inv m → reservations m !! id = Some r → r_done r = false →
  inv (with_heap (<[r_loc r := settle (r_cost r) a (deref m (r_loc r))]> (heap m))
        (<[id := {| r_loc := r_loc r; r_cost := r_cost r; r_done := true |}]> (reservations m)) m).
Proof.
  intros [L I P C D E U] Hr Hd. split; simpl; try done.
  - intros id' r' [[<- <-]|[_ Hr']]%lookup_insert_Some Hd'; [done|by eapply P].
  - intros l. pose proof (open_at_finish (reservations m) id r l Hr Hd) as Ho.
    unfold deref. simpl. case_decide as Hl.
    + subst l. rewrite lookup_insert_eq. simpl. fold (deref m (r_loc r)).
      rewrite settle_pending, C. lia.
    + rewrite lookup_insert_ne by done. fold (deref m l). rewrite C. lia.
  - intros id' Hid. unfold fresh_id in *. simpl. rewrite map_size_insert_Some by eauto.
    apply lookup_insert_is_Some in Hid as [<-|[_ Hid]]; [|by apply D]. apply D. eauto.
Qed.

(** ** Quota windows *)

Lemma with_quotas_inv f m m0 :
  inv m0 → buckets m = buckets m0 → heap m = heap m0 → fresh_loc m = fresh_loc m0 →
  reservations m = reservations m0 → entries (with_quotas f m) <= maxEntries m →
  (∀ k q, f (quotas m) !! k = Some q → nat63 (used q)) → inv (with_quotas f m).
Proof.
  intros [L I P C D E U] Hb Hh Hf Hr He Hq. split; simpl; rewrite ?Hb, ?Hf, ?Hr; try done.
  - intros l. unfold deref. simpl. rewrite Hh. apply C.
  - intros id. unfold fresh_id. simpl. rewrite Hr. apply D.
Qed.

Lemma entries_insert k v m :
  (quotas m !! k = None → entries m < maxEntries m) → entries m <= maxEntries m →
  entries (with_quotas <[k := v]> m) <= maxEntries m.
Proof.
  intros Hn He. unfold entries in *. simpl. destruct (quotas m !! k) eqn:E.
  - rewrite map_size_insert_Some by eauto. lia.
  - rewrite map_size_insert_None by done. specialize (Hn eq_refl). lia.
Qed.

(** A window swept while it is being rolled leaves its own slot free. *)
Lemma swept_frees k q m m' :
  swept m m' → quotas m !! k = Some q → quotas m' !! k = None → entries m' < entries m.
Proof.
  intros Hs Hq Hn. unfold entries.
  assert (size (buckets m') ≤ size (buckets m))%nat.
  { apply map_subseteq_size. apply map_subseteq_spec. intros. by apply (sw_buckets _ _ Hs). }
  assert (size (quotas m') < size (quotas m))%nat; [|lia].
  assert (quotas m' ⊆ delete k (quotas m)) as Hsub.
  { apply map_subseteq_spec. intros k' q' Hk'. apply lookup_delete_Some. split; [congruence|].
    by apply (sw_quotas _ _ Hs). }
  apply map_subseteq_size in Hsub. rewrite map_size_delete_Some in Hsub by eauto.
  assert (size (quotas m) ≠ 0%nat) by (apply (map_size_ne_0_lookup_2 _ k); eauto). lia.
Qed.

Lemma swept_inv_quotas f m0 m :
  inv m0 → swept m0 m → entries (with_quotas f m) <= maxEntries m →
  (∀ k q, f (quotas m) !! k = Some q → nat63 (used q)) → inv (with_quotas f m).
Proof. intros Hi Hs. apply (with_quotas_inv f m m); try done. by eapply inv_swept. Qed.

(** [curWindow], case by case. *)
Inductive window_case (key : string) (w : Duration) (m m' : Memory) : option quotaWin → Prop :=
| wc_live q m1 : swept m m1 → quotas m !! key = Some q → Before (now m (reads m)) (windowEnd q) = true →
    quotas m1 !! key = Some q → m' = m1 → window_case key w m m' (Some q)
| wc_fresh m1 : swept m m1 →
    (∀ q, quotas m !! key = Some q → Before (now m (reads m)) (windowEnd q) = false) →
    (quotas m1 !! key = None → entries m1 < maxEntries m1) →
    m' = with_quotas <[key := {| used := 0; windowEnd := Add (now m (reads m)) w |}]> m1 →
    window_case key w m m' (Some {| used := 0; windowEnd := Add (now m (reads m)) w |})
| wc_full : swept m m' → quotas m !! key = None → window_case key w m m' None.

Lemma tick_keeps t m key q :
  quotas m !! key = Some q → Before t (windowEnd q) = true → quotas (tick t m) !! key = Some q.
Proof.
  intros Hq Hl. unfold tick. case_match; [|done]. simpl. by apply map_lookup_filter_Some.
Qed.

Lemma curWindow_cases key w m r m' :
  inv m → curWindow key w m = (r, m') → window_case key w m m' r.
Proof.
  intros Hi. unfold curWindow. destruct (clock m) as [t m0] eqn:Ec.
  assert (t = now m (reads m) ∧ m0 = (clock m).2) as [-> E0] by (unfold clock in *; by injection Ec as <- <-).
  assert (swept m (tick (now m (reads m)) m0)) as S1.
  { subst m0. eapply swept_trans; [apply swept_clock|apply swept_tick]. }
  assert (quotas m0 = quotas m) as Hq0 by by subst m0. rewrite Hq0.
  set (m1 := tick (now m (reads m)) m0) in *.
  destruct (quotas m !! key) as [q|] eqn:Eq.
  - destruct (Before _ (windowEnd q)) eqn:El; intros [= <- <-].
    + eapply wc_live; [done..| |done]. apply tick_keeps; [by rewrite Hq0|done].
    + eapply wc_fresh; [done|naive_solver| |done]. intros Hn.
      pose proof (swept_frees _ _ _ _ S1 Eq Hn). pose proof (inv_cap _ Hi). rewrite (sw_max _ _ S1). lia.
  - destruct (admitEntry _ m1) as [adm m2] eqn:Ea. apply admit_cases in Ea as [S2 Hcap].
    assert (swept m m2) as S12 by by eapply swept_trans.
    destruct adm; intros [= <- <-].
    + eapply wc_fresh; [done|naive_solver|auto|done].
    + by apply wc_full.
Qed.

Lemma window_touched key w m m' r : window_case key w m m' r → inv m → touched m m' ∧
  (∀ q, r = Some q → quotas m' !! key = Some q ∧ nat63 (used q)).
Proof.
  intros H Hi. destruct H as [q m1 Hs Hq Hl Hq1 ->|m1 Hs Hd Hn ->|Hs Hn].
  - split; [by apply swept_touched|]. intros ? [= <-]. split; [done|]. by apply (inv_used _ Hi key).
  - split.
    + split; [|apply (sw_res _ _ Hs)|apply (sw_keep _ _ Hs)]. intros _.
      apply (swept_inv_quotas _ m); [done|done| |].
      * apply entries_insert; [done|]. pose proof (inv_cap _ (inv_swept _ _ Hs Hi)). done.
      * intros k x [[<- <-]|[_ Hx]]%lookup_insert_Some; [by vm_compute|].
        by apply (inv_used _ Hi k), (sw_quotas _ _ Hs).
    + intros ? [= <-]. simpl. rewrite lookup_insert_eq. split; [done|by vm_compute].
  - split; [by apply swept_touched|done].
Qed.

Lemma debit_inv key q a m :
  inv m → quotas m !! key = Some q → 0 <= a →
  inv (with_quotas <[key := {| used := if MaxInt64 - used q <? a then MaxInt64 else used q + a;
                              windowEnd := windowEnd q |}]> m).
Proof.
  intros Hi Hq Ha. pose proof (inv_used _ Hi _ _ Hq).
  apply (with_quotas_inv _ m m); try done.
  - apply entries_insert; [congruence|apply (inv_cap _ Hi)].
  - intros k x [[<- <-]|[_ Hx]]%lookup_insert_Some; [|by apply (inv_used _ Hi k)].
    simpl. case_match; bsplit; int_lia.
Qed.

(** ** Operations as data *)

Inductive op :=
| OpAllowRate (key : string) (cost rate bst : Z)
| OpReserveRate (key : string) (cost rate bst : Z)
| OpFinish (f : Finish) (actual : option Z)
| OpCheckQuota (key : string) (estimate limit : Z) (w : Duration)
| OpDebitQuota (key : string) (actual : Z) (w : Duration)
| OpQuotaUsed (key : string) (w : Duration)
| OpRateUsed (key : string) (rate bst : Z)
| OpAdjustRate (key : string) (delta bst : Z).

Definition step (o : op) (m : Memory) : Memory :=
  match o with
  | OpAllowRate k c r b => (AllowRate k c r b m).2
  | OpReserveRate k c r b => (ReserveRate k c r b m).2
  | OpFinish f a => (finish f a m).2
  | OpCheckQuota k e l w => (CheckQuota k e l w m).2
  | OpDebitQuota k a w => (DebitQuota k a w m).2
  | OpQuotaUsed k w => (QuotaUsed k w m).2
  | OpRateUsed k r b => (RateUsed k r b m).2
  | OpAdjustRate k d b => (AdjustRate k d b m).2
  end.

Definition run (os : list op) (m : Memory) : Memory := foldl (λ m o, step o m) m os.

Lemma inv_new clk : inv (NewMemory clk).
Proof. split; simpl; try done. intros id [r Hr]. done. Qed.

(** What one operation does to an unfinished reservation [id] of [key]'s bucket. *)
Definition holds (m : Memory) (id : nat) (key : string) (l : nat) (cost : Z) : Prop :=
  reservations m !! id = Some {| r_loc := l; r_cost := cost; r_done := false |}
  ∧ buckets m !! key = Some l.

Lemma touched_holds m m' id key l c : inv m → touched m m' → holds m id key l c → holds m' id key l c.
Proof.
  intros Hi [_ Hr Hk] [H1 H2]. split; [by rewrite Hr|]. apply Hk; [done|].
  exact (open_pending m id _ Hi H1 eq_refl).
Qed.

Lemma reserve_cases key c r b m f ok m' :
  inv m → ReserveRate key c r b m = ((f, ok), m') →
  touched m m' ∨
  ∃ m1 l, touched m m1 ∧ buckets m1 !! key = Some l ∧ inv m1 ∧
    ok = true ∧ f = Some (FinishReservation (fresh_id m1)) ∧
    m' = with_heap (<[l := add_pending 1 (deref m1 l)]> (heap m1))
           (<[fresh_id m1 := {| r_loc := l; r_cost := c; r_done := false |}]> (reservations m1)) m1.
Proof.
  intros Hi. unfold ReserveRate.
  destruct (c <? 0); [intros [= _ _ <-]; left; apply swept_touched, swept_refl|].
  destruct (r <=? 0); [intros [= _ _ <-]; left; apply swept_touched, swept_refl|].
  destruct (allowRate key c r b m) as [[l ok'] m1] eqn:Ea.
  destruct (allowRate_spec _ _ _ _ _ _ _ _ Hi Ea) as (Ht & Hl & Hok).
  destruct l as [l|]; [destruct ok'|]; intros [= <- <- <-].
  - right. exists m1, l. pose proof (tc_inv _ _ Ht Hi). eauto 10.
  - by left.
  - by left.
Qed.

Lemma step_inv o m : inv m → inv (step o m).
Proof.
  intros Hi. destruct o as [k c r b|k c r b|f a|k e l w|k a w|k w|k r b|k d b]; simpl.
  - unfold AllowRate. case_match; [done|]. case_match; [done|].
    destruct (allowRate k c r b m) as [[l ok] m'] eqn:Ea.
    by apply (allowRate_spec _ _ _ _ _ _ _ _ Hi) in Ea as [[T _ _] _]; apply T.
  - destruct (ReserveRate k c r b m) as [[f ok] m'] eqn:Er.
    apply (reserve_cases _ _ _ _ _ _ _ _ Hi) in Er as [[T _ _]|(m1 & l & _ & Hk & Hi1 & _ & _ & ->)].
    + by apply T.
    + by eapply inv_reserve.
  - unfold finish. destruct f as [|id]; [done|].
    destruct (reservations m !! id) as [r|] eqn:Er; [|done].
    destruct (r_done r) eqn:Ed; [done|]. by apply inv_finish.
  - unfold CheckQuota. case_match; [done|]. case_match; [done|].
    destruct (curWindow k w m) as [q m'] eqn:Ec.
    apply (curWindow_cases _ _ _ _ _ Hi) in Ec. apply window_touched in Ec as [[T _ _] _]; [|done].
    destruct q; by apply T.
  - unfold DebitQuota. destruct (a <? 0) eqn:Ea; [done|]. bsplit.
    destruct (curWindow k w m) as [q m'] eqn:Ec.
    apply (curWindow_cases _ _ _ _ _ Hi) in Ec. apply window_touched in Ec as [[T _ _] Hq]; [|done].
    destruct q as [q|]; [|by apply T]. destruct (Hq q eq_refl) as [Hk _].
    apply debit_inv; [by apply T|done|done].
  - unfold QuotaUsed. case_match; [|done]. apply (inv_swept m); [|done]. apply swept_clock.
  - unfold RateUsed. case_match; [done|]. case_match; [|done]. apply (inv_swept m); [|done]. apply swept_clock.
  - unfold AdjustRate. case_match; [|done]. by apply inv_store.
Qed.

Lemma step_holds o m id key l c :
  inv m → (∀ a, o ≠ OpFinish (FinishReservation id) a) → holds m id key l c → holds (step o m) id key l c.
Proof.
  intros Hi Hne Hh. destruct o as [k cc r b|k cc r b|f a|k e li w|k a w|k w|k r b|k d b]; simpl.
  - unfold AllowRate. case_match; [done|]. case_match; [done|].
    destruct (allowRate k cc r b m) as [[l' ok] m'] eqn:Ea.
    apply (allowRate_spec _ _ _ _ _ _ _ _ Hi) in Ea as [T _]. by apply (touched_holds m m').
  - destruct (ReserveRate k cc r b m) as [[f ok] m'] eqn:Er.
    apply (reserve_cases _ _ _ _ _ _ _ _ Hi) in Er as [T|(m1 & l1 & T & Hk & Hi1 & _ & _ & ->)].
    + by apply (touched_holds m m').
    + apply (touched_holds m m1) in Hh; [|done|done]. destruct Hh as [H1 H2]. split; [|done]. simpl.
      rewrite lookup_insert_ne; [done|]. intros <-. pose proof (inv_id _ Hi1 (fresh_id m1)) as Hid.
      rewrite H1 in Hid. specialize (Hid ltac:(eauto)). lia.
  - unfold finish. destruct f as [|id']; [done|].
    destruct (reservations m !! id') as [r|] eqn:Er; [|done].
    destruct (r_done r) eqn:Ed; [done|]. destruct Hh as [H1 H2]. split; [|done]. simpl.
    rewrite lookup_insert_ne; [done|]. intros ->. by apply (Hne a).
  - unfold CheckQuota. case_match; [done|]. case_match; [done|].
    destruct (curWindow k w m) as [q m'] eqn:Ec.
    apply (curWindow_cases _ _ _ _ _ Hi) in Ec. apply window_touched in Ec as [T _]; [|done].
    destruct q; by apply (touched_holds m m').
  - unfold DebitQuota. destruct (a <? 0) eqn:Ea; [done|].
    destruct (curWindow k w m) as [q m'] eqn:Ec.
    apply (curWindow_cases _ _ _ _ _ Hi) in Ec. apply window_touched in Ec as [T _]; [|done].
    pose proof (touched_holds _ _ _ _ _ _ Hi T Hh) as [H1 H2]. by destruct q.
  - unfold QuotaUsed. by case_match.
  - unfold RateUsed. case_match; [done|]. by case_match.
  - unfold AdjustRate. by case_match.
Qed.

(** A reserved bucket is never lost: whatever operations run between a granted
    reservation and its settlement (sweeps, refusals at capacity, other
    settlements), the key still maps to the very bucket the finish function
    captured, and that bucket is counted pending; so the settlement corrects the
    balance later checks read. *)
Theorem reservation_survives clk os0 key cost rate bst f m1 os :
  let m0 := run os0 (NewMemory clk) in
  ReserveRate key cost rate bst m0 = ((Some f, true), m1) → 0 < rate →
  Forall (λ o, ∀ a, o ≠ OpFinish f a) os →
  ∃ id l, f = FinishReservation id ∧ holds m1 id key l cost ∧ holds (run os m1) id key l cost ∧
    0 < b_pending (deref (run os m1) l).
Proof.
  cbv zeta. intros Hr Hrate Hf.
  assert (∀ os m, inv m → inv (run os m)) as Hinv.
  { intros os'. induction os' as [|o os' IH]; intros m Hm; simpl; [done|]. by apply IH, step_inv. }
  pose proof (Hinv os0 _ (inv_new clk)) as Hi0.
  pose proof Hr as Hr'. revert Hr'. unfold ReserveRate.
  destruct (cost <? 0); [done|]. destruct (rate <=? 0) eqn:Er; [bsplit; lia|].
  destruct (allowRate key cost rate bst (run os0 (NewMemory clk))) as [[l ok] m] eqn:Ea.
  destruct (allowRate_spec _ _ _ _ _ _ _ _ Hi0 Ea) as (T & Hl & _).
  destruct l as [l|]; [|done]. destruct ok; [|done]. intros [= <- Hm1].
  assert (holds m1 (fresh_id m) key l cost) as Hh.
  { subst m1. split; simpl; [by rewrite lookup_insert_eq|]. by apply Hl. }
  assert (inv m1) as Hi1.
  { subst m1. eapply inv_reserve; [by apply (tc_inv _ _ T)|by apply Hl]. }
  exists (fresh_id m), l. split; [done|]. split; [done|].
  assert (holds (run os m1) (fresh_id m) key l cost ∧ inv (run os m1)) as [Hh2 Hi2].
  { clear Hm1 Ea T Hl Hr. revert m1 Hh Hi1. induction Hf as [|o os Ho Hos IH]; intros m1 Hh Hi1; simpl; [done|].
    apply IH; [by apply step_holds|by apply step_inv]. }
  split; [done|]. destruct Hh2 as [H1 H2]. exact (open_pending _ _ _ Hi2 H1 eq_refl).
Qed.

(** The store never outgrows its capacity and no counter leaves its range:
    after any sequence of operations the entries are at most [defaultMaxEntries],
    every quota counter is a nonnegative [int64], and a bucket's pending count is
    exactly its number of unfinished reservations. *)
Theorem limiter_invariant clk os :
  let m := run os (NewMemory clk) in
  entries m <= maxEntries m ∧ map_Forall (λ _ q, nat63 (used q)) (quotas m)
  ∧ (∀ l, b_pending (deref m l) = Z.of_nat (open_at (reservations m) l))
  ∧ ∀ k k' l, buckets m !! k = Some l → buckets m !! k' = Some l → k = k'.
Proof.
  cbv zeta. assert (∀ m, inv m → inv (run os m)) as Hinv.
  { induction os as [|o os' IH]; intros m Hm; simpl; [done|]. by apply IH, step_inv. }
  destruct (Hinv _ (inv_new clk)) as [L I P C D E U]. split_and!; try done.
Qed.

(** Settlement happens once: calling a finish function again, with any usage,
    changes nothing. *)
Theorem finish_once f a b m : (finish f b (finish f a m).2).2 = (finish f a m).2.
Proof.
  unfold finish. destruct f as [|id]; [done|].
  destruct (reservations m !! id) as [r|] eqn:Er; simpl; [|by rewrite Er].
  destruct (r_done r) eqn:Ed; simpl; [by rewrite Er, Ed|]. simpl. by rewrite lookup_insert_eq.
Qed.

(** Quota decisions are exact: with usage [u] in the open window (none: 0), an
    estimate is admitted exactly when it is nonnegative and either there is no
    limit or [u] plus the estimate is within it, as an unbounded sum; the only
    other refusal is a new key at capacity. *)
Theorem CheckQuota_spec key e l w m d m' :
  inv m → CheckQuota key e l w m = (d, m') →
  let u := match quotas m !! key with
           | Some q => if Before (now m (reads m)) (windowEnd q) then used q else 0
           | None => 0 end in
  (d = Allow → 0 <= e ∧ (l <= 0 ∨ u + e <= l))
  ∧ (d = Block → e < 0 ∨ (0 < l ∧ l < u + e) ∨ (0 < l ∧ quotas m !! key = None ∧ quotas m' !! key = None)).
Proof.
  intros Hi. unfold CheckQuota. cbv zeta.
  destruct (e <? 0) eqn:Ee; [intros [= <- <-]; bsplit; split; [done|by left]|].
  destruct (l <=? 0) eqn:El; [intros [= <- <-]; bsplit; split; [lia|done]|]. bsplit.
  destruct (curWindow key w m) as [q m1] eqn:Ec.
  apply (curWindow_cases _ _ _ _ _ Hi) in Ec.
  destruct Ec as [q m2 Hs Hq Hl Hq1 ->|m2 Hs Hd Hn ->|Hs Hn].
  - rewrite Hq, Hl. destruct (_ || _)%bool eqn:E; intros [= <- <-]; split; try done; intros _.
    + right; left. bcases; lia.
    + bsplit. lia.
  - assert (match quotas m !! key with
            | Some q => if Before (now m (reads m)) (windowEnd q) then used q else 0
            | None => 0 end = 0) as ->.
    { destruct (quotas m !! key) as [q|] eqn:E; [|done]. by rewrite (Hd q). }
    simpl. destruct (_ || _)%bool eqn:E; intros [= <- <-]; split; try done; intros _.
    + right; left. bcases; lia.
    + bsplit. lia.
  - rewrite Hn. intros [= <- <-]. split; [done|]. intros _. right; right. split; [lia|]. split; [done|].
    destruct (quotas m1 !! key) eqn:E; [|done]. apply (sw_quotas _ _ Hs) in E. congruence.
Qed.

(** ** Reclaiming a full bucket is unobservable *)

(** A float that is neither zero, infinite nor a NaN; every positive [int64] and
    every per-second rate converts to one. *)
Definition plain (x : float64) : bool := match x with S754_finite _ _ _ => true | _ => false end.

Lemma compare_eq_plain x y : plain x = true → SFcompare x y = Some Eq → x = y.
Proof.
  destruct x as [| | |s m e]; try done. intros _.
  destruct y as [s'|s'| |s' m' e']; simpl; try (by destruct s); try (by destruct s').
  change (Pos.compare_cont Eq m m') with (Pos.compare m m').
  destruct s, s'; try done; destruct (Z.compare_spec e e') as [->|?|?]; try done;
    destruct (Pos.compare_spec m m') as [->|?|?]; by simpl.
Qed.

Lemma compare_refl_plain x : plain x = true → SFcompare x x = Some Eq.
Proof.
  destruct x as [| | |s m e]; try done. intros _. simpl. rewrite Z.compare_refl.
  change (Pos.compare_cont Eq m m) with (Pos.compare m m). rewrite Pos.compare_refl.
  by destruct s.
Qed.

(** At or above the cap, the capped level is the cap itself. *)
Lemma cap_full bst x : plain (of_int bst) = true → fleb (of_int bst) x = true → cap_at bst x = of_int bst.
Proof.
  intros Hp. unfold fleb, SFleb, cap_at, fltb, SFltb.
  destruct (SFcompare (of_int bst) x) as [[]|] eqn:E; try done. intros _.
  symmetry. by apply compare_eq_plain.
Qed.

Lemma fadd_zero x s : plain x = true → fadd x (S754_zero s) = x.
Proof. by destruct x. Qed.

Lemma fmul_zero x : plain x = true → ∃ s, fmul (of_int 0) x = S754_zero s.
Proof. destruct x as [| | |s m e]; try done. intros _. exists s. by destruct s. Qed.

(** Reclaiming a bucket the sweep may reclaim is unobservable: whatever is
    charged next at that instant, with the parameters the bucket remembers, a
    fresh bucket answers exactly as the reclaimed one would have, and is left in
    exactly the same state. *)
Theorem reclaim_unobservable b t cost :
  reclaimable t b = true → b_pending b = 0 →
  plain (of_int (burst b)) = true → plain (fdiv (of_int (ratePerMin b)) (of_int 60)) = true →
  charge_cell (new_bucket t (burst b)) t cost (ratePerMin b) (burst b)
  = charge_cell b t cost (ratePerMin b) (burst b).
Proof.
  intros Hr Hpend Hb Hrate. unfold reclaimable in Hr. destruct (_ || _)%bool; [done|].
  assert (cap_at (burst b) (projected b t (ratePerMin b)) = of_int (burst b)) as Hold by by apply cap_full.
  assert (cap_at (burst b) (projected (new_bucket t (burst b)) t (ratePerMin b)) = of_int (burst b)) as Hnew.
  { apply cap_full; [done|]. unfold projected. cbn [tokens last new_bucket].
    assert (Sub t t = 0) as ->.
    { unfold Sub. rewrite Z.sub_diag. unfold MinInt64, MaxInt64. done. }
    change (Seconds 0) with (of_int 0).
    destruct (fmul_zero _ Hrate) as [s ->]. rewrite fadd_zero by done.
    unfold fleb, SFleb. by rewrite compare_refl_plain. }
  unfold charge_cell. rewrite Hold, Hnew. simpl. by rewrite Hpend.
Qed.

(** ** The in-memory store obeys the interface's laws *)

Definition unfinished (m : Memory) (f : Finish) : Prop :=
  match f with
  | FinishNothing => False
  | FinishReservation id => ∃ r, reservations m !! id = Some r ∧ r_done r = false
  end.

Lemma unfinished_same m m' : reservations m' = reservations m → ∀ f, unfinished m' f ↔ unfinished m f.
Proof. intros He [|id]; simpl; [done|]. by rewrite He. Qed.

(** Every operation but reserving and finishing leaves the reservations alone. *)
Lemma step_keeps o m :
  inv m →
  match o with OpReserveRate _ _ _ _ | OpFinish _ _ => True | _ => reservations (step o m) = reservations m end.
Proof.
  intros Hi. destruct o as [k c r b|k c r b|f a|k e l w|k a w|k w|k r b|k d b]; simpl; try done.
  - unfold AllowRate. case_match; [done|]. case_match; [done|].
    destruct (allowRate k c r b m) as [[l ok] m'] eqn:Ea.
    by apply (allowRate_spec _ _ _ _ _ _ _ _ Hi) in Ea as [[_ T _] _].
  - unfold CheckQuota. case_match; [done|]. case_match; [done|].
    destruct (curWindow k w m) as [q m'] eqn:Ec.
    apply (curWindow_cases _ _ _ _ _ Hi) in Ec. apply window_touched in Ec as [[_ T _] _]; [|done].
    by destruct q.
  - unfold DebitQuota. case_match; [done|].
    destruct (curWindow k w m) as [q m'] eqn:Ec.
    apply (curWindow_cases _ _ _ _ _ Hi) in Ec. apply window_touched in Ec as [[_ T _] _]; [|done].
    by destruct q.
  - unfold QuotaUsed. by case_match.
  - unfold RateUsed. case_match; [done|]. by case_match.
  - unfold AdjustRate. by case_match.
Qed.

Lemma reserve_unfinished k c r b m :
  inv m → 0 < r →
  wp (ReserveRate k c r b) (λ x m', inv m' ∧
    if x.2 then ∃ f, x.1 = Some f ∧ ¬ unfinished m f ∧ ∀ f', unfinished m' f' ↔ unfinished m f' ∨ f' = f
    else ∀ f', unfinished m' f' ↔ unfinished m f') m.
Proof.
  intros Hi Hr. pose proof (step_inv (OpReserveRate k c r b) m Hi) as Hi'. cbn [step] in Hi'.
  unfold wp. split; [done|]. clear Hi'. unfold ReserveRate.
  destruct (c <? 0); [done|]. destruct (r <=? 0) eqn:Er; [bsplit; lia|]. clear Er.
  destruct (allowRate k c r b m) as [[l ok] m1] eqn:Ea.
  destruct (allowRate_spec _ _ _ _ _ _ _ _ Hi Ea) as ([T1 T2 _] & _ & _).
  destruct l as [l|]; [|cbn [fst snd]; by apply unfinished_same].
  destruct ok; [|cbn [fst snd]; by apply unfinished_same]. cbn [fst snd].
  assert (reservations m1 !! fresh_id m1 = None) as Hnew.
  { destruct (reservations m1 !! fresh_id m1) eqn:E; [|done].
    pose proof (inv_id _ (T1 Hi) (fresh_id m1) ltac:(eauto)). lia. }
  eexists. split; [done|]. split.
  - intros (x & Hx & _). rewrite T2 in Hnew. congruence.
  - intros [|id]; simpl; [split; [done|by intros [|]]|]. rewrite T2 in Hnew. split.
    + intros (x & [[<- _]|[Hne Hx]]%lookup_insert_Some & Hd); [by right|]. rewrite T2 in Hx. eauto.
    + intros [(x & Hx & Hd)|[= ->]].
      * exists x. split; [|done]. rewrite lookup_insert_ne by congruence. by rewrite T2.
      * eexists. by rewrite lookup_insert_eq.
Qed.

Lemma finish_unfinished f a m :
  inv m → wp (finish f a) (λ _ m', inv m' ∧ ∀ f', unfinished m' f' ↔ unfinished m f' ∧ f' ≠ f) m.
Proof.
  intros Hi. pose proof (step_inv (OpFinish f a) m Hi) as Hi'. cbn [step] in Hi'.
  unfold wp. split; [done|]. clear Hi'. unfold finish.
  destruct f as [|id]; simpl; [intros [|]; simpl; naive_solver|].
  assert (∀ m', reservations m' = reservations m → ¬ unfinished m (FinishReservation id) →
    ∀ f', unfinished m' f' ↔ unfinished m f' ∧ f' ≠ FinishReservation id) as Hsame.
  { intros m' He Hn f'. rewrite (unfinished_same m m' He). split; [|naive_solver].
    intros Hf. split; [done|]. by intros ->. }
  destruct (reservations m !! id) as [r|] eqn:Er; [|apply Hsame; [done|]; intros (? & ? & _); congruence].
  destruct (r_done r) eqn:Ed; [apply Hsame; [done|]; intros (? & ? & ?); congruence|].
  intros [|id']; simpl; [naive_solver|]. split.
  - intros (x & [[<- <-]|[Hne Hx]]%lookup_insert_Some & Hd); [done|]. split; [eauto|congruence].
  - intros [(x & Hx & Hd) Hne]. exists x. by rewrite lookup_insert_ne by congruence.
Qed.

#[export] Program Instance Memory_LimiterLaws : LimiterLaws Memory Finish :=
  {| ls_inv := inv; ls_open := unfinished |}.
Next Obligation. intros. split; [by apply (step_inv (OpAllowRate k c r b))|].
  by apply unfinished_same, (step_keeps (OpAllowRate k c r b)). Qed.
Next Obligation. intros. split; [by apply (step_inv (OpCheckQuota k e l w))|].
  by apply unfinished_same, (step_keeps (OpCheckQuota k e l w)). Qed.
Next Obligation. intros. split; [by apply (step_inv (OpDebitQuota k a w))|].
  by apply unfinished_same, (step_keeps (OpDebitQuota k a w)). Qed.
Next Obligation. intros. split; [by apply (step_inv (OpQuotaUsed k w))|].
  by apply unfinished_same, (step_keeps (OpQuotaUsed k w)). Qed.
Next Obligation. intros. split; [by apply (step_inv (OpRateUsed k r b))|].
  by apply unfinished_same, (step_keeps (OpRateUsed k r b)). Qed.
Next Obligation. intros. by apply reserve_unfinished. Qed.
Next Obligation. intros. by apply finish_unfinished. Qed.

(** ** Witnesses *)

Definition second_clock (i : nat) : Time := Z.of_nat i * Second.

Definition demo : Memory := run [OpDebitQuota "q" 7 Hour] (NewMemory second_clock).

Lemma reservation_survives_witness :
  let r := ReserveRate "tpm:a" 30 60 100 (run [] (NewMemory second_clock)) in
  let os := [OpAllowRate "tpm:b" 1 60 5; OpAllowRate "tpm:a" 10 60 100] in
  ∃ id l, FinishReservation 0 = FinishReservation id ∧ holds r.2 id "tpm:a" l 30
    ∧ holds (run os r.2) id "tpm:a" l 30 ∧ 0 < b_pending (deref (run os r.2) l).
Proof.
  cbv zeta.
  apply (reservation_survives second_clock [] "tpm:a" 30 60 100 (FinishReservation 0)).
  - vm_compute. reflexivity.
  - lia.
  - repeat constructor; discriminate.
Defined.

Lemma CheckQuota_spec_witness :
  0 <= 3 ∧ (10 <= 0 ∨ 7 + 3 <= 10).
Proof.
  apply (proj1 (CheckQuota_spec "q" 3 10 Hour demo Allow (CheckQuota "q" 3 10 Hour demo).2
                  (step_inv _ _ (inv_new second_clock)) eq_refl)).
  reflexivity.
Defined.

Lemma reclaim_unobservable_witness :
  let b := {| tokens := of_int 90; last := 0; b_pending := 0; ratePerMin := 60; burst := 100 |} in
  charge_cell (new_bucket (20 * Second) 100) (20 * Second) 5 60 100
  = charge_cell b (20 * Second) 5 60 100.
Proof.
  cbv zeta.
  apply (reclaim_unobservable
           {| tokens := of_int 90; last := 0; b_pending := 0; ratePerMin := 60; burst := 100 |}
           (20 * Second) 5); vm_compute; reflexivity.
Defined.
