(* ===== verification/Denial.v ===== *)
(** * Denials (internal/governance/denial.go, internal/audit)

    The closed sets of deny reasons and of the scopes, limits and sources a
    denial names, and the constructors the governor builds them with. *)

From S2P Require Import Prelude GoTime Budget.

(** ** Deny reasons (audit/deny_reason.go) *)

Inductive DenyReason :=
| DenyModelNotAllowed | DenyTeamRateLimited | DenyTeamTokenRateLimited | DenyTeamQuotaExceeded
| DenyKeyRateLimited | DenyKeyTokenRateLimited | DenyTeamBudgetExceeded | DenyKeyBudgetExceeded
| DenyUserBudgetExceeded | DenyRegionBlocked | DenyPricingMissing | DenyInvalidTokenEstimate
| DenyBudgetAuthorityUnavailable.

#[export] Instance DenyReason_eq_dec : EqDecision DenyReason.
Proof. solve_decision. Defined.

(** The string each constant is. *)
Definition DenyReason_string (d : DenyReason) : string :=
  match d with
  | DenyModelNotAllowed => "model_not_allowed"
  | DenyTeamRateLimited => "team_rate_limited"
  | DenyTeamTokenRateLimited => "team_token_rate_limited"
  | DenyTeamQuotaExceeded => "team_quota_exceeded"
  | DenyKeyRateLimited => "key_rate_limited"
  | DenyKeyTokenRateLimited => "key_token_rate_limited"
  | DenyTeamBudgetExceeded => "team_budget_exceeded"
  | DenyKeyBudgetExceeded => "key_budget_exceeded"
  | DenyUserBudgetExceeded => "user_budget_exceeded"
  | DenyRegionBlocked => "region_blocked"
  | DenyPricingMissing => "pricing_missing"
  | DenyInvalidTokenEstimate => "invalid_token_estimate"
  | DenyBudgetAuthorityUnavailable => "budget_authority_unavailable"
  end.

Definition knownDenyReasons : list string := map DenyReason_string
  [DenyModelNotAllowed; DenyTeamRateLimited; DenyTeamTokenRateLimited; DenyTeamQuotaExceeded;
   DenyKeyRateLimited; DenyKeyTokenRateLimited; DenyTeamBudgetExceeded; DenyKeyBudgetExceeded;
   DenyUserBudgetExceeded; DenyRegionBlocked; DenyPricingMissing; DenyInvalidTokenEstimate;
   DenyBudgetAuthorityUnavailable].

Definition KnownDenyReasons : list string := knownDenyReasons.
Definition KnownDenyReason (code : string) : bool := existsb (String.eqb code) knownDenyReasons.

(** ** The limit behind a denial (audit/governance.go) *)

Definition GovScopeTeam : string := "team".
Definition GovScopeKey : string := "key".
Definition GovScopeUser : string := "user".
Definition GovScopeGateway : string := "gateway".

Definition GovLimitRPM : string := "rpm".
Definition GovLimitTPM : string := "tpm".
Definition GovLimitTokensPerDay : string := "tokens_per_day".
Definition GovLimitTokensPerMonth : string := "tokens_per_month".
Definition GovLimitBudgetMonth : string := "budget_month".
Definition GovLimitBudgetDay : string := "budget_day".
Definition GovLimitBudget : string := "budget".
Definition GovLimitPricing : string := "pricing".

Definition GovSourceConfig : string := "config".
Definition GovSourceTeamRecord : string := "team_record".
Definition GovSourcePolicy : string := "policy".
Definition GovSourceLease : string := "lease".
Definition GovSourceKey : string := "key".
Definition GovSourceBudgetStore : string := "budget_store".

Record PolicyRuleRef := { rr_Name : string; rr_Generation : Z; rr_Rule : string }.

Record GovernanceRef := {
  gr_Scope : string; gr_Limit : string; gr_Source : string; gr_Policy : option PolicyRuleRef
}.

(** ** Sources and constructors (denial.go) *)

Record LimitSource := { ls_Source : string; ls_Policy : option PolicyRuleRef }.

Record TeamSources := {
  ts_Rate : LimitSource; ts_TokenRate : LimitSource; ts_Quota : LimitSource;
  ts_Budget : LimitSource; ts_BudgetDay : LimitSource
}.

Record UserSources := { us_Budget : LimitSource; us_BudgetDay : LimitSource }.

Definition source (s : string) : LimitSource := {| ls_Source := s; ls_Policy := None |}.

Definition ConfigSources : TeamSources :=
  let c := source GovSourceConfig in
  {| ts_Rate := c; ts_TokenRate := c; ts_Quota := c; ts_Budget := c; ts_BudgetDay := c |}.

Definition keySource : LimitSource := source GovSourceKey.

Definition limitRef (scope limit : string) (src : LimitSource) : GovernanceRef :=
  {| gr_Scope := scope; gr_Limit := limit; gr_Source := ls_Source src; gr_Policy := ls_Policy src |}.

(** The copy of the rule reference it owns is the value. *)
Definition denial (scope limit : string) (src : LimitSource) : GovernanceRef :=
  limitRef scope limit src.

Definition budgetDenial (scope limit : string) (src : LimitSource) (dec : Budget.Decision)
    : GovernanceRef :=
  denial scope limit
    (if bool_decide (dec = BlockCapacity) then source GovSourceBudgetStore else src).

Definition PricingDenial : GovernanceRef :=
  denial GovScopeGateway GovLimitPricing (source GovSourceConfig).

(** ** Admission errors *)

(** [SharedDenial] (shared.go). *)
Record SharedDenial := {
  sd_Status : Z; sd_Reason : string; sd_RetryAfter : Z; sd_Governance : option GovernanceRef
}.

(** The errors of the admission seams; [ErrOther] is any other error, by its text. *)
Inductive AdmissionError :=
| ErrLocalBudgetExhausted
| ErrAuthorityUnavailable
| ErrAuthorityExhausted
| ErrAuthorityInvalid
| ErrSharedUnavailable
| ErrBudgetDenial (err : AdmissionError) (gov : option GovernanceRef)
| ErrSharedDenial (d : SharedDenial)
| ErrOther (text : string).

(** [errors.Unwrap]. *)
Definition Unwrap (e : AdmissionError) : option AdmissionError :=
  match e with ErrBudgetDenial e _ => Some e | _ => None end.

Definition DenialGovernance (e : AdmissionError) : option GovernanceRef :=
  match e with
  | ErrBudgetDenial _ gov => gov
  | ErrSharedDenial d => sd_Governance d
  | _ => None
  end.
