(* ===== verification/Governor.v ===== *)
(** * The governor's data (internal/governance)

    The policies a request is governed by, the governor's configuration and the
    state its operations share: the limiter and budget stores, the admissions and
    local money permits its callers hold handles to, and the local money ledger.
    Hooks and metrics are a trace of events. *)

From S2P Require Import Prelude GoTime GoFloat Budget Denial.

(** ** Subjects and policies (governance.go) *)

Record Subject := { s_Team : string; s_KeyID : string; s_User : string }.

Record TeamPolicy := {
  tp_RatePerMin : Z; tp_RateBurst : Z; tp_TokensPerMinute : Z; tp_TokensPerDay : Z;
  tp_QuotaExceeded : string; tp_BudgetMicrosPerMonth : Z; tp_BudgetExceeded : string;
  tp_BudgetMicrosPerDay : Z; tp_BudgetDayExceeded : string; tp_AdminContact : string;
  tp_Sources : TeamSources
}.

Record KeyPolicy := {
  kp_RatePerMin : Z; kp_TokensPerMinute : Z; kp_BudgetMicrosPerMonth : Z; kp_BudgetMicrosPerDay : Z
}.

Record UserPolicy := {
  up_BudgetMicrosPerMonth : Z; up_BudgetMicrosPerDay : Z; up_BudgetExceeded : string;
  up_AdminContact : string; up_Sources : UserSources
}.

(** ** The governor

    What is installed at startup.  The lookups and the lease gate are the
    functions as they answer during one operation; different operations may be
    given different governors. *)
Record Governor := {
  shared : bool;
  authority : bool;
  teams : gmap string TeamPolicy;
  lookup : option (string → option TeamPolicy);
  userLookup : option (string → string → option UserPolicy);
  notifyBudget : bool;
  notifyKeyBudget : bool;
  leaseGate : option (string → bool * string);
  budgetLoc : option Location
}.

Definition NewGovernor (ts : gmap string TeamPolicy) : Governor :=
  {| shared := false; authority := false; teams := ts; lookup := None; userLookup := None;
     notifyBudget := false; notifyKeyBudget := false; leaseGate := None; budgetLoc := None |}.

Definition SetTeamLookup (f : option (string → option TeamPolicy)) (g : Governor) : Governor :=
  {| shared := shared g; authority := authority g; teams := teams g; lookup := f;
     userLookup := userLookup g; notifyBudget := notifyBudget g;
     notifyKeyBudget := notifyKeyBudget g; leaseGate := leaseGate g; budgetLoc := budgetLoc g |}.

Definition SetUserLookup (f : option (string → string → option UserPolicy)) (g : Governor) : Governor :=
  {| shared := shared g; authority := authority g; teams := teams g; lookup := lookup g;
     userLookup := f; notifyBudget := notifyBudget g;
     notifyKeyBudget := notifyKeyBudget g; leaseGate := leaseGate g; budgetLoc := budgetLoc g |}.

Definition SetBudgetNotify (on : bool) (g : Governor) : Governor :=
  {| shared := shared g; authority := authority g; teams := teams g; lookup := lookup g;
     userLookup := userLookup g; notifyBudget := on;
     notifyKeyBudget := notifyKeyBudget g; leaseGate := leaseGate g; budgetLoc := budgetLoc g |}.

Definition SetKeyBudgetNotify (on : bool) (g : Governor) : Governor :=
  {| shared := shared g; authority := authority g; teams := teams g; lookup := lookup g;
     userLookup := userLookup g; notifyBudget := notifyBudget g;
     notifyKeyBudget := on; leaseGate := leaseGate g; budgetLoc := budgetLoc g |}.

Definition SetLeaseGate (f : option (string → bool * string)) (g : Governor) : Governor :=
  {| shared := shared g; authority := authority g; teams := teams g; lookup := lookup g;
     userLookup := userLookup g; notifyBudget := notifyBudget g;
     notifyKeyBudget := notifyKeyBudget g; leaseGate := f; budgetLoc := budgetLoc g |}.

Definition SetBudgetTimezone (l : option Location) (g : Governor) : Governor :=
  {| shared := shared g; authority := authority g; teams := teams g; lookup := lookup g;
     userLookup := userLookup g; notifyBudget := notifyBudget g;
     notifyKeyBudget := notifyKeyBudget g; leaseGate := leaseGate g; budgetLoc := l |}.

Definition SetSharedAuthority (on : bool) (g : Governor) : Governor :=
  {| shared := on; authority := authority g; teams := teams g; lookup := lookup g;
     userLookup := userLookup g; notifyBudget := notifyBudget g;
     notifyKeyBudget := notifyKeyBudget g; leaseGate := leaseGate g; budgetLoc := budgetLoc g |}.

Definition HasSharedAuthority (g : Governor) : bool := shared g.

(** A lookup hit wins over the configured entry. *)
Definition policyOf (g : Governor) (team : string) : option TeamPolicy :=
  match lookup g with
  | Some f => match f team with Some p => Some p | None => teams g !! team end
  | None => teams g !! team
  end.

Definition userPolicyOf (g : Governor) (s : Subject) : option UserPolicy :=
  if bool_decide (s_User s = "") then None
  else f ← userLookup g; f (s_Team s) (s_User s).

Definition dayWindow (g : Governor) : Window := CalendarDayIn (budgetLoc g).
Definition monthWindow (g : Governor) : Window := CalendarMonthIn (budgetLoc g).
Definition budgetLocOrUTC (g : Governor) : Location := default UTC (budgetLoc g).

Definition userBudgetID (s : Subject) : string := s_Team s +:+ "/" +:+ s_User s.

(** ** The shared state *)

(** What the governor tells its hooks and metrics. *)
Inductive Event :=
| AddBudgetSpend (team model kind : string) (usd : float64)
| SetBudgetUtilization (team : string) (ratio : float64)
| SetQuotaUtilization (team window : string) (ratio : float64)
| IncPricingMiss (provider model : string)
| SetBudgetStoreRejections (n : Z)
| NotifyBudget (team : string) (spent limit : Z)
| NotifyKeyBudget (team keyID : string) (spent limit : Z).

(** [Admission] (admission.go); [a_once] is the once guard's flag. *)
Record Admission (F : Type) := mkAdmission {
  a_once : bool; a_rates : list F; a_estimate : Z; a_cost : Z; a_missing : bool;
  a_moneyOwned : bool; a_dispatched : bool
}.
Arguments mkAdmission {F} _ _ _ _ _ _ _.
Arguments a_once {F} _.
Arguments a_rates {F} _.
Arguments a_estimate {F} _.
Arguments a_cost {F} _.
Arguments a_missing {F} _.
Arguments a_moneyOwned {F} _.
Arguments a_dispatched {F} _.

(** local_money.go. *)
Record localMoneyScope := {
  lm_key : string; lm_win : Window; lm_limit : Z; lm_hard : bool; lm_gov : GovernanceRef
}.
Record localMoneyState := { ms_ends : Time; ms_held : Z; ms_frozen : bool }.
(** A hold points to the state it was made on. *)
Record localMoneyHold := { h_state : nat; h_amount : Z }.
Record LocalBudgetPermit := {
  p_once : bool; p_holds : list localMoneyHold; p_scopes : list localMoneyScope; p_subject : Subject
}.

Record State (L F B : Type) := mkState {
  lim : L;
  bud : B;
  admissions : gmap nat (Admission F);
  localMoney : gmap string nat;
  cells : gmap nat localMoneyState;
  permits : gmap nat LocalBudgetPermit;
  wall : nat → Time;
  wall_reads : nat;
  events : list Event
}.
Arguments mkState {L F B} _ _ _ _ _ _ _ _ _.
Arguments lim {L F B} _.
Arguments bud {L F B} _.
Arguments admissions {L F B} _.
Arguments localMoney {L F B} _.
Arguments cells {L F B} _.
Arguments permits {L F B} _.
Arguments wall {L F B} _.
Arguments wall_reads {L F B} _.
Arguments events {L F B} _.

Section Access.
Context {L F B : Type}.
Implicit Types st : State L F B.

Definition with_lim (l : L) st : State L F B :=
  mkState l (bud st) (admissions st) (localMoney st) (cells st) (permits st) (wall st)
    (wall_reads st) (events st).
Definition with_bud (b : B) st : State L F B :=
  mkState (lim st) b (admissions st) (localMoney st) (cells st) (permits st) (wall st)
    (wall_reads st) (events st).
Definition with_admissions (a : gmap nat (Admission F)) st : State L F B :=
  mkState (lim st) (bud st) a (localMoney st) (cells st) (permits st) (wall st)
    (wall_reads st) (events st).
Definition with_money (m : gmap string nat) (c : gmap nat localMoneyState) st : State L F B :=
  mkState (lim st) (bud st) (admissions st) m c (permits st) (wall st) (wall_reads st) (events st).
Definition with_permits (p : gmap nat LocalBudgetPermit) st : State L F B :=
  mkState (lim st) (bud st) (admissions st) (localMoney st) (cells st) p (wall st)
    (wall_reads st) (events st).

(** Run an operation of one of the stores. *)
Definition on_lim {A} (m : ST L A) : ST (State L F B) A := λ st,
  let '(a, l) := m (lim st) in (a, with_lim l st).
Definition on_bud {A} (m : ST B A) : ST (State L F B) A := λ st,
  let '(a, b) := m (bud st) in (a, with_bud b st).

Definition emit (e : Event) : ST (State L F B) unit := λ st,
  (tt, mkState (lim st) (bud st) (admissions st) (localMoney st) (cells st) (permits st) (wall st)
         (wall_reads st) (events st ++ [e])).

(** [time.Now]. *)
Definition time_Now : ST (State L F B) Time := λ st,
  (wall st (wall_reads st),
   mkState (lim st) (bud st) (admissions st) (localMoney st) (cells st) (permits st) (wall st)
     (S (wall_reads st)) (events st)).

Lemma wp_on_lim {A} (m : ST L A) Q st :
  wp (on_lim m) Q st ↔ wp m (λ a l, Q a (with_lim l st)) (lim st).
Proof. unfold wp, on_lim. by destruct (m (lim st)). Qed.

Lemma wp_on_bud {A} (m : ST B A) Q st :
  wp (on_bud m) Q st ↔ wp m (λ a b, Q a (with_bud b st)) (bud st).
Proof. unfold wp, on_bud. by destruct (m (bud st)). Qed.
End Access.
