(* ===== verification/LocalMoney.v ===== *)
(** * Local money liabilities (internal/governance/local_money.go)

    Before each provider attempt [ReserveLocalBudget] claims every blocking money
    scope of the request at once; [FinishLocalBudget] debits what is known to have
    been spent and releases the claims.  The ledger maps a counter's key to the
    cell of its outstanding liability; permits point to the cells they claimed on,
    which a window's end replaces in the map.  Both hold one mutex throughout, so
    each is one step. *)

From S2P Require Import Prelude GoTime GoFloat Budget Denial Governor.

(** ** Definitions *)

Definition add_scope (scope id : string) (limit : Z) (mode : string) (win : Window)
    (gov : GovernanceRef) : list localMoneyScope :=
  if 0 <? limit then
    [{| lm_key := Budget.Key scope id win; lm_win := win; lm_limit := limit;
        lm_hard := negb (bool_decide (mode = "warn")); lm_gov := gov |}]
  else [].

Definition localMoneyScopes (g : Governor) (s : Subject) (kp : KeyPolicy) : list localMoneyScope :=
  if HasSharedAuthority g then []
  else
    let month := monthWindow g in
    let day := dayWindow g in
    match policyOf g (s_Team s) with
    | Some p =>
        add_scope ScopeTeam (s_Team s) (tp_BudgetMicrosPerMonth p) (tp_BudgetExceeded p) month
          (limitRef GovScopeTeam GovLimitBudgetMonth (ts_Budget (tp_Sources p))) ++
        add_scope ScopeTeam (s_Team s) (tp_BudgetMicrosPerDay p) (tp_BudgetDayExceeded p) day
          (limitRef GovScopeTeam GovLimitBudgetDay (ts_BudgetDay (tp_Sources p)))
    | None => []
    end ++
    add_scope ScopeKey (s_KeyID s) (kp_BudgetMicrosPerMonth kp) "" month
      (limitRef GovScopeKey GovLimitBudgetMonth keySource) ++
    add_scope ScopeKey (s_KeyID s) (kp_BudgetMicrosPerDay kp) "" day
      (limitRef GovScopeKey GovLimitBudgetDay keySource) ++
    match userPolicyOf g s with
    | Some p =>
        add_scope ScopeUser (userBudgetID s) (up_BudgetMicrosPerMonth p) (up_BudgetExceeded p) month
          (limitRef GovScopeUser GovLimitBudgetMonth (us_Budget (up_Sources p))) ++
        add_scope ScopeUser (userBudgetID s) (up_BudgetMicrosPerDay p) (up_BudgetExceeded p) day
          (limitRef GovScopeUser GovLimitBudgetDay (us_BudgetDay (up_Sources p)))
    | None => []
    end.

(** [None] is a nil governor. *)
Definition HasLocalBudget (g : option Governor) (s : Subject) (kp : KeyPolicy) : bool :=
  match g with
  | None => false
  | Some g => negb (bool_decide (localMoneyScopes g s kp = []))
  end.

Definition exhausted (s : localMoneyScope) (atCapacity : bool) : AdmissionError :=
  let ref := lm_gov s in
  ErrBudgetDenial ErrLocalBudgetExhausted
    (Some (if atCapacity
           then {| gr_Scope := gr_Scope ref; gr_Limit := gr_Limit ref;
                   gr_Source := GovSourceBudgetStore; gr_Policy := None |}
           else ref)).

Definition maxLedger : Z := 100000.

Definition ledger_full : AdmissionError :=
  ErrBudgetDenial ErrLocalBudgetExhausted
    (Some (denial GovScopeGateway GovLimitBudget (source GovSourceBudgetStore))).

Definition no_cell : localMoneyState := {| ms_ends := zeroTime; ms_held := 0; ms_frozen := false |}.

(** Add a hold to its cell, saturating and freezing. *)
Definition hold_cell (a : Z) (c : localMoneyState) : localMoneyState :=
  if MaxInt64 - ms_held c <? a
  then {| ms_ends := ms_ends c; ms_held := MaxInt64; ms_frozen := true |}
  else {| ms_ends := ms_ends c; ms_held := ms_held c + a; ms_frozen := ms_frozen c |}.

(** What finishing does to the cell of a hold. *)
Definition release_cell (complete invalid : bool) (a : Z) (c : localMoneyState) : localMoneyState :=
  if (complete && negb invalid)%bool
  then {| ms_ends := ms_ends c; ms_held := wrap64 (ms_held c - a); ms_frozen := ms_frozen c |}
  else if invalid then {| ms_ends := ms_ends c; ms_held := ms_held c; ms_frozen := true |}
  else c.

Definition update_holds (f : Z → localMoneyState → localMoneyState) (hs : list localMoneyHold)
    (c : gmap nat localMoneyState) : gmap nat localMoneyState :=
  foldl (λ c h, <[h_state h := f (h_amount h) (default no_cell (c !! h_state h))]> c) c hs.

Section LocalMoney.
Context {L F B : Type} `{BudgetStore B}.
(** The order in which [range] visits the ledger. *)
Context (range : gmap string nat → list (string * nat)).
Abbreviation St := (State L F B).

Definition deref (l : nat) (st : St) : localMoneyState := default no_cell (cells st !! l).

(** Ended or empty entries go. *)
Fixpoint evict (es : list (string * nat)) : ST St unit :=
  match es with
  | [] => mret tt
  | (key, l) :: es =>
      t ← time_Now;
      st ← st_get;
      let c := deref l st in
      _ ← (if (negb (Before t (ms_ends c)) || ((ms_held c =? 0) && negb (ms_frozen c)))%bool
           then st_put (with_money (delete key (localMoney st)) (cells st) st) else mret tt);
      evict es
  end.

(** The cell of a key's open window, made anew if there is none. *)
Definition cell_of (key : string) (ends : Time) : ST St nat := λ st,
  let make :=
    let l := new_loc (cells st) in
    (l, with_money (<[key := l]> (localMoney st))
          (<[l := {| ms_ends := ends; ms_held := 0; ms_frozen := false |}]> (cells st)) st) in
  match localMoney st !! key with
  | Some l => if ms_ends (deref l st) =? ends then (l, st) else make
  | None => make
  end.

(** One blocking scope: the hold to make, or the refusal. *)
Definition claim_scope (bound : Z) (bounded : bool) (sc : localMoneyScope)
    : ST St (result AdmissionError localMoneyHold) :=
  ends ← on_bud (bs_resetsAt (lm_key sc) (lm_win sc));
  l ← cell_of (lm_key sc) ends;
  spent ← on_bud (bs_spent (lm_key sc) (lm_win sc));
  st ← st_get;
  let c := deref l st in
  if (ms_frozen c || (lm_limit sc <=? spent) || (lm_limit sc - spent <=? ms_held c))%bool
  then mret (Err (exhausted sc false))
  else
    dec ← on_bud (bs_check (lm_key sc) (ms_held c) (lm_limit sc) (lm_win sc));
    if bool_decide (dec = Allow)
    then mret (Ok {| h_state := l; h_amount := if bounded then bound else lm_limit sc - spent |})
    else mret (Err (exhausted sc (bool_decide (dec = BlockCapacity)))).

Fixpoint claim_loop (bound : Z) (bounded : bool) (scopes : list localMoneyScope)
    (holds : list localMoneyHold) : ST St (result AdmissionError (list localMoneyHold)) :=
  match scopes with
  | [] => mret (Ok holds)
  | sc :: scopes =>
      if lm_hard sc then
        r ← claim_scope bound bounded sc;
        match r with
        | Ok h => claim_loop bound bounded scopes (holds ++ [h])
        | Err e => mret (Err e)
        end
      else claim_loop bound bounded scopes holds
  end.

Definition ledger_overflows (scopes : list localMoneyScope) (st : St) : bool :=
  maxLedger <? Z.of_nat (size (localMoney st)) + Z.of_nat (length scopes).

(** Make the holds and hand out the permit. *)
Definition grant (s : Subject) (scopes : list localMoneyScope) (holds : list localMoneyHold) : ST St nat := λ st,
  let p := {| p_once := false; p_holds := holds; p_scopes := scopes; p_subject := s |} in
  let id := new_loc (permits st) in
  (id, with_permits (<[id := p]> (permits st))
         (with_money (localMoney st) (update_holds hold_cell holds (cells st)) st)).

(** [Ok None] is the nil permit of a subject without local budget. *)
Definition ReserveLocalBudget (g : Governor) (s : Subject) (kp : KeyPolicy) (bound : Z) (bounded : bool)
    : ST St (result AdmissionError (option nat)) :=
  let scopes := localMoneyScopes g s kp in
  if bool_decide (scopes = []) then mret (Ok None)
  else if bound <? 0 then mret (Err ErrLocalBudgetExhausted)
  else
    st ← st_get;
    _ ← (if ledger_overflows scopes st then evict (range (localMoney st)) else mret tt);
    st ← st_get;
    if ledger_overflows scopes st then mret (Err ledger_full)
    else
      r ← claim_loop bound bounded scopes [];
      match r with
      | Err e => mret (Err e)
      | Ok holds => id ← grant s scopes holds; mret (Ok (Some id))
      end.

Fixpoint debit_loop (actual : Z) (scopes : list localMoneyScope) : ST St unit :=
  match scopes with
  | [] => mret tt
  | sc :: scopes => _ ← on_bud (bs_debit (lm_key sc) actual (lm_win sc)); debit_loop actual scopes
  end.

(** The gauges and alert hooks of the monthly windows. *)
Definition report_scope (g : Governor) (s : Subject) (sc : localMoneyScope) : ST St unit :=
  if bool_decide (Kind (lm_win sc) = CalMonth) then
    spent ← on_bud (bs_spent (lm_key sc) (lm_win sc));
    if bool_decide (lm_key sc = Budget.Key ScopeTeam (s_Team s) (lm_win sc)) then
      _ ← emit (SetBudgetUtilization (s_Team s) (fdiv (of_int spent) (of_int (lm_limit sc))));
      if notifyBudget g then emit (NotifyBudget (s_Team s) spent (lm_limit sc)) else mret tt
    else if bool_decide (lm_key sc = Budget.Key ScopeKey (s_KeyID s) (lm_win sc)) then
      if notifyKeyBudget g then emit (NotifyKeyBudget (s_Team s) (s_KeyID s) spent (lm_limit sc)) else mret tt
    else mret tt
  else mret tt.

Fixpoint report_loop (g : Governor) (s : Subject) (scopes : list localMoneyScope) : ST St unit :=
  match scopes with
  | [] => mret tt
  | sc :: scopes => _ ← report_scope g s sc; report_loop g s scopes
  end.

Definition micros_to_usd (n : Z) : float64 := fdiv (of_int n) (of_int 1000000).

Definition proved (actual : option Z) : option Z :=
  match actual with Some a => if a <? 0 then None else Some a | None => None end.

(** The body of the once guard. *)
Definition finish_permit (g : Governor) (p : LocalBudgetPermit) (actual : option Z)
    (complete invalid : bool) (provider model : string) : ST St unit :=
  _ ← match proved actual with Some a => debit_loop a (p_scopes p) | None => mret tt end;
  _ ← st_modify (λ st, with_money (localMoney st)
                   (update_holds (release_cell complete invalid) (p_holds p) (cells st)) st);
  match proved actual with
  | Some a =>
      _ ← emit (AddBudgetSpend (s_Team (p_subject p)) model "total" (micros_to_usd a));
      report_loop g (p_subject p) (p_scopes p)
  | None => if invalid then emit (IncPricingMiss provider model) else mret tt
  end.

Definition mark_finished (id : nat) (p : LocalBudgetPermit) (st : St) : St :=
  with_permits (<[id := {| p_once := true; p_holds := p_holds p; p_scopes := p_scopes p;
                           p_subject := p_subject p |}]> (permits st)) st.

(** [id = None] is the nil permit. *)
Definition FinishLocalBudget (g : Governor) (id : option nat) (actual : option Z)
    (complete invalid : bool) (provider model : string) : ST St unit :=
  match id with
  | None => mret tt
  | Some id =>
      st ← st_get;
      match permits st !! id with
      | None => mret tt
      | Some p =>
          if p_once p then mret tt
          else _ ← st_modify (mark_finished id p);
               finish_permit g p actual complete invalid provider model
      end
  end.

Definition localReserved (key : string) (win : Window) : ST St (Z * bool) :=
  ends ← on_bud (bs_resetsAt key win);
  st ← st_get;
  match localMoney st !! key with
  | Some l => let c := deref l st in
              mret (if ms_ends c =? ends then (ms_held c, ms_frozen c) else (0, false))
  | None => mret (0, false)
  end.
End LocalMoney.

(** ** The scopes of one request have distinct counters *)

Lemma add_scope_keys scope id limit mode win gov :
  sublist (lm_key <$> add_scope scope id limit mode win gov) [Budget.Key scope id win].
Proof. unfold add_scope. case_match; simpl; [done|apply sublist_nil_l]. Qed.

Definition all_keys (g : Governor) (s : Subject) : list string :=
  [Budget.Key ScopeTeam (s_Team s) (monthWindow g); Budget.Key ScopeTeam (s_Team s) (dayWindow g);
   Budget.Key ScopeKey (s_KeyID s) (monthWindow g); Budget.Key ScopeKey (s_KeyID s) (dayWindow g);
   Budget.Key ScopeUser (userBudgetID s) (monthWindow g);
   Budget.Key ScopeUser (userBudgetID s) (dayWindow g)].

Lemma Key_ne s s' id id' w w' :
  s ∈ scopes → s' ∈ scopes → s ≠ s' ∨ Kind w ≠ Kind w' → Budget.Key s id w ≠ Budget.Key s' id' w'.
Proof. intros Hs Hs' Hne He. apply Key_inj in He as (? & ? & ? & _); [|done..]. by destruct Hne. Qed.

Lemma all_keys_NoDup g s : NoDup (all_keys g s).
Proof.
  unfold all_keys. repeat constructor; rewrite ?elem_of_cons, ?elem_of_nil;
  intros Hk; repeat destruct Hk as [Hk|Hk]; try done; revert Hk;
  (apply Key_ne; [unfold scopes; rewrite !elem_of_cons; by auto..|]);
  first [left; discriminate|right; discriminate].
Qed.

Lemma localMoneyScopes_keys g s kp : sublist (lm_key <$> localMoneyScopes g s kp) (all_keys g s).
Proof.
  unfold localMoneyScopes. case_match; [apply sublist_nil_l|].
  rewrite !fmap_app. change (all_keys g s) with
    ([Budget.Key ScopeTeam (s_Team s) (monthWindow g); Budget.Key ScopeTeam (s_Team s) (dayWindow g)] ++
     [Budget.Key ScopeKey (s_KeyID s) (monthWindow g)] ++ [Budget.Key ScopeKey (s_KeyID s) (dayWindow g)] ++
     [Budget.Key ScopeUser (userBudgetID s) (monthWindow g); Budget.Key ScopeUser (userBudgetID s) (dayWindow g)]).
  repeat apply sublist_app; try apply add_scope_keys;
  case_match; try apply sublist_nil_l; rewrite fmap_app;
  apply (sublist_app _ [_] _ [_]); apply add_scope_keys.
Qed.

Lemma localMoneyScopes_NoDup g s kp : NoDup (lm_key <$> localMoneyScopes g s kp).
Proof. eapply sublist_NoDup; [apply all_keys_NoDup|apply localMoneyScopes_keys]. Qed.

(** ** What claiming does to the ledger

    Claiming a scope adds at most one empty cell, under the scope's key; nothing
    that exists changes. *)

Section Grown.
Context {L F B : Type} `{!BudgetStore B}.
Abbreviation St := (State L F B).

Record grown (key : string) (st st' : St) : Prop := {
  gw_permits : permits st' = permits st;
  gw_wall : wall st' = wall st;
  gw_cells l c : cells st !! l = Some c → cells st' !! l = Some c;
  gw_other k : k ≠ key → localMoney st' !! k = localMoney st !! k;
  gw_key : localMoney st' !! key = localMoney st !! key
           ∨ ∃ l, localMoney st' !! key = Some l ∧ cells st !! l = None ∧ is_Some (cells st' !! l)
}.

Lemma grown_refl key st : grown key st st.
Proof. split; auto. Qed.

Lemma grown_bud key st st' b : grown key st st' → grown key st (with_bud b st').
Proof. by intros []. Qed.

(** The cell [cell_of] answers: the one in the map, or a new empty one. *)
Lemma cell_of_spec key ends st :
  wp (cell_of key ends) (λ l st', grown key st st' ∧ bud st' = bud st ∧
    localMoney st' !! key = Some l ∧
    (st' = st ∧ ms_ends (deref l st) = ends ∨
     cells st !! l = None ∧ cells st' !! l = Some {| ms_ends := ends; ms_held := 0; ms_frozen := false |} ∧
     (∀ l0, localMoney st !! key = Some l0 → ms_ends (deref l0 st) ≠ ends))) st.
Proof.
  unfold wp, cell_of. cbv zeta. pose proof (new_loc_None (cells st)) as Hn.
  set (st2 := with_money _ _ st).
  assert (grown key st st2 ∧ bud st2 = bud st ∧ localMoney st2 !! key = Some (new_loc (cells st))
    ∧ cells st2 !! new_loc (cells st) = Some {| ms_ends := ends; ms_held := 0; ms_frozen := false |}) as (G & Hb & Hk & Hc).
  { split_and!; [split|done|apply lookup_insert_eq|apply lookup_insert_eq]; try done; simpl.
    - intros l c Hl. by rewrite lookup_insert_ne by congruence.
    - intros k Hne. by rewrite lookup_insert_ne.
    - right. exists (new_loc (cells st)). rewrite !lookup_insert_eq. eauto. }
  destruct (localMoney st !! key) as [l|] eqn:El; [destruct (_ =? _) eqn:Ee; bsplit|]; cbn [fst snd].
  - split_and!; [apply grown_refl|done|done|by left].
  - split_and!; try done. right. split_and!; [done|done|]. intros l0 [= <-]. done.
  - split_and!; try done. right. split_and!; done.
Qed.
End Grown.

(** ** Bounded overshoot

    [K] is one money counter with its window [W], ending at [E] throughout; every
    request caps it at [lim] at most, blocking; every claim on it is at most [Bd].  *)

Section Overshoot.
Context {L F B : Type} `{!BudgetStore B} `{!BudgetLaws B}.
Context (range : gmap string nat → list (string * nat)) (range_perm : ∀ m, range m ≡ₚ map_to_list m).
Context (K : string) (W : Window) (E : Time) (lim Bd : Z) (I : B → Prop) (Hsteady : steady I K W E).
Abbreviation St := (State L F B).

(** What a permit claims on [K]. *)
Definition claim (x : localMoneyScope * localMoneyHold) : Z :=
  if decide (lm_key x.1 = K) then h_amount x.2 else 0.
Definition hard_scopes (scs : list localMoneyScope) : list localMoneyScope :=
  filter (λ sc, lm_hard sc = true) scs.
Definition claims (p : LocalBudgetPermit) : Z :=
  sumZ (map claim (zip (hard_scopes (p_scopes p)) (p_holds p))).
Definition outstanding (p : LocalBudgetPermit) : Z := if p_once p then 0 else claims p.
(** The claims on [K] of all unfinished permits. *)
Definition pending (st : St) : Z := sum_map outstanding (permits st).

(** A hold points into [K]'s current cell exactly if it claims on [K]. *)
Definition good_hold (st : St) (sc : localMoneyScope) (h : localMoneyHold) : Prop :=
  0 <= h_amount h ∧ is_Some (cells st !! h_state h) ∧
  if decide (lm_key sc = K) then localMoney st !! K = Some (h_state h) ∨ h_amount h = 0
  else localMoney st !! K ≠ Some (h_state h).

(** The scopes of a request on [K]. *)
Definition good_scope (sc : localMoneyScope) : Prop :=
  lm_key sc = K → lm_hard sc = true ∧ lm_limit sc <= lim ∧ lm_win sc = W.

Record good_permit (st : St) (p : LocalBudgetPermit) : Prop := {
  gp_holds : Forall2 (good_hold st) (hard_scopes (p_scopes p)) (p_holds p);
  gp_keys : NoDup (lm_key <$> p_scopes p);
  gp_scopes : Forall good_scope (p_scopes p)
}.

Record ledger_inv (st : St) : Prop := {
  li_steady : I (bud st);
  li_within : bs_within (bud st) K (lim - 1 + Bd - pending st);
  li_room : pending st <= lim - 1 + Bd;
  li_cell : match localMoney st !! K with
            | Some l => ms_ends (deref l st) = E ∧
                (ms_frozen (deref l st) = false → pending st <= ms_held (deref l st) <= MaxInt64)
            | None => pending st = 0
            end;
  li_map k l : localMoney st !! k = Some l →
    is_Some (cells st !! l) ∧ (localMoney st !! K = Some l → k = K);
  li_wall n : wall st n < E;
  li_permits id p : permits st !! id = Some p → p_once p = false → good_permit st p
}.

(** [K]'s cell is the one it was, or a first, empty one. *)
Definition kmap (st st' : St) : Prop :=
  localMoney st' !! K = localMoney st !! K ∨
  localMoney st !! K = None ∧ ∃ l, localMoney st' !! K = Some l ∧ cells st !! l = None ∧
    cells st' !! l = Some {| ms_ends := E; ms_held := 0; ms_frozen := false |}.

Lemma deref_some l c (st : St) : cells st !! l = Some c → deref l st = c.
Proof. unfold deref. by intros ->. Qed.

Lemma kmap_grown key st st' : key ≠ K → grown key st st' → kmap st st'.
Proof. intros Hne G. left. by apply (gw_other _ _ _ G). Qed.

Lemma good_hold_grown key st st' sc h :
  grown key st st' → kmap st st' → good_hold st sc h → good_hold st' sc h.
Proof.
  intros G Hk (Ha & [c Hc] & Hh). split; [done|]. split; [rewrite (gw_cells _ _ _ G _ _ Hc); eauto|].
  destruct Hk as [-> |(Hn & l & -> & Hl & _)]; [done|]. case_decide; [|congruence].
  rewrite Hn in Hh. destruct Hh; [done|by right].
Qed.

Lemma good_permit_grown key st st' p :
  grown key st st' → kmap st st' → good_permit st p → good_permit st' p.
Proof.
  intros G Hk [Hh Hn Hs]. split; [|done|done]. eapply Forall2_impl; [done|].
  intros sc h. by apply (good_hold_grown key).
Qed.

Lemma inv_grown key st st' :
  grown key st st' → kmap st st' → I (bud st') →
  (∀ x, 0 <= x → bs_within (bud st) K x → bs_within (bud st') K x) →
  ledger_inv st → ledger_inv st'.
Proof.
  intros G Hk HI Hw [J1 J2 J3 J4 J5 J6 J7]. pose proof G as [Gp Gw Gc Go Gk].
  assert (pending st' = pending st) as Hp by (unfold pending; by rewrite Gp).
  split; try rewrite Hp; try done.
  - apply Hw; [lia|done].
  - destruct Hk as [-> |(Hn & l & -> & Hl & Hl')].
    + destruct (localMoney st !! K) as [l|] eqn:El; [|done].
      destruct (J5 _ _ El) as [[c Hc] _]. rewrite (deref_some _ _ st' (Gc _ _ Hc)).
      by rewrite (deref_some _ _ st Hc) in J4.
    + rewrite (deref_some _ _ _ Hl'). rewrite Hn in J4. simpl. split; [done|]. int_lia.
  - intros k l Hl.
    assert (localMoney st !! k = Some l ∨ cells st !! l = None ∧ is_Some (cells st' !! l) ∧ k = key) as Hor.
    { destruct (decide (k = key)) as [-> |Hne]; [|left; by rewrite <- Go].
      destruct Gk as [<- |(l' & Hl' & Hn & Hs)]; [by left|]. right. simplify_eq. done. }
    destruct Hor as [Hold|(Hnone & Hs & ->)].
    + destruct (J5 _ _ Hold) as [[c Hc] Hinj]. split; [rewrite (Gc _ _ Hc); eauto|].
      intros HK. destruct Hk as [Hk|(_ & l' & Hl' & Hn & _)]; [apply Hinj; congruence|congruence].
    + split; [done|]. intros HK. destruct (decide (key = K)) as [|Hne]; [done|].
      rewrite Go in HK by done. destruct (J5 _ _ HK) as [[c Hc] _]. congruence.
  - intros n. rewrite Gw. apply J6.
  - intros id p Hpm Ho. rewrite Gp in Hpm. eapply good_permit_grown; eauto.
Qed.

(** A successful claim on [K]: what it read leaves room for one more bound. *)
Definition room_for (st : St) (h : localMoneyHold) : Prop :=
  localMoney st !! K = Some (h_state h) ∧ ms_frozen (deref (h_state h) st) = false ∧
  0 <= h_amount h <= Bd ∧
  ∃ d, 0 <= d ∧ bs_within (bud st) K d ∧ d + ms_held (deref (h_state h) st) < lim.

Lemma room_for_grown key st st' h :
  grown key st st' → kmap st st' → ledger_inv st →
  (∀ x, 0 <= x → bs_within (bud st) K x → bs_within (bud st') K x) →
  room_for st h → room_for st' h.
Proof.
  intros G Hk J Hw (H1 & H2 & H3 & d & H4 & H5 & H6).
  destruct (li_map _ J _ _ H1) as [[c Hc] _]. pose proof (gw_cells _ _ _ G _ _ Hc) as Hc'.
  unfold room_for. rewrite (deref_some _ _ _ Hc') in *. rewrite (deref_some _ _ _ Hc) in *.
  split; [|split; [done|split; [done|eauto]]].
  destruct Hk as [-> |(Hn & _)]; [done|congruence].
Qed.

(** A hold just claimed for [sc]. *)
Definition claimed (st : St) (sc : localMoneyScope) (h : localMoneyHold) : Prop :=
  good_hold st sc h ∧ (lm_key sc = K → room_for st h).

(** From here on, one claim: its effect as a relation the loop composes. *)
Record claim_step (key : string) (st st' : St) : Prop := {
  cs_grown : grown key st st';
  cs_kmap : kmap st st';
  cs_within x : 0 <= x → bs_within (bud st) K x → bs_within (bud st') K x;
  cs_inv : ledger_inv st'
}.

Lemma claimed_step key st st' sc h :
  ledger_inv st → claim_step key st st' → claimed st sc h → claimed st' sc h.
Proof.
  intros J [G Hk Hw _] [Hg Hr]. split; [by eapply good_hold_grown|].
  intros Hs. eapply room_for_grown; eauto.
Qed.
(** The store's operations, as far as [K] is concerned. *)
Definition calm (b b' : B) : Prop :=
  I b' ∧ ∀ x, 0 <= x → bs_within b K x → bs_within b' K x.

Lemma bud_resets k w b : (k = K → w = W) → I b →
  wp (bs_resetsAt k w) (λ t b', calm b b' ∧ (k = K → t = E)) b.
Proof.
  intros Hw HI. pose proof (steady_resets _ _ _ _ Hsteady b k w Hw HI) as Hr.
  unfold wp in *. destruct Hr as [HI' Ht]. split; [split; [done|]|done]. intros x. apply resets_within.
Qed.

Lemma bud_spent k w b : (k = K → w = W) → I b →
  wp (bs_spent k w) (λ d b', calm b b' ∧
    (k = K → ∀ x, 0 <= x → bs_within b K x → 0 <= d <= x ∧ bs_within b' K d)) b.
Proof.
  intros Hw HI. pose proof (steady_spent _ _ _ _ Hsteady b k w Hw HI).
  unfold wp. split; [split; [done|]|].
  - intros x. apply spent_within.
  - intros -> x Hx Hb. by apply (spent_bounds b K w x).
Qed.

Lemma bud_check k e l w b : (k = K → w = W) → I b → wp (bs_check k e l w) (λ _ b', calm b b') b.
Proof.
  intros Hw HI. unfold wp. split; [by apply (steady_check _ _ _ _ Hsteady b k e l w)|].
  intros x. apply check_within.
Qed.

Lemma claim_step_refl key st : ledger_inv st → claim_step key st st.
Proof. intros J. split; [apply grown_refl|by left|done|done]. Qed.

Lemma claim_step_bud key st st' b :
  ledger_inv st → claim_step key st st' → calm (bud st') b → claim_step key st (with_bud b st').
Proof.
  intros J [G Hk Hw J'] [HI Hb].
  assert (grown key st (with_bud b st')) as G' by by apply grown_bud.
  assert (∀ x, 0 <= x → bs_within (bud st) K x → bs_within b K x) as Hw' by eauto.
  split; [done|exact Hk|done|]. by eapply (inv_grown key st).
Qed.

Lemma claim_scope_spec bound bounded sc st :
  ledger_inv st → good_scope sc → 0 <= bound → bound <= Bd → (bounded = false → lim <= Bd) →
  wp (claim_scope bound bounded sc) (λ r st', claim_step (lm_key sc) st st' ∧
    match r with Ok h => claimed st' sc h | Err _ => True end) st.
Proof.
  intros J Hs Hb1 Hb2 Hb3. unfold claim_scope.
  assert (lm_key sc = K → lm_win sc = W) as HW by (intros; by apply Hs).
  rewrite wp_bind, wp_on_bud. eapply wp_mono; [by apply bud_resets; [|apply J]|].
  intros ends b1 [C1 Hends]. pose proof (claim_step_bud _ _ _ _ J (claim_step_refl (lm_key sc) st J) C1) as S1.
  set (st1 := with_bud b1 st) in *.
  rewrite wp_bind. eapply wp_mono; [apply cell_of_spec|]. intros l st2 (G2 & Hbud & Hl & Hcell).
  assert (claim_step (lm_key sc) st st2) as S2.
  { assert (kmap st st2) as Hk2.
    { destruct (decide (lm_key sc = K)) as [He|Hne]; [|left; by rewrite (gw_other _ _ _ G2)].
      rewrite <- He in *. destruct Hcell as [[-> _]|(Hn & Hc & Hnew)]; [by left|].
      destruct (localMoney st !! lm_key sc) as [l0|] eqn:E0.
      - exfalso. apply (Hnew l0 E0). rewrite Hends by done. pose proof (li_cell _ J) as Jc.
        rewrite <- He, E0 in Jc. by destruct Jc.
      - unfold kmap. rewrite <- He. right. split; [done|]. exists l. split; [done|]. split; [done|].
        rewrite Hc. by rewrite Hends. }
    assert (grown (lm_key sc) st st2) as G by (destruct G2; split; done).
    split; [done|done|rewrite Hbud; apply (cs_within _ _ _ S1)|].
    apply (inv_grown _ st _ G Hk2); [rewrite Hbud; apply C1|rewrite Hbud; apply (cs_within _ _ _ S1)|done]. }
  clear S1 G2.
  rewrite wp_bind, wp_on_bud. eapply wp_mono; [apply bud_spent; [done|apply S2]|].
  intros d b3 [C3 Hd].
  pose proof (claim_step_bud _ _ _ _ J S2 C3) as S3. set (st3 := with_bud b3 st2) in *.
  rewrite wp_get. cbv zeta.
  destruct (_ || _)%bool eqn:Ec; [rewrite wp_ret; split; [done|done]|]. bsplit.
  rewrite wp_bind, wp_on_bud. eapply wp_mono; [apply bud_check; [done|apply S3]|].
  intros dec b4 C4. pose proof (claim_step_bud _ _ _ _ J S3 C4) as S4. set (st4 := with_bud b4 st3) in *.
  destruct (bool_decide _) eqn:Edec; rewrite wp_ret; (split; [done|]); [|done].
  assert (is_Some (cells st4 !! l)) as Hsome.
  { destruct (li_map _ (cs_inv _ _ _ S4) (lm_key sc) l Hl) as [? _]. done. }
  assert (0 <= h_amount {| h_state := l; h_amount := if bounded then bound else lm_limit sc - d |}) as Ha.
  { simpl. destruct bounded; lia. }
  split; [split; [done|split; [done|]]|].
  - destruct (decide (lm_key sc = K)) as [He|He]; [left; cbn [h_state]; by rewrite <- He|].
    cbn [h_state]. intros HK. destruct (li_map _ (cs_inv _ _ _ S4) (lm_key sc) l Hl) as [_ Hinj]. by apply He, Hinj.
  - intros He. split; [simpl; by rewrite <- He|]. split; [done|].
    destruct (Hd He (lim - 1 + Bd - pending st2)) as [Hdr Hdw].
    { pose proof (li_room _ (cs_inv _ _ _ S2)). lia. }
    { apply (li_within _ (cs_inv _ _ _ S2)). }
    destruct (Hs He) as (_ & Hlim & _). split.
    + split; [done|]. simpl. destruct bounded; [done|]. specialize (Hb3 eq_refl). lia.
    + exists d. split; [lia|]. split; [by apply C4; [lia|]|]. 
      cbn [h_state]. change (deref l st4) with (deref l st3). lia.
Qed.
(** The loop: every hold is claimed, and no cell or permit changed. *)
Lemma claim_loop_spec bound bounded scs ds holds st :
  ledger_inv st → Forall good_scope scs → 0 <= bound → bound <= Bd → (bounded = false → lim <= Bd) →
  Forall2 (claimed st) (hard_scopes ds) holds →
  wp (claim_loop bound bounded scs holds) (λ r st', ledger_inv st' ∧
    match r with Ok hs => Forall2 (claimed st') (hard_scopes (ds ++ scs)) hs | Err _ => True end) st.
Proof.
  intros J Hs Hb1 Hb2 Hb3. revert ds holds st J. induction Hs as [|sc scs Hsc Hs IH]; intros ds holds st J Hh.
  { cbn [claim_loop]. rewrite wp_ret, app_nil_r. done. }
  cbn [claim_loop]. replace (ds ++ sc :: scs) with ((ds ++ [sc]) ++ scs) by by rewrite <- app_assoc.
  unfold hard_scopes in *. destruct (lm_hard sc) eqn:Eh.
  - rewrite wp_bind. eapply wp_mono; [by apply claim_scope_spec|]. intros r st1 [S1 Hr].
    destruct r as [h|e]; [|rewrite wp_ret; split; [apply S1|done]].
    apply IH; [apply S1|]. rewrite filter_app. simpl. rewrite filter_cons, Eh. simpl. rewrite filter_nil.
    apply Forall2_app; [|constructor; [done|constructor]].
    eapply Forall2_impl; [done|]. intros x y. by apply (claimed_step (lm_key sc)).
  - apply IH; [done|]. rewrite filter_app, filter_cons, Eh. simpl. by rewrite filter_nil, app_nil_r.
Qed.

(** ** Holds and cells *)

Lemma update_holds_some f hs c l : is_Some (c !! l) → is_Some (update_holds f hs c !! l).
Proof.
  unfold update_holds. revert c. induction hs as [|h hs IH]; intros c Hc; [done|]. simpl. apply IH.
  destruct (decide (h_state h = l)) as [->|]; [rewrite lookup_insert_eq; eauto|by rewrite lookup_insert_ne].
Qed.

Lemma update_holds_other f st scs hs c l :
  Forall2 (good_hold st) scs hs → Forall (λ sc, lm_key sc ≠ K) scs → localMoney st !! K = Some l →
  update_holds f hs c !! l = c !! l ∧ sumZ (map claim (zip scs hs)) = 0.
Proof.
  intros Hh Hn Hl. unfold update_holds. revert c. induction Hh as [|sc h scs hs Hg Hh IH]; intros c; [done|].
  apply Forall_cons in Hn as [Hn Hns]. destruct Hg as (_ & _ & Hg). rewrite decide_False in Hg by done.
  simpl. destruct (IH Hns (<[h_state h := f (h_amount h) (default no_cell (c !! h_state h))]> c)) as [-> ->].
  rewrite lookup_insert_ne by congruence. split; [done|]. unfold claim. simpl. by rewrite decide_False.
Qed.

(** Updating the holds of one permit updates [K]'s cell once, with its claim. *)
Lemma update_holds_K f st scs hs c l x :
  Forall2 (good_hold st) scs hs → NoDup (lm_key <$> scs) → localMoney st !! K = Some l → c !! l = Some x →
  let a := sumZ (map claim (zip scs hs)) in
  0 <= a ∧ (a = 0 ∧ update_holds f hs c !! l = Some x ∨ update_holds f hs c !! l = Some (f a x)).
Proof.
  intros Hh Hn Hl. cbv zeta. revert c. induction Hh as [|sc h scs hs Hg Hh IH]; intros c Hc.
  { split; [done|by left]. }
  rewrite fmap_cons in Hn. apply NoDup_cons in Hn as [Hnk Hn]. pose proof Hg as (Ha & _ & Hg').
  cbn [zip zip_with map sumZ foldr]. unfold update_holds. cbn [foldl]. fold (update_holds f hs).
  fold (sumZ (map claim (zip scs hs))).
  destruct (decide (lm_key sc = K)) as [HK|HK].
  - assert (Forall (λ sc, lm_key sc ≠ K) scs) as Hne.
    { apply Forall_forall. intros sc' Hin Heq. apply Hnk. rewrite HK, <- Heq. by apply list_elem_of_fmap_2. }
    destruct (update_holds_other f st scs hs
      (<[h_state h := f (h_amount h) (default no_cell (c !! h_state h))]> c) l Hh Hne Hl) as [Hu ->].
    unfold update_holds in Hu |- *. rewrite Hu. unfold claim. simpl. rewrite decide_True, Z.add_0_r by done.
    split; [done|]. destruct (decide (h_state h = l)) as [->|Hneq].
    + right. by rewrite lookup_insert_eq, Hc.
    + left. rewrite lookup_insert_ne by done. split; [|done]. destruct Hg'; [congruence|done].
  - assert (claim (sc, h) = 0) as -> by (unfold claim; simpl; by rewrite decide_False).
    rewrite Z.add_0_l. apply (IH Hn). by rewrite lookup_insert_ne by congruence.
Qed.

Lemma claims_elem p sc h : Forall2 (λ _ h, 0 <= h_amount h) (hard_scopes (p_scopes p)) (p_holds p) →
  (sc, h) ∈ zip (hard_scopes (p_scopes p)) (p_holds p) → lm_key sc = K → h_amount h <= claims p.
Proof.
  intros Hp Hin HK. unfold claims. induction Hp as [|sc' h' scs hs Ha Hp IH]; [by apply elem_of_nil in Hin|].
  assert (0 <= sumZ (map claim (zip scs hs))) as Hpos.
  { apply sumZ_nonneg, Forall_forall. intros y (x & -> & Hx)%list_elem_of_fmap.
    unfold claim. case_decide; [|done]. clear IH Hin. induction Hp; [by apply elem_of_nil in Hx|].
    apply elem_of_cons in Hx as [-> |Hx]; auto. }
  simpl in *. apply elem_of_cons in Hin as [Heq|Hin]; [injection Heq as -> ->|].
  - assert (claim (sc', h') = h_amount h') as -> by (unfold claim; simpl; by rewrite decide_True). lia.
  - specialize (IH Hin). assert (0 <= claim (sc', h')) by (unfold claim; simpl; case_decide; lia). lia.
Qed.
(** ** Every operation preserves the invariant *)

Lemma claims_nonneg st p : good_permit st p → 0 <= claims p.
Proof.
  intros [Hh _ _]. unfold claims. apply sumZ_nonneg, Forall_forall.
  intros y (x & -> & Hx)%list_elem_of_fmap. unfold claim. case_decide; [|done].
  induction Hh as [|sc h scs hs (Ha & _) Hh IH]; [by apply elem_of_nil in Hx|].
  apply elem_of_cons in Hx as [-> |Hx]; auto.
Qed.

Lemma claims_le_pending st id p :
  ledger_inv st → permits st !! id = Some p → p_once p = false → claims p <= pending st.
Proof.
  intros J Hp Ho.
  assert (∀ i q, permits st !! i = Some q → 0 <= outstanding q) as Hall.
  { intros i q Hq. unfold outstanding. destruct (p_once q) eqn:Eq; [done|].
    eapply claims_nonneg, (li_permits _ J); eauto. }
  unfold pending. rewrite <- (insert_delete_id (permits st) id p Hp).
  rewrite sum_map_new by apply lookup_delete_eq.
  assert (0 <= sum_map outstanding (delete id (permits st))).
  { apply sumZ_nonneg, Forall_forall. intros y ([i q] & -> & Hq)%list_elem_of_fmap.
    apply elem_of_map_to_list, lookup_delete_Some in Hq as [_ Hq]. eauto. }
  unfold outstanding at 1. rewrite Ho. lia.
Qed.

(** Without pending claims every hold on [K] is empty. *)
Lemma pending_zero st id p : ledger_inv st → pending st <= 0 → permits st !! id = Some p →
  p_once p = false → claims p = 0.
Proof.
  intros J Hz Hp Ho. pose proof (claims_le_pending st id p J Hp Ho).
  pose proof (claims_nonneg st p (li_permits _ J id p Hp Ho)). lia.
Qed.

Lemma zip_claim_zero scs hs st :
  Forall2 (good_hold st) scs hs → sumZ (map claim (zip scs hs)) = 0 →
  Forall2 (λ sc h, lm_key sc = K → h_amount h = 0) scs hs.
Proof.
  induction 1 as [|sc h scs hs Hg Hh IH]; intros Hz; [constructor|]. simpl in Hz.
  assert (0 <= sumZ (map claim (zip scs hs))) as Hpos.
  { apply sumZ_nonneg, Forall_forall. intros y (x & -> & Hx)%list_elem_of_fmap. unfold claim.
    case_decide; [|done]. clear -Hh Hx. induction Hh as [|? ? ? ? (Ha & _) ? IH]; [by apply elem_of_nil in Hx|].
    apply elem_of_cons in Hx as [-> |Hx]; auto. }
  destruct Hg as (Ha & _ & _).
  assert (lm_key sc = K → claim (sc, h) = h_amount h) as Hc by (intros He; unfold claim; simpl; by rewrite decide_True).
  assert (0 <= claim (sc, h)) by (unfold claim; simpl; case_decide; lia).
  constructor; [intros He; rewrite Hc in * by done; lia|apply IH; lia].
Qed.

(** Evicting [K]'s cell once nothing is held on it. *)
Lemma inv_evict st key l :
  ledger_inv st → localMoney st !! key = Some l →
  (key = K → ms_held (deref l st) = 0 ∧ ms_frozen (deref l st) = false) →
  ledger_inv (with_money (delete key (localMoney st)) (cells st) st).
Proof.
  intros J Hl He. pose proof J as [J1 J2 J3 J4 J5 J6 J7]. destruct (decide (key = K)) as [-> |Hne].
  - destruct (He eq_refl) as [Hh Hf]. rewrite Hl in J4. destruct J4 as [_ J4]. specialize (J4 Hf).
    assert (pending st = 0) as Hz.
    { assert (0 <= pending st); [|lia]. apply sumZ_nonneg, Forall_forall.
      intros y ([i q] & -> & Hq)%list_elem_of_fmap. apply elem_of_map_to_list in Hq.
      unfold outstanding. simpl. destruct (p_once q) eqn:Eq; [done|]. eapply claims_nonneg, J7; eauto. }
    split; simpl; try done.
    + by rewrite lookup_delete_eq.
    + intros k l' [Hne Hk]%lookup_delete_Some. split; [by apply (J5 k)|]. by rewrite lookup_delete_eq.
    + intros id p Hp Ho. destruct (J7 id p Hp Ho) as [H1 H2 H3]. split; [|done|done].
      pose proof (zip_claim_zero _ _ _ H1 (pending_zero st id p J ltac:(lia) Hp Ho)) as Hzero.
      eapply Forall2_impl; [exact (Forall2_conj _ _ _ _ H1 Hzero)|].
      intros sc h [(Ha & Hs & Hg) H0]. split; [done|]. split; [done|]. simpl. rewrite lookup_delete_eq.
      case_decide; [right; auto|done].
  - split; simpl; try done; rewrite ?lookup_delete_ne by done; try done.
    + intros k l' [Hnk Hk]%lookup_delete_Some. apply (J5 k); done.
    + intros id p Hp Ho. destruct (J7 id p Hp Ho) as [H1 H2 H3]. split; [|done|done].
      eapply Forall2_impl; [exact H1|]. intros sc h (Ha & Hs & Hg). split; [done|]. split; [done|].
      simpl. by rewrite lookup_delete_ne by done.
Qed.
(** The invariant reads only part of the state. *)
Lemma inv_ext st st' :
  bud st' = bud st → localMoney st' = localMoney st → cells st' = cells st → permits st' = permits st →
  wall st' = wall st → ledger_inv st → ledger_inv st'.
Proof.
  intros E1 E2 E3 E4 E5 J. apply (inv_grown K st).
  - split; rewrite ?E2, ?E3; auto.
  - left. by rewrite E2.
  - rewrite E1. apply J.
  - by rewrite E1.
  - done.
Qed.

Lemma evict_spec es st :
  ledger_inv st → (∀ k l, (k, l) ∈ es → localMoney st !! k = Some l ∨ localMoney st !! k = None) →
  wp (evict es) (λ _ st', ledger_inv st') st.
Proof.
  revert st. induction es as [|[k l] es IH]; intros st J Hes; cbn [evict]; [by rewrite wp_ret|].
  rewrite wp_bind. unfold time_Now at 1, wp at 1. cbn [fst snd]. set (st1 := mkState _ _ _ _ _ _ _ _ _).
  assert (ledger_inv st1) as J1 by by apply (inv_ext st).
  rewrite wp_get. cbv zeta. rewrite wp_bind.
  assert (∀ k' l', (k', l') ∈ es → localMoney st !! k' = Some l' ∨ localMoney st !! k' = None) as Hes'.
  { intros k' l' Hin. apply Hes. by apply elem_of_cons; right. }
  destruct (_ || _)%bool eqn:Ec; [|rewrite wp_ret; by apply IH].
  unfold st_put, wp at 1. cbn [fst snd].
  assert (Hes1 := Hes k l (list_elem_of_here _ _)).
  apply IH.
  - destruct Hes1 as [Hl|Hn].
    + apply (inv_evict st1 k l J1 Hl). intros ->.
      pose proof (li_cell _ J) as Jc. rewrite Hl in Jc. destruct Jc as [He _].
      pose proof (li_wall _ J (wall_reads st)). change (deref l st1) with (deref l st) in *.
      unfold Before in Ec. rewrite He in Ec. bcases; [lia|]. done.
    + apply (inv_ext st1); try done. simpl. by rewrite delete_id.
  - intros k' l' Hin. simpl. destruct (decide (k = k')) as [->|Hne]; [right; apply lookup_delete_eq|].
    rewrite lookup_delete_ne by done. by apply Hes'.
Qed.

(** Replacing cells and permits: what the other permits need still holds. *)
Lemma good_permit_cells st st' p :
  localMoney st' = localMoney st → (∀ l, is_Some (cells st !! l) → is_Some (cells st' !! l)) →
  good_permit st p → good_permit st' p.
Proof.
  intros Hm Hc [H1 H2 H3]. split; [|done|done]. eapply Forall2_impl; [exact H1|].
  intros sc h (Ha & Hs & Hg). split; [done|]. split; [by apply Hc|by rewrite Hm].
Qed.

Lemma hard_NoDup scs : NoDup (lm_key <$> scs) → NoDup (lm_key <$> hard_scopes scs).
Proof.
  intros Hn. eapply sublist_NoDup; [exact Hn|]. unfold hard_scopes.
  induction scs as [|sc scs IH]; [done|]. rewrite fmap_cons in Hn. apply NoDup_cons in Hn as [_ Hn].
  rewrite filter_cons, fmap_cons. case_decide; [rewrite fmap_cons; by constructor; apply IH|constructor; by apply IH].
Qed.

(** The claim of a new permit fits the room its claims left. *)
Lemma claimed_room st scs holds a :
  Forall2 (claimed st) scs holds → NoDup (lm_key <$> scs) →
  a = sumZ (map claim (zip scs holds)) →
  a = 0 ∨ ∃ h, room_for st h ∧ h_amount h = a.
Proof.
  intros Hc Hn. revert a. induction Hc as [|sc h scs hs [Hg Hr] Hc IH]; intros a ->; [by left|].
  rewrite fmap_cons in Hn. apply NoDup_cons in Hn as [Hnk Hn]. simpl. unfold claim at 1 3. simpl.
  case_decide as HK; [|rewrite Z.add_0_l; by apply IH].
  right. exists h. split; [by apply Hr|].
  destruct (Hr HK) as (HKl & _).
  destruct (update_holds_other (λ _ c, c) st scs hs ∅ (h_state h)) as [_ Hz]; [| |done|].
  - eapply Forall2_impl; [exact Hc|]. by intros ? ? [? _].
  - apply Forall_forall. intros sc' Hin Heq. apply Hnk. rewrite HK, <- Heq. by apply list_elem_of_fmap_2.
  - change (foldr Z.add 0 (map claim (zip scs hs))) with (sumZ (map claim (zip scs hs))). lia.
Qed.

Lemma grant_spec s scs holds st :
  ledger_inv st → 0 <= Bd → NoDup (lm_key <$> scs) → Forall good_scope scs →
  Forall2 (claimed st) (hard_scopes scs) holds →
  wp (grant s scs holds) (λ _ st', ledger_inv st') st.
Proof.
  intros J HB Hn Hs Hh. pose proof J as [J1 J2 J3 J4 J5 J6 J7]. unfold grant, wp. cbn [fst snd].
  set (p := {| p_once := false; p_holds := holds; p_scopes := scs; p_subject := s |}).
  set (st' := with_permits _ _).
  assert (Forall2 (good_hold st) (hard_scopes scs) holds) as Hg.
  { eapply Forall2_impl; [exact Hh|]. by intros ? ? [? _]. }
  assert (pending st' = claims p + pending st) as Hp.
  { unfold pending, st'. simpl. by rewrite sum_map_new by apply new_loc_None. }
  assert (claims p = 0 ∨ ∃ h, room_for st h ∧ h_amount h = claims p) as Hroom.
  { apply (claimed_room st (hard_scopes scs) holds); [done|by apply hard_NoDup|done]. }
  assert (0 <= claims p ∧ bs_within (bud st) K (lim - 1 + Bd - (claims p + pending st))
          ∧ claims p + pending st <= lim - 1 + Bd) as (Hpos & Hw & Hle).
  { destruct Hroom as [-> |(h & (HKl & Hf & Ha & d & Hd & Hwd & Hlt) & Hamt)]; [rewrite Z.add_0_l; split_and!; done|].
    rewrite HKl in J4. destruct J4 as [_ J4]. specialize (J4 Hf).
    split_and!; [lia| |lia]. eapply within_mono; [exact Hwd|lia]. }
  assert (∀ l, is_Some (cells st !! l) → is_Some (update_holds hold_cell holds (cells st) !! l)) as Hdom.
  { intros l. apply update_holds_some. }
  split; try rewrite Hp; simpl; try done.
  - destruct (localMoney st !! K) as [l|] eqn:El.
    + destruct J4 as [He Hc]. destruct (J5 _ _ El) as [[c Hcl] _].
      destruct (update_holds_K hold_cell st _ holds (cells st) l c Hg (hard_NoDup _ Hn) El Hcl)
        as [_ [[Hz Hu]|Hu]].
      * change (claims p) with (sumZ (map claim (zip (hard_scopes scs) holds))). rewrite Hz, Z.add_0_l.
        rewrite (deref_some l c st Hcl) in He, Hc. unfold deref. simpl. rewrite Hu. done.
      * rewrite (deref_some l c st Hcl) in He, Hc. unfold deref. simpl. rewrite Hu. simpl.
        fold (claims p). change (sumZ _) with (claims p) in *. unfold hold_cell.
        case_match eqn:Eo; simpl; bsplit; split; try done. intros Hf. specialize (Hc Hf). lia.
    + destruct Hroom as [-> |(h & (HKl & _) & _)]; [lia|congruence].
  - intros k l Hl. destruct (J5 k l Hl) as [Hd Hi]. split; [by apply Hdom|done].
  - intros id q [[<- <-]|[_ Hq]]%lookup_insert_Some Ho.
    + apply (good_permit_cells st); [done|done|]. by split.
    + apply (good_permit_cells st); [done|done|]. eauto.
Qed.
(** The requests whose claims on [K] the bound covers. *)
Definition covered (g : Governor) (s : Subject) (kp : KeyPolicy) (bound : Z) (bounded : bool) : Prop :=
  Forall good_scope (localMoneyScopes g s kp) ∧ bound <= Bd ∧ (bounded = false → lim <= Bd).

Lemma reserve_inv g s kp bound bounded st :
  ledger_inv st → covered g s kp bound bounded →
  wp (ReserveLocalBudget range g s kp bound bounded) (λ _ st', ledger_inv st') st.
Proof.
  intros J (Hs & Hb & Hb'). unfold ReserveLocalBudget. set (scs := localMoneyScopes g s kp) in *.
  case_bool_decide; [by rewrite wp_ret|]. destruct (bound <? 0) eqn:E0; [by rewrite wp_ret|]. bsplit.
  rewrite wp_get, wp_bind.
  assert (wp (if ledger_overflows scs st then evict (range (localMoney st)) else mret tt)
            (λ _ st', ledger_inv st') st) as He.
  { case_match; [|by rewrite wp_ret]. apply evict_spec; [done|]. intros k l Hin. left.
    rewrite range_perm in Hin. by apply elem_of_map_to_list. }
  eapply wp_mono; [exact He|]. intros ? st1 J1. cbv beta in J1. rewrite wp_get.
  destruct (ledger_overflows scs st1); [by rewrite wp_ret|]. rewrite wp_bind.
  eapply wp_mono; [eapply (claim_loop_spec _ _ _ [] []); [done|done|lia|done|done|constructor]|].
  intros r st2 [J2 Hr]. destruct r as [holds|e]; [|by rewrite wp_ret].
  rewrite wp_bind. eapply wp_mono; [apply grant_spec; try done; [lia|apply localMoneyScopes_NoDup]|].
  intros id st3 J3. by rewrite wp_ret.
Qed.

(** Debiting a permit's scopes debits [K] once at most. *)
Lemma debit_loop_spec a scs (st : St) x :
  0 <= a → NoDup (lm_key <$> scs) → Forall good_scope scs → I (bud st) → 0 <= x → bs_within (bud st) K x →
  wp (debit_loop a scs) (λ _ st', ∃ b, st' = with_bud b st ∧ I b ∧
    bs_within b K (if decide (K ∈ lm_key <$> scs) then x + a else x)) st.
Proof.
  intros Ha Hn Hs. revert st x. induction Hs as [|sc scs Hsc Hs IH]; intros st x HI Hx Hw; cbn [debit_loop].
  { rewrite wp_ret. exists (bud st). split; [by destruct st|]. done. }
  rewrite fmap_cons in Hn. apply NoDup_cons in Hn as [Hnk Hn].
  rewrite wp_bind, wp_on_bud.
  assert (lm_key sc = K → lm_win sc = W) as HW by (intros; by apply Hsc).
  eapply wp_mono; [apply wp_and;
    [by apply (steady_debit _ _ _ _ Hsteady)|by apply (debit_within (bud st) (lm_key sc) a (lm_win sc) K x)]|].
  intros _ b [Hb Hwb]. replace (x + Z.max 0 a) with (x + a) in Hwb by lia.
  eapply wp_mono; [eapply (IH Hn (with_bud b st)); [exact Hb| |exact Hwb]; case_decide; lia|].
  intros _ st' (b' & -> & HI' & Hw'). exists b'. split; [done|]. split; [done|].
  eapply within_mono; [exact Hw'|].
  destruct (decide (lm_key sc = K)) as [HK|HK].
  + rewrite HK in Hnk. rewrite (decide_False _ _ Hnk), decide_True by (rewrite fmap_cons, HK; apply list_elem_of_here). lia.
  + destruct (decide (K ∈ lm_key <$> scs)) as [Hin|Hni].
    * rewrite decide_True by (rewrite fmap_cons; by apply elem_of_cons; right). lia.
    * case_decide; lia.
Qed.

Lemma report_scope_inv g s sc st :
  ledger_inv st → good_scope sc → wp (report_scope g s sc) (λ _ st', ledger_inv st') st.
Proof.
  intros J Hsc. unfold report_scope. case_bool_decide; [|by rewrite wp_ret].
  rewrite wp_bind, wp_on_bud. eapply wp_mono; [apply bud_spent; [intros; by apply Hsc|apply J]|].
  intros d b [C _].
  pose proof (cs_inv _ _ _ (claim_step_bud K _ _ _ J (claim_step_refl K st J) C)) as J1.
  repeat case_match; rewrite ?wp_bind; unfold emit, wp; cbn [fst snd]; try (by apply (inv_ext (with_bud b st)));
    rewrite ?wp_ret; try done; try (by apply (inv_ext (with_bud b st))).
Qed.

Lemma report_loop_inv g s scs st :
  ledger_inv st → Forall good_scope scs → wp (report_loop g s scs) (λ _ st', ledger_inv st') st.
Proof.
  intros J Hs. revert st J. induction Hs as [|sc scs Hsc Hs IH]; intros st J; cbn [report_loop]; [by rewrite wp_ret|].
  rewrite wp_bind. eapply wp_mono; [by apply report_scope_inv|]. intros ? st1 J1. by apply IH.
Qed.
Lemma inv_finished st id p b complete invalid :
  ledger_inv st → permits st !! id = Some p → p_once p = false →
  I b → bs_within b K (lim - 1 + Bd - pending st + claims p) →
  ledger_inv (with_money (localMoney st)
    (update_holds (release_cell complete invalid) (p_holds p) (cells st))
    (with_bud b (mark_finished id p st))).
Proof.
  intros J Hp Ho HI Hw. pose proof J as [J1 J2 J3 J4 J5 J6 J7]. set (st' := with_money _ _ _).
  pose proof (claims_le_pending st id p J Hp Ho) as Hle.
  pose proof (J7 id p Hp Ho) as Hgood. pose proof (claims_nonneg st p Hgood) as Hpos.
  assert (pending st' = pending st - claims p) as Hpend.
  { unfold pending, st'. simpl. rewrite (sum_map_update _ _ _ _ _ Hp). unfold outstanding. simpl.
    rewrite Ho. lia. }
  assert (∀ l, is_Some (cells st !! l) → is_Some (cells st' !! l)) as Hdom
    by (intros l; apply update_holds_some).
  split; try rewrite Hpend; simpl; try done.
  - eapply within_mono; [exact Hw|lia].
  - lia.
  - destruct (localMoney st !! K) as [l|] eqn:El; [|lia]. destruct (J5 _ _ El) as [[c Hcl] _].
    rewrite (deref_some l c st Hcl) in J4. destruct J4 as [He Hc].
    destruct (update_holds_K (release_cell complete invalid) st _ (p_holds p) (cells st) l c
      (gp_holds _ _ Hgood) (hard_NoDup _ (gp_keys _ _ Hgood)) El Hcl) as [_ [[Hz Hu]|Hu]];
    change (sumZ _) with (claims p) in *; unfold deref, st'; simpl; rewrite Hu; simpl.
    + rewrite Hz, Z.sub_0_r. done.
    + unfold release_cell. destruct (complete && negb invalid)%bool; [|destruct invalid]; simpl; split; try done;
        intros Hf; specialize (Hc Hf); [|lia]. rewrite wrap64_id by int_lia. lia.
  - intros k l Hl. destruct (J5 k l Hl) as [Hd Hi]. split; [by apply Hdom|done].
  - intros id' q [[<- <-]|[_ Hq]]%lookup_insert_Some Hq'; [done|].
    apply (good_permit_cells st); [done|done|]. eauto.
Qed.

(** What an attempt may cost: no more than any of its holds. *)
Definition within_bound (p : LocalBudgetPermit) (actual : option Z) : Prop :=
  ∀ a, proved actual = Some a → Forall (λ h, a <= h_amount h) (p_holds p).

Lemma actual_le_claims st p a :
  good_permit st p → K ∈ lm_key <$> p_scopes p → Forall (λ h, a <= h_amount h) (p_holds p) → a <= claims p.
Proof.
  intros [Hh _ Hs] (sc & HK & Hin)%list_elem_of_fmap Ha.
  pose proof (proj1 (Forall_forall _ _) Hs sc Hin) as Hsc. destruct (Hsc (eq_sym HK)) as (Hhard & _).
  assert (sc ∈ hard_scopes (p_scopes p)) as Hin' by by apply list_elem_of_filter.
  apply list_elem_of_lookup in Hin' as [i Hi].
  destruct (Forall2_lookup_l _ _ _ _ _ Hh Hi) as (h & Hhi & _).
  transitivity (h_amount h).
  - eapply Forall_lookup in Ha; eauto.
  - apply (claims_elem p sc h); [|apply list_elem_of_lookup; exists i; by rewrite lookup_zip_with, Hi, Hhi|done].
    eapply Forall2_impl; [exact Hh|]. by intros ? ? [? _].
Qed.

Lemma finish_inv g id actual complete invalid provider model st :
  ledger_inv st → (∀ p, permits st !! id = Some p → p_once p = false → within_bound p actual) →
  wp (FinishLocalBudget g (Some id) actual complete invalid provider model) (λ _ st', ledger_inv st') st.
Proof.
  intros J Hact. cbn [FinishLocalBudget]. rewrite wp_get.
  destruct (permits st !! id) as [p|] eqn:Hp; [|by rewrite wp_ret].
  destruct (p_once p) eqn:Ho; [by rewrite wp_ret|]. specialize (Hact p eq_refl Ho).
  pose proof (li_permits _ J id p Hp Ho) as Hgood. pose proof (claims_nonneg st p Hgood) as Hpos.
  rewrite wp_modify. unfold finish_permit. rewrite wp_bind.
  assert (wp (match proved actual with Some a => debit_loop a (p_scopes p) | None => mret tt end)
    (λ _ st', ∃ b, st' = with_bud b (mark_finished id p st) ∧ I b ∧
       bs_within b K (lim - 1 + Bd - pending st + claims p)) (mark_finished id p st)) as Hd.
  { pose proof (li_room _ J). destruct (proved actual) as [a|] eqn:Ea.
    - assert (0 <= a) as Ha0 by (unfold proved in Ea; repeat case_hyp Ea; simplify_eq; bsplit; lia).
      eapply wp_mono; [apply (debit_loop_spec a (p_scopes p) _ (lim - 1 + Bd - pending st));
        [done|apply Hgood|apply Hgood|apply J|lia|apply J]|].
      intros _ st' (b & -> & HI & Hw). exists b. split; [done|]. split; [done|].
      eapply within_mono; [exact Hw|]. case_decide as Hin; [|lia].
      pose proof (actual_le_claims st p a Hgood Hin (Hact a Ea)). lia.
    - rewrite wp_ret. exists (bud st). split; [done|]. split; [apply J|].
      eapply within_mono; [apply J|lia]. }
  eapply wp_mono; [exact Hd|]. intros [] st1 (b & -> & HI & Hw). rewrite wp_modify.
  pose proof (inv_finished st id p b complete invalid J Hp Ho HI Hw) as J'.
  destruct (proved actual) as [a|].
  - rewrite wp_bind. unfold emit at 1, wp at 1. cbn [fst snd]. apply report_loop_inv; [|apply Hgood].
    eapply inv_ext; [..|exact J']; done.
  - destruct invalid; [|by rewrite wp_ret]. unfold emit, wp. cbn [fst snd].
    eapply inv_ext; [..|exact J']; done.
Qed.
(** Histories of attempts: any number outstanding at once, in any order, and the
    store's counters read by anyone in between. *)
Inductive reachable : St → Prop :=
| reach_start st :
    localMoney st = ∅ → permits st = ∅ → (∀ n, wall st n < E) → I (bud st) →
    bs_within (bud st) K (lim - 1 + Bd) → reachable st
| reach_reserve st g s kp bound bounded :
    reachable st → covered g s kp bound bounded →
    reachable (ReserveLocalBudget range g s kp bound bounded st).2
| reach_finish st g id actual complete invalid provider model :
    reachable st → (∀ p, permits st !! id = Some p → p_once p = false → within_bound p actual) →
    reachable (FinishLocalBudget g (Some id) actual complete invalid provider model st).2
| reach_check st k e l w :
    reachable st → (k = K → w = W) → reachable (on_bud (bs_check k e l w) st).2
| reach_spent st k w :
    reachable st → (k = K → w = W) → reachable (on_bud (bs_spent k w) st).2
| reach_resets st k w :
    reachable st → (k = K → w = W) → reachable (on_bud (bs_resetsAt k w) st).2.

Lemma start_inv st :
  0 < lim → 0 <= Bd → localMoney st = ∅ → permits st = ∅ → (∀ n, wall st n < E) → I (bud st) →
  bs_within (bud st) K (lim - 1 + Bd) → ledger_inv st.
Proof.
  intros Hlim HB H1 H2 H3 H4 H5. assert (pending st = 0) as Hz by (unfold pending; by rewrite H2).
  split; rewrite ?Hz, ?H1, ?H2; try done; [by rewrite Z.sub_0_r|lia].
Qed.

(** The counters may be read by anyone in between. *)
Lemma check_inv k e l w st : (k = K → w = W) → ledger_inv st → ledger_inv (on_bud (bs_check k e l w) st).2.
Proof.
  intros Hw J. pose proof (bud_check k e l w (bud st) Hw (li_steady _ J)) as C. unfold on_bud, wp in *.
  destruct (bs_check k e l w (bud st)) as [x b]. apply (cs_inv _ _ _ (claim_step_bud K _ _ _ J (claim_step_refl K st J) C)).
Qed.
Lemma spent_inv k w st : (k = K → w = W) → ledger_inv st → ledger_inv (on_bud (bs_spent k w) st).2.
Proof.
  intros Hw J. pose proof (bud_spent k w (bud st) Hw (li_steady _ J)) as [C _]. unfold on_bud, wp in *.
  destruct (bs_spent k w (bud st)) as [x b]. apply (cs_inv _ _ _ (claim_step_bud K _ _ _ J (claim_step_refl K st J) C)).
Qed.
Lemma resets_inv k w st : (k = K → w = W) → ledger_inv st → ledger_inv (on_bud (bs_resetsAt k w) st).2.
Proof.
  intros Hw J. pose proof (bud_resets k w (bud st) Hw (li_steady _ J)) as [C _]. unfold on_bud, wp in *.
  destruct (bs_resetsAt k w (bud st)) as [x b]. apply (cs_inv _ _ _ (claim_step_bud K _ _ _ J (claim_step_refl K st J) C)).
Qed.

Lemma reachable_inv st : 0 < lim → 0 <= Bd → reachable st → ledger_inv st.
Proof.
  intros Hlim HB. induction 1 as [st H1 H2 H3 H4 H5|st g s kp bound bounded _ J Hc
    |st g id actual complete invalid provider model _ J Hact|st k e l w _ J Hw|st k w _ J Hw|st k w _ J Hw].
  - by apply start_inv.
  - by apply (reserve_inv g s kp bound bounded st).
  - by apply (finish_inv g id actual complete invalid provider model st).
  - by apply check_inv.
  - by apply spent_inv.
  - by apply resets_inv.
Qed.

Lemma inv_within st : ledger_inv st → bs_within (bud st) K (lim - 1 + Bd).
Proof.
  intros J. eapply within_mono; [apply (li_within _ J)|].
  assert (0 <= pending st); [|lia]. apply sumZ_nonneg, Forall_forall.
  intros y ([i q] & -> & Hq)%list_elem_of_fmap. apply elem_of_map_to_list in Hq.
  unfold outstanding. simpl. destruct (p_once q) eqn:Eq; [done|].
  eapply claims_nonneg, (li_permits _ J); eauto.
Qed.

(** Outstanding attempts never multiply the overshoot: however many attempts
    are admitted at once and in whatever order they finish, as long as none costs
    more than it reserved, the recorded spend of a capped counter stays below the
    cap plus the bound of a single attempt. *)
Theorem local_overshoot st :
  0 < lim → 0 <= Bd → reachable st → bs_within (bud st) K (lim - 1 + Bd).
Proof. intros Hlim HB Hr. by apply inv_within, reachable_inv. Qed.
End Overshoot.

(** ** All or nothing, and once *)

Section Atomic.
Context {L F B : Type} `{!BudgetStore B}.
Context (range : gmap string nat → list (string * nat)).
Abbreviation St := (State L F B).

(** Nothing outstanding changed: every cell and every permit is as it was. *)
Definition untouched (st st' : St) : Prop :=
  permits st' = permits st ∧ ∀ l c, cells st !! l = Some c → cells st' !! l = Some c.

Lemma untouched_refl st : untouched st st.
Proof. by split. Qed.

Lemma untouched_trans st1 st2 st3 : untouched st1 st2 → untouched st2 st3 → untouched st1 st3.
Proof. intros [P1 C1] [P2 C2]. split; [congruence|eauto]. Qed.

Lemma untouched_bud {A} (m : ST B A) st : wp (on_bud m) (λ _ st', untouched st st') st.
Proof. rewrite wp_on_bud. by unfold wp. Qed.

Lemma claim_scope_untouched bound bounded sc st :
  wp (claim_scope bound bounded sc) (λ _ st', untouched st st') st.
Proof.
  unfold claim_scope. rewrite wp_bind. eapply wp_mono; [apply untouched_bud|]. intros ends st1 U1.
  rewrite wp_bind. eapply wp_mono; [apply cell_of_spec|]. intros l st2 (G & _).
  assert (untouched st st2) as U2.
  { eapply untouched_trans; [exact U1|]. split; [apply (gw_permits _ _ _ G)|apply (gw_cells _ _ _ G)]. }
  rewrite wp_bind. eapply wp_mono; [apply untouched_bud|]. intros d st3 U3.
  pose proof (untouched_trans _ _ _ U2 U3). rewrite wp_get. cbv zeta.
  destruct (_ || _)%bool; [by rewrite wp_ret|].
  rewrite wp_bind. eapply wp_mono; [apply untouched_bud|]. intros dec st4 U4.
  pose proof (untouched_trans st st3 st4). case_bool_decide; rewrite wp_ret; auto.
Qed.

Lemma claim_loop_untouched bound bounded scs holds st :
  wp (claim_loop bound bounded scs holds) (λ r st', untouched st st' ∧
    match r with
    | Ok hs => length hs = (length holds + length (hard_scopes scs))%nat
    | Err _ => True
    end) st.
Proof.
  revert holds st. induction scs as [|sc scs IH]; intros holds st; cbn [claim_loop].
  { rewrite wp_ret. split; [apply untouched_refl|]. simpl. lia. }
  unfold hard_scopes in *. rewrite filter_cons. destruct (lm_hard sc) eqn:Eh.
  - rewrite decide_True by done. rewrite wp_bind. eapply wp_mono; [apply claim_scope_untouched|].
    intros r st1 U1. destruct r as [h|e]; [|by rewrite wp_ret].
    eapply wp_mono; [apply IH|]. intros r st2 [U2 Hl]. split; [by eapply untouched_trans|].
    destruct r; [|done]. rewrite Hl, length_app. simpl. lia.
  - rewrite decide_False by done. apply IH.
Qed.

Lemma evict_untouched es st : wp (evict es) (λ _ st', untouched st st') st.
Proof.
  revert st. induction es as [|[k l] es IH]; intros st; cbn [evict]; [by rewrite wp_ret|].
  rewrite wp_bind. unfold time_Now at 1, wp at 1. cbn [fst snd]. set (st1 := mkState _ _ _ _ _ _ _ _ _).
  rewrite wp_get. cbv zeta. rewrite wp_bind. case_match; [|rewrite wp_ret; apply (IH st1)].
  unfold st_put, wp at 1. cbn [fst snd]. eapply wp_mono; [apply IH|].
  intros ? st2 U. cbv beta in U. eapply untouched_trans; [|exact U]. by split.
Qed.

(** Reservation is all or nothing: a refused attempt leaves every outstanding
    liability and every permit as they were; an admitted one with local limits gets a
    fresh unfinished permit holding one claim per blocking scope, for exactly the
    scopes the request is governed by; and only a request without local limits is
    admitted without a permit. *)
Theorem ReserveLocalBudget_atomic g s kp bound bounded (st : St) :
  wp (ReserveLocalBudget range g s kp bound bounded) (λ r st',
    match r with
    | Err _ => untouched st st'
    | Ok None => localMoneyScopes g s kp = [] ∧ st' = st
    | Ok (Some id) => localMoneyScopes g s kp ≠ [] ∧ 0 <= bound ∧ permits st !! id = None ∧
        ∃ holds, length holds = length (hard_scopes (localMoneyScopes g s kp)) ∧
          permits st' = <[id := {| p_once := false; p_holds := holds;
                                   p_scopes := localMoneyScopes g s kp; p_subject := s |}]> (permits st)
    end) st.
Proof.
  unfold ReserveLocalBudget. set (scs := localMoneyScopes g s kp).
  case_bool_decide; [by rewrite wp_ret|]. destruct (bound <? 0) eqn:E0; [rewrite wp_ret; apply untouched_refl|]. bsplit.
  rewrite wp_get, wp_bind.
  assert (wp (if ledger_overflows scs st then evict (range (localMoney st)) else mret tt)
            (λ _ st', untouched st st') st) as Hev.
  { case_match; [apply evict_untouched|by rewrite wp_ret]. }
  eapply wp_mono; [exact Hev|]. intros ? st1 U1. cbv beta in U1. rewrite wp_get.
  destruct (ledger_overflows scs st1); [by rewrite wp_ret|]. rewrite wp_bind.
  eapply wp_mono; [apply claim_loop_untouched|]. intros x st2 [U2 Hl].
  pose proof (untouched_trans _ _ _ U1 U2) as [Up Uc]. destruct x as [holds|e]; [|by rewrite wp_ret].
  rewrite wp_bind. unfold grant, wp at 1. cbn [fst snd]. rewrite wp_ret.
  split; [done|]. split; [done|]. rewrite <- Up. split; [apply new_loc_None|].
  exists holds. simpl. done.
Qed.

Lemma debit_loop_permits a scs st : wp (debit_loop a scs) (λ _ st', permits st' = permits st) (st : St).
Proof.
  revert st. induction scs as [|sc scs IH]; intros st; cbn [debit_loop]; [by rewrite wp_ret|].
  rewrite wp_bind. eapply wp_mono; [apply untouched_bud|]. intros ? st1 [Hp _].
  eapply wp_mono; [apply IH|]. intros ? st2 Hp2. cbv beta in Hp2. congruence.
Qed.

Lemma report_loop_permits g s scs st : wp (report_loop g s scs) (λ _ st', permits st' = permits st) (st : St).
Proof.
  revert st. induction scs as [|sc scs IH]; intros st; cbn [report_loop]; [by rewrite wp_ret|].
  rewrite wp_bind. eapply wp_mono with (Q := λ _ st', permits st' = permits st).
  - unfold report_scope. case_bool_decide; [|by rewrite wp_ret].
    rewrite wp_bind. eapply wp_mono; [apply untouched_bud|]. intros ? st1 [Hp _].
    repeat case_match; rewrite ?wp_bind; unfold emit, wp; cbn [fst snd]; rewrite ?wp_ret; done.
  - intros ? st1 Hp. eapply wp_mono; [apply IH|]. intros ? st2 Hp2. cbv beta in *. congruence.
Qed.

(** A permit settles once: after a first finish, finishing again, with any
    observation, changes nothing at all. *)
Theorem FinishLocalBudget_once g g' id a a' c c' i i' pr pr' mo mo' (st : St) :
  let st' := (FinishLocalBudget g id a c i pr mo st).2 in
  (FinishLocalBudget g' id a' c' i' pr' mo' st').2 = st'.
Proof.
  cbv zeta. destruct id as [id|]; [|done].
  enough (wp (FinishLocalBudget g (Some id) a c i pr mo)
    (λ _ st', ∀ p, permits st' !! id = Some p → p_once p = true) st) as Hw.
  { unfold wp in Hw. set (st' := (FinishLocalBudget _ _ _ _ _ _ _ st).2) in *.
    cbn [FinishLocalBudget]. unfold mbind, st_mbind, st_get.
    destruct (permits st' !! id) as [p|]; [|done]. by rewrite (Hw p eq_refl). }
  cbn [FinishLocalBudget]. rewrite wp_get. destruct (permits st !! id) as [p|] eqn:Hp.
  2: { rewrite wp_ret. intros p. by rewrite Hp. }
  destruct (p_once p) eqn:Ho; [rewrite wp_ret; intros q; rewrite Hp; intros [= <-]; done|].
  rewrite wp_modify. unfold finish_permit. rewrite wp_bind.
  eapply wp_mono with (Q := λ _ st', permits st' = permits (mark_finished id p st)).
  { case_match; [apply debit_loop_permits|by rewrite wp_ret]. }
  intros ? st1 H1. cbv beta in H1. rewrite wp_modify.
  assert (∀ st2 : St, permits st2 = permits (mark_finished id p st) →
            ∀ q, permits st2 !! id = Some q → p_once q = true) as Hdone.
  { intros st2 -> q. simpl. rewrite lookup_insert_eq. by intros [= <-]. }
  case_match.
  - rewrite wp_bind. unfold emit at 1, wp at 1. cbn [fst snd].
    eapply wp_mono; [apply report_loop_permits|]. intros ? st2 H2. apply Hdone. by rewrite H2.
  - case_match; [unfold emit, wp; cbn [fst snd]; by apply Hdone|]. rewrite wp_ret. by apply Hdone.
Qed.
End Atomic.

(** ** Witnesses *)

Definition demo_team : TeamPolicy :=
  {| tp_RatePerMin := 0; tp_RateBurst := 1; tp_TokensPerMinute := 0; tp_TokensPerDay := 0;
     tp_QuotaExceeded := ""; tp_BudgetMicrosPerMonth := 100; tp_BudgetExceeded := "block";
     tp_BudgetMicrosPerDay := 0; tp_BudgetDayExceeded := ""; tp_AdminContact := "";
     tp_Sources := ConfigSources |}.
Definition demo_governor : Governor := NewGovernor {[ "acme" := demo_team ]}.
Definition demo_subject : Subject := {| s_Team := "acme"; s_KeyID := "ik"; s_User := "" |}.
Definition no_key_limits : KeyPolicy :=
  {| kp_RatePerMin := 0; kp_TokensPerMinute := 0; kp_BudgetMicrosPerMonth := 0; kp_BudgetMicrosPerDay := 0 |}.

Definition demo_now : Time := 1772000000 * Second.
Definition demo_month : Window := CalendarMonthIn None.
Definition demo_end : Time := windowEnd demo_now demo_month.
Definition demo_key : string := Budget.Key ScopeTeam "acme" demo_month.

(** 99 of the 100 are spent. *)
Definition demo_bud : Memory :=
  {| m := {[ demo_key := {| spent := 99; ends := demo_end |} ]}; now := λ _, demo_now; reads := 0;
     maxEntries := 10; sweepTick := 0; rejected := 0 |}.

Definition demo_start : State unit unit Memory :=
  {| lim := tt; bud := demo_bud; admissions := ∅; localMoney := ∅; cells := ∅; permits := ∅;
     wall := λ _, demo_now; wall_reads := 0; events := [] |}.

Definition demo_reserve (st : State unit unit Memory) : State unit unit Memory :=
  (ReserveLocalBudget map_to_list demo_governor demo_subject no_key_limits 40 true st).2.

(** Two attempts, of which the second is refused, and the first's settlement. *)
Definition demo_two : State unit unit Memory := demo_reserve (demo_reserve demo_start).
Definition demo_end_state : State unit unit Memory :=
  (FinishLocalBudget demo_governor (Some 1%nat) (Some 40) true false "p" "m" demo_two).2.

Lemma demo_covered : covered demo_key demo_month 100 40 demo_governor demo_subject no_key_limits 40 true.
Proof.
  split; [|split; [lia|done]]. set (l := localMoneyScopes _ _ _). vm_compute in l. subst l.
  apply Forall_singleton. intros _. split; [done|]. split; [simpl; lia|done].
Defined.

Lemma local_overshoot_witness :
  bs_within (bud demo_end_state) demo_key 139 ∧ spent <$> m (bud demo_end_state) !! demo_key = Some 139.
Proof.
  split; [|vm_compute; reflexivity].
  change 139 with (100 - 1 + 40).
  apply (local_overshoot map_to_list (λ _, reflexivity _) demo_key demo_month demo_end 100 40
    (in_window demo_key demo_month demo_end) (in_window_steady _ _ _)); [lia|lia|].
  unfold demo_end_state, demo_two, demo_reserve. apply reach_finish.
  - apply reach_reserve; [|exact demo_covered]. apply reach_reserve; [|exact demo_covered].
    apply reach_start; try done.
    + split; [done|]. intros v Hv. simpl in Hv. apply lookup_singleton_Some in Hv as [_ <-]. done.
    + intros v Hv. simpl in Hv. apply lookup_singleton_Some in Hv as [_ <-]. done.
  - intros p Hp _. vm_compute in Hp. injection Hp as <-. intros a Ha. vm_compute in Ha. injection Ha as <-.
    repeat constructor. done.
Defined.
