(* ===== verification/Governance.v ===== *)
(** * The governance pipeline (internal/governance)

    [PreCheck] decides before the upstream call, [Settle] accounts after it; an
    [Admission] is the handle between them and owns the token reservations
    [PreCheck] made.  Admissions live in the shared state and callers hold their
    index.  The stores are the interfaces of [Limiter] and [Budget]. *)

From S2P Require Import Prelude GoTime GoFloat Pricing Limiter Budget Denial Governor LocalMoney.

Definition Day24 : Duration := 24 * Hour.

(** ** Decisions *)

Record GovDecision := {
  d_Admission : option nat; d_Allowed : bool; d_Status : Z; d_Reason : string;
  d_Code : option DenyReason; d_Governance : option GovernanceRef
}.

Definition allow (a : option nat) : GovDecision :=
  {| d_Admission := a; d_Allowed := true; d_Status := 0; d_Reason := ""; d_Code := None;
     d_Governance := None |}.

Definition deny (status : Z) (reason : string) (code : DenyReason) (gov : option GovernanceRef) : GovDecision :=
  {| d_Admission := None; d_Allowed := false; d_Status := status; d_Reason := reason;
     d_Code := Some code; d_Governance := gov |}.

(** The em dash, in UTF-8. *)
Definition em_dash : string := "—".

Definition budgetExceededMessage (kind : string) (resetsAt : Time) (l : Location) (adminContact : string) : string :=
  kind +:+ " exceeded " +:+ em_dash +:+ " resets " +:+ format_day resetsAt l +:+
  (if bool_decide (adminContact = "") then "" else ". Contact your admin: " +:+ adminContact).

Definition mustDenyBudget (dec : Budget.Decision) (onExceeded : string) : bool :=
  (bool_decide (dec = Budget.BlockCapacity) ||
   (bool_decide (dec = Budget.Block) && negb (bool_decide (onExceeded = "warn"))))%bool.

(** One money window of one scope, as [PreCheck] enforces it. *)
Record BudgetGate := {
  bg_scope : string; bg_id : string; bg_limit : Z; bg_mode : string; bg_win : Window;
  bg_kind : string; bg_contact : string; bg_code : DenyReason;
  bg_govScope : string; bg_govLimit : string; bg_source : LimitSource
}.

Definition bg_key (b : BudgetGate) : string := Budget.Key (bg_scope b) (bg_id b) (bg_win b).

Definition team_gates (g : Governor) (s : Subject) (p : TeamPolicy) : list BudgetGate :=
  [{| bg_scope := ScopeTeam; bg_id := s_Team s; bg_limit := tp_BudgetMicrosPerMonth p;
      bg_mode := tp_BudgetExceeded p; bg_win := monthWindow g; bg_kind := "budget";
      bg_contact := tp_AdminContact p; bg_code := DenyTeamBudgetExceeded;
      bg_govScope := GovScopeTeam; bg_govLimit := GovLimitBudgetMonth;
      bg_source := ts_Budget (tp_Sources p) |};
   {| bg_scope := ScopeTeam; bg_id := s_Team s; bg_limit := tp_BudgetMicrosPerDay p;
      bg_mode := tp_BudgetDayExceeded p; bg_win := dayWindow g; bg_kind := "daily budget";
      bg_contact := tp_AdminContact p; bg_code := DenyTeamBudgetExceeded;
      bg_govScope := GovScopeTeam; bg_govLimit := GovLimitBudgetDay;
      bg_source := ts_BudgetDay (tp_Sources p) |}].

Definition key_gates (g : Governor) (s : Subject) (kp : KeyPolicy) : list BudgetGate :=
  [{| bg_scope := ScopeKey; bg_id := s_KeyID s; bg_limit := kp_BudgetMicrosPerMonth kp;
      bg_mode := ""; bg_win := monthWindow g; bg_kind := "key budget"; bg_contact := "";
      bg_code := DenyKeyBudgetExceeded; bg_govScope := GovScopeKey;
      bg_govLimit := GovLimitBudgetMonth; bg_source := keySource |};
   {| bg_scope := ScopeKey; bg_id := s_KeyID s; bg_limit := kp_BudgetMicrosPerDay kp;
      bg_mode := ""; bg_win := dayWindow g; bg_kind := "key daily budget"; bg_contact := "";
      bg_code := DenyKeyBudgetExceeded; bg_govScope := GovScopeKey;
      bg_govLimit := GovLimitBudgetDay; bg_source := keySource |}].

Definition user_gates (g : Governor) (s : Subject) (p : UserPolicy) : list BudgetGate :=
  [{| bg_scope := ScopeUser; bg_id := userBudgetID s; bg_limit := up_BudgetMicrosPerMonth p;
      bg_mode := up_BudgetExceeded p; bg_win := monthWindow g; bg_kind := "user budget";
      bg_contact := up_AdminContact p; bg_code := DenyUserBudgetExceeded;
      bg_govScope := GovScopeUser; bg_govLimit := GovLimitBudgetMonth;
      bg_source := us_Budget (up_Sources p) |};
   {| bg_scope := ScopeUser; bg_id := userBudgetID s; bg_limit := up_BudgetMicrosPerDay p;
      bg_mode := up_BudgetExceeded p; bg_win := dayWindow g; bg_kind := "user daily budget";
      bg_contact := up_AdminContact p; bg_code := DenyUserBudgetExceeded;
      bg_govScope := GovScopeUser; bg_govLimit := GovLimitBudgetDay;
      bg_source := us_BudgetDay (up_Sources p) |}].

Definition gate_denial (g : Governor) (b : BudgetGate) (dec : Budget.Decision) (resetsAt : Time) : GovDecision :=
  deny 402 (budgetExceededMessage (bg_kind b) resetsAt (budgetLocOrUTC g) (bg_contact b)) (bg_code b)
    (Some (budgetDenial (bg_govScope b) (bg_govLimit b) (bg_source b) dec)).

(** ** Admissions (admission.go) *)

Section Governance.
Context {L F B : Type} `{LimiterStore L F} `{BudgetStore B}.
Abbreviation St := (State L F B).

Definition no_admission : Admission F := mkAdmission true [] 0 0 true false false.
Definition adm (a : nat) (st : St) : Admission F := default no_admission (admissions st !! a).

Definition update_adm (a : nat) (f : Admission F → Admission F) : ST St unit :=
  st_modify (λ st, with_admissions (<[a := f (adm a st)]> (admissions st)) st).

Definition set_once (x : Admission F) : Admission F :=
  mkAdmission true (a_rates x) (a_estimate x) (a_cost x) (a_missing x) (a_moneyOwned x) (a_dispatched x).
Definition add_rate (f : F) (x : Admission F) : Admission F :=
  mkAdmission (a_once x) (a_rates x ++ [f]) (a_estimate x) (a_cost x) (a_missing x) (a_moneyOwned x) (a_dispatched x).
Definition set_result (cost : Z) (missing : bool) (x : Admission F) : Admission F :=
  mkAdmission (a_once x) (a_rates x) (a_estimate x) cost missing (a_moneyOwned x) (a_dispatched x).
Definition set_moneyOwned (x : Admission F) : Admission F :=
  mkAdmission (a_once x) (a_rates x) (a_estimate x) (a_cost x) (a_missing x) true (a_dispatched x).
Definition set_dispatched (x : Admission F) : Admission F :=
  mkAdmission (a_once x) (a_rates x) (a_estimate x) (a_cost x) (a_missing x) (a_moneyOwned x) true.

(** [&Admission{estimate: e, missing: true}]. *)
Definition new_admission (estimate : Z) : ST St nat := λ st,
  let a := new_loc (admissions st) in
  (a, with_admissions (<[a := mkAdmission false [] estimate 0 true false false]> (admissions st)) st).

Fixpoint finish_loop (rates : list F) (actual : option Z) : ST St unit :=
  match rates with
  | [] => mret tt
  | f :: rates => _ ← on_lim (ls_finish f actual); finish_loop rates actual
  end.

(** [None] is the nil admission. *)
Definition finishRates (a : option nat) (actual : option Z) : ST St unit :=
  match a with
  | None => mret tt
  | Some a => st ← st_get; finish_loop (a_rates (adm a st)) actual
  end.

(** [a.once.Do(body)]. *)
Definition once_do (a : nat) (body : ST St unit) : ST St unit :=
  st ← st_get;
  if a_once (adm a st) then mret tt else _ ← update_adm a set_once; body.

Definition Close (a : option nat) : ST St unit :=
  match a with None => mret tt | Some i => once_do i (finishRates a None) end.

Definition Cancel (a : option nat) : ST St unit :=
  match a with None => mret tt | Some i => once_do i (finishRates a (Some 0)) end.

Definition OwnLocalMoney (a : option nat) : ST St unit :=
  match a with None => mret tt | Some i => update_adm i set_moneyOwned end.

Definition MarkDispatched (a : option nat) : ST St unit :=
  match a with None => mret tt | Some i => update_adm i set_dispatched end.

Definition CancelUndispatched (a : option nat) : ST St unit :=
  match a with
  | None => mret tt
  | Some i => st ← st_get; if a_dispatched (adm i st) then mret tt else Cancel a
  end.

(** ** PreCheck *)

Abbreviation Body := (STE St GovDecision).

(** Go's [if b { return d }]. *)
Definition return_if (b : bool) (d : GovDecision) : Body unit := if b then early d else mret tt.

Definition reserve (a : nat) (key : string) (estimate rate : Z) : ST St bool :=
  '(fin, allowed) ← on_lim (ls_reserveRate key estimate rate rate);
  match fin, allowed with
  | Some f, true => _ ← update_adm a (add_rate f); mret true
  | _, _ => mret allowed
  end.

(** One window: the denial to return so far and when its window resets. *)
Definition check_gate (g : Governor) (b : BudgetGate) (prev : option (GovDecision * Time))
    : ST St (option (GovDecision * Time)) :=
  if 0 <? bg_limit b then
    dec ← on_bud (bs_check (bg_key b) 0 (bg_limit b) (bg_win b));
    if mustDenyBudget dec (bg_mode b) then
      resetsAt ← on_bud (bs_resetsAt (bg_key b) (bg_win b));
      mret (match prev with
            | Some (_, t) => if Before resetsAt t then Some (gate_denial g b dec resetsAt, resetsAt) else prev
            | None => Some (gate_denial g b dec resetsAt, resetsAt)
            end)
    else mret prev
  else mret prev.

Fixpoint check_gates (g : Governor) (bs : list BudgetGate) (prev : option (GovDecision * Time))
    : ST St (option (GovDecision * Time)) :=
  match bs with
  | [] => mret prev
  | b :: bs => prev ← check_gate g b prev; check_gates g bs prev
  end.

(** The windows of one scope: both must allow. *)
Definition money_gates (g : Governor) (bs : list BudgetGate) : Body unit :=
  d ← ste_lift (check_gates g bs None);
  match d with Some (d, _) => early d | None => mret tt end.

Definition rate_gate (key : string) (rate burst : Z) (d : GovDecision) : Body unit :=
  if 0 <? rate then
    ok ← ste_lift (on_lim (ls_allowRate key 1 rate burst));
    return_if (negb ok) d
  else mret tt.

Definition token_gate (a : nat) (key : string) (estimate rate : Z) (d : GovDecision) : Body unit :=
  if 0 <? rate then
    ok ← ste_lift (reserve a key estimate rate);
    return_if (negb ok) d
  else mret tt.

Definition quota_gate (s : Subject) (p : TeamPolicy) (estimate : Z) : Body unit :=
  if 0 <? tp_TokensPerDay p then
    dec ← ste_lift (on_lim (ls_checkQuota ("quota:" +:+ s_Team s) estimate (tp_TokensPerDay p) Day24));
    return_if (bool_decide (dec = Limiter.Block) && negb (bool_decide (tp_QuotaExceeded p = "warn")))%bool
      (deny 429 "token quota exceeded" DenyTeamQuotaExceeded
         (Some (denial GovScopeTeam GovLimitTokensPerDay (ts_Quota (tp_Sources p)))))
  else mret tt.

Definition lease_gate (g : Governor) (s : Subject) : Body unit :=
  match leaseGate g with
  | None => mret tt
  | Some f =>
      let '(blocked, reason) := f (s_Team s) in
      return_if blocked
        (deny 402 reason DenyTeamBudgetExceeded
           (Some (denial GovScopeTeam GovLimitBudget (source GovSourceLease))))
  end.

Definition team_checks (g : Governor) (s : Subject) (p : TeamPolicy) (estimate : Z) (a : nat) : Body unit :=
  _ ← rate_gate ("rate:" +:+ s_Team s) (tp_RatePerMin p) (Z.max (tp_RateBurst p) 1)
        (deny 429 "rate limit exceeded" DenyTeamRateLimited
           (Some (denial GovScopeTeam GovLimitRPM (ts_Rate (tp_Sources p)))));
  _ ← token_gate a ("tpm:" +:+ s_Team s) estimate (tp_TokensPerMinute p)
        (deny 429 "token rate limit exceeded" DenyTeamTokenRateLimited
           (Some (denial GovScopeTeam GovLimitTPM (ts_TokenRate (tp_Sources p)))));
  _ ← quota_gate s p estimate;
  money_gates g (team_gates g s p).

Definition key_checks (g : Governor) (s : Subject) (kp : KeyPolicy) (estimate : Z) (a : nat) : Body unit :=
  _ ← rate_gate ("rate:key:" +:+ s_KeyID s) (kp_RatePerMin kp) (kp_RatePerMin kp)
        (deny 429 "key rate limit exceeded" DenyKeyRateLimited
           (Some (denial GovScopeKey GovLimitRPM keySource)));
  _ ← token_gate a ("tpm:key:" +:+ s_KeyID s) estimate (kp_TokensPerMinute kp)
        (deny 429 "key token rate limit exceeded" DenyKeyTokenRateLimited
           (Some (denial GovScopeKey GovLimitTPM keySource)));
  money_gates g (key_gates g s kp).

Definition precheck_body (g : Governor) (s : Subject) (kp : KeyPolicy) (estimate : Z) (a : nat) : Body unit :=
  _ ← return_if (estimate <? 0) (deny 429 "invalid token estimate" DenyInvalidTokenEstimate None);
  _ ← return_if (HasSharedAuthority g) (allow (Some a));
  _ ← lease_gate g s;
  _ ← match policyOf g (s_Team s) with Some p => team_checks g s p estimate a | None => mret tt end;
  _ ← key_checks g s kp estimate a;
  match userPolicyOf g s with Some up => money_gates g (user_gates g s up) | None => mret tt end.

Definition decided (a : nat) (r : result GovDecision unit) : GovDecision :=
  match r with Ok _ => allow (Some a) | Err d => d end.

(** The deferred [Cancel] releases what a refused request reserved. *)
Definition PreCheck (g : Governor) (s : Subject) (kp : KeyPolicy) (estimate : Z) : ST St GovDecision :=
  a ← new_admission estimate;
  r ← (precheck_body g s kp estimate a : ST St (result GovDecision unit));
  let d := decided a r in
  _ ← (if d_Allowed d then mret tt else Cancel (Some a));
  mret d.

(** ** Settle *)

Definition no_policy : TeamPolicy :=
  {| tp_RatePerMin := 0; tp_RateBurst := 0; tp_TokensPerMinute := 0; tp_TokensPerDay := 0;
     tp_QuotaExceeded := ""; tp_BudgetMicrosPerMonth := 0; tp_BudgetExceeded := "";
     tp_BudgetMicrosPerDay := 0; tp_BudgetDayExceeded := ""; tp_AdminContact := "";
     tp_Sources := {| ts_Rate := source ""; ts_TokenRate := source ""; ts_Quota := source "";
                      ts_Budget := source ""; ts_BudgetDay := source "" |} |}.

Definition debit_window (scope id : string) (limit : Z) (w : Window) (cost : Z) : ST St unit :=
  if 0 <? limit then on_bud (bs_debit (Budget.Key scope id w) cost w) else mret tt.

Definition settle_quota (s : Subject) (p : TeamPolicy) (actualTokens : Z) : ST St unit :=
  if 0 <? tp_TokensPerDay p then
    _ ← on_lim (ls_debitQuota ("quota:" +:+ s_Team s) actualTokens Day24);
    used ← on_lim (ls_quotaUsed ("quota:" +:+ s_Team s) Day24);
    emit (SetQuotaUtilization (s_Team s) "day" (fdiv (of_int used) (of_int (tp_TokensPerDay p))))
  else mret tt.

(** The observed tokens; unknown quantities never refund the estimate. *)
Definition actual_tokens (u : Pricing.Usage) (estimate actualTokens : Z) : Z :=
  if Uncertain u then Z.max actualTokens estimate else actualTokens.

(** Whether the reservations were finalized. *)
Definition settle_rates (a : option nat) (u : Pricing.Usage) (actualTokens : Z) : ST St bool :=
  match a with
  | None => mret false
  | Some i =>
      st ← st_get;
      _ ← finishRates a (Some (actual_tokens u (a_estimate (adm i st)) actualTokens));
      mret true
  end.

Definition settle_team (g : Governor) (s : Subject) (p : TeamPolicy) (cost : Z) : ST St unit :=
  let mw := monthWindow g in
  let tbk := Budget.Key ScopeTeam (s_Team s) mw in
  _ ← (if 0 <? tp_BudgetMicrosPerMonth p then
         _ ← on_bud (bs_debit tbk cost mw);
         spent ← on_bud (bs_spent tbk mw);
         _ ← emit (SetBudgetUtilization (s_Team s)
                     (fdiv (of_int spent) (of_int (tp_BudgetMicrosPerMonth p))));
         if notifyBudget g then emit (NotifyBudget (s_Team s) spent (tp_BudgetMicrosPerMonth p)) else mret tt
       else mret tt);
  debit_window ScopeTeam (s_Team s) (tp_BudgetMicrosPerDay p) (dayWindow g) cost.

Definition settle_key (g : Governor) (s : Subject) (kp : KeyPolicy) (cost : Z) : ST St unit :=
  let mw := monthWindow g in
  let kbk := Budget.Key ScopeKey (s_KeyID s) mw in
  _ ← (if 0 <? kp_BudgetMicrosPerMonth kp then
         _ ← on_bud (bs_debit kbk cost mw);
         if notifyKeyBudget g then
           spent ← on_bud (bs_spent kbk mw);
           emit (NotifyKeyBudget (s_Team s) (s_KeyID s) spent (kp_BudgetMicrosPerMonth kp))
         else mret tt
       else mret tt);
  debit_window ScopeKey (s_KeyID s) (kp_BudgetMicrosPerDay kp) (dayWindow g) cost.

Definition settle_user (g : Governor) (s : Subject) (cost : Z) : ST St unit :=
  match userPolicyOf g s with
  | Some up =>
      _ ← debit_window ScopeUser (userBudgetID s) (up_BudgetMicrosPerMonth up) (monthWindow g) cost;
      debit_window ScopeUser (userBudgetID s) (up_BudgetMicrosPerDay up) (dayWindow g) cost
  | None => mret tt
  end.

Definition money_owned (a : option nat) (st : St) : bool :=
  match a with Some i => a_moneyOwned (adm i st) | None => false end.

(** The body, with the flag [ratesFinalized] its deferred fallback reads. *)
Definition settle_body (g : Governor) (s : Subject) (kp : KeyPolicy) (provider model : string)
    (u : Pricing.Usage) (table : option Pricing.Table) (a : option nat) : ST St (Z * bool * bool) :=
  match TotalTokens u with
  | Err _ =>
      _ ← (if HasSharedAuthority g then emit (IncPricingMiss provider model) else mret tt);
      mret (0, true, false)
  | Ok actualTokens =>
      if HasSharedAuthority g then
        match table with
        | None => _ ← emit (IncPricingMiss provider model); mret (0, true, false)
        | Some _ =>
            match CostUSDMicrosChecked table provider model u with
            | Err _ => _ ← emit (IncPricingMiss provider model); mret (0, true, false)
            | Ok cost =>
                _ ← emit (AddBudgetSpend (s_Team s) model "total" (micros_to_usd cost));
                mret (cost, false, false)
            end
        end
      else
        let p := default no_policy (policyOf g (s_Team s)) in
        _ ← settle_quota s p actualTokens;
        fin ← settle_rates a u actualTokens;
        let '(cost, missing) :=
          match table with None => (0, true) | Some _ => CostUSDMicros table provider model u end in
        st ← st_get;
        if money_owned a st then mret (cost, missing, fin)
        else
          _ ← settle_team g s p cost;
          _ ← settle_key g s kp cost;
          _ ← settle_user g s cost;
          _ ← emit (AddBudgetSpend (s_Team s) model "total" (micros_to_usd cost));
          _ ← (if (missing : bool) then emit (IncPricingMiss provider model) else mret tt);
          st ← st_get;
          _ ← emit (SetBudgetStoreRejections (bs_rejections (bud st)));
          mret (cost, missing, fin)
  end.

Definition settle (g : Governor) (s : Subject) (kp : KeyPolicy) (provider model : string)
    (u : Pricing.Usage) (table : option Pricing.Table) (a : option nat) : ST St (Z * bool) :=
  '(cost, missing, ratesFinalized) ← settle_body g s kp provider model u table a;
  _ ← (if (ratesFinalized : bool) then mret tt else finishRates a None);
  mret (cost, missing).

Definition Settle (g : Governor) (s : Subject) (kp : KeyPolicy) (provider model : string)
    (u : Pricing.Usage) (table : option Pricing.Table) (a : option nat) : ST St (Z * bool) :=
  match a with
  | None => settle g s kp provider model u table None
  | Some i =>
      _ ← once_do i ('(cost, missing) ← settle g s kp provider model u table a;
                     update_adm i (set_result cost missing));
      st ← st_get;
      if a_moneyOwned (adm i st) then
        mret (match table with None => (0, true) | Some _ => CostUSDMicros table provider model u end)
      else mret (a_cost (adm i st), a_missing (adm i st))
  end.

(** ** Usage reports *)

Record BudgetUsage := {
  bu_Limit : Z; bu_Spent : Z; bu_Remaining : Z; bu_Window : string; bu_ResetsAt : Time;
  bu_Reserved : Z; bu_Uncertain : bool
}.
Record QuotaUsage := { qu_Limit : Z; qu_Used : Z; qu_Window : string }.
Record UsageStatus := {
  us_EnforcementMode : string; us_Team : string;
  us_TeamBudget : option BudgetUsage; us_TeamQuota : option QuotaUsage;
  us_KeyBudget : option BudgetUsage; us_KeyQuota : option QuotaUsage;
  us_TeamBudgetDay : option BudgetUsage; us_KeyBudgetDay : option BudgetUsage;
  us_UserBudget : option BudgetUsage; us_UserBudgetDay : option BudgetUsage
}.

(** One counter's report, if it is limited. *)
Definition budget_usage (scope id : string) (limit : Z) (w : Window) (name : string) : ST St (option BudgetUsage) :=
  if 0 <? limit then
    spent ← on_bud (bs_spent (Budget.Key scope id w) w);
    resetsAt ← on_bud (bs_resetsAt (Budget.Key scope id w) w);
    mret (Some {| bu_Limit := limit; bu_Spent := spent; bu_Remaining := Z.max 0 (limit - spent);
                  bu_Window := name; bu_ResetsAt := resetsAt; bu_Reserved := 0; bu_Uncertain := false |})
  else mret None.

Definition quota_usage (limit : Z) (window : string) (read : ST L Z) : ST St (option QuotaUsage) :=
  if 0 <? limit then
    used ← on_lim read;
    mret (Some {| qu_Limit := limit; qu_Used := used; qu_Window := window |})
  else mret None.

(** Subtract what is reserved locally; an uncertain account has nothing left. *)
Definition with_reserved (scope id : string) (w : Window) (u : option BudgetUsage) : ST St (option BudgetUsage) :=
  match u with
  | None => mret None
  | Some u =>
      '(reserved, uncertain) ← localReserved (Budget.Key scope id w) w;
      let remaining := Z.max 0 (bu_Remaining u - Z.min reserved (bu_Remaining u)) in
      mret (Some {| bu_Limit := bu_Limit u; bu_Spent := bu_Spent u;
                    bu_Remaining := if (uncertain : bool) then 0 else remaining; bu_Window := bu_Window u;
                    bu_ResetsAt := bu_ResetsAt u; bu_Reserved := reserved; bu_Uncertain := uncertain |})
  end.

Definition UsageOf (g : Governor) (s : Subject) (kp : KeyPolicy) : ST St UsageStatus :=
  if HasSharedAuthority g then
    mret {| us_EnforcementMode := "shared"; us_Team := s_Team s; us_TeamBudget := None;
            us_TeamQuota := None; us_KeyBudget := None; us_KeyQuota := None; us_TeamBudgetDay := None;
            us_KeyBudgetDay := None; us_UserBudget := None; us_UserBudgetDay := None |}
  else
    let mw := monthWindow g in
    let dw := dayWindow g in
    let p := default no_policy (policyOf g (s_Team s)) in
    let '(um, ud) := match userPolicyOf g s with
                     | Some up => (up_BudgetMicrosPerMonth up, up_BudgetMicrosPerDay up)
                     | None => (0, 0)
                     end in
    let uid := userBudgetID s in
    tb ← budget_usage ScopeTeam (s_Team s) (tp_BudgetMicrosPerMonth p) mw "calendar-month";
    tbd ← budget_usage ScopeTeam (s_Team s) (tp_BudgetMicrosPerDay p) dw "calendar-day";
    tq ← quota_usage (tp_TokensPerDay p) "24h" (ls_quotaUsed ("quota:" +:+ s_Team s) Day24);
    kb ← budget_usage ScopeKey (s_KeyID s) (kp_BudgetMicrosPerMonth kp) mw "calendar-month";
    kbd ← budget_usage ScopeKey (s_KeyID s) (kp_BudgetMicrosPerDay kp) dw "calendar-day";
    ub ← budget_usage ScopeUser uid um mw "calendar-month";
    ubd ← budget_usage ScopeUser uid ud dw "calendar-day";
    kq ← quota_usage (kp_TokensPerMinute kp) "1m"
           (ls_rateUsed ("tpm:key:" +:+ s_KeyID s) (kp_TokensPerMinute kp) (kp_TokensPerMinute kp));
    tb ← with_reserved ScopeTeam (s_Team s) mw tb;
    tbd ← with_reserved ScopeTeam (s_Team s) dw tbd;
    kb ← with_reserved ScopeKey (s_KeyID s) mw kb;
    kbd ← with_reserved ScopeKey (s_KeyID s) dw kbd;
    ub ← with_reserved ScopeUser uid mw ub;
    ubd ← with_reserved ScopeUser uid dw ubd;
    mret {| us_EnforcementMode := ""; us_Team := s_Team s; us_TeamBudget := tb; us_TeamQuota := tq;
            us_KeyBudget := kb; us_KeyQuota := kq; us_TeamBudgetDay := tbd; us_KeyBudgetDay := kbd;
            us_UserBudget := ub; us_UserBudgetDay := ubd |}.
End Governance.

(** ** The pricing guard *)

Record PricedTarget := { pt_Provider : string; pt_Upstream : string }.

Definition PricingVersionOf (table : option Pricing.Table) : string :=
  match table with None => "" | Some t => Pricing.Version t end.

Definition no_rate (t : PricedTarget) : GovDecision :=
  deny 402 ("no pricing rate for " +:+ pt_Provider t +:+ "/" +:+ pt_Upstream t)
    DenyPricingMissing (Some PricingDenial).

Fixpoint guard_loop (table : option Pricing.Table) (targets : list PricedTarget) : GovDecision :=
  match targets with
  | [] => allow None
  | t :: targets =>
      if HasRate table (pt_Provider t) (pt_Upstream t) then guard_loop table targets else no_rate t
  end.

Definition PricingGuard (table : option Pricing.Table) (targets : list PricedTarget) : GovDecision :=
  match table with
  | None => allow None
  | Some t => match onMissing t with OnMissingBlock => guard_loop table targets | OnMissingAllow => allow None end
  end.

(** ** Resolved limits (fromconfig.go) *)

Record Limits := {
  l_RatePerMin : Z; l_TokensPerMinute : Z; l_TokensPerDay : Z; l_QuotaExceeded : string;
  l_BudgetMicrosPerMonth : Z; l_BudgetExceeded : string; l_BudgetMicrosPerDay : Z;
  l_BudgetDayExceeded : string; l_Sources : TeamSources
}.

Definition PolicyFromLimits (l : Limits) : TeamPolicy :=
  {| tp_RatePerMin := l_RatePerMin l;
     tp_RateBurst := if l_RatePerMin l <=? 0 then 1 else l_RatePerMin l;
     tp_TokensPerMinute := l_TokensPerMinute l; tp_TokensPerDay := l_TokensPerDay l;
     tp_QuotaExceeded := l_QuotaExceeded l; tp_BudgetMicrosPerMonth := l_BudgetMicrosPerMonth l;
     tp_BudgetExceeded := l_BudgetExceeded l; tp_BudgetMicrosPerDay := l_BudgetMicrosPerDay l;
     tp_BudgetDayExceeded := l_BudgetDayExceeded l; tp_AdminContact := "";
     tp_Sources := l_Sources l |}.

(** ** What an operation leaves alone *)

(** Take an operation apart down to its primitive steps. *)
Ltac pres_step :=
  match goal with
  | |- pres _ (mret _) => apply pres_ret
  | |- pres _ (st_get ≫= _) => apply pres_get; intros ?
  | |- pres _ (_ ≫= _) => apply pres_bind; [|intros ?]
  | |- prese _ (mret _) => apply prese_ret
  | |- prese _ (early _) => apply prese_early
  | |- prese _ (ste_lift _) => apply prese_lift
  | |- prese _ (_ ≫= _) => apply prese_bind; [|intros ?]
  | |- pres _ (match ?x with _ => _ end) => destruct x
  | |- prese _ (match ?x with _ => _ end) => destruct x
  | |- pres _ (let '(_, _) := ?x in _) => destruct x
  end.
Ltac pres_auto := repeat (pres_step || (progress cbv beta zeta)); eauto with pres.

Section Preserve.
Context {L F B : Type} `{!LimiterStore L F} `{!BudgetStore B}.
Abbreviation St := (State L F B).
Implicit Types P : St → Prop.

(** What the primitive steps must preserve for a whole operation to. *)
Record robust P : Prop := {
  rb_bud {A} (m : ST B A) st : P st → P (with_bud (m (bud st)).2 st);
  rb_event st e : P st → P (emit e st).2;
  rb_money st m c : P st → P (with_money m c st);
  rb_permits st ps : P st → P (with_permits ps st);
  rb_now st : P st → P (time_Now st).2
}.

Lemma pres_bud {A} P (m : ST B A) : robust P → pres P (on_bud m).
Proof. intros R st Hst. rewrite wp_on_bud. unfold wp. by apply rb_bud. Qed.

Lemma pres_emit P e : robust P → pres P (emit e).
Proof. intros R st Hst. exact (rb_event P R st e Hst). Qed.

Lemma pres_time P : robust P → pres P time_Now.
Proof. intros R st Hst. exact (rb_now P R st Hst). Qed.
End Preserve.
#[export] Hint Resolve pres_bud pres_emit pres_time : pres.

Section Gates.
Context {L F B : Type} `{!LimiterStore L F} `{!BudgetStore B}.
Abbreviation St := (State L F B).

Lemma pres_check_gate (P : St → Prop) g b prev : robust P → pres P (check_gate g b prev).
Proof. intros R. unfold check_gate. pres_auto. Qed.

Lemma pres_check_gates (P : St → Prop) g bs prev : robust P → pres P (check_gates g bs prev).
Proof.
  intros R. revert prev. induction bs as [|b bs IH]; intros prev; cbn [check_gates]; pres_auto.
  by apply pres_check_gate.
Qed.

Lemma prese_money (P : St → Prop) g bs : robust P → prese P (money_gates g bs).
Proof. intros R. unfold money_gates. pres_auto. by apply pres_check_gates. Qed.

Lemma prese_lease (P : St → Prop) g s : prese P (lease_gate (L := L) (F := F) (B := B) g s).
Proof. unfold lease_gate, return_if. pres_auto. Qed.

(** [PreCheck] touches the limiter through these three only. *)
Lemma prese_body (P : St → Prop) g s kp e a :
  robust P →
  (∀ k r b, 0 < r → pres P (on_lim (ls_allowRate k 1 r b))) →
  (∀ k r, 0 < r → pres P (reserve a k e r)) →
  (∀ k l w, pres P (on_lim (ls_checkQuota k e l w))) →
  prese P (precheck_body g s kp e a).
Proof.
  intros R H1 H2 H3.
  assert (∀ k r b d, prese P (rate_gate k r b d)) as Hr.
  { intros k r b d. unfold rate_gate, return_if. destruct (0 <? r) eqn:E; bsplit; pres_auto. }
  assert (∀ k r d, prese P (token_gate a k e r d)) as Ht.
  { intros k r d. unfold token_gate, return_if. destruct (0 <? r) eqn:E; bsplit; pres_auto. }
  assert (∀ p, prese P (quota_gate s p e)) as Hq.
  { intros p. unfold quota_gate, return_if. pres_auto. }
  unfold precheck_body, team_checks, key_checks, return_if. pres_auto;
    first [apply prese_lease|by apply prese_money|auto].
Qed.

Lemma pres_debit_window (P : St → Prop) sc id l w c : robust P → pres P (debit_window sc id l w c).
Proof. intros R. unfold debit_window. pres_auto. Qed.

Lemma pres_settle_team (P : St → Prop) g s p c : robust P → pres P (settle_team g s p c).
Proof. intros R. unfold settle_team. pose proof (λ sc id l w c, pres_debit_window P sc id l w c R). pres_auto. Qed.

Lemma pres_settle_key (P : St → Prop) g s kp c : robust P → pres P (settle_key g s kp c).
Proof. intros R. unfold settle_key. pose proof (λ sc id l w c, pres_debit_window P sc id l w c R). pres_auto. Qed.

Lemma pres_settle_user (P : St → Prop) g s c : robust P → pres P (settle_user g s c).
Proof. intros R. unfold settle_user. pose proof (λ sc id l w c, pres_debit_window P sc id l w c R). pres_auto. Qed.

(** Everything [settle] does after the reservations. *)
Definition settle_money (g : Governor) (s : Subject) (kp : KeyPolicy) (cost : Z) : ST St unit :=
  _ ← settle_team g s (default no_policy (policyOf g (s_Team s))) cost;
  _ ← settle_key g s kp cost;
  settle_user g s cost.

Lemma pres_settle_money (P : St → Prop) g s kp c : robust P → pres P (settle_money g s kp c).
Proof.
  intros R. unfold settle_money. pres_auto;
    first [by apply pres_settle_team|by apply pres_settle_key|by apply pres_settle_user].
Qed.
End Gates.

(** ** Every token reservation has exactly one owner *)

Section Reservations.
Context {L F B : Type} `{!LimiterStore L F} `{!LimiterLaws L F} `{!BudgetStore B}.
Context (range : gmap string nat → list (string * nat)).
Abbreviation St := (State L F B).
Implicit Types (st : St) (x y : Admission F).

(** An unsettled admission holds [f]. *)
Definition holder st (i : nat) (f : F) : Prop :=
  ∃ x, admissions st !! i = Some x ∧ a_once x = false ∧ f ∈ a_rates x.

(** The unfinished reservations are those of the unsettled admissions, one each. *)
Record rates_inv st : Prop := {
  ri_lim : ls_inv (lim st);
  ri_open f : ls_open (lim st) f ↔ ∃ i, holder st i f;
  ri_uniq f i j : holder st i f → holder st j f → i = j
}.

(** What changes neither the limiter nor the admissions. *)
Lemma rates_ext st st' :
  lim st' = lim st → admissions st' = admissions st → rates_inv st → rates_inv st'.
Proof. intros E1 E2 [H1 H2 H3]. unfold holder in *. split; unfold holder; by rewrite ?E1, ?E2. Qed.

(** [a] is allocated and unsettled, the other admissions are [m0]. *)
Definition running (a : nat) (m0 : gmap nat (Admission F)) st : Prop :=
  rates_inv st ∧ delete a (admissions st) = m0 ∧ ∃ x, admissions st !! a = Some x ∧ a_once x = false.

Lemma running_robust a m0 : robust (running a m0).
Proof.
  split; unfold running; intros;
  match goal with H : _ ∧ _ |- _ => destruct H as (J & Hm & Hx) end;
  (split; [by eapply rates_ext; [..|exact J]|done]).
Qed.

Lemma rates_robust : robust rates_inv.
Proof. split; intros; (eapply rates_ext; [..|eassumption]; done). Qed.

(** A limiter operation that opens and closes nothing. *)
Lemma pres_lim_running {A} (m : ST L A) a m0 :
  (∀ s, ls_inv s → wp m (λ _ s', ls_inv s' ∧ ∀ f, ls_open s' f ↔ ls_open s f) s) →
  pres (running a m0) (on_lim m).
Proof.
  intros Hm st [[H1 H2 H3] Hx]. rewrite wp_on_lim. eapply wp_mono; [by apply Hm|].
  intros r l [Hl Ho]. split; [|done]. split; [done| |done]. intros f. simpl. by rewrite Ho, H2.
Qed.

Lemma pres_lim_rates {A} (m : ST L A) :
  (∀ s, ls_inv s → wp m (λ _ s', ls_inv s' ∧ ∀ f, ls_open s' f ↔ ls_open s f) s) →
  pres rates_inv (on_lim m).
Proof.
  intros Hm st [H1 H2 H3]. rewrite wp_on_lim. eapply wp_mono; [by apply Hm|].
  intros r l [Hl Ho]. split; [done| |done]. intros f. simpl. by rewrite Ho, H2.
Qed.

(** A new reservation is recorded in its admission. *)
Lemma pres_reserve a m0 k e r : 0 < r → pres (running a m0) (reserve a k e r).
Proof.
  intros Hr st ([H1 H2 H3] & Hm0 & x & Hx & Ho). unfold reserve. rewrite wp_bind, wp_on_lim.
  eapply wp_mono; [by apply reserve_opens|]. intros [fo ok] l [Hl Hop]. cbn [fst snd] in Hop.
  destruct ok.
  2: { destruct fo; rewrite wp_ret; (split; [|split; [done|by exists x]]); (split; [done| |done]);
       intros f0; simpl; by rewrite Hop, H2. }
  destruct Hop as (f & -> & Hnew & Hop). rewrite wp_bind. unfold update_adm, st_modify, wp at 1.
  cbn [fst snd]. rewrite wp_ret.
  assert (∀ i f', holder (with_admissions (<[a := add_rate f x]> (admissions st)) (with_lim l st)) i f'
                 ↔ holder st i f' ∨ i = a ∧ f' = f) as Hh.
  { intros i f'. unfold holder. simpl. split.
    - intros (y & [[<- <-]|[Hne Hy]]%lookup_insert_Some & Hyo & Hf); [|left; eauto].
      simpl in Hf. apply elem_of_app in Hf as [Hf|Hf]; [left; by exists x|].
      apply list_elem_of_singleton in Hf. by right.
    - intros [(y & Hy & Hyo & Hf)|[-> ->]].
      + destruct (decide (i = a)) as [->|Hne].
        * simplify_eq. exists (add_rate f x). rewrite lookup_insert_eq. split_and!; [done|done|].
          simpl. apply elem_of_app. by left.
        * exists y. by rewrite lookup_insert_ne.
      + exists (add_rate f x). rewrite lookup_insert_eq. split_and!; [done|done|].
        simpl. apply elem_of_app. right. by apply list_elem_of_singleton. }
  assert (adm a (with_lim l st) = x) as -> by (unfold adm; simpl; by rewrite Hx).
  split.
  - split; [done| |].
    + intros f'. setoid_rewrite Hh. simpl. rewrite Hop, H2. split.
      * intros [[i Hi]| ->]; [exists i; by left|exists a; by right].
      * intros [i [Hi|[_ ->]]]; [left; by exists i|by right].
    + intros f' i j [Hi|[-> ->]]%Hh [Hj|[-> Hf]]%Hh; try done.
      * by apply (H3 f').
      * subst. destruct Hnew. apply H2. by exists i.
      * destruct Hnew. apply H2. by exists j.
  - split; [simpl; by rewrite delete_insert_eq|]. exists (add_rate f x). simpl. by rewrite lookup_insert_eq.
Qed.

(** Finishing a list of reservations closes exactly those. *)
Lemma finish_loop_spec rs act st :
  ls_inv (lim st) →
  wp (finish_loop rs act) (λ _ st', ∃ l, st' = with_lim l st ∧ ls_inv l ∧
    ∀ f, ls_open l f ↔ ls_open (lim st) f ∧ f ∉ rs) st.
Proof.
  revert st. induction rs as [|f rs IH]; intros st Hi; cbn [finish_loop].
  { rewrite wp_ret. exists (lim st). split; [by destruct st|]. split; [done|].
    intros f. rewrite elem_of_nil. naive_solver. }
  rewrite wp_bind, wp_on_lim. eapply wp_mono; [by apply finish_closes|]. intros ? l [Hl Ho]. cbv beta.
  eapply wp_mono; [by apply IH|]. intros ? st' (l' & -> & Hl' & Ho'). exists l'.
  split; [done|]. split; [done|]. intros f'. rewrite Ho'. simpl. rewrite Ho, elem_of_cons. naive_solver.
Qed.

(** Settling [i]: its reservations end with it. *)
Lemma settled_inv i x st l :
  rates_inv st → admissions st !! i = Some x → a_once x = false → ls_inv l →
  (∀ f, ls_open l f ↔ ls_open (lim st) f ∧ f ∉ a_rates x) →
  rates_inv (with_lim l (with_admissions (<[i := set_once x]> (admissions st)) st)).
Proof.
  intros [H1 H2 H3] Hx Ho Hl Hop. set (st' := with_lim _ _).
  assert (∀ j f, holder st' j f ↔ holder st j f ∧ j ≠ i) as Hh.
  { intros j f. unfold holder, st'. simpl. split.
    - intros (y & [[<- <-]|[Hne Hy]]%lookup_insert_Some & Hyo & Hf); [done|]. split; [eauto|done].
    - intros [(y & Hy & Hyo & Hf) Hne]. exists y. by rewrite lookup_insert_ne. }
  split; [done| |].
  - intros f. simpl. setoid_rewrite Hh. rewrite Hop, H2. split.
    + intros [[j Hj] Hn]. exists j. split; [done|]. intros ->. destruct Hj as (y & Hy & _ & Hf).
      simplify_eq. done.
    + intros (j & Hj & Hne). split; [by exists j|]. intros Hf. apply Hne, (H3 f); [done|]. by exists x.
  - intros f j k [Hj _]%Hh [Hk _]%Hh. by apply (H3 f).
Qed.

Lemma adm_lookup i x st : admissions st !! i = Some x → adm i st = x.
Proof. unfold adm. by intros ->. Qed.

(** An unallocated handle is settled. *)
Lemma adm_open i st : a_once (adm i st) = false → admissions st !! i = Some (adm i st).
Proof. unfold adm. by destruct (admissions st !! i). Qed.

(** Close and Cancel: settle, giving back the whole estimate or keeping it. *)
Lemma once_finish_inv i act :
  pres rates_inv (once_do (L := L) (F := F) (B := B) i (finishRates (Some i) act)).
Proof.
  intros st J. unfold once_do. rewrite wp_get. destruct (a_once (adm i st)) eqn:Eo; [by rewrite wp_ret|].
  pose proof (adm_open i st Eo) as Hx. unfold update_adm. rewrite wp_modify. cbn [finishRates].
  rewrite wp_get. set (st1 := with_admissions _ _).
  assert (adm i st1 = set_once (adm i st)) as E1 by (apply adm_lookup; apply lookup_insert_eq).
  rewrite E1. eapply wp_mono; [apply finish_loop_spec; apply (ri_lim _ J)|].
  intros ? st' (l & -> & Hl & Ho). by apply settled_inv.
Qed.

Lemma Cancel_inv a : pres rates_inv (Cancel (L := L) (F := F) (B := B) a).
Proof. destruct a as [i|]; [apply (once_finish_inv i (Some 0))|apply pres_ret]. Qed.

Lemma Close_inv a : pres rates_inv (Close (L := L) (F := F) (B := B) a).
Proof. destruct a as [i|]; [apply (once_finish_inv i None)|apply pres_ret]. Qed.

(** Rewriting a field that is neither the once flag nor the rates. *)
Lemma update_inv i f :
  (∀ x : Admission F, a_once (f x) = a_once x ∧ a_rates (f x) = a_rates x) →
  pres rates_inv (update_adm (L := L) (B := B) i f).
Proof.
  intros Hf st [H1 H2 H3]. unfold update_adm, st_modify, wp. cbn [fst snd]. set (st' := with_admissions _ _).
  assert (∀ j g, holder st' j g ↔ holder st j g) as Hh.
  { intros j g. unfold holder, st'. simpl. split.
    - intros (y & [[<- <-]|[Hne Hy]]%lookup_insert_Some & Hyo & Hg); [|eauto].
      destruct (Hf (adm i st)) as [E1 E2]. rewrite E1 in Hyo. rewrite E2 in Hg.
      exists (adm i st). split; [by apply adm_open|done].
    - intros (y & Hy & Hyo & Hg). destruct (decide (i = j)) as [->|Hne].
      + exists (f (adm j st)). rewrite lookup_insert_eq, (adm_lookup _ _ _ Hy).
        destruct (Hf y) as [E1 E2]. by rewrite E1, E2.
      + exists y. by rewrite lookup_insert_ne. }
  split; [done| |].
  - intros g. setoid_rewrite Hh. apply H2.
  - intros g j k Hj%Hh Hk%Hh. by apply (H3 g).
Qed.

Lemma body_running g s kp e a m0 : prese (running a m0) (precheck_body g s kp e a).
Proof.
  apply prese_body; [apply running_robust| | |].
  - intros k r b _. apply pres_lim_running. intros. by apply allowRate_keeps.
  - intros k r Hr. by apply pres_reserve.
  - intros k l w. apply pres_lim_running. intros. by apply checkQuota_keeps.
Qed.

Lemma new_admission_spec e st :
  rates_inv st → wp (new_admission e) (λ a st', running a (admissions st) st' ∧ admissions st !! a = None) st.
Proof.
  intros [H1 H2 H3]. unfold new_admission, wp. cbn [fst snd]. pose proof (new_loc_None (admissions st)) as Hn.
  set (a := new_loc (admissions st)) in *. set (st' := with_admissions _ _).
  assert (∀ i f, holder st' i f ↔ holder st i f) as Hh.
  { intros i f. unfold holder, st'. simpl. split.
    - intros (y & [[<- <-]|[Hne Hy]]%lookup_insert_Some & Hyo & Hf); [by apply elem_of_nil in Hf|eauto].
    - intros (y & Hy & Hyo & Hf). exists y. by rewrite lookup_insert_ne by congruence. }
  split; [|done]. split; [split; [done| |]|split].
  - intros f. setoid_rewrite Hh. apply H2.
  - intros f i j Hi%Hh Hj%Hh. by apply (H3 f).
  - simpl. by rewrite delete_insert_id.
  - eexists. simpl. by rewrite lookup_insert_eq.
Qed.

(** The reservations of everyone but [a]. *)
Lemma holder_delete a st st' i f :
  delete a (admissions st') = admissions st → i ≠ a → holder st' i f ↔ holder st i f.
Proof.
  intros Hd Hne. unfold holder. rewrite <- Hd. by rewrite lookup_delete_ne.
Qed.

(** Settling an admission: nobody else's changes, and it is settled. *)
Lemma once_finish_settles i act m0 :
  ∀ st, running i m0 st →
  wp (once_do (L := L) (F := F) (B := B) i (finishRates (Some i) act))
    (λ _ st', rates_inv st' ∧ delete i (admissions st') = m0 ∧ ∀ f, ¬ holder st' i f) st.
Proof.
  intros st (J & Hm & x & Hx & Ho). pose proof (once_finish_inv i act st J) as Hinv.
  eapply wp_mono; [apply (wp_and _ _ (λ _ st', delete i (admissions st') = m0 ∧ ∀ f, ¬ holder st' i f) _ Hinv)|].
  2: { by intros ? st' [? [? ?]]. }
  unfold once_do. rewrite wp_get, (adm_lookup _ _ _ Hx), Ho. unfold update_adm. rewrite wp_modify.
  cbn [finishRates]. rewrite wp_get. eapply wp_mono; [apply finish_loop_spec; apply (ri_lim _ J)|].
  intros ? st' (l & -> & _ & _). simpl. rewrite delete_insert_eq. split; [done|].
  intros f (y & Hy & Hyo & _). simpl in Hy. rewrite lookup_insert_eq in Hy. injection Hy as <-. done.
Qed.

(** ** Settlement *)

(** [i]'s once guard is taken but its reservations are not yet finished. *)
Definition owes (i : nat) st : Prop :=
  ∃ x, admissions st !! i = Some (set_once x) ∧ a_once x = false ∧
    rates_inv (with_admissions (<[i := x]> (admissions st)) st).

Lemma owes_robust i : robust (owes i).
Proof.
  split; unfold owes; intros; match goal with H : ∃ _, _ |- _ => destruct H as (x & Hx & Ho & J) end;
  (exists x; split; [done|split; [done|]]; by eapply rates_ext; [..|exact J]).
Qed.

Lemma pres_lim_owes {A} (m : ST L A) i :
  (∀ s, ls_inv s → wp m (λ _ s', ls_inv s' ∧ ∀ f, ls_open s' f ↔ ls_open s f) s) →
  pres (owes i) (on_lim m).
Proof.
  intros Hm st (x & Hx & Ho & J). pose proof (pres_lim_rates m Hm _ J) as Hw.
  rewrite wp_on_lim in *. eapply wp_mono; [exact Hw|]. intros r l J'. by exists x.
Qed.

Lemma settle_quota_pres (P : St → Prop) s p n :
  robust P →
  (∀ A (m : ST L A), (∀ s, ls_inv s → wp m (λ _ s', ls_inv s' ∧ ∀ f, ls_open s' f ↔ ls_open s f) s) →
     pres P (on_lim m)) →
  pres P (settle_quota s p n).
Proof.
  intros R Hl. unfold settle_quota. pres_auto; apply Hl; intros s' Hs';
    [by apply debitQuota_keeps|by apply quotaUsed_keeps].
Qed.

(** Paying the debt. *)
Lemma finish_owes i act st :
  owes i st → wp (finishRates (Some i) act) (λ _ st', rates_inv st') st.
Proof.
  intros (x & Hx & Ho & J). cbn [finishRates]. rewrite wp_get, (adm_lookup _ _ _ Hx).
  eapply wp_mono; [apply finish_loop_spec; apply (ri_lim _ J)|].
  intros ? st' (l & -> & Hl & Hop).
  pose proof (settled_inv i x _ l J (lookup_insert_eq _ _ _) Ho Hl Hop) as Hs.
  eapply rates_ext; [..|exact Hs]; [done|]. simpl.
  rewrite insert_insert_eq. by rewrite insert_id.
Qed.

Lemma settle_body_owes g s kp pr mo u t i st :
  owes i st →
  wp (settle_body g s kp pr mo u t (Some i))
    (λ r st', if r.2 then rates_inv st' else owes i st') st.
Proof.
  intros Hst. pose proof (owes_robust i) as R. unfold settle_body.
  assert (∀ (b : bool) ev, pres (owes i) (if b then emit ev else mret tt)) as Hif by (intros; pres_auto).
  destruct (TotalTokens u) as [n|].
  2: { rewrite wp_bind. eapply wp_mono; [by apply Hif|]. intros ? st1 H1. by rewrite wp_ret. }
  destruct (HasSharedAuthority g).
  { repeat case_match; rewrite wp_bind; (eapply wp_mono; [by apply (pres_emit (owes i))|]); intros ? st1 H1;
      by rewrite wp_ret. }
  cbv zeta. rewrite wp_bind.
  eapply wp_mono; [apply settle_quota_pres; [exact R|intros A m Hm; by apply pres_lim_owes|exact Hst]|].
  intros ? st1 H1. cbv beta in H1. rewrite wp_bind. unfold settle_rates at 1. rewrite wp_get, wp_bind.
  eapply wp_mono; [by apply finish_owes|]. intros ? st2 J2. cbv beta in J2. rewrite wp_ret.
  match goal with |- context [let '(cost, missing) := ?x in _] => destruct x as [cost missing] end.
  rewrite wp_get. destruct (money_owned _ _); [by rewrite wp_ret|].
  pose proof rates_robust as R2.
  match goal with |- wp ?m ?Q ?s => enough (wp m (λ r st', rates_inv st' ∧ r.2 = true) s) as Hw end.
  { eapply wp_mono; [exact Hw|]. intros [[? ?] ?] st' [J' E]. simpl in E. by rewrite E. }
  apply wp_and.
  - match goal with |- wp ?m _ _ => enough (pres rates_inv m) as Hp by by apply Hp end.
    pose proof (pres_settle_money (L := L) (F := F) rates_inv g s kp cost R2) as Hm. unfold settle_money in Hm.
    unfold settle_team, settle_key, settle_user.
    pose proof (λ sc id l w c, pres_debit_window (L := L) (F := F) rates_inv sc id l w c R2). pres_auto.
  - unfold wp. unfold mbind, st_mbind. repeat case_match; done.
Qed.

(** Settlement by an admission that is not there pays nothing. *)
Lemma settle_None_inv g s kp pr mo u t : pres rates_inv (settle (L := L) (F := F) g s kp pr mo u t None).
Proof.
  pose proof rates_robust as R.
  pose proof (pres_settle_money (L := L) (F := F) rates_inv g s kp) as Hm. unfold settle_money in Hm.
  assert (∀ p n, pres rates_inv (settle_quota (L := L) (F := F) s p n)) as Hq.
  { intros. apply settle_quota_pres; [exact R|]. intros. by apply pres_lim_rates. }
  unfold settle, settle_body, settle_rates, finishRates, money_owned.
  pose proof (λ c, pres_settle_team rates_inv g s (default no_policy (policyOf g (s_Team s))) c R).
  pose proof (λ c, pres_settle_key rates_inv g s kp c R). pose proof (λ c, pres_settle_user rates_inv g s c R).
  pres_auto.
Qed.

Lemma once_owes i st :
  rates_inv st → a_once (adm i st) = false →
  owes i (with_admissions (<[i := set_once (adm i st)]> (admissions st)) st).
Proof.
  intros J Ho. pose proof (adm_open i st Ho) as Hx. exists (adm i st).
  split; [apply lookup_insert_eq|]. split; [done|]. eapply rates_ext; [..|exact J]; [done|].
  simpl. by rewrite insert_insert_eq, insert_id.
Qed.

Lemma settle_inv g s kp pr mo u t i st :
  owes i st → wp (settle g s kp pr mo u t (Some i)) (λ _, rates_inv) st.
Proof.
  intros Hst. unfold settle. rewrite wp_bind. eapply wp_mono; [by apply settle_body_owes|].
  intros [[c m] f] st1 H1. cbn [snd] in H1. rewrite wp_bind. destruct f.
  - by rewrite !wp_ret.
  - eapply wp_mono; [by apply finish_owes|]. intros ? st2 H2. by rewrite wp_ret.
Qed.

Lemma Settle_inv g s kp pr mo u t a : pres rates_inv (Settle (L := L) (F := F) g s kp pr mo u t a).
Proof.
  destruct a as [i|]; [|apply settle_None_inv]. intros st J. unfold Settle. rewrite wp_bind.
  eapply (wp_mono _ (λ _, rates_inv)).
  - unfold once_do. rewrite wp_get. destruct (a_once (adm i st)) eqn:Eo; [by rewrite wp_ret|].
    unfold update_adm. rewrite wp_modify, wp_bind.
    eapply wp_mono; [apply settle_inv; by apply once_owes|]. intros [c m] st1 H1. cbv beta in H1.
    by apply update_inv.
  - intros ? st1 H1. rewrite wp_get. case_match; by rewrite wp_ret.
Qed.

Lemma CancelUndispatched_inv a : pres rates_inv (CancelUndispatched (L := L) (F := F) (B := B) a).
Proof. destruct a as [i|]; unfold CancelUndispatched; pres_auto. apply Cancel_inv. Qed.

Lemma UsageOf_inv g s kp : pres rates_inv (UsageOf (L := L) (F := F) g s kp).
Proof.
  pose proof rates_robust as R. unfold UsageOf, budget_usage, quota_usage, with_reserved, localReserved.
  pres_auto; apply pres_lim_rates; intros; by first [apply quotaUsed_keeps|apply rateUsed_keeps].
Qed.
End Reservations.
