(* ===== verification/Enforcement.v ===== *)
(** * What the governance pipeline guarantees

    Theorems about whole requests over the definitions of [Governance] and
    [LocalMoney], proved against the store interfaces: who owns the open token
    reservations in every reachable state, what an admitted request implies about
    the money counters, what settlement does to them, and that it happens once. *)

From S2P Require Import Prelude GoTime GoFloat Pricing Limiter Budget Denial Governor LocalMoney Governance.

(** ** The governor's operations as calls *)

(** One call into the governor; a handle is [None] where Go's is nil. *)
Inductive Call :=
| CallPreCheck (s : Subject) (kp : KeyPolicy) (estimate : Z)
| CallSettle (s : Subject) (kp : KeyPolicy) (provider model : string) (u : Pricing.Usage)
    (table : option Pricing.Table) (a : option nat)
| CallClose (a : option nat)
| CallCancel (a : option nat)
| CallCancelUndispatched (a : option nat)
| CallOwnLocalMoney (a : option nat)
| CallMarkDispatched (a : option nat)
| CallUsage (s : Subject) (kp : KeyPolicy)
| CallReserveLocalBudget (s : Subject) (kp : KeyPolicy) (bound : Z) (bounded : bool)
| CallFinishLocalBudget (id : option nat) (actual : option Z) (complete invalid : bool) (provider model : string).

Section Calls.
Context {L F B : Type} `{LimiterStore L F} `{BudgetStore B}.
Context (range : gmap string nat → list (string * nat)).
Abbreviation St := (State L F B).

Definition exec (g : Governor) (c : Call) : ST St unit :=
  match c with
  | CallPreCheck s kp e => _ ← PreCheck g s kp e; mret tt
  | CallSettle s kp pr mo u t a => _ ← Settle g s kp pr mo u t a; mret tt
  | CallClose a => Close a
  | CallCancel a => Cancel a
  | CallCancelUndispatched a => CancelUndispatched a
  | CallOwnLocalMoney a => OwnLocalMoney a
  | CallMarkDispatched a => MarkDispatched a
  | CallUsage s kp => _ ← UsageOf g s kp; mret tt
  | CallReserveLocalBudget s kp b bd => _ ← ReserveLocalBudget range g s kp b bd; mret tt
  | CallFinishLocalBudget id a c i pr mo => FinishLocalBudget g id a c i pr mo
  end.

(** A history: each call under the configuration of its moment. *)
Fixpoint run (cs : list (Governor * Call)) : ST St unit :=
  match cs with [] => mret tt | (g, c) :: cs => _ ← exec g c; run cs end.
End Calls.

(** ** Local money touches neither the limiter nor the admissions *)

Section LocalMoneyFrame.
Context {L F B : Type} `{!LimiterStore L F} `{!BudgetStore B}.
Context (range : gmap string nat → list (string * nat)).
Abbreviation St := (State L F B).
Implicit Types P : St → Prop.

Lemma pres_evict P es : robust P → pres P (evict es).
Proof.
  intros R. induction es as [|[k l] es IH]; cbn [evict]; [apply pres_ret|].
  apply pres_bind; [by apply pres_time|]. intros t st Hst. rewrite wp_get. cbv zeta. rewrite wp_bind.
  case_match; [|rewrite wp_ret; by apply IH]. unfold st_put, wp at 1. cbn [fst snd].
  by apply IH, (rb_money P R).
Qed.

Lemma pres_claim_scope P b bd sc : robust P → pres P (claim_scope b bd sc).
Proof.
  intros R. unfold claim_scope. pres_auto.
  intros st Hst. unfold cell_of, wp. cbv zeta.
  destruct (localMoney st !! lm_key sc); [case_match|]; cbn [snd]; [done|by apply (rb_money P R)..].
Qed.

Lemma pres_claim_loop P b bd scs hs : robust P → pres P (claim_loop b bd scs hs).
Proof.
  intros R. revert hs. induction scs as [|sc scs IH]; intros hs; cbn [claim_loop]; pres_auto.
  by apply pres_claim_scope.
Qed.

Lemma pres_Reserve P g s kp b bd : robust P → pres P (ReserveLocalBudget range g s kp b bd).
Proof.
  intros R. unfold ReserveLocalBudget. cbv zeta. pres_auto; [by apply pres_evict|by apply pres_claim_loop|].
  intros st Hst. unfold grant, wp. cbn [fst snd]. by apply (rb_permits P R), (rb_money P R).
Qed.

Lemma pres_Finish P g id a c i pr mo : robust P → pres P (FinishLocalBudget g id a c i pr mo).
Proof.
  intros R. unfold FinishLocalBudget.
  assert (∀ z scs, pres P (debit_loop z scs)) as Hd.
  { intros z scs. induction scs as [|sc scs IH]; cbn [debit_loop]; pres_auto. }
  assert (∀ s scs, pres P (report_loop g s scs)) as Hr.
  { intros s scs. induction scs as [|sc scs IH]; cbn [report_loop]; unfold report_scope; pres_auto. }
  unfold finish_permit. pres_auto; apply pres_modify; intros st Hst;
    first [by apply (rb_permits P R)|by apply (rb_money P R)].
Qed.
End LocalMoneyFrame.

(** ** Reservations over a whole history *)

Section Histories.
Context {L F B : Type} `{!LimiterStore L F} `{!LimiterLaws L F} `{!BudgetStore B}.
Context (range : gmap string nat → list (string * nat)).
Abbreviation St := (State L F B).

Lemma PreCheck_inv g s kp e : pres rates_inv (PreCheck (L := L) (F := F) g s kp e).
Proof.
  intros st J. unfold PreCheck. rewrite wp_bind. eapply wp_mono; [by apply new_admission_spec|].
  intros a st1 [R1 Hn]. rewrite wp_bind.
  pose proof (body_running g s kp e a (admissions st) st1 R1) as Hb.
  eapply (wp_mono _ (λ _ st', running a (admissions st) st')); [exact Hb|].
  intros r st2 (J2 & _ & _). cbv zeta. rewrite wp_bind.
  eapply (wp_mono _ (λ _, rates_inv)); [|intros; by rewrite wp_ret].
  case_match; [by rewrite wp_ret|by apply Cancel_inv].
Qed.

Lemma exec_inv g c : pres rates_inv (exec (L := L) (F := F) range g c).
Proof.
  pose proof (rates_robust (L := L) (F := F) (B := B)) as R.
  destruct c; cbn [exec]; pres_auto;
    first [apply PreCheck_inv|apply Settle_inv|apply Close_inv|apply Cancel_inv|apply CancelUndispatched_inv
          |apply UsageOf_inv|by apply pres_Reserve|by apply pres_Finish
          |destruct a; [by apply update_inv|apply pres_ret]].
Qed.

Lemma run_inv cs : pres rates_inv (run (L := L) (F := F) range cs).
Proof. induction cs as [|[g c] cs IH]; cbn [run]; pres_auto. apply exec_inv. Qed.

(** A refused request keeps nothing: every token reservation it made before the
    gate that refused it is released, and no other request's reservation is
    touched; an admitted one has added exactly the reservations its admission
    holds. *)
Theorem PreCheck_reservations g s kp e (st : St) :
  rates_inv st →
  wp (PreCheck g s kp e) (λ d st', rates_inv st' ∧
    if d_Allowed d
    then ∃ a, admissions st !! a = None ∧
         ∀ f, ls_open (lim st') f ↔ ls_open (lim st) f ∨ holder st' a f
    else ∀ f, ls_open (lim st') f ↔ ls_open (lim st) f) st.
Proof.
  intros J. unfold PreCheck. rewrite wp_bind. eapply wp_mono; [by apply new_admission_spec|].
  intros a st1 [R1 Hn]. rewrite wp_bind.
  pose proof (body_running g s kp e a (admissions st) st1 R1) as Hb.
  eapply (wp_mono _ (λ _ st', running a (admissions st) st')); [exact Hb|].
  intros r st2 R2. cbv zeta. rewrite wp_bind.
  assert (∀ (st' : St) f, rates_inv st' → delete a (admissions st') = admissions st →
            ls_open (lim st') f ↔ ls_open (lim st) f ∨ holder st' a f) as Hopen.
  { intros st' f J' Hd. rewrite (ri_open _ J'), (ri_open _ J). split.
    - intros [i Hi]. destruct (decide (i = a)) as [->|Hne]; [by right|]. left. exists i.
      by apply (holder_delete a st st').
    - intros [[i Hi]|Hi]; [|by exists a]. exists i. apply (holder_delete a st st'); [done| |done].
      intros ->. destruct Hi as (x & Hx & _). congruence. }
  destruct (d_Allowed (decided a r)) eqn:Ed.
  - rewrite wp_ret, wp_ret, Ed. destruct R2 as (J2 & Hd & _). split; [done|]. exists a. auto.
  - eapply wp_mono; [by apply (once_finish_settles a (Some 0) (admissions st))|].
    intros ? st3 (J3 & Hd & Hno). rewrite wp_ret, Ed. split; [done|]. intros f.
    rewrite (Hopen st3 f J3 Hd). naive_solver.
Qed.

(** In every state any history of governor calls reaches from an idle start, under
    any sequence of configurations, the token reservations still pending in the
    limiter are exactly those recorded by admissions that have not been settled,
    closed or cancelled, and no reservation has two owners: none leaks, and none
    is refunded twice. *)
Theorem reservations_owned cs (st : St) :
  ls_inv (lim st) → (∀ f, ¬ ls_open (lim st) f) → admissions st = ∅ →
  wp (run range cs) (λ _ st', ls_inv (lim st') ∧
    (∀ f, ls_open (lim st') f ↔ ∃ i x, admissions st' !! i = Some x ∧ a_once x = false ∧ f ∈ a_rates x) ∧
    ∀ f i j x y, admissions st' !! i = Some x → admissions st' !! j = Some y →
      a_once x = false → a_once y = false → f ∈ a_rates x → f ∈ a_rates y → i = j) st.
Proof.
  intros Hl Ho Ha. assert (rates_inv st) as J.
  { split; [done|..]; unfold holder; rewrite Ha.
    - intros f. split; [intros []%Ho|]. intros (? & ? & Hx & _). by rewrite lookup_empty in Hx.
    - intros f i j (x & Hx & _). by rewrite lookup_empty in Hx. }
  eapply wp_mono; [by apply run_inv|]. intros ? st' [H1 H2 H3]. split; [done|].
  split; [exact H2|]. intros f i j x y Hx Hy Hxo Hyo Hfx Hfy. apply (H3 f); [by exists x|by exists y].
Qed.
End Histories.

(** ** Settling once *)

Section Once.
Context {L F B : Type} `{!LimiterStore L F} `{!BudgetStore B}.
Abbreviation St := (State L F B).

Definition spent_handle (i : nat) (st : St) : Prop := a_once (adm i st) = true.

Lemma spent_robust i : robust (spent_handle i).
Proof. by split. Qed.

Lemma spent_lim i {A} (m : ST L A) : pres (spent_handle i) (on_lim m).
Proof. intros st Hst. by rewrite wp_on_lim. Qed.

Lemma adm_insert i x (st : St) : adm i (with_admissions (<[i := x]> (admissions st)) st) = x.
Proof. unfold adm. simpl. by rewrite lookup_insert_eq. Qed.

Lemma spent_finish i a act : pres (spent_handle i) (finishRates a act).
Proof.
  destruct a as [j|]; [|apply pres_ret]. unfold finishRates. apply pres_get. intros st.
  induction (a_rates (adm j st)) as [|f fs IH]; cbn [finish_loop]; pres_auto. apply spent_lim.
Qed.

Lemma spent_update i f : (∀ x, a_once (f x) = a_once x) → pres (spent_handle i) (update_adm (L := L) i f).
Proof.
  intros Hf st Hst. unfold update_adm, st_modify, wp. cbn [snd]. unfold spent_handle. by rewrite adm_insert, Hf.
Qed.

Lemma once_spends i body : pres (spent_handle i) body → ∀ st, wp (once_do i body) (λ _, spent_handle i) st.
Proof.
  intros Hb st. unfold once_do. rewrite wp_get. destruct (a_once (adm i st)) eqn:Eo; [by rewrite wp_ret|].
  unfold update_adm. rewrite wp_modify. apply Hb. unfold spent_handle. by rewrite adm_insert.
Qed.

Lemma spent_settle g s kp pr mo u t a i : pres (spent_handle i) (settle g s kp pr mo u t a).
Proof.
  pose proof (spent_robust i) as R. pose proof (spent_finish i).
  pose proof (λ A m, spent_lim i (A := A) m).
  pose proof (λ c, pres_settle_team _ g s (default no_policy (policyOf g (s_Team s))) c R).
  pose proof (λ c, pres_settle_key _ g s kp c R). pose proof (λ c, pres_settle_user _ g s c R).
  unfold settle, settle_body, settle_quota, settle_rates. pres_auto.
Qed.

Lemma once_spent i body (st : St) : spent_handle i st → once_do i body st = (tt, st).
Proof. intros Hs. unfold once_do, mbind, st_mbind, st_get. by rewrite Hs. Qed.

(** An admission is accounted for once.  After it has been settled, closed or
    cancelled, closing or cancelling it again changes nothing, and settling it
    again, with any usage and under any configuration, changes nothing and
    reports the result the first settlement recorded (the zero cost of a closed
    one), or, when its money is owned by the local ledger, prices the usage
    without debiting it. *)
Theorem admission_once g s kp pr mo u t i (st : St) g' s' kp' pr' mo' u' t' :
  Forall (λ first : ST St unit,
    let st' := (first st).2 in
    Close (Some i) st' = (tt, st') ∧ Cancel (Some i) st' = (tt, st') ∧
    Settle g' s' kp' pr' mo' u' t' (Some i) st' =
      (if a_moneyOwned (adm i st')
       then match t' with None => (0, true) | Some _ => CostUSDMicros t' pr' mo' u' end
       else (a_cost (adm i st'), a_missing (adm i st')), st'))
    [_ ← Settle g s kp pr mo u t (Some i); mret tt; Close (Some i); Cancel (Some i)].
Proof.
  apply Forall_forall. intros first Hf. cbv zeta. enough (spent_handle i (first st).2) as Hs.
  { split; [by apply once_spent|]. split; [by apply once_spent|].
    unfold Settle. unfold mbind at 1, st_mbind at 1. rewrite once_spent by done.
    unfold mbind, st_mbind, st_get. by destruct (a_moneyOwned _). }
  rewrite !elem_of_cons, elem_of_nil in Hf. destruct Hf as [-> |[-> |[-> |[]]]].
  - match goal with |- spent_handle i (?m st).2 => change (wp m (λ _, spent_handle i) st) end.
    rewrite wp_bind. unfold Settle. rewrite wp_bind.
    eapply wp_mono.
    { apply once_spends. apply pres_bind; [apply spent_settle|]. intros [c m]. by apply spent_update. }
    intros ? st1 H1. rewrite wp_get. case_match; by rewrite !wp_ret.
  - apply (once_spends i (finishRates (Some i) None)), spent_finish.
  - apply (once_spends i (finishRates (Some i) (Some 0))), spent_finish.
Qed.
End Once.

(** ** What an admitted request implies about its money counters *)

(** Every money window the request is checked against. *)
Definition all_gates (g : Governor) (s : Subject) (kp : KeyPolicy) : list BudgetGate :=
  match policyOf g (s_Team s) with Some p => team_gates g s p | None => [] end ++
  key_gates g s kp ++
  match userPolicyOf g s with Some up => user_gates g s up | None => [] end.

(** A refusal: a 402 or 429 with its code and no admission. *)
Definition refusal (d : GovDecision) : Prop :=
  d_Allowed d = false ∧ (d_Status d = 402 ∨ d_Status d = 429) ∧ is_Some (d_Code d) ∧ d_Admission d = None.

Lemma deny_refusal status reason code gov :
  status = 402 ∨ status = 429 → refusal (deny status reason code gov).
Proof. intros Hs. unfold refusal, deny. simpl. eauto. Qed.

(** A window that blocks: limited, and not in warn mode. *)
Definition blocking (b : BudgetGate) : Prop := 0 < bg_limit b ∧ bg_mode b ≠ "warn".

Section Within.
Context {L F B : Type} `{!LimiterStore L F} `{!BudgetStore B} `{!BudgetLaws B}.
Abbreviation St := (State L F B).

(** Every counter is below some bound. *)
Definition bounded (b : B) : Prop := ∀ k, ∃ l, 0 <= l ∧ bs_within b k l.

(** The gates [bs] have been passed. *)
Definition passed (bs : list BudgetGate) (st : St) : Prop :=
  bounded (bud st) ∧ ∀ b, b ∈ bs → blocking b → bs_within (bud st) (bg_key b) (bg_limit b).

(** What the money counters may do in between. *)
Lemma passed_bud {A} (m : ST B A) bs :
  (∀ b k l, 0 <= l → bs_within b k l → wp m (λ _ b', bs_within b' k l) b) →
  pres (passed bs) (on_bud m).
Proof.
  intros Hm st [Hb Hp]. rewrite wp_on_bud. unfold wp, passed. split.
  - intros k. destruct (Hb k) as (l & Hl & Hk). exists l. split; [done|]. by apply (Hm _ k l).
  - intros b Hin [Hlim Hmode]. apply (Hm (bud st)); [lia|]. by apply Hp.
Qed.

Lemma passed_lim {A} (m : ST L A) bs : pres (passed bs) (on_lim m).
Proof. intros st Hst. rewrite wp_on_lim. exact Hst. Qed.

Lemma passed_update i f bs : pres (passed bs) (update_adm (L := L) (F := F) i f).
Proof. by intros st Hst. Qed.

(** One gate: denied, or passed too. *)
Lemma check_gate_passed g b bs prev st :
  passed bs st →
  wp (check_gate g b prev) (λ d st', passed bs st' ∧ (prev ≠ None → d ≠ None) ∧
    (d = None → passed (bs ++ [b]) st')) st.
Proof.
  intros [Hb Hp]. unfold check_gate. destruct (0 <? bg_limit b) eqn:El; bsplit.
  2: { rewrite wp_ret. split; [done|]. split; [done|]. intros _. split; [done|]. intros b' Hin Hbl.
       apply elem_of_app in Hin as [?|Hin]; [by apply Hp|]. apply list_elem_of_singleton in Hin as ->.
       destruct Hbl. lia. }
  rewrite wp_bind. pose proof (Hb (bg_key b)) as (l0 & H0 & Hk).
  assert (wp (on_bud (bs_check (bg_key b) 0 (bg_limit b) (bg_win b))) (λ d st', passed bs st' ∧
            (d = Allow → bs_within (bud st') (bg_key b) (bg_limit b))) st) as Hc.
  { apply wp_and.
      { apply passed_bud; [|done]. intros ?????. by apply check_within. }
    rewrite wp_on_bud. eapply wp_mono; [by apply (check_allow_within _ _ 0 _ _ l0)|].
    intros d b' Hd Ha. specialize (Hd Ha). by rewrite Z.sub_0_r in Hd. }
  eapply wp_mono; [exact Hc|]. intros dec st1 [Hp1 Ha]. destruct (mustDenyBudget dec (bg_mode b)) eqn:Em.
  - rewrite wp_bind. eapply (wp_mono _ (λ _, passed bs)).
    { apply passed_bud; [|done]. intros ????? . by apply resets_within. }
    intros t st2 Hp2. cbv beta in Hp2. rewrite wp_ret. split; [done|].
    destruct prev as [[d t']|]; [case_match|]; done.
  - rewrite wp_ret. split; [done|]. split; [done|]. intros _. destruct Hp1 as [Hb1 Hp1]. split; [done|].
    intros b' Hin Hbl. apply elem_of_app in Hin as [?|Hin]; [by apply Hp1|].
    apply list_elem_of_singleton in Hin as ->. destruct Hbl as [_ Hw]. apply Ha.
    unfold mustDenyBudget in Em. bcases; by destruct dec.
Qed.

Lemma check_gates_passed g bs bs0 prev st :
  passed bs0 st →
  wp (check_gates g bs prev) (λ d st', passed bs0 st' ∧ (prev ≠ None → d ≠ None) ∧
    (d = None → passed (bs0 ++ bs) st')) st.
Proof.
  revert bs0 prev st. induction bs as [|b bs IH]; intros bs0 prev st Hp; cbn [check_gates].
  { rewrite wp_ret, app_nil_r. done. }
  rewrite wp_bind. eapply wp_mono; [by apply check_gate_passed|]. intros d st1 (Hp1 & Hn & Hd).
  destruct d as [d|].
  - eapply wp_mono; [by apply IH|]. intros d' st2 (Hp2 & Hn2 & _). split; [done|].
    assert (d' ≠ None) by by apply Hn2. done.
  - specialize (Hd eq_refl). eapply wp_mono; [by apply IH|]. intros d' st2 (Hp2 & _ & Hd2).
    split.
    { destruct Hp2 as [Hb2 Hp2]. split; [done|]. intros b' Hin. apply Hp2, elem_of_app. by left. }
    split; [intros Hprev; by destruct (Hn Hprev)|]. intros Hd'. specialize (Hd2 Hd').
    by rewrite <- app_assoc in Hd2.
Qed.

(** What the windows of a scope return is a refusal. *)
Lemma check_gates_refuses g bs prev (st : St) :
  (∀ x, prev = Some x → refusal x.1) →
  wp (check_gates g bs prev) (λ r _, ∀ x, r = Some x → refusal x.1) st.
Proof.
  revert prev st. induction bs as [|b bs IH]; intros prev st Hp; cbn [check_gates]; [done|].
  rewrite wp_bind. apply (wp_mono _ (λ r _, ∀ x, r = Some x → refusal x.1)); [|intros; by apply IH].
  unfold check_gate. case_match; [|done]. rewrite wp_bind.
  apply (wp_mono _ (λ _ _, True)); [done|]. intros dec st1 _. case_match; [|done].
  rewrite wp_bind. apply (wp_mono _ (λ _ _, True)); [done|]. intros t st2 _. rewrite wp_ret.
  destruct prev as [[d t']|]; [case_match|]; try done; intros x [= <-]; by apply deny_refusal; left.
Qed.

(** A step of the check: it refuses, or the gates [bs] are passed too. *)
Definition gate_step (m : STE St GovDecision unit) (bs : list BudgetGate) : Prop := ∀ bs0 st,
  passed bs0 st →
  wpe m (λ r st', match r with Ok _ => passed (bs0 ++ bs) st' | Err d => refusal d end) st.

Lemma gate_step_bind m f bs bs' :
  gate_step m bs → gate_step f bs' → gate_step (_ ← m; f) (bs ++ bs').
Proof.
  intros Hm Hf bs0 st Hp. rewrite wpe_bind. eapply wpe_mono; [by apply Hm|].
  intros [[]|d] st1 H1; [|done]. rewrite app_assoc. by apply Hf.
Qed.

Lemma gate_step_first m f bs : gate_step m [] → gate_step f bs → gate_step (_ ← m; f) bs.
Proof. apply gate_step_bind. Qed.

Lemma gate_step_ret : gate_step (mret tt) [].
Proof. intros bs st Hp. by rewrite wpe_ret, app_nil_r. Qed.

Lemma gate_step_return_if b d : refusal d → gate_step (return_if b d) [].
Proof. intros Hd. unfold return_if. destruct b; [by intros bs st Hp|apply gate_step_ret]. Qed.

Lemma gate_step_lift {A} (m : ST St A) (f : A → STE St GovDecision unit) :
  (∀ bs, pres (passed bs) m) → (∀ x, gate_step (f x) []) → gate_step (x ← ste_lift m; f x) [].
Proof.
  intros Hm Hf bs st Hp. rewrite wpe_bind, wpe_lift. eapply wp_mono; [by apply Hm|].
  intros x st1 H1. by apply Hf.
Qed.

Lemma gate_step_money g bs : gate_step (money_gates g bs) bs.
Proof.
  intros bs0 st Hp. unfold money_gates. rewrite wpe_bind, wpe_lift.
  eapply wp_mono.
  { apply wp_and; [by apply (check_gates_passed g bs bs0 None)|]. by apply (check_gates_refuses g bs None). }
  intros [x|] st1 [(_ & _ & Hd) Hden]; [|by apply Hd]. destruct x as [d t]. by apply (Hden (d, t)).
Qed.

Lemma gate_step_rate key r b d : refusal d → gate_step (rate_gate key r b d) [].
Proof.
  intros Hd. unfold rate_gate. case_match; [|apply gate_step_ret].
  apply gate_step_lift; [intros; apply passed_lim|]. intros. by apply gate_step_return_if.
Qed.

Lemma passed_reserve a k e r bs : pres (passed bs) (reserve a k e r).
Proof.
  unfold reserve. apply pres_bind; [apply passed_lim|]. intros [[f|] []]; pres_auto. apply passed_update.
Qed.

Lemma gate_step_token a key e r d : refusal d → gate_step (token_gate a key e r d) [].
Proof.
  intros Hd. unfold token_gate. case_match; [|apply gate_step_ret].
  apply gate_step_lift; [intros; apply passed_reserve|]. intros. by apply gate_step_return_if.
Qed.

Lemma gate_step_quota s p e : gate_step (quota_gate s p e) [].
Proof.
  unfold quota_gate. case_match; [|apply gate_step_ret].
  apply gate_step_lift; [intros; apply passed_lim|]. intros. apply gate_step_return_if, deny_refusal. auto.
Qed.

Lemma gate_step_lease g s : gate_step (lease_gate g s) [].
Proof.
  unfold lease_gate. destruct (leaseGate g) as [f|]; [|apply gate_step_ret].
  destruct (f (s_Team s)). apply gate_step_return_if, deny_refusal. auto.
Qed.

Lemma gate_step_team g s p e a : gate_step (team_checks g s p e a) (team_gates g s p).
Proof.
  unfold team_checks. apply gate_step_first; [by apply gate_step_rate, deny_refusal; right|].
  apply gate_step_first; [by apply gate_step_token, deny_refusal; right|].
  apply gate_step_first; [apply gate_step_quota|apply gate_step_money].
Qed.

Lemma gate_step_key g s kp e a : gate_step (key_checks g s kp e a) (key_gates g s kp).
Proof.
  unfold key_checks. apply gate_step_first; [by apply gate_step_rate, deny_refusal; right|].
  apply gate_step_first; [by apply gate_step_token, deny_refusal; right|apply gate_step_money].
Qed.

(** The whole body, when the governor enforces locally. *)
Lemma gate_step_body g s kp e a :
  HasSharedAuthority g = false → gate_step (precheck_body g s kp e a) (all_gates g s kp).
Proof.
  intros Hs. unfold precheck_body, all_gates. rewrite Hs.
  apply gate_step_first; [by apply gate_step_return_if, deny_refusal; right|].
  apply gate_step_first; [apply gate_step_ret|].
  apply gate_step_first; [apply gate_step_lease|].
  apply gate_step_bind; [case_match; [apply gate_step_team|apply gate_step_ret]|].
  apply gate_step_bind; [apply gate_step_key|].
  case_match; [apply gate_step_money|apply gate_step_ret].
Qed.

(** C5: An admitted request is within its money: when the governor enforces locally,
    at the moment [PreCheck] admits, the counter of every window that blocks (the
    team's, the key's and the user's, monthly and daily) is at most its limit.
    Whatever it decides, a refusal is a 402 or 429 with its code and without an
    admission, and an admitted request has one. *)
Theorem PreCheck_within_budgets g s kp e (st : St) :
  HasSharedAuthority g = false → bounded (bud st) →
  wp (PreCheck g s kp e) (λ d st',
    if d_Allowed d
    then is_Some (d_Admission d) ∧ d_Status d = 0 ∧
         ∀ b, b ∈ all_gates g s kp → 0 < bg_limit b → bg_mode b ≠ "warn" →
           bs_within (bud st') (bg_key b) (bg_limit b)
    else refusal d) st.
Proof.
  intros Hs Hb. unfold PreCheck. rewrite wp_bind. unfold new_admission, wp at 1. cbn [fst snd].
  set (a := new_loc _). set (st1 := with_admissions _ st). rewrite wp_bind.
  assert (passed [] st1) as Hp. { split; [done|]. intros b. by rewrite elem_of_nil. }
  pose proof (gate_step_body g s kp e a Hs [] st1 Hp) as Hw.
  eapply (wp_mono _ (λ r st', match r with Ok _ => passed ([] ++ all_gates g s kp) st' | Err d => refusal d end));
    [exact Hw|]. intros r st2 H2. cbv zeta. rewrite wp_bind.
  destruct r as [[]|d]; cbn [decided].
  - cbn [d_Allowed allow]. rewrite !wp_ret. cbn [d_Allowed allow d_Admission d_Status].
    split; [by eexists|]. split; [done|]. intros b Hin Hl Hm. by apply H2.
  - rewrite (proj1 H2). eapply (wp_mono _ (λ _ _, True)); [done|]. intros ? st3 _.
    rewrite wp_ret. by rewrite (proj1 H2).
Qed.
End Within.

(** ** The exact effect on open counters *)

Section Exact.
Context {L F B : Type} `{!LimiterStore L F} `{!BudgetStore B} `{!BudgetCounters B}.
Abbreviation St := (State L F B).

(** The counters of [bs] are open at [v]. *)
Definition holding (v : string → Z) (bs : list BudgetGate) (st : St) : Prop :=
  ∀ b, b ∈ bs → 0 < bg_limit b → bs_holds (bud st) (bg_key b) (v (bg_key b)).

(** The window has no limit, has room, or only warns. *)
Definition gate_ok (v : string → Z) (b : BudgetGate) : bool :=
  ((bg_limit b <=? 0) || (v (bg_key b) <=? bg_limit b) || bool_decide (bg_mode b = "warn"))%bool.

Lemma holding_bud {A} (m : ST B A) v bs :
  (∀ b k x, bs_holds b k x → wp m (λ _ b', bs_holds b' k x) b) → pres (holding v bs) (on_bud m).
Proof.
  intros Hm st Hh. rewrite wp_on_bud. intros b Hin Hl. apply (Hm (bud st)). by apply Hh.
Qed.

(** A 402 of code [c]. *)
Definition money_denial (c : DenyReason) (x : GovDecision * Time) : Prop :=
  d_Allowed x.1 = false ∧ d_Status x.1 = 402 ∧ d_Code x.1 = Some c.

Lemma mustDeny_check (ok : bool) mode :
  mustDenyBudget (if ok then Allow else Block) mode = (negb ok && negb (bool_decide (mode = "warn")))%bool.
Proof. by destruct ok. Qed.

Lemma check_gate_exact v all g b prev c st :
  holding v all st → b ∈ all → bg_code b = c → (∀ x, prev = Some x → money_denial c x) →
  wp (check_gate g b prev) (λ r st', holding v all st' ∧ (∀ x, r = Some x → money_denial c x) ∧
    (r = None ↔ prev = None ∧ gate_ok v b = true)) st.
Proof.
  intros Hh Hin Hc Hprev. unfold check_gate, gate_ok.
  destruct (0 <? bg_limit b) eqn:El; bsplit.
  2: { rewrite (proj2 (Z.leb_le _ _)) by lia. rewrite wp_ret. split; [done|]. split; [done|]. naive_solver. }
  rewrite (proj2 (Z.leb_gt _ _)) by lia. simpl. rewrite wp_bind.
  assert (wp (on_bud (bs_check (bg_key b) 0 (bg_limit b) (bg_win b))) (λ d st', holding v all st' ∧
            d = if v (bg_key b) <=? bg_limit b then Allow else Block) st) as Hw.
  { apply wp_and; [apply holding_bud; [|done]|].
    - intros b' k x Hx. eapply wp_mono; [by apply check_holds|]. by intros ? ? [? _].
    - rewrite wp_on_bud. eapply wp_mono; [by apply check_holds, Hh|].
      intros d b' [_ Hd]. rewrite Z.add_0_r in Hd. by apply Hd. }
  eapply wp_mono; [exact Hw|]. intros dec st1 [H1 ->].
  rewrite (mustDeny_check (v (bg_key b) <=? bg_limit b)).
  destruct (v (bg_key b) <=? bg_limit b); cbn [negb andb orb]; [rewrite wp_ret; naive_solver|].
  case_bool_decide as Hm; cbn [negb]; [rewrite wp_ret; naive_solver|].
  rewrite wp_bind. eapply (wp_mono _ (λ _, holding v all)).
  { apply holding_bud; [|done]. intros. by apply resets_holds. }
  intros t st2 H2. cbv beta in H2. rewrite wp_ret. split; [done|].
  split; [|destruct prev as [[d' t']|]; [case_match|]; naive_solver].
  destruct prev as [[d' t']|]; [case_match|]; intros x Hx; try (by apply Hprev);
    injection Hx as <-; by rewrite <- Hc.
Qed.

Lemma check_gates_exact v all g bs prev c st :
  holding v all st → bs ⊆ all → (∀ b, b ∈ bs → bg_code b = c) → (∀ x, prev = Some x → money_denial c x) →
  wp (check_gates g bs prev) (λ r st', holding v all st' ∧ (∀ x, r = Some x → money_denial c x) ∧
    (r = None ↔ prev = None ∧ forallb (gate_ok v) bs = true)) st.
Proof.
  revert prev st. induction bs as [|b bs IH]; intros prev st Hh Hsub Hc Hprev; cbn [check_gates forallb].
  { rewrite wp_ret. naive_solver. }
  rewrite wp_bind. eapply wp_mono; [apply (check_gate_exact v all g b prev c); [done|..|done]|].
  { apply Hsub, list_elem_of_here. }
  { apply Hc, list_elem_of_here. }
  intros r st1 (H1 & H2 & H3). eapply wp_mono; [apply IH; [done|..|done]|].
  { intros b' Hb'. by apply Hsub, list_elem_of_further. }
  { intros b' Hb'. by apply Hc, list_elem_of_further. }
  intros r' st2 (H4 & H5 & H6). split; [done|]. split; [done|]. rewrite H6, H3, andb_true_iff. naive_solver.
Qed.

(** The code of the first scope with a window that refuses. *)
Definition first_denial (v : string → Z) (bs : list BudgetGate) : option DenyReason :=
  bg_code <$> head (filter (λ b, gate_ok v b = false) bs).

Lemma first_denial_app v bs bs' :
  first_denial v (bs ++ bs') = match first_denial v bs with Some c => Some c | None => first_denial v bs' end.
Proof. unfold first_denial. rewrite filter_app. by destruct (filter _ bs). Qed.

Lemma first_denial_None v bs : first_denial v bs = None ↔ forallb (gate_ok v) bs = true.
Proof.
  unfold first_denial. induction bs as [|b bs IH]; [done|]. rewrite filter_cons. simpl.
  destruct (gate_ok v b) eqn:E; [by rewrite decide_False by congruence|]. by rewrite decide_True.
Qed.

Lemma first_denial_code v bs c :
  (∀ b, b ∈ bs → bg_code b = c) → forallb (gate_ok v) bs = false → first_denial v bs = Some c.
Proof.
  intros Hc Hf. destruct (first_denial v bs) as [c'|] eqn:E.
  2: { apply first_denial_None in E. congruence. }
  f_equal. unfold first_denial in E. destruct (filter _ bs) as [|b l] eqn:Ef; [done|]. injection E as <-.
  apply Hc. assert (b ∈ filter (λ b, gate_ok v b = false) bs) as Hb by (rewrite Ef; apply list_elem_of_here).
  by apply list_elem_of_filter in Hb as [_ ?].
Qed.

(** A step decides exactly by the windows [bs]. *)
Definition exact_step (v : string → Z) (all bs : list BudgetGate) (m : STE St GovDecision unit) : Prop :=
  ∀ st, holding v all st → wpe m (λ r st', holding v all st' ∧
    match r with
    | Ok _ => first_denial v bs = None
    | Err d => ∃ c t, first_denial v bs = Some c ∧ money_denial c (d, t)
    end) st.

Lemma exact_bind v all bs bs' m f :
  exact_step v all bs m → exact_step v all bs' f → exact_step v all (bs ++ bs') (_ ← m; f).
Proof.
  intros Hm Hf st Hh. rewrite wpe_bind. eapply wpe_mono; [by apply Hm|].
  intros [[]|d] st1 [H1 H2].
  - eapply wpe_mono; [by apply Hf|]. intros r st2 [H3 H4]. split; [done|]. by rewrite first_denial_app, H2.
  - split; [done|]. destruct H2 as (c & t & Hd & ?). exists c, t. by rewrite first_denial_app, Hd.
Qed.

Lemma exact_ret v all : exact_step v all [] (mret tt).
Proof. by intros st Hh. Qed.

Lemma exact_first v all bs m f :
  exact_step v all [] m → exact_step v all bs f → exact_step v all bs (_ ← m; f).
Proof. apply exact_bind. Qed.

Lemma exact_money v all g bs c :
  bs ⊆ all → (∀ b, b ∈ bs → bg_code b = c) → exact_step v all bs (money_gates g bs).
Proof.
  intros Hsub Hc st Hh. unfold money_gates. rewrite wpe_bind, wpe_lift.
  eapply wp_mono; [by apply (check_gates_exact v all g bs None c)|].
  intros [[d t]|] st1 (H1 & H2 & H3).
  - rewrite wpe_early. split; [done|]. exists c, t. split; [|by apply (H2 (d, t))].
    apply first_denial_code; [done|]. destruct (forallb _ bs); [|done].
    destruct H3 as [_ H3]. by specialize (H3 (conj eq_refl eq_refl)).
  - rewrite wpe_ret. split; [done|]. apply first_denial_None. by apply H3.
Qed.

Lemma exact_rate v all key r b d : r <= 0 → exact_step v all [] (rate_gate key r b d).
Proof. intros Hr. unfold rate_gate. rewrite (proj2 (Z.ltb_ge _ _)) by done. apply exact_ret. Qed.

Lemma exact_token v all a key e r d : r <= 0 → exact_step v all [] (token_gate a key e r d).
Proof. intros Hr. unfold token_gate. rewrite (proj2 (Z.ltb_ge _ _)) by done. apply exact_ret. Qed.

(** No limit of the request counts requests or tokens. *)
Definition money_only (g : Governor) (s : Subject) (kp : KeyPolicy) : Prop :=
  HasSharedAuthority g = false ∧ leaseGate g = None ∧ kp_RatePerMin kp <= 0 ∧ kp_TokensPerMinute kp <= 0 ∧
  ∀ p, policyOf g (s_Team s) = Some p →
    tp_RatePerMin p <= 0 ∧ tp_TokensPerMinute p <= 0 ∧ tp_TokensPerDay p <= 0.

Lemma body_exact g s kp e a v :
  money_only g s kp → 0 <= e →
  exact_step v (all_gates g s kp) (all_gates g s kp) (precheck_body g s kp e a).
Proof.
  intros (Hs & Hl & Hr & Ht & Hp) He. unfold precheck_body. rewrite Hs.
  unfold return_if. rewrite (proj2 (Z.ltb_ge _ _)) by done.
  apply exact_first; [apply exact_ret|]. apply exact_first; [apply exact_ret|].
  apply exact_first; [unfold lease_gate; rewrite Hl; apply exact_ret|].
  set (all := all_gates g s kp). rewrite (eq_refl : all = all_gates g s kp) at 2. unfold all_gates at 1.
  assert (∀ b, b ∈ key_gates g s kp → b ∈ all) as Hk.
  { intros b Hb. unfold all, all_gates. rewrite !elem_of_app. auto. }
  apply exact_bind; [|apply exact_bind].
  - destruct (policyOf g (s_Team s)) as [p|] eqn:Ep; [|apply exact_ret].
    destruct (Hp p eq_refl) as (H1 & H2 & H3). unfold team_checks, quota_gate.
    apply exact_first; [by apply exact_rate|]. apply exact_first; [by apply exact_token|].
    rewrite (proj2 (Z.ltb_ge _ _)) by done. apply exact_first; [apply exact_ret|].
    apply (exact_money _ _ _ _ DenyTeamBudgetExceeded).
    + intros b Hb. unfold all, all_gates. rewrite Ep, !elem_of_app. auto.
    + intros b. unfold team_gates. rewrite !elem_of_cons, elem_of_nil. by intros [-> |[-> |[]]].
  - unfold key_checks. apply exact_first; [by apply exact_rate|]. apply exact_first; [by apply exact_token|].
    apply (exact_money _ _ _ _ DenyKeyBudgetExceeded); [done|].
    intros b. unfold key_gates. rewrite !elem_of_cons, elem_of_nil. by intros [-> |[-> |[]]].
  - destruct (userPolicyOf g s) as [up|] eqn:Eu; [|apply exact_ret].
    apply (exact_money _ _ _ _ DenyUserBudgetExceeded).
    + intros b Hb. unfold all, all_gates. rewrite Eu, !elem_of_app. auto.
    + intros b. unfold user_gates. rewrite !elem_of_cons, elem_of_nil. by intros [-> |[-> |[]]].
Qed.

(** With only money limits configured, [PreCheck] is exact: it refuses precisely
    when some limited, non-warning window of the request is over its limit, with
    status 402 and the code of the first such scope in the order team, key,
    user.  A counter that is exactly at its limit still admits, and warn mode
    never refuses. *)
Theorem PreCheck_money_exact g s kp e v (st : St) :
  money_only g s kp → 0 <= e → holding v (all_gates g s kp) st →
  wp (PreCheck g s kp e) (λ d _,
    match first_denial v (all_gates g s kp) with
    | None => d_Allowed d = true
    | Some c => d_Allowed d = false ∧ d_Status d = 402 ∧ d_Code d = Some c
    end) st.
Proof.
  intros Hm He Hh. unfold PreCheck. rewrite wp_bind. unfold new_admission, wp at 1. cbn [fst snd].
  set (a := new_loc _). set (st1 := with_admissions _ st). rewrite wp_bind.
  pose proof (body_exact g s kp e a v Hm He st1 Hh) as Hw.
  eapply (wp_mono _ (λ r _, match r with Ok _ => first_denial v (all_gates g s kp) = None
     | Err d => ∃ c t, first_denial v (all_gates g s kp) = Some c ∧ money_denial c (d, t) end)).
  { by destruct Hw as [_ Hw]. }
  intros r st2 H2. cbv zeta. rewrite wp_bind. destruct r as [[]|d]; cbn [decided].
  - cbn [d_Allowed allow]. by rewrite !wp_ret, H2.
  - destruct H2 as (c & t & Hd & H1 & H3). cbn [fst] in *. rewrite H1.
    eapply (wp_mono _ (λ _ _, True)); [done|]. intros ? st3 _. by rewrite wp_ret, Hd.
Qed.
End Exact.

(** ** What settlement debits *)

Section Debits.
Context {L F B : Type} `{!LimiterStore L F} `{!BudgetStore B} `{!BudgetCounters B}.
Abbreviation St := (State L F B).

(** [m] adds [c] to the open counters of [ks], saturating, and changes no other;
    it leaves the admissions alone. *)
Definition debits {A} (c : Z) (ks : list string) (m : ST St A) : Prop :=
  ∀ st k v, bs_holds (bud st) k v →
    wp m (λ _ st', bs_holds (bud st') k (if decide (k ∈ ks) then Z.min MaxInt64 (v + c) else v)
                   ∧ admissions st' = admissions st) st.

Lemma debits_ret {A} c (a : A) : debits c [] (mret a).
Proof. intros st k v Hk. by rewrite wp_ret. Qed.

Lemma debits_bind {A A'} c ks ks' (m : ST St A) (f : A → ST St A') :
  (∀ k, k ∈ ks → k ∉ ks') → debits c ks m → (∀ a, debits c ks' (f a)) → debits c (ks ++ ks') (m ≫= f).
Proof.
  intros Hd Hm Hf st k v Hk. rewrite wp_bind. eapply wp_mono; [by apply Hm|]. intros a st1 [H1 E1].
  eapply wp_mono; [by apply Hf|]. intros a' st2 [H2 E2]. split; [|congruence].
  destruct (decide (k ∈ ks)) as [Hin|Hin].
  - rewrite decide_False in H2 by by apply Hd. rewrite decide_True; [done|]. apply elem_of_app. by left.
  - destruct (decide (k ∈ ks')) as [Hin'|Hin'].
    + rewrite decide_True; [done|]. apply elem_of_app. by right.
    + rewrite decide_False; [done|]. rewrite elem_of_app. naive_solver.
Qed.

Lemma debits_then {A A'} c ks (m : ST St A) (f : A → ST St A') :
  debits c [] m → (∀ a, debits c ks (f a)) → debits c ks (m ≫= f).
Proof. intros. apply (debits_bind c []); [|done..]. intros k. by rewrite elem_of_nil. Qed.

Lemma debits_last {A A'} c ks (m : ST St A) (f : A → ST St A') :
  debits c ks m → (∀ a, debits c [] (f a)) → debits c ks (m ≫= f).
Proof.
  intros Hm Hf. rewrite <- (app_nil_r ks). apply debits_bind; [|done..]. intros k _. apply not_elem_of_nil.
Qed.

Lemma debits_get {A} c (f : St → ST St A) : (∀ st, debits c [] (f st)) → debits c [] (st_get ≫= f).
Proof. intros Hf st k v Hk. rewrite wp_get. by apply Hf. Qed.

Lemma debits_emit c e : debits c [] (emit e).
Proof. by intros st k v Hk. Qed.

Lemma debits_spent c k w : debits c [] (on_bud (bs_spent k w)).
Proof.
  intros st k' v Hk. rewrite wp_on_bud. eapply wp_mono; [by apply spent_holds|]. by intros ? b [? _].
Qed.

Lemma debits_lim {A} c (m : ST L A) : debits c [] (on_lim m).
Proof. intros st k v Hk. by rewrite wp_on_lim. Qed.

Lemma debits_debit c k w : 0 <= c → debits c [k] (on_bud (bs_debit k c w)).
Proof.
  intros Hc st k' v Hk. rewrite wp_on_bud. eapply wp_mono; [by apply debit_holds|].
  intros ? b Hb. split; [|done]. cbn. destruct (decide (k = k')) as [->|Hne].
  - rewrite decide_True; [done|]. by apply list_elem_of_singleton.
  - rewrite decide_False; [done|]. rewrite list_elem_of_singleton. congruence.
Qed.

Lemma debits_window c scope id limit mode gov w :
  0 <= c → debits c (lm_key <$> add_scope scope id limit mode w gov) (debit_window scope id limit w c).
Proof. intros Hc. unfold debit_window, add_scope. case_match; [by apply debits_debit|apply debits_ret]. Qed.

(** The keys of two windows of one scope differ. *)
Lemma window_keys_ne g scope id id' limit limit' mode mode' gov gov' :
  scope ∈ scopes → ∀ k, k ∈ lm_key <$> add_scope scope id limit mode (monthWindow g) gov →
  k ∉ lm_key <$> add_scope scope id' limit' mode' (dayWindow g) gov'.
Proof.
  intros Hs k. unfold add_scope.
  repeat case_match; simpl; rewrite ?elem_of_cons, ?elem_of_nil; try tauto.
  intros [-> |[]] [Hk|[]]. revert Hk. apply Key_ne; [done..|]. by right.
Qed.

Lemma debits_team g s p c gov gov' : 0 <= c →
  debits c (lm_key <$> (add_scope ScopeTeam (s_Team s) (tp_BudgetMicrosPerMonth p) (tp_BudgetExceeded p) (monthWindow g) gov
              ++ add_scope ScopeTeam (s_Team s) (tp_BudgetMicrosPerDay p) (tp_BudgetDayExceeded p) (dayWindow g) gov'))
    (settle_team g s p c).
Proof.
  intros Hc. unfold settle_team. cbv zeta. rewrite fmap_app. apply debits_bind.
  - apply window_keys_ne. unfold scopes. set_solver.
  - unfold add_scope. case_match; [|apply debits_ret]. apply debits_last; [by apply debits_debit|]. intros ?.
    apply debits_then; [apply debits_spent|]. intros sp. apply debits_then; [apply debits_emit|]. intros ?.
    case_match; [apply debits_emit|apply debits_ret].
  - intros ?. by apply debits_window.
Qed.

Lemma debits_key g s kp c gov gov' : 0 <= c →
  debits c (lm_key <$> (add_scope ScopeKey (s_KeyID s) (kp_BudgetMicrosPerMonth kp) "" (monthWindow g) gov
              ++ add_scope ScopeKey (s_KeyID s) (kp_BudgetMicrosPerDay kp) "" (dayWindow g) gov'))
    (settle_key g s kp c).
Proof.
  intros Hc. unfold settle_key. cbv zeta. rewrite fmap_app. apply debits_bind.
  - apply window_keys_ne. unfold scopes. set_solver.
  - unfold add_scope. case_match; [|apply debits_ret]. apply debits_last; [by apply debits_debit|]. intros ?.
    case_match; [|apply debits_ret]. apply debits_then; [apply debits_spent|]. intros sp. apply debits_emit.
  - intros ?. by apply debits_window.
Qed.

Lemma debits_user g s up c gov gov' : 0 <= c → userPolicyOf g s = Some up →
  debits c (lm_key <$> (add_scope ScopeUser (userBudgetID s) (up_BudgetMicrosPerMonth up) (up_BudgetExceeded up) (monthWindow g) gov
              ++ add_scope ScopeUser (userBudgetID s) (up_BudgetMicrosPerDay up) (up_BudgetExceeded up) (dayWindow g) gov'))
    (settle_user g s c).
Proof.
  intros Hc Hu. unfold settle_user. rewrite Hu, fmap_app. apply debits_bind.
  - apply window_keys_ne. unfold scopes. set_solver.
  - by apply debits_window.
  - intros ?. by apply debits_window.
Qed.

Lemma debits_money {A} g s kp c (tail : ST St A) :
  0 <= c → HasSharedAuthority g = false → debits c [] tail →
  debits c (lm_key <$> localMoneyScopes g s kp)
    (_ ← settle_team g s (default no_policy (policyOf g (s_Team s))) c;
     _ ← settle_key g s kp c; _ ← settle_user g s c; tail).
Proof.
  intros Hc Hs Htail. pose proof (localMoneyScopes_NoDup g s kp) as Hnd. revert Hnd.
  unfold localMoneyScopes. rewrite Hs. cbv zeta.
  rewrite (app_assoc (add_scope ScopeKey _ _ _ _ _)), fmap_app,
    (fmap_app _ (add_scope ScopeKey _ _ _ _ _ ++ _)).
  intros (_ & Hd1 & (_ & Hd2 & _)%NoDup_app)%NoDup_app. apply debits_bind; [exact Hd1|..].
  - destruct (policyOf g (s_Team s)) as [p|]; [by apply debits_team|].
    apply (debits_team g s no_policy c (limitRef GovScopeKey GovLimitBudgetDay keySource)
             (limitRef GovScopeKey GovLimitBudgetDay keySource) Hc).
  - intros ?. apply debits_bind; [exact Hd2|by apply debits_key|]. intros ?.
    destruct (userPolicyOf g s) as [up|] eqn:Eu; [apply debits_last; [by apply debits_user|done]|].
    apply debits_last; [|done]. unfold settle_user. rewrite Eu. apply debits_ret.
Qed.

(** What comes before: no money is touched and the admission is kept. *)
Lemma debits_quota c s p n : debits c [] (settle_quota s p n).
Proof.
  unfold settle_quota. case_match; [|apply debits_ret].
  repeat (apply debits_then; [apply debits_lim|intros ?]). apply debits_emit.
Qed.

Lemma debits_finish c a act : debits c [] (finishRates a act).
Proof.
  destruct a as [i|]; [|apply debits_ret]. intros st. unfold finishRates. cbn. revert st.
  assert (∀ fs, debits c [] (finish_loop (L := L) (B := B) fs act)) as Hl.
  { induction fs as [|f fs IH]; cbn [finish_loop]; [apply debits_ret|].
    apply debits_then; [apply debits_lim|done]. }
  intros st k v Hk. rewrite wp_get. by apply Hl.
Qed.

Lemma debits_rates c a u n : debits c [] (settle_rates a u n).
Proof.
  destruct a as [i|]; [|apply debits_ret]. intros st k v Hk. unfold settle_rates. rewrite wp_get.
  revert st k v Hk. intros st. apply debits_then; [apply debits_finish|]. intros ?. apply debits_ret.
Qed.

Lemma rates_finalized i u n (st : St) : wp (settle_rates (Some i) u n) (λ r _, r = true) st.
Proof. unfold settle_rates. rewrite wp_get, wp_bind. by eapply (wp_mono _ (λ _ _, True)). Qed.

Definition priced (table : option Pricing.Table) (provider model : string) (u : Pricing.Usage) : Z * bool :=
  match table with None => (0, true) | Some _ => CostUSDMicros table provider model u end.

(** C36: Settlement debits exactly the request's windows.  Settling an open admission
    whose money the local ledger does not own, from a well-formed usage, adds the
    priced cost, once and saturating at the int64 maximum, to every open counter
    the request has a limit on (the scopes the local ledger claims: the team's,
    the key's and the user's, monthly and daily), changes no other open counter,
    and returns and records that cost; an unpriced model costs nothing and is
    reported missing. *)
Theorem Settle_debits g s kp pr mo u t i n (st : St) k v :
  HasSharedAuthority g = false → TotalTokens u = Ok n →
  a_once (adm i st) = false → a_moneyOwned (adm i st) = false → bs_holds (bud st) k v →
  wp (Settle g s kp pr mo u t (Some i)) (λ r st',
    r = priced t pr mo u ∧ a_cost (adm i st') = r.1 ∧ a_missing (adm i st') = r.2 ∧
    bs_holds (bud st') k
      (if decide (k ∈ lm_key <$> localMoneyScopes g s kp) then Z.min MaxInt64 (v + r.1) else v)) st.
Proof.
  intros Hs Hu Ho Hm Hk. unfold Settle. rewrite wp_bind. unfold once_do. rewrite wp_get, Ho.
  unfold update_adm. rewrite wp_modify. set (st0 := with_admissions _ st).
  assert (adm i st0 = set_once (adm i st)) as Ha by apply adm_insert.
  rewrite wp_bind. set (cm := priced t pr mo u). set (ks := lm_key <$> localMoneyScopes g s kp).
  enough (wp (settle g s kp pr mo u t (Some i)) (λ r st', r = cm ∧ admissions st' = admissions st0 ∧
    bs_holds (bud st') k (if decide (k ∈ ks) then Z.min MaxInt64 (v + cm.1) else v)) st0) as Hw.
  { eapply wp_mono; [exact Hw|]. intros r st1 (-> & Hadm & Hk1). destruct cm as [c m] eqn:Ecm. cbn [fst snd] in *.
    unfold st_modify, wp at 1. cbn [fst snd]. set (st2 := with_admissions _ st1).
    rewrite wp_get. assert (adm i st2 = set_result c m (set_once (adm i st))) as E2.
    { unfold st2. rewrite adm_insert. f_equal. rewrite <- Ha. unfold adm. by rewrite Hadm. }
    rewrite E2. cbn [a_moneyOwned set_result set_once]. rewrite Hm, wp_ret, E2. done. }
  unfold settle. rewrite wp_bind. unfold settle_body. rewrite Hu, Hs. cbv zeta.
  assert (0 <= cm.1) as Hc.
  { unfold cm, priced. destruct t; [apply CostUSDMicros_nonneg|done]. }
  rewrite wp_bind. eapply wp_mono; [by apply (debits_quota cm.1)|]. intros ? st1 [H1 E1]. cbn in H1.
  rewrite wp_bind. eapply wp_mono.
  { apply wp_and; [by apply (debits_rates cm.1)|].
    apply rates_finalized. }
  intros fin st2 [[H2 E2] ->]. rewrite !decide_False in H2 by apply not_elem_of_nil.
  fold (priced t pr mo u). fold cm. destruct cm as [c m] eqn:Ecm.
  cbn [fst] in *. rewrite wp_get.
  assert (money_owned (Some i) st2 = false) as ->.
  { change (a_moneyOwned (adm i st2) = false). replace (adm i st2) with (adm i st0) by (unfold adm; by rewrite E2, E1). by rewrite Ha. }
  eapply wp_mono.
  { eapply (wp_and _ _ (λ r _, r = (c, m, true))).
    - apply (debits_money g s kp c); [done|done| |exact H2].
      apply debits_then; [apply debits_emit|intros ?]. apply debits_then; [|intros ?].
      { destruct m; [apply debits_emit|apply debits_ret]. }
      apply debits_get. intros ?. apply debits_then; [apply debits_emit|intros ?]. apply debits_ret.
    - do 5 (apply wp_skip; intros ? ?). rewrite wp_get. apply wp_skip. intros ? ?. by rewrite wp_ret. }
  intros r st3 [[H3 E3] ->]. rewrite wp_bind, !wp_ret. split; [done|]. split; [congruence|done].
Qed.
End Debits.

(** ** Witnesses

    One team with a monthly budget of 1000 micro-USD, a token rate and a pricing
    table; a request of 40 tokens, admitted and then settled. *)

Definition demo_policy (tpm budget : Z) : TeamPolicy :=
  {| tp_RatePerMin := 0; tp_RateBurst := 1; tp_TokensPerMinute := tpm; tp_TokensPerDay := 0;
     tp_QuotaExceeded := ""; tp_BudgetMicrosPerMonth := budget; tp_BudgetExceeded := "block";
     tp_BudgetMicrosPerDay := 0; tp_BudgetDayExceeded := ""; tp_AdminContact := "";
     tp_Sources := ConfigSources |}.
Definition demo_gov (tpm budget : Z) : Governor := NewGovernor {[ "acme" := demo_policy tpm budget ]}.

Definition DemoState : Type := State Limiter.Memory Limiter.Finish Budget.Memory.
Definition demo_state (spent : Z) : DemoState :=
  {| lim := Limiter.NewMemory (λ _, demo_now);
     bud := {| m := {[ demo_key := {| Budget.spent := spent; ends := demo_end |} ]}; now := λ _, demo_now;
               reads := 0; maxEntries := 10; sweepTick := 0; rejected := 0 |};
     admissions := ∅; localMoney := ∅; cells := ∅; permits := ∅;
     wall := λ _, demo_now; wall_reads := 0; events := [] |}.

Lemma demo_idle n : rates_inv (demo_state n).
Proof.
  split; [apply Limiter.inv_new|..]; unfold holder; simpl.
  - intros f. split; [intros Hf; destruct f; [done|]; destruct Hf as (x & Hx & _); discriminate Hx|].
    intros (? & ? & Hx & _). by rewrite lookup_empty in Hx.
  - intros f i j (x & Hx & _). by rewrite lookup_empty in Hx.
Defined.

Lemma demo_open n : nat63 n → bs_holds (bud (demo_state n)) demo_key n.
Proof. intros Hn. hnf. exists {| Budget.spent := n; ends := demo_end |}. by split_and!. Defined.

Lemma demo_bounded n : nat63 n → bounded (bud (demo_state n)).
Proof.
  intros Hn k. exists n. split; [apply Hn|]. intros v Hv. simpl in Hv.
  apply lookup_singleton_Some in Hv as [_ <-]. simpl. split; [apply Hn|lia].
Defined.

(** The state after a request of 40 tokens was admitted. *)
Definition demo_admitted : DemoState :=
  (PreCheck (demo_gov 100 1000) demo_subject no_key_limits 40 (demo_state 7)).2.

Lemma PreCheck_reservations_witness :
  let d := (PreCheck (demo_gov 100 1000) demo_subject no_key_limits 40 (demo_state 7)).1 in
  d_Allowed d = true ∧
  ∃ a, admissions (demo_state 7) !! a = None ∧
    ∀ f, ls_open (lim demo_admitted) f ↔ ls_open (lim (demo_state 7)) f ∨ holder demo_admitted a f.
Proof.
  assert (d_Allowed (PreCheck (demo_gov 100 1000) demo_subject no_key_limits 40 (demo_state 7)).1 = true) as Hd
    by (vm_compute; reflexivity).
  split; [exact Hd|].
  pose proof (PreCheck_reservations (demo_gov 100 1000) demo_subject no_key_limits 40 (demo_state 7)
                (demo_idle 7)) as [_ Hw].
  rewrite Hd in Hw. exact Hw.
Defined.

(** The same request as a history of one call. *)
Definition demo_history : DemoState :=
  (run map_to_list [(demo_gov 100 1000, CallPreCheck demo_subject no_key_limits 40)] (demo_state 7)).2.

Lemma reservations_owned_witness :
  reservations (lim demo_history) !! 0%nat ≠ None ∧
  (∀ f, ls_open (lim demo_history) f ↔
     ∃ i x, admissions demo_history !! i = Some x ∧ a_once x = false ∧ f ∈ a_rates x).
Proof.
  split; [vm_compute; discriminate|].
  refine (proj1 (proj2 (reservations_owned map_to_list
    [(demo_gov 100 1000, CallPreCheck demo_subject no_key_limits 40)] (demo_state 7)
    (ri_lim _ (demo_idle 7)) _ (eq_refl ∅)))).
  intros f Hf. destruct f; [done|]. destruct Hf as (x & Hx & _). discriminate Hx.
Defined.

Lemma PreCheck_within_budgets_witness :
  d_Allowed (PreCheck (demo_gov 100 1000) demo_subject no_key_limits 40 (demo_state 7)).1 = true ∧
  bs_within (bud demo_admitted) demo_key 1000.
Proof.
  assert (d_Allowed (PreCheck (demo_gov 100 1000) demo_subject no_key_limits 40 (demo_state 7)).1 = true) as Hd
    by (vm_compute; reflexivity).
  split; [exact Hd|].
  pose proof (PreCheck_within_budgets (demo_gov 100 1000) demo_subject no_key_limits 40 (demo_state 7)
                (eq_refl false) (demo_bounded 7 ltac:(vm_compute; split; discriminate))) as Hw.
  unfold wp in Hw. rewrite Hd in Hw. destruct Hw as (_ & _ & Hw).
  refine (Hw {| bg_scope := ScopeTeam; bg_id := "acme"; bg_limit := 1000; bg_mode := "block"; bg_win := demo_month;
     bg_kind := "budget"; bg_contact := ""; bg_code := DenyTeamBudgetExceeded; bg_govScope := GovScopeTeam;
     bg_govLimit := GovLimitBudgetMonth; bg_source := ts_Budget ConfigSources |} _ _ _);
    [left|reflexivity|discriminate].
Defined.

Lemma demo_money_only n : money_only (demo_gov 0 n) demo_subject no_key_limits.
Proof.
  split; [reflexivity|]. split; [reflexivity|]. split; [discriminate|]. split; [discriminate|].
  intros p Hp. vm_compute in Hp. injection Hp as <-. vm_compute. repeat split; discriminate.
Defined.

(** At the limit: admitted; one over: refused with 402. *)
Lemma PreCheck_money_exact_witness :
  d_Allowed (PreCheck (demo_gov 0 1000) demo_subject no_key_limits 40 (demo_state 1000)).1 = true ∧
  d_Allowed (PreCheck (demo_gov 0 999) demo_subject no_key_limits 40 (demo_state 1000)).1 = false.
Proof.
  assert (∀ n, holding (λ _, 1000) (all_gates (demo_gov 0 n) demo_subject no_key_limits) (demo_state 1000)) as Hh.
  { intros n b Hb Hl. apply list_elem_of_In in Hb. vm_compute in Hb.
    destruct Hb as [<-|[<-|[<-|[<-|[]]]]]; try (simpl in Hl; lia).
    apply demo_open. vm_compute. split; discriminate. }
  split.
  - exact (PreCheck_money_exact (demo_gov 0 1000) demo_subject no_key_limits 40 (λ _, 1000) (demo_state 1000)
             (demo_money_only 1000) ltac:(lia) (Hh 1000)).
  - exact (proj1 (PreCheck_money_exact (demo_gov 0 999) demo_subject no_key_limits 40 (λ _, 1000) (demo_state 1000)
             (demo_money_only 999) ltac:(lia) (Hh 999))).
Defined.

(** 684029 micro-USD on top of 7. *)
Lemma Settle_debits_witness :
  let st' := (Settle (demo_gov 100 1000) demo_subject no_key_limits "bedrock" "us.zai.glm-5" demo_usage
                demo_table (Some 1%nat) demo_admitted).2 in
  a_cost (adm 1 st') = 684029 ∧ bs_holds (bud st') demo_key 684036.
Proof.
  pose proof (Settle_debits (demo_gov 100 1000) demo_subject no_key_limits "bedrock" "us.zai.glm-5" demo_usage
    demo_table 1%nat 200904 demo_admitted demo_key 7) as Hw.
  destruct Hw as (Hr & Hc & _ & Hk); [vm_compute; reflexivity..| |].
  - hnf. exists {| Budget.spent := 7; ends := demo_end |}. split_and!; [vm_compute; reflexivity|reflexivity|vm_compute; split; discriminate|].
    intros n _. vm_compute. reflexivity.
  - split; [etrans; [exact Hc|]; rewrite Hr; vm_compute; reflexivity|].
    rewrite Hr in Hk. exact Hk.
Defined.
