(* ===== verification/Live.v ===== *)
(** * The topology generation (internal/live, the route types of internal/config)

    One immutable generation: providers, model routes, aliases, fallbacks and the
    rate table.  [Canonical] resolves aliases, [FallbackSource] finds the model to
    serve in place of an unrouted one, [RoutedAndPriced] validates policy targets,
    [validatePricingCoverage] guards a generation before it is published.  Go map
    iteration is the parameter [range]. *)

From S2P Require Import Prelude Pricing.

(** ** Data *)

(** config.Target. *)
Record Target := { t_Provider : string; t_Model : string; t_API : string }.

#[export] Instance Target_eq_dec : EqDecision Target.
Proof. solve_decision. Defined.

(** config.ModelConfig. *)
Record ModelConfig := {
  mc_Capabilities : list string; mc_Aliases : list string; mc_Targets : list Target; mc_ContextWindow : Z
}.

Definition no_model : ModelConfig :=
  {| mc_Capabilities := []; mc_Aliases := []; mc_Targets := []; mc_ContextWindow := 0 |}.

(** config.ProviderConfig, as far as the topology reads it. *)
Record ProviderConfig := { pc_Type : string; pc_BaseURL : string; pc_Region : string; pc_DataBoundary : string }.

(** providers.Provider: its type name and the optional contracts the router asks it for. *)
Record Provider := {
  pv_Name : string;
  pv_SupportsIngress : option (string → bool);
  pv_SupportsBedrockConverse : option (string → bool)
}.

Record State := {
  providers : gmap string Provider;
  models : gmap string ModelConfig;
  aliases : gmap string string;
  pricing : option Pricing.Table;
  identities : gmap string string;
  providerConfigs : gmap string ProviderConfig;
  fallbacks : gmap string string;
  fallbackFamily : bool
}.

(** ** Accessors *)

Definition Route (st : State) (model : string) : option ModelConfig := models st !! model.
Definition Canonical (st : State) (name : string) : string := default name (aliases st !! name).
Definition State_Provider (st : State) (name : string) : option Provider := providers st !! name.
Definition Identity (st : State) (name : string) : option string := identities st !! name.
Definition Region (st : State) (name : string) : string :=
  match providerConfigs st !! name with Some pc => pc_Region pc | None => "" end.

(** Only the two attested values; everything else is unknown. *)
Definition DataBoundary (st : State) (name : string) : string :=
  let b := match providerConfigs st !! name with Some pc => pc_DataBoundary pc | None => "" end in
  if (bool_decide (b = "internal") || bool_decide (b = "external"))%bool then b else "unknown".

(** The NUL between type and base URL. *)
Definition NUL : Ascii.ascii := Ascii.ascii_of_nat 0.
Definition identityOf (name : string) (pc : ProviderConfig) : string :=
  pc_Type pc +:+ String NUL (pc_BaseURL pc).

(** ** Model families *)

(** [strings.Split(s, "-")]. *)
Definition dash : Ascii.ascii := Ascii.ascii_of_nat 45.
Fixpoint split_dash (s : string) : list string :=
  match s with
  | EmptyString => [""]
  | String c s =>
      if Ascii.eqb c dash then "" :: split_dash s
      else match split_dash s with [] => [String c ""] | p :: ps => String c p :: ps end
  end.

(** [strings.Join(ps, "-")]. *)
Fixpoint join_dash (ps : list string) : string :=
  match ps with
  | [] => ""
  | [p] => p
  | p :: ps => p +:+ String dash (join_dash ps)
  end.

Definition is_digit (a : Ascii.ascii) : bool :=
  let n := Ascii.nat_of_ascii a in ((48 <=? n)%nat && (n <=? 57)%nat)%bool.

Fixpoint digits_value (s : string) (acc : Z) : option Z :=
  match s with
  | EmptyString => Some acc
  | String c s =>
      if is_digit c then digits_value s (acc * 10 + (Z.of_nat (Ascii.nat_of_ascii c) - 48)) else None
  end.

(** [strconv.Atoi]: an optional sign and decimal digits, in the range of [int]. *)
Definition Atoi (s : string) : option Z :=
  let '(neg, body) :=
    match s with
    | String c r =>
        if Ascii.eqb c dash then (true, r)
        else if Ascii.eqb c (Ascii.ascii_of_nat 43) then (false, r) else (false, s)
    | EmptyString => (false, s)
    end in
  if bool_decide (body = "") then None
  else
    n ← digits_value body 0;
    let n := if (neg : bool) then - n else n in
    if bool_decide (int64 n) then Some n else None.

(** The trailing numeric segments, given the segments last first. *)
Fixpoint numeric_tail (rev_parts : list string) : list Z :=
  match rev_parts with
  | p :: ps => match Atoi p with Some n => numeric_tail ps ++ [n] | None => [] end
  | [] => []
  end.

Definition familyOf (name : string) : option (string * list Z) :=
  let parts := split_dash name in
  let version := numeric_tail (rev parts) in
  if bool_decide (version = []) then None
  else Some (join_dash (take (length parts - length version) parts), version).

(** Lexicographic, a missing trailing component being 0. *)
Fixpoint right_sign (b : list Z) : Z :=
  match b with [] => 0 | y :: b => if 0 =? y then right_sign b else if 0 <? y then -1 else 1 end.

Fixpoint compareVersions (a b : list Z) : Z :=
  match a, b with
  | [], _ => right_sign b
  | x :: a, [] => if x =? 0 then compareVersions a [] else if x <? 0 then -1 else 1
  | x :: a, y :: b => if x =? y then compareVersions a b else if x <? y then -1 else 1
  end.

(** ** Fallbacks *)

Section Range.
(** The order in which [range] visits a map of models. *)
Context (range : gmap string ModelConfig → list (string * ModelConfig)).

(** One iteration of the search for the best version of a family. *)
Definition better_version (family : string) (version : list Z) (best : option (string * list Z))
    (name : string) : option (string * list Z) :=
  match familyOf name with
  | Some (f, v) =>
      if (negb (bool_decide (f = family)) || (0 <=? compareVersions v version))%bool then best
      else match best with
           | None => Some (name, v)
           | Some (_, bv) => if 0 <? compareVersions v bv then Some (name, v) else best
           end
  | None => best
  end.

Definition best_version (st : State) (family : string) (version : list Z) : option (string * list Z) :=
  foldl (λ best kv, better_version family version best kv.1) None (range (models st)).

(** What to serve in place of an unrouted model, and why. *)
Definition FallbackSource (st : State) (model : string) : string * string :=
  match fallbacks st !! model with
  | Some served => (served, "model_fallbacks")
  | None =>
      if fallbackFamily st then
        match familyOf model with
        | Some (family, version) =>
            match best_version st family version with
            | Some (best, _) => if bool_decide (best = "") then ("", "") else (best, "family")
            | None => ("", "")
            end
        | None => ("", "")
        end
      else ("", "")
  end.

Definition FallbackFor (st : State) (model : string) : string := fst (FallbackSource st model).
End Range.

(** ** Validation of policy targets (policy_targets.go) *)

Inductive TargetError :=
| NoTopology (model : string)
| Unrouted (model : string)
| MissingProvider (model provider : string)
| Unpriced (model provider upstream : string).

Fixpoint routed_loop (st : State) (model : string) (ts : list Target) : result TargetError unit :=
  match ts with
  | [] => mret tt
  | t :: ts =>
      match State_Provider st (t_Provider t) with
      | None => Err (MissingProvider model (t_Provider t))
      | Some _ =>
          if HasRate (pricing st) (t_Provider t) (t_Model t) then routed_loop st model ts
          else Err (Unpriced model (t_Provider t) (t_Model t))
      end
  end.

(** [None] is a holder before its first generation. *)
Definition RoutedAndPriced (h : option State) (model : string) : result TargetError unit :=
  match h with
  | None => Err (NoTopology model)
  | Some st =>
      match Route st (Canonical st model) with
      | None => Err (Unrouted model)
      | Some route =>
          bool_decide (mc_Targets route = []) !> Unrouted model;;
          routed_loop st model (mc_Targets route)
      end
  end.

(** ** Building a generation *)

(** The configuration, as far as the topology reads it; [cfg_Table] is the rate
    table its pricing section assembles. *)
Record Config := {
  cfg_Providers : gmap string ProviderConfig;
  cfg_Models : gmap string ModelConfig;
  cfg_Overrides : list (string * list string);
  cfg_Table : Pricing.Table;
  cfg_Fallbacks : gmap string string;
  cfg_FallbackFamily : bool
}.

(** [cfg_Overrides]: per provider the models with a configured rate, as visited. *)
Inductive BuildError :=
| BadDataBoundary (provider : string)
| BadMetadata (model : string)
| AliasIsModel (model alias : string)
| AliasTwice (alias : string)
| ProviderFailed (provider : string)
| UnknownProvider (model provider : string)
| OverrideProvider (provider : string)
| OverrideModel (provider model : string)
| UnpricedRoutes (pairs : list string).

Definition ValidateDataBoundary (boundary : string) : bool :=
  contains boundary [""; "unknown"; "internal"; "external"].

Definition capabilities : list string := ["tools"; "vision"; "reasoning"; "structured_output"].

(** A nonnegative window and known capabilities. *)
Definition ValidateModelMetadata (contextWindow : Z) (cs : list string) : bool :=
  ((0 <=? contextWindow) && forallb (λ c, contains c capabilities) cs)%bool.

Fixpoint alias_loop (ms : gmap string ModelConfig) (model : string) (als seen : list string)
    : result BuildError (list string) :=
  match als with
  | [] => mret seen
  | al :: als =>
      bool_decide (is_Some (ms !! al)) !> AliasIsModel model al;;
      contains al seen !> AliasTwice al;;
      alias_loop ms model als (al :: seen)
  end.

Fixpoint aliases_loop (ms : gmap string ModelConfig) (kvs : list (string * ModelConfig)) (seen : list string)
    : result BuildError (list string) :=
  match kvs with
  | [] => mret seen
  | (model, mc) :: kvs =>
      negb (ValidateModelMetadata (mc_ContextWindow mc) (mc_Capabilities mc)) !> BadMetadata model;;
      seen ← alias_loop ms model (mc_Aliases mc) seen;
      aliases_loop ms kvs seen
  end.

Section Build.
Context (range : gmap string ModelConfig → list (string * ModelConfig)).
Context (range_pc : gmap string ProviderConfig → list (string * ProviderConfig)).
(** The provider registry: what a configuration constructs, if anything. *)
Context (new_provider : string → ProviderConfig → option Provider).

Definition ValidateModelAliases (ms : gmap string ModelConfig) : result BuildError (list string) :=
  aliases_loop ms (range ms) [].

Fixpoint boundaries_loop (kvs : list (string * ProviderConfig)) : result BuildError unit :=
  match kvs with
  | [] => mret tt
  | (name, pc) :: kvs =>
      negb (ValidateDataBoundary (pc_DataBoundary pc)) !> BadDataBoundary name;; boundaries_loop kvs
  end.

Fixpoint providers_loop (kvs : list (string * ProviderConfig))
    (provs : gmap string Provider) (ids : gmap string string)
    : result BuildError (gmap string Provider * gmap string string) :=
  match kvs with
  | [] => mret (provs, ids)
  | (name, pc) :: kvs =>
      match new_provider name pc with
      | None => Err (ProviderFailed name)
      | Some p => providers_loop kvs (<[name := p]> provs) (<[name := identityOf name pc]> ids)
      end
  end.

Fixpoint targets_loop (provs : gmap string Provider) (model : string) (ts : list Target) : result BuildError unit :=
  match ts with
  | [] => mret tt
  | t :: ts =>
      bool_decide (provs !! t_Provider t = None) !> UnknownProvider model (t_Provider t);;
      targets_loop provs model ts
  end.

Fixpoint routes_loop (provs : gmap string Provider) (kvs : list (string * ModelConfig)) : result BuildError unit :=
  match kvs with
  | [] => mret tt
  | (model, mc) :: kvs => _ ← targets_loop provs model (mc_Targets mc); routes_loop provs kvs
  end.

Fixpoint has_suffix (suf s : string) : bool :=
  (String.eqb suf s || match s with EmptyString => false | String _ s => has_suffix suf s end)%bool.

Definition routesTo (cfg : Config) (provider model : string) : bool :=
  existsb (λ kv, existsb (λ t, (String.eqb (t_Provider t) provider
      && (String.eqb (t_Model t) model || has_suffix ("." +:+ model) (t_Model t)))%bool)
    (mc_Targets kv.2)) (range (cfg_Models cfg)).

(** The unpriced pairs in order of discovery; the published list is sorted. *)
Definition unpriced_pairs (ms : list (string * ModelConfig)) (tbl : option Pricing.Table) : list string :=
  foldl (λ out kv, foldl (λ out t,
      if HasRate tbl (t_Provider t) (t_Model t) then out
      else let pair := t_Provider t +:+ "/" +:+ t_Model t in
           if contains pair out then out else out ++ [pair]) out (mc_Targets kv.2)) [] ms.

Definition str_le (s t : string) : Prop := String.ltb t s = false.
#[export] Instance str_le_dec s t : Decision (str_le s t) := decide (String.ltb t s = false).

Definition UnpricedTargets (cfg : Config) (tbl : option Pricing.Table) : list string :=
  merge_sort str_le (unpriced_pairs (range (cfg_Models cfg)) tbl).

Fixpoint override_models (cfg : Config) (provider : string) (ms : list string) : result BuildError unit :=
  match ms with
  | [] => mret tt
  | m :: ms => negb (routesTo cfg provider m) !> OverrideModel provider m;; override_models cfg provider ms
  end.

Fixpoint override_loop (cfg : Config) (os : list (string * list string)) : result BuildError unit :=
  match os with
  | [] => mret tt
  | (p, ms) :: os =>
      bool_decide (cfg_Providers cfg !! p = None) !> OverrideProvider p;;
      _ ← override_models cfg p ms;
      override_loop cfg os
  end.

Definition validatePricingCoverage (cfg : Config) (tbl : Pricing.Table) : result BuildError unit :=
  _ ← override_loop cfg (cfg_Overrides cfg);
  let unpriced := UnpricedTargets cfg (Some tbl) in
  if bool_decide (unpriced = []) then mret tt
  else match onMissing tbl with
       | OnMissingBlock => Err (UnpricedRoutes unpriced)
       | OnMissingAllow => mret tt
       end.

Definition NewState (provs : gmap string Provider) (ms : gmap string ModelConfig)
    (price : option Pricing.Table) (ids : gmap string string) : State :=
  {| providers := provs; models := ms;
     aliases := foldl (λ a kv, foldl (λ a al, <[al := kv.1]> a) a (mc_Aliases kv.2)) ∅ (range ms);
     pricing := price; identities := ids; providerConfigs := ∅; fallbacks := ∅; fallbackFamily := false |}.

Definition BuildState (cfg : Config) : result BuildError (State * gmap string string) :=
  _ ← boundaries_loop (range_pc (cfg_Providers cfg));
  _ ← ValidateModelAliases (cfg_Models cfg);
  '(provs, ids) ← providers_loop (range_pc (cfg_Providers cfg)) ∅ ∅;
  _ ← routes_loop provs (range (cfg_Models cfg));
  _ ← validatePricingCoverage cfg (cfg_Table cfg);
  let st := NewState provs (cfg_Models cfg) (Some (cfg_Table cfg)) ids in
  mret ({| providers := providers st; models := models st; aliases := aliases st; pricing := pricing st;
           identities := identities st; providerConfigs := cfg_Providers cfg;
           fallbacks := cfg_Fallbacks cfg; fallbackFamily := cfg_FallbackFamily cfg |}, ids).
End Build.

(** ** Aliases *)

Definition all_aliases (kvs : list (string * ModelConfig)) : list string := kvs ≫= λ kv, mc_Aliases kv.2.

Lemma alias_loop_Ok ms model als seen seen' :
  alias_loop ms model als seen = Ok seen' →
  NoDup seen → NoDup seen' ∧ (∀ a, a ∈ seen' ↔ a ∈ als ∨ a ∈ seen) ∧ NoDup als ∧
  (∀ a, a ∈ als → ms !! a = None ∧ a ∉ seen).
Proof.
  revert seen. induction als as [|al als IH]; intros seen; cbn [alias_loop].
  { intros [= <-] Hnd. split; [done|]. setoid_rewrite elem_of_nil. split; [naive_solver|].
    split; [constructor|done]. }
  intros H Hnd. apply guard_Ok in H as [H1 H]. apply guard_Ok in H as [H2 H].
  apply bool_decide_eq_false in H1. apply contains_false in H2.
  destruct (IH _ H) as (Hnd' & Hs & Hals & Hd); [by constructor|].
  setoid_rewrite elem_of_cons in Hs. setoid_rewrite elem_of_cons in Hd.
  split; [done|]. split; [intros a; rewrite Hs, elem_of_cons; naive_solver|]. split.
  - constructor; [|done]. intros Hin. destruct (Hd al Hin) as [_ []]. by left.
  - intros a [->|Hin]%elem_of_cons; [|naive_solver]. split; [by apply eq_None_not_Some|done].
Qed.

Lemma aliases_loop_Ok ms kvs seen seen' :
  aliases_loop ms kvs seen = Ok seen' → NoDup seen →
  NoDup (all_aliases kvs) ∧ (∀ a, a ∈ all_aliases kvs → ms !! a = None ∧ a ∉ seen).
Proof.
  revert seen. induction kvs as [|[model mc] kvs IH]; intros seen; cbn [aliases_loop].
  { intros _ _. split; [constructor|]. intros a []%elem_of_nil. }
  intros H Hnd. apply guard_Ok in H as [_ H]. apply bind_Ok in H as (seen1 & H1 & H).
  destruct (alias_loop_Ok _ _ _ _ _ H1 Hnd) as (Hnd1 & Hs1 & Hals & Hd1).
  destruct (IH _ H Hnd1) as (Hnd2 & Hd2). unfold all_aliases in *. cbn. split.
  - apply NoDup_app. split; [done|]. split; [|done]. intros a Hin Hin2.
    destruct (Hd2 a Hin2) as [_ []]. apply Hs1. by left.
  - intros a [Hin|Hin]%elem_of_app; [by apply Hd1|]. destruct (Hd2 a Hin) as [? Hn].
    split; [done|]. intros Hs. apply Hn, Hs1. by right.
Qed.

Definition add_aliases (a : gmap string string) (kv : string * ModelConfig) : gmap string string :=
  foldl (λ a al, <[al := kv.1]> a) a (mc_Aliases kv.2).

Lemma add_aliases_lookup a kv x m :
  add_aliases a kv !! x = Some m ↔ (x ∈ mc_Aliases kv.2 ∧ m = kv.1) ∨ ((x ∉ mc_Aliases kv.2) ∧ a !! x = Some m).
Proof.
  unfold add_aliases. destruct kv as [k mc]. cbn [fst snd]. revert a.
  induction (mc_Aliases mc) as [|al als IH]; intros a; cbn [foldl].
  { rewrite elem_of_nil. naive_solver. }
  rewrite IH, elem_of_cons, lookup_insert_Some. destruct (decide (x ∈ als)), (decide (x = al)); naive_solver.
Qed.

Lemma aliases_lookup kvs a x m :
  NoDup (all_aliases kvs) →
  foldl add_aliases a kvs !! x = Some m ↔
  (∃ mc, (m, mc) ∈ kvs ∧ x ∈ mc_Aliases mc) ∨ ((x ∉ all_aliases kvs) ∧ a !! x = Some m).
Proof.
  revert a. induction kvs as [|[k mc] kvs IH]; intros a Hnd; cbn [foldl].
  { unfold all_aliases. cbn. setoid_rewrite elem_of_nil. naive_solver. }
  unfold all_aliases in *. cbn in Hnd. apply NoDup_app in Hnd as (_ & Hd & Hnd).
  rewrite IH by done. rewrite add_aliases_lookup. cbn [fst snd]. setoid_rewrite elem_of_cons.
  cbn. rewrite elem_of_app. split.
  - intros [(mc' & Hin & Hx)|(Hn & [[Hx ->]|[Hx Ha]])].
    + left. exists mc'. auto.
    + left. exists mc. auto.
    + right. naive_solver.
  - intros [(mc' & [[= -> ->]|Hin] & Hx)|[Hn Ha]]; [right|left; eauto|right; naive_solver].
    split; [by apply Hd|]. auto.
Qed.

(** ** A published generation is well formed *)

Record topology_wf (st : State) : Prop := {
  wf_target m mc t : models st !! m = Some mc → t ∈ mc_Targets mc → is_Some (providers st !! t_Provider t);
  wf_alias a m : aliases st !! a = Some m ↔ ∃ mc, models st !! m = Some mc ∧ a ∈ mc_Aliases mc;
  wf_alias_model a : is_Some (aliases st !! a) → models st !! a = None;
  wf_identity name : is_Some (identities st !! name) ↔ is_Some (providers st !! name);
  wf_boundary name pc : providerConfigs st !! name = Some pc →
    pc_DataBoundary pc ∈ [""; "unknown"; "internal"; "external"];
  wf_window m mc : models st !! m = Some mc → 0 <= mc_ContextWindow mc;
  wf_priced m mc t : models st !! m = Some mc → t ∈ mc_Targets mc →
    (∀ tbl, pricing st = Some tbl → onMissing tbl = OnMissingBlock) →
    HasRate (pricing st) (t_Provider t) (t_Model t) = true
}.

Lemma boundaries_Ok kvs name pc :
  boundaries_loop kvs = Ok tt → (name, pc) ∈ kvs → ValidateDataBoundary (pc_DataBoundary pc) = true.
Proof.
  induction kvs as [|[n p] kvs IH]; cbn [boundaries_loop]; [by intros _ []%elem_of_nil|].
  intros H. apply guard_Ok in H as [H1 H]. apply negb_false_iff in H1.
  intros [[= -> ->]|Hin]%elem_of_cons; [done|by apply IH].
Qed.

Lemma targets_Ok provs m ts t :
  targets_loop provs m ts = Ok tt → t ∈ ts → is_Some (provs !! t_Provider t).
Proof.
  induction ts as [|t' ts IH]; cbn [targets_loop]; [by intros _ []%elem_of_nil|].
  intros H. apply guard_Ok in H as [H1 H]. apply bool_decide_eq_false in H1.
  intros [->|Hin]%elem_of_cons; [by apply not_eq_None_Some|by apply IH].
Qed.

Lemma routes_Ok provs kvs m mc t :
  routes_loop provs kvs = Ok tt → (m, mc) ∈ kvs → t ∈ mc_Targets mc → is_Some (provs !! t_Provider t).
Proof.
  induction kvs as [|[m' mc'] kvs IH]; cbn [routes_loop]; [by intros _ []%elem_of_nil|].
  intros H. apply bind_Ok in H as ([] & H1 & H).
  intros [[= -> ->]|Hin]%elem_of_cons; [by apply (targets_Ok _ _ _ _ H1)|by apply IH].
Qed.

Lemma metadata_Ok ms kvs seen seen' m mc :
  aliases_loop ms kvs seen = Ok seen' → (m, mc) ∈ kvs → 0 <= mc_ContextWindow mc.
Proof.
  revert seen. induction kvs as [|[m' mc'] kvs IH]; intros seen; cbn [aliases_loop]; [by intros _ []%elem_of_nil|].
  intros H. apply guard_Ok in H as [H1 H]. apply bind_Ok in H as (seen1 & _ & H).
  intros [[= -> ->]|Hin]%elem_of_cons; [|by apply (IH seen1)].
  apply negb_false_iff in H1. unfold ValidateModelMetadata in H1. bsplit. done.
Qed.

Lemma providers_Ok np kvs provs ids provs' ids' :
  providers_loop np kvs provs ids = Ok (provs', ids') →
  (∀ n, is_Some (ids !! n) ↔ is_Some (provs !! n)) → ∀ n, is_Some (ids' !! n) ↔ is_Some (provs' !! n).
Proof.
  revert provs ids. induction kvs as [|[n p] kvs IH]; intros provs ids; cbn [providers_loop].
  { by intros [= <- <-]. }
  destruct (np n p) as [pv|]; [|done]. intros H Hd. apply (IH _ _ H). intros k.
  rewrite !lookup_insert_is_Some. by rewrite Hd.
Qed.

Lemma unpriced_None kvs tbl m mc t :
  unpriced_pairs kvs tbl = [] → (m, mc) ∈ kvs → t ∈ mc_Targets mc →
  HasRate tbl (t_Provider t) (t_Model t) = true.
Proof.
  unfold unpriced_pairs.
  set (inner := λ out t, if HasRate tbl (t_Provider t) (t_Model t) then out else
     let pair := t_Provider t +:+ "/" +:+ t_Model t in if contains pair out then out else out ++ [pair]).
  assert (∀ ts out, foldl inner out ts = [] → out = [] ∧ ∀ t, t ∈ ts → HasRate tbl (t_Provider t) (t_Model t) = true) as Hin.
  { induction ts as [|t' ts IH]; intros out; cbn [foldl]; [by intros ->; split; [|intros ? []%elem_of_nil]|].
    intros [Ho Hts]%IH. unfold inner in Ho. destruct (HasRate tbl (t_Provider t') (t_Model t')) eqn:E.
    - split; [done|]. intros t0 [->|?]%elem_of_cons; auto.
    - cbv zeta in Ho. destruct (contains _ out) eqn:Ec; [|by destruct out]. subst out. done. }
  assert (∀ (kvs : list (string * ModelConfig)) out, foldl (λ out kv, foldl inner out (mc_Targets kv.2)) out kvs = [] → out = [] ∧
    ∀ m mc t, (m, mc) ∈ kvs → t ∈ mc_Targets mc → HasRate tbl (t_Provider t) (t_Model t) = true) as Hout.
  { induction kvs0 as [|[m' mc'] kvs0 IH]; intros out; cbn [foldl]; [by intros ->; split; [|intros ??? []%elem_of_nil]|].
    intros [Ho Hk]%IH. apply Hin in Ho as [-> Ht]. split; [done|].
    intros m0 mc0 t0 [[= -> ->]|?]%elem_of_cons; eauto. }
  intros H Hm Ht. by apply (proj2 (Hout kvs [] H) m mc t).
Qed.

Lemma build_wf range range_pc np cfg st ids :
  (∀ ms, range ms ≡ₚ map_to_list ms) → (∀ ps, range_pc ps ≡ₚ map_to_list ps) →
  BuildState range range_pc np cfg = Ok (st, ids) → topology_wf st.
Proof.
  intros Hr Hp H. unfold BuildState in H.
  apply bind_Ok in H as ([] & Hb & H). apply bind_Ok in H as (seen & Ha & H).
  apply bind_Ok in H as ([provs ids'] & Hpr & H). apply bind_Ok in H as ([] & Hro & H).
  apply bind_Ok in H as ([] & Hv & H). injection H as <- <-.
  assert (∀ m mc, cfg_Models cfg !! m = Some mc ↔ (m, mc) ∈ range (cfg_Models cfg)) as Hm.
  { intros m mc. by rewrite Hr, elem_of_map_to_list. }
  pose proof Ha as Ha'. apply aliases_loop_Ok in Ha' as [Hnd Hal]; [|constructor].
  assert (∀ a m, foldl add_aliases ∅ (range (cfg_Models cfg)) !! a = Some m ↔
            ∃ mc, cfg_Models cfg !! m = Some mc ∧ a ∈ mc_Aliases mc) as Hlk.
  { intros a m. rewrite aliases_lookup by done. setoid_rewrite Hm. rewrite lookup_empty. naive_solver. }
  split; simpl.
  - intros m mc t Hmc Ht. apply Hm in Hmc. by apply (routes_Ok _ _ _ _ _ Hro Hmc).
  - exact Hlk.
  - intros a [m Hx]. apply Hlk in Hx as (mc & Hmc & Hin). apply Hal, list_elem_of_bind.
    exists (m, mc). split; [done|by apply Hm].
  - intros n. apply (providers_Ok _ _ _ _ _ _ Hpr). intros k. by rewrite !lookup_empty.
  - intros n pc Hpc. apply contains_spec. apply (boundaries_Ok _ n pc Hb). by rewrite Hp, elem_of_map_to_list.
  - intros m mc Hmc. apply Hm in Hmc. by apply (metadata_Ok _ _ _ _ _ _ Ha Hmc).
  - intros m mc t Hmc Ht Hblock. specialize (Hblock _ eq_refl).
    apply bind_Ok in Hv as ([] & _ & Hv). rewrite Hblock in Hv. cbv zeta in Hv. case_bool_decide as Hu; [|done].
    apply Hm in Hmc. apply (unpriced_None (range (cfg_Models cfg)) (Some (cfg_Table cfg)) m mc t); [|done|done].
    apply Permutation_nil_r. rewrite <- Hu. unfold UnpricedTargets. by rewrite merge_sort_Permutation.
Qed.

(** C37: A published generation is well formed.  If a configuration builds, every
    target of every route names a built provider; an alias resolves to exactly
    the model that declares it and is never itself a model name; every provider
    has a breaker identity; boundaries are from the closed set; context windows
    are not negative; and when pricing is set to block unpriced traffic, every
    route has a rate. *)
Theorem BuildState_wf range range_pc np cfg st ids :
  (∀ ms, range ms ≡ₚ map_to_list ms) → (∀ ps, range_pc ps ≡ₚ map_to_list ps) →
  BuildState range range_pc np cfg = Ok (st, ids) → topology_wf st.
Proof. apply build_wf. Qed.

(** ** The family fallback *)

(** Padded with zeros, versions compare as infinite words. *)
Definition digit (v : list Z) (i : nat) : Z := nth i v 0.

(** The first differing component decides. *)
Definition below (a b : list Z) : Prop :=
  ∃ i, digit a i < digit b i ∧ ∀ j, (j < i)%nat → digit a j = digit b j.
Definition same_version (a b : list Z) : Prop := ∀ i, digit a i = digit b i.

Lemma below_cons x y a b :
  below (x :: a) (y :: b) ↔ x < y ∨ x = y ∧ below a b.
Proof.
  split.
  - intros ([|i] & Hlt & Hj); [by left|]. pose proof (Hj 0%nat ltac:(lia)) as H0. right. split; [done|].
    exists i. split; [done|]. intros j Hji. apply (Hj (S j)). lia.
  - intros [Hlt|[-> (i & Hlt & Hj)]]; [exists 0%nat; split; [done|lia]|].
    exists (S i). split; [done|]. intros [|j] Hji; [done|]. apply Hj. lia.
Qed.

Lemma same_cons x y a b : same_version (x :: a) (y :: b) ↔ x = y ∧ same_version a b.
Proof.
  split; [intros H; split; [apply (H 0%nat)|intros i; apply (H (S i))]|].
  intros [-> H] [|i]; [done|apply H].
Qed.

Definition decides (c : Z) (a b : list Z) : Prop :=
  (c = 0 ∧ same_version a b) ∨ (c = -1 ∧ below a b) ∨ (c = 1 ∧ below b a).

Lemma decides_cons c x y a b : x = y → decides c a b → decides c (x :: a) (y :: b).
Proof. intros ->. unfold decides. rewrite same_cons, !below_cons. tauto. Qed.

Lemma nil_zero : (∀ a, below [0] a ↔ below [] a) ∧ (∀ a, below a [0] ↔ below a []) ∧
  (∀ a, same_version [0] a ↔ same_version [] a) ∧ (∀ a, same_version a [0] ↔ same_version a []).
Proof.
  assert (∀ i, digit [0] i = digit [] i) as E by (intros [|[|]]; done).
  unfold below, same_version. split_and!; intros a; by setoid_rewrite E.
Qed.

(** [compareVersions] compares versions of any lengths, missing components zero. *)
Lemma compareVersions_decides a b : decides (compareVersions a b) a b.
Proof.
  assert (∀ b, decides (right_sign b) [] b) as Hr.
  { induction b0 as [|y b0 IH]; [by left|]. cbn [right_sign].
    assert (∀ c, decides c [0] (y :: b0) → decides c [] (y :: b0)) as Hz.
    { intros c. unfold decides. destruct nil_zero as (-> & -> & -> & _). done. }
    apply Hz. destruct (0 =? y) eqn:E; bsplit; [by apply decides_cons|].
    unfold decides. rewrite !below_cons. destruct (0 <? y) eqn:E2; bsplit; [|right; right; lia].
    right; left. lia. }
  revert b. induction a as [|x a IH]; intros b; [apply Hr|].
  destruct b as [|y b]; cbn [compareVersions].
  - assert (∀ c, decides c (x :: a) [0] → decides c (x :: a) []) as Hz.
    { intros c. unfold decides. destruct nil_zero as (-> & -> & _ & ->). done. }
    apply Hz. destruct (x =? 0) eqn:E; bsplit; [by apply decides_cons|].
    unfold decides. rewrite !below_cons. destruct (x <? 0) eqn:E2; bsplit; lia.
  - destruct (x =? y) eqn:E; bsplit; [by apply decides_cons|].
    unfold decides. rewrite !below_cons. destruct (x <? y) eqn:E2; bsplit; lia.
Qed.

Lemma below_trichotomy a b :
  (below a b → ¬ below b a) ∧ (same_version a b → ¬ below a b ∧ ¬ below b a).
Proof.
  split.
  - intros (i & Hi & Hj) (i' & Hi' & Hj'). destruct (Nat.lt_trichotomy i i') as [H|[->|H]]; [|lia|].
    + specialize (Hj' i H). lia.
    + specialize (Hj i' H). lia.
  - intros H. split; intros (i & Hi & _); specialize (H i); lia.
Qed.

Lemma compare_below a b : compareVersions a b < 0 ↔ below a b.
Proof.
  destruct (below_trichotomy a b) as [H1 H2].
  destruct (compareVersions_decides a b) as [[-> Hd]|[[-> Hd]|[-> Hd]]]; split; try lia; try done.
  - intros Hb. by destruct (proj1 (H2 Hd)).
  - intros Hb. by destruct (H1 Hb).
Qed.

Lemma compare_above a b : 0 < compareVersions a b ↔ below b a.
Proof.
  destruct (below_trichotomy a b) as [H1 H2].
  destruct (compareVersions_decides a b) as [[-> Hd]|[[-> Hd]|[-> Hd]]]; split; try lia; try done.
  - intros Hb. by destruct (proj2 (H2 Hd)).
  - intros Hb. by destruct (H1 Hd).
Qed.

Lemma below_trans a b c : below a b → below b c → below a c.
Proof.
  intros (i & Hi & Hj) (k & Hk & Hl). destruct (Nat.lt_trichotomy i k) as [H|[->|H]].
  - exists i. rewrite <- (Hl i H). split; [done|]. intros j Hji. rewrite Hj by done. apply Hl. lia.
  - exists k. split; [lia|]. intros j Hjk. rewrite Hj by done. by apply Hl.
  - exists k. rewrite (Hj k H). split; [done|]. intros j Hjk. rewrite Hj by lia. by apply Hl.
Qed.

Lemma not_below_trans a b c : ¬ below b a → below b c → below a c.
Proof.
  intros Hn Hbc. destruct (compareVersions_decides a b) as [[_ Hd]|[[_ Hd]|[_ Hd]]]; [|by eapply below_trans|done].
  destruct Hbc as (i & Hi & Hj). exists i. rewrite Hd. split; [done|]. intros j Hji. rewrite Hd. by apply Hj.
Qed.

(** A routed model of the family, of a version strictly below. *)
Definition candidate (st : State) (family : string) (version : list Z) (name : string) (v : list Z) : Prop :=
  is_Some (models st !! name) ∧ familyOf name = Some (family, v) ∧ below v version.

(** The running best of the scan over [seen]. *)
Definition best_of (st : State) (family : string) (version : list Z) (seen : list string)
    (best : option (string * list Z)) : Prop :=
  match best with
  | None => ∀ name v, name ∈ seen → ¬ candidate st family version name v
  | Some (name, v) => candidate st family version name v ∧
      ∀ name' v', name' ∈ seen → candidate st family version name' v' → ¬ below v v'
  end.

Lemma better_version_best st family version seen best name :
  is_Some (models st !! name) → best_of st family version seen best →
  best_of st family version (seen ++ [name]) (better_version family version best name).
Proof.
  intros Hm Hb. unfold better_version. destruct (familyOf name) as [[f v]|] eqn:Ef.
  2: { destruct best as [[n0 v0]|]; simpl in *.
       - destruct Hb as [Hc Hmax]. split; [done|]. intros n' v' [Hin|Hin]%elem_of_app; [by apply Hmax|].
         apply list_elem_of_singleton in Hin as ->. intros (_ & E & _). congruence.
       - intros n' v' [Hin|Hin]%elem_of_app; [by apply Hb|].
         apply list_elem_of_singleton in Hin as ->. intros (_ & E & _). congruence. }
  destruct (negb (bool_decide (f = family)) || (0 <=? compareVersions v version))%bool eqn:E.
  - assert (∀ v', ¬ candidate st family version name v') as Hno.
    { intros v' (_ & E1 & E2). rewrite Ef in E1. injection E1 as -> <-. apply compare_below in E2. bcases; [done|lia]. }
    destruct best as [[n0 v0]|]; simpl in *.
    + destruct Hb as [Hc Hmax]. split; [done|]. intros n' v' [Hin|Hin]%elem_of_app; [by apply Hmax|].
      apply list_elem_of_singleton in Hin as ->. intros Hc'. by destruct (Hno v').
    + intros n' v' [Hin|Hin]%elem_of_app; [by apply Hb|]. by apply list_elem_of_singleton in Hin as ->.
  - bsplit. subst f. apply compare_below in H0.
    assert (candidate st family version name v) as Hc by (by split_and!).
    assert (∀ v', candidate st family version name v' → v' = v) as Huniq.
    { intros v' (_ & E1 & _). congruence. }
    pose proof (proj2 (below_trichotomy v v)) as Hirr.
    destruct best as [[n0 v0]|]; simpl in *.
    + destruct Hb as [Hc0 Hmax]. destruct (0 <? compareVersions v v0) eqn:E2; bsplit.
      * apply compare_above in E2. split; [done|]. intros n' v' [Hin|Hin]%elem_of_app Hc' Hb'.
        -- destruct (Hmax _ _ Hin Hc'). by eapply below_trans.
        -- apply list_elem_of_singleton in Hin as ->. rewrite (Huniq _ Hc') in Hb'. by apply Hirr in Hb'.
      * split; [done|]. intros n' v' [Hin|Hin]%elem_of_app Hc'; [by eapply Hmax|].
        apply list_elem_of_singleton in Hin as ->. rewrite (Huniq _ Hc'). rewrite <- compare_above. lia.
    + split; [done|]. intros n' v' [Hin|Hin]%elem_of_app Hc' Hb'; [by destruct (Hb n' v')|].
      apply list_elem_of_singleton in Hin as ->. rewrite (Huniq _ Hc') in Hb'. by apply Hirr in Hb'.
Qed.

Lemma best_version_spec range st family version :
  (∀ ms, range ms ≡ₚ map_to_list ms) →
  best_of st family version (range (models st)).*1 (best_version range st family version).
Proof.
  intros Hr. unfold best_version.
  assert (∀ (kvs : list (string * ModelConfig)) best seen, (∀ kv, kv ∈ kvs → is_Some (models st !! kv.1)) →
    best_of st family version seen best →
    best_of st family version (seen ++ kvs.*1)
      (foldl (λ best kv, better_version family version best kv.1) best kvs)) as Hf.
  { induction kvs as [|kv kvs IH]; intros best seen Hk Hb; cbn [foldl fmap list_fmap]; [by rewrite app_nil_r|].
    rewrite cons_middle, app_assoc. apply IH.
    - intros kv' Hin. apply Hk, elem_of_cons. by right.
    - apply better_version_best; [apply Hk, list_elem_of_here|done]. }
  apply (Hf (range (models st)) None []).
  - intros [k mc]. rewrite Hr, elem_of_map_to_list. intros Hk. by exists mc.
  - intros n v []%elem_of_nil.
Qed.

Lemma candidate_seen range st family version name v :
  (∀ ms, range ms ≡ₚ map_to_list ms) → candidate st family version name v → name ∈ (range (models st)).*1.
Proof.
  intros Hr ([mc Hm] & _). apply list_elem_of_fmap. exists (name, mc). split; [done|].
  by rewrite Hr, elem_of_map_to_list.
Qed.

Lemma candidate_named st family version name v : candidate st family version name v → name ≠ "".
Proof. intros (_ & Hf & _) ->. vm_compute in Hf. done. Qed.

(** The family fallback serves the nearest older model.  Without an explicit
    entry, and with the heuristic on, what is served for a versioned name is a
    routed model of the same family whose version is below the requested one and
    that no other routed model of the family below it exceeds; nothing is served
    only when there is no such model.  With no two routed models of equal version
    (like m-4 and m-4-0) the answer does not depend on the order in which the
    routes are visited. *)
Theorem FallbackSource_family range range' st model family version :
  (∀ ms, range ms ≡ₚ map_to_list ms) → (∀ ms, range' ms ≡ₚ map_to_list ms) →
  fallbacks st !! model = None → fallbackFamily st = true → familyOf model = Some (family, version) →
  (match FallbackSource range st model with
   | (served, source) =>
       if decide (source = "family")
       then ∃ v, candidate st family version served v ∧
              ∀ name' v', candidate st family version name' v' → ¬ below v v'
       else served = "" ∧ source = "" ∧ ∀ name v, ¬ candidate st family version name v
   end) ∧
  ((∀ n n' v v', candidate st family version n v → candidate st family version n' v' →
      same_version v v' → n = n') →
   FallbackSource range st model = FallbackSource range' st model).
Proof.
  intros Hr Hr' Hn Hf Hm. unfold FallbackSource. rewrite Hn, Hf, Hm.
  pose proof (best_version_spec range st family version Hr) as Hb.
  pose proof (best_version_spec range' st family version Hr') as Hb'.
  destruct (best_version range st family version) as [[n v]|] eqn:Eb; simpl in Hb.
  - destruct Hb as [Hc Hmax]. pose proof (candidate_named _ _ _ _ _ Hc) as Hne.
    rewrite bool_decide_eq_false_2 by done. split.
    + rewrite decide_True by done. exists v. split; [done|]. intros n' v' Hc'.
      apply (Hmax n'); [by eapply candidate_seen|done].
    + intros Huniq. destruct (best_version range' st family version) as [[n' v']|]; simpl in Hb'.
      * destruct Hb' as [Hc' Hmax']. rewrite bool_decide_eq_false_2 by by eapply candidate_named.
        f_equal. apply (Huniq n n' v v'); [done..|].
        pose proof (Hmax n' v' (candidate_seen _ _ _ _ _ _ Hr Hc') Hc').
        pose proof (Hmax' n v (candidate_seen _ _ _ _ _ _ Hr' Hc) Hc).
        destruct (compareVersions_decides v v') as [[_ ?]|[[_ ?]|[_ ?]]]; done.
      * by destruct (Hb' n v (candidate_seen _ _ _ _ _ _ Hr' Hc)).
  - assert (∀ n v, ¬ candidate st family version n v) as Hno.
    { intros n v Hc. by apply (Hb n v); [eapply candidate_seen|]. }
    split; [by rewrite decide_False|]. intros _.
    destruct (best_version range' st family version) as [[n' v']|]; [|done].
    destruct Hb' as [Hc' _]. by destruct (Hno n' v').
Qed.

(** ** Witnesses *)

Definition demo_model (als : list string) (ts : list Target) : ModelConfig :=
  {| mc_Capabilities := ["tools"]; mc_Aliases := als; mc_Targets := ts; mc_ContextWindow := 200000 |}.
Definition demo_target (p m : string) : Target := {| t_Provider := p; t_Model := m; t_API := "" |}.

Definition demo_config : Config :=
  {| cfg_Providers := {[ "bedrock" := {| pc_Type := "bedrock"; pc_BaseURL := ""; pc_Region := "eu-west-1";
                                         pc_DataBoundary := "internal" |} ]};
     cfg_Models := {[ "glm-5" := demo_model ["glm"] [demo_target "bedrock" "us.zai.glm-5"];
                      "glm-4-7" := demo_model ["old"] [demo_target "bedrock" "zai.glm-5"] ]};
     cfg_Overrides := [("bedrock", ["zai.glm-5"])]; cfg_Table := default (New OnMissingBlock ∅) demo_table;
     cfg_Fallbacks := {[ "legacy" := "old" ]}; cfg_FallbackFamily := true |}.

Definition demo_provider (name : string) (pc : ProviderConfig) : option Provider :=
  Some {| pv_Name := pc_Type pc; pv_SupportsIngress := None; pv_SupportsBedrockConverse := None |}.

Definition empty_state : State :=
  {| providers := ∅; models := ∅; aliases := ∅; pricing := None; identities := ∅; providerConfigs := ∅;
     fallbacks := ∅; fallbackFamily := false |}.

Definition demo_state : State :=
  match BuildState map_to_list map_to_list demo_provider demo_config with
  | Ok (st, _) => st
  | Err _ => empty_state
  end.

Lemma demo_state_wf : topology_wf demo_state.
Proof.
  apply (build_wf map_to_list map_to_list demo_provider demo_config demo_state
           {[ "bedrock" := identityOf "bedrock" {| pc_Type := "bedrock"; pc_BaseURL := ""; pc_Region := "";
                                                    pc_DataBoundary := "" |} ]}); [reflexivity..|].
  vm_compute. reflexivity.
Qed.

Lemma BuildState_wf_witness :
  Canonical demo_state "glm" = "glm-5" ∧ topology_wf demo_state.
Proof.
  split; [vm_compute; reflexivity|].
  apply (BuildState_wf map_to_list map_to_list demo_provider demo_config demo_state
           {[ "bedrock" := identityOf "bedrock" {| pc_Type := "bedrock"; pc_BaseURL := ""; pc_Region := "";
                                                    pc_DataBoundary := "" |} ]}); [reflexivity..|].
  vm_compute. reflexivity.
Defined.

Lemma FallbackSource_family_witness :
  FallbackSource map_to_list demo_state "glm-6" = ("glm-5", "family") ∧
  ∃ v, candidate demo_state "glm" [6] "glm-5" v ∧
    ∀ name' v', candidate demo_state "glm" [6] name' v' → ¬ below v v'.
Proof.
  assert (FallbackSource map_to_list demo_state "glm-6" = ("glm-5", "family")) as E by (vm_compute; reflexivity).
  split; [exact E|].
  pose proof (proj1 (FallbackSource_family map_to_list map_to_list demo_state "glm-6" "glm" [6]
    (λ _, reflexivity _) (λ _, reflexivity _) ltac:(vm_compute; reflexivity) ltac:(vm_compute; reflexivity)
    ltac:(vm_compute; reflexivity))) as Hw.
  exact Hw.
Defined.

(** Two routes of equal version: the order in which they are visited decides. *)
Definition tied_state : State :=
  {| providers := ∅; models := {[ "m-4" := no_model; "m-4-0" := no_model ]}; aliases := ∅; pricing := None;
     identities := ∅; providerConfigs := ∅; fallbacks := ∅; fallbackFamily := true |}.

Lemma FallbackSource_tie :
  FallbackSource map_to_list tied_state "m-5" ≠ FallbackSource (λ ms, rev (map_to_list ms)) tied_state "m-5".
Proof. vm_compute. discriminate. Qed.
