(* ===== verification/Router.v ===== *)
(** * Model resolution (internal/router/{router,descriptor,fallback_log}.go)

    Resolves a requested model to an ordered chain of provider targets: aliases
    and fallbacks, the key's allow-list and the policy gate, budget-tier
    substitution, region filters, the circuit breaker.  The gates are installed
    at startup ([Gates]); what changes is the published generation, the breaker,
    the fallback log and the gauge ([Router]).  An operation loads one generation:
    a reload happens between operations. *)

From S2P Require Import Prelude GoTime Breaker Live.

(** ** Data *)

(** keystore.Principal, as far as routing reads it. *)
Record Principal := {
  pr_KeyID : string; pr_Team : string; pr_AllowedModels : list string; pr_Owner : string;
  pr_SnapshotRegions : option (list string)
}.

Definition AccountSubject (p : Principal) : string := pr_Owner p.

Definition Principal_Allows (p : Principal) (model : string) : bool :=
  existsb (λ m, (String.eqb m "*" || String.eqb m model)%bool) (pr_AllowedModels p).

(** The startup-installed hooks. *)
Record Gates := {
  policyGate : option (Principal → string → (string → string) → bool);
  tierGate : option (Principal → gmap string string);
  budgetConstraintGate : option (Principal → gmap string string)
}.

Definition SetPolicyGate gate (g : Gates) : Gates :=
  {| policyGate := gate; tierGate := tierGate g; budgetConstraintGate := budgetConstraintGate g |}.
Definition SetTierGate gate (g : Gates) : Gates :=
  {| policyGate := policyGate g; tierGate := gate; budgetConstraintGate := budgetConstraintGate g |}.
Definition SetBudgetConstraintGate gate (g : Gates) : Gates :=
  {| policyGate := policyGate g; tierGate := tierGate g; budgetConstraintGate := gate |}.

Record ChainTarget := {
  ct_Provider : Provider; ct_ProviderName : string; ct_Identity : string; ct_Upstream : string;
  ct_Model : string; ct_Region : string; ct_DataBoundary : string
}.

(** ** The fallback log *)

Definition maxFallbackLogPairs : Z := 256.
Definition maxFallbackLogName : nat := 128.

Record fallbackLog := { seen : gset (string * string); capped : bool; lines : list string }.

(** [log.Printf] appends to [lines]: who was served, or that the log is capped. *)
Definition note (requested served source : string) (l : fallbackLog) : fallbackLog :=
  let requested := String.substring 0 maxFallbackLogName requested in
  let key := (requested, served) in
  if bool_decide (key ∈ seen l) then l
  else if maxFallbackLogPairs <=? Z.of_nat (size (seen l)) then
    if capped l then l
    else {| seen := seen l; capped := true; lines := lines l ++ ["capped"] |}
  else {| seen := {[ key ]} ∪ seen l; capped := capped l;
          lines := lines l ++ [source +:+ " " +:+ requested +:+ " " +:+ served] |}.

(** ** The router's state *)

Record Router := {
  r_live : Live.State;
  r_brk : breaker;
  r_log : fallbackLog;
  r_circuit : gmap string Z;
  r_fallbacks : list (string * string)
}.

Definition on_brk {A} (m : ST breaker A) : ST Router A := λ r,
  let '(a, b) := m (r_brk r) in
  (a, {| r_live := r_live r; r_brk := b; r_log := r_log r; r_circuit := r_circuit r;
         r_fallbacks := r_fallbacks r |}).

(** The counter is [metrics.ObserveModelFallback]. *)
Definition ObserveModelFallback (requested served source : string) : ST Router unit := λ r,
  (tt, {| r_live := r_live r; r_brk := r_brk r; r_log := note requested served source (r_log r);
          r_circuit := r_circuit r; r_fallbacks := r_fallbacks r ++ [(source, served)] |}).

Definition SetCircuitState (name : string) (n : Z) : ST Router unit := λ r,
  (tt, {| r_live := r_live r; r_brk := r_brk r; r_log := r_log r;
          r_circuit := <[name := n]> (r_circuit r); r_fallbacks := r_fallbacks r |}).

(** A hot reload publishes a generation. *)
Definition Swap (st : Live.State) : ST Router unit := λ r,
  (tt, {| r_live := st; r_brk := r_brk r; r_log := r_log r; r_circuit := r_circuit r;
          r_fallbacks := r_fallbacks r |}).

Definition RecordResult (providerName identity : string) (ok : bool) : ST Router unit :=
  _ ← on_brk (if ok then RecordSuccess identity else RecordFailure identity);
  n ← on_brk (Breaker.State identity);
  SetCircuitState providerName n.

Definition RetainBreakers (ids : list (string * string)) : ST Router unit :=
  on_brk (Retain (list_to_map (map (λ kv, (kv.2, true)) ids))).

(** ** Resolution *)

Section Resolve.
(** The order in which [range] visits the routes. *)
Context (range : gmap string ModelConfig → list (string * ModelConfig)).

Definition Router_Canonical (r : Router) (model : string) : string := Canonical (r_live r) model.

Definition ContextWindow (r : Router) (model : string) : Z :=
  match models (r_live r) !! Canonical (r_live r) model with Some mc => mc_ContextWindow mc | None => 0 end.

Definition ResolveModelSource (r : Router) (requested : string) : string * string :=
  let st := r_live r in
  let canonical := Canonical st requested in
  match Route st canonical with
  | Some _ => (canonical, "")
  | None =>
      let '(fb, source) := FallbackSource range st canonical in
      if bool_decide (fb = "") then (canonical, "") else (fb, source)
  end.

Definition ResolveModel (r : Router) (requested : string) : string * bool :=
  let '(served, source) := ResolveModelSource r requested in (served, negb (bool_decide (source = ""))).

(** The allow-list, its aliases resolved, then the policy gate. *)
Definition allowsInState (g : Gates) (p : Principal) (model : string) (st : Live.State) : bool :=
  ((Principal_Allows p model
    || existsb (λ name, String.eqb (Canonical st name) model) (pr_AllowedModels p))
   && match policyGate g with None => true | Some gate => gate p model (Canonical st) end)%bool.

Definition Allows (g : Gates) (r : Router) (p : Principal) (model : string) : bool :=
  allowsInState g p model (r_live r).

Definition SubstituteTier (g : Gates) (r : Router) (p : Principal) (canonical : string) : string * bool :=
  match tierGate g with
  | None => (canonical, false)
  | Some gate =>
      if negb (Allows g r p canonical) then (canonical, false)
      else match gate p !! canonical with
           | None => (canonical, false)
           | Some target =>
               if bool_decide (target = "") then (canonical, false)
               else
                 let st := r_live r in
                 let target := Canonical st target in
                 if bool_decide (target = canonical) then (canonical, false)
                 else match Route st target with
                      | None => (canonical, false)
                      | Some _ => if negb (Allows g r p target) then (canonical, false) else (target, true)
                      end
           end
  end.

Inductive ResolveError := NoRoute (model : string) | UnknownProviders (model : string).

(** The target of a route, its provider captured from the generation. *)
Definition chain_target (st : Live.State) (model : string) (t : Target) : option ChainTarget :=
  p ← State_Provider st (t_Provider t);
  Some {| ct_Provider := p; ct_ProviderName := t_Provider t;
          ct_Identity := default "" (Identity st (t_Provider t)); ct_Upstream := t_Model t; ct_Model := model;
          ct_Region := Region st (t_Provider t); ct_DataBoundary := DataBoundary st (t_Provider t) |}.

Definition chain_of (st : Live.State) (model : string) : list ChainTarget :=
  match Route st model with Some mc => omap (chain_target st model) (mc_Targets mc) | None => [] end.

Definition configuredChain (st : Live.State) (model : string) : result ResolveError (list ChainTarget) :=
  match Route st model with
  | None => Err (NoRoute model)
  | Some mc =>
      bool_decide (mc_Targets mc = []) !> NoRoute model;;
      let fb := Canonical st (FallbackFor range st model) in
      let ms := model ::
        (if (bool_decide (fb = "") || bool_decide (fb = model))%bool then []
         else match Route st fb with
              | Some fbmc => if bool_decide (mc_Targets fbmc = []) then [] else [fb]
              | None => []
              end) in
      let all := ms ≫= chain_of st in
      bool_decide (all = []) !> UnknownProviders model;;
      mret all
  end.

(** The targets whose breaker allows a call, in order. *)
Fixpoint healthy (all : list ChainTarget) : ST Router (list ChainTarget) :=
  match all with
  | [] => mret []
  | ct :: all =>
      ok ← on_brk (Breaker.Allow (ct_Identity ct));
      rest ← healthy all;
      mret (if (ok : bool) then ct :: rest else rest)
  end.

Definition ResolveChain (model : string) : ST Router (result ResolveError (list ChainTarget)) :=
  r ← st_get;
  match configuredChain (r_live r) model with
  | Err e => mret (Err e)
  | Ok all =>
      allowed ← healthy all;
      mret (Ok (if bool_decide (length allowed = 0%nat) then all else allowed))
  end.

(** [Resolve] and [ResolveProvider]: the first target of the route. *)
Definition ResolveProvider (r : Router) (model : string) : result ResolveError (Provider * string * string) :=
  match Route (r_live r) model with
  | None => Err (NoRoute model)
  | Some mc =>
      match mc_Targets mc with
      | [] => Err (NoRoute model)
      | t :: _ =>
          match State_Provider (r_live r) (t_Provider t) with
          | None => Err (UnknownProviders model)
          | Some p => Ok (p, t_Provider t, t_Model t)
          end
      end
  end.
Definition Resolve (r : Router) (model : string) : result ResolveError (Provider * string) :=
  '(p, _, upstream) ← ResolveProvider r model; mret (p, upstream).

Definition AllModels (r : Router) : list string := (range (models (r_live r))).*1.

(** ** Filters *)

Definition FilterModelAllowed (chain : list ChainTarget) (allowed : string → bool) : list ChainTarget :=
  match chain with
  | [] => []
  | ct0 :: _ =>
      filter (λ ct, (String.eqb (ct_Model ct) (ct_Model ct0) || allowed (ct_Model ct))%bool = true) chain
  end.

Definition FilterRegions (chain : list ChainTarget) (allowed : list string) : list ChainTarget :=
  if bool_decide (allowed = []) then chain
  else filter (λ ct, (negb (bool_decide (ct_Region ct = "")) && contains (ct_Region ct) allowed)%bool = true) chain.

(** ** The catalog *)

Record ModelDescriptor := {
  md_Name : string; md_ContextWindow : Z; md_Capabilities : list string; md_Targets : list ChainTarget
}.

Definition describe (g : Gates) (p : option Principal) (st : Live.State) (name : string) : option ModelDescriptor :=
  let allowed m := match p with None => true | Some p => allowsInState g p m st end in
  if negb (allowed name) then None
  else
    let mc := default no_model (Route st name) in
    let chain := match configuredChain st name with Ok c => c | Err _ => [] end in
    let regions := match p with Some p => default [] (pr_SnapshotRegions p) | None => [] end in
    Some {| md_Name := name; md_ContextWindow := mc_ContextWindow mc; md_Capabilities := mc_Capabilities mc;
            md_Targets := FilterRegions
              (filter (λ ct, (is_Some_b (models st !! ct_Model ct) && allowed (ct_Model ct))%bool = true) chain) regions |}.

Definition DescribeModels (g : Gates) (r : Router) (p : option Principal) : list ModelDescriptor :=
  let st := r_live r in
  omap (describe g p st) (merge_sort str_le (range (models st)).*1).
End Resolve.

(** ** Budget-tier substitution narrows only *)

Section Theorems.
Context (range : gmap string ModelConfig → list (string * ModelConfig)).

(** Budget-tier substitution can only narrow.  A request for a model the key may
    not reach is left alone; a substitution serves a routed model, other than the
    requested one, that the tier map names (through its alias) and that the key
    and the policy gate allow; so whatever comes out is allowed whenever what
    went in was, and a substitution never turns into a denial. *)
Theorem SubstituteTier_narrows g r p model :
  let '(served, substituted) := SubstituteTier g r p model in
  (Allows g r p model = true → Allows g r p served = true) ∧
  if substituted
  then Allows g r p model = true ∧ served ≠ model ∧ is_Some (Route (r_live r) served) ∧
       ∃ gate target, tierGate g = Some gate ∧ gate p !! model = Some target ∧ target ≠ "" ∧
         served = Canonical (r_live r) target
  else served = model.
Proof.
  unfold SubstituteTier. destruct (tierGate g) as [gate|] eqn:Eg; [|done].
  destruct (Allows g r p model) eqn:Ea; cbn [negb]; [|done].
  destruct (gate p !! model) as [target|] eqn:Et; [|done].
  case_bool_decide; [done|]. case_bool_decide; [done|].
  destruct (Route _ _) as [mc|] eqn:Er; [|done].
  destruct (Allows g r p (Canonical (r_live r) target)) eqn:Ea2; cbn [negb]; [|done].
  split; [done|]. split; [done|]. split; [done|]. split; [by rewrite Er|]. by exists gate, target.
Qed.

(** ** Resolving a chain *)

(** [healthy] consults the breaker once per target, in order. *)
Lemma healthy_spec all r :
  wp (healthy all) (λ allowed r', r_live r' = r_live r ∧ sublist allowed all ∧
    (∀ ct, ct ∈ allowed → ct ∈ all)) r.
Proof.
  revert r. induction all as [|ct all IH]; intros r; cbn [healthy].
  { rewrite wp_ret. done. }
  rewrite wp_bind. unfold on_brk at 1, wp at 1. destruct (Breaker.Allow (ct_Identity ct) (r_brk r)) as [ok b].
  cbn [fst snd]. rewrite wp_bind. eapply wp_mono; [apply IH|]. intros rest r' (Hl & Hs & Hin). rewrite wp_ret.
  split; [done|]. destruct ok; (split; [by constructor|]); intros ct'; rewrite ?elem_of_cons; naive_solver.
Qed.

Lemma chain_of_spec st model ct :
  ct ∈ chain_of st model ↔ ∃ mc t p, Route st model = Some mc ∧ t ∈ mc_Targets mc ∧
    State_Provider st (t_Provider t) = Some p ∧ chain_target st model t = Some ct.
Proof.
  unfold chain_of. destruct (Route st model) as [mc|].
  2: { split; [by intros []%elem_of_nil|]. by intros (? & ? & ? & ? & _). }
  rewrite list_elem_of_omap. split.
  - intros (t & Ht & Hct). pose proof Hct as Hct'. unfold chain_target in Hct'.
    destruct (State_Provider st (t_Provider t)) as [p|] eqn:Ep; [|done]. eauto 10.
  - intros (mc' & t & p & [= <-] & Ht & _ & Hct). eauto.
Qed.

Lemma chain_target_fields st model t ct :
  chain_target st model t = Some ct →
  ct_Model ct = model ∧ ct_ProviderName ct = t_Provider t ∧ ct_Upstream ct = t_Model t ∧
  ct_Region ct = Region st (t_Provider t) ∧ ct_DataBoundary ct = DataBoundary st (t_Provider t) ∧
  State_Provider st (t_Provider t) = Some (ct_Provider ct).
Proof.
  unfold chain_target. destruct (State_Provider st (t_Provider t)) as [p|] eqn:E; [|done].
  by intros [= <-].
Qed.

(** A resolved chain is a nonempty selection of the model's configured targets
    followed by those of its one fallback model, in configured order: no other
    model can appear, and a provider the generation does not know never does.
    Targets whose breaker is open are left out, unless that would leave nothing,
    in which case the whole chain is returned. *)
Theorem ResolveChain_spec model r :
  wp (ResolveChain range model) (λ res r',
    r_live r' = r_live r ∧
    match res with
    | Err _ => chain_of (r_live r) model = [] ∧
               ∀ all, configuredChain range (r_live r) model ≠ Ok all
    | Ok chain => chain ≠ [] ∧ ∃ all, configuredChain range (r_live r) model = Ok all ∧ sublist chain all ∧
        ∀ ct, ct ∈ chain →
          (ct_Model ct = model ∨ ct_Model ct = Canonical (r_live r) (FallbackFor range (r_live r) model)) ∧
          State_Provider (r_live r) (ct_ProviderName ct) = Some (ct_Provider ct) ∧
          ∃ mc t, Route (r_live r) (ct_Model ct) = Some mc ∧ t ∈ mc_Targets mc ∧
            t_Provider t = ct_ProviderName ct ∧ t_Model t = ct_Upstream ct
    end) r.
Proof.
  unfold ResolveChain. rewrite wp_get. set (st := r_live r).
  destruct (configuredChain range st model) as [all|e] eqn:Ec.
  - assert (all ≠ [] ∧ ∀ ct, ct ∈ all → (ct_Model ct = model ∨ ct_Model ct = Canonical st (FallbackFor range st model)) ∧
       ct ∈ chain_of st (ct_Model ct)) as [Hne Hall].
    { unfold configuredChain in Ec. destruct (Route st model) as [mc|] eqn:Er; [|done].
      apply guard_Ok in Ec as [_ Ec]. cbv zeta in Ec. apply guard_Ok in Ec as [Ene Ec]. injection Ec as <-.
      apply bool_decide_eq_false in Ene. split; [exact Ene|]. intros ct Hct0.
      apply (list_elem_of_bind (chain_of st) ct (model :: _)) in Hct0 as (m & Hct & Hm).
      pose proof Hct as (mc' & t & p & _ & _ & _ & Hf)%chain_of_spec.
      apply chain_target_fields in Hf as [-> _]. split; [|done].
      apply elem_of_cons in Hm as [->|Hm]; [by left|]. right.
      repeat case_match; rewrite ?elem_of_nil in Hm; try done. by apply list_elem_of_singleton in Hm. }
    assert (∀ ct, ct ∈ all → State_Provider st (ct_ProviderName ct) = Some (ct_Provider ct) ∧
       ∃ mc t, Route st (ct_Model ct) = Some mc ∧ t ∈ mc_Targets mc ∧
            t_Provider t = ct_ProviderName ct ∧ t_Model t = ct_Upstream ct) as Htop.
    { intros ct Hct. destruct (Hall ct Hct) as [_ (mc & t & p & Hr & Ht & _ & Hf)%chain_of_spec].
      apply chain_target_fields in Hf as (_ & Hn & Hu & _ & _ & Hp). split; [by rewrite Hn|]. eauto 10. }
    rewrite wp_bind. eapply wp_mono; [apply healthy_spec|]. intros allowed r' (Hl & Hs & Hin). rewrite wp_ret.
    split; [done|]. case_bool_decide as Hlen.
    + split; [done|]. exists all. split; [done|]. split; [done|]. intros ct Hct. split; [by apply Hall|by apply Htop].
    + split; [by intros ->|]. exists all. split; [done|]. split; [done|]. intros ct Hct%Hin.
      split; [by apply Hall|by apply Htop].
  - rewrite wp_ret. split; [done|]. split; [|done]. unfold configuredChain in Ec.
    unfold chain_of. destruct (Route st model) as [mc|] eqn:Er; [|done].
    destruct (bool_decide (mc_Targets mc = [])) eqn:E1; bsplit; [by rewrite E1|]. cbn in Ec.
    destruct (bool_decide (_ = [])) eqn:E2; [|done]. bsplit.
    apply app_nil in E2 as [E2 _]. unfold chain_of in E2. by rewrite Er in E2.
Qed.

(** ** The model filter *)

(** The filter is safe exactly when the chain starts with an allowed model. *)
Lemma FilterModelAllowed_safe chain allowed ct0 rest :
  chain = ct0 :: rest → allowed (ct_Model ct0) = true →
  ∀ ct, ct ∈ FilterModelAllowed chain allowed → allowed (ct_Model ct) = true.
Proof.
  intros -> H0 ct [Hc _]%list_elem_of_filter. apply orb_true_iff in Hc as [Hc|Hc]; [|done].
  apply String.eqb_eq in Hc. congruence.
Qed.

(** A request served while every target of its own model is skipped starts with
    the fallback's model, which the filter then takes for the primary one. *)
Lemma FilterModelAllowed_trusts_first chain allowed ct0 rest :
  chain = ct0 :: rest → ct0 ∈ FilterModelAllowed chain allowed.
Proof.
  intros ->. apply list_elem_of_filter. split; [by rewrite String.eqb_refl|apply list_elem_of_here].
Qed.

(** ** Fallbacks to an alias *)

(** An explicit fallback to an alias serves a name without a route.  The
    configuration accepts a model or an alias as the target of a fallback; when
    it is an alias, what is resolved for the unrouted name is the alias itself,
    which no route is keyed by, although the model it stands for is routed. *)
Theorem ResolveModelSource_alias r requested al m :
  topology_wf (r_live r) →
  Route (r_live r) (Canonical (r_live r) requested) = None →
  fallbacks (r_live r) !! Canonical (r_live r) requested = Some al → al ≠ "" →
  aliases (r_live r) !! al = Some m →
  ResolveModelSource range r requested = (al, "model_fallbacks") ∧
  Route (r_live r) al = None ∧ is_Some (Route (r_live r) (Canonical (r_live r) al)).
Proof.
  intros Hwf Hn Hf Hne Ha. unfold ResolveModelSource, FallbackSource. rewrite Hn, Hf.
  rewrite bool_decide_eq_false_2 by done. split; [done|]. split.
  - apply (wf_alias_model _ Hwf). by rewrite Ha.
  - unfold Canonical. rewrite Ha. simpl. apply (wf_alias _ Hwf) in Ha as (mc & Hm & _). by exists mc.
Qed.
End Theorems.

(** ** The fallback log is bounded *)

Record log_inv (l : fallbackLog) : Prop := {
  li_size : Z.of_nat (size (seen l)) <= maxFallbackLogPairs;
  li_lines : length (lines l) = (size (seen l) + if capped l then 1 else 0)%nat
}.

(** Client-chosen names cannot grow the log.  However many fallbacks are
    reported, the process remembers at most 256 distinct pairs, writes one line
    for each and at most one more to say that it stopped. *)
Theorem fallback_log_bounded (reports : list (string * string * string)) :
  log_inv (foldl (λ l '(requested, served, source), note requested served source l)
             {| seen := ∅; capped := false; lines := [] |} reports).
Proof.
  set (l0 := {| seen := ∅; capped := false; lines := [] |}).
  assert (log_inv l0) as H0 by (split; [by vm_compute|done]). revert H0. generalize l0.
  induction reports as [|[[requested served] source] rs IH]; intros l [Hs Hl]; cbn [foldl]; [done|].
  apply IH. unfold note. case_bool_decide as Hin; [done|].
  destruct (maxFallbackLogPairs <=? _) eqn:E; bsplit.
  - destruct (capped l) eqn:Ec; [by split; [|rewrite Ec]|]. split; [done|]. simpl.
    rewrite length_app, Hl. simpl. lia.
  - assert (size ({[(String.substring 0 maxFallbackLogName requested, served)]} ∪ seen l) = S (size (seen l))) as Es.
    { rewrite size_union by set_solver. by rewrite size_singleton. }
    split; simpl; rewrite Es; [lia|]. rewrite length_app, Hl. simpl. lia.
Qed.

(** ** Witnesses *)

Definition demo_router : Router :=
  {| r_live := demo_state; r_brk := newBreaker 5 Second (λ _, 1000 * Second);
     r_log := {| seen := ∅; capped := false; lines := [] |}; r_circuit := ∅; r_fallbacks := [] |}.

Lemma ResolveModelSource_alias_witness :
  ResolveModelSource map_to_list demo_router "legacy" = ("old", "model_fallbacks") ∧
  Route demo_state "old" = None ∧ is_Some (Route demo_state (Canonical demo_state "old")).
Proof.
  apply (ResolveModelSource_alias map_to_list demo_router "legacy" "old" "glm-4-7").
  - exact demo_state_wf.
  - vm_compute. reflexivity.
  - vm_compute. reflexivity.
  - discriminate.
  - vm_compute. reflexivity.
Defined.

(** A key allowed [a] only; [a] falls back to [b]; [a]'s provider has failed. *)
Definition gap_state : Live.State :=
  NewState map_to_list
    {[ "p" := {| pv_Name := "mock"; pv_SupportsIngress := None; pv_SupportsBedrockConverse := None |};
       "q" := {| pv_Name := "mock"; pv_SupportsIngress := None; pv_SupportsBedrockConverse := None |} ]}
    {[ "a" := demo_model [] [demo_target "p" "ua"]; "b" := demo_model [] [demo_target "q" "ub"] ]}
    None {[ "p" := "p-id"; "q" := "q-id" ]}.
Definition gap_router : Router :=
  {| r_live := {| providers := providers gap_state; models := models gap_state; aliases := aliases gap_state;
                  pricing := None; identities := identities gap_state; providerConfigs := ∅;
                  fallbacks := {[ "a" := "b" ]}; fallbackFamily := false |};
     r_brk := {| threshold := 1; baseBackoff := Second; state := ∅; now := λ _, 1000 * Second; reads := 0 |};
     r_log := {| seen := ∅; capped := false; lines := [] |}; r_circuit := ∅; r_fallbacks := [] |}.
Definition no_gates : Gates := {| policyGate := None; tierGate := None; budgetConstraintGate := None |}.
Definition only_a : Principal :=
  {| pr_KeyID := "ik"; pr_Team := "acme"; pr_AllowedModels := ["a"]; pr_Owner := ""; pr_SnapshotRegions := None |}.

(** The allow-list re-check lets the forbidden model through. *)
Lemma FilterModelAllowed_gap :
  let r := (RecordResult "p" "p-id" false gap_router).2 in
  Allows no_gates r only_a "a" = true ∧ Allows no_gates r only_a "b" = false ∧
  match (ResolveChain map_to_list "a" r).1 with
  | Ok chain => map ct_Model (FilterModelAllowed chain (Allows no_gates r only_a)) = ["b"]
  | Err _ => False
  end.
Proof. vm_compute. done. Qed.
