(* ===== verification/Boundary.v ===== *)
(** * The boundary of one request (internal/router/request_routing.go, inspection.go)

    What a request may be sent to, decided on one topology generation: the
    inspection of its body, the restrictions collected so far
    ([requestBoundary]), the filter every planned attempt passes, and the chain
    rebuilt for a model under those restrictions.  The body is a string; the
    inspector, the redactor and the token estimator are the interfaces the code
    calls. *)

From S2P Require Import Prelude GoTime Pricing Breaker Live Router.

(** ** The inspection of a body (sensitivity.Result) *)

Record Inspection := {
  i_Complete : bool; i_SensitiveDataInspected : bool; i_Categories : list string;
  i_InputTokens : Z; i_OutputTokens : Z; i_UserTurns : Z;
  i_HasHistory : bool; i_HasTools : bool; i_HasVision : bool; i_HasReasoning : bool;
  i_HasStructuredOutput : bool; i_HasRemoteTools : bool
}.

Inductive InspectionMode := DetectSensitiveData | StructureOnly.

#[export] Instance InspectionMode_eq_dec : EqDecision InspectionMode.
Proof. solve_decision. Defined.

(** [None] is an error.  Arguments: protocol, body. *)
Record Inspector := {
  ins_Inspect : string → string → option Inspection;
  ins_WithMode : option (string → string → InspectionMode → option Inspection)
}.

(** A full inspection without its evidence is an error; inspectors of the
    original interface promise full inspection. *)
Definition inspectForRoute (ins : Inspector) (protocol raw : string) (mode : InspectionMode) : option Inspection :=
  match ins_WithMode ins with
  | Some f =>
      r ← f protocol raw mode;
      if (bool_decide (mode = DetectSensitiveData) && negb (i_SensitiveDataInspected r))%bool then None else Some r
  | None =>
      r ← ins_Inspect ins protocol raw;
      Some {| i_Complete := i_Complete r; i_SensitiveDataInspected := true; i_Categories := i_Categories r;
              i_InputTokens := i_InputTokens r; i_OutputTokens := i_OutputTokens r; i_UserTurns := i_UserTurns r;
              i_HasHistory := i_HasHistory r; i_HasTools := i_HasTools r; i_HasVision := i_HasVision r;
              i_HasReasoning := i_HasReasoning r; i_HasStructuredOutput := i_HasStructuredOutput r;
              i_HasRemoteTools := i_HasRemoteTools r |}
  end.

(** ** The request *)

(** [RequestRedactor]: protocol and body to the transformed body. *)
Definition Redactor : Type := string → string → option string.

Record RequestRoutingInput := {
  in_Principal : Principal; in_Protocol : string; in_RawBody : string;
  in_RequestedModel : string; in_Model : string; in_Chain : list ChainTarget;
  in_State : option Live.State; in_AllowedRegions : list string; in_CountOnly : bool;
  in_SessionHint : string; in_Redactor : option Redactor; in_Compatible : option (ChainTarget → bool)
}.

Definition with_body (body : string) (i : RequestRoutingInput) : RequestRoutingInput :=
  {| in_Principal := in_Principal i; in_Protocol := in_Protocol i; in_RawBody := body;
     in_RequestedModel := in_RequestedModel i; in_Model := in_Model i; in_Chain := in_Chain i;
     in_State := in_State i; in_AllowedRegions := in_AllowedRegions i; in_CountOnly := in_CountOnly i;
     in_SessionHint := in_SessionHint i; in_Redactor := in_Redactor i; in_Compatible := in_Compatible i |}.
Definition with_model (model : string) (i : RequestRoutingInput) : RequestRoutingInput :=
  {| in_Principal := in_Principal i; in_Protocol := in_Protocol i; in_RawBody := in_RawBody i;
     in_RequestedModel := in_RequestedModel i; in_Model := model; in_Chain := in_Chain i;
     in_State := in_State i; in_AllowedRegions := in_AllowedRegions i; in_CountOnly := in_CountOnly i;
     in_SessionHint := in_SessionHint i; in_Redactor := in_Redactor i; in_Compatible := in_Compatible i |}.

(** The model asked for before budget tiers. *)
Definition requested_of (i : RequestRoutingInput) : string :=
  if bool_decide (in_RequestedModel i = "") then in_Model i else in_RequestedModel i.

(** ** Transport compatibility *)

Fixpoint str_contains (sub s : string) : bool :=
  (String.prefix sub s || match s with EmptyString => false | String _ s => str_contains sub s end)%bool.

(** [None] is no inspection. *)
Definition requestCompatible (ingress : string) (p : Provider) (target : Target) (s : option Inspection)
    (converseSafe : bool) : bool :=
  let declared := is_Some_b (pv_SupportsIngress p) in
  let name := pv_Name p in
  if match pv_SupportsIngress p with Some f => negb (f ingress) | None => false end then false
  else if bool_decide (ingress = "bedrock-converse") then
    match pv_SupportsBedrockConverse p with
    | Some f => (negb (bool_decide (t_API target = "mantle")) && f (t_Model target))%bool
    | None => false
    end
  else if bool_decide (ingress = "responses") then
    if bool_decide (name = "openai_responses") then true
    else match s with
         | None => false
         | Some s =>
             if (negb (i_Complete s) || i_HasVision s || i_HasReasoning s || i_HasStructuredOutput s)%bool then false
             else (bool_decide (name = "anthropic") || bool_decide (name = "openai_compatible") || declared)%bool
         end
  else if bool_decide (name = "openai_responses") then false
  else if negb (contains ingress ["anthropic"; "openai"; "bedrock"]) then false
  else
    let feature := match s with
                   | None => false
                   | Some s => (negb (i_Complete s) || i_HasVision s || i_HasReasoning s || i_HasStructuredOutput s)%bool
                   end in
    if bool_decide (name = "anthropic") then bool_decide (ingress = "anthropic")
    else if bool_decide (name = "openai_compatible") then (bool_decide (ingress = "openai") || negb feature)%bool
    else if bool_decide (name = "bedrock") then
      let api :=
        if bool_decide (t_API target = "") then
          if (str_contains "anthropic." (t_Model target) || str_contains "claude" (t_Model target))%bool
          then "invoke_model" else "converse"
        else t_API target in
      if bool_decide (api = "invoke_model") then negb (bool_decide (ingress = "openai"))
      else if bool_decide (api = "converse") then
        (negb feature
         && negb (bool_decide (ingress = "openai") && match s with Some s => i_HasTools s | None => false end)
         && match s with None => true | Some _ => converseSafe end)%bool
      else if bool_decide (api = "mantle") then negb feature
      else false
    else if bool_decide (name = "mock") then true
    else if declared then true
    else (negb (bool_decide (ingress = "bedrock")) && negb feature)%bool.

(** ** Capacity *)

Definition with_tokens (input output : Z) (s : Inspection) : Inspection :=
  {| i_Complete := i_Complete s; i_SensitiveDataInspected := i_SensitiveDataInspected s;
     i_Categories := i_Categories s; i_InputTokens := input; i_OutputTokens := output;
     i_UserTurns := i_UserTurns s; i_HasHistory := i_HasHistory s; i_HasTools := i_HasTools s;
     i_HasVision := i_HasVision s; i_HasReasoning := i_HasReasoning s;
     i_HasStructuredOutput := i_HasStructuredOutput s; i_HasRemoteTools := i_HasRemoteTools s |}.

(** The [int64] subtraction happens after the range check. *)
Definition fitsRequest (mc : ModelConfig) (s : Inspection) : bool :=
  if ((i_InputTokens s <? 0) || (i_OutputTokens s <? 0) || (mc_ContextWindow mc <=? 0)
      || (mc_ContextWindow mc <? i_InputTokens s)
      || (wrap64 (mc_ContextWindow mc - i_InputTokens s) <? i_OutputTokens s))%bool then false
  else forallb (λ c, (negb c.1 || contains c.2 (mc_Capabilities mc))%bool)
         [(i_HasTools s, "tools"); (i_HasVision s, "vision"); (i_HasReasoning s, "reasoning");
          (i_HasStructuredOutput s, "structured_output")].

(** ** The boundary *)

Record requestBoundary := {
  b_in : RequestRoutingInput; b_st : Live.State; b_inspection : option Inspection;
  b_models : option (gset string); b_apis : gmap (string * string) string;
  b_converseSafe : bool; b_budgetModel : string; b_ignoreContext : bool
}.

Definition api_step (apis : gmap (string * string) string) (t : Target) : gmap (string * string) string :=
  if bool_decide (t_API t = "") then apis
  else let key := (t_Provider t, t_Model t) in
       match apis !! key with
       | Some previous => if bool_decide (previous = t_API t) then <[key := t_API t]> apis
                          else <[key := "conflicting"]> apis
       | None => <[key := t_API t]> apis
       end.

Definition intersect (names : list string) (b : requestBoundary) : requestBoundary :=
  let set : gset string := list_to_set (map (Canonical (b_st b)) names) in
  {| b_in := b_in b; b_st := b_st b; b_inspection := b_inspection b;
     b_models := Some (match b_models b with None => set | Some ms => ms ∩ set end);
     b_apis := b_apis b; b_converseSafe := b_converseSafe b; b_budgetModel := b_budgetModel b;
     b_ignoreContext := b_ignoreContext b |}.

Definition ignore_context (b : requestBoundary) : requestBoundary :=
  {| b_in := b_in b; b_st := b_st b; b_inspection := b_inspection b; b_models := b_models b;
     b_apis := b_apis b; b_converseSafe := b_converseSafe b; b_budgetModel := b_budgetModel b;
     b_ignoreContext := true |}.

(** After redaction: the final body and its own inspection. *)
Definition rebody (body : string) (s : Inspection) (safe : bool) (b : requestBoundary) : requestBoundary :=
  {| b_in := with_body body (b_in b); b_st := b_st b; b_inspection := Some s; b_models := b_models b;
     b_apis := b_apis b; b_converseSafe := safe; b_budgetModel := b_budgetModel b;
     b_ignoreContext := b_ignoreContext b |}.

Definition compatible (b : requestBoundary) (ct : ChainTarget) (target : Target) : bool :=
  if negb (requestCompatible (in_Protocol (b_in b)) (ct_Provider ct) target (b_inspection b) (b_converseSafe b))
  then false
  else if (bool_decide (in_Protocol (b_in b) = "responses")
           && negb (bool_decide (pv_Name (ct_Provider ct) = "openai_responses"))
           && negb (is_Some_b (in_Compatible (b_in b))))%bool then false
  else match in_Compatible (b_in b) with None => true | Some f => f ct end.

Definition region_ok (allowed : list string) (region : string) : bool :=
  (bool_decide (allowed = []) || (negb (bool_decide (region = "")) && contains region allowed))%bool.

Section Boundary.
Context (range : gmap string ModelConfig → list (string * ModelConfig)).
(** [tokenest.Estimate]: protocol and body to tokens. *)
Context (Estimate : string → string → Z).
Context (g : Gates).

Definition requestAPIs (st : Live.State) : gmap (string * string) string :=
  foldl (λ apis kv, foldl api_step apis (mc_Targets kv.2)) ∅ (range (models st)).

(** What [fitsRequest] is asked about. *)
Definition capacity (b : requestBoundary) (automatic : bool) (model : string) (s : Inspection) : Inspection :=
  let i := b_in b in
  let s :=
    if (bool_decide (in_Protocol i = "responses") && negb automatic
        && bool_decide (model = Canonical (b_st b) (requested_of i)) && bool_decide (model = in_Model i)
        && negb (is_Some_b (b_models b)) && bool_decide (b_budgetModel b = "") && (0 <=? i_InputTokens s))%bool
    then with_tokens (Estimate (in_Protocol i) (in_RawBody i)) (i_OutputTokens s) s else s in
  if (b_ignoreContext b && (0 <=? i_InputTokens s) && (0 <=? i_OutputTokens s))%bool
  then with_tokens 0 0 s else s.

(** Whether the target must have declared capacity and a rate. *)
Definition metadata_required (b : requestBoundary) (automatic : bool) (model : string) (p : Provider) : bool :=
  (automatic || negb (bool_decide (model = in_Model (b_in b))) || negb (bool_decide (b_budgetModel b = ""))
   || (bool_decide (in_Protocol (b_in b) = "responses") && negb (bool_decide (pv_Name p = "openai_responses"))))%bool.

Definition find_target (mc : ModelConfig) (ct : ChainTarget) : option Target :=
  List.find (λ t, (String.eqb (t_Provider t) (ct_ProviderName ct) && String.eqb (t_Model t) (ct_Upstream ct))%bool)
    (mc_Targets mc).

(** One entry: kept with its fields reread from the generation, or dropped. *)
Definition filter_target (b : requestBoundary) (automatic : bool) (ct : ChainTarget) : option ChainTarget :=
  let st := b_st b in
  let model := Canonical st (ct_Model ct) in
  if (negb (bool_decide (b_budgetModel b = "")) && negb (bool_decide (model = b_budgetModel b)))%bool then None
  else if negb (allowsInState g (in_Principal (b_in b)) model st) then None
  else
    mc ← Route st model;
    target ← find_target mc ct;
    p ← State_Provider st (ct_ProviderName ct);
    let ct := {| ct_Provider := p; ct_ProviderName := ct_ProviderName ct;
                 ct_Identity := default "" (Identity st (ct_ProviderName ct)); ct_Upstream := ct_Upstream ct;
                 ct_Model := model; ct_Region := Region st (ct_ProviderName ct);
                 ct_DataBoundary := DataBoundary st (ct_ProviderName ct) |} in
    let target := {| t_Provider := t_Provider target; t_Model := t_Model target;
                     t_API := default (t_API target) (b_apis b !! (ct_ProviderName ct, ct_Upstream ct)) |} in
    if negb (region_ok (in_AllowedRegions (b_in b)) (ct_Region ct)) then None
    else if match b_models b with
            | Some ms => negb (bool_decide (model ∈ ms) && bool_decide (ct_DataBoundary ct = "internal"))
            | None => false
            end then None
    else if negb (compatible b ct target) then None
    else match b_inspection b with
         | Some s =>
             if metadata_required b automatic model p
             then if (fitsRequest mc (capacity b automatic model s)
                      && is_Some_b (pricing st) && HasRate (pricing st) (ct_ProviderName ct) (ct_Upstream ct))%bool
                  then Some ct else None
             else Some ct
         | None => Some ct
         end.

(** An internal-only request with remote tools has no safe destination. *)
Definition filter_chain (b : requestBoundary) (chain : list ChainTarget) (automatic : bool) : list ChainTarget :=
  if (is_Some_b (b_models b) && match b_inspection b with Some s => i_HasRemoteTools s | None => false end)%bool
  then [] else omap (filter_target b automatic) chain.

Definition contextOnly (b : requestBoundary) (chain : list ChainTarget) : bool :=
  match b_inspection b with
  | None => false
  | Some _ => negb (bool_decide (length (filter_chain (ignore_context b) chain false) = 0%nat))
  end.

(** Every target of the model and of its fallback, filtered, then the healthy ones. *)
Definition requestChain (b : requestBoundary) (model : string) : ST Router (list ChainTarget) :=
  let st := b_st b in
  match Route st model with
  | None => mret []
  | Some mc =>
      if bool_decide (mc_Targets mc = []) then mret []
      else
        let fb := FallbackFor range st model in
        let ms := model :: (if (bool_decide (fb = "") || bool_decide (fb = model))%bool then []
                            else [Canonical st fb]) in
        let all := filter_chain b (ms ≫= chain_of st) (negb (bool_decide (model = in_Model (b_in b)))) in
        allowed ← healthy all;
        mret (if bool_decide (length allowed = 0%nat) then all else allowed)
  end.

(** Existing routes keep their order; only access and region are rechecked. *)
Definition legacyChain (i : RequestRoutingInput) (st : Live.State) : list ChainTarget :=
  filter (λ ct, (allowsInState g (in_Principal i) (Canonical st (ct_Model ct)) st
     && region_ok (in_AllowedRegions i) (Region st (ct_ProviderName ct))
     && match in_Compatible i with None => true | Some f => f ct end)%bool = true) (in_Chain i).

(** ** The budget constraint *)

(** The order in which [range] visits the mapping of the gate. *)
Context (range_str : gmap string string → list (string * string)).

(** [None]: the loop has returned the conflicting deny. *)
Fixpoint budget_loop (st : Live.State) (source : string) (kvs : list (string * string)) (target : string)
    (active : bool) : string * bool :=
  match kvs with
  | [] => (target, active)
  | (from, to) :: kvs =>
      if bool_decide (Canonical st from = source) then
        let to := Canonical st to in
        if (bool_decide (to = "") || (active && negb (bool_decide (to = target))))%bool then ("", true)
        else budget_loop st source kvs to true
      else budget_loop st source kvs target active
  end.

Definition budgetConstraint (p : Principal) (st : Live.State) (requested : string) : string * bool :=
  match budgetConstraintGate g with
  | None => ("", false)
  | Some gate => budget_loop st (Canonical st requested) (range_str (gate p)) "" false
  end.

Definition BudgetTargetAllowed (p : Principal) (requested candidate : string) (st : option Live.State) : bool :=
  match st with
  | None => false
  | Some st =>
      let '(target, strict) := budgetConstraint p st requested in
      (negb strict || (negb (bool_decide (target = "")) && bool_decide (target = Canonical st candidate)))%bool
  end.
End Boundary.
