(* ===== verification/Affinity.v ===== *)
(** * Session affinity (internal/router/affinity.go)

    Keeps a session on the target that last served it, within the bounds the
    context rules set.  Digests ([D]) and the parsing of bodies are the standard
    library's; what is hashed is modelled ([session_fields], [PolicyEvidence]).
    A token is a value with an identity, its [used] flag lives in the store; the
    store and its clock belong to one router. *)

From S2P Require Import Prelude GoTime Policy Breaker Live Router Boundary.

(** ** Rules in force *)

Record RoutingPolicyRef := { rp_Name : string; rp_Generation : Z; rp_Rule : string }.

Record requestRule := {
  rr_ref : RoutingPolicyRef; rr_sensitive : option SensitiveData; rr_context : option Context_
}.

Definition maxStability : Duration := 24 * Hour.

(** A rule's preferences, if they are in range. *)
Definition stability_ok (s : ContextStability) : bool :=
  negb ((MinHold s <? 0) || (MinRequests s <? 1) || (10000 <? MinRequests s) || (SessionTTL s <=? 0)
        || (maxStability <? SessionTTL s) || (SessionTTL s <? MinHold s)).

Definition merge_stability (a b : ContextStability) : ContextStability :=
  {| MinHold := Z.max (MinHold a) (MinHold b); MinRequests := Z.max (MinRequests a) (MinRequests b);
     SessionTTL := Z.min (SessionTTL a) (SessionTTL b) |}.

(** [None] inside: the loop has returned nil. *)
Fixpoint stability_loop (rules : list requestRule) (acc : option ContextStability)
    : option (option ContextStability) :=
  match rules with
  | [] => Some acc
  | r :: rules =>
      match rr_context r with
      | None => stability_loop rules acc
      | Some c =>
          match Stability c with
          | None => None
          | Some s =>
              if stability_ok s then
                stability_loop rules (Some (match acc with None => s | Some a => merge_stability a s end))
              else None
          end
      end
  end.

Definition stabilityOf (rules : list requestRule) : option ContextStability :=
  match stability_loop rules None with
  | Some (Some s) => if SessionTTL s <? MinHold s then None else Some s
  | _ => None
  end.

(** ** The store *)

Record affinityTarget := {
  at_Model : string; at_Provider : string; at_Identity : string; at_Upstream : string;
  at_Region : string; at_Boundary : string
}.

#[export] Instance affinityTarget_eq_dec : EqDecision affinityTarget.
Proof. solve_decision. Defined.

Definition affinityTargetOf (ct : ChainTarget) : affinityTarget :=
  {| at_Model := ct_Model ct; at_Provider := ct_ProviderName ct; at_Identity := ct_Identity ct;
     at_Upstream := ct_Upstream ct; at_Region := ct_Region ct; at_Boundary := ct_DataBoundary ct |}.

Definition maxAffinityEntries : Z := 4096.

Record affinityEntry (D : Type) := mkEntry {
  e_target : affinityTarget; e_policy : D; e_since : Time; e_expires : Time; e_requests : Z; e_revision : Z
}.
Arguments mkEntry {D} _ _ _ _ _ _.
Arguments e_target {D} _.
Arguments e_policy {D} _.
Arguments e_since {D} _.
Arguments e_expires {D} _.
Arguments e_requests {D} _.
Arguments e_revision {D} _.

Record AffinityToken (D : Type) := mkToken {
  tk_id : nat; tk_key : D; tk_policy : D; tk_expected : Z; tk_issued : Time;
  tk_settings : ContextStability; tk_allowed : list affinityTarget
}.
Arguments mkToken {D} _ _ _ _ _ _ _.
Arguments tk_id {D} _.
Arguments tk_key {D} _.
Arguments tk_policy {D} _.
Arguments tk_expected {D} _.
Arguments tk_issued {D} _.
Arguments tk_settings {D} _.
Arguments tk_allowed {D} _.

(** What the session key is computed from. *)
Inductive Field :=
| FList (ss : list string)
| FString (s : string)
| FRaw (json : string)
| FMessage (role content : string).

(** The body as the key's decoder reads it; contents are raw JSON. *)
Record SessionBody := {
  sb_System : string; sb_Tools : string; sb_Messages : list (string * string);
  sb_Input : string; sb_Instructions : string
}.

(** What the policy digest covers. *)
Record PolicyEvidence := {
  pe_Model : string; pe_BudgetModel : string; pe_Masked : bool; pe_Models : option (gset string);
  pe_Rules : list requestRule
}.

Section Affinity.
Context {D : Type} `{Countable D}.
(** HMAC-SHA256 under the store's secret, and SHA-256. *)
Context (session_digest : list Field → D) (policy_digest : PolicyEvidence → D).
(** [json.Unmarshal] of the body, of an input string, of input items. *)
Context (parse_body : string → option SessionBody) (parse_string : string → option string)
        (parse_items : string → option (list (string * string))).
Context (range : gmap string ModelConfig → list (string * ModelConfig)).
Context (Estimate : string → string → Z) (g : Gates).

Record affinityStore := {
  af_now : nat → Time; af_reads : nat; af_entries : gmap D (affinityEntry D);
  af_revision : Z; af_used : gset nat; af_next : nat
}.

(** [None]: no entropy at startup, no affinity. *)
Record FullRouter := { fr_router : Router; fr_affinity : option affinityStore }.

Definition on_router {A} (m : ST Router A) : ST FullRouter A := λ f,
  let '(a, r) := m (fr_router f) in (a, {| fr_router := r; fr_affinity := fr_affinity f |}).

Definition with_entries (es : gmap D (affinityEntry D)) (s : affinityStore) : affinityStore :=
  {| af_now := af_now s; af_reads := af_reads s; af_entries := es; af_revision := af_revision s;
     af_used := af_used s; af_next := af_next s |}.

Definition af_clock (s : affinityStore) : Time * affinityStore :=
  (af_now s (af_reads s),
   {| af_now := af_now s; af_reads := S (af_reads s); af_entries := af_entries s;
      af_revision := af_revision s; af_used := af_used s; af_next := af_next s |}).

(** ** Recording a success *)

Definition mark_used (id : nat) (s : affinityStore) : affinityStore :=
  {| af_now := af_now s; af_reads := af_reads s; af_entries := af_entries s;
     af_revision := af_revision s; af_used := {[ id ]} ∪ af_used s; af_next := af_next s |}.

Definition drop_expired (now : Time) (es : gmap D (affinityEntry D)) : gmap D (affinityEntry D) :=
  filter (λ kv, Before now (e_expires kv.2) = true) es.

Definition full (es : gmap D (affinityEntry D)) : bool := maxAffinityEntries <=? Z.of_nat (size es).

(** The entry that replaces [old]. *)
Definition next_entry (tk : AffinityToken D) (target : affinityTarget) (now : Time)
    (old : option (affinityEntry D)) (revision : Z) : affinityEntry D :=
  let expires := Add now (SessionTTL (tk_settings tk)) in
  match old with
  | Some o =>
      if (bool_decide (e_target o = target) && bool_decide (e_policy o = tk_policy tk))%bool
      then mkEntry target (tk_policy tk) (e_since o) expires (Z.min (e_requests o + 1) 10000) revision
      else mkEntry target (tk_policy tk) now expires 1 revision
  | None => mkEntry target (tk_policy tk) now expires 1 revision
  end.

Definition insert_entry (tk : AffinityToken D) (target : affinityTarget) (now : Time)
    (old : option (affinityEntry D)) (s : affinityStore) : affinityStore :=
  let revision := (af_revision s + 1) mod 2 ^ 64 in
  {| af_now := af_now s; af_reads := af_reads s;
     af_entries := <[tk_key tk := next_entry tk target now old revision]> (af_entries s);
     af_revision := revision; af_used := af_used s; af_next := af_next s |}.

(** What the mutex protects. *)
Definition record_locked (tk : AffinityToken D) (target : affinityTarget) (now : Time)
    (s : affinityStore) : affinityStore :=
  let '(old, s) :=
    match af_entries s !! tk_key tk with
    | Some e => if negb (Before now (e_expires e)) then (None, with_entries (delete (tk_key tk) (af_entries s)) s)
                else (Some e, s)
    | None => (None, s)
    end in
  match old with
  | Some e => if bool_decide (e_revision e = tk_expected tk) then insert_entry tk target now old s else s
  | None =>
      if negb (tk_expected tk =? 0) then s
      else
        let s := if full (af_entries s) then with_entries (drop_expired now (af_entries s)) s else s in
        if full (af_entries s) then s else insert_entry tk target now old s
  end.

Definition RecordAffinitySuccess (tk : option (AffinityToken D)) (ct : ChainTarget) (f : FullRouter) : FullRouter :=
  match fr_affinity f, tk with
  | Some s, Some tk =>
      let target := affinityTargetOf ct in
      if negb (contains target (tk_allowed tk)) then f
      else if bool_decide (tk_id tk ∈ af_used s) then f
      else
        let '(now, s) := af_clock (mark_used (tk_id tk) s) in
        let s := if (Before now (tk_issued tk) || negb (Before now (Add (tk_issued tk) (SessionTTL (tk_settings tk)))))%bool
                 then s else record_locked tk target now s in
        {| fr_router := fr_router f; fr_affinity := Some s |}
  | _, _ => f
  end.

(** ** The session key *)

(** The initial instructions, up to the first user message. *)
Fixpoint message_fields (ms : list (string * string)) : list Field * bool :=
  match ms with
  | [] => ([], false)
  | (role, content) :: ms =>
      let sys := if (bool_decide (role = "system") || bool_decide (role = "developer"))%bool
                 then [FMessage role content] else [] in
      if bool_decide (role = "user") then (sys ++ [FRaw content], true)
      else let '(fs, found) := message_fields ms in (sys ++ fs, found)
  end.

Fixpoint first_user (items : list (string * string)) : option string :=
  match items with
  | [] => None
  | (role, content) :: items => if bool_decide (role = "user") then Some content else first_user items
  end.

Definition input_fields (input : string) : option (list Field) :=
  match parse_string input with
  | Some s => Some [FString s]
  | None => items ← parse_items input; content ← first_user items; Some [FRaw content]
  end.

Definition maxHint : nat := 4096.
Definition maxBody : Z := 67108864.

Definition session_fields (i : RequestRoutingInput) (st : Live.State) : option (list Field) :=
  let p := in_Principal i in
  let head := FList [pr_Team p; pr_KeyID p; AccountSubject p; in_Protocol i; Canonical st (requested_of i)] in
  if negb (bool_decide (in_SessionHint i = "")) then
    if (maxHint <? String.length (in_SessionHint i))%nat then None else Some [head; FString (in_SessionHint i)]
  else if maxBody <? Z.of_nat (String.length (in_RawBody i)) then None
  else
    body ← parse_body (in_RawBody i);
    let '(fs, found) := message_fields (sb_Messages body) in
    let start := head :: FRaw (sb_System body) :: FRaw (sb_Instructions body) :: FRaw (sb_Tools body) :: fs in
    if found : bool then Some start
    else if bool_decide (in_Protocol i = "responses") then
      more ← input_fields (sb_Input body); Some (start ++ more)
    else None.

Definition sessionKey (i : RequestRoutingInput) (st : Live.State) : option D :=
  session_digest <$> session_fields i st.

Definition affinityPolicyDigest (b : requestBoundary) (rules : list requestRule) (masked : bool) : D :=
  policy_digest {| pe_Model := in_Model (b_in b); pe_BudgetModel := b_budgetModel b; pe_Masked := masked;
                   pe_Models := b_models b; pe_Rules := rules |}.

(** ** Consulting the store *)

Definition with_affinity (s : affinityStore) : ST FullRouter unit := λ f,
  (tt, {| fr_router := fr_router f; fr_affinity := Some s |}).

(** The pinned target and where it is in the chain, if its breaker allows it. *)
Fixpoint find_pinned (target : affinityTarget) (chain : list ChainTarget) (i : nat)
    : ST FullRouter (option (nat * ChainTarget)) :=
  match chain with
  | [] => mret None
  | ct :: chain =>
      if bool_decide (affinityTargetOf ct = target) then
        ok ← on_router (on_brk (Breaker.Allow (ct_Identity ct)));
        if ok : bool then mret (Some (i, ct)) else find_pinned target chain (S i)
      else find_pinned target chain (S i)
  end.

(** Drop an entry nobody has replaced meanwhile. *)
Definition forget (key : D) (revision : Z) : ST FullRouter bool := λ f,
  match fr_affinity f with
  | Some s =>
      match af_entries s !! key with
      | Some e => if bool_decide (e_revision e = revision)
                  then (true, {| fr_router := fr_router f;
                                 fr_affinity := Some (with_entries (delete key (af_entries s)) s) |})
                  else (false, f)
      | None => (false, f)
      end
  | None => (false, f)
  end.

Definition expect (n : Z) (tk : AffinityToken D) : AffinityToken D :=
  mkToken (tk_id tk) (tk_key tk) (tk_policy tk) n (tk_issued tk) (tk_settings tk) (tk_allowed tk).
Definition allow_targets (ts : list affinityTarget) (tk : AffinityToken D) : AffinityToken D :=
  mkToken (tk_id tk) (tk_key tk) (tk_policy tk) (tk_expected tk) (tk_issued tk) (tk_settings tk) (tk_allowed tk ++ ts).

(** The live entry of the key under the current rules; a stale one is dropped. *)
Definition lookup_entry (key digest : D) (now : Time) (s : affinityStore) : option (affinityEntry D) * affinityStore :=
  match af_entries s !! key with
  | Some e =>
      if (negb (Before now (e_expires e)) || negb (bool_decide (e_policy e = digest)))%bool
      then (None, with_entries (delete key (af_entries s)) s) else (Some e, s)
  | None => (None, s)
  end.

Definition new_token (key digest : D) (now : Time) (settings : ContextStability) (s : affinityStore)
    : AffinityToken D * affinityStore :=
  (mkToken (af_next s) key digest 0 now settings [],
   {| af_now := af_now s; af_reads := af_reads s; af_entries := af_entries s; af_revision := af_revision s;
      af_used := af_used s; af_next := S (af_next s) |}).

(** A token to record the outcome with, and the chain to keep the session on. *)
Definition prepareAffinity (masked : bool) (b : requestBoundary) (rules : list requestRule)
    (settings : option ContextStability) : ST FullRouter (option (AffinityToken D) * list ChainTarget) :=
  f ← st_get;
  match fr_affinity f, settings with
  | Some s, Some settings =>
      if in_CountOnly (b_in b) then mret (None, [])
      else match sessionKey (b_in b) (b_st b) with
           | None => mret (None, [])
           | Some key =>
               let '(now, s) := af_clock s in
               let digest := affinityPolicyDigest b rules masked in
               let '(entry, s) := lookup_entry key digest now s in
               let '(token, s) := new_token key digest now settings s in
               _ ← with_affinity s;
               match entry with
               | None => mret (Some token, [])
               | Some e =>
                   let token := expect (e_revision e) token in
                   chain ← on_router (requestChain range Estimate g b (at_Model (e_target e)));
                   let chain := filter_chain Estimate g b chain true in
                   found ← find_pinned (e_target e) chain 0;
                   match found with
                   | Some (i, ct) =>
                       if (Before now (Add (e_since e) (MinHold settings))
                           || (e_requests e <? MinRequests settings))%bool
                       then mret (Some token, ct :: take i chain ++ drop (S i) chain)
                       else mret (Some token, [])
                   | None =>
                       dropped ← forget key (e_revision e);
                       mret (Some (if (dropped : bool) then expect 0 token else token), [])
                   end
               end
           end
  | _, _ => mret (None, [])
  end.
End Affinity.

(** ** The store under any sequence of operations *)

Section Store.
Context {D : Type} `{Countable D}.
Context (session_digest : list Field → D) (policy_digest : PolicyEvidence → D).
Context (parse_body : string → option SessionBody) (parse_string : string → option string)
        (parse_items : string → option (list (string * string))).
Context (range : gmap string ModelConfig → list (string * ModelConfig)).
Context (Estimate : string → string → Z) (g : Gates).

Abbreviation Full := (FullRouter (D := D)).
Abbreviation prepare := (prepareAffinity session_digest policy_digest parse_body parse_string parse_items range Estimate g).

(** Requests record and prepare in any order; the rest of the router (breaker,
    generation, gauges) changes freely between them. *)
Inductive affinity_op :=
| Record_ (tk : option (AffinityToken D)) (ct : ChainTarget)
| Prepare (masked : bool) (b : requestBoundary) (rules : list requestRule) (settings : option ContextStability)
| Elsewhere (r : Router).

Definition run_op (f : Full) (op : affinity_op) : Full :=
  match op with
  | Record_ tk ct => RecordAffinitySuccess tk ct f
  | Prepare masked b rules settings => (prepare masked b rules settings f).2
  | Elsewhere r => {| fr_router := r; fr_affinity := fr_affinity f |}
  end.

Definition entry_wf (e : affinityEntry D) : Prop := 1 <= e_requests e <= 10000 ∧ 0 <= e_revision e < 2 ^ 64.

Record store_wf (s : affinityStore (D := D)) : Prop := {
  sw_size : Z.of_nat (size (af_entries s)) <= maxAffinityEntries;
  sw_entries : map_Forall (λ _, entry_wf) (af_entries s);
  sw_revision : 0 <= af_revision s < 2 ^ 64
}.

Definition full_wf (f : Full) : Prop := ∀ s, fr_affinity f = Some s → store_wf s.

(** Fewer entries, the same counters. *)
Lemma with_entries_wf es s : es ⊆ af_entries s → store_wf s → store_wf (with_entries es s).
Proof.
  intros Hs [H1 H2 H3]. split; simpl; [| |done].
  - pose proof (dom_subseteq_size (D := gset D) (af_entries s) es (subseteq_dom _ _ Hs)). lia.
  - intros key e He. apply (H2 key). by apply (lookup_weaken _ _ _ _ He).
Qed.

Lemma next_entry_wf tk target t old revision :
  (∀ e, old = Some e → entry_wf e) → 0 <= revision < 2 ^ 64 → entry_wf (next_entry tk target t old revision).
Proof.
  intros Ho Hr. unfold next_entry, entry_wf. destruct old as [e|]; [destruct (Ho e eq_refl)|]; repeat case_match; simpl; lia.
Qed.

Lemma insert_entry_wf tk target t old s :
  store_wf s → (∀ e, old = Some e → entry_wf e) →
  (is_Some (af_entries s !! tk_key tk) ∨ full (af_entries s) = false) →
  store_wf (insert_entry tk target t old s).
Proof.
  intros [H1 H2 H3] Ho Hroom. set (revision := (af_revision s + 1) mod 2 ^ 64).
  assert (0 <= revision < 2 ^ 64) as Hr by (apply Z.mod_pos_bound; lia). split; simpl; [| |done].
  - destruct (af_entries s !! tk_key tk) as [e|] eqn:E.
    + rewrite map_size_insert_Some by done. done.
    + destruct Hroom as [[]|Hf]; [done|]. rewrite map_size_insert_None by done.
      unfold full in Hf. bsplit. unfold maxAffinityEntries in *. lia.
  - apply map_Forall_insert_2; [by apply next_entry_wf|done].
Qed.

Lemma record_locked_wf tk target t s : store_wf s → store_wf (record_locked tk target t s).
Proof.
  intros Hs. unfold record_locked.
  destruct (af_entries s !! tk_key tk) as [e|] eqn:E.
  - pose proof (sw_entries _ Hs _ _ E) as He.
    destruct (negb (Before t (e_expires e))).
    + set (s1 := with_entries _ s). assert (store_wf s1) as H1 by (apply with_entries_wf; [apply delete_subseteq|done]).
      case_match; [done|]. cbv zeta. set (s2 := if full (af_entries s1) then _ else s1).
      assert (store_wf s2) as H2.
      { unfold s2. case_match; [|done]. apply with_entries_wf; [apply map_filter_subseteq|done]. }
      case_match; [done|]. apply insert_entry_wf; [done|done|by right].
    + case_bool_decide; [|done]. apply insert_entry_wf; [done|by intros ? [= <-]|left; by rewrite E].
  - case_match; [done|]. cbv zeta. set (s2 := if full (af_entries s) then _ else s).
    assert (store_wf s2) as H2.
    { unfold s2. case_match; [|done]. apply with_entries_wf; [apply map_filter_subseteq|done]. }
    case_match; [done|]. apply insert_entry_wf; [done|done|by right].
Qed.

Lemma RecordAffinitySuccess_wf tk ct f : full_wf f → full_wf (RecordAffinitySuccess tk ct f).
Proof.
  intros Hf. unfold RecordAffinitySuccess. destruct (fr_affinity f) as [s|] eqn:Es; [|done].
  destruct tk as [tk|]; [|done]. case_match; [done|]. case_match; [done|]. intros s' [= <-].
  assert (store_wf s) as Hs by by apply Hf. destruct Hs as [? ? ?].
  destruct (_ || _)%bool; [by split|]. apply record_locked_wf. by split.
Qed.

Lemma on_router_affinity {A} (m : ST Router A) (f : Full) : fr_affinity (on_router m f).2 = fr_affinity f.
Proof. unfold on_router. by destruct (m (fr_router f)). Qed.

Lemma on_router_pres {A} (P : option (affinityStore (D := D)) → Prop) (m : ST Router A) :
  pres (λ f, P (fr_affinity f)) (on_router m).
Proof. intros f Hf. unfold wp. by rewrite on_router_affinity. Qed.

Lemma find_pinned_pres P target chain i : pres (λ f, P (fr_affinity f)) (find_pinned (D := D) target chain i).
Proof.
  revert i. induction chain as [|ct chain IH]; intros i; cbn [find_pinned]; [apply pres_ret|].
  case_bool_decide; [|apply IH]. apply pres_bind; [apply on_router_pres|]. intros []; [apply pres_ret|apply IH].
Qed.

(** What [prepareAffinity] does to the store: a clock reading, a token, and
    possibly fewer entries. *)
Lemma prepare_pres (P : option (affinityStore (D := D)) → Prop) masked b rules settings :
  (∀ s, P (Some s) → P (Some (af_clock s).2)) →
  (∀ s key, P (Some s) → P (Some (with_entries (delete key (af_entries s)) s))) →
  (∀ s key digest t st, P (Some s) → P (Some (new_token key digest t st s).2)) →
  pres (λ f, P (fr_affinity f)) (prepare masked b rules settings).
Proof.
  intros Hclk Hdel Htok f Hf. unfold prepareAffinity. rewrite wp_get.
  destruct (fr_affinity f) as [s|] eqn:Es; [|by rewrite wp_ret, Es].
  destruct settings as [settings|]; [|by rewrite wp_ret, Es].
  destruct (in_CountOnly _); [by rewrite wp_ret, Es|].
  destruct (sessionKey _ _ _ _ _ _) as [key|]; [|by rewrite wp_ret, Es].
  set (digest := affinityPolicyDigest _ _ _ _).
  pose proof (Hclk s Hf) as H1. destruct (af_clock s) as [t s1]. cbn [snd] in H1.
  assert (P (Some (lookup_entry key digest t s1).2)) as H2.
  { unfold lookup_entry. repeat case_match; [by apply Hdel|done..]. }
  destruct (lookup_entry key digest t s1) as [entry s2]. cbn [snd] in H2.
  pose proof (Htok s2 key digest t settings H2) as H3.
  destruct (new_token key digest t settings s2) as [token s3]. cbn [snd] in H3.
  rewrite wp_bind. unfold wp at 1, with_affinity. cbn [fst snd].
  destruct entry as [e|]; [|by rewrite wp_ret].
  match goal with |- wp ?m _ ?f0 => cut (pres (λ f, P (fr_affinity f)) m); [intros Hm; by apply Hm|] end.
  apply pres_bind; [apply on_router_pres|]. intros chain. apply pres_bind; [apply find_pinned_pres|].
  intros [[i ct]|]; [apply pres_if; apply pres_ret|]. apply pres_bind; [|intros; apply pres_ret].
  intros f1 Hf1. unfold wp, forget. destruct (fr_affinity f1) as [s4|] eqn:E4; [|simpl; by rewrite E4].
  destruct (af_entries s4 !! key); [case_bool_decide; simpl; [by apply Hdel|by rewrite E4]|simpl; by rewrite E4].
Qed.

(** C38: The store is bounded, whatever clients do.  Starting empty, after any
    sequence of recorded outcomes (replayed, stale or forged ones included),
    lookups and other activity, it holds at most 4096 sessions, and each entry
    counts between 1 and 10000 requests. *)
Theorem affinity_bounded f0 ops :
  (∀ s, fr_affinity f0 = Some s → af_entries s = ∅ ∧ af_revision s = 0) →
  ∀ s, fr_affinity (foldl run_op f0 ops) = Some s →
    Z.of_nat (size (af_entries s)) <= 4096 ∧
    ∀ key e, af_entries s !! key = Some e → 1 <= e_requests e <= 10000.
Proof.
  intros H0. assert (full_wf f0) as Hf.
  { intros s Hs. destruct (H0 s Hs) as [E1 E2]. split; rewrite ?E1, ?E2; [done|apply map_Forall_empty|lia]. }
  assert (full_wf (foldl run_op f0 ops)) as Hw.
  { clear H0. revert f0 Hf. induction ops as [|op ops IH]; intros f Hf; cbn [foldl]; [done|]. apply IH.
    destruct op as [tk ct|masked b rules settings|r]; simpl; [by apply RecordAffinitySuccess_wf| |done].
    apply (prepare_pres (λ o, ∀ s, o = Some s → store_wf s)); [..|exact Hf].
    - intros s Hs s' [= <-]. destruct (Hs s eq_refl). by split.
    - intros s key Hs s' [= <-]. apply with_entries_wf; [apply delete_subseteq|by apply Hs].
    - intros s key digest t st Hs s' [= <-]. destruct (Hs s eq_refl). by split. }
  intros s Hs. destruct (Hw s Hs) as [H1 H2 _]. split; [exact H1|]. intros key e He. by apply (H2 key e He).
Qed.

(** ** Recording *)

(** The session's entry that has not expired. *)
Definition live_entry (t : Time) (s : affinityStore (D := D)) (key : D) : option (affinityEntry D) :=
  match af_entries s !! key with
  | Some e => if Before t (e_expires e) then Some e else None
  | None => None
  end.

Lemma drop_expired_live t s key :
  drop_expired t (af_entries s) !! key = live_entry t s key.
Proof.
  unfold drop_expired, live_entry. destruct (af_entries s !! key) as [e|] eqn:E.
  - destruct (Before t (e_expires e)) eqn:Eb.
    + by apply map_lookup_filter_Some.
    + apply map_lookup_filter_None. right. intros e' He'. rewrite E in He'. injection He' as <-. simpl. congruence.
  - apply map_lookup_filter_None. by left.
Qed.

Lemma live_entry_Some t s key e : live_entry t s key = Some e → af_entries s !! key = Some e.
Proof. unfold live_entry. intros He. by repeat case_match. Qed.

(** A new session, after the purge a full store needs. *)
Lemma record_new tk target t s s1 :
  (∀ key, key ≠ tk_key tk → live_entry t s1 key = live_entry t s key) → af_entries s1 !! tk_key tk = None →
  af_revision s1 = af_revision s →
  let s2 := if full (af_entries s1) then with_entries (drop_expired t (af_entries s1)) s1 else s1 in
  let s3 := if full (af_entries s2) then s2 else insert_entry tk target t None s2 in
  (∀ key e, key ≠ tk_key tk → live_entry t s key = Some e → af_entries s3 !! key = Some e) ∧
  (af_entries s3 !! tk_key tk = Some (next_entry tk target t None ((af_revision s + 1) mod 2 ^ 64)) ∨
   af_entries s3 !! tk_key tk = None ∧ 4096 <= Z.of_nat (size (af_entries s3)) ∧
   map_Forall (λ _ e, Before t (e_expires e) = true) (af_entries s3)).
Proof.
  intros Hl Hn Hrev. cbv zeta.
  assert (∀ key e, key ≠ tk_key tk → live_entry t s key = Some e → af_entries s1 !! key = Some e) as Hk.
  { intros key e Hne He. rewrite <- Hl in He by done. by eapply live_entry_Some. }
  destruct (full (af_entries s1)) eqn:Ef.
  - set (s2 := with_entries _ s1).
    assert (∀ key e, key ≠ tk_key tk → live_entry t s key = Some e → af_entries s2 !! key = Some e) as Hk2.
    { intros key e Hne He. simpl. rewrite drop_expired_live. by rewrite Hl. }
    destruct (full (af_entries s2)) eqn:Ef2.
    + split; [done|]. right. split; [|split].
      * simpl. rewrite drop_expired_live. unfold live_entry. by rewrite Hn.
      * unfold full in Ef2. by bsplit.
      * intros key e He. simpl in He. rewrite drop_expired_live in He. unfold live_entry in He.
        repeat case_match; naive_solver.
    + split; [intros key e Hne He; simpl; rewrite lookup_insert_ne by done; by apply Hk2|].
      left. simpl. rewrite lookup_insert_eq. by rewrite Hrev.
  - rewrite Ef. split; [intros key e Hne He; simpl; rewrite lookup_insert_ne by done; by apply Hk|].
    left. simpl. rewrite lookup_insert_eq. by rewrite Hrev.
Qed.

(** An outcome updates its own session and only as its token expects.  Every
    other session that has not expired is kept.  A live session is replaced (or
    counted once more) if it is still the revision the token was issued for, and
    kept as it is otherwise; a session the token knew and that is gone is not
    recreated; a new one is created unless 4096 live sessions fill the store. *)
Theorem record_locked_spec tk target t s :
  let s' := record_locked tk target t s in
  let revision := (af_revision s + 1) mod 2 ^ 64 in
  (∀ key e, key ≠ tk_key tk → live_entry t s key = Some e → af_entries s' !! key = Some e) ∧
  match live_entry t s (tk_key tk) with
  | Some e => af_entries s' !! tk_key tk =
                Some (if bool_decide (e_revision e = tk_expected tk)
                      then next_entry tk target t (Some e) revision else e)
  | None =>
      if tk_expected tk =? 0
      then af_entries s' !! tk_key tk = Some (next_entry tk target t None revision) ∨
           af_entries s' !! tk_key tk = None ∧ 4096 <= Z.of_nat (size (af_entries s')) ∧
           map_Forall (λ _ e, Before t (e_expires e) = true) (af_entries s')
      else af_entries s' !! tk_key tk = None
  end.
Proof.
  cbv zeta. set (key0 := tk_key tk). pose proof (record_new tk target t s) as Hnew. fold key0 in Hnew.
  unfold record_locked. fold key0. unfold live_entry at 2. destruct (af_entries s !! key0) as [e0|] eqn:E0.
  - destruct (Before t (e_expires e0)) eqn:Eb; cbn [negb].
    + case_bool_decide; simpl.
      * split; [|by rewrite lookup_insert_eq]. intros key e Hne He. rewrite lookup_insert_ne by done.
        by eapply live_entry_Some.
      * split; [|done]. intros key e _. apply live_entry_Some.
    + set (s1 := with_entries _ s). destruct (tk_expected tk =? 0) eqn:Ex; cbn [negb].
      * apply (Hnew s1); [|by simpl; rewrite lookup_delete_eq|done]. intros key Hne. unfold live_entry. simpl.
        by rewrite lookup_delete_ne.
      * split; [|by simpl; rewrite lookup_delete_eq]. intros key e Hne He. simpl. rewrite lookup_delete_ne by done.
        by eapply live_entry_Some.
  - destruct (tk_expected tk =? 0) eqn:Ex; cbn [negb]; [by apply (Hnew s)|].
    split; [|done]. intros key e _. apply live_entry_Some.
Qed.

(** ** Tokens *)

Lemma record_locked_used (tk : AffinityToken D) target t s : af_used (record_locked tk target t s) = af_used s.
Proof.
  unfold record_locked. destruct (af_entries s !! tk_key tk) as [e|]; [destruct (negb (Before t (e_expires e)))|];
    simpl; by repeat (case_goal; simpl).
Qed.

Definition spent (id : nat) (o : option (affinityStore (D := D))) : Prop :=
  match o with Some s => id ∈ af_used s | None => True end.

Lemma run_op_spent id f op : spent id (fr_affinity f) → spent id (fr_affinity (run_op f op)).
Proof.
  intros Hf. destruct op as [tk ct|masked b rules settings|r]; simpl; [| |done].
  - unfold RecordAffinitySuccess. destruct (fr_affinity f) as [s|] eqn:Es; [|by rewrite Es].
    destruct tk as [tk|]; [|by rewrite Es]. case_match; [by rewrite Es|]. case_match; [by rewrite Es|]. simpl.
    case_match; [simpl in *; set_solver|]. rewrite record_locked_used. simpl in *. set_solver.
  - by apply (prepare_pres (spent id)).
Qed.

(** A token counts once.  After an outcome on a target the token allows was
    recorded, and whatever happened since, recording any outcome with the same
    token again does nothing at all. *)
Theorem affinity_token_once tk ct ct' f ops :
  affinityTargetOf ct ∈ tk_allowed tk →
  let f' := foldl run_op (RecordAffinitySuccess (Some tk) ct f) ops in
  RecordAffinitySuccess (Some tk) ct' f' = f'.
Proof.
  intros Ha f'. assert (spent (tk_id tk) (fr_affinity f')) as Hs.
  { unfold f'. assert (spent (tk_id tk) (fr_affinity (RecordAffinitySuccess (Some tk) ct f))) as H0.
    { unfold RecordAffinitySuccess. destruct (fr_affinity f) as [s|] eqn:Es; [|by rewrite Es].
      rewrite (proj2 (contains_spec _ _) Ha). cbn [negb].
      destruct (bool_decide (tk_id tk ∈ af_used s)) eqn:Eu; [rewrite Es; by bsplit|]. simpl.
      case_match; [simpl; set_solver|]. rewrite record_locked_used. simpl. set_solver. }
    revert H0. generalize (RecordAffinitySuccess (Some tk) ct f). induction ops as [|op ops IH]; intros f0 H0; [done|].
    cbn [foldl]. apply IH. by apply run_op_spent. }
  unfold RecordAffinitySuccess at 1. destruct (fr_affinity f') as [s|]; [|done]. case_match; [done|].
  by rewrite bool_decide_eq_true_2.
Qed.

End Store.

(** ** The session key *)

(** What follows the first user message is not read. *)
Lemma message_fields_more ms more fs :
  message_fields ms = (fs, true) → message_fields (ms ++ more) = (fs, true).
Proof.
  revert fs. induction ms as [|[role content] ms IH]; intros fs; cbn [message_fields app]; [done|].
  case_bool_decide; [done|]. destruct (message_fields ms) as [fs' found] eqn:E. intros [= <- ->].
  by rewrite (IH fs' eq_refl).
Qed.

(** The key is that of the conversation and of its owner.  Two requests with
    the same key fields come from the same team, key and user, on the same
    protocol, for the same requested model; and a body that appends turns to one
    with a user message, its instructions and tools unchanged, has the same
    fields. *)
Theorem session_scoped parse_body parse_string parse_items i i' st fs :
  session_fields parse_body parse_string parse_items i st = Some fs →
  (session_fields parse_body parse_string parse_items i' st = Some fs →
     (pr_Team (in_Principal i), pr_KeyID (in_Principal i), AccountSubject (in_Principal i), in_Protocol i,
      Canonical st (requested_of i)) =
     (pr_Team (in_Principal i'), pr_KeyID (in_Principal i'), AccountSubject (in_Principal i'), in_Protocol i',
      Canonical st (requested_of i'))) ∧
  ∀ raw body more input,
    in_SessionHint i = "" → parse_body (in_RawBody i) = Some body → (message_fields (sb_Messages body)).2 = true →
    Z.of_nat (String.length raw) <= maxBody →
    parse_body raw = Some {| sb_System := sb_System body; sb_Tools := sb_Tools body;
                             sb_Messages := sb_Messages body ++ more; sb_Input := input;
                             sb_Instructions := sb_Instructions body |} →
    session_fields parse_body parse_string parse_items (with_body raw i) st = Some fs.
Proof.
  assert (∀ j fs', session_fields parse_body parse_string parse_items j st = Some fs' →
    ∃ rest, fs' = FList [pr_Team (in_Principal j); pr_KeyID (in_Principal j); AccountSubject (in_Principal j);
                         in_Protocol j; Canonical st (requested_of j)] :: rest) as Hhead.
  { intros j fs' Hj. unfold session_fields in Hj. cbv zeta in Hj. destruct (negb _) eqn:?.
    - destruct (_ <? _)%nat; [done|]. injection Hj as <-. by eexists.
    - destruct (_ <? _); [done|]. destruct (parse_body (in_RawBody j)) as [body|]; [|done]. simpl in Hj.
      destruct (message_fields _) as [ms found]. destruct found; [injection Hj as <-; by eexists|].
      case_bool_decide; [|done]. destruct (input_fields _ _ _) as [more|]; [|done]. injection Hj as <-. by eexists. }
  intros Hi. split.
  - intros Hi'. destruct (Hhead _ _ Hi) as [r ->], (Hhead _ _ Hi') as [r' E]. by injection E as -> -> -> -> -> _.
  - intros raw body more input Hhint Hb Hm Hlen Hb'. revert Hi. unfold session_fields. cbv zeta.
    change (in_SessionHint (with_body raw i)) with (in_SessionHint i). rewrite Hhint. cbn [negb].
    rewrite bool_decide_eq_true_2 by done. cbn [negb].
    change (in_RawBody (with_body raw i)) with raw. rewrite Hb, Hb'. simpl mbind. unfold option_bind.
    destruct (message_fields (sb_Messages body)) as [ms found] eqn:E. simpl in Hm. subst found.
    cbn [sb_Messages sb_System sb_Tools sb_Instructions]. rewrite (message_fields_more _ _ _ E).
    destruct (maxBody <? _) eqn:E1; [done|]. intros [= <-].
    destruct (maxBody <? Z.of_nat (String.length raw)) eqn:E2; [bsplit; lia|done].
Qed.

(** ** Witnesses *)

Definition demo_affinity : affinityStore (D := string) :=
  {| af_now := λ _, 1000 * Second; af_reads := 0; af_entries := ∅; af_revision := 0; af_used := ∅; af_next := 0 |}.
Definition demo_sessions : FullRouter (D := string) := {| fr_router := demo_router; fr_affinity := Some demo_affinity |}.
Definition demo_settings : ContextStability := {| MinHold := Second; MinRequests := 3; SessionTTL := 60 * Second |}.
Definition demo_attempt : ChainTarget :=
  {| ct_Provider := {| pv_Name := "bedrock"; pv_SupportsIngress := None; pv_SupportsBedrockConverse := None |};
     ct_ProviderName := "bedrock"; ct_Identity := "id"; ct_Upstream := "us.zai.glm-5"; ct_Model := "glm-5";
     ct_Region := "eu-west-1"; ct_DataBoundary := "internal" |}.
Definition demo_token (id : nat) (expected : Z) : AffinityToken string :=
  mkToken id "session" "policy" expected (1000 * Second) demo_settings [affinityTargetOf demo_attempt].

Abbreviation demo_run := (run_op (λ _, "session") (λ _, "policy") (λ _, None) (λ _, None) (λ _, None) map_to_list
  (λ _ _, 0) no_gates).

Lemma affinity_bounded_witness :
  let f := foldl demo_run demo_sessions [Record_ (Some (demo_token 0 0)) demo_attempt;
                                     Record_ (Some (demo_token 1 1)) demo_attempt] in
  ∃ s, fr_affinity f = Some s ∧ (e_requests <$> af_entries s !! "session") = Some 2 ∧
    Z.of_nat (size (af_entries s)) <= 4096.
Proof.
  cbv zeta. set (ops := [_; _]).
  destruct (fr_affinity (foldl demo_run demo_sessions ops)) as [s|] eqn:Es; [|vm_compute in Es; discriminate Es].
  exists s. split; [reflexivity|]. split.
  - vm_compute in Es. injection Es as <-. vm_compute. reflexivity.
  - apply (affinity_bounded (λ _, "session") (λ _, "policy") (λ _, None) (λ _, None) (λ _, None) map_to_list
      (λ _ _, 0) no_gates demo_sessions ops); [|exact Es].
    intros s0 [= <-]. split; reflexivity.
Defined.

Lemma affinity_token_once_witness :
  let f := RecordAffinitySuccess (Some (demo_token 0 0)) demo_attempt demo_sessions in
  RecordAffinitySuccess (Some (demo_token 0 0)) demo_attempt f = f.
Proof.
  apply (affinity_token_once (λ _, "session") (λ _, "policy") (λ _, None) (λ _, None) (λ _, None) map_to_list
    (λ _ _, 0) no_gates (demo_token 0 0) demo_attempt demo_attempt demo_sessions []).
  apply list_elem_of_here.
Defined.

Definition demo_request (raw : string) : RequestRoutingInput :=
  {| in_Principal := only_a; in_Protocol := "openai"; in_RawBody := raw; in_RequestedModel := ""; in_Model := "glm";
     in_Chain := []; in_State := None; in_AllowedRegions := []; in_CountOnly := false; in_SessionHint := "";
     in_Redactor := None; in_Compatible := None |}.
(** A body is the letter [u] per user turn. *)
Definition demo_parse (raw : string) : option SessionBody :=
  Some {| sb_System := "be brief"; sb_Tools := ""; sb_Input := ""; sb_Instructions := "";
          sb_Messages := map (λ c, ("user", String c "")) (String.list_ascii_of_string raw) |}.

Lemma session_scoped_witness :
  let fields raw := session_fields demo_parse (λ _, None) (λ _, None) (demo_request raw) demo_state in
  fields "u" = Some [FList ["acme"; "ik"; ""; "openai"; "glm-5"]; FRaw "be brief"; FRaw ""; FRaw ""; FRaw "u"] ∧
  fields "uvw" = fields "u".
Proof.
  cbv zeta. split; [vm_compute; reflexivity|].
  assert (session_fields demo_parse (λ _, None) (λ _, None) (demo_request "u") demo_state =
    Some [FList ["acme"; "ik"; ""; "openai"; "glm-5"]; FRaw "be brief"; FRaw ""; FRaw ""; FRaw "u"]) as E
    by (vm_compute; reflexivity).
  rewrite E.
  apply (proj2 (session_scoped demo_parse (λ _, None) (λ _, None) (demo_request "u") (demo_request "uvw") demo_state _ E)
    "uvw" (default (Build_SessionBody "" "" [] "" "") (demo_parse "u")) [("user", "v"); ("user", "w")] "");
    vm_compute; first [reflexivity|discriminate].
Defined.
