(* ===== verification/RequestRouting.v ===== *)
(** * Routing one request (internal/router/{request_routing,classify,converse_compatibility}.go)

    [RouteRequest] decides every attempt a request may make before any upstream
    call: policies, access, the mandatory budget model, inspection, classifiers,
    privacy obligations, masking, the filtered chain, and the optional context
    rules with session affinity.  The inspector, the redactor, the classifier
    run, the keyword matchers and JSON decoding are parameters; the theorems hold
    for every choice of them. *)

From S2P Require Import Prelude GoTime V1Alpha1 Policy Pricing Breaker Live Router Boundary Affinity.

(** ** Classifiers (internal/classifier) *)

Inductive ClassifierMode := ClassifierShadow | ClassifierEnforce.

#[export] Instance ClassifierMode_eq_dec : EqDecision ClassifierMode.
Proof. solve_decision. Defined.

Inductive Outcome := OutcomeFlagged | OutcomeClear | OutcomeAbstain | OutcomeError | OutcomeSkipped.

#[export] Instance Outcome_eq_dec : EqDecision Outcome.
Proof. solve_decision. Defined.

Record Entry := {
  en_Name : string; en_Revision : string; en_Mode : ClassifierMode; en_Global : bool; en_Teams : gset string
}.

(** [Set.For]: the entries of a team, in configuration order. *)
Definition For (entries : list Entry) (team : string) : list Entry :=
  filter (λ e, (en_Global e || bool_decide (team ∈ en_Teams e))%bool = true) entries.

Definition hasEnforce (entries : list Entry) : bool :=
  existsb (λ e, bool_decide (en_Mode e = ClassifierEnforce)) entries.

(** classifier.Result, without its measurements. *)
Record ClassifierResult := {
  cr_Name : string; cr_Revision : string; cr_Mode : ClassifierMode; cr_Outcome : Outcome
}.

Definition Failed (entries : list Entry) : list ClassifierResult :=
  map (λ e, {| cr_Name := en_Name e; cr_Revision := en_Revision e; cr_Mode := en_Mode e;
               cr_Outcome := OutcomeError |}) entries.

Definition is_enforced (os : list Outcome) (r : ClassifierResult) : bool :=
  (bool_decide (cr_Mode r = ClassifierEnforce) && contains (cr_Outcome r) os)%bool.

(** Enforced flags and enforced failures, independently. *)
Definition Combine (rs : list ClassifierResult) : bool * bool :=
  (existsb (is_enforced [OutcomeFlagged]) rs, existsb (is_enforced [OutcomeAbstain; OutcomeError]) rs).

Record ClassifierRef := {
  cf_Name : string; cf_Revision : string; cf_Boundary : string; cf_Mode : ClassifierMode;
  cf_Result : Outcome; cf_WouldRestrict : bool
}.

Definition ref_of (r : ClassifierResult) : ClassifierRef :=
  {| cf_Name := cr_Name r; cf_Revision := cr_Revision r; cf_Boundary := "internal"; cf_Mode := cr_Mode r;
     cf_Result := cr_Outcome r;
     cf_WouldRestrict := (bool_decide (cr_Mode r = ClassifierShadow)
                          && contains (cr_Outcome r) [OutcomeFlagged; OutcomeAbstain; OutcomeError])%bool |}.

(** ** The request Converse preserves (converse_compatibility.go) *)

Definition is_alpha (c : Ascii.ascii) : bool :=
  let n := Ascii.nat_of_ascii c in
  (((65 <=? n)%nat && (n <=? 90)%nat) || ((97 <=? n)%nat && (n <=? 122)%nat))%bool.

Fixpoint all_chars (f : Ascii.ascii → bool) (s : string) : bool :=
  match s with EmptyString => true | String c s => (f c && all_chars f s)%bool end.

(** ^[A-Za-z][A-Za-z0-9_]{0,63}$ *)
Definition converseToolName (s : string) : bool :=
  match s with
  | EmptyString => false
  | String c s =>
      (is_alpha c && (String.length s <=? 63)%nat
       && all_chars (λ c, (is_alpha c || is_digit c || Ascii.eqb c (Ascii.ascii_of_nat 95))%bool) s)%bool
  end.

Definition onlyConverseFields (fields : list (string * string)) (allowed : list string) : bool :=
  forallb (λ kv, contains kv.1 allowed) fields.

(** The decoded body; objects are their fields, values raw JSON, absent fields empty. *)
Record ConverseBody := {
  cb_Roles : list string; cb_Tools : list (list (string * string)); cb_ToolChoice : list (string * string);
  cb_MaxCompletionTokens : string; cb_MaxOutputTokens : string; cb_Stop : string; cb_InferenceConfig : string
}.

Definition field (k : string) (fs : list (string * string)) : option string :=
  match List.find (λ kv, String.eqb kv.1 k) fs with Some kv => Some kv.2 | None => None end.

Section Converse.
Context (parse_converse : string → option ConverseBody) (parse_str : string → option string).

(** JSON white space trimmed on the left. *)
Fixpoint trim_left (s : string) : string :=
  match s with
  | String c r => if contains (Ascii.nat_of_ascii c) [9; 10; 13; 32]%nat then trim_left r else s
  | EmptyString => s
  end.

Definition object_schema (fs : list (string * string)) : bool :=
  match trim_left (default "" (field "input_schema" fs)) with
  | String c _ => Ascii.eqb c (Ascii.ascii_of_nat 123)
  | EmptyString => false
  end.

(** The names of the tools, if every tool is one Converse keeps. *)
Fixpoint tools_loop (tools : list (list (string * string))) (names : list string) : option (list string) :=
  match tools with
  | [] => Some names
  | t :: tools =>
      if negb (onlyConverseFields t ["name"; "description"; "input_schema"]) then None
      else
        name ← parse_str (default "" (field "name" t));
        if (negb (converseToolName name) || contains name names)%bool then None
        else if match field "description" t with Some d => negb (is_Some_b (parse_str d)) | None => false end then None
        else if negb (object_schema t) then None
        else tools_loop tools (name :: names)
  end.

Definition choice_ok (choice : list (string * string)) (names : list string) : bool :=
  if bool_decide (length choice = 0%nat) then true
  else if negb (onlyConverseFields choice ["type"; "name"]) then false
  else match parse_str (default "" (field "type" choice)) with
       | None => false
       | Some kind =>
           match match field "name" choice with Some n => parse_str n | None => Some "" end with
           | None => false
           | Some name =>
               if bool_decide (kind = "auto") then bool_decide (name = "")
               else if bool_decide (kind = "any") then (bool_decide (name = "") && negb (bool_decide (length names = 0%nat)))%bool
               else if bool_decide (kind = "tool") then contains name names
               else false
           end
       end.

Definition conversePreservesRequest (raw : string) : bool :=
  match parse_converse raw with
  | None => false
  | Some b =>
      if bool_decide (length (cb_Roles b) = 0%nat) then false
      else if existsb (λ s, negb (bool_decide (s = "")))
                [cb_MaxCompletionTokens b; cb_MaxOutputTokens b; cb_Stop b; cb_InferenceConfig b] then false
      else if negb (forallb (λ r, contains r ["user"; "assistant"]) (cb_Roles b)) then false
      else match tools_loop (cb_Tools b) [] with
           | None => false
           | Some names => choice_ok (cb_ToolChoice b) names
           end
  end.
End Converse.

(** ** Results *)

Record RoutingRecommendation := { rc_Policy : RoutingPolicyRef; rc_Model : string; rc_Reason : string }.

Record RoutingDecision := {
  rd_RequestedModel : string; rd_SelectedModel : string; rd_ProposedModel : string; rd_Mode : string;
  rd_Reason : string; rd_Inspection : string; rd_Privacy : string; rd_Categories : list string;
  rd_Policies : list RoutingPolicyRef; rd_Recommendations : list RoutingRecommendation;
  rd_Masked : bool; rd_Classifiers : list ClassifierRef
}.

Record RequestRoutingResult (D : Type) := mkResult {
  o_PolicyGeneration : string; o_Model : string; o_Chain : list ChainTarget; o_State : option Live.State;
  o_Decision : RoutingDecision; o_MaskRequired : bool; o_SanitizedBody : option string;
  o_AffinityToken : option (AffinityToken D)
}.
Arguments mkResult {D} _ _ _ _ _ _ _ _.
Arguments o_PolicyGeneration {D} _.
Arguments o_Model {D} _.
Arguments o_Chain {D} _.
Arguments o_State {D} _.
Arguments o_Decision {D} _.
Arguments o_MaskRequired {D} _.
Arguments o_SanitizedBody {D} _.
Arguments o_AffinityToken {D} _.

Record RequestRoutingError := { re_StatusCode : Z; re_Reason : string; re_PolicyRejected : bool }.

(** Field updates of a decision: the reason; the inspection; the selection; the rest. *)
Definition d_reason (reason : string) (d : RoutingDecision) : RoutingDecision :=
  {| rd_RequestedModel := rd_RequestedModel d; rd_SelectedModel := rd_SelectedModel d;
     rd_ProposedModel := rd_ProposedModel d; rd_Mode := rd_Mode d; rd_Reason := reason;
     rd_Inspection := rd_Inspection d; rd_Privacy := rd_Privacy d; rd_Categories := rd_Categories d;
     rd_Policies := rd_Policies d; rd_Recommendations := rd_Recommendations d; rd_Masked := rd_Masked d;
     rd_Classifiers := rd_Classifiers d |}.
Definition d_selected (m : string) (d : RoutingDecision) : RoutingDecision :=
  {| rd_RequestedModel := rd_RequestedModel d; rd_SelectedModel := m;
     rd_ProposedModel := rd_ProposedModel d; rd_Mode := rd_Mode d; rd_Reason := rd_Reason d;
     rd_Inspection := rd_Inspection d; rd_Privacy := rd_Privacy d; rd_Categories := rd_Categories d;
     rd_Policies := rd_Policies d; rd_Recommendations := rd_Recommendations d; rd_Masked := rd_Masked d;
     rd_Classifiers := rd_Classifiers d |}.
Definition d_inspected (how : string) (cats : list string) (d : RoutingDecision) : RoutingDecision :=
  {| rd_RequestedModel := rd_RequestedModel d; rd_SelectedModel := rd_SelectedModel d;
     rd_ProposedModel := rd_ProposedModel d; rd_Mode := rd_Mode d; rd_Reason := rd_Reason d;
     rd_Inspection := how; rd_Privacy := rd_Privacy d; rd_Categories := cats;
     rd_Policies := rd_Policies d; rd_Recommendations := rd_Recommendations d; rd_Masked := rd_Masked d;
     rd_Classifiers := rd_Classifiers d |}.
Definition d_privacy (p : string) (d : RoutingDecision) : RoutingDecision :=
  {| rd_RequestedModel := rd_RequestedModel d; rd_SelectedModel := rd_SelectedModel d;
     rd_ProposedModel := rd_ProposedModel d; rd_Mode := rd_Mode d; rd_Reason := rd_Reason d;
     rd_Inspection := rd_Inspection d; rd_Privacy := p; rd_Categories := rd_Categories d;
     rd_Policies := rd_Policies d; rd_Recommendations := rd_Recommendations d; rd_Masked := rd_Masked d;
     rd_Classifiers := rd_Classifiers d |}.
Definition d_masked (d : RoutingDecision) : RoutingDecision :=
  {| rd_RequestedModel := rd_RequestedModel d; rd_SelectedModel := rd_SelectedModel d;
     rd_ProposedModel := rd_ProposedModel d; rd_Mode := rd_Mode d; rd_Reason := rd_Reason d;
     rd_Inspection := rd_Inspection d; rd_Privacy := rd_Privacy d; rd_Categories := rd_Categories d;
     rd_Policies := rd_Policies d; rd_Recommendations := rd_Recommendations d; rd_Masked := true;
     rd_Classifiers := rd_Classifiers d |}.
Definition d_policies (ps : list RoutingPolicyRef) (d : RoutingDecision) : RoutingDecision :=
  {| rd_RequestedModel := rd_RequestedModel d; rd_SelectedModel := rd_SelectedModel d;
     rd_ProposedModel := rd_ProposedModel d; rd_Mode := rd_Mode d; rd_Reason := rd_Reason d;
     rd_Inspection := rd_Inspection d; rd_Privacy := rd_Privacy d; rd_Categories := rd_Categories d;
     rd_Policies := ps; rd_Recommendations := rd_Recommendations d; rd_Masked := rd_Masked d;
     rd_Classifiers := rd_Classifiers d |}.
Definition d_classified (cats : list string) (cs : list ClassifierRef) (d : RoutingDecision) : RoutingDecision :=
  {| rd_RequestedModel := rd_RequestedModel d; rd_SelectedModel := rd_SelectedModel d;
     rd_ProposedModel := rd_ProposedModel d; rd_Mode := rd_Mode d; rd_Reason := rd_Reason d;
     rd_Inspection := rd_Inspection d; rd_Privacy := rd_Privacy d; rd_Categories := cats;
     rd_Policies := rd_Policies d; rd_Recommendations := rd_Recommendations d; rd_Masked := rd_Masked d;
     rd_Classifiers := cs |}.
Definition d_context (mode proposed reason : string) (recs : list RoutingRecommendation) (d : RoutingDecision)
    : RoutingDecision :=
  {| rd_RequestedModel := rd_RequestedModel d; rd_SelectedModel := rd_SelectedModel d;
     rd_ProposedModel := proposed; rd_Mode := mode; rd_Reason := reason;
     rd_Inspection := rd_Inspection d; rd_Privacy := rd_Privacy d; rd_Categories := rd_Categories d;
     rd_Policies := rd_Policies d; rd_Recommendations := recs; rd_Masked := rd_Masked d;
     rd_Classifiers := rd_Classifiers d |}.

(** ** Rules *)

(** The rules of the documents, in the order (policy, generation, rule). *)
Definition ref_le (a b : requestRule) : bool :=
  let ra := rr_ref a in let rb := rr_ref b in
  match String.compare (rp_Name ra) (rp_Name rb) with
  | Lt => true
  | Gt => false
  | Eq => match rp_Generation ra ?= rp_Generation rb with
          | Lt => true
          | Gt => false
          | Eq => match String.compare (rp_Rule ra) (rp_Rule rb) with Gt => false | _ => true end
          end
  end.

Definition doc_rules (st : Live.State) (source : string) (doc : Policy) : list requestRule :=
  p_Rules doc ≫= λ rule,
    let ref := {| rp_Name := p_Name doc; rp_Generation := p_Generation doc; rp_Rule := r_Name rule |} in
    match r_SensitiveData rule with
    | Some sd => [{| rr_ref := ref; rr_sensitive := Some sd; rr_context := None |}]
    | None => []
    end ++
    match r_Routing rule ≫= ro_Context with
    | Some c => if existsb (λ from, String.eqb (Canonical st from) source) (FromModels c)
                then [{| rr_ref := ref; rr_sensitive := None; rr_context := Some c |}] else []
    | None => []
    end.

Definition ref_leP (a b : requestRule) : Prop := ref_le a b = true.
#[export] Instance ref_leP_dec a b : Decision (ref_leP a b) := decide (ref_le a b = true).

(** Rules with equal references do not occur: names are unique in a document and
    among documents. *)
Definition requestRules (docs : list Policy) (st : Live.State) (source : string) : list requestRule :=
  merge_sort ref_leP (docs ≫= doc_rules st source).

(** Sorted, without repetition, from the closed set. *)
Fixpoint compact (cs : list string) : list string :=
  match cs with
  | [] => []
  | c :: cs => match compact cs with
               | (c' :: _) as rest => if bool_decide (c = c') then rest else c :: rest
               | [] => [c]
               end
  end.
Definition knownCategories : list string :=
  ["email"; "phone"; "credit_card"; "ssn"; "ipv4"; "korean_rrn"; "model_pii"].
Definition boundedCategories (cs : list string) : list string :=
  compact (merge_sort str_le (filter (λ c, contains c knownCategories = true) cs)).

(** ** The decision *)

Inductive LookupError := LookupRejected | LookupFailed.

Record classifierSignal := { cs_classified : bool; cs_uninspectable : bool }.
Definition no_signal : classifierSignal := {| cs_classified := false; cs_uninspectable := false |}.

(** What a privacy rule asks for: only internal models, masking, refusal. *)
Record Obligation := { ob_internal : bool; ob_mask : bool; ob_block : bool }.

(** One active trigger; only the detectors' one ([first]) may require masking. *)
Definition trigger (first active : bool) (action : string) (o : Obligation) : Obligation :=
  if active then
    if bool_decide (action = v1alpha1.InternalOnly)
    then {| ob_internal := true; ob_mask := ob_mask o; ob_block := ob_block o |}
    else if bool_decide (action = v1alpha1.Mask) then
      if first then {| ob_internal := ob_internal o; ob_mask := true; ob_block := ob_block o |}
      else {| ob_internal := ob_internal o; ob_mask := ob_mask o; ob_block := true |}
    else {| ob_internal := ob_internal o; ob_mask := ob_mask o; ob_block := true |}
  else o.

Definition obligation (sd : SensitiveData) (s : Inspection) (sig : classifierSignal) : Obligation :=
  let classified := if bool_decide (OnDetected sd = v1alpha1.Mask) then OnUninspectable sd else OnDetected sd in
  trigger false (cs_uninspectable sig) (OnUninspectable sd)
    (trigger false (cs_classified sig) classified
       (trigger false (negb (i_Complete s)) (OnUninspectable sd)
          (trigger true (negb (bool_decide (length (i_Categories s) = 0%nat))) (OnDetected sd)
             {| ob_internal := false; ob_mask := false; ob_block := false |}))).

(** All rules apply; the boundary is intersected by the internal ones. *)
Definition privacy_step (s : Inspection) (sig : classifierSignal) (acc : requestBoundary * bool * bool)
    (r : requestRule) : requestBoundary * bool * bool :=
  match rr_sensitive r with
  | None => acc
  | Some sd =>
      let '(b, mask, block) := acc in
      let o := obligation sd s sig in
      (if ob_internal o then intersect (InternalModels sd) b else b, (mask || ob_mask o)%bool, (block || ob_block o)%bool)
  end.

Definition privacy (s : Inspection) (sig : classifierSignal) (rules : list requestRule) (b : requestBoundary)
    : requestBoundary * bool * bool := foldl (privacy_step s sig) (b, false, false) rules.

Section Routing.
Context {D : Type} `{Countable D}.
Context (session_digest : list Field → D) (policy_digest : PolicyEvidence → D).
Context (parse_body : string → option SessionBody) (parse_string : string → option string)
        (parse_items : string → option (list (string * string))).
Context (range : gmap string ModelConfig → list (string * ModelConfig)).
Context (range_str : gmap string string → list (string * string)).
Context (Estimate : string → string → Z) (g : Gates).
Context (inspector : Inspector) (router_redactor : option Redactor).
Context (converse_safe : string → bool).
(** The keyword matchers: body, protocol, keywords. *)
Context (MatchesContextKeywords : string → string → list string → bool) (MatchesKeywords : string → list string → bool).
(** The generation's classifiers, and their run over the segments of a body. *)
Context (classifiers : list Entry) (run_classifiers : list Entry → string → string → list ClassifierResult).
(** The policy snapshot of a team and user. *)
Context (lookup : option (string → string → string * result LookupError (list Policy))).
(** Whether the request's context has ended after redaction and after reinspection. *)
Context (cancelled : bool * bool).

Abbreviation Full := (FullRouter (D := D)).
Abbreviation Result := (RequestRoutingResult D).

Definition decide_with (f : RoutingDecision → RoutingDecision) (o : Result) : Result :=
  mkResult (o_PolicyGeneration o) (o_Model o) (o_Chain o) (o_State o) (f (o_Decision o)) (o_MaskRequired o)
    (o_SanitizedBody o) (o_AffinityToken o).
Definition route_to (model : string) (chain : list ChainTarget) (o : Result) : Result :=
  mkResult (o_PolicyGeneration o) model chain (o_State o) (o_Decision o) (o_MaskRequired o) (o_SanitizedBody o)
    (o_AffinityToken o).
Definition with_token (tk : option (AffinityToken D)) (o : Result) : Result :=
  mkResult (o_PolicyGeneration o) (o_Model o) (o_Chain o) (o_State o) (o_Decision o) (o_MaskRequired o)
    (o_SanitizedBody o) tk.
Definition with_mask (required : bool) (body : option string) (o : Result) : Result :=
  mkResult (o_PolicyGeneration o) (o_Model o) (o_Chain o) (o_State o) (o_Decision o) required body (o_AffinityToken o).

Definition denyRouting (reason : string) (rejected : bool) (o : Result) : Result * option RequestRoutingError :=
  (mkResult (o_PolicyGeneration o) "" [] (o_State o) (d_reason reason (d_selected "" (o_Decision o)))
     (o_MaskRequired o) None None,
   Some {| re_StatusCode := 403; re_Reason := reason; re_PolicyRejected := rejected |}).

Definition finishRouting (chain : list ChainTarget) (o : Result) : Result * option RequestRoutingError :=
  match chain with
  | [] => denyRouting "no_safe_route" false o
  | ct :: _ => (decide_with (d_selected (ct_Model ct)) (route_to (ct_Model ct) chain o), None)
  end.

(** The targets an outcome may be pinned to. *)
Definition finishAffinity (o : Result) (tk : option (AffinityToken D)) (b : requestBoundary) : Result :=
  match tk with
  | None => o
  | Some tk =>
      let tk := allow_targets (map affinityTargetOf (filter_chain Estimate g b (o_Chain o) true)) tk in
      if bool_decide (length (tk_allowed tk) = 0%nat) then o else with_token (Some tk) o
  end.

(** ** Context rules *)

Definition contextKeywordMatch (c : Context_) (i : RequestRoutingInput) : bool :=
  if (negb (bool_decide (NormalModel c = "")) || is_Some_b (Stability c))%bool
  then MatchesContextKeywords (in_RawBody i) (in_Protocol i) (ComplexKeywords c)
  else MatchesKeywords (in_RawBody i) (ComplexKeywords c).

(** The model and the reason of one rule. *)
Definition recommend (c : Context_) (b : requestBoundary) (s : Inspection) : string * string :=
  let normal := negb (bool_decide (NormalModel c = "")) in
  if (normal && contextKeywordMatch c (b_in b))%bool then (ComplexModel c, "complex_keyword")
  else if MaxSimpleInputTokens c <? i_InputTokens s then
    if (normal && (i_InputTokens s <=? MaxNormalInputTokens c))%bool then (NormalModel c, "normal_input")
    else (ComplexModel c, "input_threshold")
  else if (negb normal && contextKeywordMatch c (b_in b))%bool then (ComplexModel c, "complex_keyword")
  else (SimpleModel c, "simple").

Record Proposal := {
  pp_mode : string; pp_proposed : string; pp_conflict : bool; pp_stable : bool;
  pp_recs : list RoutingRecommendation
}.

Definition propose_step (b : requestBoundary) (s : Inspection) (p : Proposal) (r : requestRule) : Proposal :=
  match rr_context r with
  | None => p
  | Some c =>
      let '(model, reason) := recommend c b s in
      let model := Canonical (b_st b) model in
      {| pp_mode := if bool_decide (Mode c = v1alpha1.Enforce) then pp_mode p else "Shadow";
         pp_proposed := model;
         pp_conflict := (pp_conflict p || (negb (bool_decide (pp_proposed p = "")) && negb (bool_decide (model = pp_proposed p))))%bool;
         pp_stable := (pp_stable p && is_Some_b (Stability c))%bool;
         pp_recs := pp_recs p ++ [{| rc_Policy := rr_ref r; rc_Model := model; rc_Reason := reason |}] |}
  end.

Definition propose (b : requestBoundary) (s : Inspection) (rules : list requestRule) : Proposal :=
  foldl (propose_step b s)
    {| pp_mode := "Enforce"; pp_proposed := ""; pp_conflict := false; pp_stable := true; pp_recs := [] |} rules.

(** The leading path of a recommendation can carry this request. *)
Definition leading_ok (b : requestBoundary) (proposed : string) : bool :=
  match Route (b_st b) proposed with
  | None => false
  | Some mc =>
      match mc_Targets mc with
      | [] => false
      | first :: _ =>
          match chain_target (b_st b) proposed first with
          | None => false
          | Some leading =>
              compatible b leading
                {| t_Provider := t_Provider first; t_Model := t_Model first;
                   t_API := default (t_API first) (b_apis b !! (t_Provider first, t_Model first)) |}
          end
      end
  end.

(** A first turn, or a session under stability rules. *)
Definition context_eligible (stable : bool) (s : Inspection) : bool :=
  negb (negb (i_Complete s) || (i_UserTurns s <? 1)
        || (negb stable && (negb (i_UserTurns s =? 1) || i_HasHistory s || i_HasTools s || i_HasVision s
                            || i_HasReasoning s || i_HasStructuredOutput s))).

Abbreviation prepare := (prepareAffinity session_digest policy_digest parse_body parse_string parse_items range Estimate g).

Definition applyContext (o : Result) (b : requestBoundary) (rules : list requestRule) (s : Inspection)
    : ST Full Result :=
  let p := propose b s rules in
  if bool_decide (length (pp_recs p) = 0%nat) then mret o
  else
    let d reason := decide_with (d_context (pp_mode p) (pp_proposed p) reason (pp_recs p)) in
    if pp_conflict p then
      mret (decide_with (d_context (pp_mode p) "" "context_conflict" (pp_recs p)) o)
    else if bool_decide (pp_mode p = "Shadow") then mret (d "context_shadow" o)
    else
      let settings := stabilityOf rules in
      let stable := (pp_stable p && is_Some_b settings)%bool in
      '(token, pinned) ← prepare (rd_Masked (o_Decision o)) b rules settings;
      match pinned with
      | ct :: _ =>
          mret (finishAffinity
                  (decide_with (d_selected (ct_Model ct)) (d "context_affinity" (route_to (ct_Model ct) pinned o)))
                  token b)
      | [] =>
          if negb (context_eligible stable s) then mret (d "context_ineligible" o)
          else if bool_decide (pp_proposed p = Canonical (b_st b) (o_Model o)) then
            mret (finishAffinity (d "context_unchanged" o) token b)
          else if negb (leading_ok b (pp_proposed p)) then
            mret (finishAffinity (d "context_unavailable" o) token b)
          else
            candidate ← on_router (requestChain range Estimate g b (pp_proposed p));
            match candidate with
            | ct :: _ =>
                if bool_decide (ct_Model ct = pp_proposed p)
                then mret (finishAffinity
                             (decide_with (d_selected (pp_proposed p))
                                (d "context_selected" (route_to (pp_proposed p) candidate o))) token b)
                else mret (finishAffinity (d "context_unavailable" o) token b)
            | [] => mret (finishAffinity (d "context_unavailable" o) token b)
            end
      end.

(** ** The whole decision *)

Definition has_privacy (rules : list requestRule) : bool := existsb (λ r, is_Some_b (rr_sensitive r)) rules.

Definition classify (i : RequestRoutingInput) : classifierSignal * list ClassifierRef :=
  let entries := For classifiers (pr_Team (in_Principal i)) in
  if bool_decide (length entries = 0%nat) then (no_signal, [])
  else
    let rs := run_classifiers entries (in_Protocol i) (in_RawBody i) in
    let '(c, u) := Combine rs in
    ({| cs_classified := c; cs_uninspectable := u |}, map ref_of rs).

(** A count makes no classifier call: an Enforce classifier leaves its body uninspected. *)
Definition signal (i : RequestRoutingInput) (rules : list requestRule) : classifierSignal * list ClassifierRef :=
  if (has_privacy rules && negb (in_CountOnly i))%bool then classify i
  else if (has_privacy rules && hasEnforce (For classifiers (pr_Team (in_Principal i))))%bool
  then ({| cs_classified := false; cs_uninspectable := true |}, [])
  else (no_signal, []).

Definition inspection_name (s : Inspection) : string := if i_Complete s then "complete" else "incomplete".

(** The boundary a request starts from. *)
Definition open_boundary (i : RequestRoutingInput) (st : Live.State) (s : option Inspection) (safe : bool)
    (budget : string) : requestBoundary :=
  {| b_in := i; b_st := st; b_inspection := s; b_models := None; b_apis := requestAPIs range st;
     b_converseSafe := safe; b_budgetModel := budget; b_ignoreContext := false |}.

(** Redaction, and the independent check of what it returns. *)
Definition mask_body (i : RequestRoutingInput) : option (string * Inspection) :=
  redact ← match in_Redactor i with Some f => Some f | None => router_redactor end;
  body ← redact (in_Protocol i) (in_RawBody i);
  if fst cancelled then None
  else
    checked ← inspectForRoute inspector (in_Protocol i) body DetectSensitiveData;
    if (negb (i_Complete checked) || negb (bool_decide (length (i_Categories checked) = 0%nat)) || snd cancelled)%bool
    then None else Some (body, checked).

(** The first approved internal model with a safe path, in name order. *)
Fixpoint first_internal (b : requestBoundary) (names : list string) : ST Full (list ChainTarget) :=
  match names with
  | [] => mret []
  | n :: names =>
      candidate ← on_router (requestChain range Estimate g b n);
      if bool_decide (length candidate = 0%nat) then first_internal b names else mret candidate
  end.

Definition sorted_names (ms : gset string) : list string := merge_sort str_le (elements ms).

(** The last part: the chain under the final boundary. *)
Definition route_bounded (o : Result) (i : RequestRoutingInput) (b : requestBoundary) (strict : bool)
    (rules : list requestRule) (s : Inspection) : ST Full (Result * option RequestRoutingError) :=
  let o := match b_models b with
           | Some _ => decide_with (λ d, d_reason "internal_only" (d_privacy "internal_only" d)) o
           | None => o
           end in
  '(o, safe) ←
    (if (strict : bool) then
       safe ← on_router (requestChain range Estimate g b (b_budgetModel b));
       mret (match b_models b with None => decide_with (d_reason "budget_target") o | Some _ => o end, safe)
     else
       let safe := filter_chain Estimate g b (in_Chain i) false in
       match safe, b_models b with
       | [], Some ms => safe ← first_internal b (sorted_names ms); mret (o, safe)
       | _, _ => mret (o, safe)
       end);
  if (strict && bool_decide (length safe = 0%nat))%bool then mret (denyRouting "budget_target_unavailable" false o)
  else if (bool_decide (length safe = 0%nat) && negb strict && negb (is_Some_b (b_models b))
           && contextOnly Estimate g b (in_Chain i))%bool
  then mret (denyRouting "context_window_exceeded" false o)
  else
    let '(o, err) := finishRouting safe o in
    match err with
    | Some _ => mret (o, err)
    | None => if in_CountOnly i then mret (o, None) else o ← applyContext o b rules s; mret (o, None)
    end.

(** From a completed inspection on. *)
Definition route_inspected (o : Result) (i : RequestRoutingInput) (st : Live.State) (budget : string) (strict : bool)
    (rules : list requestRule) (s : Inspection) : ST Full (Result * option RequestRoutingError) :=
  let o := decide_with (d_inspected (inspection_name s) (boundedCategories (i_Categories s))) o in
  let b := open_boundary i st (Some s) (converse_safe (in_RawBody i)) budget in
  if (negb (has_privacy rules) && negb strict)%bool then
    if in_CountOnly i then mret (o, None) else o ← applyContext o b rules s; mret (o, None)
  else
    let '(sig, refs) := signal i rules in
    let o := decide_with (λ d, d_classified
               (if cs_classified sig then boundedCategories (i_Categories s ++ ["model_pii"]) else rd_Categories d)
               refs d) o in
    let '(b, mask, block) := privacy s sig rules b in
    let o := with_mask mask None o in
    if block then mret (denyRouting "sensitive_blocked" false (decide_with (d_privacy "block") o))
    else if mask then
      match mask_body i with
      | None => mret (denyRouting "mask_failed" false o)
      | Some (body, checked) =>
          let o := decide_with d_masked (with_mask true (Some body) o) in
          route_bounded o i (rebody body checked (converse_safe body) b) strict rules checked
      end
    else route_bounded o i b strict rules s.

Definition route_checked (o : Result) (i : RequestRoutingInput) (st : Live.State) (budget : string) (strict : bool)
    (rules : list requestRule) : ST Full (Result * option RequestRoutingError) :=
  let guarded := (has_privacy rules || strict)%bool in
  let mode := if has_privacy rules then DetectSensitiveData else StructureOnly in
  let inspected := inspectForRoute inspector (in_Protocol i) (in_RawBody i) mode in
  let failed := decide_with (λ d, d_inspected "failed" (rd_Categories d) d) o in
  if bool_decide (in_Protocol i = "responses") then
    match inspected with
    | None => mret (denyRouting "inspection_failed" false failed)
    | Some s =>
        let o := decide_with (d_inspected (inspection_name s) (boundedCategories (i_Categories s))) o in
        if guarded then route_inspected o i st budget strict rules s
        else
          let transport := open_boundary i st (Some s) false "" in
          match filter_chain Estimate g transport (in_Chain i) false with
          | [] => mret (denyRouting (if contextOnly Estimate g transport (in_Chain i)
                                     then "context_window_exceeded" else "no_safe_route") false o)
          | (ct :: _) as chain =>
              let o := decide_with (d_selected (ct_Model ct)) (route_to (o_Model o) chain o) in
              if bool_decide (length rules = 0%nat) then mret (o, None)
              else route_inspected o i st budget strict rules s
          end
    end
  else if guarded then
    match inspected with
    | None => mret (denyRouting "inspection_failed" false failed)
    | Some s => route_inspected o i st budget strict rules s
    end
  else
    match legacyChain g i st with
    | [] => mret (denyRouting "no_safe_route" false o)
    | (ct :: _) as chain =>
        let o := decide_with (d_selected (ct_Model ct)) (route_to (o_Model o) chain o) in
        if bool_decide (length rules = 0%nat) then mret (o, None)
        else match inspected with
             | None => mret (decide_with (λ d, d_reason "context_inspection_failed"
                                                (d_inspected "failed" (rd_Categories d) d)) o, None)
             | Some s => route_inspected o i st budget strict rules s
             end
    end.

Definition initial (i : RequestRoutingInput) (generation : string) : Result :=
  mkResult generation (in_Model i) [] (in_State i)
    {| rd_RequestedModel := requested_of i; rd_SelectedModel := ""; rd_ProposedModel := ""; rd_Mode := "";
       rd_Reason := "unchanged"; rd_Inspection := "not_inspected"; rd_Privacy := ""; rd_Categories := [];
       rd_Policies := []; rd_Recommendations := []; rd_Masked := false; rd_Classifiers := [] |}
    false None None.

Definition RouteRequest (i : RequestRoutingInput) : ST Full (Result * option RequestRoutingError) :=
  let requested := requested_of i in
  let '(generation, docs) :=
    match lookup with
    | None => ("", Ok [])
    | Some f => f (pr_Team (in_Principal i)) (AccountSubject (in_Principal i))
    end in
  let o := initial i generation in
  match docs with
  | Err e => mret (denyRouting "policy_lookup_failed" (match e with LookupRejected => true | LookupFailed => false end) o)
  | Ok docs =>
      match in_State i with
      | None => mret (denyRouting "no_safe_route" false o)
      | Some st =>
          let i := with_model (Canonical st (in_Model i)) i in
          let rules := requestRules docs st (in_Model i) in
          let o := decide_with (d_policies (map rr_ref rules)) o in
          if (negb (allowsInState g (in_Principal i) (Canonical st requested) st)
              || negb (allowsInState g (in_Principal i) (in_Model i) st))%bool
          then mret (denyRouting "model_forbidden" false o)
          else
            let '(budget, strict) := budgetConstraint g range_str (in_Principal i) st requested in
            if (strict && bool_decide (budget = ""))%bool
            then mret (denyRouting "budget_target_unavailable" false o)
            else route_checked o i st budget strict rules
      end
  end.
End Routing.
