(* ===== verification/RoutingSafety.v ===== *)
(** * What a routed request may reach

    The safety of [RouteRequest]: whatever the inspector, the redactor, the
    classifiers, the matchers and the digests answer, each planned attempt
    passes the key's allow-list and the policy gate, the allowed regions, the
    ingress's own check, the mandatory budget model and every triggered privacy
    rule; a refusal carries nothing that could be sent. *)

From S2P Require Import Prelude GoTime V1Alpha1 Policy PolicyStore Pricing Breaker Live Router Boundary Affinity RequestRouting.

(** ** Permitted attempts *)

(** What one planned attempt has passed, under a budget model ([""] is none) and
    an internal-only model set. *)
Record permitted (g : Gates) (i : RequestRoutingInput) (st : Live.State) (budget : string)
    (ms : option (gset string)) (ct : ChainTarget) : Prop := {
  pm_access : allowsInState g (in_Principal i) (Canonical st (ct_Model ct)) st = true;
  pm_region : region_ok (in_AllowedRegions i) (Region st (ct_ProviderName ct)) = true;
  pm_compat : ∀ f, in_Compatible i = Some f → f ct = true;
  pm_budget : budget ≠ "" → Canonical st (ct_Model ct) = budget;
  pm_internal : ∀ set, ms = Some set →
    Canonical st (ct_Model ct) ∈ set ∧ DataBoundary st (ct_ProviderName ct) = "internal"
}.

Definition permits (g : Gates) (b : requestBoundary) : ChainTarget → Prop :=
  permitted g (b_in b) (b_st b) (b_budgetModel b) (b_models b).

(** Aliases lead to models, which are no aliases. *)
Lemma Canonical_idem st m : topology_wf st → Canonical st (Canonical st m) = Canonical st m.
Proof.
  intros Hwf. unfold Canonical at 2 3. destruct (aliases st !! m) as [m'|] eqn:E; simpl.
  - apply (wf_alias _ Hwf) in E as (mc & Hm & _). unfold Canonical.
    destruct (aliases st !! m') as [m''|] eqn:E'; [|done].
    by rewrite (wf_alias_model _ Hwf m') in Hm by by rewrite E'.
  - unfold Canonical. by rewrite E.
Qed.

(** A kept entry is permitted. *)
Lemma filter_target_permits Estimate g b auto ct ct' :
  topology_wf (b_st b) → filter_target Estimate g b auto ct = Some ct' → permits g b ct'.
Proof.
  intros Hwf. unfold filter_target. set (st := b_st b). set (model := Canonical st (ct_Model ct)).
  destruct (_ && _)%bool eqn:Eb; [done|]. destruct (allowsInState _ _ _ _) eqn:Ea; [|done]. cbn [negb].
  destruct (Route st model) as [mc|] eqn:Er; [|done]. simpl mbind. unfold option_bind.
  destruct (find_target mc ct) as [t|] eqn:Et; [|done].
  destruct (State_Provider st (ct_ProviderName ct)) as [p|] eqn:Ep; [|done].
  simpl. match goal with |- context [compatible b ?c _] => set (ct0 := c) end.
  destruct (region_ok _ _) eqn:Eg; [|done]. cbn [negb].
  destruct (match b_models b with Some _ => _ | None => _ end) eqn:Ei; [done|].
  destruct (compatible b ct0 _) eqn:Ec; [|done]. cbn [negb]. intros H.
  assert (ct' = ct0) as -> by (repeat case_match; congruence). clear H.
  assert (Canonical st model = model) as Hid by by apply Canonical_idem.
  split; simpl; fold st; rewrite ?Hid; try done.
  - intros f Hf. unfold compatible in Ec. rewrite Hf in Ec. repeat case_match; congruence.
  - intros Hne. bcases; congruence.
  - intros set Hs. rewrite Hs in Ei. bsplit. by bsplit.
Qed.

Lemma filter_chain_permits Estimate g b chain auto :
  topology_wf (b_st b) → Forall (permits g b) (filter_chain Estimate g b chain auto).
Proof.
  intros Hwf. unfold filter_chain. case_match; [by constructor|]. apply Forall_forall. intros ct.
  rewrite list_elem_of_omap. intros (ct0 & _ & Hf). by eapply filter_target_permits.
Qed.

(** With remote tools nothing internal is approved. *)
Lemma filter_chain_remote Estimate g b chain auto ms s :
  b_models b = Some ms → b_inspection b = Some s → i_HasRemoteTools s = true →
  filter_chain Estimate g b chain auto = [].
Proof. intros Hm Hi Hr. unfold filter_chain. by rewrite Hm, Hi, Hr. Qed.

Lemma requestChain_permits range Estimate g b model r :
  topology_wf (b_st b) →
  wp (requestChain range Estimate g b model) (λ chain r', Forall (permits g b) chain ∧ r_live r' = r_live r) r.
Proof.
  intros Hwf. unfold requestChain. destruct (Route _ _) as [mc|]; [|by rewrite wp_ret].
  case_match; [by rewrite wp_ret|]. set (all := filter_chain _ _ _ _ _).
  assert (Forall (permits g b) all) as Hall by by apply filter_chain_permits.
  rewrite wp_bind. eapply wp_mono; [apply healthy_spec|]. intros allowed r' (Hl & _ & Hin). rewrite wp_ret.
  split; [|done]. destruct (bool_decide (length allowed = 0%nat)); [done|]. apply Forall_forall. intros ct Hct%Hin.
  by eapply Forall_forall in Hall.
Qed.

Lemma legacyChain_permits g i st :
  Forall (permitted g i st "" None) (legacyChain g i st).
Proof.
  apply Forall_forall. intros ct [Hc _]%list_elem_of_filter. bsplit. split; try done.
  intros f Hf. by rewrite Hf in *.
Qed.

(** ** Privacy obligations *)

(** The rules' obligations, all together. *)
Definition privacy_rules (rules : list requestRule) : list SensitiveData := omap rr_sensitive rules.

Definition with_models (ms : option (gset string)) (b : requestBoundary) : requestBoundary :=
  {| b_in := b_in b; b_st := b_st b; b_inspection := b_inspection b; b_models := ms; b_apis := b_apis b;
     b_converseSafe := b_converseSafe b; b_budgetModel := b_budgetModel b; b_ignoreContext := b_ignoreContext b |}.

Definition narrow_to (st : Live.State) (ms : option (gset string)) (sd : SensitiveData) : option (gset string) :=
  let set : gset string := list_to_set (map (Canonical st) (InternalModels sd)) in
  Some (match ms with None => set | Some ms => ms ∩ set end).

Lemma privacy_closed s sig rules b :
  let os := map (λ sd, (sd, obligation sd s sig)) (privacy_rules rules) in
  privacy s sig rules b =
    (with_models (foldl (narrow_to (b_st b)) (b_models b) (filter (λ x, ob_internal x.2 = true) os).*1) b,
     existsb (λ x, ob_mask x.2) os, existsb (λ x, ob_block x.2) os).
Proof.
  cbv zeta. unfold privacy. enough (∀ b mask block,
    foldl (privacy_step s sig) (b, mask, block) rules =
      (with_models (foldl (narrow_to (b_st b)) (b_models b)
         (filter (λ x, ob_internal x.2 = true) (map (λ sd, (sd, obligation sd s sig)) (privacy_rules rules))).*1) b,
       (mask || existsb (λ x, ob_mask x.2) (map (λ sd, (sd, obligation sd s sig)) (privacy_rules rules)))%bool,
       (block || existsb (λ x, ob_block x.2) (map (λ sd, (sd, obligation sd s sig)) (privacy_rules rules)))%bool))
    as H by apply H.
  clear b. unfold privacy_rules. induction rules as [|r rules IH]; intros b mask block; cbn [foldl].
  { cbn. rewrite !orb_false_r. by destruct b. }
  unfold privacy_step at 2. cbn [omap list_omap]. destruct (rr_sensitive r) as [sd|]; [|apply IH].
  cbn [map existsb fst snd]. rewrite IH, !orb_assoc. rewrite filter_cons. cbn [snd].
  destruct (ob_internal (obligation sd s sig)); [|by rewrite decide_False].
  rewrite decide_True by done. done.
Qed.

Lemma narrow_all st sds ms sd set :
  sd ∈ sds → foldl (narrow_to st) ms sds = Some set → set ⊆ list_to_set (map (Canonical st) (InternalModels sd)).
Proof.
  assert (∀ sds ms set, foldl (narrow_to st) (Some ms) sds = Some set → set ⊆ ms) as Hsub.
  { clear. induction sds as [|sd sds IH]; intros ms set; cbn [foldl]; [by intros [= ->]|].
    intros H%IH. set_solver. }
  revert ms. induction sds as [|sd' sds IH]; intros ms Hin; cbn [foldl]; [by apply elem_of_nil in Hin|].
  apply elem_of_cons in Hin as [<-|Hin]; [|by apply IH].
  unfold narrow_to at 2. intros H%Hsub. destruct ms; set_solver.
Qed.

Lemma narrow_Some st sds ms : (is_Some ms ∨ sds ≠ []) → is_Some (foldl (narrow_to st) ms sds).
Proof.
  revert ms. induction sds as [|sd sds IH]; intros ms H; cbn [foldl].
  - by destruct H.
  - apply IH. left. unfold narrow_to. by eexists.
Qed.

(** Narrowing twice commutes. *)
Lemma narrow_perm st sds sds' ms : sds ≡ₚ sds' → foldl (narrow_to st) ms sds = foldl (narrow_to st) ms sds'.
Proof.
  intros H. revert ms. induction H as [|sd sds sds' _ IH|sd sd' sds|? ? ? ? IH1 ? IH2]; intros ms; cbn [foldl].
  - done.
  - apply IH.
  - f_equal. unfold narrow_to. f_equal. destruct ms; set_solver.
  - by rewrite IH1.
Qed.

Lemma existsb_perm {A} (f : A → bool) l k : l ≡ₚ k → existsb f l = existsb f k.
Proof. induction 1; simpl; try congruence. by destruct (f x), (f y). Qed.

(** ** What a rule triggers *)

(** The verdicts that make a rule's action due: a detector's finding, a body the
    inspector could not read, a classifier's flag (which has nothing to redact)
    and a classifier's failure. *)
Inductive triggered (sd : SensitiveData) (s : Inspection) (sig : classifierSignal) : string → Prop :=
| tr_detected : i_Categories s ≠ [] → triggered sd s sig (OnDetected sd)
| tr_incomplete : i_Complete s = false → triggered sd s sig (OnUninspectable sd)
| tr_classified : cs_classified sig = true → OnDetected sd ≠ v1alpha1.Mask → triggered sd s sig (OnDetected sd)
| tr_classified_mask : cs_classified sig = true → OnDetected sd = v1alpha1.Mask →
    triggered sd s sig (OnUninspectable sd)
| tr_failed : cs_uninspectable sig = true → triggered sd s sig (OnUninspectable sd).

(** [trigger] only adds. *)
Lemma trigger_mono first active action o :
  (ob_internal o = true → ob_internal (trigger first active action o) = true) ∧
  (ob_mask o = true → ob_mask (trigger first active action o) = true) ∧
  (ob_block o = true → ob_block (trigger first active action o) = true).
Proof. unfold trigger. repeat case_match; done. Qed.

Lemma trigger_active first action o o' :
  o' = trigger first true action o →
  (action = v1alpha1.InternalOnly → ob_internal o' = true) ∧
  (action = v1alpha1.Mask → ob_mask o' = true ∨ ob_block o' = true) ∧
  (action ≠ v1alpha1.InternalOnly → action ≠ v1alpha1.Mask → ob_block o' = true).
Proof.
  intros ->. unfold trigger. destruct (bool_decide (action = v1alpha1.InternalOnly)) eqn:E1; bsplit; subst.
  { split; [done|]. split; [done|]. done. }
  destruct (bool_decide (action = v1alpha1.Mask)) eqn:E2; bsplit; subst; [|done].
  split; [done|]. split; [|done]. destruct first; simpl; auto.
Qed.

Lemma obligation_triggered sd s sig a :
  triggered sd s sig a →
  let o := obligation sd s sig in
  (a = v1alpha1.InternalOnly → ob_internal o = true) ∧
  (a = v1alpha1.Mask → ob_mask o = true ∨ ob_block o = true) ∧
  (a ≠ v1alpha1.InternalOnly → a ≠ v1alpha1.Mask → ob_block o = true).
Proof.
  intros Ht. cbv zeta. unfold obligation.
  set (o0 := {| ob_internal := false; ob_mask := false; ob_block := false |}).
  set (t1 := trigger true (negb (bool_decide (length (i_Categories s) = 0%nat))) (OnDetected sd) o0).
  set (t2 := trigger false (negb (i_Complete s)) (OnUninspectable sd) t1).
  set (c := if bool_decide (OnDetected sd = v1alpha1.Mask) then OnUninspectable sd else OnDetected sd).
  set (t3 := trigger false (cs_classified sig) c t2).
  set (t4 := trigger false (cs_uninspectable sig) (OnUninspectable sd) t3).
  destruct (trigger_mono false (negb (i_Complete s)) (OnUninspectable sd) t1) as (M2i & M2m & M2b).
  destruct (trigger_mono false (cs_classified sig) c t2) as (M3i & M3m & M3b).
  destruct (trigger_mono false (cs_uninspectable sig) (OnUninspectable sd) t3) as (M4i & M4m & M4b).
  fold t2 in M2i, M2m, M2b. fold t3 in M3i, M3m, M3b. fold t4 in M4i, M4m, M4b.
  assert (∀ first action o', (∃ o, o' = trigger first true action o) →
    (ob_internal o' = true → ob_internal t4 = true) → (ob_mask o' = true → ob_mask t4 = true) →
    (ob_block o' = true → ob_block t4 = true) →
    (action = v1alpha1.InternalOnly → ob_internal t4 = true) ∧
    (action = v1alpha1.Mask → ob_mask t4 = true ∨ ob_block t4 = true) ∧
    (action ≠ v1alpha1.InternalOnly → action ≠ v1alpha1.Mask → ob_block t4 = true)) as Hcase.
  { intros first action o' [o Ho] Hi Hm Hb. destruct (trigger_active _ _ _ _ Ho) as (A1 & A2 & A3).
    split; [|split]; [by auto| |by auto]. intros E. destruct (A2 E); auto. }
  destruct Ht as [Hc|Hc|Hc Hn|Hc Hn|Hc].
  - apply (Hcase true _ t1); auto. exists o0. unfold t1. rewrite bool_decide_eq_false_2; [done|].
    by destruct (i_Categories s).
  - apply (Hcase false _ t2); auto. exists t1. unfold t2. by rewrite Hc.
  - apply (Hcase false _ t3); auto. exists t2. unfold t3, c. rewrite Hc. by rewrite bool_decide_eq_false_2.
  - apply (Hcase false _ t3); auto. exists t2. unfold t3, c. rewrite Hc. by rewrite bool_decide_eq_true_2.
  - apply (Hcase false _ t4); auto. exists t3. unfold t4. by rewrite Hc.
Qed.

(** Masking is required only for what a detector found. *)
Lemma obligation_mask sd s sig :
  ob_mask (obligation sd s sig) = true → i_Categories s ≠ [] ∧ OnDetected sd = v1alpha1.Mask.
Proof.
  unfold obligation, trigger. intros H. repeat case_hyp H; simpl in *; try done; bsplit; subst;
    (split; [by intros E; rewrite E in *|done]).
Qed.

Lemma privacy_due s sig rules b b' mask sd a :
  privacy s sig rules b = (b', mask, false) → sd ∈ privacy_rules rules → triggered sd s sig a →
  (a = v1alpha1.InternalOnly ∧
   ∃ set, b_models b' = Some set ∧ set ⊆ list_to_set (map (Canonical (b_st b)) (InternalModels sd))) ∨
  (a = v1alpha1.Mask ∧ mask = true).
Proof.
  intros Hp Hin Ht. rewrite privacy_closed in Hp. injection Hp as Hb' Hm Hb. subst b'.
  assert ((sd, obligation sd s sig) ∈ map (λ sd, (sd, obligation sd s sig)) (privacy_rules rules)) as Hos.
  { apply list_elem_of_fmap. by exists sd. }
  apply existsb_Forall in Hb. eapply Forall_forall in Hb; [|exact Hos]. simpl in Hb.
  destruct (obligation_triggered _ _ _ _ Ht) as (Hi & Hk & Ho).
  destruct (decide (a = v1alpha1.InternalOnly)) as [Ea|Ea].
  - left. split; [done|]. simpl.
    match goal with |- context [foldl _ _ ?l] => assert (sd ∈ l) as Hf end.
    { apply list_elem_of_fmap. exists (sd, obligation sd s sig). split; [done|]. apply list_elem_of_filter. auto. }
    match goal with |- context [foldl ?f ?x ?l] => destruct (narrow_Some (b_st b) l x) as [set Hset] end.
    { right. intros E. rewrite E in Hf. by apply elem_of_nil in Hf. }
    exists set. split; [done|]. by eapply narrow_all.
  - right. destruct (decide (a = v1alpha1.Mask)) as [Ek|Ek]; [|by rewrite Ho in Hb].
    split; [done|]. destruct (Hk Ek) as [Hk'|Hk']; [|congruence]. rewrite <- Hm. apply existsb_exists.
    exists (sd, obligation sd s sig). split; [by apply list_elem_of_In|done].
Qed.

Lemma privacy_rules_in docs doc rule sd st src :
  doc ∈ docs → rule ∈ p_Rules doc → r_SensitiveData rule = Some sd →
  sd ∈ privacy_rules (requestRules docs st src).
Proof.
  intros Hd Hr Hs. unfold privacy_rules. apply list_elem_of_omap.
  set (ref := {| rp_Name := p_Name doc; rp_Generation := p_Generation doc; rp_Rule := r_Name rule |}).
  exists {| rr_ref := ref; rr_sensitive := Some sd; rr_context := None |}. split; [|done].
  unfold requestRules. rewrite merge_sort_Permutation. apply list_elem_of_bind. exists doc. split; [|done].
  unfold doc_rules. apply list_elem_of_bind. exists rule. split; [|done]. rewrite Hs. apply list_elem_of_here.
Qed.

Lemma has_privacy_in rules sd : sd ∈ privacy_rules rules → has_privacy rules = true.
Proof.
  intros (r & Hr & Hs)%list_elem_of_omap. apply existsb_exists. exists r.
  split; [by apply list_elem_of_In|by rewrite Hs].
Qed.

Lemma privacy_none s sig rules b : has_privacy rules = false → privacy s sig rules b = (b, false, false).
Proof.
  intros Hn. rewrite privacy_closed. assert (privacy_rules rules = []) as ->.
  { unfold has_privacy in Hn. unfold privacy_rules. induction rules as [|r rules IH]; [done|].
    cbn [existsb] in Hn. bsplit. cbn [omap list_omap]. destruct (rr_sensitive r); [done|auto]. }
  cbn. by destruct b.
Qed.

(** [privacy] changes nothing else of the boundary. *)
Lemma privacy_fields s sig rules b b' mask block :
  privacy s sig rules b = (b', mask, block) →
  b_in b' = b_in b ∧ b_st b' = b_st b ∧ b_budgetModel b' = b_budgetModel b.
Proof. rewrite privacy_closed. by intros [= <- _ _]. Qed.

(** ** Chains, tokens and outcomes *)

Section Safety.
Context {D : Type} `{Countable D}.
Context (session_digest : list Field → D) (policy_digest : PolicyEvidence → D).
Context (parse_body : string → option SessionBody) (parse_string : string → option string)
        (parse_items : string → option (list (string * string))).
Context (range : gmap string ModelConfig → list (string * ModelConfig)).
Context (range_str : gmap string string → list (string * string)).
Context (Estimate : string → string → Z) (g : Gates).
Context (inspector : Inspector) (router_redactor : option Redactor).
Context (converse_safe : string → bool).
Context (MatchesContextKeywords : string → string → list string → bool) (MatchesKeywords : string → list string → bool).
Context (classifiers : list Entry) (run_classifiers : list Entry → string → string → list ClassifierResult).
Context (cancelled : bool * bool).

Abbreviation Full := (FullRouter (D := D)).
Abbreviation Result := (RequestRoutingResult D).
Abbreviation request_chain := (requestChain range Estimate g).
Abbreviation filtered := (filter_chain Estimate g).
Abbreviation apply_context := (applyContext session_digest policy_digest parse_body parse_string parse_items range
  Estimate g MatchesContextKeywords MatchesKeywords).
Abbreviation bounded := (route_bounded session_digest policy_digest parse_body parse_string parse_items range
  Estimate g MatchesContextKeywords MatchesKeywords).
Abbreviation inspected := (route_inspected session_digest policy_digest parse_body parse_string parse_items range
  Estimate g inspector router_redactor converse_safe MatchesContextKeywords MatchesKeywords classifiers
  run_classifiers cancelled).
Abbreviation checked := (route_checked session_digest policy_digest parse_body parse_string parse_items range
  Estimate g inspector router_redactor converse_safe MatchesContextKeywords MatchesKeywords classifiers
  run_classifiers cancelled).

Lemma wp_on_router {A} (m : ST Router A) (Q : A → Full → Prop) f :
  wp (on_router m) Q f ↔ wp m (λ a r, Q a {| fr_router := r; fr_affinity := fr_affinity f |}) (fr_router f).
Proof. unfold wp, on_router. by destruct (m (fr_router f)). Qed.

Lemma request_chain_wp b model (Q : list ChainTarget → Full → Prop) f :
  topology_wf (b_st b) → (∀ chain f', Forall (permits g b) chain → Q chain f') →
  wp (on_router (request_chain b model)) Q f.
Proof.
  intros Hwf HQ. rewrite wp_on_router. eapply wp_mono; [by apply requestChain_permits|]. intros chain r' [Hc _].
  by apply HQ.
Qed.

(** The pinned entry is one of the chain's. *)
Lemma find_pinned_spec target chain i f :
  wp (find_pinned (D := D) target chain i) (λ found _,
    ∀ j ct, found = Some (j, ct) → ct ∈ chain ∧ affinityTargetOf ct = target) f.
Proof.
  revert i f. induction chain as [|ct chain IH]; intros i f; cbn [find_pinned]; [by rewrite wp_ret|].
  case_bool_decide as Ht.
  - rewrite wp_bind, wp_on_router. unfold wp at 1. destruct (on_brk _ _) as [ok r]. cbn [fst snd].
    destruct ok.
    + rewrite wp_ret. intros j ct' [= <- <-]. split; [apply list_elem_of_here|done].
    + eapply wp_mono; [apply IH|]. intros found f' Hf j ct' [Hin Ha]%Hf.
      split; [by apply list_elem_of_further|done].
  - eapply wp_mono; [apply IH|]. intros found f' Hf j ct' [Hin Ha]%Hf.
    split; [by apply list_elem_of_further|done].
Qed.

(** A new token allows nothing yet; a pinned chain is a permitted one. *)
Lemma prepareAffinity_permits masked b rules settings f :
  topology_wf (b_st b) →
  wp (prepareAffinity session_digest policy_digest parse_body parse_string parse_items range Estimate g
        masked b rules settings)
    (λ r _, Forall (permits g b) r.2 ∧ ∀ tk, r.1 = Some tk → tk_allowed tk = []) f.
Proof.
  intros Hwf. unfold prepareAffinity. rewrite wp_get.
  destruct (fr_affinity f) as [s|]; [|by rewrite wp_ret]. destruct settings as [settings|]; [|by rewrite wp_ret].
  destruct (in_CountOnly _); [by rewrite wp_ret|]. destruct (sessionKey _ _ _ _ _ _) as [key|]; [|by rewrite wp_ret].
  destruct (af_clock s) as [t s1]. destruct (lookup_entry _ _ _ _) as [entry s2].
  unfold new_token. apply wp_skip. intros _ f1.
  destruct entry as [e|].
  2: { rewrite wp_ret. split; [by constructor|]. by intros tk [= <-]. }
  rewrite wp_bind. apply request_chain_wp; [done|]. intros chain0 f2 _.
  set (chain := filtered b chain0 true). assert (Forall (permits g b) chain) as Hc by by apply filter_chain_permits.
  rewrite wp_bind. eapply wp_mono; [apply find_pinned_spec|]. intros [[i ct]|] f3 Hf.
  - destruct (Hf i ct eq_refl) as [Hin _]. destruct (_ || _)%bool; rewrite wp_ret.
    + split; [|by intros tk [= <-]]. constructor; [by eapply Forall_forall in Hc|].
      apply Forall_app. split; [by apply Forall_take|by apply Forall_drop].
    + split; [by constructor|]. by intros tk [= <-].
  - apply wp_skip. intros [] f4; rewrite wp_ret; (split; [by constructor|]; by intros tk [= <-]).
Qed.

(** A routed outcome: a planned attempt at least, each permitted, the first one
    selected, and a token that names permitted targets only. *)
Record outcome (b : requestBoundary) (o : Result) : Prop := {
  oc_chain : o_Chain o ≠ [];
  oc_permits : Forall (permits g b) (o_Chain o);
  oc_selected : rd_SelectedModel (o_Decision o) = default "" (ct_Model <$> head (o_Chain o));
  oc_token tk t : o_AffinityToken o = Some tk → t ∈ tk_allowed tk →
    ∃ ct, permits g b ct ∧ affinityTargetOf ct = t
}.

(** What later steps leave alone. *)
Record kept (o o' : Result) : Prop := {
  kp_state : o_State o' = o_State o;
  kp_mask : o_MaskRequired o' = o_MaskRequired o;
  kp_body : o_SanitizedBody o' = o_SanitizedBody o;
  kp_policies : rd_Policies (o_Decision o') = rd_Policies (o_Decision o);
  kp_masked : rd_Masked (o_Decision o') = rd_Masked (o_Decision o)
}.

(** A step of the decision that keeps its policies and its mark of masking. *)
Definition keeps_marks (d : RoutingDecision → RoutingDecision) : Prop :=
  ∀ x, rd_Policies (d x) = rd_Policies x ∧ rd_Masked (d x) = rd_Masked x.
(** Nothing has been masked. *)
Definition unmasked (o : Result) : Prop := o_MaskRequired o = false ∧ rd_Masked (o_Decision o) = false.

(** A refusal carries no model, chain, body or token. *)
Record refusal (o : Result) (e : RequestRoutingError) : Prop := {
  rf_status : re_StatusCode e = 403;
  rf_chain : o_Chain o = [];
  rf_model : o_Model o = "" ∧ rd_SelectedModel (o_Decision o) = "";
  rf_body : o_SanitizedBody o = None;
  rf_token : o_AffinityToken o = None;
  rf_reason : rd_Reason (o_Decision o) = re_Reason e
}.

Lemma denyRouting_refusal reason rejected (o : Result) :
  ∃ o' e, denyRouting reason rejected o = (o', Some e) ∧ refusal o' e.
Proof. eexists _, _. split; [done|]. by split. Qed.

Lemma kept_refl o : kept o o.
Proof. by split. Qed.
Lemma kept_trans o1 o2 o3 : kept o1 o2 → kept o2 o3 → kept o1 o3.
Proof. intros [] []. split; congruence. Qed.

(** Only the decision's observations change. *)
Lemma outcome_decide b o f :
  (∀ d, rd_SelectedModel (f d) = rd_SelectedModel d) → outcome b o → outcome b (decide_with f o).
Proof. intros Hf [? ? Hs ?]. split; simpl; try done. by rewrite Hf. Qed.

Lemma kept_decide o f : keeps_marks f → kept o (decide_with f o).
Proof. intros Hf. destruct (Hf (o_Decision o)). by split. Qed.

Lemma finishAffinity_outcome b o tk :
  topology_wf (b_st b) → (∀ t, tk = Some t → tk_allowed t = []) → outcome b o →
  outcome b (finishAffinity Estimate g o tk b) ∧ kept o (finishAffinity Estimate g o tk b).
Proof.
  intros Hwf Htk Ho. unfold finishAffinity. destruct tk as [tk|]; [|by split; [|apply kept_refl]].
  cbv zeta. case_bool_decide; [by split; [|apply kept_refl]|]. split; [|by split].
  destruct Ho as [Hc Hp Hs _]. split; simpl; try done. intros tk' t [= <-] Ht.
  cbn [tk_allowed allow_targets] in Ht. rewrite (Htk tk eq_refl) in Ht. simpl in Ht.
  apply list_elem_of_fmap in Ht as (ct & -> & Hct). exists ct. split; [|done].
  pose proof (filter_chain_permits Estimate g b (o_Chain o) true Hwf) as Hf. by eapply Forall_forall in Hf.
Qed.

Abbreviation goes_on b o := (λ o' (_ : Full), outcome b o' ∧ kept o o').

(** A recommendation observed, with a token for the outcome. *)
Lemma context_observed b o tk d :
  topology_wf (b_st b) → outcome b o → (∀ t, tk = Some t → tk_allowed t = []) →
  (∀ x, rd_SelectedModel (d x) = rd_SelectedModel x) → keeps_marks d →
  ∀ f : Full, wp (mret (finishAffinity Estimate g (decide_with d o) tk b)) (goes_on b o) f.
Proof.
  intros Hwf Ho Htk Hs Hp f. rewrite wp_ret.
  destruct (finishAffinity_outcome b _ tk Hwf Htk (outcome_decide b o d Hs Ho)) as [Ho2 Hk2].
  split; [done|]. eapply kept_trans; [by apply (kept_decide o d)|done].
Qed.

(** A recommendation followed. *)
Lemma context_followed b o tk d model ct rest :
  topology_wf (b_st b) → outcome b o → (∀ t, tk = Some t → tk_allowed t = []) →
  Forall (permits g b) (ct :: rest) → keeps_marks d →
  ∀ f : Full,
  wp (mret (finishAffinity Estimate g
        (decide_with (d_selected (ct_Model ct)) (decide_with d (route_to model (ct :: rest) o))) tk b))
    (goes_on b o) f.
Proof.
  intros Hwf [? ? ? Ht] Htk Hc Hp f. rewrite wp_ret.
  assert (outcome b (decide_with (d_selected (ct_Model ct)) (decide_with d (route_to model (ct :: rest) o)))) as Ho1
    by by split.
  destruct (finishAffinity_outcome b _ tk Hwf Htk Ho1) as [Ho2 Hk2]. split; [done|].
  destruct (Hp (o_Decision o)). eapply kept_trans; [|done]. by split.
Qed.

Lemma applyContext_outcome b o rules s f :
  topology_wf (b_st b) → outcome b o → wp (apply_context o b rules s) (goes_on b o) f.
Proof.
  intros Hwf Ho. unfold applyContext. set (p := propose _ _ b s rules).
  assert (∀ m ps r recs, goes_on b o (decide_with (d_context m ps r recs) o) f) as Hd.
  { intros m ps r recs. by split; [apply outcome_decide|apply kept_decide]. }
  case_match; [rewrite wp_ret; by split; [|apply kept_refl]|].
  destruct (pp_conflict p); [by rewrite wp_ret|]. case_match; [by rewrite wp_ret|].
  rewrite wp_bind. eapply wp_mono; [by apply prepareAffinity_permits|]. intros [tk pinned] f1 [Hp Htk].
  cbn [fst snd] in Hp, Htk. destruct pinned as [|ct pinned]; [|by apply context_followed].
  case_match; [by rewrite wp_ret|]. case_match; [by apply context_observed|].
  case_match; [by apply context_observed|].
  rewrite wp_bind. apply request_chain_wp; [done|]. intros [|ct rest] f2 Hc; [by apply context_observed|].
  destruct (bool_decide (ct_Model ct = pp_proposed p)) eqn:Hm; [bsplit|by apply context_observed]. rewrite <- Hm. by apply context_followed.
Qed.

(** ** The last part: a chain under the final boundary *)

(** A successful outcome is [outcome] under [b], a refusal carries nothing. *)
Definition routed (b : requestBoundary) (o : Result) (r : Result * option RequestRoutingError) : Prop :=
  match r.2 with
  | Some e => refusal r.1 e
  | None => outcome b r.1 ∧ kept o r.1
  end.

Lemma routed_deny b o0 reason rejected (o : Result) (f : Full) :
  wp (mret (denyRouting reason rejected o)) (λ r _, routed b o0 r) f.
Proof. rewrite wp_ret. by destruct (denyRouting_refusal reason rejected o) as (o' & e & -> & Hr). Qed.

Lemma first_internal_permits b names f :
  topology_wf (b_st b) →
  wp (first_internal (D := D) range Estimate g b names) (λ chain _, Forall (permits g b) chain) f.
Proof.
  intros Hwf. revert f. induction names as [|n names IH]; intros f; cbn [first_internal]; [by rewrite wp_ret|].
  rewrite wp_bind. apply request_chain_wp; [done|]. intros chain f1 Hc. case_match; [apply IH|by rewrite wp_ret].
Qed.

Lemma route_context b o o0 i rules s f :
  topology_wf (b_st b) → outcome b o → kept o0 o →
  wp (if in_CountOnly i then mret (o, None) else o ← apply_context o b rules s; mret (o, None))
    (λ r _, routed b o0 r) f.
Proof.
  intros Hwf Ho Hk. destruct (in_CountOnly i); [by rewrite wp_ret|].
  rewrite wp_bind. eapply wp_mono; [by apply applyContext_outcome|]. intros o' f' [Ho' Hk']. rewrite wp_ret.
  split; [done|by eapply kept_trans].
Qed.

Lemma route_bounded_routed b o i strict rules s f :
  topology_wf (b_st b) → o_AffinityToken o = None →
  wp (bounded o i b strict rules s) (λ r _, routed b o r) f.
Proof.
  intros Hwf Htk. unfold route_bounded.
  set (o1 := match b_models b with Some _ => _ | None => o end).
  assert (kept o o1 ∧ o_AffinityToken o1 = None) as [Hk1 Ht1].
  { unfold o1. destruct (b_models b); [by split; [apply kept_decide|]|by split; [apply kept_refl|]]. }
  rewrite wp_bind.
  apply (wp_mono _ (λ r _, (kept o r.1 ∧ o_AffinityToken r.1 = None) ∧ Forall (permits g b) r.2)).
  { destruct strict.
    - rewrite wp_bind. apply request_chain_wp; [done|]. intros chain f1 Hc. rewrite wp_ret. split; [|done]. simpl.
      destruct (b_models b); [done|]. split; [|done]. eapply kept_trans; [done|by apply kept_decide].
    - cbv zeta. pose proof (filter_chain_permits Estimate g b (in_Chain i) false Hwf) as Hc.
      destruct (filtered b (in_Chain i) false) as [|ct rest]; [|by rewrite wp_ret].
      destruct (b_models b) as [ms|]; [|by rewrite wp_ret].
      rewrite wp_bind. eapply wp_mono; [by apply first_internal_permits|]. intros chain f1 Hc1. by rewrite wp_ret. }
  intros [o2 safe] f1 [[Hk2 Ht2] Hc]. cbn [fst snd] in *.
  destruct (_ && _)%bool; [apply routed_deny|]. destruct (_ && _)%bool; [apply routed_deny|].
  unfold finishRouting. destruct safe as [|ct rest]; [apply routed_deny|].
  apply route_context; [done| |].
  - split; simpl; try done. intros tk t E. congruence.
  - eapply kept_trans; [done|]. by split.
Qed.

(** ** From a completed inspection on *)

Abbreviation classified i rules := (signal classifiers run_classifiers i rules).1.
Abbreviation opened i st s budget := (open_boundary range i st (Some s) (converse_safe (in_RawBody i)) budget).
Abbreviation masked i := (mask_body inspector router_redactor cancelled i).

(** A success went through every privacy rule on the first inspection, and the
    body to send is the redacted one exactly when a rule requires masking. *)
Record cleared (i : RequestRoutingInput) (st : Live.State) (budget : string) (rules : list requestRule)
    (s : Inspection) (o : Result) (b : requestBoundary) (mask : bool) : Prop := {
  cl_privacy : privacy s (classified i rules) rules (opened i st s budget) = (b, mask, false);
  cl_outcome : outcome b o;
  cl_mask : o_MaskRequired o = mask ∧ rd_Masked (o_Decision o) = mask;
  cl_body : if mask then ∃ body check, masked i = Some (body, check) ∧ o_SanitizedBody o = Some body
            else o_SanitizedBody o = None
}.

Definition settled (i : RequestRoutingInput) (st : Live.State) (budget : string) (rules : list requestRule)
    (s : Inspection) (o0 : Result) (r : Result * option RequestRoutingError) : Prop :=
  match r.2 with
  | Some e => refusal r.1 e
  | None => o_State r.1 = o_State o0 ∧ rd_Policies (o_Decision r.1) = rd_Policies (o_Decision o0) ∧
            ∃ b mask, cleared i st budget rules s r.1 b mask
  end.

Lemma settled_deny i st budget rules s o0 reason rejected (o : Result) (f : Full) :
  wp (mret (denyRouting reason rejected o)) (λ r _, settled i st budget rules s o0 r) f.
Proof. rewrite wp_ret. by destruct (denyRouting_refusal reason rejected o) as (o' & e & -> & Hr). Qed.

Lemma classified_none i rules : has_privacy rules = false → classified i rules = no_signal.
Proof. intros Hn. unfold signal. by rewrite Hn. Qed.

Lemma outcome_rebody b body s safe o : outcome (rebody body s safe b) o → outcome b o.
Proof.
  assert (∀ ct, permits g (rebody body s safe b) ct → permits g b ct) as Hp.
  { intros ct []. by split. }
  intros [? Hc ? Ht]. split; [done| |done|].
  - eapply Forall_impl; [exact Hc|auto].
  - intros tk t E Hin. destruct (Ht tk t E Hin) as (ct & ? & ?). eauto.
Qed.

Lemma route_inspected_settled i st budget strict rules s o f :
  topology_wf st → o_AffinityToken o = None → o_SanitizedBody o = None → unmasked o →
  (has_privacy rules = false → strict = false → outcome (opened i st s budget) o) →
  wp (inspected o i st budget strict rules s) (λ r _, settled i st budget rules s o r) f.
Proof.
  intros Hwf Htk Hbody Hmr Hpre. unfold route_inspected.
  set (o1 := decide_with (d_inspected _ _) o). set (b0 := opened i st s budget).
  assert (∀ b o2 o3, outcome b o3 → kept o2 o3 → o_State o2 = o_State o →
    rd_Policies (o_Decision o2) = rd_Policies (o_Decision o) →
    o_State o3 = o_State o ∧ rd_Policies (o_Decision o3) = rd_Policies (o_Decision o)) as Hkp.
  { intros b o2 o3 _ [? ? ? ?] ? ?. split; congruence. }
  destruct (negb (has_privacy rules) && negb strict)%bool eqn:Eg.
  { bsplit. eapply wp_mono.
    { apply (route_context b0 o1 o1); [done| |apply kept_refl]. apply outcome_decide; [done|by apply Hpre]. }
    intros [o2 [e|]] f1 Hr; [exact Hr|]. destruct Hr as [Ho2 Hk2]. cbn [fst snd] in *.
    split; [by apply (Hkp b0 o1)|]. split; [by apply (Hkp b0 o1)|]. exists b0, false. destruct Hk2.
    destruct Hmr. split; [by apply privacy_none|done|split|]; simpl in *; congruence. }
  destruct (signal _ _ _ _) as [sig refs] eqn:Es. set (o2 := decide_with _ o1).
  destruct (privacy s sig rules b0) as [[b mask] block] eqn:Ep.
  destruct (privacy_fields _ _ _ _ _ _ _ Ep) as (_ & Hst & _).
  assert (topology_wf (b_st b)) as Hwfb by by rewrite Hst.
  destruct block; [apply settled_deny|]. destruct mask.
  - destruct (masked i) as [[body check]|] eqn:Em; [|apply settled_deny]. eapply wp_mono.
    { by apply route_bounded_routed. }
    intros [o3 [e|]] f1 Hr; [exact Hr|]. destruct Hr as [Ho3 Hk3]. cbn [fst snd] in *.
    split; [by eapply Hkp|]. split; [by eapply Hkp|]. exists b, true. destruct Hk3 as [_ Hm3 Hb3 _ Hd3].
    split; [by rewrite Es|by eapply outcome_rebody|by simpl; rewrite Hm3, Hd3|]. exists body, check. by simpl; rewrite Hb3.
  - eapply wp_mono; [by apply route_bounded_routed|].
    intros [o3 [e|]] f1 Hr; [exact Hr|]. destruct Hr as [Ho3 Hk3]. cbn [fst snd] in *.
    split; [by eapply Hkp|]. split; [by eapply Hkp|]. exists b, false. destruct Hk3 as [_ Hm3 Hb3 _ Hd3].
    destruct Hmr.
    split; [by rewrite Es|done|split; simpl in *; congruence|by simpl; rewrite Hb3].
Qed.

(** ** The whole decision *)

Abbreviation detect i := (inspectForRoute inspector (in_Protocol i) (in_RawBody i) DetectSensitiveData).

(** A success is an outcome under a boundary of this request on this generation;
    under privacy rules, the one they leave. *)
Definition decided (i : RequestRoutingInput) (st : Live.State) (budget : string) (rules : list requestRule)
    (o0 : Result) (r : Result * option RequestRoutingError) : Prop :=
  match r.2 with
  | Some e => refusal r.1 e
  | None =>
      o_State r.1 = o_State o0 ∧ rd_Policies (o_Decision r.1) = rd_Policies (o_Decision o0) ∧
      ∃ b, (b_in b = i ∧ b_st b = st ∧ b_budgetModel b = budget) ∧ outcome b r.1 ∧
        if has_privacy rules
        then ∃ s mask, detect i = Some s ∧ cleared i st budget rules s r.1 b mask
        else o_SanitizedBody r.1 = None ∧ unmasked r.1
  end.

Lemma decided_deny i st budget rules o0 reason rejected (o : Result) (f : Full) :
  wp (mret (denyRouting reason rejected o)) (λ r _, decided i st budget rules o0 r) f.
Proof. rewrite wp_ret. by destruct (denyRouting_refusal reason rejected o) as (o' & e & -> & Hr). Qed.

Lemma settled_decided i st budget rules s o0 o1 r :
  (has_privacy rules = true → detect i = Some s) →
  o_State o1 = o_State o0 → rd_Policies (o_Decision o1) = rd_Policies (o_Decision o0) →
  settled i st budget rules s o1 r → decided i st budget rules o0 r.
Proof.
  intros Hd Hs Hp. unfold settled, decided. destruct r.2; [done|]. intros (Hs1 & Hp1 & b & mask & Hc).
  split; [congruence|]. split; [congruence|]. exists b.
  pose proof Hc as [Hpr Ho Hm Hb]. destruct (privacy_fields _ _ _ _ _ _ _ Hpr) as (E1 & E2 & E3).
  split; [done|]. split; [done|]. destruct (has_privacy rules) eqn:Eh; [by exists s, mask; auto|].
  rewrite privacy_none in Hpr by done. by injection Hpr as <- <-.
Qed.

(** The chain of a request that nothing constrains, before any context rule. *)
Lemma unconstrained_outcome b (o : Result) chain ct rest model :
  chain = ct :: rest → Forall (permits g b) chain → o_AffinityToken o = None →
  outcome b (decide_with (d_selected (ct_Model ct)) (route_to model chain o)).
Proof. intros -> Hc Ht. split; simpl; try done. intros tk t E. congruence. Qed.

Lemma permits_opened i st s s' safe safe' ct :
  permits g (open_boundary range i st s safe "") ct → permits g (open_boundary range i st s' safe' "") ct.
Proof. intros []. by split. Qed.

Lemma legacy_permits i st s safe :
  Forall (permits g (open_boundary range i st s safe "")) (legacyChain g i st).
Proof. eapply Forall_impl; [apply legacyChain_permits|]. intros ct []. by split. Qed.

Lemma decided_legacy i st rules b o0 (o : Result) :
  has_privacy rules = false → b_in b = i → b_st b = st → b_budgetModel b = "" → outcome b o →
  o_State o = o_State o0 → rd_Policies (o_Decision o) = rd_Policies (o_Decision o0) → o_SanitizedBody o = None →
  unmasked o → decided i st "" rules o0 (o, None).
Proof. intros Hn ? ? ? Ho ? ? ? ?. split; [done|]. split; [done|]. exists b. by rewrite Hn. Qed.

(** From a chain nothing constrains on. *)
Lemma unconstrained_decided i st rules s s' safe o0 o (f : Full) :
  topology_wf st → has_privacy rules = false →
  outcome (open_boundary range i st s' safe "") o →
  o_AffinityToken o = None → o_SanitizedBody o = None → unmasked o →
  o_State o = o_State o0 → rd_Policies (o_Decision o) = rd_Policies (o_Decision o0) →
  wp (if bool_decide (length rules = 0%nat) then mret (o, None) else inspected o i st "" false rules s)
    (λ r _, decided i st "" rules o0 r) f.
Proof.
  intros Hwf Hn Ho Ht Hb Hm Hs Hp. case_match.
  { rewrite wp_ret. by apply (decided_legacy i st rules (open_boundary range i st s' safe "")). }
  eapply wp_mono.
  { apply route_inspected_settled; [done..|]. intros _ _. destruct Ho as [? Hc ? Hk]. split; [done| |done|].
    - eapply Forall_impl; [exact Hc|]. intros ct. apply permits_opened.
    - intros tk t E Hin. destruct (Hk tk t E Hin) as (ct & ? & ?). exists ct. by split; [eapply permits_opened|]. }
  intros r f1. apply settled_decided; [congruence|done..].
Qed.

Lemma route_checked_decided i st budget strict rules o f :
  topology_wf st → (strict = false → budget = "") →
  o_AffinityToken o = None → o_SanitizedBody o = None → unmasked o →
  wp (checked o i st budget strict rules) (λ r _, decided i st budget rules o r) f.
Proof.
  intros Hwf Hbud Ht Hb Hm. unfold route_checked.
  set (mode := if has_privacy rules then DetectSensitiveData else StructureOnly).
  destruct (has_privacy rules || strict)%bool eqn:Eg.
  - (* guarded *)
    assert (∀ s o1, inspectForRoute inspector (in_Protocol i) (in_RawBody i) mode = Some s →
      o_AffinityToken o1 = None → o_SanitizedBody o1 = None → unmasked o1 →
      o_State o1 = o_State o → rd_Policies (o_Decision o1) = rd_Policies (o_Decision o) →
      wp (inspected o1 i st budget strict rules s) (λ r _, decided i st budget rules o r) f) as Hin.
    { intros s o1 Hs ? ? ? ? ?. eapply wp_mono; [apply route_inspected_settled; [done..|]|].
      - intros E1 E2. by rewrite E1, E2 in Eg.
      - intros r f1. apply settled_decided; [|done..]. intros E. unfold mode in Hs. by rewrite E in Hs. }
    destruct (inspectForRoute _ _ _ mode) as [s|] eqn:Es.
    + case_bool_decide; cbv zeta; by apply Hin.
    + case_bool_decide; apply decided_deny.
  - apply orb_false_iff in Eg as [Eh ->]. rewrite (Hbud eq_refl) in *. clear budget Hbud.
    destruct (bool_decide (in_Protocol i = "responses")).
    + destruct (inspectForRoute _ _ _ mode) as [s|] eqn:Es; [|apply decided_deny]. cbv zeta.
      set (transport := open_boundary range i st (Some s) false "").
      pose proof (filter_chain_permits Estimate g transport (in_Chain i) false Hwf) as Hc.
      destruct (filtered transport (in_Chain i) false) as [|ct rest]; [apply decided_deny|].
      apply (unconstrained_decided i st rules s (Some s) false); try done. by eapply unconstrained_outcome.
    + pose proof (legacy_permits i st None false) as Hc.
      destruct (legacyChain g i st) as [|ct rest]; [apply decided_deny|]. cbv zeta.
      set (o1 := decide_with _ _).
      assert (outcome (open_boundary range i st None false "") o1) as Ho1 by by eapply unconstrained_outcome.
      destruct (inspectForRoute _ _ _ mode) as [s|] eqn:Es.
      { by apply (unconstrained_decided i st rules s None false). }
      destruct (bool_decide _); rewrite wp_ret;
        eapply (decided_legacy i st rules (open_boundary range i st None false "")); try done.
      by apply outcome_decide.
Qed.

(** ** The mandatory budget model *)

Lemma budget_loop_spec st src kvs target active t strict :
  budget_loop st src kvs target active = (t, strict) →
  (strict = false → active = false ∧ t = target ∧
     ∀ from to, (from, to) ∈ kvs → Canonical st from ≠ src) ∧
  (strict = true → t ≠ "" → (active = true → t = target) ∧
     ∀ from to, (from, to) ∈ kvs → Canonical st from = src → Canonical st to = t).
Proof.
  revert target active. induction kvs as [|[from to] kvs IH]; intros target active; cbn [budget_loop].
  { intros [= -> ->]. split.
    - intros ->. split; [done|]. split; [done|]. by intros ? ? ?%elem_of_nil.
    - intros -> _. split; [done|]. by intros ? ? ?%elem_of_nil. }
  case_bool_decide as Hf.
  - destruct (_ || _)%bool eqn:Ec; [intros [= <- <-]; by split|].
    intros [H1 H2]%IH. split; [by intros [? _]%H1|]. intros Hs Hne. destruct (H2 Hs Hne) as [Ht Hk].
    specialize (Ht eq_refl). apply orb_false_iff in Ec as [_ Ec]. split.
    + intros ->. bcases; congruence.
    + intros f t' [[= -> ->]|Hin]%elem_of_cons Hf'; [done|by eapply Hk].
  - intros [H1 H2]%IH. split.
    + intros (? & ? & Hk)%H1. split; [done|]. split; [done|].
      intros f t' [[= -> ->]|Hin]%elem_of_cons; [done|by eapply Hk].
    + intros Hs Hne. destruct (H2 Hs Hne) as [Ht Hk]. split; [done|].
      intros f t' [[= -> ->]|Hin]%elem_of_cons Hf'; [done|by eapply Hk].
Qed.

Lemma budgetConstraint_inactive p st requested budget :
  budgetConstraint g range_str p st requested = (budget, false) → budget = "".
Proof.
  unfold budgetConstraint. destruct (budgetConstraintGate g) as [gate|]; [|by intros [= <-]].
  intros [H1 _]%budget_loop_spec. by destruct (H1 eq_refl) as (_ & -> & _).
Qed.

(** ** [RouteRequest] *)

Context (lookup : option (string → string → string * result LookupError (list Policy))).

Abbreviation route := (RouteRequest session_digest policy_digest parse_body parse_string parse_items range range_str
  Estimate g inspector router_redactor converse_safe MatchesContextKeywords MatchesKeywords classifiers
  run_classifiers lookup cancelled).

(** The documents in force for a request; none without a policy source. *)
Definition docs_of (i : RequestRoutingInput) : string * result LookupError (list Policy) :=
  match lookup with
  | None => ("", Ok [])
  | Some f => f (pr_Team (in_Principal i)) (AccountSubject (in_Principal i))
  end.

(** Everything a success has gone through. *)
Definition routed_request (i : RequestRoutingInput) (st : Live.State) (r : Result * option RequestRoutingError) : Prop :=
  match r.2 with
  | Some e => refusal r.1 e
  | None =>
      ∃ generation docs budget strict,
        docs_of i = (generation, Ok docs) ∧
        let i' := with_model (Canonical st (in_Model i)) i in
        let rules := requestRules docs st (in_Model i') in
        allowsInState g (in_Principal i) (Canonical st (requested_of i)) st = true ∧
        allowsInState g (in_Principal i) (in_Model i') st = true ∧
        budgetConstraint g range_str (in_Principal i) st (requested_of i) = (budget, strict) ∧
        (if strict then budget ≠ "" else budget = "") ∧
        ∃ o0, o_State o0 = Some st ∧ rd_Policies (o_Decision o0) = map rr_ref rules ∧ decided i' st budget rules o0 r
  end.

Lemma routed_request_deny i st reason rejected (o : Result) (f : Full) :
  wp (mret (denyRouting reason rejected o)) (λ r _, routed_request i st r) f.
Proof. rewrite wp_ret. by destruct (denyRouting_refusal reason rejected o) as (o' & e & -> & Hr). Qed.

Lemma RouteRequest_routed i st f :
  topology_wf st → in_State i = Some st → wp (route i) (λ r _, routed_request i st r) f.
Proof.
  intros Hwf Hst. pose proof (routed_request_deny i st) as Hdeny.
  unfold RouteRequest. fold (docs_of i). destruct (docs_of i) as [generation [docs|e]] eqn:Ed; [|apply Hdeny].
  rewrite Hst. cbv zeta. set (i' := with_model _ i). set (rules := requestRules docs st (in_Model i')).
  destruct (negb _ || negb _)%bool eqn:Ea; [apply Hdeny|]. bsplit.
  destruct (budgetConstraint _ _ _ _ _) as [budget strict] eqn:Eb.
  destruct (strict && _)%bool eqn:Es; [apply Hdeny|].
  assert (if strict then budget ≠ "" else budget = "") as Hb.
  { destruct strict; [simpl in Es; by bsplit|]. by eapply budgetConstraint_inactive. }
  eapply wp_mono; [apply route_checked_decided; [done| |done..]|].
  - intros ->. done.
  - intros r f1 Hr. unfold routed_request. destruct r as [o [e|]]; [exact Hr|].
    exists generation, docs, budget, strict. split; [done|]. cbv zeta.
    split; [done|]. split; [done|]. split; [done|]. split; [done|]. eexists. split; [|split; [|exact Hr]].
    + by simpl; rewrite Hst.
    + done.
Qed.

(** C4: Every planned attempt is authorised.  A request that is routed on a
    generation goes to a nonempty chain, the first target of which is the model
    selected, and each target's model is one the key may use and the policy gate
    admits, its provider is in an allowed region and passes the ingress's own
    check; the affinity token can only pin targets that satisfy the same.  A
    request that is not routed is a 403 without model, chain, body or token. *)
Theorem RouteRequest_access i st f :
  topology_wf st → in_State i = Some st →
  wp (route i) (λ r _,
    let authorised ct :=
      allowsInState g (in_Principal i) (Canonical st (ct_Model ct)) st = true ∧
      region_ok (in_AllowedRegions i) (Region st (ct_ProviderName ct)) = true ∧
      ∀ check, in_Compatible i = Some check → check ct = true in
    match r.2 with
    | Some e => refusal r.1 e
    | None =>
        o_State r.1 = Some st ∧
        (∃ ct rest, o_Chain r.1 = ct :: rest ∧ rd_SelectedModel (o_Decision r.1) = ct_Model ct) ∧
        Forall authorised (o_Chain r.1) ∧
        ∀ tk t, o_AffinityToken r.1 = Some tk → t ∈ tk_allowed tk → ∃ ct, authorised ct ∧ affinityTargetOf ct = t
    end) f.
Proof.
  intros Hwf Hst. eapply wp_mono; [by apply RouteRequest_routed|]. intros [o [e|]] f1 Hr; [exact Hr|].
  destruct Hr as (gen & docs & budget & strict & _ & _ & _ & _ & _ & o0 & Hs & _ & Hd).
  destruct Hd as (Hs1 & _ & b & (Ei & Est & _) & [Hc Hp Hsel Htk] & _). cbn [fst snd] in *.
  assert (∀ ct, permits g b ct → allowsInState g (in_Principal i) (Canonical st (ct_Model ct)) st = true ∧
      region_ok (in_AllowedRegions i) (Region st (ct_ProviderName ct)) = true ∧
      ∀ check, in_Compatible i = Some check → check ct = true) as Himp.
  { intros ct [Ha Hre Hk _ _]. rewrite Ei, Est in *. done. }
  split; [congruence|]. split; [|split].
  - destruct (o_Chain o) as [|ct rest]; [done|]. by exists ct, rest.
  - eapply Forall_impl; [exact Hp|exact Himp].
  - intros tk t E Hin. destruct (Htk tk t E Hin) as (ct & Hct & Ht). exists ct. auto.
Qed.

(** C11: A mandatory budget model is the only one attempted.  When the budget gate
    maps the model the key asked for (under any of its names) to a cheaper one, a
    routed request's attempts, fallbacks and context choices included, are all on
    that model; conflicting entries route nothing.  The recheck before each
    attempt, [BudgetTargetAllowed], agrees with the plan. *)
Theorem RouteRequest_budget i st gate from to f :
  topology_wf st → in_State i = Some st → budgetConstraintGate g = Some gate →
  (∀ m, range_str m ≡ₚ map_to_list m) →
  gate (in_Principal i) !! from = Some to → Canonical st from = Canonical st (requested_of i) →
  wp (route i) (λ r _, r.2 = None →
    o_Chain r.1 ≠ [] ∧
    Forall (λ ct, Canonical st (ct_Model ct) = Canonical st to ∧
                  BudgetTargetAllowed g range_str (in_Principal i) (requested_of i) (ct_Model ct) (Some st) = true)
      (o_Chain r.1)) f.
Proof.
  intros Hwf Hst Hg Hr Hfrom Hcan. eapply wp_mono; [by apply RouteRequest_routed|]. intros [o err] f1 Ho Herr.
  simpl in Herr. subst err.
  destruct Ho as (gen & docs & budget & strict & _ & _ & _ & Hb & Hbs & o0 & _ & _ & Hd).
  destruct Hd as (_ & _ & b & (Ei & Est & Eb) & [Hc Hp _ _] & _). cbn [fst snd] in *. split; [done|].
  pose proof Hb as Hb'. unfold budgetConstraint in Hb'. rewrite Hg in Hb'.
  assert ((from, to) ∈ range_str (gate (in_Principal i))) as Hin by by rewrite Hr, elem_of_map_to_list.
  assert (strict = true ∧ Canonical st to = budget ∧ budget ≠ "") as (-> & Hto & Hne).
  { pose proof (budget_loop_spec _ _ _ _ _ _ _ Hb') as [Hn Hs]. destruct strict.
    - destruct (Hs eq_refl Hbs) as [_ Hk]. split; [done|]. split; [by eapply Hk|done].
    - destruct (Hn eq_refl) as (_ & _ & Hk). by destruct (Hk from to Hin). }
  eapply Forall_impl; [exact Hp|]. intros ct [_ _ _ Hbud _]. rewrite Est, Eb in Hbud.
  specialize (Hbud Hne). split; [congruence|]. unfold BudgetTargetAllowed. rewrite Hb. cbn [negb orb].
  apply andb_true_iff. split; [apply negb_true_iff; by apply bool_decide_eq_false|]. by apply bool_decide_eq_true.
Qed.

(** A success carried out every action that a sensitive-data rule in force made due. *)
Lemma routed_private i st gen docs doc rule sd o :
  docs_of i = (gen, Ok docs) → doc ∈ docs → rule ∈ p_Rules doc → r_SensitiveData rule = Some sd →
  routed_request i st (o, None) →
  let rules := requestRules docs st (Canonical st (in_Model i)) in
  ∃ s, detect i = Some s ∧ ∀ a, triggered sd s (classified i rules) a →
    let approved ct := Canonical st (ct_Model ct) ∈ map (Canonical st) (InternalModels sd) ∧
                       DataBoundary st (ct_ProviderName ct) = "internal" in
    (a = v1alpha1.InternalOnly ∧ Forall approved (o_Chain o) ∧
     ∀ tk t, o_AffinityToken o = Some tk → t ∈ tk_allowed tk → ∃ ct, approved ct ∧ affinityTargetOf ct = t) ∨
    (a = v1alpha1.Mask ∧ ∃ body check, masked i = Some (body, check) ∧ o_SanitizedBody o = Some body
       ∧ o_MaskRequired o = true).
Proof.
  intros Hdocs Hdoc Hrule Hsd Ho rules.
  assert (sd ∈ privacy_rules rules) as Hin by by eapply privacy_rules_in.
  destruct Ho as (gen' & docs' & budget & strict & Hd' & _ & _ & _ & _ & o0 & _ & _ & Hd).
  rewrite Hdocs in Hd'. injection Hd' as <- <-. destruct Hd as (_ & _ & b & (Ei & Est & Eb) & Ho & Hp).
  assert (has_privacy rules = true) as Hh by by eapply has_privacy_in.
  unfold rules in Hh. cbn [in_Model with_model] in Hp. rewrite Hh in Hp. destruct Hp as (s & mask & Hs & Hc).
  exists s. split; [exact Hs|]. intros a Ha. destruct Hc as [Hpr _ [Hmask _] Hbody]. cbn [fst snd] in *.
  destruct (privacy_due _ _ _ _ _ _ _ _ Hpr Hin Ha) as [(-> & set & Hset & Hsub)|[-> ->]]; [left|right].
  2: { destruct Hbody as (body & check & H1 & H2). split; [done|]. by exists body, check. }
  assert (∀ ct, permits g b ct → Canonical st (ct_Model ct) ∈ map (Canonical st) (InternalModels sd) ∧
      DataBoundary st (ct_ProviderName ct) = "internal") as Himp.
  { intros ct [_ _ _ _ Hi]. rewrite Est in Hi. destruct (Hi set Hset) as [Hm Hbd]. split; [|done].
    apply Hsub in Hm. by apply elem_of_list_to_set in Hm. }
  destruct Ho as [_ Hperm _ Htk]. split; [done|]. split.
  - eapply Forall_impl; [exact Hperm|exact Himp].
  - intros tk t E Hint. destruct (Htk tk t E Hint) as (ct & Hct & Ht). exists ct. auto.
Qed.

(** A success is marked as masked exactly when a policy masks it, and then it
    carries the body to send. *)
Lemma routed_masked i st o : routed_request i st (o, None) →
  rd_Masked (o_Decision o) = o_MaskRequired o ∧ (o_MaskRequired o = true → is_Some (o_SanitizedBody o)).
Proof.
  intros (gen & docs & budget & strict & _ & _ & _ & _ & _ & o0 & _ & _ & _ & _ & b & _ & _ & Hp). cbn [fst snd] in *.
  destruct (has_privacy _); [|destruct Hp as [_ [-> ->]]; done].
  destruct Hp as (s & mask & _ & [_ _ [-> ->] Hbody]). split; [done|]. intros ->. destruct Hbody as (body & _ & _ & ->). eauto.
Qed.

(** A masked body is the redactor's answer, inspected again and found clean. *)
Lemma masked_clean i body check : masked i = Some (body, check) →
  ∃ redact, (in_Redactor i = Some redact ∨ in_Redactor i = None ∧ router_redactor = Some redact) ∧
    redact (in_Protocol i) (in_RawBody i) = Some body ∧
    inspectForRoute inspector (in_Protocol i) body DetectSensitiveData = Some check ∧
    i_Complete check = true ∧ i_Categories check = [].
Proof.
  unfold mask_body. intros Hm.
  destruct (match in_Redactor i with Some _ => _ | None => _ end) as [redact|] eqn:Er; [|done]. simpl in Hm.
  destruct (redact _ _) as [body1|] eqn:Eb; [|done]. simpl in Hm. destruct (fst cancelled); [done|].
  destruct (inspectForRoute _ _ body1 _) as [check1|] eqn:Ec; [|done]. simpl in Hm.
  destruct (_ || _)%bool eqn:Eo; [done|]. injection Hm as -> ->. bsplit.
  exists redact. split; [destruct (in_Redactor i); [left; congruence|by right]|].
  repeat split; [done..|]. by destruct (i_Categories check).
Qed.

(** C3: No privacy rule is bypassed.  If a policy in force for the caller has a
    sensitive-data rule, a routed request's original body was fully inspected,
    and every action that became due (by the detectors, by an uninspectable body,
    by a classifier's flag or failure) was carried out: [InternalOnly] leaves only
    targets at an internal provider on a model the rule approves, in the chain
    and in the affinity token; [Mask] sends a body that the redactor returned and
    a second, complete inspection found clean; any other action, [Block]
    included, is a refusal. *)
Theorem RouteRequest_privacy i st gen docs doc rule sd f :
  topology_wf st → in_State i = Some st → docs_of i = (gen, Ok docs) →
  doc ∈ docs → rule ∈ p_Rules doc → r_SensitiveData rule = Some sd →
  let rules := requestRules docs st (Canonical st (in_Model i)) in
  wp (route i) (λ r _, r.2 = None →
    ∃ s, detect i = Some s ∧ ∀ a, triggered sd s (classified i rules) a →
      let approved ct := Canonical st (ct_Model ct) ∈ map (Canonical st) (InternalModels sd) ∧
                         DataBoundary st (ct_ProviderName ct) = "internal" in
      (a = v1alpha1.InternalOnly ∧ Forall approved (o_Chain r.1) ∧
       ∀ tk t, o_AffinityToken r.1 = Some tk → t ∈ tk_allowed tk → ∃ ct, approved ct ∧ affinityTargetOf ct = t) ∨
      (a = v1alpha1.Mask ∧ ∃ body check, masked i = Some (body, check) ∧ o_SanitizedBody r.1 = Some body)) f.
Proof.
  intros Hwf Hst Hdocs Hdoc Hrule Hsd rules. eapply wp_mono; [by apply RouteRequest_routed|]. intros [o err] f1 Ho Herr.
  simpl in Herr. subst err. destruct (routed_private _ _ _ _ _ _ _ _ Hdocs Hdoc Hrule Hsd Ho) as (s & Hs & Ha).
  exists s. split; [done|]. intros a Hdue. destruct (Ha a Hdue) as [Hi|(-> & body & check & H1 & H2 & _)]; [by left|right]. eauto.
Qed.

(** C12: What is sent in place of the body is checked.  A routed request carries a
    replacement body exactly when masking is required; the replacement is the
    redactor's answer on the original body, and an inspection of its own found it
    complete and without any category. *)
Theorem RouteRequest_mask i st f :
  topology_wf st → in_State i = Some st →
  wp (route i) (λ r _, r.2 = None →
    (o_MaskRequired r.1 = true ↔ is_Some (o_SanitizedBody r.1)) ∧
    ∀ body, o_SanitizedBody r.1 = Some body →
      ∃ redact check,
        (in_Redactor i = Some redact ∨ in_Redactor i = None ∧ router_redactor = Some redact) ∧
        redact (in_Protocol i) (in_RawBody i) = Some body ∧
        inspectForRoute inspector (in_Protocol i) body DetectSensitiveData = Some check ∧
        i_Complete check = true ∧ i_Categories check = []) f.
Proof.
  intros Hwf Hst. eapply wp_mono; [by apply RouteRequest_routed|]. intros [o err] f1 Ho Herr. simpl in Herr. subst err.
  destruct Ho as (gen' & docs' & budget & strict & _ & _ & _ & _ & _ & o0 & _ & _ & Hd).
  destruct Hd as (_ & _ & b & _ & _ & Hp). cbn [fst snd] in *.
  destruct (has_privacy _); [|destruct Hp as [-> [-> _]]; split; [by split; [|intros []]|done]].
  destruct Hp as (s & mask & _ & [_ _ [-> _] Hbody]). destruct mask; cycle 1.
  { rewrite Hbody. by split; [split; [|intros []]|]. }
  destruct Hbody as (body & check & Hm & ->). split; [by split; eauto|]. intros body' [= <-].
  destruct (masked_clean _ _ _ Hm) as (redact & Hr & Hb & Hck). by exists redact, check.
Qed.

Lemma RouteRequest_lookup i reason_rejected gen f :
  docs_of i = (gen, Err (if reason_rejected : bool then LookupRejected else LookupFailed)) →
  wp (route i) (λ r _, ∃ e, r.2 = Some e ∧ re_Reason e = "policy_lookup_failed" ∧
    re_PolicyRejected e = reason_rejected ∧ refusal r.1 e ∧ rd_Inspection (o_Decision r.1) = "not_inspected") f.
Proof.
  intros Hd. unfold RouteRequest. fold (docs_of i). rewrite Hd. rewrite wp_ret. eexists. split; [done|].
  split; [done|]. split; [by destruct reason_rejected|]. split; [by split|done].
Qed.
End Safety.

(** ** The store behind the lookup *)

(** [SetRoutingPolicySnapshot(store.RoutingSnapshot)] (cmd/mayu/gateway.go). *)
Definition store_lookup (s : Store) : string → string → string * result LookupError (list Policy) := λ team user,
  let '(generation, docs) := RoutingSnapshot s team user in
  (generation, match docs with Ok ds => Ok ds | Err ErrRoutingPolicyRejected => Err LookupRejected end).

(** C13: A policy that was refused refuses the requests it governs.  On a node that
    does not require signed identities ([required s = false]; one that does takes
    no part of such a distribution and goes on with its old policies), when a
    distribution holds a mandatory document that this build does not accept, or
    replaces a mandatory policy by one it does not accept, every request of a
    subject it names is a 403 before its body is read or any model resolved, until
    a document of that name is accepted. *)
Theorem RouteRequest_rejected_policy {D : Type} `{Countable D} (session_digest : list Field → D) policy_digest
    parse_body parse_string parse_items range range_str Estimate g inspector redactor converse_safe
    MatchesContextKeywords MatchesKeywords classifiers run_classifiers cancelled
    (range_pol : gmap string string → list (string * string)) GenerationOf CanonicalRef Validate
    s docs rej s' name sub i f :
  (∀ m, range_pol m ≡ₚ map_to_list m) →
  required s = false → ApplyWire range_pol GenerationOf CanonicalRef Validate docs s = (rej, s') →
  obliged s docs name sub → ¬ corrected range_pol s (named docs name) name →
  matches sub (pr_Team (in_Principal i)) (AccountSubject (in_Principal i)) = true →
  wp (RouteRequest session_digest policy_digest parse_body parse_string parse_items range range_str Estimate g
        inspector redactor converse_safe MatchesContextKeywords MatchesKeywords classifiers run_classifiers
        (Some (store_lookup s')) cancelled i)
    (λ r _, ∃ e, r.2 = Some e ∧ re_Reason e = "policy_lookup_failed" ∧ re_PolicyRejected e = true ∧
       refusal r.1 e ∧ rd_Inspection (o_Decision r.1) = "not_inspected") f.
Proof.
  intros Hr Hreq Ha Hob Hc Hm.
  pose proof (apply_gates _ Hr _ _ _ s docs rej s' name sub _ _ Hreq Ha Hob Hc Hm) as Hg.
  unfold MatchingRoutingPolicies in Hg.
  destruct (RoutingSnapshot s' (pr_Team (in_Principal i)) (AccountSubject (in_Principal i))) as [gen ds] eqn:Es.
  simpl in Hg. subst ds. eapply (RouteRequest_lookup _ _ _ _ _ _ _ _ _ _ _ _ _ _ _ _ _ _ i true gen).
  unfold docs_of, store_lookup. by rewrite Es.
Qed.

(** The order in which policies are delivered does not matter to privacy: any
    two deliveries of the same documents leave the same boundary and the same
    obligations to mask and to block. *)
Theorem privacy_order docs docs' st src s sig b :
  docs ≡ₚ docs' →
  privacy s sig (requestRules docs st src) b = privacy s sig (requestRules docs' st src) b.
Proof.
  intros Hp. rewrite !privacy_closed.
  assert (map (λ sd, (sd, obligation sd s sig)) (privacy_rules (requestRules docs st src)) ≡ₚ
          map (λ sd, (sd, obligation sd s sig)) (privacy_rules (requestRules docs' st src))) as Ho.
  { apply Permutation_map. unfold privacy_rules, requestRules. rewrite !merge_sort_Permutation. by rewrite Hp. }
  rewrite (existsb_perm _ _ _ Ho), (existsb_perm (λ x, ob_block x.2) _ _ Ho).
  erewrite narrow_perm; [done|]. by rewrite Ho.
Qed.

(** ** Witnesses *)

Definition demo_inspection (cats : list string) : Inspection :=
  {| i_Complete := true; i_SensitiveDataInspected := true; i_Categories := cats; i_InputTokens := 12;
     i_OutputTokens := 100; i_UserTurns := 1; i_HasHistory := false; i_HasTools := false; i_HasVision := false;
     i_HasReasoning := false; i_HasStructuredOutput := false; i_HasRemoteTools := false |}.

(** A detector that knows one secret. *)
Definition demo_inspector : Inspector :=
  {| ins_Inspect := λ _ raw, Some (demo_inspection (if str_contains "123-45-6789" raw then ["ssn"] else []));
     ins_WithMode := None |}.

Definition demo_chain (model : string) : list ChainTarget :=
  match configuredChain map_to_list demo_state model with Ok chain => chain | Err _ => [] end.

Definition demo_input (raw : string) : RequestRoutingInput :=
  {| in_Principal := {| pr_KeyID := "ik"; pr_Team := "acme"; pr_AllowedModels := ["glm"; "glm-4-7"]; pr_Owner := "ann";
                        pr_SnapshotRegions := None |};
     in_Protocol := "anthropic"; in_RawBody := raw; in_RequestedModel := "glm"; in_Model := "glm-5";
     in_Chain := demo_chain "glm-5"; in_State := Some demo_state; in_AllowedRegions := ["eu-west-1"];
     in_CountOnly := false; in_SessionHint := ""; in_Redactor := None; in_Compatible := None |}.

Definition demo_rule (detected : string) : Rule :=
  mkRule "pii" "" None None None
    (Some {| OnDetected := detected; OnUninspectable := v1alpha1.Block; InternalModels := ["old"] |}) None None None.

Definition demo_doc (detected : string) : Policy :=
  {| p_Name := "privacy"; p_Generation := 1; p_Subject := {| Team := "acme"; User := "" |};
     p_Rules := [demo_rule detected] |}.

Definition demo_lookup (docs : list Policy) : option (string → string → string * result LookupError (list Policy)) :=
  Some (λ _ _, ("gen", Ok docs)).

Definition demo_full : FullRouter (D := string) := {| fr_router := demo_router; fr_affinity := None |}.

Definition demo_route (g : Gates) (docs : list Policy) (raw : string) :=
  RouteRequest (λ _, "session") (λ _, "policy") (λ _, None) (λ _, None) (λ _, None) map_to_list map_to_list
    (λ _ _, 0) g demo_inspector (Some (λ _ _, Some "redacted")) (λ _, true) (λ _ _ _, false) (λ _ _, false)
    [] (λ _ _ _, []) (demo_lookup docs) (false, false) (demo_input raw) demo_full.

(** Internal only moves the request to the approved model; masking replaces the
    body and keeps the model; blocking refuses. *)
Example demo_routes :
  let planned docs raw := let o := (demo_route no_gates docs raw).1 in
    (map ct_Model (o_Chain o.1), o_SanitizedBody o.1, re_Reason <$> o.2) in
  planned [demo_doc v1alpha1.InternalOnly] "hello" = (["glm-5"; "glm-4-7"], None, None) ∧
  planned [demo_doc v1alpha1.InternalOnly] "123-45-6789" = (["glm-4-7"], None, None) ∧
  planned [demo_doc v1alpha1.Mask] "123-45-6789" = (["glm-5"; "glm-4-7"], Some "redacted", None) ∧
  planned [demo_doc v1alpha1.Block] "123-45-6789" = ([], None, Some "sensitive_blocked").
Proof. vm_compute. done. Qed.

Lemma RouteRequest_access_witness :
  Forall (λ ct, allowsInState no_gates (in_Principal (demo_input "hello")) (Canonical demo_state (ct_Model ct)) demo_state = true)
    (o_Chain (demo_route no_gates [] "hello").1.1) ∧
  length (o_Chain (demo_route no_gates [] "hello").1.1) = 2%nat.
Proof.
  split; [|vm_compute; reflexivity].
  pose proof (RouteRequest_access (λ _, "session") (λ _, "policy") (λ _, None) (λ _, None) (λ _, None)
    map_to_list map_to_list (λ _ _, 0) no_gates demo_inspector (Some (λ _ _, Some "redacted")) (λ _, true)
    (λ _ _ _, false) (λ _ _, false) [] (λ _ _ _, []) (false, false) (demo_lookup []) (demo_input "hello") demo_state
    demo_full demo_state_wf eq_refl) as Hw.
  unfold wp in Hw. fold (demo_route no_gates [] "hello") in Hw.
  assert ((demo_route no_gates [] "hello").1.2 = None) as E by (vm_compute; reflexivity). cbv zeta in Hw. rewrite E in Hw.
  destruct Hw as (_ & _ & Hf & _). eapply Forall_impl; [exact Hf|]. by intros ct [Ha _].
Defined.

(** A mandatory budget model. *)
Definition budget_gates : Gates :=
  {| policyGate := None; tierGate := None; budgetConstraintGate := Some (λ _, {[ "glm" := "old" ]}) |}.

Lemma RouteRequest_budget_witness :
  Forall (λ ct, Canonical demo_state (ct_Model ct) = "glm-4-7")
    (o_Chain (demo_route budget_gates [] "hello").1.1) ∧
  length (o_Chain (demo_route budget_gates [] "hello").1.1) = 1%nat.
Proof.
  split; [|vm_compute; reflexivity].
  pose proof (RouteRequest_budget (λ _, "session") (λ _, "policy") (λ _, None) (λ _, None) (λ _, None)
    map_to_list map_to_list (λ _ _, 0) budget_gates demo_inspector (Some (λ _ _, Some "redacted")) (λ _, true)
    (λ _ _ _, false) (λ _ _, false) [] (λ _ _ _, []) (false, false) (demo_lookup []) (demo_input "hello") demo_state
    (λ _, {[ "glm" := "old" ]}) "glm" "old" demo_full demo_state_wf eq_refl eq_refl (λ m, reflexivity (map_to_list m))
    ltac:(vm_compute; reflexivity) ltac:(vm_compute; reflexivity)) as Hw.
  unfold wp in Hw. fold (demo_route budget_gates [] "hello") in Hw.
  destruct (Hw ltac:(vm_compute; reflexivity)) as [_ Hf]. eapply Forall_impl; [exact Hf|].
  intros ct [Hc _]. rewrite Hc. vm_compute. reflexivity.
Defined.

Lemma RouteRequest_privacy_witness :
  let docs := [demo_doc v1alpha1.InternalOnly] in
  let r := (demo_route no_gates docs "123-45-6789").1 in
  Forall (λ ct, Canonical demo_state (ct_Model ct) ∈ map (Canonical demo_state) ["old"]) (o_Chain r.1) ∧
  length (o_Chain r.1) = 1%nat.
Proof.
  cbv zeta. split; [|vm_compute; reflexivity].
  pose proof (RouteRequest_privacy (λ _, "session") (λ _, "policy") (λ _, None) (λ _, None) (λ _, None)
    map_to_list map_to_list (λ _ _, 0) no_gates demo_inspector (Some (λ _ _, Some "redacted")) (λ _, true)
    (λ _ _ _, false) (λ _ _, false) [] (λ _ _ _, []) (false, false) (demo_lookup [demo_doc v1alpha1.InternalOnly])
    (demo_input "123-45-6789") demo_state "gen" [demo_doc v1alpha1.InternalOnly] (demo_doc v1alpha1.InternalOnly)
    (demo_rule v1alpha1.InternalOnly)
    {| OnDetected := v1alpha1.InternalOnly; OnUninspectable := v1alpha1.Block; InternalModels := ["old"] |}
    demo_full demo_state_wf eq_refl eq_refl (list_elem_of_here _ _) (list_elem_of_here _ _) eq_refl) as Hw.
  unfold wp in Hw. fold (demo_route no_gates [demo_doc v1alpha1.InternalOnly] "123-45-6789") in Hw.
  destruct (Hw ltac:(vm_compute; reflexivity)) as (s & Hs & Ha). vm_compute in Hs. injection Hs as <-.
  destruct (Ha v1alpha1.InternalOnly) as [(_ & Hf & _)|[E _]]; [apply tr_detected; discriminate| |discriminate E].
  eapply Forall_impl; [exact Hf|]. by intros ct [Hm _].
Defined.

Lemma RouteRequest_mask_witness :
  let r := (demo_route no_gates [demo_doc v1alpha1.Mask] "123-45-6789").1 in
  o_SanitizedBody r.1 = Some "redacted" ∧ is_Some (o_SanitizedBody r.1) ∧ o_MaskRequired r.1 = true.
Proof.
  cbv zeta. split; [vm_compute; reflexivity|].
  pose proof (RouteRequest_mask (λ _, "session") (λ _, "policy") (λ _, None) (λ _, None) (λ _, None)
    map_to_list map_to_list (λ _ _, 0) no_gates demo_inspector (Some (λ _ _, Some "redacted")) (λ _, true)
    (λ _ _ _, false) (λ _ _, false) [] (λ _ _ _, []) (false, false) (demo_lookup [demo_doc v1alpha1.Mask])
    (demo_input "123-45-6789") demo_state demo_full demo_state_wf eq_refl) as Hw.
  unfold wp in Hw. fold (demo_route no_gates [demo_doc v1alpha1.Mask] "123-45-6789") in Hw.
  destruct (Hw ltac:(vm_compute; reflexivity)) as [Hi _].
  assert (o_MaskRequired (demo_route no_gates [demo_doc v1alpha1.Mask] "123-45-6789").1.1 = true) as Hm
    by (vm_compute; reflexivity).
  split; [by apply Hi|exact Hm].
Defined.

Lemma RouteRequest_rejected_policy_witness :
  let r := (RouteRequest (λ _, "session") (λ _, "policy") (λ _, None) (λ _, None) (λ _, None) map_to_list map_to_list
    (λ _ _, 0) no_gates demo_inspector None (λ _, true) (λ _ _ _, false) (λ _ _, false) [] (λ _ _ _, [])
    (Some (store_lookup (demo_apply [bad_doc] demo_store).2)) (false, false) (demo_input "hello") demo_full).1 in
  o_Chain r.1 = [] ∧ re_Reason <$> r.2 = Some "policy_lookup_failed".
Proof.
  cbv zeta.
  pose proof (RouteRequest_rejected_policy (λ _, "session") (λ _, "policy") (λ _, None) (λ _, None) (λ _, None)
    map_to_list map_to_list (λ _ _, 0) no_gates demo_inspector None (λ _, true) (λ _ _ _, false) (λ _ _, false) []
    (λ _ _ _, []) (false, false) map_to_list (λ _, "digest") (λ _, "identity-v1:x") (λ _, true) demo_store [bad_doc]
    (demo_apply [bad_doc] demo_store).1 (demo_apply [bad_doc] demo_store).2 "acme" {| Team := "acme"; User := "" |}
    (demo_input "hello") demo_full (λ m, reflexivity (map_to_list m)) eq_refl) as Hw.
  destruct Hw as (e & He & Hr & _ & [_ Hc _ _ _ _] & _).
  - unfold demo_apply. by destruct (ApplyWire _ _ _ _ _ _).
  - apply (ob_wire demo_store [bad_doc] bad_doc); [by left|reflexivity].
  - intros (_ & d & p & [= <-] & _ & Hok). vm_compute in Hok. discriminate Hok.
  - reflexivity.
  - split; [exact Hc|]. rewrite He. simpl. by rewrite Hr.
Defined.

Lemma privacy_order_witness :
  let docs := [demo_doc v1alpha1.InternalOnly; demo_doc v1alpha1.Mask] in
  let s := demo_inspection ["ssn"] in
  let b := open_boundary map_to_list (demo_input "x") demo_state (Some s) true "" in
  (privacy s no_signal (requestRules (rev docs) demo_state "glm-5") b).1.2 = true ∧
  privacy s no_signal (requestRules docs demo_state "glm-5") b =
  privacy s no_signal (requestRules (rev docs) demo_state "glm-5") b.
Proof. cbv zeta. split; [vm_compute; reflexivity|]. apply privacy_order. apply Permutation_rev. Defined.
