(* ===== verification/AuditChain.v ===== *)
(** * The audit hash chain: internal/audit/{record,verify,anchor}.go,
    internal/server/auditapi/auditapi.go

    Every audit record is one JSON line that carries the instance which wrote
    it and the SHA-256 of the line before it.  This file models the reader of
    such a file (framing, the chain walk of [Verify], the walk of
    [HeadAtCount] to an anchored position) and the admin endpoint's verdict on
    one file sink, with its comparison against an external anchor.

    A file is the string of its bytes.  encoding/json and SHA-256 are
    arguments ([Codec]): a record is the three fields the chain reads and the
    rest of the line's content. *)

From S2P Require Import Prelude.

(** ** Records and their encoding *)

Definition LF : Ascii.ascii := Ascii.ascii_of_nat 10.
Definition CR : Ascii.ascii := Ascii.ascii_of_nat 13.

(** [audit.Record]: the fields the chain reads, and the others. *)
Record Entry (Body : Type) := mkEntry
  { Event : string; Instance : string; PrevHash : string; body : Body }.
Arguments mkEntry {Body} _ _ _ _.
Arguments Event {Body} _.
Arguments Instance {Body} _.
Arguments PrevHash {Body} _.
Arguments body {Body} _.

(** json.Marshal and json.Unmarshal of a [Record], and sha256.Sum256. *)
Class Codec (Body : Type) :=
  { Canonical : Entry Body → option string;
    Unmarshal : string → option (Entry Body);
    Sum256 : string → string }.

(** The bytes are ASCII, so encoding/json keeps them. *)
Fixpoint ascii_text (s : string) : bool :=
  match s with
  | EmptyString => true
  | String a s => (Nat.ltb (Ascii.nat_of_ascii a) 128 && ascii_text s)%bool
  end.

(** What encoding/json and crypto/sha256 document: a marshalled value is one
    line with its control characters escaped; ASCII strings survive a round
    trip; a digest has 32 bytes. *)
Class CodecLaws (Body : Type) `{Codec Body} :=
  { canonical_line r s :
      Canonical r = Some s → s ≠ "" ∧ str_free LF s = true ∧ str_free CR s = true;
    canonical_fields r s :
      Canonical r = Some s → ascii_text (Event r) = true → ascii_text (Instance r) = true →
      ascii_text (PrevHash r) = true →
      ∃ r', Unmarshal s = Some r' ∧ Event r' = Event r ∧ Instance r' = Instance r ∧ PrevHash r' = PrevHash r;
    sum256_length s : String.length (Sum256 s) = 32%nat }.

(** *** Hexadecimal *)

Definition hex_char (n : nat) : Ascii.ascii :=
  Ascii.ascii_of_nat (if Nat.ltb n 10 then 48 + n else 87 + n)%nat.

(** The two digits of a byte. *)
Definition hex_high (a : Ascii.ascii) : Ascii.ascii := hex_char (Ascii.nat_of_ascii a / 16).
Definition hex_low (a : Ascii.ascii) : Ascii.ascii := hex_char (Ascii.nat_of_ascii a mod 16).

(** hex.EncodeToString. *)
Fixpoint EncodeToString (s : string) : string :=
  match s with
  | EmptyString => EmptyString
  | String a s =>
      String (hex_high a) (String (hex_low a) (EncodeToString s))
  end.

(** A digit hex.DecodeString accepts. *)
Definition hex_digit (a : Ascii.ascii) : bool :=
  let n := Ascii.nat_of_ascii a in
  ((Nat.leb 48 n && Nat.leb n 57) || (Nat.leb 97 n && Nat.leb n 102)
   || (Nat.leb 65 n && Nat.leb n 70))%bool.

Fixpoint hex_text (s : string) : bool :=
  match s with
  | EmptyString => true
  | String a s => (hex_digit a && hex_text s)%bool
  end.

Lemma hex_char_nat n : (n < 16)%nat → Ascii.nat_of_ascii (hex_char n) = (if Nat.ltb n 10 then 48 + n else 87 + n)%nat.
Proof. intros Hn. unfold hex_char. apply Ascii.nat_ascii_embedding. destruct (Nat.ltb_spec n 10); lia. Qed.

Lemma hex_char_inj n m : (n < 16)%nat → (m < 16)%nat → hex_char n = hex_char m → n = m.
Proof.
  intros Hn Hm He. apply (f_equal Ascii.nat_of_ascii) in He. rewrite !hex_char_nat in He by done.
  destruct (Nat.ltb_spec n 10), (Nat.ltb_spec m 10); lia.
Qed.

Lemma byte_halves a : let n := Ascii.nat_of_ascii a in (n / 16 < 16)%nat ∧ (n mod 16 < 16)%nat.
Proof.
  pose proof (Ascii.nat_ascii_bounded a). cbv zeta.
  split; [by apply Nat.Div0.div_lt_upper_bound; lia|by apply Nat.mod_upper_bound].
Qed.

Lemma EncodeToString_inj s t : EncodeToString s = EncodeToString t → s = t.
Proof.
  revert t. induction s as [|a s IH]; intros [|b t]; simpl; try done. intros [= Hd Hm Hs].
  destruct (byte_halves a), (byte_halves b).
  apply hex_char_inj in Hd, Hm; try done. apply IH in Hs as ->. f_equal.
  rewrite <- (Ascii.ascii_nat_embedding a), <- (Ascii.ascii_nat_embedding b). f_equal.
  pose proof (Nat.div_mod_eq (Ascii.nat_of_ascii a) 16) as Ha. pose proof (Nat.div_mod_eq (Ascii.nat_of_ascii b) 16) as Hb.
  rewrite Hd, Hm in Ha. by rewrite Ha, <- Hb.
Qed.

(** ** The chain *)

Definition genesisHash : string := "sha256:genesis".

(** ["sha256:" + hex(sum)]: what the next record must carry. *)
Definition digest {Body} `{Codec Body} (line : string) : string :=
  "sha256:" +:+ EncodeToString (Sum256 line).

Record InstanceState := mkInstanceState { HeadHash : string; Count : Z }.

Record VerifyResult := mkVerify
  { OK : bool; Records : Z; BrokenAt : Z; Reason : string; Instances : gmap string InstanceState }.

(** *** Framing: [auditLines] *)

(** bufio's [ReadBytes('\n')]: the bytes up to and with the delimiter, what
    is left, and whether the delimiter was there. *)
Fixpoint ReadBytes (s : string) : string * string * bool :=
  match s with
  | EmptyString => (EmptyString, EmptyString, false)
  | String a s =>
      if Ascii.eqb a LF then (String a EmptyString, s, true)
      else let '(line, rest, found) := ReadBytes s in (String a line, rest, found)
  end.

(** Drop the last byte when it is [c]. *)
Fixpoint trim_last (c : Ascii.ascii) (s : string) : string :=
  match s with
  | EmptyString => EmptyString
  | String a EmptyString => if Ascii.eqb a c then EmptyString else s
  | String a s => String a (trim_last c s)
  end.

(** The error a read ended with: [io.EOF] or the reader's own. *)
Inductive readErr := EOF | ReadFault (e : string).

(** [al_fault] is the error the underlying reader gives after its bytes. *)
Record auditLines := mkLines
  { al_reader : string; al_fault : option string; al_err : option readErr }.

Definition end_of (fault : option string) : readErr := from_option ReadFault EOF fault.

Definition next (l : auditLines) : option string * auditLines :=
  match al_err l with
  | Some _ => (None, l)
  | None =>
      let '(line, rest, found) := ReadBytes (al_reader l) in
      let l := mkLines rest (al_fault l) (if found then None else Some (end_of (al_fault l))) in
      if bool_decide (line = "") then (None, l)
      else (Some (trim_last CR (trim_last LF line)), l)
  end.

Definition readError (l : auditLines) : option string :=
  match al_err l with Some (ReadFault e) => Some e | _ => None end.

(** ** Framing as a list of lines *)

(** The pieces between newlines; the last one has none. *)
Fixpoint split_lines (s : string) : list string :=
  match s with
  | EmptyString => [EmptyString]
  | String a s =>
      if Ascii.eqb a LF then EmptyString :: split_lines s
      else match split_lines s with
           | [] => [String a EmptyString]
           | x :: l => String a x :: l
           end
  end.

(** The records of a stream: its nonempty lines, a final CR dropped. *)
Definition records (s : string) : list string :=
  filter (λ x, x ≠ "") (map (trim_last CR) (split_lines s)).

Lemma split_lines_cons s : ∃ x l, split_lines s = x :: l.
Proof.
  destruct s as [|a s]; simpl; [by eexists _, _|].
  destruct (Ascii.eqb a LF); [by eexists _, _|]. destruct (split_lines s); by eexists _, _.
Qed.

(** [ReadBytes] takes the first piece. *)
Lemma ReadBytes_split s :
  ∃ x, match ReadBytes s with
       | (line, rest, true) => line = x +:+ String LF "" ∧ split_lines s = x :: split_lines rest
                               ∧ (String.length rest < String.length s)%nat
       | (line, _, false) => line = x ∧ split_lines s = [x]
       end.
Proof.
  induction s as [|a s (x & IH)]; simpl; [by exists ""|].
  destruct (Ascii.eqb_spec a LF) as [->|Hne].
  - exists "". split_and!; [done|done|simpl; lia].
  - exists (String a x). destruct (ReadBytes s) as [[line rest] [|]].
    + destruct IH as (-> & -> & Hlt). split_and!; [done|done|lia].
    + by destruct IH as (-> & ->).
Qed.

Lemma trim_last_snoc c x : trim_last c (x +:+ String c "") = x.
Proof.
  induction x as [|a x IH]; simpl; [by rewrite Ascii.eqb_refl|].
  destruct (x +:+ String c "") eqn:E; [by destruct x|]. by rewrite IH.
Qed.

Lemma trim_last_free c x : str_free c x = true → trim_last c x = x.
Proof.
  induction x as [|a x IH]; simpl; [done|]. intros Hf. bsplit.
  destruct x; simpl in *; [by case_match|]. by rewrite IH.
Qed.

Lemma ReadBytes_free s line rest : ReadBytes s = (line, rest, false) → str_free LF line = true.
Proof.
  revert line rest. induction s as [|a s IH]; intros line rest; simpl; [by intros [= <- <-]|].
  destruct (Ascii.eqb a LF) eqn:E; [done|]. destruct (ReadBytes s) as [[l r] b].
  intros [= <- <- ->]. simpl. by rewrite E, (IH l r).
Qed.

Lemma next_spec s f :
  (∃ x rest, next (mkLines s f None) = (Some (trim_last CR x), mkLines rest f None)
     ∧ split_lines s = x :: split_lines rest ∧ (String.length rest < String.length s)%nat)
  ∨ (∃ x rest, x ≠ "" ∧ next (mkLines s f None) = (Some (trim_last CR x), mkLines rest f (Some (end_of f)))
     ∧ split_lines s = [x])
  ∨ (∃ rest, next (mkLines s f None) = (None, mkLines rest f (Some (end_of f))) ∧ split_lines s = [""]).
Proof.
  unfold next; simpl. destruct (ReadBytes_split s) as [x Hx].
  pose proof (ReadBytes_free s) as Hfree. destruct (ReadBytes s) as [[line rest] [|]].
  - destruct Hx as (-> & Hs & Hlt). left. exists x, rest.
    rewrite bool_decide_false by (by destruct x). by rewrite trim_last_snoc.
  - destruct Hx as (Hx & Hs). subst line. right. case_bool_decide as He.
    + right. exists rest. split; [done|congruence].
    + left. exists x, rest. rewrite (trim_last_free LF) by eauto. by split_and!.
Qed.

(** [s] is empty or ends with a newline. *)
Definition complete (s : string) : Prop := ∃ l, split_lines s = l ++ [""].

Lemma split_lines_app s t l : split_lines s = l ++ [""] → split_lines (s +:+ t) = l ++ split_lines t.
Proof.
  revert l. induction s as [|a s IH]; intros l; simpl.
  - destruct l as [|x l]; [done|]. intros [= <- Hl]. by destruct l.
  - destruct (Ascii.eqb a LF).
    + destruct l as [|x l]; simpl; [by destruct (split_lines_cons s) as (y & l' & ->)|].
      intros [= <- Hs]. by rewrite (IH l).
    + destruct (split_lines s) as [|x rest] eqn:E; [by destruct (split_lines_cons s) as (y & l' & ?); congruence|].
      destruct l as [|y l]; simpl; [done|]. intros [= <- Hs].
      by rewrite (IH (x :: l)) by (simpl; congruence).
Qed.

Lemma split_lines_line x : str_free LF x = true → split_lines (x +:+ String LF "") = [x; ""].
Proof.
  induction x as [|a x IH]; simpl; [done|]. intros Hf. bsplit.
  destruct (Ascii.eqb a LF); [done|]. by rewrite IH.
Qed.

Lemma complete_line s x : complete s → str_free LF x = true → complete (s +:+ x +:+ String LF "").
Proof.
  intros [l Hl] Hx. exists (l ++ [x]). rewrite (split_lines_app _ _ _ Hl), split_lines_line by done.
  by rewrite <- app_assoc.
Qed.

Lemma complete_nil : complete "".
Proof. by exists []. Qed.

Lemma trim_last_complete s : trim_last LF s ≠ s → complete s.
Proof.
  induction s as [|a s IH]; [done|]. intros Ht. unfold complete. cbn [split_lines].
  destruct s as [|b s].
  - cbn in Ht. destruct (Ascii.eqb a LF); [by exists [""]|done].
  - destruct IH as [l Hl]; [intros He; apply Ht; cbn [trim_last] in *; by rewrite He|].
    destruct (Ascii.eqb a LF); [exists ("" :: l); by rewrite Hl|].
    rewrite Hl. destruct l as [|x l]; simpl.
    + exfalso. revert Hl. cbn. destruct (Ascii.eqb b LF).
      * destruct (split_lines_cons s) as (y & l' & ->). done.
      * by destruct (split_lines s).
    + by exists (String a x :: l).
Qed.

(** A complete stream and one more line of printable text. *)
Lemma records_line s x :
  complete s → x ≠ "" → str_free LF x = true → str_free CR x = true →
  records (s +:+ x +:+ String LF "") = records s ++ [x].
Proof.
  intros [l Hl] Hne Hx Hc. unfold records. rewrite (split_lines_app _ _ _ Hl), split_lines_line, Hl by done.
  rewrite !map_app, !filter_app. simpl. rewrite (trim_last_free CR) by done.
  rewrite filter_cons_True by done. rewrite !filter_cons_False by (by intros []). by rewrite app_nil_r.
Qed.

Lemma complete_tail a s : complete (String a s) → s ≠ "" → complete s.
Proof.
  intros [l Hl] Hne. cbn [split_lines] in Hl. destruct (Ascii.eqb a LF).
  - destruct l as [|x l]; simpl in Hl; injection Hl.
    + by destruct (split_lines_cons s) as (y & l' & ->).
    + intros Hs _. by exists l.
  - destruct (split_lines s) as [|x rest] eqn:E; [by destruct (split_lines_cons s) as (y & l' & ?); congruence|].
    destruct l as [|y l]; simpl in Hl; injection Hl; [done|]. intros Hs _.
    exists (x :: l). rewrite E. simpl. congruence.
Qed.

Section Chain.
Context {Body : Type} `{Codec Body}.

(** *** The walk: the loop body [Verify] and [HeadAtCount] share *)

Record walk := mkWalk
  { expectedPrev : string; curInstance : string; curCount : Z; first : bool }.

Definition walk0 : walk := mkWalk genesisHash "" 0 true.

Inductive linkage := Unparseable | Mismatch | Linked (w : walk).

(** A new instance starts its own segment at genesis. *)
Definition enter (i : string) (w : walk) : walk :=
  if (first w || negb (bool_decide (i = curInstance w)))%bool
  then mkWalk genesisHash i 0 false else w.

Definition link (w : walk) (line : string) : linkage :=
  match Unmarshal line with
  | None => Unparseable
  | Some rec =>
      let w := enter (Instance rec) w in
      if bool_decide (PrevHash rec = expectedPrev w)
      then Linked (mkWalk (digest line) (curInstance w) (curCount w + 1) (first w))
      else Mismatch
  end.

Definition record_head (w : walk) (m : gmap string InstanceState) : gmap string InstanceState :=
  <[curInstance w := mkInstanceState (expectedPrev w) (curCount w)]> m.

Definition unparseable : string := "unparseable record".
Definition mismatch : string := "prev_hash mismatch — chain broken or record tampered".

Fixpoint verify_loop (fuel : nat) (l : auditLines) (n : Z) (w : walk)
    (m : gmap string InstanceState) : option (result string VerifyResult) :=
  match fuel with
  | O => None
  | S fuel =>
      match next l with
      | (None, l) =>
          Some (match readError l with
                | Some e => Err e
                | None => Ok (mkVerify true n 0 "" m)
                end)
      | (Some line, l) =>
          if bool_decide (line = "") then verify_loop fuel l n w m
          else
            let n := n + 1 in
            match link w line with
            | Unparseable => Some (Ok (mkVerify false n n unparseable m))
            | Mismatch => Some (Ok (mkVerify false n n mismatch m))
            | Linked w => verify_loop fuel l n w (record_head w m)
            end
      end
  end.

(** The stream [s], then the error [fault] or the end of the file. *)
Definition open_lines (s : string) (fault : option string) : auditLines := mkLines s fault None.

Definition Verify (s : string) (fault : option string) : option (result string VerifyResult) :=
  verify_loop (S (String.length s)) (open_lines s fault) 0 walk0 ∅.

Fixpoint head_loop (fuel : nat) (l : auditLines) (w : walk) (instance : string) (count : Z)
    : option (result string (string * bool)) :=
  match fuel with
  | O => None
  | S fuel =>
      match next l with
      | (None, l) =>
          Some (match readError l with Some e => Err e | None => Ok ("", false) end)
      | (Some line, l) =>
          if bool_decide (line = "") then head_loop fuel l w instance count
          else
            match link w line with
            | Unparseable => Some (Ok ("", false))
            | Mismatch => Some (Ok ("", false))
            | Linked w =>
                if (bool_decide (curInstance w = instance) && (curCount w =? count))%bool
                then Some (Ok (expectedPrev w, true))
                else head_loop fuel l w instance count
            end
      end
  end.

Definition HeadAtCount (s : string) (fault : option string) (instance : string) (count : Z)
    : option (result string (string * bool)) :=
  head_loop (S (String.length s)) (open_lines s fault) walk0 instance count.

(** ** The admin verdict: auditapi.verifyFile *)

Record AnchorPoint := mkAnchor { a_Instance : string; a_HeadHash : string; a_Count : Z; a_TS : string }.

Record SinkResult := mkSink
  { Path : string; s_OK : bool; s_Records : Z; s_BrokenAt : Z; s_Reason : string;
    PartialTail : bool; AnchorChecked : bool }.

(** What opening a path gives: an error of [os.Open], of [Stat], or a file
    with its type, its bytes and the error reading it ends with. *)
Inductive OpenFile :=
| OpenFails (e : string)
| StatFails (e : string)
| Opened (regular : bool) (bytes : string) (fault : option string).

Definition maxVerifyBytes : Z := Z.shiftl 16 20.

(** [bytes.LastIndexByte] and the slice it bounds: the prefix through the
    last newline, if there is one. *)
Fixpoint complete_prefix (s : string) : option string :=
  match s with
  | EmptyString => None
  | String a s =>
      match complete_prefix s with
      | Some p => Some (String a p)
      | None => if Ascii.eqb a LF then Some (String a EmptyString) else None
      end
  end.

(** The bytes to verify and [PartialTail]. *)
Definition cut_tail (data : string) : string * bool :=
  match complete_prefix data with
  | Some p => (p, negb (bool_decide (String.length p = String.length data)))
  | None => ("", negb (bool_decide (data = "")))
  end.

Definition refuse (reason : string) (res : SinkResult) : SinkResult :=
  mkSink (Path res) false (s_Records res) (s_BrokenAt res) reason (PartialTail res) (AnchorChecked res).

Definition set_reason (reason : string) (res : SinkResult) : SinkResult :=
  mkSink (Path res) (s_OK res) (s_Records res) (s_BrokenAt res) reason (PartialTail res) (AnchorChecked res).

Definition set_checked (res : SinkResult) : SinkResult :=
  mkSink (Path res) (s_OK res) (s_Records res) (s_BrokenAt res) (s_Reason res) (PartialTail res) true.

Definition truncation : string :=
  "chain has fewer records than the last external anchor witnessed — possible truncation".
Definition head_differs : string :=
  "chain head does not match the last external anchor at the same record count — tampering".
Definition position_differs : string :=
  "chain's recorded state at the last external anchor's position does not match the anchor — tampering".

(** [latest] is the answer of [reader.Latest]. *)
Definition checkAnchor (res : SinkResult) (data : string) (vr : VerifyResult)
    (latest : result string (option AnchorPoint)) (instance : string) : SinkResult :=
  match latest with
  | Err _ => res
  | Ok None => res
  | Ok (Some anchor) =>
      let res := set_checked res in
      let st := default (mkInstanceState "" 0) (Instances vr !! instance) in
      if Count st <? a_Count anchor then refuse truncation res
      else if Count st =? a_Count anchor then
        if bool_decide (HeadHash st = a_HeadHash anchor) then res else refuse head_differs res
      else
        match HeadAtCount data None instance (a_Count anchor) with
        | Some (Ok (got, found)) =>
            if (negb found || negb (bool_decide (got = a_HeadHash anchor)))%bool
            then refuse position_differs res else res
        | _ => res
        end
  end.

Definition sink_result0 (path : string) : SinkResult := mkSink path false 0 0 "" false false.

(** [reader] is [None] when no anchor reader is configured. *)
Definition verifyFile (path : string) (file : OpenFile)
    (reader : option (result string (option AnchorPoint))) (instance : string) : SinkResult :=
  let res := sink_result0 path in
  match file with
  | OpenFails e => set_reason ("open failed: " +:+ e) res
  | StatFails e => set_reason ("stat failed: " +:+ e) res
  | Opened regular bytes fault =>
      if negb regular then set_reason "not a regular file" res
      else
        if maxVerifyBytes <? Z.of_nat (String.length bytes)
        then set_reason "too large for online verify; use `mayu audit verify`" res
        else
          match fault with
          | Some e => set_reason ("read failed: " +:+ e) res
          | None =>
              let '(data, partial) := cut_tail bytes in
              match Verify data None with
              | Some (Ok vr) =>
                  let res := mkSink path (OK vr) (Records vr) (BrokenAt vr)
                               (if OK vr then "" else Reason vr) partial false in
                  match reader with
                  | Some latest => if OK vr then checkAnchor res data vr latest instance else res
                  | None => res
                  end
              | Some (Err e) => mkSink path false 0 0 ("verify error: " +:+ e) partial false
              | None => res
              end
          end
  end.

(** Each configured path, in order; any method but GET is refused (405). *)
Definition Handler (method : string) (open : string → OpenFile) (paths : list string)
    (reader : option (result string (option AnchorPoint))) (instance : string)
    : option (list SinkResult) :=
  if negb (bool_decide (method = "GET")) then None
  else Some (map (λ p, verifyFile p (open p) reader instance) paths).


(** The walks over the list of records. *)
Fixpoint verify_lines (ls : list string) (n : Z) (w : walk) (m : gmap string InstanceState) : VerifyResult :=
  match ls with
  | [] => mkVerify true n 0 "" m
  | line :: ls =>
      match link w line with
      | Unparseable => mkVerify false (n + 1) (n + 1) unparseable m
      | Mismatch => mkVerify false (n + 1) (n + 1) mismatch m
      | Linked w => verify_lines ls (n + 1) w (record_head w m)
      end
  end.

Inductive head_verdict := Reached (h : string) | Broken | Short.

Fixpoint head_lines (ls : list string) (w : walk) (instance : string) (count : Z) : head_verdict :=
  match ls with
  | [] => Short
  | line :: ls =>
      match link w line with
      | Linked w =>
          if (bool_decide (curInstance w = instance) && (curCount w =? count))%bool
          then Reached (expectedPrev w) else head_lines ls w instance count
      | _ => Broken
      end
  end.

(** The walks are the folds over the records; a read error takes over only a
    stream that was intact up to it. *)
Definition finish (fault : option string) (vr : VerifyResult) : result string VerifyResult :=
  if OK vr then match fault with Some e => Err e | None => Ok vr end else Ok vr.

Definition finish_head (fault : option string) (h : head_verdict) : result string (string * bool) :=
  match h with
  | Reached hash => Ok (hash, true)
  | Broken => Ok ("", false)
  | Short => match fault with Some e => Err e | None => Ok ("", false) end
  end.

Lemma verify_loop_lines fuel s f n w m :
  (String.length s < fuel)%nat →
  verify_loop fuel (mkLines s f None) n w m = Some (finish f (verify_lines (records s) n w m)).
Proof.
  revert s n w m. induction fuel as [|fuel IH]; [lia|]. intros s n w m Hlen. cbn [verify_loop].
  assert (Hend : ∀ rest n w m, verify_loop fuel (mkLines rest f (Some (end_of f))) n w m
                   = match fuel with O => None | S _ => Some (finish f (mkVerify true n 0 "" m)) end).
  { intros. destruct fuel; [done|]. simpl. unfold readError, end_of. by destruct f. }
  destruct (next_spec s f) as [(x & rest & -> & Hs & Hlt)|[(x & rest & Hx & -> & Hs)|(rest & -> & Hs)]];
    unfold records; rewrite Hs; cbn [map].
  - case_bool_decide as He.
    + rewrite IH by lia. rewrite filter_cons_False; [done|]. by intros [].
    + rewrite filter_cons_True by done. cbn [verify_lines].
      destruct (link w (trim_last CR x)); [done|done|]. by rewrite IH by lia.
  - rewrite !Hend. assert (fuel ≠ O).
    { destruct s; simpl in *; [|lia]. by injection Hs as <-. }
    case_bool_decide as He.
    + rewrite filter_cons_False by (by intros []). by destruct fuel.
    + rewrite filter_cons_True by done. cbn [verify_lines filter].
      destruct (link w (trim_last CR x)); [done|done|]. rewrite Hend. by destruct fuel.
  - unfold readError, end_of. simpl. by destruct f.
Qed.

Lemma Verify_lines s f : Verify s f = Some (finish f (verify_lines (records s) 0 walk0 ∅)).
Proof. apply verify_loop_lines. lia. Qed.

Lemma head_loop_lines fuel s f w i c :
  (String.length s < fuel)%nat →
  head_loop fuel (mkLines s f None) w i c = Some (finish_head f (head_lines (records s) w i c)).
Proof.
  revert s w. induction fuel as [|fuel IH]; [lia|]. intros s w Hlen. cbn [head_loop].
  assert (Hend : ∀ rest w, head_loop fuel (mkLines rest f (Some (end_of f))) w i c
                   = match fuel with O => None | S _ => Some (finish_head f Short) end).
  { intros. destruct fuel; [done|]. simpl. unfold readError, end_of. by destruct f. }
  destruct (next_spec s f) as [(x & rest & -> & Hs & Hlt)|[(x & rest & Hx & -> & Hs)|(rest & -> & Hs)]];
    unfold records; rewrite Hs; cbn [map].
  - case_bool_decide as He.
    + rewrite IH by lia. rewrite filter_cons_False; [done|]. by intros [].
    + rewrite filter_cons_True by done. cbn [head_lines].
      destruct (link w (trim_last CR x)) as [| |w']; [done|done|]. rewrite IH by lia. by destruct (_ && _)%bool.
  - rewrite !Hend. assert (fuel ≠ O).
    { destruct s; simpl in *; [|lia]. by injection Hs as <-. }
    case_bool_decide as He.
    + rewrite filter_cons_False by (by intros []). by destruct fuel.
    + rewrite filter_cons_True by done. cbn [head_lines filter].
      destruct (link w (trim_last CR x)) as [| |w']; [done|done|].
      rewrite Hend. destruct (_ && _)%bool; [done|]. by destruct fuel.
  - unfold readError, end_of. simpl. by destruct f.
Qed.

Lemma HeadAtCount_lines s f i c :
  HeadAtCount s f i c = Some (finish_head f (head_lines (records s) walk0 i c)).
Proof. apply head_loop_lines. lia. Qed.

(** ** What a valid chain is *)

(** The hash record [k] of instance [i] must carry: the digest of its
    predecessor when that one is of the same instance, else genesis. *)
Definition expected (ls : list string) (k : nat) (i : string) : string :=
  match k with
  | O => genesisHash
  | S j =>
      match ls !! j ≫= λ p, Unmarshal p ≫= λ r, Some (p, r) with
      | Some (p, r) => if bool_decide (Instance r = i) then digest p else genesisHash
      | None => genesisHash
      end
  end.

Definition linked (ls : list string) (k : nat) : Prop :=
  ∃ line rec, ls !! k = Some line ∧ Unmarshal line = Some rec ∧ PrevHash rec = expected ls k (Instance rec).

(** The hash after the records [ls] of instance [i], each carrying the digest
    of the one before it and the first one [prev]. *)
Fixpoint chain_from (i prev : string) (ls : list string) : option string :=
  match ls with
  | [] => Some prev
  | line :: ls =>
      match Unmarshal line with
      | Some r =>
          if bool_decide (Instance r = i ∧ PrevHash r = prev) then chain_from i (digest line) ls else None
      | None => None
      end
  end.

(** [ls] holds a segment of [c] records of instance [i] from genesis to [h]. *)
Definition holds (ls : list string) (i : string) (c : Z) (h : string) : Prop :=
  ∃ pre seg post, ls = pre ++ seg ++ post ∧ Z.of_nat (length seg) = c ∧ chain_from i genesisHash seg = Some h.

Lemma chain_from_snoc i p ls line :
  chain_from i p (ls ++ [line])
  = h ← chain_from i p ls; chain_from i h [line].
Proof.
  revert p. induction ls as [|l ls IH]; intros p; [done|]. cbn [app chain_from].
  destruct (Unmarshal l) as [r|]; [|done]. case_bool_decide; [apply IH|done].
Qed.

(** The walk's state after the records [pre]. *)
Definition walked (pre : list string) (w : walk) : Prop :=
  (pre = [] ∧ w = walk0)
  ∨ (∃ p r pre' pre1 seg, pre = pre' ++ [p] ∧ Unmarshal p = Some r
      ∧ curInstance w = Instance r ∧ expectedPrev w = digest p ∧ first w = false
      ∧ pre = pre1 ++ seg ∧ Z.of_nat (length seg) = curCount w
      ∧ chain_from (curInstance w) genesisHash seg = Some (expectedPrev w)).

Lemma enter_expected pre w todo i :
  walked pre w → expectedPrev (enter i w) = expected (pre ++ todo) (length pre) i.
Proof.
  intros [[-> ->]|(p & r & pre' & pre1 & seg & -> & Hp & Hi & He & Hf & _)]; [done|].
  rewrite length_app. simpl. replace (length pre' + 1)%nat with (S (length pre')) by lia. simpl.
  rewrite <- app_assoc. cbn [app]. rewrite list_lookup_middle by done. simpl. rewrite Hp. simpl.
  unfold enter. rewrite Hf, Hi. simpl.
  case_bool_decide as H1; case_bool_decide as H2; simpl; congruence.
Qed.

Lemma link_walked pre w line todo :
  walked pre w →
  match link w line with
  | Linked w' => linked (pre ++ line :: todo) (length pre) ∧ walked (pre ++ [line]) w'
  | _ => ¬ linked (pre ++ line :: todo) (length pre)
  end.
Proof.
  intros Hw. unfold link. destruct (Unmarshal line) as [rec|] eqn:Hu.
  2:{ intros (l & r & Hl & Hr & _). rewrite list_lookup_middle in Hl by done. congruence. }
  rewrite (enter_expected _ _ (line :: todo)) by done. case_bool_decide as Hp.
  2:{ intros (l & r & Hl & Hr & He). rewrite list_lookup_middle in Hl by done. congruence. }
  split; [exists line, rec; by rewrite list_lookup_middle|].
  assert (Hcur : curInstance (enter (Instance rec) w) = Instance rec).
  { unfold enter. destruct (first w) eqn:?; [done|]. simpl. by case_bool_decide. }
  rewrite <- (enter_expected _ _ (line :: todo) _ Hw) in Hp.
  assert (Hone : chain_from (Instance rec) (PrevHash rec) [line] = Some (digest line)).
  { simpl. by rewrite Hu, bool_decide_true. }
  right. exists line, rec, pre. rewrite Hcur. revert Hp. unfold enter.
  destruct Hw as [[-> ->]|(p & r & pre' & pre1 & seg & Hpre & Hr & Hi & He & Hf & Hs & Hc & Hch)]; simpl.
  - intros Hp. exists [], [line]. rewrite <- Hp. by split_and!.
  - rewrite Hf. simpl. case_bool_decide as Hsame; simpl; intros Hp.
    + exists pre1, (seg ++ [line]). rewrite Hs, <- app_assoc, length_app. split_and!; try done; [simpl; lia|].
      rewrite chain_from_snoc, Hsame, Hch. rewrite Hp, Hsame in Hone. exact Hone.
    + exists pre, [line]. rewrite <- Hp. by split_and!.
Qed.

(** *** The walks against the specification *)

Lemma verify_lines_spec pre todo w m vr :
  walked pre w → (∀ k, (k < length pre)%nat → linked (pre ++ todo) k) →
  verify_lines todo (Z.of_nat (length pre)) w m = vr →
  (OK vr = true → Records vr = Z.of_nat (length (pre ++ todo)) ∧ BrokenAt vr = 0
     ∧ ∀ k, (k < length (pre ++ todo))%nat → linked (pre ++ todo) k)
  ∧ (OK vr = false → ∃ k, (k < length (pre ++ todo))%nat ∧ BrokenAt vr = Z.of_nat k + 1
     ∧ Records vr = BrokenAt vr ∧ (∀ j, (j < k)%nat → linked (pre ++ todo) j) ∧ ¬ linked (pre ++ todo) k).
Proof.
  revert pre w m. induction todo as [|line todo IH]; intros pre w m Hw Hpre.
  - simpl. intros <-. rewrite app_nil_r in *. done.
  - cbn [verify_lines]. pose proof (link_walked pre w line todo Hw) as Hl. destruct (link w line) as [| |w'].
    1,2: intros <-; simpl; split; [done|]; intros _; exists (length pre); rewrite length_app; simpl;
      split_and!; [lia|done|done|done|done].
    destruct Hl as [Hl Hw']. intros Hv.
    rewrite (cons_middle line pre todo), app_assoc in *.
    apply (IH (pre ++ [line]) w' (record_head w' m) Hw').
    + intros k. rewrite length_app. simpl. intros Hk.
      destruct (decide (k = length pre)) as [->|]; [done|]. apply Hpre. lia.
    + rewrite <- Hv, length_app. f_equal. simpl. lia.
Qed.

(** C35: Verify returns on every stream, and decides exactly the chain rule: it
    accepts iff every record parses and carries the digest of the record
    before it in its instance's segment, or genesis where a segment starts;
    otherwise BrokenAt is the (1-based) first record that does not.  A read
    error surfaces only when everything before it is intact. *)
Theorem Verify_spec s fault :
  ∃ r, Verify s fault = Some r ∧
  match r with
  | Ok vr =>
      if OK vr then
        fault = None ∧ Records vr = Z.of_nat (length (records s)) ∧ BrokenAt vr = 0
        ∧ ∀ k, (k < length (records s))%nat → linked (records s) k
      else ∃ k, (k < length (records s))%nat ∧ BrokenAt vr = Z.of_nat k + 1 ∧ Records vr = BrokenAt vr
        ∧ (∀ j, (j < k)%nat → linked (records s) j) ∧ ¬ linked (records s) k
  | Err e => fault = Some e ∧ ∀ k, (k < length (records s))%nat → linked (records s) k
  end.
Proof.
  exists (finish fault (verify_lines (records s) 0 walk0 ∅)). split; [apply Verify_lines|].
  destruct (verify_lines_spec [] (records s) walk0 ∅ _ (or_introl (conj eq_refl eq_refl)) ltac:(simpl; lia) eq_refl)
    as [Hok Hbad]. cbn [app length] in Hok, Hbad. change (Z.of_nat 0) with 0 in *.
  unfold finish. destruct (verify_lines (records s) 0 walk0 ∅) as [ok n b rs m]. cbn [OK Records BrokenAt] in *. destruct ok; [|by apply Hbad].
  destruct (Hok eq_refl) as (? & ? & ?). by destruct fault.
Qed.

(** Every instance position [Verify] reports is a segment of the stream. *)
Lemma verify_lines_instances pre todo w m :
  walked pre w →
  (∀ i st, m !! i = Some st → holds (pre ++ todo) i (Count st) (HeadHash st)) →
  ∀ i st, Instances (verify_lines todo (Z.of_nat (length pre)) w m) !! i = Some st →
  holds (pre ++ todo) i (Count st) (HeadHash st).
Proof.
  revert pre w m. induction todo as [|line todo IH]; intros pre w m Hw Hm i st; [by simpl; auto|].
  cbn [verify_lines]. pose proof (link_walked pre w line todo Hw) as Hl. destruct (link w line) as [| |w']; simpl; auto.
  destruct Hl as [_ Hw']. rewrite (cons_middle line pre todo), app_assoc in *.
  replace (Z.of_nat (length pre) + 1) with (Z.of_nat (length (pre ++ [line]))) by (rewrite length_app; simpl; lia).
  apply IH; [done|]. intros j sj. unfold record_head.
  destruct Hw' as [[Hn _]|(p & r & pre' & pre1 & seg & _ & _ & _ & _ & _ & Hs & Hc & Hch)]; [by destruct pre|].
  destruct (decide (j = curInstance w')) as [->|Hne].
  - rewrite lookup_insert_eq. intros [= <-]. exists pre1, seg, todo. by rewrite Hs, <- app_assoc.
  - rewrite lookup_insert_ne by done. apply Hm.
Qed.

Lemma head_lines_holds pre todo w i c h :
  walked pre w → head_lines todo w i c = Reached h → holds (pre ++ todo) i c h.
Proof.
  revert pre w. induction todo as [|line todo IH]; intros pre w Hw; [done|].
  cbn [head_lines]. pose proof (link_walked pre w line todo Hw) as Hl. destruct (link w line) as [| |w']; [done|done|].
  destruct Hl as [_ Hw']. rewrite (cons_middle line pre todo), app_assoc.
  destruct (bool_decide (curInstance w' = i) && (curCount w' =? c))%bool eqn:E; [|by apply IH].
  bsplit. intros [= <-].
  destruct Hw' as [[Hn _]|(p & r & pre' & pre1 & seg & _ & _ & _ & _ & _ & Hs & Hc & Hch)]; [by destruct pre|].
  exists pre1, seg, todo. rewrite Hs, <- app_assoc. by subst.
Qed.

(** ** Tamper evidence *)

(** A line of each of two lists, different and of one digest. *)
Definition collision (l l' : list string) : Prop := ∃ x y, x ∈ l ∧ y ∈ l' ∧ x ≠ y ∧ Sum256 x = Sum256 y.

Lemma digest_inj x y : digest x = digest y → Sum256 x = Sum256 y.
Proof. unfold digest. intros He. apply EncodeToString_inj. by injection He. Qed.

Lemma collision_mono l1 l1' l2 l2' : l1 ⊆ l2 → l1' ⊆ l2' → collision l1 l1' → collision l2 l2'.
Proof. intros H1 H2 (x & y & Hx & Hy & Hxy). exists x, y. split; [by apply H1|]. split; [by apply H2|done]. Qed.

(** A hash fixes the whole segment that leads to it, or the segments collide. *)
Lemma chain_fixed i p seg seg' h :
  length seg = length seg' → chain_from i p seg = Some h → chain_from i p seg' = Some h →
  seg = seg' ∨ collision seg seg'.
Proof.
  revert seg' h. induction seg as [|x seg IH] using rev_ind; intros seg' h.
  - intros Hl _ _. left. by destruct seg'.
  - destruct seg' as [|y seg' _] using rev_ind; rewrite !length_app; simpl; [lia|].
    rewrite !chain_from_snoc. intros Hl H1 H2.
    destruct (chain_from i p seg) as [g|] eqn:E1; [|done]. destruct (chain_from i p seg') as [g'|] eqn:E2; [|done].
    simpl in H1, H2. destruct (Unmarshal x) as [r|] eqn:Ex; [|done]. destruct (Unmarshal y) as [r'|] eqn:Ey; [|done].
    case_bool_decide as Hb; [|done]. case_bool_decide as Hb'; [|done].
    assert (Hxy : digest x = digest y) by congruence.
    destruct (decide (x = y)) as [->|Hne]; [|right; exists x, y; split_and!; [set_solver..|done|by apply digest_inj]].
    assert (g = g') as <- by (destruct Hb, Hb'; congruence).
    destruct (IH seg' g) as [->|Hc]; [lia|done|done|by left|right]. eapply collision_mono, Hc; set_solver.
Qed.

(** A walk is found only at a positive count. *)
Lemma head_lines_count ls w i h : 0 <= curCount w → head_lines ls w i 0 ≠ Reached h.
Proof.
  revert w. induction ls as [|line ls IH]; intros w Hw; [done|]. cbn [head_lines].
  destruct (link w line) as [| |w'] eqn:E; [done|done|].
  assert (0 < curCount w').
  { revert E. unfold link. destruct (Unmarshal line) as [r|]; [|done]. case_bool_decide; [|done].
    intros [= <-]. unfold enter. cbn [curCount]. destruct (_ || _)%bool; simpl; lia. }
  destruct (Z.eqb_spec (curCount w') 0); [lia|]. rewrite andb_false_r. apply IH. lia.
Qed.

(** What an accepting verdict with an anchor rests on. *)
Lemma verifyFile_holds path file anchor i :
  s_OK (verifyFile path file (Some (Ok (Some anchor))) i) = true →
  ∃ bytes, file = Opened true bytes None
    ∧ AnchorChecked (verifyFile path file (Some (Ok (Some anchor))) i) = true
    ∧ (holds (records (cut_tail bytes).1) i (a_Count anchor) (a_HeadHash anchor)
       ∨ a_Count anchor = 0).
Proof.
  unfold verifyFile. destruct file as [e|e|[|] bytes fault]; simpl; try done.
  destruct (_ <? _); [done|]. destruct fault as [e|]; [done|].
  destruct (cut_tail bytes) as [data partial] eqn:Ecut. rewrite Verify_lines. unfold finish.
  pose proof (verify_lines_instances [] (records data) walk0 ∅ (or_introl (conj eq_refl eq_refl))
                ltac:(by intros ?? ?%lookup_empty_Some)) as Hi.
  change (Z.of_nat (length [])) with 0 in Hi. cbn [app] in Hi.
  destruct (verify_lines (records data) 0 walk0 ∅) as [ok n b rs m]. cbn [OK Instances Reason Records BrokenAt] in *.
  destruct ok; [|done]. unfold checkAnchor. cbn [Instances].
  destruct (_ <? _) eqn:E1; [done|]. destruct (_ =? _) eqn:E2.
  - case_bool_decide as Hh; [|done]. intros _. exists bytes. rewrite Ecut. split_and!; [done|done|]. bsplit.
    destruct (m !! i) as [st|] eqn:Em; simpl in *; [left|right; lia].
    rewrite <- E2, <- Hh. by apply Hi.
  - rewrite HeadAtCount_lines. unfold finish_head.
    destruct (head_lines (records data) walk0 i (a_Count anchor)) as [h| |] eqn:Eh; [|done|done].
    simpl. case_bool_decide as Hh; [|done]. simpl. intros _. exists bytes. rewrite Ecut. split_and!; [done|done|].
    left. rewrite <- Hh. apply (head_lines_holds [] _ walk0); [by left|done].
Qed.

(** C31: An anchored position cannot be rewritten.  Let the anchor be the head
    the original log had at some record count.  If the endpoint accepts a file
    against it, the anchor was checked and the file holds, unchanged and in
    order, every record of that instance up to the anchored one: a truncated,
    edited or replaced file is refused, unless a line of the original and a
    different line of the file have one SHA-256. *)
Theorem anchored_file_intact path file anchor instance original fault :
  HeadAtCount original fault instance (a_Count anchor) = Some (Ok (a_HeadHash anchor, true)) →
  s_OK (verifyFile path file (Some (Ok (Some anchor))) instance) = true →
  ∃ bytes, file = Opened true bytes None
    ∧ AnchorChecked (verifyFile path file (Some (Ok (Some anchor))) instance) = true
    ∧ (collision (records original) (records (cut_tail bytes).1)
       ∨ ∃ seg pre post pre' post', Z.of_nat (length seg) = a_Count anchor
         ∧ chain_from instance genesisHash seg = Some (a_HeadHash anchor)
         ∧ records original = pre ++ seg ++ post
         ∧ records (cut_tail bytes).1 = pre' ++ seg ++ post').
Proof.
  intros Ho Hv. destruct (verifyFile_holds _ _ _ _ Hv) as (bytes & Hf & Hc & Hh).
  exists bytes. split_and!; [done|done|].
  rewrite HeadAtCount_lines in Ho. unfold finish_head in Ho.
  destruct (head_lines (records original) walk0 instance (a_Count anchor)) as [h| |] eqn:E;
    [|done|by destruct fault].
  injection Ho as ->. pose proof (head_lines_holds [] _ _ _ _ _ (or_introl (conj eq_refl eq_refl)) E) as Ho.
  destruct Ho as (pre & seg & post & Hr & Hl & Hch). cbn [app] in Hr.
  destruct Hh as [(pre' & seg' & post' & Hr' & Hl' & Hch')|H0].
  - destruct (chain_fixed instance genesisHash seg seg' (a_HeadHash anchor)) as [<-|Hcol]; [lia|done|done| |].
    + right. by exists seg, pre, post, pre', post'.
    + left. rewrite Hr, Hr'. eapply collision_mono, Hcol; set_solver.
  - exfalso. destruct (head_lines_count (records original) walk0 instance (a_HeadHash anchor)); [done|by rewrite <- H0].
Qed.

(** ** A file its writers left alone is accepted *)

Fixpoint walk_lines (w : walk) (ls : list string) : option walk :=
  match ls with
  | [] => Some w
  | line :: ls => match link w line with Linked w => walk_lines w ls | _ => None end
  end.

Lemma walk_lines_linked pre w todo :
  walked pre w → (∀ k, (k < length (pre ++ todo))%nat → linked (pre ++ todo) k) →
  ∃ w', walk_lines w todo = Some w' ∧ walked (pre ++ todo) w'.
Proof.
  revert pre w. induction todo as [|line todo IH]; intros pre w Hw Hl; simpl.
  - exists w. by rewrite app_nil_r.
  - pose proof (link_walked pre w line todo Hw) as Hk. specialize (Hl (length pre)) as Hl0.
    destruct (link w line) as [| |w']; [exfalso; apply Hk, Hl0; rewrite length_app; simpl; lia..|].
    destruct Hk as [_ Hw']. rewrite (cons_middle line pre todo), app_assoc in *. by apply IH.
Qed.

Lemma verify_lines_app ls ls' n w m w' :
  walk_lines w ls = Some w' →
  ∃ m', verify_lines (ls ++ ls') n w m = verify_lines ls' (n + Z.of_nat (length ls)) w' m'.
Proof.
  revert n w m. induction ls as [|line ls IH]; intros n w m; simpl.
  - intros [= ->]. exists m. f_equal. lia.
  - destruct (link w line) as [| |w1]; [done|done|]. intros Hw. destruct (IH (n + 1) w1 (record_head w1 m) Hw) as [m' ->].
    exists m'. f_equal. lia.
Qed.

Lemma head_lines_app ls ls' w w' i c :
  walk_lines w ls = Some w' → (∀ line r, line ∈ ls → Unmarshal line = Some r → Instance r ≠ i) →
  head_lines (ls ++ ls') w i c = head_lines ls' w' i c.
Proof.
  revert w. induction ls as [|line ls IH]; intros w; simpl; [by intros [= ->]|].
  intros Hw Hf. destruct (link w line) as [| |w1] eqn:E; [done|done|].
  assert (curInstance w1 ≠ i).
  { unfold link in E. destruct (Unmarshal line) as [r|] eqn:Hu; [|done]. case_bool_decide; [|done].
    injection E as <-. cbn [curInstance]. specialize (Hf line r ltac:(left) Hu).
    unfold enter. destruct (first w); [done|]. simpl. case_bool_decide; simpl; congruence. }
  rewrite bool_decide_false by done. apply IH; [done|]. intros l r Hin. apply Hf. by right.
Qed.

(** A segment from genesis may follow records of other instances. *)
Lemma link_own w g i n line h :
  (first w = true ∨ curInstance w ≠ i) ∧ g = genesisHash ∧ n = 0 ∨ w = mkWalk g i n false →
  chain_from i g [line] = Some h → link w line = Linked (mkWalk h i (n + 1) false).
Proof.
  intros Hw. simpl. unfold link. destruct (Unmarshal line) as [r|]; [|done].
  case_bool_decide as Hb; [|done]. destruct Hb as [Hi Hp]. intros [= <-].
  assert (enter (Instance r) w = mkWalk g i n false) as ->.
  { rewrite Hi. unfold enter. destruct Hw as [([->|Hc] & -> & ->)| ->]; simpl; [done| |by rewrite bool_decide_true].
    rewrite bool_decide_false by congruence. by rewrite orb_true_r. }
  simpl. by rewrite bool_decide_true.
Qed.

Lemma chain_from_cons i g line ls h :
  chain_from i g (line :: ls) = Some h → chain_from i g [line] = Some (digest line) ∧ chain_from i (digest line) ls = Some h.
Proof. simpl. destruct (Unmarshal line); [|done]. by case_bool_decide. Qed.

Lemma verify_lines_own ls w g i n k m h :
  (first w = true ∨ curInstance w ≠ i) ∧ g = genesisHash ∧ n = 0 ∨ w = mkWalk g i n false →
  chain_from i g ls = Some h →
  verify_lines ls k w m
  = mkVerify true (k + Z.of_nat (length ls)) 0 ""
      (match ls with [] => m | _ => <[i := mkInstanceState h (n + Z.of_nat (length ls))]> m end).
Proof.
  revert w g n k m. induction ls as [|line ls IH]; intros w g n k m Hw Hc.
  - simpl. by rewrite Z.add_0_r.
  - apply chain_from_cons in Hc as [H1 H2]. cbn [verify_lines]. rewrite (link_own _ _ _ _ _ _ Hw H1).
    rewrite (IH _ (digest line) (n + 1) (k + 1) _ (or_intror eq_refl) H2). f_equal; [simpl; lia|].
    unfold record_head. cbn [curInstance expectedPrev curCount]. destruct ls as [|l ls].
    + injection H2 as <-. done.
    + rewrite insert_insert_eq. do 2 f_equal. cbn [length]. lia.
Qed.

Lemma head_lines_own ls w g i n c h :
  (first w = true ∨ curInstance w ≠ i) ∧ g = genesisHash ∧ n = 0 ∨ w = mkWalk g i n false →
  (0 < c)%nat → (c <= length ls)%nat → is_Some (chain_from i g ls) → chain_from i g (take c ls) = Some h →
  head_lines ls w i (n + Z.of_nat c) = Reached h.
Proof.
  revert w g n c. induction ls as [|line ls IH]; intros w g n c Hw H0 Hle [h' Hc] Ht; simpl in Hle; [lia|].
  destruct c as [|c]; [lia|]. apply chain_from_cons in Hc as [H1 H2]. cbn [take] in Ht.
  apply chain_from_cons in Ht as [_ Ht]. cbn [head_lines]. rewrite (link_own _ _ _ _ _ _ Hw H1).
  cbn [curInstance curCount expectedPrev]. rewrite bool_decide_true by done. simpl.
  destruct (Z.eqb_spec (n + 1) (n + Z.of_nat (S c))) as [Hz|Hz].
  - assert (c = 0)%nat as -> by lia. simpl in Ht. congruence.
  - replace (n + Z.of_nat (S c)) with (n + 1 + Z.of_nat c) by lia.
    apply (IH _ (digest line)); [by right|lia|lia|by exists h'|done].
Qed.

Lemma complete_prefix_complete s : complete s → s ≠ "" → complete_prefix s = Some s.
Proof.
  induction s as [|a s IH]; [done|]. intros Hc _. cbn [complete_prefix]. destruct s as [|b s].
  - destruct Hc as [l Hl]. cbn in Hl. cbn [complete_prefix]. destruct (Ascii.eqb_spec a LF) as [->|]; [done|].
    destruct l as [|x l]; simpl in Hl; [done|]. by destruct l.
  - rewrite IH; [done| |done]. by eapply complete_tail.
Qed.

Lemma cut_tail_complete s : complete s → cut_tail s = (s, false).
Proof.
  intros Hc. unfold cut_tail. destruct (decide (s = "")) as [->|Hne]; [done|].
  rewrite complete_prefix_complete by done. by rewrite bool_decide_true.
Qed.

(** A file of valid records of other instances, then one segment of
    [instance], is accepted against any position of that segment. *)
Lemma verifyFile_accepts path data base own i h c ah ts :
  complete data → Z.of_nat (String.length data) <= maxVerifyBytes →
  records data = base ++ own → (∀ k, (k < length base)%nat → linked base k) →
  (∀ line r, line ∈ base → Unmarshal line = Some r → Instance r ≠ i) →
  chain_from i genesisHash own = Some h →
  (0 < c)%nat → (c <= length own)%nat → chain_from i genesisHash (take c own) = Some ah →
  verifyFile path (Opened true data None) (Some (Ok (Some (mkAnchor i ah (Z.of_nat c) ts)))) i
  = mkSink path true (Z.of_nat (length (records data))) 0 "" false true.
Proof.
  intros Hcomp Hsize Hrec Hbase Hfresh Hown H0 Hle Htake. unfold verifyFile.
  cbn [negb]. destruct (Z.ltb_spec maxVerifyBytes (Z.of_nat (String.length data))); [lia|].
  rewrite cut_tail_complete by done. rewrite Verify_lines, Hrec.
  destruct (walk_lines_linked [] walk0 base) as (w & Hw & Hwd); [by left|done|]. cbn [app] in Hwd.
  destruct (verify_lines_app base own 0 walk0 ∅ w Hw) as [m ->].
  assert (Henter : (first w = true ∨ curInstance w ≠ i) ∧ genesisHash = genesisHash ∧ 0 = 0 ∨ w = mkWalk genesisHash i 0 false).
  { left. split_and!; [|done|done].
    destruct Hwd as [[_ ->]|(p & r & pre' & pre1 & seg & Hb & Hp & Hi & _)]; [by left|right].
    rewrite Hi. apply (Hfresh p r); [|done]. rewrite Hb. apply elem_of_app. right. by left. }
  rewrite (verify_lines_own own w genesisHash i 0 _ m h Henter Hown). unfold finish. cbn [OK Records BrokenAt].
  replace (0 + Z.of_nat (length base) + Z.of_nat (length own)) with (Z.of_nat (length (base ++ own)))
    by (rewrite length_app; lia).
  unfold checkAnchor. cbn [Instances a_Count a_HeadHash].
  destruct own as [|x own]; [simpl in Hle; lia|]. rewrite lookup_insert_eq. cbn [default from_option id Count AuditChain.HeadHash].
  destruct (Z.ltb_spec (0 + Z.of_nat (length (x :: own))) (Z.of_nat c)); [lia|].
  destruct (Z.eqb_spec (0 + Z.of_nat (length (x :: own))) (Z.of_nat c)) as [He|He].
  - rewrite bool_decide_true; [done|]. rewrite take_ge in Htake by lia. congruence.
  - rewrite HeadAtCount_lines, Hrec, (head_lines_app base _ walk0 w) by done.
    rewrite <- (Z.add_0_l (Z.of_nat c)).
    rewrite (head_lines_own _ w genesisHash i 0 c ah Henter) by (done || by exists h). simpl.
    by rewrite bool_decide_true.
Qed.

End Chain.

(** ** A concrete codec *)

Module Demo.

Definition bar : Ascii.ascii := Ascii.ascii_of_nat 124.

(** The fields between bars; only plain text is encoded. *)
Definition plain (s : string) : bool :=
  (str_free bar s && str_free LF s && str_free CR s)%bool.

Definition demo_canonical (r : Entry unit) : option string :=
  if (plain (Event r) && plain (Instance r) && plain (PrevHash r))%bool
  then Some (Event r +:+ String bar (Instance r +:+ String bar (PrevHash r))) else None.

Fixpoint cut_bar (s : string) : option (string * string) :=
  match s with
  | EmptyString => None
  | String a s =>
      if Ascii.eqb a bar then Some (EmptyString, s)
      else '(x, y) ← cut_bar s; Some (String a x, y)
  end.

Definition demo_unmarshal (s : string) : option (Entry unit) :=
  '(e, s) ← cut_bar s; '(i, p) ← cut_bar s; Some (mkEntry e i p tt).

(** The first 32 bytes, padded. *)
Fixpoint pad (n : nat) (s : string) : string :=
  match n, s with
  | O, _ => EmptyString
  | S n, EmptyString => String (Ascii.ascii_of_nat 48) (pad n EmptyString)
  | S n, String a s => String a (pad n s)
  end.

Lemma pad_length n s : String.length (pad n s) = n.
Proof. revert s. induction n as [|n IH]; intros [|a s]; simpl; [done..| |]; by rewrite IH. Qed.

Lemma cut_bar_app x y : str_free bar x = true → cut_bar (x +:+ String bar y) = Some (x, y).
Proof.
  induction x as [|a x IH]; simpl; [done|]. intros Hf. bsplit. destruct (Ascii.eqb a bar); [done|].
  by rewrite IH.
Qed.

#[export] Instance demo_codec : Codec unit :=
  {| Canonical := demo_canonical; Unmarshal := demo_unmarshal; Sum256 := pad 32 |}.

#[export] Instance demo_laws : CodecLaws unit.
Proof.
  split.
  - intros r s. cbn [Canonical demo_codec]. unfold demo_canonical, plain. destruct (_ && _)%bool eqn:E; [|done]. intros [= <-]. bsplit.
    split; [by destruct (Event r)|]. rewrite !str_free_app. simpl. rewrite !str_free_app. simpl.
    split; by repeat (apply andb_true_iff; split).
  - intros r s. cbn [Canonical Unmarshal demo_codec]. unfold demo_canonical, plain.
    destruct (_ && _)%bool eqn:E; [|done]. intros [= <-] _ _ _. bsplit.
    unfold demo_unmarshal. rewrite cut_bar_app by done. simpl. rewrite cut_bar_app by done. by eexists.
  - intros s. apply (pad_length 32).
Qed.

(** Two records of instance [i], and the head after the first. *)
Definition line1 : string := "a|i|sha256:genesis".
Definition line2 : string := "b|i|" +:+ digest line1.
Definition demo_log : string := line1 +:+ String LF (line2 +:+ String LF "").
Definition demo_anchor : AnchorPoint := mkAnchor "i" (digest line1) 1 "".

Lemma anchored_file_intact_witness :
  HeadAtCount demo_log None "i" 1 = Some (Ok (digest line1, true))
  ∧ ∃ bytes, Opened true demo_log None = Opened true bytes None
    ∧ AnchorChecked (verifyFile "f" (Opened true demo_log None) (Some (Ok (Some demo_anchor))) "i") = true
    ∧ (collision (records demo_log) (records (cut_tail bytes).1)
       ∨ ∃ seg pre post pre' post', Z.of_nat (length seg) = a_Count demo_anchor
         ∧ chain_from "i" genesisHash seg = Some (a_HeadHash demo_anchor)
         ∧ records demo_log = pre ++ seg ++ post
         ∧ records (cut_tail bytes).1 = pre' ++ seg ++ post').
Proof.
  split; [by vm_compute|].
  apply (anchored_file_intact "f" (Opened true demo_log None) demo_anchor "i" demo_log None); by vm_compute.
Defined.

(** A truncated file is refused. *)
Example truncated_refused :
  verifyFile "f" (Opened true (line1 +:+ String LF "") None) (Some (Ok (Some (mkAnchor "i" (digest line2) 2 "")))) "i"
  = mkSink "f" false 1 0 truncation false true.
Proof. by vm_compute. Qed.

End Demo.
