(* ===== verification/AuditWriter.v ===== *)
(** * The audit writer: internal/audit/{writer,wal,sink}.go and the anchor
    worker of cmd/mayu/gateway.go

    One goroutine takes records from a bounded queue, links each to the hash
    of the one before it, appends it to the write-ahead log, publishes the
    head, and hands the line to every sink.  Files are strings of bytes; what
    each write, sync and truncate does is an input ([Outcomes]), a failed
    write leaving any part of its bytes behind.  A pass of the loop is one
    step.  The gauge of [SetAuditBufferUtilization] is the number of retained
    records, over the constant queue capacity. *)

From S2P Require Import Prelude AuditChain.

Definition queueCapacity : Z := 1024.
Definition blockedBuffer : Z := 1.
Definition blockedWAL : Z := 2.
Definition blockedRecord : Z := 3.

(** ** Files *)

(** A write of a line: all of it, or an error after its first [k] bytes (a
    failed sync leaves them all). *)
Inductive write_result := Wrote | Torn (k : nat).

(** [f.Write(rec)], [f.Write("\n")] and, for files, [f.Sync()]. *)
Definition write_line (rec : string) (o : write_result) (f : string) : string * bool :=
  match o with
  | Wrote => (f +:+ rec +:+ String LF "", false)
  | Torn k => (f +:+ String.substring 0 k (rec +:+ String LF ""), true)
  end.

(** [f.Truncate(0)], then [f.Seek(0, 0)]. *)
Inductive truncate_result := Truncated | TruncateFails | SeekFails.

Definition wal_truncate (o : truncate_result) (f : string) : string * bool :=
  match o with
  | Truncated => ("", false)
  | TruncateFails => (f, true)
  | SeekFails => ("", true)
  end.

(** The log as it is opened: the errors of [Stat] and [ReadAt], its bytes,
    and the error reading it ends with. *)
Record WalFile := mkWal
  { wf_stat : option string; wf_readAt : option string; wf_bytes : string; wf_fault : option string }.

(** [FileSink] and [WriterSink] append the line; a [RecordSink] keeps its
    records elsewhere. *)
Record Sink := mkSink { Name : string; Required : bool; isRecordSink : bool; Out : string }.

Definition sink_write (canon : string) (o : write_result) (s : Sink) : Sink * bool :=
  let '(out, err) := write_line canon o (Out s) in
  (mkSink (Name s) (Required s) (isRecordSink s) (if isRecordSink s then Out s else out), err).

(** ** The writer *)

Inductive Metric := IncAuditFailure (name : string) | SetAuditBufferUtilization (pending : Z).

Record chainHead := mkHead { hash : string; h_count : Z }.

Record Writer (Body : Type) := mkWriter
  { instance : string;
    queue : list (Entry Body);
    wal : string;
    sinks : list Sink;
    prevHash : string;
    pending : Z;
    count : Z;
    head : option chainHead;
    blocked : Z;
    writeFailuresTotal : Z;
    bufferedRecords : Z;
    metrics : list Metric }.
Arguments mkWriter {Body} _ _ _ _ _ _ _ _ _ _ _ _.
Arguments instance {Body} _.
Arguments queue {Body} _.
Arguments wal {Body} _.
Arguments sinks {Body} _.
Arguments prevHash {Body} _.
Arguments pending {Body} _.
Arguments count {Body} _.
Arguments head {Body} _.
Arguments blocked {Body} _.
Arguments writeFailuresTotal {Body} _.
Arguments bufferedRecords {Body} _.
Arguments metrics {Body} _.

(** What the environment does to one record. *)
Record Outcomes := mkOutcomes
  { o_wal : write_result; o_sinks : list write_result; o_truncate : truncate_result }.

Section Writer.
Context {Body : Type} `{Codec Body}.
Implicit Types (w : Writer Body) (rec : Entry Body).

Definition with_queue q (w : Writer Body) : Writer Body := mkWriter (instance w) q (wal w) (sinks w) (prevHash w) (pending w) (count w)
  (head w) (blocked w) (writeFailuresTotal w) (bufferedRecords w) (metrics w).
Definition with_wal f (w : Writer Body) : Writer Body := mkWriter (instance w) (queue w) f (sinks w) (prevHash w) (pending w) (count w)
  (head w) (blocked w) (writeFailuresTotal w) (bufferedRecords w) (metrics w).
Definition with_sinks ss (w : Writer Body) : Writer Body := mkWriter (instance w) (queue w) (wal w) ss (prevHash w) (pending w) (count w)
  (head w) (blocked w) (writeFailuresTotal w) (bufferedRecords w) (metrics w).
Definition with_prevHash h (w : Writer Body) : Writer Body := mkWriter (instance w) (queue w) (wal w) (sinks w) h (pending w) (count w)
  (head w) (blocked w) (writeFailuresTotal w) (bufferedRecords w) (metrics w).
Definition with_pending p (w : Writer Body) : Writer Body := mkWriter (instance w) (queue w) (wal w) (sinks w) (prevHash w) p (count w)
  (head w) (blocked w) (writeFailuresTotal w) (bufferedRecords w) (metrics w).
Definition with_head c h (w : Writer Body) : Writer Body := mkWriter (instance w) (queue w) (wal w) (sinks w) (prevHash w) (pending w) c
  h (blocked w) (writeFailuresTotal w) (bufferedRecords w) (metrics w).
Definition with_blocked b (w : Writer Body) : Writer Body := mkWriter (instance w) (queue w) (wal w) (sinks w) (prevHash w) (pending w) (count w)
  (head w) b (writeFailuresTotal w) (bufferedRecords w) (metrics w).
Definition with_counters f b ms (w : Writer Body) : Writer Body := mkWriter (instance w) (queue w) (wal w) (sinks w) (prevHash w) (pending w)
  (count w) (head w) (blocked w) f b ms.

(** [blocked.CompareAndSwap(0, reason)]: the first reason stays. *)
Definition block (reason : Z) w : Writer Body :=
  if blocked w =? 0 then with_blocked reason w else w.

Definition write_failure w : Writer Body :=
  with_counters (writeFailuresTotal w + 1) (bufferedRecords w) (metrics w) w.

Definition gauge (m : Metric) w : Writer Body :=
  with_counters (writeFailuresTotal w) (bufferedRecords w) (metrics w ++ [m]) w.

Definition walFailure w : Writer Body := block blockedWAL (gauge (IncAuditFailure "wal") (write_failure w)).

(** A required sink failed. *)
Definition sink_failure (name : string) w : Writer Body :=
  with_counters (writeFailuresTotal w + 1) (bufferedRecords w + 1) (metrics w ++ [IncAuditFailure name]) w.

Definition Ready w : bool * string :=
  if blocked w =? blockedBuffer then
    (false, "audit buffer full; preserve and repair retained WAL before restart")
  else if blocked w =? blockedWAL then
    (false, "audit WAL unavailable; repair storage before restart")
  else if blocked w =? blockedRecord then (false, "audit record unavailable; restart required")
  else (true, "").

(** The published head: (genesis, 0) before the first durable record. *)
Definition HeadHash w : string * Z :=
  match head w with None => (genesisHash, 0) | Some h => (hash h, h_count h) end.

(** The channel takes a record, or blocks while it is full. *)
Definition Append rec w : option (Writer Body) :=
  if Z.of_nat (length (queue w)) <? queueCapacity then Some (with_queue (queue w ++ [rec]) w) else None.

(** The sinks in turn, with what each write did. *)
Fixpoint fan_out (canon : string) (ss : list Sink) (os : list write_result) w : list Sink * bool * Writer Body :=
  match ss with
  | [] => ([], true, w)
  | s :: ss =>
      let '(s, err) := sink_write canon (hd Wrote os) s in
      let w := if (err && Required s)%bool then sink_failure (Name s) w else w in
      let '(ss, flushed, w) := fan_out canon ss (tl os) w in
      (s :: ss, negb (err && Required s) && flushed, w)%bool
  end.

(** The record as it is written: stamped with the instance and the link. *)
Definition stamp rec w : Entry Body := mkEntry (Event rec) (instance w) (prevHash w) (body rec).

(** The body of [loop] for one record. *)
Definition process rec (o : Outcomes) w : Writer Body :=
  match Canonical (stamp rec w) with
  | None => block blockedRecord (write_failure w)
  | Some canon =>
      let w := with_prevHash (digest canon) w in
      let '(f, walErr) := write_line canon (o_wal o) (wal w) in
      let w := with_wal f w in
      let w := if negb walErr then with_pending (pending w + 1) w else walFailure w in
      let w := if negb walErr then with_head (count w + 1) (Some (mkHead (prevHash w) (count w + 1))) w else w in
      let '(ss, flushedAll, w) := fan_out canon (sinks w) (o_sinks o) w in
      let w := with_sinks ss w in
      let w :=
        if (negb walErr && flushedAll && (pending w =? 1))%bool then
          let '(f, err) := wal_truncate (o_truncate o) (wal w) in
          let w := with_wal f w in
          if err then walFailure w else with_pending 0 w
        else w in
      let w := if pending w >=? queueCapacity then block blockedBuffer w else w in
      gauge (SetAuditBufferUtilization (pending w)) w
  end.

(** One pass: the oldest queued record. *)
Definition loop (o : Outcomes) w : Writer Body :=
  match queue w with [] => w | rec :: q => process rec o (with_queue q w) end.

(** ** Opening the log *)

(** [Replay]: the nonempty lines in order; [fn] may refuse one. *)
Fixpoint Replay {A : Type} (fuel : nat) (s : string) (fault : option string) (fn : A → string → option A) (a : A)
    : option (result string A) :=
  match fuel with
  | O => None
  | S fuel =>
      let '(line, rest, found) := ReadBytes s in
      match (if found then None else fault) with
      | Some e => Some (Err e)
      | None =>
          let line := trim_last LF line in
          match (if bool_decide (line = "") then Some a else fn a line) with
          | None => Some (Err "refused")
          | Some a => if found then Replay fuel rest fault fn a else Some (Ok a)
          end
      end
  end.

(** strings.CutPrefix. *)
Fixpoint cut_prefix (p s : string) : option string :=
  match p, s with
  | EmptyString, _ => Some s
  | String a p, String b s => if Ascii.eqb a b then cut_prefix p s else None
  | _, _ => None
  end.

Definition digest_text (s : string) : bool :=
  match cut_prefix "sha256:" s with
  | Some d => (Nat.eqb (String.length d) 64 && hex_text d)%bool
  | None => false
  end.

(** The callback of [retainedRecords]: the count, the last instance and the
    hash its next record must carry. *)
Definition check_retained (st : Z * string * string) (line : string) : option (Z * string * string) :=
  let '(n, inst, expected) := st in
  match Unmarshal line with
  | None => None
  | Some rec =>
      if (bool_decide (Event rec = "") || bool_decide (Instance rec = "") || bool_decide (PrevHash rec = ""))%bool
      then None
      else if (negb (bool_decide (PrevHash rec = genesisHash)) && negb (digest_text (PrevHash rec)))%bool then None
      else
        let expected := if bool_decide (Instance rec = inst) then expected else genesisHash in
        if ((0 <? n) && negb (bool_decide (PrevHash rec = expected)))%bool then None
        else Some (n + 1, Instance rec, digest line)
  end.

Definition invalid : string :=
  "audit: retained WAL is malformed or truncated; preserve and repair it before restart".

Definition ends_with_LF (s : string) : bool := negb (bool_decide (trim_last LF s = s)).

Definition retainedRecords (f : WalFile) : result string Z :=
  match wf_stat f with
  | Some e => Err ("audit: inspect retained WAL: " +:+ e)
  | None =>
      if bool_decide (wf_bytes f = "") then Ok 0
      else match wf_readAt f with
      | Some e => Err ("audit: inspect retained WAL framing: " +:+ e)
      | None =>
          if negb (ends_with_LF (wf_bytes f)) then Err invalid
          else match Replay (S (String.length (wf_bytes f))) (wf_bytes f) (wf_fault f) check_retained (0, "", "") with
               | Some (Ok (n, _, _)) => Ok n
               | _ => Err invalid
               end
      end
  end.

(** [open] is what [OpenWAL] gives. *)
Definition NewWriter (failureMode inst : string) (open : result string WalFile) (ss : list Sink)
    : result string (Writer Body) :=
  if (negb (bool_decide (failureMode = "")) && negb (bool_decide (failureMode = "buffer_then_block")))%bool
  then Err "audit: unsupported failure mode; use buffer_then_block"
  else
    f ← open;
    n ← retainedRecords f;
    Ok (mkWriter inst [] (wf_bytes f) ss genesisHash n 0 None
          (if n >=? queueCapacity then blockedBuffer else 0) 0 0 []).

(** ** One pass in closed form *)

(** The sinks after a line, and whether every required one took it. *)
Fixpoint written (canon : string) (ss : list Sink) (os : list write_result) : list Sink :=
  match ss with
  | [] => []
  | s :: ss => (sink_write canon (hd Wrote os) s).1 :: written canon ss (tl os)
  end.

Fixpoint flushed (ss : list Sink) (os : list write_result) : bool :=
  match ss with
  | [] => true
  | s :: ss => (match hd Wrote os with Wrote => true | Torn _ => negb (Required s) end && flushed ss (tl os))%bool
  end.

Lemma fan_out_spec canon ss os w :
  ∃ f b ms, fan_out canon ss os w = (written canon ss os, flushed ss os, with_counters f b ms w).
Proof.
  revert os w. induction ss as [|s ss IH]; intros os w; simpl.
  - exists (writeFailuresTotal w), (bufferedRecords w), (metrics w). by destruct w.
  - unfold sink_write. destruct (hd Wrote os) as [|k]; simpl.
    + destruct (IH (tl os) w) as (f & b & ms & ->). by exists f, b, ms.
    + destruct (Required s) eqn:Hr; simpl.
      * destruct (IH (tl os) (sink_failure (Name s) w)) as (f & b & ms & ->). by exists f, b, ms.
      * destruct (IH (tl os) w) as (f & b & ms & ->). by exists f, b, ms.
Qed.

(** The line as it lands in a file. *)
Definition line_of (canon : string) : string := canon +:+ String LF "".

(** The log, the retained count and whether the log failed, after a line. *)
Definition logged (canon : string) (o : Outcomes) (fl : bool) w : string * Z * bool :=
  match o_wal o with
  | Torn k => (wal w +:+ String.substring 0 k (line_of canon), pending w, true)
  | Wrote =>
      if (fl && (pending w =? 0))%bool then
        match o_truncate o with
        | Truncated => ("", 0, false)
        | TruncateFails => (wal w +:+ line_of canon, 1, true)
        | SeekFails => ("", 1, true)
        end
      else (wal w +:+ line_of canon, pending w + 1, false)
  end.

Definition latch (walFailed : bool) (p : Z) (b : Z) : Z :=
  if b =? 0 then (if walFailed then blockedWAL else if p >=? queueCapacity then blockedBuffer else b) else b.

Lemma process_failed rec o w :
  Canonical (stamp rec w) = None →
  process rec o w = block blockedRecord (write_failure w).
Proof. unfold process. by intros ->. Qed.

Lemma process_canon rec o w canon :
  Canonical (stamp rec w) = Some canon →
  let fl := flushed (sinks w) (o_sinks o) in
  let '(f, p, bad) := logged canon o fl w in
  let durable := match o_wal o with Wrote => true | Torn _ => false end in
  ∃ nf nb ms, process rec o w
    = mkWriter (instance w) (queue w) f (written canon (sinks w) (o_sinks o)) (digest canon) p
        (if durable then count w + 1 else count w)
        (if durable then Some (mkHead (digest canon) (count w + 1)) else head w)
        (latch bad p (blocked w)) nf nb ms.
Proof.
  unfold process, logged. intros ->. cbn zeta. unfold write_line, block, latch, line_of.
  destruct (o_wal o) as [|k]; simpl.
  - match goal with |- context [fan_out canon ?ss ?os ?w0] => destruct (fan_out_spec canon ss os w0) as (f & b & ms & ->) end.
    cbn [negb andb]. destruct (flushed (sinks w) (o_sinks o)); simpl.
    + replace (pending w + 1 =? 1) with (pending w =? 0) by lia. destruct (pending w =? 0) eqn:Hp; simpl.
      * apply Z.eqb_eq in Hp. rewrite Hp. destruct (o_truncate o); simpl; unfold walFailure, block; simpl;
          destruct (blocked w =? 0) eqn:Hb; simpl; rewrite ?Hb; eexists _, _, _; reflexivity.
      * destruct (_ >=? _); simpl; destruct (blocked w =? 0) eqn:Hb; simpl; eexists _, _, _;
          unfold gauge, with_counters; simpl; f_equal; lia.
    + destruct (_ >=? _); simpl; destruct (blocked w =? 0) eqn:Hb; simpl; eexists _, _, _;
          unfold gauge, with_counters; simpl; f_equal; lia.
  - unfold walFailure, block. simpl. destruct (blocked w =? 0) eqn:Hb; simpl;
    match goal with |- context [fan_out canon ?ss ?os ?w0] => destruct (fan_out_spec canon ss os w0) as (f & b & ms & ->) end;
    simpl; destruct (_ >=? _); simpl; rewrite ?Hb; simpl; eexists _, _, _; reflexivity.
Qed.

Lemma process_queue rec o w : queue (process rec o w) = queue w.
Proof.
  destruct (Canonical (stamp rec w)) as [c|] eqn:Hc.
  - pose proof (process_canon rec o w c Hc) as Hp. cbn zeta in Hp.
    destruct (logged _ _ _ _) as [[f p] bad]. by destruct Hp as (? & ? & ? & ->).
  - rewrite process_failed by done. unfold block. by destruct (_ =? _).
Qed.

(** ** Runs *)

(** A handler appends (a full queue makes it wait), or the loop makes a pass. *)
Inductive wop := OpAppend (rec : Entry Body) | OpPass (o : Outcomes).

Definition wstep w (op : wop) : Writer Body :=
  match op with OpAppend rec => default w (Append rec w) | OpPass o => loop o w end.

Definition wrun w (ops : list wop) : Writer Body := foldl wstep w ops.

(** The lines a run hashes and writes, with what happened to each. *)
Definition emitted w (op : wop) : list (string * Outcomes) :=
  match op, queue w with
  | OpPass o, rec :: _ => match Canonical (stamp rec w) with Some c => [(c, o)] | None => [] end
  | _, _ => []
  end.

Fixpoint history w (ops : list wop) : list (string * Outcomes) :=
  match ops with [] => [] | op :: ops => emitted w op ++ history (wstep w op) ops end.

Lemma history_app w ops ops' : history w (ops ++ ops') = history w ops ++ history (wrun w ops) ops'.
Proof. revert w. induction ops as [|op ops IH]; intros w; simpl; [done|]. by rewrite IH, app_assoc. Qed.

Lemma wrun_app w ops ops' : wrun w (ops ++ ops') = wrun (wrun w ops) ops'.
Proof. apply foldl_app. Qed.

(** Induction over a run and its history, the appended records all of [P]. *)
Lemma wrun_rule_of (P : Entry Body → Prop) (J : list (string * Outcomes) → Writer Body → Prop) w0 ops :
  Forall P (queue w0) → (∀ rec, OpAppend rec ∈ ops → P rec) →
  J [] w0 →
  (∀ hist q w, J hist w → J hist (with_queue q w)) →
  (∀ hist w, J hist w → J hist (block blockedRecord (write_failure w))) →
  (∀ hist rec o c w, P rec → Canonical (stamp rec w) = Some c → J hist w → J (hist ++ [(c, o)]) (process rec o w)) →
  J (history w0 ops) (wrun w0 ops).
Proof.
  intros HP0 HP H0 Hq Hf Hp.
  enough (J (history w0 ops) (wrun w0 ops) ∧ Forall P (queue (wrun w0 ops))) by tauto.
  induction ops as [|op ops IH] using rev_ind; [done|]. destruct IH as [IH HPq].
  { intros rec Hin. apply HP, elem_of_app. by left. }
  rewrite history_app, wrun_app. simpl. rewrite app_nil_r.
  set (w := wrun w0 ops) in *. destruct op as [rec|o]; simpl.
  - rewrite app_nil_r. unfold Append. destruct (_ <? _); simpl; [|by auto]. split; [by auto|].
    apply Forall_app. split; [done|]. apply Forall_singleton, HP, elem_of_app. right. by left.
  - unfold loop. destruct (queue w) as [|rec q] eqn:Ew; [by rewrite app_nil_r, Ew|].
    apply Forall_cons in HPq as [HPr HPq].
    change (stamp rec w) with (stamp rec (with_queue q w)). rewrite process_queue. split; [|done].
    destruct (Canonical (stamp rec (with_queue q w))) as [c|] eqn:Hc; [by auto|].
    rewrite app_nil_r, process_failed by done. auto.
Qed.

Lemma wrun_rule (J : list (string * Outcomes) → Writer Body → Prop) w0 ops :
  J [] w0 →
  (∀ hist q w, J hist w → J hist (with_queue q w)) →
  (∀ hist w, J hist w → J hist (block blockedRecord (write_failure w))) →
  (∀ hist rec o c w, Canonical (stamp rec w) = Some c → J hist w → J (hist ++ [(c, o)]) (process rec o w)) →
  J (history w0 ops) (wrun w0 ops).
Proof.
  intros. apply (wrun_rule_of (λ _, True)); auto. by apply Forall_true.
Qed.

(** Appended records are written in the order of the queue. *)
Definition accepted w (op : wop) : list (Entry Body) :=
  match op with
  | OpAppend rec => if Z.of_nat (length (queue w)) <? queueCapacity then [rec] else []
  | OpPass _ => []
  end.

Definition taken w (op : wop) : list (Entry Body) :=
  match op, queue w with OpPass _, rec :: _ => [rec] | _, _ => [] end.

Lemma queue_fifo w op : queue w ++ accepted w op = taken w op ++ queue (wstep w op).
Proof.
  destruct op as [rec|o]; simpl.
  - unfold Append. destruct (_ <? _); simpl; [done|by rewrite app_nil_r].
  - rewrite app_nil_r. unfold loop. destruct (queue w) as [|rec q] eqn:E; [by rewrite E|].
    simpl. by rewrite process_queue.
Qed.

(** ** Nothing durable is lost *)

Definition infix (s t : string) : Prop := ∃ a b, t = a +:+ s +:+ b.

Lemma infix_app s t u : infix s t → infix s (t +:+ u).
Proof. intros (a & b & ->). exists a, (b +:+ u). by rewrite !str_app_assoc. Qed.

Lemma infix_end t s : infix s (t +:+ s).
Proof.
  exists t, "". by rewrite str_app_nil_r.
Qed.

(** Every required sink with a file of its own holds the line. *)
Definition delivered (canon : string) (ss : list Sink) : Prop :=
  ∀ s, s ∈ ss → Required s = true → isRecordSink s = false → infix (line_of canon) (Out s).

Lemma delivered_written c canon ss os : delivered c ss → delivered c (written canon ss os).
Proof.
  revert os. induction ss as [|s ss IH]; intros os Hd; simpl; [done|].
  intros s' [->|Hin]%elem_of_cons.
  - specialize (Hd s ltac:(left)). unfold sink_write. destruct (hd Wrote os); simpl; intros Hr Hk;
      rewrite Hk; by apply infix_app, Hd.
  - apply (IH (tl os)); [|done]. intros x Hx. apply Hd. by right.
Qed.

Lemma delivered_flushed canon ss os : flushed ss os = true → delivered canon (written canon ss os).
Proof.
  revert os. induction ss as [|s ss IH]; intros os; simpl; [by intros _ s ?%not_elem_of_nil|].
  intros Hf. bsplit. intros s' [->|Hin]%elem_of_cons; [|by apply (IH (tl os))].
  unfold sink_write. destruct (hd Wrote os); simpl; intros Hr Hk.
  - rewrite Hk. apply infix_end.
  - by rewrite Hr in *.
Qed.

Definition safe_run w0 (hist : list (string * Outcomes)) w : Prop :=
  0 <= pending w
  ∧ (∀ c o, (c, o) ∈ hist → o_wal o = Wrote →
       delivered c (sinks w) ∨ (0 < pending w ∧ infix (line_of c) (wal w)))
  ∧ (0 < pending w0 → 0 < pending w ∧ ∃ t, wal w = wal w0 +:+ t).

Lemma safe_run_process w0 hist rec o c w :
  Canonical (stamp rec w) = Some c → safe_run w0 hist w → safe_run w0 (hist ++ [(c, o)]) (process rec o w).
Proof.
  intros Hc (Hp & Hh & Hb). pose proof (process_canon rec o w c Hc) as Hs. cbn zeta in Hs.
  unfold logged in Hs. destruct (o_wal o) as [|k] eqn:Hw.
  - destruct (flushed (sinks w) (o_sinks o) && (pending w =? 0))%bool eqn:Hf.
    + bsplit.
      assert (Hd : ∀ c' o', (c', o') ∈ hist ++ [(c, o)] → o_wal o' = Wrote → delivered c' (written c (sinks w) (o_sinks o))).
      { intros c' o' [Hin|[= -> ->]%list_elem_of_singleton]%elem_of_app Hw'; [|by apply delivered_flushed].
        destruct (Hh c' o' Hin Hw') as [Hd|[]]; [by apply delivered_written|lia]. }
      destruct (o_truncate o); destruct Hs as (? & ? & ? & ->); unfold safe_run; simpl;
        (split_and!; [lia|intros c' o' Hin Hw'; left; by apply (Hd c' o')|intros Hpos; destruct (Hb Hpos); lia]).
    + destruct Hs as (? & ? & ? & ->). split_and!; simpl; [lia| |].
      * intros c' o' [Hin|[= -> ->]%list_elem_of_singleton]%elem_of_app Hw'.
        -- destruct (Hh c' o' Hin Hw') as [Hd|[? Hi]]; [left; by apply delivered_written|right].
           split; [lia|by apply infix_app].
        -- right. split; [lia|apply infix_end].
      * intros Hpos. destruct (Hb Hpos) as (Hpw & t & ->). split; [lia|]. eexists. by rewrite str_app_assoc.
  - destruct Hs as (? & ? & ? & ->). split_and!; simpl; [lia| |].
    + intros c' o' [Hin|[= -> ->]%list_elem_of_singleton]%elem_of_app Hw'; [|by rewrite Hw in Hw'].
      destruct (Hh c' o' Hin Hw') as [Hd|[? Hi]]; [left; by apply delivered_written|right].
      split; [lia|by apply infix_app].
    + intros Hpos. destruct (Hb Hpos) as (Hpw & t & ->). split; [lia|]. eexists. by rewrite str_app_assoc.
Qed.

(** ** Opening, as a fold over lines *)

Fixpoint fold_lines {A} (fn : A → string → option A) (a : A) (ls : list string) : option A :=
  match ls with [] => Some a | x :: ls => a ← fn a x; fold_lines fn a ls end.

Lemma fold_lines_app {A} (fn : A → string → option A) a ls ls' :
  fold_lines fn a (ls ++ ls') = a ← fold_lines fn a ls; fold_lines fn a ls'.
Proof. revert a. induction ls as [|x ls IH]; intros a; simpl; [done|]. destruct (fn a x); simpl; auto. Qed.

(** The nonempty lines of a log. *)
Definition wal_lines (s : string) : list string := filter (λ x, x ≠ "") (split_lines s).

Lemma Replay_lines {A} fuel s fault (fn : A → string → option A) a :
  (String.length s < fuel)%nat →
  ∃ r, Replay fuel s fault fn a = Some r
    ∧ (fault = None → r = match fold_lines fn a (wal_lines s) with Some a => Ok a | None => Err "refused" end)
    ∧ (is_ok r = true → fault = None).
Proof.
  revert s a. induction fuel as [|fuel IH]; [lia|]. intros s a Hlen. cbn [Replay].
  destruct (ReadBytes_split s) as [x Hx]. pose proof (ReadBytes_free s) as Hfree.
  unfold wal_lines. destruct (ReadBytes s) as [[line rest] [|]].
  - destruct Hx as (-> & -> & Hlt). rewrite trim_last_snoc. case_bool_decide as He.
    + rewrite filter_cons_False by (by intros []). apply IH. lia.
    + rewrite filter_cons_True by done. simpl. destruct (fn a x); simpl; [apply IH; lia|]. by eexists.
  - destruct Hx as (Hx & ->). subst line. rewrite (trim_last_free LF) by eauto.
    destruct fault; [by eexists|]. case_bool_decide as He.
    + rewrite filter_cons_False by (by intros []). by eexists.
    + rewrite filter_cons_True by done. simpl. destruct (fn a x); by eexists.
Qed.

Lemma check_retained_count st line st' :
  check_retained st line = Some st' → st'.1.1 = st.1.1 + 1.
Proof.
  destruct st as [[n i] e]. unfold check_retained. destruct (Unmarshal line); [|done].
  destruct (_ || _)%bool; [done|]. destruct (_ && _)%bool; [done|]. destruct (_ && _)%bool; [done|]. by intros [= <-].
Qed.

Lemma fold_retained_count st ls st' :
  fold_lines check_retained st ls = Some st' → st'.1.1 = st.1.1 + Z.of_nat (length ls).
Proof.
  revert st. induction ls as [|x ls IH]; intros st; simpl; [intros [= ->]; lia|].
  destruct (check_retained st x) as [st1|] eqn:E; simpl; [|done].
  intros Hf. apply IH in Hf. apply check_retained_count in E. lia.
Qed.

(** What an opened writer starts from. *)
Lemma NewWriter_ok mode inst open ss w0 :
  NewWriter mode inst open ss = Ok w0 →
  ∃ f i e, open = Ok f
    ∧ fold_lines check_retained (0, "", "") (wal_lines (wf_bytes f)) = Some (pending w0, i, e)
    ∧ (wf_bytes f = "" ∨ ends_with_LF (wf_bytes f) = true)
    ∧ w0 = mkWriter inst [] (wf_bytes f) ss genesisHash (pending w0) 0 None
             (if pending w0 >=? queueCapacity then blockedBuffer else 0) 0 0 [].
Proof.
  unfold NewWriter. destruct (_ && _)%bool; [done|]. intros Hn.
  apply bind_Ok in Hn as (f & -> & Hn). apply bind_Ok in Hn as (n & Hr & Hn). injection Hn as <-.
  exists f. unfold retainedRecords in Hr. destruct (wf_stat f); [done|]. case_bool_decide as He.
  - injection Hr as <-. exists "", "". rewrite He. split_and!; [done|done|by left|done].
  - destruct (wf_readAt f); [done|]. destruct (ends_with_LF (wf_bytes f)) eqn:El; [|done]. cbn [negb] in Hr.
    destruct (Replay_lines (S (String.length (wf_bytes f))) (wf_bytes f) (wf_fault f) check_retained (0, "", ""))
      as (r & Hrep & Hfold & Hfault); [lia|].
    rewrite Hrep in Hr. destruct r as [[[n' i] e]|]; [|done]. injection Hr as ->.
    exists i, e. simpl. split_and!; [done| |by right|done].
    specialize (Hfold (Hfault eq_refl)).
    destruct (fold_lines check_retained (0, "", "") (wal_lines (wf_bytes f))) as [a|]; congruence.
Qed.

Lemma NewWriter_pending mode inst open ss w0 : NewWriter mode inst open ss = Ok w0 → 0 <= pending w0.
Proof.
  intros Hn. destruct (NewWriter_ok _ _ _ _ _ Hn) as (f & i & e & _ & Hf & _).
  apply fold_retained_count in Hf. simpl in Hf. lia.
Qed.

(** C32: No durable record is lost.  Whatever the log, the sinks and the
    truncations do, a record whose log append succeeded is in every required
    sink's file or still in the log; and records retained from an earlier
    process are never truncated. *)
Theorem durable_not_lost mode inst open ss w0 ops :
  NewWriter mode inst open ss = Ok w0 →
  let w := wrun w0 ops in
  (∀ c o, (c, o) ∈ history w0 ops → o_wal o = Wrote → delivered c (sinks w) ∨ infix (line_of c) (wal w))
  ∧ (0 < pending w0 → ∃ t, wal w = wal w0 +:+ t).
Proof.
  intros Hn w. assert (Hs : safe_run w0 (history w0 ops) w).
  { apply (wrun_rule (safe_run w0)); [|done| |apply safe_run_process].
    - split_and!; [by eapply NewWriter_pending|by intros ? ? ?%not_elem_of_nil|].
      intros Hp. split; [done|]. exists "". by rewrite str_app_nil_r.
    - intros hist w1. unfold safe_run, block. by destruct (_ =? _). }
  destruct Hs as (_ & Hd & Hb). split; [|naive_solver].
  intros c o Hin Hw. destruct (Hd c o Hin Hw) as [|[]]; auto.
Qed.

(** Once closed, the latch keeps its reason. *)
Definition latch_inv (hist : list (string * Outcomes)) w : Prop :=
  0 <= blocked w <= 3
  ∧ (blocked w = 0 → pending w < queueCapacity ∧ ∀ c o, (c, o) ∈ hist → o_wal o = Wrote).

Lemma latch_inv_process hist rec o c w :
  Canonical (stamp rec w) = Some c → latch_inv hist w → latch_inv (hist ++ [(c, o)]) (process rec o w).
Proof.
  intros Hc (Hr & Hi). pose proof (process_canon rec o w c Hc) as Hs. cbn zeta in Hs.
  destruct (logged c o _ w) as [[f p] bad] eqn:El. destruct Hs as (? & ? & ? & ->). unfold latch_inv; simpl.
  unfold latch, blockedWAL, blockedBuffer.
  destruct (Z.eqb_spec (blocked w) 0) as [Hb|Hb]; [|split; [done|lia]].
  destruct bad; [split; [done|lia]|]. destruct (p >=? queueCapacity) eqn:Hp; [split; [done|lia]|].
  split; [lia|]. bsplit. intros _. split; [done|].
  intros c' o' [Hin|[= -> ->]%list_elem_of_singleton]%elem_of_app; [by eapply Hi|].
  unfold logged in El. destruct (o_wal o); [done|]. by injection El.
Qed.

Lemma process_blocked rec o w : blocked w ≠ 0 → blocked (process rec o w) = blocked w.
Proof.
  intros Hb. destruct (Canonical (stamp rec w)) as [c|] eqn:Hc.
  - pose proof (process_canon rec o w c Hc) as Hs. cbn zeta in Hs.
    destruct (logged c o _ w) as [[f p] bad]. destruct Hs as (? & ? & ? & ->). simpl. unfold latch.
    by destruct (Z.eqb_spec (blocked w) 0).
  - rewrite process_failed by done. unfold block. simpl. by destruct (Z.eqb_spec (blocked w) 0).
Qed.

Lemma wrun_blocked w ops : blocked w ≠ 0 → blocked (wrun w ops) = blocked w.
Proof.
  intros Hb. enough (blocked w ≠ 0 ∧ blocked (wrun w ops) = blocked w) by tauto.
  apply (wrun_rule (λ _ w', blocked w ≠ 0 ∧ blocked w' = blocked w)); [done|done| |].
  - intros _ w' [? Hw]. unfold block. simpl. rewrite Hw. by destruct (Z.eqb_spec (blocked w) 0).
  - intros _ rec o c w' _ [? Hw]. split; [done|]. rewrite process_blocked; congruence.
Qed.

Lemma Ready_blocked w : 0 <= blocked w <= 3 → (Ready w).1 = bool_decide (blocked w = 0).
Proof.
  intros Hr. unfold Ready, blockedBuffer, blockedWAL, blockedRecord.
  destruct (Z.eqb_spec (blocked w) 1); [by rewrite bool_decide_false by lia|].
  destruct (Z.eqb_spec (blocked w) 2); [by rewrite bool_decide_false by lia|].
  destruct (Z.eqb_spec (blocked w) 3); [by rewrite bool_decide_false by lia|].
  by rewrite bool_decide_true by lia.
Qed.

(** The admission latch.  Once closed it stays closed, with its reason,
    for the life of the process.  While it is open, fewer than 1024 records
    are retained and the log took every record of the run. *)
Theorem admission_latch mode inst open ss w0 ops :
  NewWriter mode inst open ss = Ok w0 →
  ((Ready (wrun w0 ops)).1 = false → ∀ ops', Ready (wrun w0 (ops ++ ops')) = Ready (wrun w0 ops))
  ∧ ((Ready (wrun w0 ops)).1 = true →
     pending (wrun w0 ops) < queueCapacity ∧ ∀ c o, (c, o) ∈ history w0 ops → o_wal o = Wrote).
Proof.
  intros Hn. destruct (NewWriter_ok _ _ _ _ _ Hn) as (f & i & e & _ & _ & _ & Hw0).
  assert (Hi : latch_inv (history w0 ops) (wrun w0 ops)).
  { apply wrun_rule; [|done| |apply latch_inv_process].
    - rewrite Hw0. unfold latch_inv; simpl. destruct (_ >=? _) eqn:Hp; unfold blockedBuffer; [split; lia|].
      bsplit. split; [lia|]. intros _. split; [done|]. by intros ? ? ?%not_elem_of_nil.
    - intros hist w [Hr Hi]. unfold latch_inv, block, blockedRecord. simpl.
      destruct (Z.eqb_spec (blocked w) 0); simpl; [split; lia|]. by split. }
  destruct Hi as [Hr Hi]. rewrite !Ready_blocked by done. split; [|by intros Hb; bsplit; apply Hi].
  intros Hb ops'. bsplit. rewrite wrun_app. unfold Ready. by rewrite wrun_blocked.
Qed.

End Writer.

(** ** What encoding/json and SHA-256 guarantee of a written line *)

Section Laws.
Context {Body : Type} {C : Codec Body} {L : CodecLaws Body}.
Implicit Types (w : Writer Body) (rec : Entry Body).

Lemma ascii_text_app s t : ascii_text (s +:+ t) = (ascii_text s && ascii_text t)%bool.
Proof. induction s as [|a s IH]; simpl; [done|]. by rewrite IH, andb_assoc. Qed.

Lemma EncodeToString_text s :
  hex_text (EncodeToString s) = true ∧ ascii_text (EncodeToString s) = true
  ∧ String.length (EncodeToString s) = (2 * String.length s)%nat.
Proof.
  assert (Hd : ∀ n, (n < 16)%nat → hex_digit (hex_char n) = true ∧ Nat.ltb (Ascii.nat_of_ascii (hex_char n)) 128 = true).
  { intros n Hn. do 16 (destruct n as [|n]; [done|]). lia. }
  induction s as [|a s (IH1 & IH2 & IH3)]; [done|]. destruct (byte_halves a) as [Hh Hl].
  destruct (Hd _ Hh) as [H1 H2], (Hd _ Hl) as [H3 H4]. cbn [EncodeToString hex_text ascii_text String.length].
  unfold hex_high, hex_low. rewrite H1, H2, H3, H4, IH1, IH2, IH3. split_and!; [done|done|lia].
Qed.

Lemma cut_prefix_app p s : cut_prefix p (p +:+ s) = Some s.
Proof. induction p as [|a p IH]; simpl; [done|]. by rewrite Ascii.eqb_refl. Qed.

Lemma digest_spec line :
  digest_text (digest line) = true ∧ ascii_text (digest line) = true ∧ digest line ≠ "".
Proof.
  destruct (EncodeToString_text (Sum256 line)) as (H1 & H2 & H3). unfold digest. split_and!; [|by rewrite ascii_text_app, H2|done].
  unfold digest_text. by rewrite cut_prefix_app, H1, H3, sum256_length.
Qed.

(** A link: genesis or a digest. *)
Definition link_text (h : string) : Prop :=
  ascii_text h = true ∧ h ≠ "" ∧ (h = genesisHash ∨ digest_text h = true).

Lemma link_text_genesis : link_text genesisHash.
Proof. split_and!; [done|done|by left]. Qed.

Lemma link_text_digest line : link_text (digest line).
Proof. destruct (digest_spec line) as (? & ? & ?). split_and!; [done|done|by right]. Qed.

(** The event and the instance name of a record are ASCII and not empty. *)
Definition named (rec : Entry Body) : Prop := ascii_text (Event rec) = true ∧ Event rec ≠ "".

Lemma stamp_line rec w c :
  Canonical (stamp rec w) = Some c → named rec → ascii_text (instance w) = true → link_text (prevHash w) →
  (c ≠ "" ∧ str_free LF c = true ∧ str_free CR c = true)
  ∧ ∃ r, Unmarshal c = Some r ∧ Event r = Event rec ∧ Instance r = instance w ∧ PrevHash r = prevHash w.
Proof.
  intros Hc [He _] Hi (Hp & _). split; [by eapply canonical_line|].
  destruct (canonical_fields _ _ Hc) as (r & ? & ? & ? & ?); [done..|]. by exists r.
Qed.

(** *** Retained records are accepted at the next start *)

Lemma ends_with_LF_line s c : ends_with_LF (s +:+ line_of c) = true.
Proof.
  unfold ends_with_LF, line_of. rewrite <- str_app_assoc, trim_last_snoc. apply negb_true_iff, bool_decide_eq_false.
  intros He. apply (f_equal String.length) in He. rewrite !str_length_app in He. simpl in He. lia.
Qed.

Definition framed (s : string) : Prop := s = "" ∨ ends_with_LF s = true.

Lemma framed_complete s : framed s → complete s.
Proof.
  intros [->|He]; [apply complete_nil|]. apply trim_last_complete. unfold ends_with_LF in He. by bsplit.
Qed.

Lemma wal_lines_line s c :
  framed s → c ≠ "" → str_free LF c = true → wal_lines (s +:+ line_of c) = wal_lines s ++ [c].
Proof.
  intros [l Hl]%framed_complete Hne Hf. unfold wal_lines, line_of.
  rewrite (split_lines_app _ _ _ Hl), split_lines_line, Hl by done. rewrite !filter_app.
  rewrite filter_cons_True by done. rewrite !filter_cons_False by (by intros []). by rewrite app_nil_r.
Qed.

Definition retained (inst : string) w : Prop :=
  instance w = inst ∧ link_text (prevHash w) ∧ framed (wal w)
  ∧ ∃ i e, fold_lines check_retained (0, "", "") (wal_lines (wal w)) = Some (pending w, i, e)
      ∧ (pending w = 0 ∨ (i = inst ∧ e = prevHash w) ∨ (i ≠ inst ∧ prevHash w = genesisHash)).

(** The log took the record, and was emptied when it was to be. *)
Definition clean (o : Outcomes) : Prop := o_wal o = Wrote ∧ o_truncate o ≠ SeekFails.

Lemma retained_process inst rec o c w :
  ascii_text inst = true → inst ≠ "" → named rec → clean o → Canonical (stamp rec w) = Some c →
  retained inst w → retained inst (process rec o w).
Proof.
  intros Ha Hne Hn [Hwr Hsk] Hc (Hinst & Hlink & Hfr & i & e & Hfold & Hlast).
  destruct (stamp_line rec w c Hc Hn) as ((Hc0 & HcL & _) & r & Hu & He & Hi & Hp); [by rewrite Hinst|done|].
  assert (Hap : retained inst (mkWriter (instance w) (queue w) (wal w +:+ line_of c) (sinks w) (digest c)
                 (pending w + 1) 0 None 0 0 0 [])).
  { split_and!; simpl; [done|apply link_text_digest|right; apply ends_with_LF_line|].
    exists inst, (digest c). rewrite wal_lines_line, fold_lines_app, Hfold by done. split; [|auto].
    simpl. rewrite Hu, He, Hi, Hp, Hinst. destruct Hn as [_ Hev], Hlink as (_ & Hpne & Hpt).
    rewrite !(bool_decide_false (_ = "")) by done. cbn [orb].
    replace (negb (bool_decide (prevHash w = genesisHash)) && negb (digest_text (prevHash w)))%bool with false
      by (destruct Hpt as [->| ->]; [by rewrite bool_decide_true|by rewrite andb_false_r]).
    assert (0 <= pending w). { apply fold_retained_count in Hfold. simpl in Hfold. lia. }
    destruct (Z.ltb_spec 0 (pending w)); [|done]. simpl.
    destruct Hlast as [?|[[-> ->]|[Hii ->]]]; [lia| |].
    - by rewrite (bool_decide_true (inst = inst)), bool_decide_true by done.
    - by rewrite (bool_decide_false (inst = i)), bool_decide_true by done. }
  pose proof (process_canon rec o w c Hc) as Hs. cbn zeta in Hs. unfold logged in Hs. rewrite Hwr in Hs.
  destruct (_ && _)%bool eqn:Hf; [bsplit; destruct (o_truncate o); [| |done]|];
    destruct Hs as (? & ? & ? & ->); [|unfold retained in *; simpl in *..].
  - split_and!; simpl; [done|apply link_text_digest|by left|]. exists "", "". split; [done|by left].
  - replace (pending w + 1) with 1 in Hap by lia. exact Hap.
  - exact Hap.
Qed.

Lemma fold_retained_instance st ls st' :
  fold_lines check_retained st ls = Some st' →
  st' = st ∨ ∃ line r, line ∈ ls ∧ Unmarshal line = Some r ∧ st'.1.2 = Instance r.
Proof.
  revert st. induction ls as [|x ls IH]; intros st; simpl; [intros [= ->]; by left|].
  destruct (check_retained st x) as [st1|] eqn:E; simpl; [|done]. intros Hf.
  destruct (IH _ Hf) as [->|(line & r & Hin & Hu & Hi)]; right; [|exists line, r; split_and!; [by right|done|done]].
  destruct st as [[n i] e]. unfold check_retained in E. destruct (Unmarshal x) as [r|] eqn:Hu; [|done].
  destruct (_ || _)%bool; [done|]. destruct (_ && _)%bool; [done|]. destruct (_ && _)%bool; [done|].
  injection E as <-. exists x, r. split_and!; [left|done|done].
Qed.

(** C34: What the writer retains, the next start accepts.  After a run in which
    every log append succeeded, the log, whatever mix of earlier backlog,
    undelivered records and emptied batches it went through, validates as
    complete JSONL with unbroken links and counts exactly the retained
    records. *)
Theorem restart_accepts mode inst f ss w0 ops :
  NewWriter mode inst (Ok f) ss = Ok w0 →
  ascii_text inst = true → inst ≠ "" →
  (∀ line r, line ∈ wal_lines (wf_bytes f) → Unmarshal line = Some r → Instance r ≠ inst) →
  (∀ rec, OpAppend rec ∈ ops → named rec) →
  (∀ c o, (c, o) ∈ history w0 ops → clean o) →
  let w := wrun w0 ops in retainedRecords (mkWal None None (wal w) None) = Ok (pending w).
Proof.
  intros Hn Ha Hne Hfresh Hev Hclean w.
  destruct (NewWriter_ok _ _ _ _ _ Hn) as (f' & i & e & [= <-] & Hfold & Hfr & Hw0).
  assert (Hr : (∀ c o, (c, o) ∈ history w0 ops → clean o) → retained inst w).
  { apply (wrun_rule_of named (λ hist w, (∀ c o, (c, o) ∈ hist → clean o) → retained inst w)); [by rewrite Hw0|done| |done| |].
    - intros _. rewrite Hw0. split_and!; simpl; [done|apply link_text_genesis|done|].
      exists i, e. split; [done|]. destruct (fold_retained_instance _ _ _ Hfold) as [[= -> -> ->]|(l & r & Hin & Hu & Hi)]; [by left|].
      right. right. split; [|done]. simpl in Hi. rewrite Hi. by eapply Hfresh.
    - intros hist w1. unfold retained, block. by destruct (_ =? _).
    - intros hist rec o c w1 Hrec Hc HJ Hcl. apply (retained_process inst rec o c w1); try done.
      + apply (Hcl c o), elem_of_app. right. by left.
      + apply HJ. intros c' o' Hin. apply (Hcl c' o'), elem_of_app. by left. }
  destruct (Hr Hclean) as (_ & _ & Hframe & i' & e' & Hfold' & _).
  unfold retainedRecords. cbn [wf_stat wf_bytes wf_readAt wf_fault]. case_bool_decide as Hempty.
  - rewrite Hempty in Hfold'. injection Hfold' as <- _ _. done.
  - destruct Hframe as [?| ->]; [done|]. cbn [negb].
    destruct (Replay_lines (S (String.length (wal w))) (wal w) None check_retained (0, "", "")) as (r & -> & Hrep & _); [lia|].
    by rewrite (Hrep eq_refl), Hfold'.
Qed.

(** *** A file the writer alone wrote verifies against its anchors *)

Definition line_text (c : string) : Prop := c ≠ "" ∧ str_free LF c = true ∧ str_free CR c = true.

(** Lines appended to a file. *)
Definition append_lines (f : string) (cs : list string) : string := foldl (λ f c, f +:+ line_of c) f cs.

Lemma append_lines_records f cs :
  complete f → Forall line_text cs →
  complete (append_lines f cs) ∧ records (append_lines f cs) = records f ++ cs.
Proof.
  intros Hf Hcs. revert f Hf. induction Hcs as [|c cs (Hne & HL & HC) _ IH]; intros f Hf; simpl; [by rewrite app_nil_r|].
  destruct (IH (f +:+ line_of c)) as [Hc Hr]; [by apply complete_line|]. split; [done|].
  rewrite Hr. unfold line_of. rewrite records_line by done. by rewrite <- app_assoc.
Qed.

Lemma written_lookup c ss os j :
  written c ss os !! j = (λ s, (sink_write c (nth j os Wrote) s).1) <$> ss !! j.
Proof.
  revert os j. induction ss as [|s ss IH]; intros os j; [done|]. destruct j as [|j]; simpl; [by destruct os|].
  rewrite IH. destruct os; simpl; [by destruct j|done].
Qed.

(** The links of a run, and where its head is while the log takes every line. *)
Definition on_chain (inst : string) (hist : list (string * Outcomes)) w : Prop :=
  instance w = inst ∧ link_text (prevHash w) ∧ Forall line_text (map fst hist)
  ∧ chain_from inst genesisHash (map fst hist) = Some (prevHash w)
  ∧ ((∀ c o, (c, o) ∈ hist → o_wal o = Wrote) →
       HeadHash w = (prevHash w, Z.of_nat (length hist)) ∧ count w = Z.of_nat (length hist)).

Lemma on_chain_process inst hist rec o c w :
  ascii_text inst = true → named rec → Canonical (stamp rec w) = Some c →
  on_chain inst hist w → on_chain inst (hist ++ [(c, o)]) (process rec o w).
Proof.
  intros Ha Hn Hc (Hinst & Hl & Hlines & Hch & Hhead).
  destruct (stamp_line rec w c Hc Hn) as (Hline & r & Hu & _ & Hi & Hp); [by rewrite Hinst|done|].
  pose proof (process_canon rec o w c Hc) as Hs. cbn zeta in Hs.
  destruct (logged c o _ w) as [[f p] bad]. destruct Hs as (? & ? & ? & ->).
  unfold on_chain. rewrite map_app. simpl. split_and!; [done|apply link_text_digest| | |].
  - apply Forall_app. split; [done|]. by apply Forall_singleton.
  - rewrite chain_from_snoc, Hch. simpl. rewrite Hu. by rewrite bool_decide_true by (split; congruence).
  - intros Hw. rewrite (Hw c o) by (apply elem_of_app; right; by left).
    destruct Hhead as [_ ->]; [intros c' o' Hin; apply (Hw c' o'), elem_of_app; by left|].
    unfold HeadHash. simpl. rewrite length_app. simpl.
    replace (Z.of_nat (length hist) + 1) with (Z.of_nat (length hist + 1)) by lia. done.
Qed.

Lemma on_chain_run mode inst f ss w0 ops :
  NewWriter mode inst (Ok f) ss = Ok w0 → ascii_text inst = true →
  (∀ rec, OpAppend rec ∈ ops → named rec) →
  on_chain inst (history w0 ops) (wrun w0 ops).
Proof.
  intros Hn Ha Hev. destruct (NewWriter_ok _ _ _ _ _ Hn) as (? & ? & ? & _ & _ & _ & Hw0).
  apply (wrun_rule_of named); [by rewrite Hw0|done| |done| |].
  - rewrite Hw0. split_and!; [done|apply link_text_genesis|by constructor|done|done].
  - intros hist w. unfold on_chain, block. by destruct (_ =? _).
  - intros hist rec o c w. by apply on_chain_process.
Qed.

(** Sink [j] took every line. *)
Lemma sink_run w0 ops j s0 :
  sinks w0 !! j = Some s0 → isRecordSink s0 = false →
  (∀ c o, (c, o) ∈ history w0 ops → nth j (o_sinks o) Wrote = Wrote) →
  ∃ s, sinks (wrun w0 ops) !! j = Some s ∧ isRecordSink s = false
    ∧ Out s = append_lines (Out s0) (map fst (history w0 ops)).
Proof.
  intros Hs0 Hk. set (J := λ (hist : list (string * Outcomes)) w,
    (∀ c o, (c, o) ∈ hist → nth j (o_sinks o) Wrote = Wrote) →
    ∃ s, sinks w !! j = Some s ∧ isRecordSink s = false ∧ Out s = append_lines (Out s0) (map fst hist)).
  apply (wrun_rule J); unfold J; [intros _; by exists s0|done|intros hist w; unfold block; by destruct (_ =? _)|].
  intros hist rec o c w Hc IH Hj.
  destruct IH as (s & Hs & Hr & Ho); [intros c' o' Hin; apply (Hj c' o'), elem_of_app; by left|].
  pose proof (process_canon rec o w c Hc) as Hp. cbn zeta in Hp.
  destruct (logged c o _ w) as [[f p] bad]. destruct Hp as (? & ? & ? & ->). simpl.
  rewrite written_lookup, Hs. simpl. rewrite (Hj c o) by (apply elem_of_app; right; by left).
  eexists. split; [done|]. simpl. split; [done|]. rewrite Hr, map_app. unfold append_lines in *. by rewrite foldl_app, <- Ho.
Qed.

(** C33: What was written verifies.  While the log and a file sink take every
    line, the sink's file, earlier processes' valid segments included, passes
    the endpoint's check, with every record counted, against any head the
    writer published on the way. *)
Theorem written_file_verifies mode inst f ss w0 ops ops' j s0 s path ts :
  NewWriter mode inst (Ok f) ss = Ok w0 → ascii_text inst = true →
  (∀ rec, OpAppend rec ∈ ops ++ ops' → named rec) →
  sinks w0 !! j = Some s0 → isRecordSink s0 = false →
  complete (Out s0) → (∀ k, (k < length (records (Out s0)))%nat → linked (records (Out s0)) k) →
  (∀ line r, line ∈ records (Out s0) → Unmarshal line = Some r → Instance r ≠ inst) →
  (∀ c o, (c, o) ∈ history w0 (ops ++ ops') → o_wal o = Wrote ∧ nth j (o_sinks o) Wrote = Wrote) →
  sinks (wrun w0 (ops ++ ops')) !! j = Some s → Z.of_nat (String.length (Out s)) <= maxVerifyBytes →
  let published := HeadHash (wrun w0 ops) in
  0 < published.2 →
  verifyFile path (Opened true (Out s) None) (Some (Ok (Some (mkAnchor inst published.1 published.2 ts)))) inst
  = AuditChain.mkSink path true (Z.of_nat (length (records (Out s)))) 0 "" false true.
Proof.
  intros Hn Ha Hev Hs0 Hk Hcomp Hbase Hfresh Hok Hs Hsize published. unfold published. clear published.
  destruct (on_chain_run _ _ _ _ _ ops Hn Ha) as (_ & _ & _ & Hch1 & Hhead);
    [intros rec Hin; apply Hev, elem_of_app; by left|].
  destruct (on_chain_run _ _ _ _ _ (ops ++ ops') Hn Ha Hev) as (_ & _ & Hlines & Hch2 & _).
  rewrite history_app in *.
  destruct Hhead as [-> _]; [intros c o Hin; apply (Hok c o), elem_of_app; by left|]. cbn [fst snd]. intros Hc.
  destruct (sink_run w0 (ops ++ ops') j s0 Hs0 Hk) as (s' & Hs' & _ & Hout).
  { intros c o Hin. rewrite history_app in Hin. by apply (Hok c o). }
  rewrite Hs in Hs'. injection Hs' as <-. rewrite history_app in Hout.
  destruct (append_lines_records _ _ Hcomp Hlines) as [Hcf Hrec]. rewrite <- Hout in *.
  rewrite map_app in *.
  eapply (verifyFile_accepts path (Out s) (records (Out s0)) _ inst _ (length (history w0 ops))); try done.
  - lia.
  - rewrite length_app, length_map. lia.
  - rewrite take_app_length'; [done|by rewrite length_map].
Qed.

End Laws.

(** ** Anchoring: gateway.anchorOnce *)

Record Anchoring (Body : Type) := mkAnchoring
  { aud : Writer Body; anchorLast : Z; anchored : list AnchorPoint; anchorFailures : Z }.
Arguments mkAnchoring {Body} _ _ _ _.
Arguments aud {Body} _.
Arguments anchorLast {Body} _.
Arguments anchored {Body} _.
Arguments anchorFailures {Body} _.

(** The head is anchored once it has advanced past the last success; [ok]
    says whether the store took it. *)
Definition anchorOnce {Body} (ts : string) (ok : bool) (g : Anchoring Body) : Anchoring Body :=
  let '(h, c) := HeadHash (aud g) in
  if c <=? anchorLast g then g
  else if ok
       then mkAnchoring (aud g) c (anchored g ++ [mkAnchor (instance (aud g)) h c ts]) (anchorFailures g)
       else mkAnchoring (aud g) (anchorLast g) (anchored g) (anchorFailures g + 1).

(** What is anchored is the published head, each time at a higher count. *)
Lemma anchorOnce_spec {Body} ts ok (g : Anchoring Body) :
  let g' := anchorOnce ts ok g in
  aud g' = aud g ∧ anchorLast g <= anchorLast g'
  ∧ (anchored g' = anchored g ∧ anchorLast g' = anchorLast g
     ∨ anchored g' = anchored g ++ [mkAnchor (instance (aud g)) (HeadHash (aud g)).1 (HeadHash (aud g)).2 ts]
       ∧ anchorLast g < (HeadHash (aud g)).2 ∧ anchorLast g' = (HeadHash (aud g)).2).
Proof.
  unfold anchorOnce. destruct (HeadHash (aud g)) as [h c]. simpl.
  destruct (Z.leb_spec c (anchorLast g)); simpl; [split_and!; [done|lia|by left]|].
  destruct ok; simpl; (split_and!; [done|lia|]); [by right|by left].
Qed.

(** ** A concrete run *)

Module Demo.
Import AuditChain.Demo.

Definition rec (e : string) : Entry unit := mkEntry e "" "" tt.
Definition demo_sinks : list Sink := [mkSink "file" true false ""; mkSink "stdout" false false ""].
Definition demo_wal : WalFile := mkWal None None "" None.

Definition demo_writer : Writer unit :=
  mkWriter "i" [] "" demo_sinks genesisHash 0 0 None 0 0 0 [].

Lemma demo_writer_open : NewWriter "" "i" (Ok demo_wal) demo_sinks = Ok demo_writer.
Proof. by vm_compute. Qed.

Definition good : Outcomes := mkOutcomes Wrote [Wrote; Wrote] Truncated.
(** The file sink keeps three bytes of the line and fails. *)
Definition sink_down : Outcomes := mkOutcomes Wrote [Torn 3; Wrote] Truncated.
(** The log fails; the sinks do not. *)
Definition wal_down : Outcomes := mkOutcomes (Torn 0) [Wrote; Wrote] Truncated.

Definition step_of (e : string) (o : Outcomes) : list wop := [OpAppend (rec e); OpPass o].

Definition demo_ops : list wop := step_of "a" good ++ step_of "b" sink_down ++ step_of "c" good.

Lemma durable_not_lost_witness :
  let w := wrun demo_writer demo_ops in
  pending w = 2
  ∧ (∀ c o, (c, o) ∈ history demo_writer demo_ops → o_wal o = Wrote →
       delivered c (sinks w) ∨ infix (line_of c) (wal w))
  ∧ (0 < pending demo_writer → ∃ t, wal w = wal demo_writer +:+ t).
Proof.
  split; [by vm_compute|].
  apply (durable_not_lost "" "i" (Ok demo_wal) demo_sinks demo_writer demo_ops). by vm_compute.
Defined.

Lemma admission_latch_witness :
  (Ready (wrun demo_writer (step_of "a" wal_down))).1 = false
  ∧ ∀ ops', Ready (wrun demo_writer (step_of "a" wal_down ++ ops')) = Ready (wrun demo_writer (step_of "a" wal_down)).
Proof.
  split; [by vm_compute|].
  apply (admission_latch "" "i" (Ok demo_wal) demo_sinks demo_writer (step_of "a" wal_down)); by vm_compute.
Defined.

(** Case on the member of a concrete list. *)
Ltac each H :=
  repeat (apply elem_of_cons in H; destruct H as [H|H]; [first [discriminate H|injection H; clear H; intros; subst; by split]|]);
  by apply elem_of_nil in H.

Lemma restart_accepts_witness :
  pending (wrun demo_writer demo_ops) = 2
  ∧ retainedRecords (mkWal None None (wal (wrun demo_writer demo_ops)) None) = Ok (pending (wrun demo_writer demo_ops)).
Proof.
  split; [by vm_compute|].
  apply (restart_accepts "" "i" demo_wal demo_sinks); [by vm_compute|done|done| | |].
  - intros line r Hin. vm_compute in Hin. by apply elem_of_nil in Hin.
  - intros r Hin. unfold demo_ops, step_of in Hin. simpl in Hin. each Hin.
  - intros c o Hin. vm_compute in Hin. each Hin.
Defined.

Definition two : list wop := step_of "a" good ++ step_of "b" good.

Lemma written_file_verifies_witness :
  let published := HeadHash (wrun demo_writer (step_of "a" good)) in
  published = (digest line1, 1)
  ∧ verifyFile "f" (Opened true demo_log None) (Some (Ok (Some (mkAnchor "i" published.1 published.2 "")))) "i"
    = AuditChain.mkSink "f" true (Z.of_nat (length (records demo_log))) 0 "" false true.
Proof.
  split; [by vm_compute|].
  apply (written_file_verifies "" "i" demo_wal demo_sinks demo_writer (step_of "a" good) (step_of "b" good) 0
           (mkSink "file" true false "") (mkSink "file" true false demo_log) "f" "");
    try by vm_compute.
  - intros r Hin. unfold step_of in Hin. simpl in Hin. each Hin.
  - apply complete_nil.
  - intros k Hk. vm_compute in Hk. lia.
  - intros line r Hin. vm_compute in Hin. by apply elem_of_nil in Hin.
  - intros c o Hin. vm_compute in Hin. each Hin.
Defined.

(** A failed log append makes the untouched file look tampered with.  When
    the log refuses a record that the file sink accepts, the chain and the
    file advance but the published count does not; the next anchor then pairs
    the head of three records with the count two, and the endpoint reports
    tampering on a file that verifies by itself.  The retained log, which
    lacks the record, is refused at the next start. *)
Example wal_failure_false_alarm :
  let w := wrun demo_writer (step_of "a" sink_down ++ step_of "b" wal_down ++ step_of "c" good) in
  let w' := wrun demo_writer (step_of "a" good ++ step_of "b" wal_down ++ step_of "c" good) in
  let file := Opened true (from_option Out "" (sinks w' !! 0%nat)) None in
  let '(h, c) := HeadHash w' in
  c = 2 ∧ s_OK (verifyFile "f" file None "i") = true
  ∧ verifyFile "f" file (Some (Ok (Some (mkAnchor "i" h c "")))) "i"
    = AuditChain.mkSink "f" false 3 0 position_differs false true
  ∧ retainedRecords (mkWal None None (wal w) None) = Err invalid.
Proof. by vm_compute. Qed.

End Demo.
