(* ===== verification/Escrow.v ===== *)
(** * Node-local budget escrow: internal/authority/local,
    internal/policy/authority.go

    Grants of money leased from the control plane are kept in a journal, one
    row of a SQLite file, which every operation reads and replaces in one
    transaction.  An attempt reserves its whole bound from a grant of every
    matching hard budget before it is dispatched, and settles once.

    A transaction is atomic: the row is a pair of its owner and a journal, the
    JSON of which is its value.  What SQLite answers is an input ([TxResult];
    a commit that reports an error may have landed), and so are the clock's
    readings, the random identifiers, and the order [range] in which Go visits
    a map.  [sums] is the SHA-256 of a grant's JSON and [enc] the JSON of a
    list of strings. *)

From S2P Require Import Prelude GoTime Denial Governor.

(** ** The wire types (internal/policy/authority.go) *)

Definition AuthorityProtocol : string := "escrow-v1".

(** A [time.Time] with the offset of its zone. *)
Record Stamp := mkStamp { instant : Time; offset : Z }.
Definition zeroStamp : Stamp := mkStamp zeroTime 0.

Record AuthorityBudget := mkBudget
  { b_Key : string; b_Policy : string; b_Rule : string; b_Team : string; b_User : string;
    b_Revision : string; b_WindowID : string; b_WindowStart : Stamp; b_WindowEnd : Stamp;
    b_LimitMicroUSD : Z; b_GrantMicroUSD : Z; b_LeaseSeconds : Z; b_HardCap : bool }.

Record AuthorityGrantRequest := mkGrantRequest
  { q_RequestID : string; q_Key : string; q_Revision : string; q_WindowID : string; q_Want : Z }.

Record AuthorityGrant := mkAuthorityGrant
  { ag_ID : string; ag_RequestID : string; ag_Key : string; ag_Revision : string;
    ag_WindowID : string; ag_Amount : Z; ag_ExpiresAt : Stamp }.

Record AuthorityReport := mkReport
  { ar_Instance : string; ar_GrantID : string; ar_RequestID : string; ar_Sequence : Z;
    ar_Consumed : Z; ar_Observed : Z; ar_Closed : bool; ar_Overrun : bool }.

Record AuthorityMeter := mkMeterWire
  { am_Instance : string; am_Key : string; am_WindowID : string; am_Sequence : Z;
    am_Consumed : Z; am_Observed : Z }.

Record AuthorityRequest := mkRequest
  { rq_Protocol : string; rq_Instance : string; rq_Requests : list AuthorityGrantRequest;
    rq_Reports : list AuthorityReport; rq_Meters : list AuthorityMeter }.

Record AuthorityAck := mkAck { ak_Instance : string; ak_ID : string; ak_Sequence : Z }.
Record AuthorityDenial := mkDenial { ad_RequestID : string; ad_Key : string; ad_Reason : string }.

(** The fields of a response the journal reads. *)
Record AuthorityResponse := mkResponse
  { rs_Protocol : string; rs_ServerTime : Stamp; rs_Budgets : list AuthorityBudget;
    rs_Grants : list AuthorityGrant; rs_ReportAcks : list AuthorityAck;
    rs_MeterAcks : list AuthorityAck; rs_Denied : list AuthorityDenial }.

(** internal/governance/authority.go *)
Record BudgetPermit := mkBudgetPermit { bp_ID : string; bp_Bound : Z; bp_InvalidUsage : bool }.

(** ** The journal (store.go) *)

Record grant := mkGrant
  { g_Wire : AuthorityGrant; g_Instance : string; g_Consumed : Z; g_Observed : Z; g_Reserved : Z;
    g_Pending : Z; g_Closed : bool; g_Overrun : bool; g_Sequence : Z; g_Ack : Z; g_Sent : Z }.

Record grantRequest := mkGR
  { r_Wire : AuthorityGrantRequest; r_Budget : AuthorityBudget; r_Instance : string; r_Sent : bool;
    r_GrantID : string; r_Denied : string; r_Obsolete : bool; r_PendingReply : bool }.

Record permit := mkPermit
  { p_Instance : string; p_Bound : Z; p_Grants : list string; p_Meters : list string;
    p_Done : bool; p_Complete : bool; p_Actual : option Z; p_Retired : bool; p_InvalidUsage : bool }.

Record meter := mkMeter { m_Wire : AuthorityMeter; m_Ack : Z; m_Sent : Z; m_WindowEnd : Stamp }.

Record replayReceipt := mkReceipt { rc_Instance : string; rc_Sequence : Z; rc_GrantHash : string }.

Record journal := mkJournal
  { Version : Z; j_Ready : bool; Poisoned : bool; ServerTime : Stamp;
    Budgets : gmap string AuthorityBudget; Grants : gmap string grant;
    Requests : gmap string grantRequest; Permits : gmap string permit; Meters : gmap string meter;
    RequestCursor : string; ReportCursor : string; MeterCursor : string;
    ObsoleteRequests : list string; Completed : list string;
    Receipts : gmap string replayReceipt; ReceiptOrder : list string }.

Definition emptyJournal : journal :=
  mkJournal 1 false false zeroStamp ∅ ∅ ∅ ∅ ∅ "" "" "" [] [] ∅ [].

(** *** Field updates *)

Definition with_Ready b j := mkJournal (Version j) b (Poisoned j) (ServerTime j) (Budgets j) (Grants j)
  (Requests j) (Permits j) (Meters j) (RequestCursor j) (ReportCursor j) (MeterCursor j)
  (ObsoleteRequests j) (Completed j) (Receipts j) (ReceiptOrder j).
Definition with_Poisoned b j := mkJournal (Version j) (j_Ready j) b (ServerTime j) (Budgets j) (Grants j)
  (Requests j) (Permits j) (Meters j) (RequestCursor j) (ReportCursor j) (MeterCursor j)
  (ObsoleteRequests j) (Completed j) (Receipts j) (ReceiptOrder j).
Definition with_Snapshot t bs j := mkJournal (Version j) (j_Ready j) (Poisoned j) t bs (Grants j)
  (Requests j) (Permits j) (Meters j) (RequestCursor j) (ReportCursor j) (MeterCursor j)
  (ObsoleteRequests j) (Completed j) (Receipts j) (ReceiptOrder j).
Definition with_Grants gs j := mkJournal (Version j) (j_Ready j) (Poisoned j) (ServerTime j) (Budgets j) gs
  (Requests j) (Permits j) (Meters j) (RequestCursor j) (ReportCursor j) (MeterCursor j)
  (ObsoleteRequests j) (Completed j) (Receipts j) (ReceiptOrder j).
Definition with_Requests rs j := mkJournal (Version j) (j_Ready j) (Poisoned j) (ServerTime j) (Budgets j) (Grants j)
  rs (Permits j) (Meters j) (RequestCursor j) (ReportCursor j) (MeterCursor j)
  (ObsoleteRequests j) (Completed j) (Receipts j) (ReceiptOrder j).
Definition with_Permits ps j := mkJournal (Version j) (j_Ready j) (Poisoned j) (ServerTime j) (Budgets j) (Grants j)
  (Requests j) ps (Meters j) (RequestCursor j) (ReportCursor j) (MeterCursor j)
  (ObsoleteRequests j) (Completed j) (Receipts j) (ReceiptOrder j).
Definition with_Meters ms j := mkJournal (Version j) (j_Ready j) (Poisoned j) (ServerTime j) (Budgets j) (Grants j)
  (Requests j) (Permits j) ms (RequestCursor j) (ReportCursor j) (MeterCursor j)
  (ObsoleteRequests j) (Completed j) (Receipts j) (ReceiptOrder j).
Definition with_Cursors a b c j := mkJournal (Version j) (j_Ready j) (Poisoned j) (ServerTime j) (Budgets j) (Grants j)
  (Requests j) (Permits j) (Meters j) a b c
  (ObsoleteRequests j) (Completed j) (Receipts j) (ReceiptOrder j).
Definition with_ObsoleteRequests l j := mkJournal (Version j) (j_Ready j) (Poisoned j) (ServerTime j) (Budgets j)
  (Grants j) (Requests j) (Permits j) (Meters j) (RequestCursor j) (ReportCursor j) (MeterCursor j)
  l (Completed j) (Receipts j) (ReceiptOrder j).
Definition with_Completed l j := mkJournal (Version j) (j_Ready j) (Poisoned j) (ServerTime j) (Budgets j) (Grants j)
  (Requests j) (Permits j) (Meters j) (RequestCursor j) (ReportCursor j) (MeterCursor j)
  (ObsoleteRequests j) l (Receipts j) (ReceiptOrder j).
Definition with_Receipts rs o j := mkJournal (Version j) (j_Ready j) (Poisoned j) (ServerTime j) (Budgets j) (Grants j)
  (Requests j) (Permits j) (Meters j) (RequestCursor j) (ReportCursor j) (MeterCursor j)
  (ObsoleteRequests j) (Completed j) rs o.

(** *** Arithmetic and comparisons *)

(** Every refusal of the journal is [ErrAuthorityInvalid]; its text is not kept. *)
Definition invalid : AdmissionError := ErrAuthorityInvalid.

Definition add (a b : Z) : result AdmissionError Z :=
  if ((a <? 0) || (b <? 0) || (wrap64 (MaxInt64 - b) <? a))%bool then Err invalid else Ok (wrap64 (a + b)).

Definition bump (sequence : Z) : result AdmissionError Z := add sequence 1.

Definition sameDefinition (a b : AuthorityBudget) : bool :=
  (bool_decide (b_Key a = b_Key b) && bool_decide (b_Revision a = b_Revision b)
   && bool_decide (b_WindowID a = b_WindowID b))%bool.

(** [decode]'s checks of the stored journal. *)
Definition valid_grant (id : string) (g : grant) : bool :=
  (bool_decide (ag_ID (g_Wire g) = id) && (0 <? ag_Amount (g_Wire g)) && (0 <=? g_Consumed g)
   && (0 <=? g_Observed g) && (0 <=? g_Reserved g) && (0 <=? g_Pending g) && (0 <? g_Sequence g)
   && (0 <=? g_Ack g) && (g_Ack g <=? g_Sent g) && (g_Sent g <=? g_Sequence g))%bool.

Definition valid_meter (m : meter) : bool :=
  ((0 <=? am_Consumed (m_Wire m)) && (0 <=? am_Observed (m_Wire m)) && (0 <? am_Sequence (m_Wire m))
   && (0 <=? m_Ack m) && (m_Ack m <=? m_Sent m) && (m_Sent m <=? am_Sequence (m_Wire m)))%bool.

Definition valid_permit (j : journal) (p : permit) : bool :=
  ((0 <=? p_Bound p) && forallb (λ id, is_Some_b (Grants j !! id)) (p_Grants p)
   && forallb (λ id, is_Some_b (Meters j !! id)) (p_Meters p))%bool.

Definition decodes (j : journal) : bool :=
  ((Version j =? 1)
   && forallb (λ kv, valid_grant kv.1 kv.2) (map_to_list (Grants j))
   && forallb (λ kv, valid_meter kv.2) (map_to_list (Meters j))
   && forallb (λ kv, valid_permit j kv.2) (map_to_list (Permits j)))%bool.

Definition utcTime (t : Stamp) : bool := (negb (IsZero (instant t)) && (offset t =? 0))%bool.

Fixpoint no_controls (s : string) : bool :=
  match s with
  | EmptyString => true
  | String a s =>
      (negb (bool_decide (Ascii.nat_of_ascii a ∈ [0; 13; 10]%nat)) && no_controls s)%bool
  end.

Definition validString (s : string) : bool :=
  (negb (bool_decide (s = "")) && (Z.of_nat (String.length s) <=? 4096) && no_controls s)%bool.

Definition optionalString (s : string) : bool := (bool_decide (s = "") || validString s)%bool.

Definition matches (b : AuthorityBudget) (subject : Subject) : bool :=
  ((bool_decide (b_Team b = "") || bool_decide (b_Team b = s_Team subject))
   && (bool_decide (b_User b = "") || bool_decide (b_User b = s_User subject)))%bool.

Definition earlier (a b : Time) : Time := if (IsZero a || Before b a)%bool then b else a.

(** [budgetDenial]: the evidence that names the budget. *)
Definition budgetDenial (b : AuthorityBudget) : GovernanceRef :=
  {| gr_Scope := if bool_decide (b_User b = "") then GovScopeTeam else GovScopeUser;
     gr_Limit := if Sub (instant (b_WindowEnd b)) (instant (b_WindowStart b)) =? 24 * Hour
                 then GovLimitBudgetDay else GovLimitBudgetMonth;
     gr_Source := GovSourcePolicy;
     gr_Policy := Some {| rr_Name := b_Policy b; rr_Generation := 0; rr_Rule := b_Rule b |} |}.

(** ** Collection (gc.go) *)

Definition completedReceiptLimit : nat := 256.
Definition replayReceiptLimit : nat := 1024.
Definition obsoleteRequestLimit : nat := 1024.

Definition reportReceiptID (id : string) : string := "grant:" +:+ id.

(** Drop the oldest of a list beyond its limit: what goes, and what stays. *)
Definition over (limit : nat) (l : list string) : list string * list string :=
  let excess := (length l - limit)%nat in (take excess l, drop excess l).

Definition remember (id : string) (r : replayReceipt) (j : journal) : journal :=
  let order := if is_Some_b (Receipts j !! id) then ReceiptOrder j else ReceiptOrder j ++ [id] in
  let '(gone, order) := over replayReceiptLimit order in
  with_Receipts (foldl (λ m k, delete k m) (<[id := r]> (Receipts j)) gone) order j.

(** The completed permits in the order they were first collected. *)
Definition completed_order (j : journal) : list string :=
  foldl (λ order id,
    match Permits j !! id with
    | Some p => if (p_Done p && negb (bool_decide (id ∈ order)))%bool then order ++ [id] else order
    | None => order
    end) [] (Completed j).

Definition drop_refs (p : permit) : permit :=
  if p_Done p
  then mkPermit (p_Instance p) (p_Bound p) [] [] (p_Done p) (p_Complete p) (p_Actual p) (p_Retired p) (p_InvalidUsage p)
  else p.

(** The grants, or the meters, that permits still pending refer to. *)
Definition pending_refs (f : permit → list string) (j : journal) : list string :=
  sortedKeys (Permits j) ≫= λ id,
    match Permits j !! id with Some p => if p_Done p then [] else f p | None => [] end.

Definition collect_permits (j : journal) : journal :=
  let seen := completed_order j in
  let order := seen ++ filter (λ id, (match Permits j !! id with Some p => p_Done p | None => false end) = true ∧ id ∉ seen)
                         (sortedKeys (Permits j)) in
  let '(gone, order) := over completedReceiptLimit order in
  with_Completed order (with_Permits (foldl (λ m k, delete k m) (drop_refs <$> Permits j) gone) j).

(** A closed, settled and acknowledged grant no pending permit refers to. *)
Definition finalized (pending : list string) (id : string) (g : grant) : bool :=
  (g_Closed g && (g_Pending g =? 0) && (g_Reserved g =? 0) && (g_Ack g =? g_Sequence g)
   && negb (bool_decide (id ∈ pending)))%bool.

Section Journal.
(** The SHA-256 of a grant's JSON; the JSON of a list of strings. *)
Context (sums : AuthorityGrant → string) (enc : list string → string).

Definition meterReceiptID (instance window : string) : string := "meter:" +:+ enc [instance; window].
Definition meterID (instance key window : string) : string := enc [instance; key; window].

Definition collect_grant (pending : list string) (j : journal) (id : string) : journal :=
  match Grants j !! id with
  | Some g =>
      if finalized pending id g then
        let j := remember (reportReceiptID id) (mkReceipt (g_Instance g) (g_Sequence g) (sums (g_Wire g))) j in
        with_Grants (delete id (Grants j)) (with_Requests (delete (ag_RequestID (g_Wire g)) (Requests j)) j)
      else j
  | None => j
  end.

Definition old_meter (instance : string) (now : Stamp) (m : meter) : bool :=
  (negb (bool_decide (am_Instance (m_Wire m) = instance))
   || (negb (IsZero (instant (m_WindowEnd m))) && negb (IsZero (instant now))
       && negb (Before (instant now) (instant (m_WindowEnd m)))))%bool.

Definition collect_meter (instance : string) (pending : list string) (j : journal) (id : string) : journal :=
  match Meters j !! id with
  | Some m =>
      if (old_meter instance (ServerTime j) m && negb (bool_decide (id ∈ pending))
          && (m_Ack m =? am_Sequence (m_Wire m)))%bool
      then
        let j := remember (meterReceiptID (am_Instance (m_Wire m)) (am_WindowID (m_Wire m)))
                   (mkReceipt (am_Instance (m_Wire m)) (am_Sequence (m_Wire m)) "") j in
        with_Meters (delete id (Meters j)) j
      else j
  | None => j
  end.

(** An obsolete unanswered request that may still be answered late. *)
Definition awaits (now : Stamp) (r : grantRequest) : bool :=
  let expired := (negb (IsZero (instant now)) && negb (IsZero (instant (b_WindowEnd (r_Budget r))))
                  && negb (Before (instant now) (instant (b_WindowEnd (r_Budget r)))))%bool in
  negb (negb (r_Sent r) || (negb (bool_decide (r_Denied r = "")) && negb (r_PendingReply r)) || expired)%bool.

Definition obsolete_open (r : grantRequest) : bool := (r_Obsolete r && bool_decide (r_GrantID r = ""))%bool.

Definition collectObsoleteRequests (j : journal) : journal :=
  let kept := filter (λ kv, obsolete_open kv.2 = false ∨ awaits (ServerTime j) kv.2 = true) (Requests j) in
  let remaining := filter (λ kv, obsolete_open kv.2 = true) kept in
  let known := foldl (λ order id,
                 if (is_Some_b (remaining !! id) && negb (bool_decide (id ∈ order)))%bool
                 then order ++ [id] else order) [] (ObsoleteRequests j) in
  let order := known ++ filter (λ id, id ∉ known) (sortedKeys remaining) in
  let '(gone, order) := over obsoleteRequestLimit order in
  with_ObsoleteRequests order (with_Requests (foldl (λ m k, delete k m) kept gone) j).

Definition collect (instance : string) (j : journal) : journal :=
  let pendingGrants := pending_refs p_Grants j in
  let pendingMeters := pending_refs p_Meters j in
  let j := collect_permits j in
  let j := foldl (collect_grant pendingGrants) j (sortedKeys (Grants j)) in
  let j := foldl (collect_meter instance pendingMeters) j (sortedKeys (Meters j)) in
  collectObsoleteRequests j.

(** ** Transactions (store.go) *)

(** What SQLite answers: the row cannot be read; it cannot be written or the
    commit reports an error, which may nevertheless have [landed]; [cancel]
    says the error is the context's. *)
Inductive TxResult := TxOK | TxReadFails (cancel : bool) | TxWriteFails (cancel landed : bool).

Record Store := mkStore
  { instance : string; wake : bool; closed : bool; broken : option AdmissionError;
    deadlines : gmap string Time; windows : gmap string Time; nonces_read : nat }.

(** The row of the file, and one handle on it. *)
Record World := mkWorld { row : option (string * journal); store : Store }.

(** What the body of a transaction changes. *)
Record TX := mkTX { tx_j : journal; tx_nonces : nat; tx_wake : bool }.

Definition set_broken (e : AdmissionError) (s : Store) : Store :=
  mkStore (instance s) (wake s) (closed s) (Some e) (deadlines s) (windows s) (nonces_read s).
Definition set_deadlines (d : gmap string Time) (s : Store) : Store :=
  mkStore (instance s) (wake s) (closed s) (broken s) d (windows s) (nonces_read s).
Definition set_windows (d : gmap string Time) (s : Store) : Store :=
  mkStore (instance s) (wake s) (closed s) (broken s) (deadlines s) d (nonces_read s).
Definition signal (s : Store) : Store :=
  mkStore (instance s) true (closed s) (broken s) (deadlines s) (windows s) (nonces_read s).
Definition after_tx (tx : TX) (s : Store) : Store :=
  mkStore (instance s) (wake s || tx_wake tx) (closed s) (broken s) (deadlines s) (windows s) (tx_nonces tx).

Definition live_grant (j : journal) (id : string) : bool :=
  match Grants j !! id with Some g => negb (g_Closed g) | None => false end.

Definition pruneDeadlines (d : gmap string Time) (j : journal) : gmap string Time :=
  filter (λ kv, live_grant j kv.1 = true) d.

(** A storage error that is not the caller's cancellation breaks the handle. *)
Definition storageError (cancel : bool) (s : Store) : AdmissionError * Store :=
  (invalid, if cancel then s else set_broken invalid s).

Definition transaction {A} (o : TxResult) (fn : STE TX AdmissionError A) (w : World)
    : result AdmissionError (A * journal) * World :=
  let s := store w in
  if closed s then (Err ErrAuthorityUnavailable, w)
  else match broken s with
  | Some e => (Err e, w)
  | None =>
      match o, row w with
      | TxReadFails cancel, _ =>
          let '(e, s) := storageError cancel s in (Err e, mkWorld (row w) s)
      | _, None => let '(e, s) := storageError false s in (Err e, mkWorld (row w) s)
      | _, Some (owner, j) =>
          if negb (bool_decide (owner = instance s)) then (Err ErrAuthorityUnavailable, w)
          else if negb (decodes j) then (Err invalid, mkWorld (row w) (set_broken invalid s))
          else
            match fn (mkTX j (nonces_read s) false) with
            | (Err e, tx) => (Err e, mkWorld (row w) (after_tx tx s))
            | (Ok a, tx) =>
                let j := collect (instance s) (tx_j tx) in
                let s := after_tx tx s in
                match o with
                | TxWriteFails cancel landed =>
                    let '(e, s) := storageError cancel s in
                    (Err e, mkWorld (if landed then Some (owner, j) else row w) s)
                | _ => (Ok (a, j), mkWorld (Some (owner, j)) (set_deadlines (pruneDeadlines (deadlines s) j) s))
                end
            end
      end
  end.

Definition tx_get {E} : STE TX E journal := λ tx, (Ok (tx_j tx), tx).
Definition tx_modify {E} (f : journal → journal) : STE TX E unit :=
  λ tx, (Ok tt, mkTX (f (tx_j tx)) (tx_nonces tx) (tx_wake tx)).
Definition tx_signal {E} : STE TX E unit := λ tx, (Ok tt, mkTX (tx_j tx) (tx_nonces tx) true).
Definition tx_lift {E A} (r : result E A) : STE TX E A := λ tx, (r, tx).

(** The random identifiers; reading them may fail. *)
Context (nonces : nat → option string).

Definition nonce : STE TX AdmissionError string :=
  λ tx, (from_option Ok (Err (ErrOther "nonce")) (nonces (tx_nonces tx)),
         mkTX (tx_j tx) (S (tx_nonces tx)) (tx_wake tx)).

(** A pointer the journal holds; the decoder refuses journals that lack it. *)
Definition tx_grant (id : string) : STE TX AdmissionError grant :=
  j ← tx_get; tx_lift (from_option Ok (Err (ErrOther "nil grant")) (Grants j !! id)).
Definition tx_meter (id : string) : STE TX AdmissionError meter :=
  j ← tx_get; tx_lift (from_option Ok (Err (ErrOther "nil meter")) (Meters j !! id)).
Definition put_grant {E} (id : string) (g : grant) : STE TX E unit :=
  tx_modify (λ j, with_Grants (<[id := g]> (Grants j)) j).
Definition put_meter {E} (id : string) (m : meter) : STE TX E unit :=
  tx_modify (λ j, with_Meters (<[id := m]> (Meters j)) j).
Definition put_permit {E} (id : string) (p : permit) : STE TX E unit :=
  tx_modify (λ j, with_Permits (<[id := p]> (Permits j)) j).
Definition put_request {E} (id : string) (r : grantRequest) : STE TX E unit :=
  tx_modify (λ j, with_Requests (<[id := r]> (Requests j)) j).

Fixpoint each {A} (l : list A) (f : A → STE TX AdmissionError unit) : STE TX AdmissionError unit :=
  match l with [] => mret tt | x :: l => _ ← f x; each l f end.

(** ** Boot: [initialize] and [retire] *)

(** The order in which Go visits a map. *)
Context (range : ∀ A, gmap string A → list (string * A)).

Definition retire_meter (bound : Z) (id : string) : STE TX AdmissionError unit :=
  m ← tx_meter id;
  consumed ← tx_lift (add (am_Consumed (m_Wire m)) bound);
  sequence ← tx_lift (bump (am_Sequence (m_Wire m)));
  put_meter id (mkMeter (mkMeterWire (am_Instance (m_Wire m)) (am_Key (m_Wire m)) (am_WindowID (m_Wire m))
    sequence consumed (am_Observed (m_Wire m))) (m_Ack m) (m_Sent m) (m_WindowEnd m)).

Definition retire_permit (kv : string * permit) : STE TX AdmissionError unit :=
  let '(id, p) := kv in
  if p_Done p then mret tt
  else
    _ ← each (p_Meters p) (retire_meter (p_Bound p));
    put_permit id (mkPermit (p_Instance p) (p_Bound p) (p_Grants p) (p_Meters p) true (p_Complete p)
      (p_Actual p) true (p_InvalidUsage p)).

(** Every old grant is burned in full. *)
Definition retire_grant (kv : string * grant) : STE TX AdmissionError unit :=
  let '(id, g) := kv in
  sequence ← tx_lift (bump (g_Sequence g));
  put_grant id (mkGrant (g_Wire g) (g_Instance g) (Z.max (g_Consumed g) (ag_Amount (g_Wire g)))
    (g_Observed g) 0 0 true (g_Overrun g) sequence (g_Ack g) (g_Sent g)).

Definition make_obsolete (r : grantRequest) : grantRequest :=
  mkGR (r_Wire r) (r_Budget r) (r_Instance r) (r_Sent r) (r_GrantID r) (r_Denied r) true (r_PendingReply r).

Definition retire : STE TX AdmissionError unit :=
  j ← tx_get;
  _ ← each (range _ (Permits j)) retire_permit;
  _ ← each (range _ (Grants j)) retire_grant;
  tx_modify (λ j, with_Requests (make_obsolete <$> Requests j) j).

(** [initialize] on the row, for the new owner. *)
Definition initialize (inst : string) (o : TxResult) (r : option (string * journal))
    : result AdmissionError unit * option (string * journal) :=
  let reset j := with_Snapshot zeroStamp ∅ (with_Ready false j) in
  match o with
  | TxReadFails _ => (Err (ErrOther "storage"), r)
  | _ =>
      match (match r with
             | None => Ok emptyJournal
             | Some (_, j) =>
                 if decodes j
                 then match retire (mkTX j 0 false) with (Ok _, tx) => Ok (tx_j tx) | (Err e, _) => Err e end
                 else Err invalid
             end) with
      | Err e => (Err e, r)
      | Ok j =>
          let r' := Some (inst, collect inst (reset j)) in
          match o with
          | TxWriteFails _ landed => (Err (ErrOther "storage"), if landed then r' else r)
          | _ => (Ok tt, r')
          end
      end
  end.

(** [Open] once the file is private; [inst] is its fresh identity. *)
Definition Open (inst : string) (o : TxResult) (r : option (string * journal))
    : result AdmissionError Store * option (string * journal) :=
  match initialize inst o r with
  | (Ok _, r) => (Ok (mkStore inst true false None ∅ ∅ 0), r)
  | (Err e, r) => (Err e, r)
  end.

Definition Close_store (s : Store) : Store :=
  mkStore (instance s) (wake s) true (broken s) (deadlines s) (windows s) (nonces_read s).

(** ** Admission (admission.go) *)

Definition usable (s : Store) (g : grant) (b : AuthorityBudget) (now : Time) : bool :=
  (bool_decide (g_Instance g = instance s) && negb (g_Closed g) && negb (g_Overrun g)
   && bool_decide (ag_Key (g_Wire g) = b_Key b) && bool_decide (ag_Revision (g_Wire g) = b_Revision b)
   && bool_decide (ag_WindowID (g_Wire g) = b_WindowID b)
   && (g_Consumed g <=? ag_Amount (g_Wire g))
   && (g_Reserved g <=? wrap64 (ag_Amount (g_Wire g) - g_Consumed g))
   && Before now (default zeroTime (deadlines s !! ag_ID (g_Wire g))))%bool.

Definition close_with (sequence : Z) (g : grant) : grant :=
  mkGrant (g_Wire g) (g_Instance g) (g_Consumed g) (g_Observed g) (g_Reserved g) (g_Pending g) true
    (g_Overrun g) sequence (g_Ack g) (g_Sent g).

(** [closeGrant]; on an overflow the flag is set, but the error discards it. *)
Definition closeGrant (id : string) : STE TX AdmissionError unit :=
  g ← tx_grant id;
  if g_Closed g then mret tt
  else if (negb (g_Pending g =? 0) || negb (g_Reserved g =? 0))%bool then early invalid
  else sequence ← tx_lift (bump (g_Sequence g)); put_grant id (close_with sequence g).

Definition inactive (s : Store) (now : Time) (j : journal) (g : grant) : bool :=
  match Budgets j !! ag_Key (g_Wire g) with
  | Some b => (negb (b_HardCap b) || negb (usable s g b now))%bool
  | None => true
  end.

Definition closeInactive (s : Store) (now : Time) : STE TX AdmissionError unit :=
  j ← tx_get;
  each (range _ (Grants j)) (λ kv,
    let '(id, g) := kv in
    if (g_Closed g || negb (g_Pending g =? 0))%bool then mret tt
    else j ← tx_get; if inactive s now j g then closeGrant id else mret tt).

(** [queue]: reuse a live request of the definition, enlarge an unsent one, or
    make a new one; whether the authority has said the budget is exhausted. *)
Fixpoint queue_loop (s : Store) (b : AuthorityBudget) (want : Z) (keys : list string)
    : STE TX AdmissionError (option bool) :=
  match keys with
  | [] => mret None
  | id :: keys =>
      j ← tx_get;
      match Requests j !! id with
      | Some r =>
          if (negb (bool_decide (r_Instance r = instance s)) || r_Obsolete r
              || negb (bool_decide (r_GrantID r = "")) || negb (sameDefinition (r_Budget r) b))%bool
          then queue_loop s b want keys
          else if q_Want (r_Wire r) >=? want
          then mret (Some (bool_decide (r_Denied r = "exhausted") || bool_decide (r_Denied r = "frozen_window"))%bool)
          else if negb (r_Sent r) then
            _ ← put_request id (mkGR (mkGrantRequest (q_RequestID (r_Wire r)) (q_Key (r_Wire r))
                   (q_Revision (r_Wire r)) (q_WindowID (r_Wire r)) want)
                   (r_Budget r) (r_Instance r) (r_Sent r) (r_GrantID r) (r_Denied r) (r_Obsolete r) (r_PendingReply r));
            mret (Some false)
          else queue_loop s b want keys
      | None => queue_loop s b want keys
      end
  end.

Definition queue (s : Store) (b : AuthorityBudget) (bound : Z) : STE TX AdmissionError bool :=
  let want := Z.max bound 1 in
  j ← tx_get;
  found ← queue_loop s b want (sortedKeys (Requests j));
  match found with
  | Some exhausted => mret exhausted
  | None =>
      id ← nonce;
      _ ← put_request id (mkGR (mkGrantRequest id (b_Key b) (b_Revision b) (b_WindowID b) want)
                            b (instance s) false "" "" false false);
      mret false
  end.

(** The first usable grant with room for the bound; settled grants without
    room are closed on the way. *)
Fixpoint pick_grant (s : Store) (b : AuthorityBudget) (bound : Z) (now : Time) (keys : list string)
    : STE TX AdmissionError (option string) :=
  match keys with
  | [] => mret None
  | id :: keys =>
      g ← tx_grant id;
      if negb (usable s g b now) then pick_grant s b bound now keys
      else
        let available := wrap64 (wrap64 (ag_Amount (g_Wire g) - g_Consumed g) - g_Reserved g) in
        if ((0 <? available) && (bound <=? available))%bool then mret (Some id)
        else
          _ ← (if g_Pending g =? 0 then closeGrant id else mret tt);
          pick_grant s b bound now keys
  end.

(** What the budgets decide: the grants chosen, the soft budgets, the refusal
    and the earliest expiry. *)
Record choice := mkChoice
  { c_chosen : list string; c_soft : list AuthorityBudget; c_denied : option AdmissionError; c_expires : Time }.

Definition exhausted_already (d : option AdmissionError) : bool :=
  match d with
  | Some (ErrBudgetDenial ErrAuthorityExhausted _) | Some ErrAuthorityExhausted => true
  | _ => false
  end.

(** The first exhausted hard budget names the refusal. *)
Definition refuse_budget (b : AuthorityBudget) (c : choice) (exhausted : bool) : choice :=
  mkChoice (c_chosen c) (c_soft c)
    (if exhausted then
       if exhausted_already (c_denied c) then c_denied c
       else Some (ErrBudgetDenial ErrAuthorityExhausted (Some (budgetDenial b)))
     else match c_denied c with None => Some ErrAuthorityUnavailable | d => d end)
    (c_expires c).

Definition choose_budget (s : Store) (subject : Subject) (bound : Z) (now : Time) (key : string) (c : choice)
    : STE TX AdmissionError choice :=
  j ← tx_get;
  match Budgets j !! key with
  | None => mret c
  | Some b =>
      if negb (matches b subject) then mret c
      else
        let window := default zeroTime (windows s !! key) in
        let c := mkChoice (c_chosen c) (c_soft c) (c_denied c) (earlier (c_expires c) window) in
        if negb (Before now window) then
          _ ← tx_signal;
          mret (mkChoice (c_chosen c) (c_soft c) (Some ErrAuthorityUnavailable) (c_expires c))
        else if negb (b_HardCap b) then
          mret (mkChoice (c_chosen c) (c_soft c ++ [b]) (c_denied c) (c_expires c))
        else
          picked ← pick_grant s b bound now (sortedKeys (Grants j));
          match picked with
          | Some id =>
              mret (mkChoice (c_chosen c ++ [id]) (c_soft c) (c_denied c)
                      (earlier (c_expires c) (default zeroTime (deadlines s !! id))))
          | None =>
              exhausted ← queue s b bound;
              _ ← tx_signal;
              mret (refuse_budget b c exhausted)
          end
  end.

Fixpoint choose (s : Store) (subject : Subject) (bound : Z) (now : Time) (keys : list string) (c : choice)
    : STE TX AdmissionError choice :=
  match keys with
  | [] => mret c
  | key :: keys => c ← choose_budget s subject bound now key c; choose s subject bound now keys c
  end.

(** Hold the bound in a chosen grant. *)
Definition hold (bound : Z) (id : string) : STE TX AdmissionError unit :=
  g ← tx_grant id;
  reserved ← tx_lift (add (g_Reserved g) bound);
  pending ← tx_lift (bump (g_Pending g));
  put_grant id (mkGrant (g_Wire g) (g_Instance g) (g_Consumed g) (g_Observed g) reserved pending (g_Closed g)
    (g_Overrun g) (g_Sequence g) (g_Ack g) (g_Sent g)).

(** The meter of a soft budget, made on first use. *)
Definition meter_of (s : Store) (b : AuthorityBudget) : STE TX AdmissionError string :=
  let id := meterID (instance s) (b_Key b) (b_WindowID b) in
  j ← tx_get;
  _ ← (if is_Some_b (Meters j !! id) then mret tt
       else put_meter id (mkMeter (mkMeterWire (instance s) (b_Key b) (b_WindowID b) 1 0 0) 0 0 (b_WindowEnd b)));
  mret id.

Fixpoint meters_of (s : Store) (bs : list AuthorityBudget) : STE TX AdmissionError (list string) :=
  match bs with
  | [] => mret []
  | b :: bs => id ← meter_of s b; ids ← meters_of s bs; mret (id :: ids)
  end.

(** Hold the chosen grants and record the permit. *)
Definition issue (s : Store) (bound : Z) (c : choice)
    : STE TX AdmissionError (option AdmissionError * option BudgetPermit * Time) :=
  id ← nonce;
  _ ← each (c_chosen c) (hold bound);
  ids ← meters_of s (c_soft c);
  _ ← put_permit id (mkPermit (instance s) bound (c_chosen c) ids false false None false false);
  mret (None, Some (mkBudgetPermit id bound false), c_expires c).

(** The body of [Reserve]'s transaction: the refusal, or the permit, and when
    what it rests on expires. *)
Definition reserve_body (s : Store) (subject : Subject) (bound : Z) (now : Time)
    : STE TX AdmissionError (option AdmissionError * option BudgetPermit * Time) :=
  j ← tx_get;
  if Poisoned j then early invalid
  else if negb (j_Ready j) then early ErrAuthorityUnavailable
  else
    _ ← closeInactive s now;
    j ← tx_get;
    c ← choose s subject bound now (sortedKeys (Budgets j)) (mkChoice [] [] None zeroTime);
    match c_denied c with
    | Some e => mret (Some e, None, c_expires c)
    | None => issue s bound c
    end.

(** Release one grant of a permit that was never dispatched. *)
Definition release (bound : Z) (id : string) : STE TX AdmissionError unit :=
  g ← tx_grant id;
  if ((g_Pending g <=? 0) || (g_Reserved g <? bound) || g_Closed g)%bool then early invalid
  else put_grant id (mkGrant (g_Wire g) (g_Instance g) (g_Consumed g) (g_Observed g) (g_Reserved g - bound)
         (g_Pending g - 1) (g_Closed g) (g_Overrun g) (g_Sequence g) (g_Ack g) (g_Sent g)).

Definition undispatched_body (s : Store) (id : string) (now : Time) : STE TX AdmissionError unit :=
  j ← tx_get;
  match Permits j !! id with
  | None => early invalid
  | Some p =>
      if p_Done p then early invalid
      else
        _ ← each (p_Grants p) (release (p_Bound p));
        _ ← put_permit id (mkPermit (p_Instance p) (p_Bound p) (p_Grants p) (p_Meters p) true true (Some 0)
              (p_Retired p) (p_InvalidUsage p));
        closeInactive s now
  end.

(** [Reserve]: the clock is read when the transaction starts, after it, and in
    the cleanup of a permit that expired meanwhile. *)
Definition Reserve (o1 o2 : TxResult) (t1 t2 t3 : Time) (subject : Subject) (bound : Z) (w : World)
    : result AdmissionError BudgetPermit * World :=
  if ((bound <? 0) || bool_decide (s_Team subject = ""))%bool then (Err invalid, w)
  else
    match transaction o1 (reserve_body (store w) subject bound t1) w with
    | (Err e, w) => (Err e, w)
    | (Ok ((Some e, _, _), _), w) => (Err e, w)
    | (Ok ((None, None, _), _), w) => (Err (ErrOther "no permit"), w)
    | (Ok ((None, Some p, expires), _), w) =>
        if (negb (IsZero expires) && negb (Before t2 expires))%bool then
          let '(r, w) := transaction o2 (undispatched_body (store w) (bp_ID p) t3) w in
          let w := mkWorld (row w) (signal (store w)) in
          match r with Err e => (Err e, w) | Ok _ => (Err ErrAuthorityUnavailable, w) end
        else (Ok p, w)
    end.

(** *** Settlement *)

Definition equalActual (a b : option Z) : bool := bool_decide (a = b).

(** The three sums of a settlement fit. *)
Definition fits (consumed observed consumedBefore observedBefore sequence : Z) : bool :=
  (is_ok (add consumedBefore consumed) && is_ok (add observedBefore observed) && is_ok (add sequence 1))%bool.

Definition mark_overrun (id : string) : STE TX AdmissionError unit :=
  g ← tx_grant id;
  put_grant id (mkGrant (g_Wire g) (g_Instance g) (g_Consumed g) (g_Observed g) (g_Reserved g) (g_Pending g)
    (g_Closed g) true (g_Sequence g) (g_Ack g) (g_Sent g)).

(** [poison]: keep the exact observation and refuse admission from now on. *)
Definition poison (id : string) (p : permit) (invalidUsage : bool) (actual : option Z) : STE TX AdmissionError unit :=
  _ ← tx_modify (with_Poisoned true);
  _ ← (if invalidUsage then each (p_Grants p) mark_overrun else mret tt);
  put_permit id (mkPermit (p_Instance p) (p_Bound p) (p_Grants p) (p_Meters p) (p_Done p) (p_Complete p)
    (match actual with Some n => Some n | None => p_Actual p end) true invalidUsage).

(** Whether every grant, then every meter, has room; inconsistency is an error. *)
Fixpoint check_grants (bound consumed observed : Z) (ids : list string) : STE TX AdmissionError bool :=
  match ids with
  | [] => mret true
  | id :: ids =>
      g ← tx_grant id;
      if (g_Closed g || (g_Pending g <=? 0) || (g_Reserved g <? bound))%bool then early invalid
      else if fits consumed observed (g_Consumed g) (g_Observed g) (g_Sequence g)
           then check_grants bound consumed observed ids else mret false
  end.

Fixpoint check_meters (consumed observed : Z) (ids : list string) : STE TX AdmissionError bool :=
  match ids with
  | [] => mret true
  | id :: ids =>
      m ← tx_meter id;
      if fits consumed observed (am_Consumed (m_Wire m)) (am_Observed (m_Wire m)) (am_Sequence (m_Wire m))
      then check_meters consumed observed ids else mret false
  end.

Definition settle_grant (bound consumed observed : Z) (overrun : bool) (id : string) : STE TX AdmissionError unit :=
  g ← tx_grant id;
  let over := (g_Overrun g || overrun)%bool in
  let pending := g_Pending g - 1 in
  put_grant id (mkGrant (g_Wire g) (g_Instance g) (wrap64 (g_Consumed g + consumed)) (wrap64 (g_Observed g + observed))
    (wrap64 (g_Reserved g - bound)) pending (g_Closed g || (over && (pending =? 0))) over
    (wrap64 (g_Sequence g + 1)) (g_Ack g) (g_Sent g)).

Definition settle_meter (consumed observed : Z) (id : string) : STE TX AdmissionError unit :=
  m ← tx_meter id;
  let wire := m_Wire m in
  put_meter id (mkMeter (mkMeterWire (am_Instance wire) (am_Key wire) (am_WindowID wire) (wrap64 (am_Sequence wire + 1))
    (wrap64 (am_Consumed wire + consumed)) (wrap64 (am_Observed wire + observed))) (m_Ack m) (m_Sent m) (m_WindowEnd m)).

(** What is charged: the observed cost of a complete settlement, or of one that
    exceeds the bound; else the whole bound. *)
Definition charge (bound : Z) (actual : option Z) (complete : bool) : Z * Z :=
  match actual with
  | None => (bound, 0)
  | Some n => (if (complete || (bound <? n))%bool then n else bound, n)
  end.

Definition settlement_fits (p : permit) (consumed observed : Z) : STE TX AdmissionError bool :=
  check_grants (p_Bound p) consumed observed (p_Grants p) ≫= λ fit : bool,
  if fit then check_meters consumed observed (p_Meters p) else mret false.

(** The body of [Finish]'s transaction; [Some e] is the error of a poisoned
    settlement that is nevertheless committed. *)
Definition finish_body (s : Store) (a : BudgetPermit) (actual : option Z) (complete : bool) (now : Time)
    : STE TX AdmissionError (option AdmissionError) :=
  j ← tx_get;
  match Permits j !! bp_ID a with
  | None => early invalid
  | Some p =>
      if (negb (p_Bound p =? bp_Bound a) || p_Retired p)%bool then early invalid
      else if p_Done p then
        if (negb (Bool.eqb (p_Complete p) complete) || negb (Bool.eqb (p_InvalidUsage p) (bp_InvalidUsage a))
            || negb (equalActual (p_Actual p) actual))%bool
        then early invalid else mret None
      else if negb (bool_decide (p_Instance p = instance s)) then early invalid
      else
        let '(consumed, observed) := charge (p_Bound p) actual complete in
        let overrun := (bp_InvalidUsage a || (p_Bound p <? observed))%bool in
        fit ← settlement_fits p consumed observed;
        if negb fit then
          _ ← poison (bp_ID a) p (bp_InvalidUsage a) actual; mret (Some invalid)
        else
          _ ← each (p_Grants p) (settle_grant (p_Bound p) consumed observed overrun);
          _ ← each (p_Meters p) (settle_meter consumed observed);
          _ ← put_permit (bp_ID a) (mkPermit (p_Instance p) (p_Bound p) (p_Grants p) (p_Meters p) true complete
                (match actual with Some n => Some n | None => p_Actual p end) (p_Retired p) (bp_InvalidUsage a));
          _ ← tx_modify (λ j, with_Poisoned (Poisoned j || overrun) j);
          _ ← closeInactive s now;
          mret None
  end.

Definition Finish (o : TxResult) (now : Time) (a : BudgetPermit) (actual : option Z) (complete : bool) (w : World)
    : result AdmissionError unit * World :=
  if (bool_decide (bp_ID a = "") || (bp_Bound a <? 0) || (default 0 actual <? 0))%bool then (Err invalid, w)
  else
    let complete := (complete && negb (bp_InvalidUsage a))%bool in
    match transaction o (finish_body (store w) a actual complete now) w with
    | (Err e, w) => (Err e, w)
    | (Ok (settlementErr, _), w) =>
        (from_option Err (Ok tt) settlementErr, mkWorld (row w) (signal (store w)))
    end.

(** ** Synchronization (sync.go) *)

(** The keys after the cursor, then the others. *)
Definition rotatingKeys {A} (values : gmap string A) (cursor : string) : list string :=
  let keys := sortedKeys values in
  filter (λ k, String.ltb cursor k = true) keys ++ filter (λ k, String.ltb cursor k = false) keys.

Definition perStream : nat := 341.

(** One stream of a request: at most [perStream] items, the cursor at the last. *)
Fixpoint stream {A} (keys : list string) (room : nat) (cursor : string)
    (item : string → STE TX AdmissionError (option A)) : STE TX AdmissionError (list A * string) :=
  match keys, room with
  | [], _ | _, O => mret ([], cursor)
  | id :: keys, S room' =>
      item id ≫= λ x : option A,
      match x with
      | None => stream keys room cursor item
      | Some x => rest ← stream keys room' id item; mret (x :: rest.1, rest.2)
      end
  end.

Definition want_item (s : Store) (id : string) : STE TX AdmissionError (option AuthorityGrantRequest) :=
  j ← tx_get;
  match Requests j !! id with
  | None => mret None
  | Some r =>
      let defined := match Budgets j !! q_Key (r_Wire r) with
                     | Some b => sameDefinition (r_Budget r) b | None => false end in
      if (negb (bool_decide (r_Instance r = instance s)) || r_Obsolete r
          || negb (bool_decide (r_GrantID r = "")) || negb defined)%bool
      then mret None
      else
        _ ← put_request id (mkGR (r_Wire r) (r_Budget r) (r_Instance r) true (r_GrantID r) (r_Denied r) (r_Obsolete r) true);
        mret (Some (r_Wire r))
  end.

Definition report_item (id : string) : STE TX AdmissionError (option AuthorityReport) :=
  g ← tx_grant id;
  if ((g_Ack g =? g_Sequence g) || (g_Overrun g && negb (g_Closed g)))%bool then mret None
  else
    _ ← put_grant id (mkGrant (g_Wire g) (g_Instance g) (g_Consumed g) (g_Observed g) (g_Reserved g) (g_Pending g)
          (g_Closed g) (g_Overrun g) (g_Sequence g) (g_Ack g) (g_Sequence g));
    mret (Some (mkReport (g_Instance g) (ag_ID (g_Wire g)) (ag_RequestID (g_Wire g)) (g_Sequence g)
            (g_Consumed g) (g_Observed g) (g_Closed g) (g_Overrun g))).

Definition meter_item (id : string) : STE TX AdmissionError (option AuthorityMeter) :=
  m ← tx_meter id;
  if m_Ack m =? am_Sequence (m_Wire m) then mret None
  else
    _ ← put_meter id (mkMeter (m_Wire m) (m_Ack m) (am_Sequence (m_Wire m)) (m_WindowEnd m));
    mret (Some (m_Wire m)).

Definition request_body (s : Store) (now : Time) : STE TX AdmissionError AuthorityRequest :=
  _ ← closeInactive s now;
  j ← tx_get;
  wants ← stream (rotatingKeys (Requests j) (RequestCursor j)) perStream (RequestCursor j) (want_item s);
  reports ← stream (rotatingKeys (Grants j) (ReportCursor j)) perStream (ReportCursor j) report_item;
  meters ← stream (rotatingKeys (Meters j) (MeterCursor j)) perStream (MeterCursor j) meter_item;
  _ ← tx_modify (with_Cursors wants.2 reports.2 meters.2);
  mret (mkRequest AuthorityProtocol (instance s) wants.1 reports.1 meters.1).

Definition Request (o : TxResult) (now : Time) (w : World) : result AdmissionError AuthorityRequest * World :=
  match transaction o (request_body (store w) now) w with
  | (Err e, w) => (Err e, w)
  | (Ok (out, _), w) => (Ok out, w)
  end.

(** *** Applying a response *)

(** The remaining lifetime on the server's clock less the round trip. *)
Definition deadline (now serverTime expiry : Time) (rtt : Duration) : Time :=
  let remaining := Sub expiry serverTime in
  if ((remaining <=? 0) || (rtt >=? remaining))%bool then now else Add now (wrap64 (remaining - rtt)).

Definition bad_budget (b : AuthorityBudget) (now : Stamp) : bool :=
  (negb (validString (b_Key b)) || negb (validString (b_Policy b))
   || negb (validString (b_Rule b)) || negb (validString (b_Revision b)) || negb (validString (b_WindowID b))
   || (bool_decide (b_Team b = "") && bool_decide (b_User b = ""))
   || negb (optionalString (b_Team b)) || negb (optionalString (b_User b))
   || (b_LimitMicroUSD b <? 0) || (b_GrantMicroUSD b <? 0) || (b_LeaseSeconds b <=? 0)
   || (MaxInt64 / Second <? b_LeaseSeconds b)
   || (b_HardCap b && (b_GrantMicroUSD b =? 0)) || negb (utcTime (b_WindowStart b)) || negb (utcTime (b_WindowEnd b))
   || negb (Before (instant (b_WindowStart b)) (instant (b_WindowEnd b)))
   || Before (instant now) (instant (b_WindowStart b)) || negb (Before (instant now) (instant (b_WindowEnd b))))%bool.

Fixpoint budgets_loop (bs : list AuthorityBudget) (now : Stamp) (out : gmap string AuthorityBudget) (seen : list string)
    : result AdmissionError (gmap string AuthorityBudget) :=
  match bs with
  | [] => Ok out
  | b :: bs =>
      if (is_Some_b (out !! b_Key b) || bool_decide (b_WindowID b ∈ seen) || bad_budget b now)%bool then Err invalid
      else budgets_loop bs now (<[b_Key b := b]> out) (b_WindowID b :: seen)
  end.

Definition validateBudgets (r : AuthorityResponse) : result AdmissionError (gmap string AuthorityBudget) :=
  budgets_loop (rs_Budgets r) (rs_ServerTime r) ∅ [].

Definition bad_grant (g : AuthorityGrant) (r : grantRequest) (serverTime : Stamp) : bool :=
  (negb (r_Sent r) || negb (b_HardCap (r_Budget r)) || negb (validString (ag_ID g))
   || negb (bool_decide (ag_RequestID g = q_RequestID (r_Wire r)))
   || negb (bool_decide (ag_Key g = q_Key (r_Wire r))) || negb (bool_decide (ag_Revision g = q_Revision (r_Wire r)))
   || negb (bool_decide (ag_WindowID g = q_WindowID (r_Wire r)))
   || (ag_Amount g <? q_Want (r_Wire r)) || (ag_Amount g <=? 0)
   || (Z.max (b_GrantMicroUSD (r_Budget r)) (q_Want (r_Wire r)) <? ag_Amount g)
   || (b_LimitMicroUSD (r_Budget r) <? ag_Amount g) || negb (utcTime (ag_ExpiresAt g))
   || negb (Before (instant (b_WindowStart (r_Budget r))) (instant (ag_ExpiresAt g)))
   || Before (Add (instant serverTime) (wrap64 (b_LeaseSeconds (r_Budget r) * Second))) (instant (ag_ExpiresAt g)))%bool.

Definition validateGrant (g : AuthorityGrant) (r : option grantRequest) (serverTime : Stamp) : result AdmissionError grantRequest :=
  match r with
  | None => Err invalid
  | Some r => if bad_grant g r serverTime then Err invalid else Ok r
  end.

Definition equalGrant (a b : AuthorityGrant) : bool :=
  (bool_decide (ag_ID a = ag_ID b) && bool_decide (ag_RequestID a = ag_RequestID b) && bool_decide (ag_Key a = ag_Key b)
   && bool_decide (ag_Revision a = ag_Revision b) && bool_decide (ag_WindowID a = ag_WindowID b)
   && (ag_Amount a =? ag_Amount b) && (instant (ag_ExpiresAt a) =? instant (ag_ExpiresAt b)))%bool.

Definition equalBudget (x y : AuthorityBudget) : bool :=
  (bool_decide (b_Key x = b_Key y) && bool_decide (b_Policy x = b_Policy y) && bool_decide (b_Rule x = b_Rule y)
   && bool_decide (b_Team x = b_Team y) && bool_decide (b_User x = b_User y) && bool_decide (b_Revision x = b_Revision y)
   && bool_decide (b_WindowID x = b_WindowID y) && (instant (b_WindowStart x) =? instant (b_WindowStart y))
   && (instant (b_WindowEnd x) =? instant (b_WindowEnd y)) && (b_LimitMicroUSD x =? b_LimitMicroUSD y)
   && (b_GrantMicroUSD x =? b_GrantMicroUSD y) && (b_LeaseSeconds x =? b_LeaseSeconds y)
   && Bool.eqb (b_HardCap x) (b_HardCap y))%bool.

Definition equalBudgets (a b : gmap string AuthorityBudget) : bool :=
  ((Nat.eqb (size a) (size b))
   && forallb (λ kv, match b !! kv.1 with Some y => equalBudget kv.2 y | None => false end) (map_to_list a))%bool.

(** What a response is applied against: the deadlines and windows being built
    and the ids seen. *)
Record applying := mkApplying { ap_deadlines : gmap string Time; ap_seen : list string; ap_grants : list string }.

(** A grant of the response: a replay of a finalized or known one is checked
    and changes nothing; a new one is usable only by the boot, definition and
    lifetime it was asked for. *)
Definition apply_grant (s : Store) (stale : bool) (received serverTime : Time) (server : Stamp) (rtt : Duration)
    (a : applying) (wire : AuthorityGrant) : STE TX AdmissionError applying :=
  if (bool_decide (ag_RequestID wire ∈ ap_seen a) || bool_decide (ag_ID wire ∈ ap_grants a))%bool then early invalid
  else
    let a := mkApplying (ap_deadlines a) (ag_RequestID wire :: ap_seen a) (ag_ID wire :: ap_grants a) in
    j ← tx_get;
    match Receipts j !! reportReceiptID (ag_ID wire) with
    | Some receipt => if bool_decide (rc_GrantHash receipt = sums wire) then mret a else early invalid
    | None =>
        match validateGrant wire (Requests j !! ag_RequestID wire) server with
        | Err e => early e
        | Ok r =>
            match Grants j !! ag_ID wire with
            | Some old => if equalGrant (g_Wire old) wire then mret a else early invalid
            | None =>
                if negb (bool_decide (r_GrantID r = "")) then early invalid
                else
                  let expiry := if Before (instant (b_WindowEnd (r_Budget r))) (instant (ag_ExpiresAt wire))
                                then instant (b_WindowEnd (r_Budget r)) else instant (ag_ExpiresAt wire) in
                  let until := deadline received serverTime expiry rtt in
                  let dead := (stale || r_Obsolete r
                    || match Budgets j !! ag_Key wire with
                       | Some b => (negb (b_HardCap b) || negb (sameDefinition (r_Budget r) b))%bool
                       | None => true end
                    || negb (Before received until))%bool in
                  let foreign := negb (bool_decide (r_Instance r = instance s)) in
                  _ ← put_grant (ag_ID wire) (mkGrant wire (r_Instance r) (if foreign then ag_Amount wire else 0) 0 0 0
                        (foreign || dead) false 1 0 0);
                  _ ← put_request (ag_RequestID wire) (mkGR (r_Wire r) (r_Budget r) (r_Instance r) (r_Sent r) (ag_ID wire) ""
                        (r_Obsolete r) false);
                  mret (mkApplying (if (foreign || dead)%bool then ap_deadlines a
                                    else <[ag_ID wire := until]> (ap_deadlines a)) (ap_seen a) (ap_grants a))
            end
        end
    end.

Fixpoint apply_grants (s : Store) (stale : bool) (received serverTime : Time) (server : Stamp) (rtt : Duration)
    (a : applying) (ws : list AuthorityGrant) : STE TX AdmissionError applying :=
  match ws with
  | [] => mret a
  | wire :: ws => a ← apply_grant s stale received serverTime server rtt a wire; apply_grants s stale received serverTime server rtt a ws
  end.

Definition apply_denial (stale : bool) (a : applying) (d : AuthorityDenial) : STE TX AdmissionError applying :=
  j ← tx_get;
  match Requests j !! ad_RequestID d with
  | None => early invalid
  | Some r =>
      if (bool_decide (ad_RequestID d ∈ ap_seen a) || negb (r_Sent r)
          || negb (bool_decide (q_Key (r_Wire r) = ad_Key d)) || negb (validString (ad_Reason d)))%bool
      then early invalid
      else
        _ ← (if (bool_decide (r_GrantID r = "") && negb stale)%bool
             then put_request (ad_RequestID d) (mkGR (r_Wire r) (r_Budget r) (r_Instance r) (r_Sent r) (r_GrantID r)
                    (ad_Reason d) (r_Obsolete r) false)
             else mret tt);
        mret (mkApplying (ap_deadlines a) (ad_RequestID d :: ap_seen a) (ap_grants a))
  end.

Fixpoint apply_denials (stale : bool) (a : applying) (ds : list AuthorityDenial) : STE TX AdmissionError applying :=
  match ds with
  | [] => mret a
  | d :: ds => a ← apply_denial stale a d; apply_denials stale a ds
  end.

Fixpoint report_acks (seen : list string) (acks : list AuthorityAck) : STE TX AdmissionError unit :=
  match acks with
  | [] => mret tt
  | ack :: acks =>
      j ← tx_get;
      match Grants j !! ak_ID ack with
      | None =>
          match Receipts j !! reportReceiptID (ak_ID ack) with
          | None => early invalid
          | Some receipt =>
              if (bool_decide (ak_ID ack ∈ seen) || (ak_Sequence ack <=? 0) || (rc_Sequence receipt <? ak_Sequence ack)
                  || (negb (bool_decide (ak_Instance ack = "")) && negb (bool_decide (ak_Instance ack = rc_Instance receipt))))%bool
              then early invalid else report_acks (ak_ID ack :: seen) acks
          end
      | Some g =>
          if (bool_decide (ak_ID ack ∈ seen)
              || (negb (bool_decide (ak_Instance ack = "")) && negb (bool_decide (ak_Instance ack = g_Instance g)))
              || (ak_Sequence ack <=? 0) || (g_Sent g <? ak_Sequence ack))%bool
          then early invalid
          else
            _ ← put_grant (ak_ID ack) (mkGrant (g_Wire g) (g_Instance g) (g_Consumed g) (g_Observed g) (g_Reserved g)
                  (g_Pending g) (g_Closed g) (g_Overrun g) (g_Sequence g) (Z.max (g_Ack g) (ak_Sequence ack)) (g_Sent g));
            report_acks (ak_ID ack :: seen) acks
      end
  end.

(** The meters an acknowledgement names, in the order of the map. *)
Definition meters_named (ack : AuthorityAck) (j : journal) : list (string * meter) :=
  filter (λ kv, am_Instance (m_Wire kv.2) = ak_Instance ack ∧ am_WindowID (m_Wire kv.2) = ak_ID ack) (range _ (Meters j)).

Fixpoint meter_acks (seen : list string) (acks : list AuthorityAck) : STE TX AdmissionError unit :=
  match acks with
  | [] => mret tt
  | ack :: acks =>
      if (bool_decide (ak_Instance ack = "") || bool_decide (ak_ID ack = "") || (ak_Sequence ack <=? 0))%bool
      then early invalid
      else
        let receiptID := meterReceiptID (ak_Instance ack) (ak_ID ack) in
        j ← tx_get;
        match Receipts j !! receiptID with
        | Some receipt =>
            if (bool_decide (receiptID ∈ seen) || (rc_Sequence receipt <? ak_Sequence ack))%bool then early invalid
            else meter_acks (receiptID :: seen) acks
        | None =>
            match meters_named ack j with
            | [(id, m)] =>
                if (bool_decide (id ∈ seen) || (m_Sent m <? ak_Sequence ack))%bool then early invalid
                else
                  _ ← put_meter id (mkMeter (m_Wire m) (Z.max (m_Ack m) (ak_Sequence ack)) (m_Sent m) (m_WindowEnd m));
                  meter_acks (id :: seen) acks
            | _ => early invalid
            end
        end
  end.

(** Requests whose definition is gone become obsolete. *)
Definition undefined (j : journal) (r : grantRequest) : bool :=
  match Budgets j !! q_Key (r_Wire r) with
  | Some b => negb (sameDefinition (r_Budget r) b) | None => true end.

Definition obsolete_requests (j : journal) : journal :=
  with_Requests ((λ r, if undefined j r then make_obsolete r else r) <$> Requests j) j.

(** Settled grants the snapshot or the clock has overtaken are closed. *)
Definition overtaken (j : journal) (received : Time) (ds : gmap string Time) (id : string) (g : grant) : bool :=
  match Budgets j !! ag_Key (g_Wire g) with
  | Some b => (negb (b_HardCap b) || negb (bool_decide (ag_Revision (g_Wire g) = b_Revision b))
               || negb (bool_decide (ag_WindowID (g_Wire g) = b_WindowID b))
               || negb (Before received (default zeroTime (ds !! id))))%bool
  | None => true
  end.

Definition close_overtaken (received : Time) (ds : gmap string Time) : STE TX AdmissionError unit :=
  j ← tx_get;
  each (range _ (Grants j)) (λ kv,
    let '(id, g) := kv in
    if (negb (g_Closed g) && (g_Pending g =? 0) && overtaken j received ds id g)%bool then closeGrant id else mret tt).

(** Install the snapshot unless it is older, or the same one again. *)
Definition install (server : Stamp) (budgets : gmap string AuthorityBudget) : STE TX AdmissionError (bool * bool) :=
  j ← tx_get;
  let stale := (negb (IsZero (instant (ServerTime j))) && Before (instant server) (instant (ServerTime j)))%bool in
  let advance := (negb (j_Ready j) || Before (instant (ServerTime j)) (instant server))%bool in
  if stale then mret (true, false)
  else if (negb advance && negb (equalBudgets (Budgets j) budgets))%bool then early invalid
  else
    _ ← (if advance then tx_modify (λ j, with_Ready true (with_Snapshot server budgets j)) else mret tt);
    mret (false, advance).

Definition window_deadlines (received serverTime : Time) (rtt : Duration) (budgets : gmap string AuthorityBudget)
    : gmap string Time :=
  (λ b, deadline received serverTime (instant (b_WindowEnd b)) rtt) <$> budgets.

(** The body of [Apply]'s transaction: whether the snapshot was stale, the
    deadlines and the windows. *)
Definition apply_body (s : Store) (received : Time) (rtt : Duration) (resp : AuthorityResponse)
    (budgets : gmap string AuthorityBudget) : STE TX AdmissionError (bool * gmap string Time * gmap string Time) :=
  let server := rs_ServerTime resp in
  install server budgets ≫= λ i : bool * bool,
  let ws := if i.2 then window_deadlines received (instant server) rtt budgets else windows s in
  a ← apply_grants s i.1 received (instant server) server rtt (mkApplying (deadlines s) [] []) (rs_Grants resp);
  a ← apply_denials i.1 a (rs_Denied resp);
  _ ← report_acks [] (rs_ReportAcks resp);
  _ ← meter_acks [] (rs_MeterAcks resp);
  _ ← tx_modify obsolete_requests;
  _ ← close_overtaken received (ap_deadlines a);
  mret (i.1, ap_deadlines a, ws).

Definition Apply (o : TxResult) (received : Time) (rtt : Duration) (resp : AuthorityResponse) (w : World)
    : result AdmissionError unit * World :=
  if (negb (bool_decide (rs_Protocol resp = AuthorityProtocol)) || negb (utcTime (rs_ServerTime resp)) || (rtt <? 0))%bool
  then (Err invalid, w)
  else
    match validateBudgets resp with
    | Err e => (Err e, w)
    | Ok budgets =>
        match transaction o (apply_body (store w) received rtt resp budgets) w with
        | (Err e, w) => (Err e, w)
        | (Ok (stale, ds, ws, j), w) =>
            let w := mkWorld (row w) (set_windows ws (set_deadlines (pruneDeadlines ds j) (store w))) in
            (if stale then Err invalid else Ok tt, w)
        end
    end.

End Journal.

(** ** A concrete journal *)

Module Demo.

Definition sums (g : AuthorityGrant) : string := ag_ID g +:+ "|" +:+ ag_RequestID g.
(** Each character escaped, each string ended. *)
Fixpoint escaped (s rest : string) : string :=
  match s with
  | EmptyString => "." +:+ rest
  | String a s => "x" +:+ String a (escaped s rest)
  end.
Fixpoint enc (l : list string) : string := match l with [] => "" | s :: l => escaped s (enc l) end.
(** A 0, 1, 2, ... in unary. *)
Fixpoint nonces_from (n : nat) : string := match n with O => "n" | S n => "n" +:+ nonces_from n end.
Definition nonces (n : nat) : option string := Some (nonces_from n).
Definition range (A : Type) (m : gmap string A) : list (string * A) := map_to_list m.

Definition day : Stamp := mkStamp 0 0.
Definition week : Stamp := mkStamp (1000000 * Second) 0.
Definition server : Stamp := mkStamp (10 * Second) 0.

Definition hard : AuthorityBudget :=
  mkBudget "k" "policy" "rule" "team" "" "r1" "w1" day week 1000 100 60 true.
Definition soft : AuthorityBudget :=
  mkBudget "s" "policy" "rule2" "team" "" "r1" "w2" day week 1000 0 60 false.

Definition respond (gs : list AuthorityGrant) : AuthorityResponse :=
  mkResponse AuthorityProtocol server [hard; soft] gs [] [] [].
Definition granted : AuthorityGrant := mkAuthorityGrant "g1" "n" "k" "r1" "w1" 100 (mkStamp (50 * Second) 0).

Definition subject : Subject := {| s_Team := "team"; s_KeyID := ""; s_User := "u" |}.
Definition now : Time := 5 * Second.

Definition apply_resp gs w := (Apply sums enc range TxOK now 0 (respond gs) w).2.
Definition reserve bound w := Reserve sums enc nonces range TxOK TxOK now now now subject bound w.
Definition finish p actual w := Finish sums enc range TxOK now p (Some actual) true w.

Definition w0 : World :=
  match Open sums enc range "i" TxOK None with
  | (Ok s, r) => mkWorld r s
  | (Err _, r) => mkWorld r (mkStore "" false true None ∅ ∅ 0)
  end.
(** Synchronized, a refused attempt, its request sent, and the grant applied. *)
Definition w1 : World := apply_resp [granted] (Request sums enc range TxOK now (reserve 40 (apply_resp [] w0)).2).2.
Definition w2 : World := (reserve 40 w1).2.
Definition p1 : BudgetPermit := mkBudgetPermit "nn" 40 false.

Example refused_first : (reserve 40 (apply_resp [] w0)).1 = Err ErrAuthorityUnavailable.
Proof. by vm_compute. Qed.
Example reserved_then : (reserve 40 w1).1 = Ok p1.
Proof. by vm_compute. Qed.
Example settled_after :
  (λ g, (g_Consumed g, g_Observed g, g_Reserved g, g_Pending g))
    <$> (row (finish p1 25 w2).2 ≫= λ r, Grants r.2 !! "g1") = Some (25, 25, 0, 0).
Proof. by vm_compute. Qed.

End Demo.
