(* ===== verification/EscrowSafety.v ===== *)
(** * What the escrow guarantees (internal/authority/local)

    The invariant of the journal, kept by every transaction of every owner
    whatever SQLite, the clock and the control plane answer: each grant's
    reservation is exactly the bounds of the permits that still rest on it;
    what was consumed and what is reserved fit in the amount granted, unless
    an observed cost exceeded its bound, which closes admission for good; and
    the decoder accepts what was written. *)

From S2P Require Import Prelude GoTime Denial Governor Escrow.

(** ** Hoare triples for transaction bodies *)

#[local] Abbreviation hoare := (Prelude.hoare (S := TX) (E := AdmissionError)).

Lemma hoare_get {B} P (f : journal → STE TX AdmissionError B) Q :
  (∀ j, hoare (λ tx, P tx ∧ tx_j tx = j) (f j) Q) → hoare P (tx_get ≫= f) Q.
Proof. intros Hf tx Hp. by apply (Hf (tx_j tx)). Qed.

Lemma hoare_lift {A B} P (r : result AdmissionError A) (f : A → STE TX AdmissionError B) Q :
  (∀ a, r = Ok a → hoare P (f a) Q) → hoare P (tx_lift r ≫= f) Q.
Proof. intros Hf tx Hp. destruct r as [a|e]; [by apply (Hf a)|done]. Qed.

Lemma hoare_modify P f (Q : unit → TX → Prop) :
  (∀ tx, P tx → Q tt (mkTX (f (tx_j tx)) (tx_nonces tx) (tx_wake tx))) → hoare P (tx_modify f) Q.
Proof. intros Hf tx Hp. by apply Hf. Qed.

Lemma hoare_signal P (Q : unit → TX → Prop) :
  (∀ tx, P tx → Q tt (mkTX (tx_j tx) (tx_nonces tx) true)) → hoare P tx_signal Q.
Proof. intros Hf tx Hp. by apply Hf. Qed.

Lemma hoare_grant {B} P id (f : grant → STE TX AdmissionError B) Q :
  (∀ g, hoare (λ tx, P tx ∧ Grants (tx_j tx) !! id = Some g) (f g) Q) → hoare P (tx_grant id ≫= f) Q.
Proof.
  intros Hf tx Hp. unfold tx_grant, mbind, ste_mbind, tx_get, tx_lift. simpl.
  destruct (Grants (tx_j tx) !! id) as [g|] eqn:E; simpl; [by apply Hf|done].
Qed.

Lemma hoare_meter {B} P id (f : meter → STE TX AdmissionError B) Q :
  (∀ m, hoare (λ tx, P tx ∧ Meters (tx_j tx) !! id = Some m) (f m) Q) → hoare P (tx_meter id ≫= f) Q.
Proof.
  intros Hf tx Hp. unfold tx_meter, mbind, ste_mbind, tx_get, tx_lift. simpl.
  destruct (Meters (tx_j tx) !! id) as [m|] eqn:E; simpl; [by apply Hf|done].
Qed.

(** A loop, by what holds after each prefix. *)
Lemma hoare_each {A} (I : list A → TX → Prop) (f : A → STE TX AdmissionError unit) l done :
  (∀ done' x todo, done ++ l = done' ++ x :: todo → hoare (I done') (f x) (λ _, I (done' ++ [x]))) →
  hoare (I done) (each l f) (λ _, I (done ++ l)).
Proof.
  revert done. induction l as [|x l IH]; intros done Hf.
  - apply hoare_ret. by rewrite app_nil_r.
  - cbn [each]. eapply hoare_bind; [by apply (Hf done x l)|]. intros [].
    rewrite (cons_middle x done l), app_assoc in *. by apply IH.
Qed.

Lemma hoare_each_inv {A} (P : TX → Prop) (f : A → STE TX AdmissionError unit) l :
  (∀ x, x ∈ l → hoare P (f x) (λ _, P)) → hoare P (each l f) (λ _, P).
Proof.
  intros Hf. apply (hoare_each (λ _, P) f l []). intros done' x todo Hl. apply Hf.
  simpl in Hl. rewrite Hl. apply elem_of_app. right. by left.
Qed.

(** ** Lists *)

Lemma Forall2_elem_r {A B} (P : A → B → Prop) l k y : Forall2 P l k → y ∈ k → ∃ x, x ∈ l ∧ P x y.
Proof.
  induction 1 as [|a b l k Hab _ IH]; [by intros ?%not_elem_of_nil|].
  intros [->|Hin]%elem_of_cons; [exists a; split; [by left|done]|].
  destruct (IH Hin) as (x & Hx & HP). exists x. split; [by right|done].
Qed.

Lemma Forall2_elem_l {A B} (P : A → B → Prop) l k x : Forall2 P l k → x ∈ l → ∃ y, y ∈ k ∧ P x y.
Proof. intros Hf. apply Forall2_flip in Hf. intros Hin. by destruct (Forall2_elem_r _ _ _ _ Hf Hin) as (y & ? & ?); exists y. Qed.

Lemma Forall2_impl_in {A B} (P Q : A → B → Prop) l k :
  Forall2 P l k → (∀ x y, x ∈ l → P x y → Q x y) → Forall2 Q l k.
Proof.
  induction 1 as [|a b l k Hab _ IH]; intros Hi; constructor; [apply Hi; [by left|done]|].
  apply IH. intros x y Hx. apply Hi. by right.
Qed.

(** ** Sums over the pending permits *)

Lemma sum_map_delete {K A} `{Countable K} (f : A → Z) (m : gmap K A) i x :
  m !! i = Some x → sum_map f (delete i m) = sum_map f m - f x.
Proof.
  intros Hi. rewrite <- (insert_delete_id m i x) at 2 by done. rewrite sum_map_new by apply lookup_delete_eq. lia.
Qed.

Lemma sum_map_ind {K A} `{Countable K} (f : A → Z) (P : Z → Prop) (m : gmap K A) :
  P 0 → (∀ x i z, m !! i = Some x → P z → P (f x + z)) → P (sum_map f m).
Proof.
  intros H0 Hs. assert (Hin : ∀ kv, kv ∈ map_to_list m → m !! kv.1 = Some kv.2).
  { intros [k x] Hin. by apply elem_of_map_to_list. }
  unfold sum_map. induction (map_to_list m) as [|kv l IH]; simpl; [done|].
  eapply Hs; [apply Hin; by left|]. apply IH. intros kv' Hkv. apply Hin. by right.
Qed.

Lemma sum_map_zero {K A} `{Countable K} (f : A → Z) (m : gmap K A) :
  (∀ i x, m !! i = Some x → f x = 0) → sum_map f m = 0.
Proof. intros Hf. apply (sum_map_ind f (λ z, z = 0)); [done|]. intros x i z Hx ->. by rewrite (Hf i x). Qed.

Lemma sum_map_pos {K A} `{Countable K} (f : A → Z) (m : gmap K A) :
  (∀ i x, m !! i = Some x → 0 <= f x) → 0 <= sum_map f m.
Proof. intros Hf. apply (sum_map_ind f (λ z, 0 <= z)); [lia|]. intros x i z Hx ?. specialize (Hf i x Hx). lia. Qed.

Lemma sum_map_fmap {K A} `{Countable K} (f : A → Z) (g : A → A) (m : gmap K A) :
  (∀ i x, m !! i = Some x → f (g x) = f x) → sum_map f (g <$> m) = sum_map f m.
Proof.
  intros Hf. unfold sum_map. rewrite map_to_list_fmap.
  assert (Hin : ∀ kv, kv ∈ map_to_list m → f (g kv.2) = f kv.2).
  { intros [k x] Hin%elem_of_map_to_list. by apply (Hf k). }
  induction (map_to_list m) as [|kv l IH]; simpl; [done|]. f_equal; [apply Hin; by left|].
  apply IH. intros kv' Hkv. apply Hin. by right.
Qed.

(** What permit [p] holds of grant [id]. *)
Definition due (id : string) (p : permit) : Z :=
  if p_Done p then 0 else if bool_decide (id ∈ p_Grants p) then p_Bound p else 0.
Definition pending (id : string) (p : permit) : Z :=
  if p_Done p then 0 else if bool_decide (id ∈ p_Grants p) then 1 else 0.

(** The bounds of the permits that rest on [id], and how many they are. *)
Definition owed (j : journal) (id : string) : Z := sum_map (due id) (Permits j).
Definition npending (j : journal) (id : string) : Z := sum_map (pending id) (Permits j).

(** ** The invariant *)

Definition counter (z : Z) : Prop := 0 <= z <= MaxInt64.

Record grant_ok (poisoned : bool) (id : string) (g : grant) : Prop := {
  go_id : ag_ID (g_Wire g) = id;
  go_amount : 0 < ag_Amount (g_Wire g) <= MaxInt64;
  go_consumed : 0 <= g_Observed g <= g_Consumed g ∧ g_Consumed g <= MaxInt64;
  go_reserved : counter (g_Reserved g) ∧ counter (g_Pending g);
  go_sequence : 0 < g_Sequence g <= MaxInt64 ∧ 0 <= g_Ack g <= g_Sent g ∧ g_Sent g <= g_Sequence g;
  go_closed : g_Closed g = true → g_Reserved g = 0 ∧ g_Pending g = 0;
  go_fits : g_Overrun g = false → g_Consumed g + g_Reserved g <= ag_Amount (g_Wire g);
  go_overrun : g_Overrun g = true → poisoned = true }.

Definition meter_ok (m : meter) : Prop :=
  counter (am_Consumed (m_Wire m)) ∧ counter (am_Observed (m_Wire m))
  ∧ 0 < am_Sequence (m_Wire m) <= MaxInt64 ∧ 0 <= m_Ack m <= m_Sent m ∧ m_Sent m <= am_Sequence (m_Wire m).

Definition permit_ok (j : journal) (p : permit) : Prop :=
  counter (p_Bound p) ∧ NoDup (p_Grants p) ∧ NoDup (p_Meters p)
  ∧ (∀ id, id ∈ p_Grants p → is_Some (Grants j !! id)) ∧ (∀ id, id ∈ p_Meters p → is_Some (Meters j !! id)).

(** [x] is what a transaction under way has still to book: the reservation
    and the number of permits by which each grant is ahead of the permits. *)
Record jinv (poisoned : bool) (x : string → Z * Z) (j : journal) : Prop := {
  ji_version : Version j = 1;
  ji_grants : ∀ id g, Grants j !! id = Some g →
    grant_ok poisoned id g ∧ g_Reserved g = owed j id + (x id).1 ∧ g_Pending g = npending j id + (x id).2;
  ji_meters : ∀ id m, Meters j !! id = Some m → meter_ok m;
  ji_permits : ∀ id p, Permits j !! id = Some p → permit_ok j p;
  ji_budgets : ∀ k b, Budgets j !! k = Some b → b_Key b = k }.

Definition none : string → Z * Z := λ _, (0, 0).

(** The invariant of a stored journal. *)
Definition escrow_inv (j : journal) : Prop := jinv (Poisoned j) none j.

Lemma owed_nonneg po x j id : jinv po x j → 0 <= owed j id.
Proof.
  intros Hj. apply sum_map_pos. intros i p Hp. destruct (ji_permits _ _ _ Hj _ _ Hp) as ([? _] & _).
  unfold due. destruct (p_Done p); [lia|]. case_bool_decide; lia.
Qed.

Lemma npending_nonneg j id : 0 <= npending j id.
Proof. apply sum_map_pos. intros i p _. unfold pending. destruct (p_Done p); [lia|]. case_bool_decide; lia. Qed.

(** No permit, no debt. *)
Lemma npending_zero po x j id : jinv po x j → npending j id = 0 → owed j id = 0.
Proof.
  intros Hj Hn. apply sum_map_zero. intros i p Hp.
  assert (pending id p = 0).
  { assert (0 <= npending j id - pending id p).
    { unfold npending. rewrite <- (sum_map_delete _ _ _ _ Hp). apply sum_map_pos.
      intros k q _. unfold pending. destruct (p_Done q); [lia|]. case_bool_decide; lia. }
    assert (0 <= pending id p) by (unfold pending; destruct (p_Done p); [lia|]; case_bool_decide; lia). lia. }
  unfold due, pending in *. destruct (p_Done p); [done|]. case_bool_decide; [lia|done].
Qed.

(** An unreferenced grant owes nothing. *)
Lemma owed_absent po x j id :
  jinv po x j → Grants j !! id = None → owed j id = 0 ∧ npending j id = 0.
Proof.
  intros Hj Hn. split; apply sum_map_zero; intros i p Hp;
    (assert (id ∉ p_Grants p); [intros Hin; destruct (ji_permits _ _ _ Hj _ _ Hp) as (_ & _ & _ & Hg & _);
      destruct (Hg _ Hin); congruence|]); unfold due, pending; destruct (p_Done p); try done; by rewrite bool_decide_false.
Qed.

(** ** Changes of one entry *)

Lemma sum_pending_zero id (ps : gmap string permit) :
  sum_map (pending id) ps = 0 → sum_map (due id) ps = 0.
Proof.
  intros Hn. apply sum_map_zero. intros i p Hp.
  assert (Hpos : ∀ q, 0 <= pending id q) by (intros q; unfold pending; destruct (p_Done q); [lia|]; case_bool_decide; lia).
  assert (0 <= sum_map (pending id) (delete i ps)) by (apply sum_map_pos; auto).
  rewrite (sum_map_delete _ _ _ _ Hp) in *. specialize (Hpos p).
  unfold due, pending in *. destruct (p_Done p); [done|]. case_bool_decide; [lia|done].
Qed.

Lemma jinv_poison po po' x j : (po = true → po' = true) → jinv po x j → jinv po' x j.
Proof.
  intros Hpo []. split; try done. intros id g Hg. destruct (ji_grants0 _ _ Hg) as ([] & ?).
  split; [split; auto|done].
Qed.

Lemma jinv_ext po x x' j : (∀ id, x id = x' id) → jinv po x j → jinv po x' j.
Proof. intros Hx []. split; try done. intros id g Hg. rewrite <- Hx. auto. Qed.

Lemma jinv_put_grant po x x' id g g' j :
  jinv po x j → Grants j !! id = Some g → grant_ok po id g' →
  g_Reserved g' - (x' id).1 = g_Reserved g - (x id).1 → g_Pending g' - (x' id).2 = g_Pending g - (x id).2 →
  (∀ i, i ≠ id → x' i = x i) →
  jinv po x' (with_Grants (<[id := g']> (Grants j)) j).
Proof.
  intros [Hv Hg Hm Hp Hb] Hid Hok Hr Hn Hx. split; simpl; try done.
  - intros i gi. destruct (decide (i = id)) as [->|Hne].
    + rewrite lookup_insert_eq. intros [= <-]. destruct (Hg _ _ Hid) as (_ & ? & ?).
      unfold owed, npending in *. simpl. split; [done|lia].
    + rewrite lookup_insert_ne by done. intros Hi. rewrite Hx by done. by apply Hg.
  - intros i p Hi. destruct (Hp i p Hi) as (? & ? & ? & Hgs & ?). split_and!; try done.
    intros k Hk. simpl. apply lookup_insert_is_Some. destruct (decide (id = k)); auto.
Qed.

(** The reservation is not touched. *)
Lemma jinv_update_grant po x id g g' j :
  jinv po x j → Grants j !! id = Some g → grant_ok po id g' →
  g_Reserved g' = g_Reserved g → g_Pending g' = g_Pending g →
  jinv po x (with_Grants (<[id := g']> (Grants j)) j).
Proof. intros. by eapply (jinv_put_grant po x x id g g'); try done; lia. Qed.

Lemma jinv_new_grant po x id g j :
  jinv po x j → Grants j !! id = None → grant_ok po id g → g_Reserved g = 0 → g_Pending g = 0 → x id = (0, 0) →
  jinv po x (with_Grants (<[id := g]> (Grants j)) j).
Proof.
  intros Hj Hid Hok Hr Hn Hx. destruct (owed_absent _ _ _ _ Hj Hid) as [Ho Hc].
  destruct Hj as [Hv Hg Hm Hp Hb]. split; simpl; try done.
  - intros i gi. destruct (decide (i = id)) as [->|Hne].
    + rewrite lookup_insert_eq. intros [= <-]. rewrite Hx. unfold owed, npending in *. simpl. split; [done|lia].
    + rewrite lookup_insert_ne by done. by apply Hg.
  - intros i p Hi. destruct (Hp i p Hi) as (? & ? & ? & Hgs & ?). split_and!; try done.
    intros k Hk. simpl. apply lookup_insert_is_Some. destruct (decide (id = k)); auto.
Qed.

Lemma jinv_put_meter po x id m j :
  jinv po x j → meter_ok m → jinv po x (with_Meters (<[id := m]> (Meters j)) j).
Proof.
  intros [Hv Hg Hm Hp Hb] Hok. split; simpl; try done.
  - intros i mi. destruct (decide (i = id)) as [->|Hne]; [rewrite lookup_insert_eq; by intros [= <-]|].
    rewrite lookup_insert_ne by done. apply Hm.
  - intros i p Hi. destruct (Hp i p Hi) as (? & ? & ? & ? & Hms). split_and!; try done.
    intros k Hk. simpl. apply lookup_insert_is_Some. destruct (decide (id = k)); auto.
Qed.

Lemma jinv_put_permit po x x' pid p j :
  jinv po x j → permit_ok j p →
  (∀ id, sum_map (due id) (<[pid := p]> (Permits j)) + (x' id).1 = owed j id + (x id).1
       ∧ sum_map (pending id) (<[pid := p]> (Permits j)) + (x' id).2 = npending j id + (x id).2) →
  jinv po x' (with_Permits (<[pid := p]> (Permits j)) j).
Proof.
  intros [Hv Hg Hm Hp Hb] Hok Hsum. split; simpl; try done.
  - intros i g Hi. destruct (Hg i g Hi) as (? & ? & ?). destruct (Hsum i).
    unfold owed, npending in *. simpl. split; [done|lia].
  - intros i q. destruct (decide (i = pid)) as [->|Hne]; [rewrite lookup_insert_eq; by intros [= <-]|].
    rewrite lookup_insert_ne by done. apply Hp.
Qed.

(** A new permit for what was held. *)
Lemma jinv_new_permit po x pid p j :
  jinv po x j → Permits j !! pid = None → permit_ok j p → (∀ id, x id = (due id p, pending id p)) →
  jinv po none (with_Permits (<[pid := p]> (Permits j)) j).
Proof.
  intros Hj Hid Hok Hx. eapply jinv_put_permit; [done..|]. intros id. rewrite Hx. unfold none, owed, npending. simpl.
  rewrite !sum_map_new by done. lia.
Qed.

(** A permit's state changes, and with it what it holds. *)
Lemma jinv_change_permit po x pid p p' j :
  jinv po x j → Permits j !! pid = Some p → permit_ok j p' →
  (∀ id, (x id).1 = due id p' - due id p ∧ (x id).2 = pending id p' - pending id p) →
  jinv po none (with_Permits (<[pid := p']> (Permits j)) j).
Proof.
  intros Hj Hid Hok Hx. eapply jinv_put_permit; [done..|]. intros id. destruct (Hx id) as [H1 H2].
  unfold none, owed, npending. simpl. rewrite !(sum_map_update _ _ _ _ _ Hid). lia.
Qed.

Lemma jinv_other po x j j' :
  jinv po x j → Version j' = Version j → Grants j' = Grants j → Permits j' = Permits j → Meters j' = Meters j →
  Budgets j' = Budgets j → jinv po x j'.
Proof.
  intros [Hv Hg Hm Hp Hb] Ev Eg Ep Em Eb. split.
  - congruence.
  - unfold owed, npending. rewrite Eg, Ep. apply Hg.
  - rewrite Em. apply Hm.
  - unfold permit_ok. rewrite Ep, Eg, Em. apply Hp.
  - rewrite Eb. apply Hb.
Qed.

(** ** Arithmetic *)

Lemma add_Ok a b c : add a b = Ok c → 0 <= a → counter b → c = a + b ∧ counter c.
Proof.
  unfold add, counter. destruct (_ || _)%bool eqn:E; [done|]. intros [= <-] Ha Hb. bsplit.
  rewrite (wrap64_id (MaxInt64 - b)) in * by int_lia. rewrite wrap64_id by int_lia. int_lia.
Qed.

Lemma bump_Ok a c : bump a = Ok c → 0 <= a → c = a + 1 ∧ counter c.
Proof. intros Hb Ha. apply (add_Ok a 1 c Hb Ha). unfold counter. int_lia. Qed.

Lemma add_is_ok a b : is_ok (add a b) = true → 0 <= a → counter b → counter (a + b) ∧ wrap64 (a + b) = a + b.
Proof.
  intros Hok Ha Hb. destruct (add a b) as [c|] eqn:E; [|done]. destruct (add_Ok _ _ _ E Ha Hb) as [-> Hc].
  split; [done|]. apply wrap64_id. unfold counter in Hc. int_lia.
Qed.

(** ** Closing *)

(** [tx] with a changed journal. *)
Definition tx_with (f : journal → journal) (tx : TX) : TX := mkTX (f (tx_j tx)) (tx_nonces tx) (tx_wake tx).

(** [R] does not mind that an idle grant is closed. *)
Definition survives_close (R : TX → Prop) (id : string) : Prop :=
  ∀ tx g seq, R tx → Grants (tx_j tx) !! id = Some g → g_Closed g = false → g_Pending g = 0 →
  R (tx_with (λ j, with_Grants (<[id := close_with seq g]> (Grants j)) j) tx).

Lemma close_with_ok po id g seq :
  grant_ok po id g → g_Pending g = 0 → g_Reserved g = 0 → bump (g_Sequence g) = Ok seq → grant_ok po id (close_with seq g).
Proof.
  intros [] Hp Hr Hb. apply bump_Ok in Hb as [-> Hc]; [|lia]. unfold counter in *.
  split; simpl; try done; lia.
Qed.

Lemma closeGrant_spec po x R id :
  survives_close R id →
  hoare (λ tx, jinv po x (tx_j tx) ∧ R tx) (closeGrant id) (λ _ tx, jinv po x (tx_j tx) ∧ R tx).
Proof.
  intros HR. apply hoare_grant. intros g. destruct (g_Closed g) eqn:Hc.
  - apply hoare_ret. by intros tx [].
  - destruct (_ || _)%bool eqn:E; [apply hoare_early|]. bsplit. apply hoare_lift. intros seq Hs.
    apply hoare_modify. intros tx [[Hj Hr] Hg]. simpl. split.
    + eapply jinv_update_grant; try done. destruct (ji_grants _ _ _ Hj _ _ Hg) as (Hok & _). by apply close_with_ok.
    + by apply (HR tx g seq).
Qed.

Section Inv.
Context (sums : AuthorityGrant → string) (enc : list string → string) (nonces : nat → option string).
Context (range : ∀ A, gmap string A → list (string * A)).
(** The strings of a decoded response are valid UTF-8, which the JSON of a
    list of strings preserves. *)
Context (enc_key : ∀ i k w k' w', enc [i; k; w] = enc [i; k'; w'] → k = k').

Lemma closeInactive_spec po x R s now :
  (∀ id, survives_close R id) →
  hoare (λ tx, jinv po x (tx_j tx) ∧ R tx) (closeInactive range s now) (λ _ tx, jinv po x (tx_j tx) ∧ R tx).
Proof.
  intros HR. apply hoare_get. intros j.
  apply (hoare_pre _ (λ tx, jinv po x (tx_j tx) ∧ R tx)); [|by intros tx [? _]].
  apply hoare_each_inv. intros [id g] _. destruct (_ || _)%bool; [apply hoare_ret; auto|].
  apply hoare_get. intros j'. destruct (inactive s now j' g).
  - eapply hoare_pre; [by apply closeGrant_spec|by intros tx [? _]].
  - apply hoare_ret. by intros tx [? _].
Qed.

(** What a transaction under way has left alone. *)
Definition kept (j0 : journal) (n : nat) (tx : TX) : Prop :=
  Permits (tx_j tx) = Permits j0 ∧ Budgets (tx_j tx) = Budgets j0 ∧ Poisoned (tx_j tx) = Poisoned j0
  ∧ (n <= tx_nonces tx)%nat.

Lemma kept_survives j0 n id : survives_close (kept j0 n) id.
Proof. by intros tx g seq ?. Qed.

(** ** Choosing the grants *)

(** Grant [id] is of the budget [key] and has room for [bound]. *)
Definition room (s : Store) (now bound : Z) (j0 : journal) (tx : TX) (key id : string) : Prop :=
  ∃ g b, Grants (tx_j tx) !! id = Some g ∧ Budgets j0 !! key = Some b ∧ usable s g b now = true
    ∧ 0 < ag_Amount (g_Wire g) - g_Consumed g - g_Reserved g
    ∧ bound <= ag_Amount (g_Wire g) - g_Consumed g - g_Reserved g.

(** While grants are picked: those chosen so far, one of each key. *)
Definition picking po x j0 n s now bound (keys chosen : list string) (tx : TX) : Prop :=
  jinv po x (tx_j tx) ∧ kept j0 n tx ∧ Forall2 (room s now bound j0 tx) keys chosen.

Definition keyed (j0 : journal) : Prop := ∀ k b, Budgets j0 !! k = Some b → b_Key b = k.

Lemma room_key s now bound j0 tx key id :
  keyed j0 → room s now bound j0 tx key id →
  ∃ g, Grants (tx_j tx) !! id = Some g ∧ ag_Key (g_Wire g) = key ∧ g_Closed g = false ∧ g_Overrun g = false.
Proof.
  intros Hb (g & b & Hg & Hk & Hu & _). exists g. split; [done|]. rewrite <- (Hb _ _ Hk).
  unfold usable in Hu. by bsplit.
Qed.

(** One grant per key. *)
Lemma room_NoDup s now bound j0 tx keys chosen :
  keyed j0 → NoDup keys → Forall2 (room s now bound j0 tx) keys chosen → NoDup chosen.
Proof.
  intros Hb Hnd Hr. induction Hr as [|key id keys ids Hid Hr IH]; [constructor|].
  apply NoDup_cons in Hnd as [Hk Hnd]. constructor; [|by apply IH].
  intros Hin. apply Hk. destruct (Forall2_elem_r _ _ _ _ Hr Hin) as (key' & Hin' & Hid').
  destruct (room_key _ _ _ _ _ _ _ Hb Hid) as (g & Hg & <- & _).
  destruct (room_key _ _ _ _ _ _ _ Hb Hid') as (g' & Hg' & <- & _). congruence.
Qed.

(** A change that leaves the grants, the permits and the meters alone. *)
Lemma picking_other po x j0 n s now bound keys chosen tx tx' :
  picking po x j0 n s now bound keys chosen tx →
  (∃ rs, tx_j tx' = with_Requests rs (tx_j tx)) → (tx_nonces tx <= tx_nonces tx')%nat →
  picking po x j0 n s now bound keys chosen tx'.
Proof.
  intros (Hj & (? & ? & ? & ?) & Hr) [rs Hrs] Hn. unfold picking, kept, room. rewrite Hrs. simpl.
  split; [by eapply jinv_other|]. split; [|done]. split_and!; try done. lia.
Qed.

Lemma queue_spec po x j0 n s now bound keys chosen s' b want :
  hoare (picking po x j0 n s now bound keys chosen) (queue nonces s' b want)
    (λ _, picking po x j0 n s now bound keys chosen).
Proof.
  apply hoare_get. intros j. eapply (hoare_bind _ _ _ (λ _, picking po x j0 n s now bound keys chosen)).
  - eapply hoare_pre; [|by intros tx [? _]].
    induction (sortedKeys (Requests j)) as [|id ids IH]; [by apply hoare_ret|]. apply hoare_get. intros j'.
    eapply hoare_pre; [|by intros tx [? _]].
    destruct (Requests j' !! id) as [r|]; [|apply IH].
    destruct (_ || _)%bool; [apply IH|]. destruct (_ >=? _); [by apply hoare_ret|].
    destruct (negb (r_Sent r)); [|apply IH].
    eapply (hoare_bind _ _ _ (λ _, picking po x j0 n s now bound keys chosen)); [|intros []; by apply hoare_ret].
    apply hoare_modify. intros tx Ht. eapply picking_other; [done|by eexists|done].
  - intros [e|]; [by apply hoare_ret|].
    eapply (hoare_bind _ _ _ (λ _, picking po x j0 n s now bound keys chosen)).
    + intros tx Ht. unfold nonce. destruct (nonces (tx_nonces tx)); simpl; [|done].
      eapply picking_other; [done|exists (Requests (tx_j tx)); by destruct (tx_j tx)|simpl; lia].
    + intros id. eapply (hoare_bind _ _ _ (λ _, picking po x j0 n s now bound keys chosen)); [|intros []; by apply hoare_ret].
      apply hoare_modify. intros tx Ht. eapply picking_other; [done|by eexists|done].
Qed.

(** The room [pick_grant] computes. *)
Lemma usable_available po id s g b now :
  grant_ok po id g → usable s g b now = true →
  wrap64 (wrap64 (ag_Amount (g_Wire g) - g_Consumed g) - g_Reserved g) = ag_Amount (g_Wire g) - g_Consumed g - g_Reserved g.
Proof.
  intros [] Hu. unfold usable, counter in *. bsplit.
  rewrite !(wrap64_id (ag_Amount (g_Wire g) - g_Consumed g)) in * by int_lia. rewrite wrap64_id by int_lia. done.
Qed.

Lemma pick_grant_spec po x j0 n s now bound keys chosen b ids :
  keyed j0 → Budgets j0 !! b_Key b = Some b → b_Key b ∉ keys →
  hoare (picking po x j0 n s now bound keys chosen) (pick_grant s b bound now ids)
    (λ r tx, picking po x j0 n s now bound keys chosen tx
             ∧ match r with Some id => room s now bound j0 tx (b_Key b) id | None => True end).
Proof.
  intros Hkeyed Hb Hfresh. induction ids as [|id ids IH]; [by apply hoare_ret|]. cbn [pick_grant].
  apply hoare_grant. intros g. destruct (usable s g b now) eqn:Hu; simpl; [|eapply hoare_pre; [apply IH|by intros tx []]].
  destruct (_ && _)%bool eqn:E.
  - apply hoare_ret. intros tx [Hp Hg]. split; [done|]. exists g, b. split_and!; try done.
    all: destruct Hp as (Hj & _); destruct (ji_grants _ _ _ Hj _ _ Hg) as (Hok & _);
      rewrite (usable_available _ _ _ _ _ _ Hok Hu) in E; bsplit; lia.
  - assert (Hkey : ag_Key (g_Wire g) = b_Key b) by (unfold usable in Hu; bsplit; done).
    eapply (hoare_bind _ _ _ (λ _, picking po x j0 n s now bound keys chosen)); [|intros []; apply IH].
    destruct (g_Pending g =? 0); [|apply hoare_ret; by intros tx []].
    set (R := λ tx, (kept j0 n tx ∧ Forall2 (room s now bound j0 tx) keys chosen)
                    ∧ (ag_Key ∘ g_Wire) <$> Grants (tx_j tx) !! id = Some (b_Key b)).
    eapply hoare_conseq; [apply (closeGrant_spec po x R id)| |].
    + intros tx g' seq [[Hk Hr] Hid] Hg' Hc _. split; [split; [done|]|].
      * eapply Forall2_impl_in; [exact Hr|]. intros key id' Hin Hroom.
        destruct (room_key _ _ _ _ _ _ _ Hkeyed Hroom) as (g1 & Hg1 & Hk1 & _).
        destruct Hroom as (g2 & b2 & Hg2 & Hrest). exists g2, b2. simpl. split; [|done].
        rewrite lookup_insert_ne; [done|]. intros ->. rewrite Hg1 in Hid. simpl in Hid. congruence.
      * simpl. rewrite lookup_insert_eq. rewrite Hg' in Hid. exact Hid.
    + intros tx [(Hj & Hk & Hr) Hg]. split; [done|]. split; [done|]. rewrite Hg. simpl. by rewrite Hkey.
    + by intros _ tx (Hj & (Hk & Hr) & _).
Qed.

(** The budgets a request answers to, and of them the hard ones. *)
Definition subject_to (j : journal) (subject : Subject) (key : string) : bool :=
  match Budgets j !! key with Some b => matches b subject | None => false end.
Definition hard_for (j : journal) (subject : Subject) (key : string) : bool :=
  match Budgets j !! key with Some b => (matches b subject && b_HardCap b)%bool | None => false end.

Definition hard_keys (j : journal) (subject : Subject) (done : list string) : list string :=
  filter (λ k, hard_for j subject k = true) done.

Lemma hard_keys_snoc j subject done key :
  hard_keys j subject (done ++ [key]) = hard_keys j subject done ++ (if hard_for j subject key then [key] else []).
Proof.
  unfold hard_keys. rewrite filter_app. f_equal. destruct (hard_for j subject key) eqn:E.
  - by rewrite filter_cons_True.
  - rewrite filter_cons_False; [done|]. congruence.
Qed.

(** After the budgets [done]: the grants chosen are of distinct hard keys, of
    all of them when nothing is refused, and then every window is open. *)
Definition chose po x j0 n s now bound subject (done : list string) (c : choice) (tx : TX) : Prop :=
  ∃ keys, picking po x j0 n s now bound keys (c_chosen c) tx ∧ NoDup keys ∧ (∀ k, k ∈ keys → k ∈ done)
    ∧ NoDup (b_Key <$> c_soft c) ∧ (∀ k, k ∈ b_Key <$> c_soft c → k ∈ done)
    ∧ (c_denied c = None → keys = hard_keys j0 subject done
         ∧ ∀ k, k ∈ done → subject_to j0 subject k = true → Before now (default zeroTime (windows s !! k)) = true).

Lemma choose_budget_spec po x j0 n s now bound subject done key c :
  keyed j0 → key ∉ done →
  hoare (chose po x j0 n s now bound subject done c) (choose_budget nonces s subject bound now key c)
    (λ c', chose po x j0 n s now bound subject (done ++ [key]) c').
Proof.
  intros Hkeyed Hfresh.
  assert (Hskip : ∀ c c' tx, c_chosen c' = c_chosen c → c_denied c' = c_denied c →
            c_soft c' = c_soft c ∨ (∃ b, c_soft c' = c_soft c ++ [b] ∧ b_Key b = key) →
            (subject_to j0 subject key = true → Before now (default zeroTime (windows s !! key)) = true) →
            hard_for j0 subject key = false →
            chose po x j0 n s now bound subject done c tx → chose po x j0 n s now bound subject (done ++ [key]) c' tx).
  { intros c0 c' tx Hch Hd Hsoft Hwin Hh (keys & Hp & Hnd & Hsub & Hsnd & Hssub & Hnone). exists keys. rewrite Hch.
    assert (Hs : NoDup (b_Key <$> c_soft c') ∧ ∀ k, k ∈ b_Key <$> c_soft c' → k ∈ done ++ [key]).
    { destruct Hsoft as [->|(b & -> & Hb)]; [split; [done|intros k Hk; apply elem_of_app; left; auto]|].
      rewrite fmap_app. simpl. rewrite Hb. split.
      - apply NoDup_app. split; [done|]. split; [|apply NoDup_singleton].
        intros k Hk ->%list_elem_of_singleton. by apply Hfresh, Hssub.
      - intros k [Hk|Hk]%elem_of_app; apply elem_of_app; [left; auto|by right]. }
    destruct Hs as [Hs1 Hs2].
    split; [done|]. split; [done|]. split; [intros k Hk; apply elem_of_app; left; auto|].
    split; [done|]. split; [done|].
    rewrite Hd. intros Hn. destruct (Hnone Hn) as [-> Hw]. rewrite hard_keys_snoc, Hh, app_nil_r. split; [done|].
    intros k [Hk| ->%list_elem_of_singleton]%elem_of_app; auto. }
  assert (Hdeny : ∀ (c c' : choice) tx, c_chosen c' = c_chosen c → c_soft c' = c_soft c → is_Some (c_denied c') →
            chose po x j0 n s now bound subject done c tx → chose po x j0 n s now bound subject (done ++ [key]) c' tx).
  { intros c0 c' tx Hch Hsoft [e He] (keys & Hp & Hnd & Hsub & Hsnd & Hssub & _). exists keys. rewrite Hch, Hsoft.
    split; [done|]. split; [done|]. split; [intros k Hk; apply elem_of_app; left; auto|].
    split; [done|]. split; [intros k Hk; apply elem_of_app; left; auto|congruence]. }
  apply hoare_get. intros j.
  eapply (hoare_pre _ (λ tx, chose po x j0 n s now bound subject done c tx ∧ Budgets j = Budgets j0)).
  2:{ intros tx [Hc Hj]. split; [done|]. destruct Hc as (keys & (_ & (_ & Hb & _) & _) & _). congruence. }
  destruct (Budgets j !! key) as [b|] eqn:Eb.
  2:{ apply hoare_ret. intros tx [Hc HB]. rewrite HB in Eb. eapply (Hskip c); try done; [by left|..];
      unfold subject_to, hard_for; by rewrite Eb. }
  destruct (matches b subject) eqn:Em; simpl.
  2:{ apply hoare_ret. intros tx [Hc HB]. rewrite HB in Eb. eapply (Hskip c); try done; [by left|..];
      unfold subject_to, hard_for; by rewrite Eb, Em. }
  destruct (Before now (default zeroTime (windows s !! key))) eqn:Ew; simpl.
  2:{ eapply (hoare_bind _ _ _ (λ _ tx, chose po x j0 n s now bound subject done c tx)).
      - apply hoare_signal. by intros tx [Hc _].
      - intros []. apply hoare_ret. intros tx Hc. by eapply (Hdeny c). }
  destruct (b_HardCap b) eqn:Eh; simpl.
  2:{ apply hoare_ret. intros tx [Hc HB]. rewrite HB in Eb. eapply (Hskip c); try done.
      - right. exists b. split; [done|]. by apply Hkeyed.
      - unfold hard_for. by rewrite Eb, Em, Eh. }
  intros tx [(keys & Hp & Hnd & Hsub & Hsnd & Hssub & Hnone) HB]. rewrite HB in Eb.
  pose proof (Hkeyed _ _ Eb) as Hk. assert (Hfk : b_Key b ∉ keys) by (rewrite Hk; intros Hin; by apply Hfresh, Hsub).
  pose proof (pick_grant_spec po x j0 n s now bound keys (c_chosen c) b (sortedKeys (Grants j)) Hkeyed
                ltac:(by rewrite Hk) Hfk tx Hp) as Hpick.
  unfold mbind at 1, ste_mbind. destruct (pick_grant _ _ _ _ _ tx) as [[[id|]|e] tx1]; [| |done].
  - destruct Hpick as [(Hj & Hkept & Hr) Hroom]. simpl. exists (keys ++ [key]). split_and!; simpl.
    + split; [done|]. split; [done|]. apply Forall2_app; [done|]. rewrite <- Hk. by repeat constructor.
    + apply NoDup_app. split; [done|]. split; [|apply NoDup_singleton].
      intros k Hin ->%list_elem_of_singleton. by apply Hfk; rewrite Hk.
    + intros k [Hin|Hin]%elem_of_app; apply elem_of_app; [left; auto|by right].
    + done.
    + intros k Hin. apply elem_of_app. left. auto.
    + intros Hn. destruct (Hnone Hn) as [-> Hw]. rewrite hard_keys_snoc. unfold hard_for. rewrite Eb, Em, Eh.
      split; [done|]. intros k [Hin| ->%list_elem_of_singleton]%elem_of_app; auto.
  - destruct Hpick as [Hp1 _].
    pose proof (queue_spec po x j0 n s now bound keys (c_chosen c) s b bound tx1 Hp1) as Hq.
    unfold mbind, ste_mbind. destruct (queue _ _ _ _ tx1) as [[ex|e] tx2]; [|done]. simpl.
    eapply (Hdeny c (refuse_budget b (mkChoice (c_chosen c) (c_soft c) (c_denied c) (earlier (c_expires c) (default zeroTime (windows s !! key)))) ex));
      [done|done| |].
    + unfold refuse_budget, exhausted_already. simpl. destruct ex; [|by destruct (c_denied c); eexists].
      destruct (c_denied c) as [[]|]; try by eexists.
      by destruct err; eexists.
    + exists keys. split; [|by split_and!]. eapply picking_other; [exact Hq| |done].
      exists (Requests (tx_j tx2)). by destruct (tx_j tx2).
Qed.

Lemma choose_spec po x j0 n s now bound subject done todo c :
  keyed j0 → NoDup (done ++ todo) →
  hoare (chose po x j0 n s now bound subject done c) (choose nonces s subject bound now todo c)
    (λ c', chose po x j0 n s now bound subject (done ++ todo) c').
Proof.
  intros Hkeyed. revert done c. induction todo as [|key todo IH]; intros done c Hnd.
  - apply hoare_ret. by rewrite app_nil_r.
  - cbn [choose]. assert (key ∉ done).
    { apply NoDup_app in Hnd as (_ & Hd & _). intros Hin. apply (Hd _ Hin). by left. }
    eapply hoare_bind; [by apply choose_budget_spec|]. intros c'. simpl.
    rewrite (cons_middle key done todo), app_assoc in *. by apply IH.
Qed.

(** ** Holding the bound *)

(** [g] is live authority of this boot for the definition [b]. *)
Definition own (s : Store) (g : grant) (b : AuthorityBudget) : Prop :=
  g_Instance g = instance s ∧ g_Closed g = false ∧ g_Overrun g = false
  ∧ ag_Key (g_Wire g) = b_Key b ∧ ag_Revision (g_Wire g) = b_Revision b ∧ ag_WindowID (g_Wire g) = b_WindowID b.

Lemma usable_own s g b now : usable s g b now = true → own s g b.
Proof. unfold usable, own. intros Hu. by bsplit. Qed.

Definition held (bound : Z) (ids : list string) (id : string) : Z * Z :=
  if bool_decide (id ∈ ids) then (bound, 1) else (0, 0).

(** Holding: what is booked of [ids], and the room left in the others. *)
Definition holding po j0 n s bound (keys chosen booked : list string) (tx : TX) : Prop :=
  jinv po (held bound booked) (tx_j tx) ∧ kept j0 n tx
  ∧ Forall2 (λ key id, ∃ g b, Grants (tx_j tx) !! id = Some g ∧ Budgets j0 !! key = Some b ∧ own s g b
      ∧ (id ∉ booked → bound <= ag_Amount (g_Wire g) - g_Consumed g - g_Reserved g)) keys chosen.

Lemma hold_spec po j0 n s bound keys chosen booked id :
  counter bound → id ∈ chosen → id ∉ booked →
  hoare (holding po j0 n s bound keys chosen booked) (hold bound id)
    (λ _, holding po j0 n s bound keys chosen (booked ++ [id])).
Proof.
  intros Hbound Hin Hnew. apply hoare_grant. intros g. apply hoare_lift. intros r Hr. apply hoare_lift. intros p Hp.
  apply hoare_modify. intros tx [(Hj & Hk & Hall) Hg].
  destruct (Forall2_elem_r _ _ _ _ Hall Hin) as (key & _ & g0 & b & Hg0 & Hb & (Hi & Hc & Ho & Hdef) & Hroom).
  rewrite Hg in Hg0. injection Hg0 as <-. specialize (Hroom Hnew).
  destruct (ji_grants _ _ _ Hj _ _ Hg) as ([] & Hres & Hpen). unfold counter in *.
  apply add_Ok in Hr as [-> Hrc]; [|lia|done]. apply bump_Ok in Hp as [-> Hpc]; [|lia]. unfold counter in *.
  assert (Hnb : held bound booked id = (0, 0)) by (unfold held; by rewrite bool_decide_false).
  assert (Hyes : held bound (booked ++ [id]) id = (bound, 1)).
  { unfold held. rewrite bool_decide_true; [done|]. apply elem_of_app. right. by left. }
  split; [|split; [done|]].
  - simpl. apply (jinv_put_grant po (held bound booked) _ id g); [done|done| | | |].
    + split; simpl; try done; try lia. intros Hcl. congruence.
    + rewrite Hyes, Hnb. simpl. lia.
    + rewrite Hyes, Hnb. simpl. lia.
    + intros i Hne. unfold held. rewrite (bool_decide_ext (i ∈ booked ++ [id]) (i ∈ booked)); [done|].
      rewrite elem_of_app, list_elem_of_singleton. naive_solver.
  - eapply Forall2_impl; [exact Hall|]. intros key' id' (g1 & b1 & Hg1 & Hb1 & Ho1 & Hr1). simpl.
    destruct (decide (id' = id)) as [->|Hne].
    + rewrite lookup_insert_eq. rewrite Hg in Hg1. injection Hg1 as <-.
      eexists _, b1. split; [done|]. split; [done|]. split; [exact Ho1|].
      intros Hn. exfalso. apply Hn, elem_of_app. right. by left.
    + rewrite lookup_insert_ne by done. exists g1, b1. split_and!; [done|done|done|].
      intros Hn. apply Hr1. intros Hb'. apply Hn, elem_of_app. by left.
Qed.

Lemma hold_all po j0 n s bound keys chosen :
  counter bound → NoDup chosen →
  hoare (holding po j0 n s bound keys chosen []) (each chosen (hold bound))
    (λ _, holding po j0 n s bound keys chosen chosen).
Proof.
  intros Hb Hnd. apply (hoare_each (holding po j0 n s bound keys chosen) _ chosen []).
  intros booked id todo Hl. simpl in Hl. apply hold_spec; [done| |].
  - rewrite Hl. apply elem_of_app. right. by left.
  - rewrite Hl in Hnd. apply NoDup_app in Hnd as (_ & Hd & _). intros Hin. apply (Hd _ Hin). by left.
Qed.

(** The meters [ids] exist. *)
Definition metered (ids : list string) (tx : TX) : Prop := ∀ id, id ∈ ids → is_Some (Meters (tx_j tx) !! id).

Definition meter_ids (s : Store) (bs : list AuthorityBudget) : list string :=
  (λ b, meterID enc (instance s) (b_Key b) (b_WindowID b)) <$> bs.

Lemma meter_ids_NoDup s bs : NoDup (b_Key <$> bs) → NoDup (meter_ids s bs).
Proof.
  unfold meter_ids. induction bs as [|b bs IH]; [constructor|]. rewrite !fmap_cons, !NoDup_cons.
  intros [Hb Hnd]. split; [|by apply IH]. intros (b' & He & Hin)%list_elem_of_fmap. apply Hb.
  unfold meterID in He. rewrite (enc_key _ _ _ _ _ He). apply list_elem_of_fmap. by exists b'.
Qed.

Lemma meter_of_spec po j0 n s bound keys chosen booked seen s' b :
  hoare (λ tx, holding po j0 n s bound keys chosen booked tx ∧ metered seen tx) (meter_of enc s' b)
    (λ id tx, holding po j0 n s bound keys chosen booked tx ∧ metered (seen ++ [id]) tx
              ∧ id = meterID enc (instance s') (b_Key b) (b_WindowID b)).
Proof.
  apply hoare_get. intros j. set (mid := meterID enc (instance s') (b_Key b) (b_WindowID b)).
  eapply (hoare_bind _ _ _ (λ _ tx, holding po j0 n s bound keys chosen booked tx ∧ metered (seen ++ [mid]) tx));
    [|intros []; apply hoare_ret; naive_solver].
  destruct (is_Some_b _) eqn:Em.
  - apply hoare_ret. intros tx [[Ht Hs] <-]. split; [done|].
    intros id [?| ->%list_elem_of_singleton]%elem_of_app; [auto|]. by apply is_Some_b_spec.
  - apply hoare_modify. intros tx [[(Hj & Hk & Hall) Hs] _]. simpl. split; [split; [|done]|].
    + apply jinv_put_meter; [done|]. unfold meter_ok, counter. simpl. int_lia.
    + intros id [?| ->%list_elem_of_singleton]%elem_of_app; simpl; [|by rewrite lookup_insert_eq].
      apply lookup_insert_is_Some. destruct (decide (mid = id)); auto.
Qed.

Lemma meters_of_spec po j0 n s bound keys chosen booked seen s' bs :
  hoare (λ tx, holding po j0 n s bound keys chosen booked tx ∧ metered seen tx) (meters_of enc s' bs)
    (λ ids tx, holding po j0 n s bound keys chosen booked tx ∧ metered (seen ++ ids) tx ∧ ids = meter_ids s' bs).
Proof.
  revert seen. induction bs as [|b bs IH]; intros seen; simpl.
  { apply hoare_ret. rewrite app_nil_r. naive_solver. }
  eapply hoare_bind; [apply meter_of_spec|]. intros id. simpl.
  eapply hoare_bind.
  - intros tx (Ht & Hm & Hid). specialize (IH (seen ++ [id]) tx (conj Ht Hm)).
    instantiate (1 := λ ids tx, holding po j0 n s bound keys chosen booked tx
      ∧ metered ((seen ++ [id]) ++ ids) tx ∧ id :: ids = meter_ids s' (b :: bs)).
    destruct (meters_of enc s' bs tx) as [[ids|e] tx']; [|done]. destruct IH as (? & ? & ->).
    split_and!; try done. unfold meter_ids. simpl. by rewrite Hid.
  - intros ids. apply hoare_ret. intros tx (Ht & Hs & He). split_and!; [done| |done]. by rewrite <- app_assoc in Hs.
Qed.

(** ** [Reserve]'s transaction *)

(** The grant [id] backs the budget [key] of [j]. *)
Definition backs (s : Store) (j0 j : journal) (key id : string) : Prop :=
  ∃ g b, Grants j !! id = Some g ∧ Budgets j0 !! key = Some b ∧ own s g b
    ∧ g_Consumed g + owed j id <= ag_Amount (g_Wire g).

(** A permit as [Reserve] records it. *)
Definition issued (s : Store) (j0 j : journal) (subject : Subject) (bound : Z) (now : Time) (p : BudgetPermit) : Prop :=
  ∃ chosen meters,
    bp_Bound p = bound ∧ bp_InvalidUsage p = false ∧ Poisoned j0 = false ∧ j_Ready j0 = true
    ∧ Permits j = <[bp_ID p := mkPermit (instance s) bound chosen meters false false None false false]> (Permits j0)
    ∧ Permits j0 !! bp_ID p = None
    ∧ Forall2 (backs s j0 j) (hard_keys j0 subject (sortedKeys (Budgets j0))) chosen
    ∧ ∀ k, subject_to j0 subject k = true → Before now (default zeroTime (windows s !! k)) = true.

(** The identifiers still to be read name no permit. *)
Definition fresh (j : journal) (n : nat) : Prop := ∀ k id, (n <= k)%nat → nonces k = Some id → Permits j !! id = None.

Lemma subject_to_key j subject k : subject_to j subject k = true → k ∈ sortedKeys (Budgets j).
Proof. unfold subject_to. intros Hs. apply sortedKeys_elem. by destruct (Budgets j !! k) eqn:E. Qed.

(** The end of the body, once the grants are chosen. *)
Lemma issue_spec s subject bound now j0 n c :
  fresh j0 n → counter bound → Poisoned j0 = false → j_Ready j0 = true → keyed j0 →
  NoDup (b_Key <$> c_soft c) →
  (∀ k, k ∈ sortedKeys (Budgets j0) → subject_to j0 subject k = true → Before now (default zeroTime (windows s !! k)) = true) →
  hoare (picking false none j0 n s now bound (hard_keys j0 subject (sortedKeys (Budgets j0))) (c_chosen c))
    (issue enc nonces s bound c)
    (λ r tx, escrow_inv (tx_j tx) ∧ Poisoned (tx_j tx) = Poisoned j0 ∧ Budgets (tx_j tx) = Budgets j0 ∧
      match r with
      | (None, Some p, _) => issued s j0 (tx_j tx) subject bound now p
      | (e, _, _) => is_Some e ∧ Permits (tx_j tx) = Permits j0
      end).
Proof.
  intros Hfresh Hbound Hpo Hrd Hkeyed Hsoft Hwin. set (keys := hard_keys j0 subject (sortedKeys (Budgets j0))).
  unfold issue. destruct c as [chosen soft denied expires]. cbn [c_chosen c_soft c_expires] in *.
  intros tx0 Hpick. assert (Hnd : NoDup chosen).
  { destruct Hpick as (_ & _ & Hr). eapply room_NoDup; [done| |exact Hr]. apply NoDup_filter, sortedKeys_NoDup. }
  revert tx0 Hpick.
  eapply (hoare_bind _ _ _ (λ pid tx, holding false j0 n s bound keys chosen [] tx ∧ Permits j0 !! pid = None)).
  { intros tx (Hj & Hk & Hr). unfold nonce. destruct (nonces (tx_nonces tx)) as [pid|] eqn:En; simpl; [|done].
    split; [split; [|split]|].
    - apply (jinv_ext _ none); [|done]. intros id. unfold held. by rewrite bool_decide_false by apply not_elem_of_nil.
    - destruct Hk as (? & ? & ? & ?). split_and!; try done. simpl. lia.
    - eapply Forall2_impl; [exact Hr|]. intros key id (g & b & Hg & Hb & Hu & H0 & Hroom). exists g, b.
      split_and!; [done|done|by eapply usable_own|done].
    - apply (Hfresh (tx_nonces tx)); [apply Hk|done]. }
  intros pid. eapply (hoare_bind _ _ _ (λ _ tx, holding false j0 n s bound keys chosen chosen tx ∧ Permits j0 !! pid = None)).
  { intros tx [Ht Hpid]. pose proof (hold_all false j0 n s bound keys chosen Hbound Hnd tx Ht) as Hh.
    destruct (each chosen (hold bound) tx) as [[[]|e] tx']; [by split|done]. }
  intros []. eapply (hoare_bind _ _ _ (λ ids tx, holding false j0 n s bound keys chosen chosen tx ∧ metered ids tx ∧ NoDup ids ∧ Permits j0 !! pid = None)).
  { intros tx [Ht Hpid]. pose proof (meters_of_spec false j0 n s bound keys chosen chosen [] s soft tx) as Hm.
    assert (Hseen : metered [] tx) by (by intros ? ?%not_elem_of_nil). specialize (Hm (conj Ht Hseen)).
    destruct (meters_of enc s soft tx) as [[ids|e] tx']; [|done]. destruct Hm as (? & ? & ->).
    split_and!; try done. by apply meter_ids_NoDup. }
  intros ids. set (p := mkPermit (instance s) bound chosen ids false false None false false).
  eapply (hoare_bind _ _ _ (λ _ tx, escrow_inv (tx_j tx) ∧ Poisoned (tx_j tx) = Poisoned j0 ∧ Budgets (tx_j tx) = Budgets j0
           ∧ issued s j0 (tx_j tx) subject bound now (mkBudgetPermit pid bound false)));
    [|intros []; apply hoare_ret; naive_solver].
  apply hoare_modify. intros tx ((Hj & (Hps & Hbs & Hp0 & _) & Hall) & Hm & Hids & Hpid).
  assert (Hinv : jinv false none (with_Permits (<[pid := p]> (Permits (tx_j tx))) (tx_j tx))).
  { apply (jinv_new_permit _ (held bound chosen)); [done|by rewrite Hps| |].
    - split; [done|]. split; [done|]. split; [done|]. split; [|done]. intros id Hin.
      destruct (Forall2_elem_r _ _ _ _ Hall Hin) as (key & _ & g & b & Hg & _). by exists g.
    - intros id. unfold held, due, pending. simpl. by case_bool_decide. }
  simpl. split_and!; [|done|done|].
  - unfold escrow_inv. simpl. by rewrite Hp0, Hpo.
  - exists chosen, ids. simpl. rewrite Hps. split_and!; try done.
    + eapply Forall2_impl; [exact Hall|]. intros key id (g & b & Hg & Hb & Ho & _). exists g, b. split_and!; try done.
      destruct (ji_grants _ _ _ Hinv id g Hg) as ([] & Hres & _). simpl in Hres. rewrite Hps in Hres.
      destruct Ho as (_ & _ & Hov & _). specialize (go_fits0 Hov). lia.
    + intros k Hk. apply Hwin; [by eapply subject_to_key|done].
Qed.

Lemma reserve_body_spec s subject bound now j0 n :
  escrow_inv j0 → fresh j0 n → counter bound →
  hoare (λ tx, tx_j tx = j0 ∧ tx_nonces tx = n) (reserve_body enc nonces range s subject bound now)
    (λ r tx, escrow_inv (tx_j tx) ∧ Poisoned (tx_j tx) = Poisoned j0 ∧ Budgets (tx_j tx) = Budgets j0 ∧
      match r with
      | (None, Some p, _) => issued s j0 (tx_j tx) subject bound now p
      | (e, _, _) => is_Some e ∧ Permits (tx_j tx) = Permits j0
      end).
Proof.
  intros Hinv Hfresh Hbound. apply hoare_get. intros j.
  eapply (hoare_pre _ (λ tx, tx_j tx = j0 ∧ tx_nonces tx = n ∧ j = j0)); [|naive_solver].
  destruct (Poisoned j) eqn:Epo; [apply hoare_early|]. destruct (j_Ready j) eqn:Erd; [|apply hoare_early]. simpl.
  assert (Hkeyed : keyed j0) by (intros k b; apply (ji_budgets _ _ _ Hinv)).
  eapply (hoare_bind _ _ _ (λ _ tx, jinv (Poisoned j0) none (tx_j tx) ∧ kept j0 n tx ∧ j = j0)).
  { eapply hoare_pre; [apply (closeInactive_spec _ _ (λ tx, kept j0 n tx ∧ j = j0))|].
    - intros id tx g seq [? ?] _ _ _. by split.
    - intros tx (<- & <- & ->). split; [done|]. split; [|done]. by split_and!. }
  intros []. apply hoare_get. intros j1.
  eapply (hoare_pre _ (λ tx, chose (Poisoned j0) none j0 n s now bound subject [] (mkChoice [] [] None zeroTime) tx
                             ∧ Budgets j1 = Budgets j0 ∧ j = j0)).
  2:{ intros tx [(Hj & Hk & Hjj) Ht]. subst j1 j. split; [|split; [apply Hk|done]].
    exists []. split; [|split; [constructor|split; [done|]]].
    - split; [done|]. split; [done|constructor].
    - split; [constructor|]. split; [done|]. intros _. split; [done|]. by intros k ?%not_elem_of_nil. }
  intros tx (Hch & HB & ->).
  pose proof (choose_spec (Poisoned j0) none j0 n s now bound subject [] (sortedKeys (Budgets j1))
                (mkChoice [] [] None zeroTime) Hkeyed (sortedKeys_NoDup _) tx Hch) as Hc.
  unfold mbind at 1, ste_mbind at 1. destruct (choose _ _ _ _ _ _ _ tx) as [[c|e] tx1]; [|done]. simpl in Hc.
  destruct Hc as (keys & (Hj1 & Hk1 & Hr1) & Hnd & _ & Hsoft & _ & Hnone). rewrite HB in Hnone.
  assert (Hpo1 : Poisoned (tx_j tx1) = Poisoned j0) by apply Hk1.
  destruct (c_denied c) as [e|] eqn:Ed.
  { simpl. split_and!; [by unfold escrow_inv; rewrite Hpo1|done|apply Hk1|by eexists|apply Hk1]. }
  destruct (Hnone eq_refl) as [-> Hwin].
  apply (issue_spec s subject bound now j0 n c); try done. rewrite <- Epo. by split_and!.
Qed.

End Inv.
