(* ===== verification/EscrowSettle.v ===== *)
(** * Settlement of a permit (internal/authority/local/admission.go)

    [Finish] and the release of a permit that was never dispatched, on every
    branch: the invariant is kept, a settlement charges each grant and meter
    of the permit exactly once, and one that does not fit closes admission. *)

From S2P Require Import Prelude GoTime Denial Governor Escrow EscrowSafety.

#[local] Abbreviation hoare := (Prelude.hoare (S := TX) (E := AdmissionError)).

(** ** What a settlement changes *)

Definition spent (g : grant) : Z * Z := (g_Consumed g, g_Observed g).

(** The grants [ids] spent [c], of which [o] observed; the others nothing. *)
Definition shifted (ids : list string) (c o : Z) (j0 j : journal) : Prop :=
  ∀ id, spent <$> Grants j !! id
    = (λ g, if bool_decide (id ∈ ids) then (g_Consumed g + c, g_Observed g + o) else spent g) <$> Grants j0 !! id.

(** The bound leaves the grants [ids]. *)
Definition back (bound : Z) (ids : list string) (id : string) : Z * Z :=
  if bool_decide (id ∈ ids) then (- bound, -1) else (0, 0).

Lemma back_in bound ids id : id ∈ ids → back bound ids id = (- bound, -1).
Proof. intros. unfold back. by rewrite bool_decide_true. Qed.

Lemma back_out bound ids id : id ∉ ids → back bound ids id = (0, 0).
Proof. intros. unfold back. by rewrite bool_decide_false. Qed.

Lemma back_snoc bound ids id i : i ≠ id → back bound (ids ++ [id]) i = back bound ids i.
Proof.
  intros Hne. unfold back. rewrite (bool_decide_ext (i ∈ ids ++ [id]) (i ∈ ids)); [done|].
  rewrite elem_of_app, list_elem_of_singleton. naive_solver.
Qed.

Lemma elem_of_snoc (ids : list string) id : id ∈ ids ++ [id].
Proof. apply elem_of_app. right. by left. Qed.

(** The permit [p] among those pending on [id]. *)
Lemma owed_with j pid p id :
  Permits j !! pid = Some p → p_Done p = false → id ∈ p_Grants p →
  npending j id - 1 = 0 → owed j id - p_Bound p = 0.
Proof.
  intros Hp Hd Hin Hn. unfold owed, npending in *.
  assert (Hdue : due id p = p_Bound p ∧ pending id p = 1).
  { unfold due, pending. by rewrite Hd, !bool_decide_true. }
  destruct Hdue as [H1 H2]. rewrite <- H1, <- H2 in *. rewrite <- !(sum_map_delete _ _ _ _ Hp) in *.
  by apply sum_pending_zero.
Qed.

Lemma shifted_put ids c o j0 j id g' g :
  shifted ids c o j0 j → Grants j !! id = Some g → id ∉ ids →
  spent g' = (g_Consumed g + c, g_Observed g + o) →
  shifted (ids ++ [id]) c o j0 (with_Grants (<[id := g']> (Grants j)) j).
Proof.
  intros Hs Hg Hn Hsp i. simpl. specialize (Hs i). destruct (decide (i = id)) as [->|Hne].
  - rewrite lookup_insert_eq. simpl. rewrite Hsp. rewrite Hg in Hs. rewrite bool_decide_false in Hs by done.
    rewrite bool_decide_true by apply elem_of_snoc.
    destruct (Grants j0 !! id) as [g0|]; simpl in *; [|done]. unfold spent in Hs. by injection Hs as -> ->.
  - rewrite lookup_insert_ne by done. rewrite Hs.
    rewrite (bool_decide_ext (i ∈ ids ++ [id]) (i ∈ ids)); [done|].
    rewrite elem_of_app, list_elem_of_singleton. naive_solver.
Qed.

(** A change of a grant that spends nothing. *)
Lemma shifted_same ids c o j0 j id g' g :
  shifted ids c o j0 j → Grants j !! id = Some g → spent g' = spent g →
  shifted ids c o j0 (with_Grants (<[id := g']> (Grants j)) j).
Proof.
  intros Hs Hg Hsp i. simpl. rewrite <- (Hs i). destruct (decide (i = id)) as [->|Hne].
  - by rewrite lookup_insert_eq, Hg; simpl; rewrite Hsp.
  - by rewrite lookup_insert_ne.
Qed.

Lemma shifted_survives ids c o j0 id : survives_close (λ tx, shifted ids c o j0 (tx_j tx)) id.
Proof. intros tx g seq Hs Hg _ _. by apply (shifted_same _ _ _ _ _ _ _ g). Qed.

Lemma shifted_refl c o j : shifted [] c o j j.
Proof. intros id. by rewrite bool_decide_false by apply not_elem_of_nil. Qed.

(** ** The charge *)

Definition actual_ok (actual : option Z) : Prop := match actual with Some n => counter n | None => True end.

Lemma charge_spec bound actual complete c o :
  counter bound → actual_ok actual → charge bound actual complete = (c, o) →
  counter c ∧ counter o ∧ o <= c ∧ (o <= bound → c <= bound) ∧ (o = 0 ∨ actual = Some o).
Proof.
  unfold charge, actual_ok, counter. destruct actual as [n|]; [|intros; simplify_eq; split_and!; try lia; by left].
  intros Hb Hn [= <- <-]. destruct (complete || (bound <? n))%bool eqn:E; split_and!; try lia; try (by right).
Qed.

(** A grant with the reservation a settlement needs. *)
Definition settleable (bound c o : Z) (g : grant) : Prop :=
  g_Closed g = false ∧ 0 < g_Pending g ∧ bound <= g_Reserved g ∧ fits c o (g_Consumed g) (g_Observed g) (g_Sequence g) = true.

Lemma check_grants_spec bound c o ids tx fit tx' :
  check_grants bound c o ids tx = (Ok fit, tx') →
  tx' = tx ∧ (fit = true → ∀ id, id ∈ ids → ∃ g, Grants (tx_j tx) !! id = Some g ∧ settleable bound c o g).
Proof.
  revert tx. induction ids as [|id ids IH]; intros tx; cbn [check_grants].
  { intros [= <- <-]. split; [done|]. by intros _ id ?%not_elem_of_nil. }
  unfold tx_grant, mbind, ste_mbind, tx_get, tx_lift. simpl.
  destruct (Grants (tx_j tx) !! id) as [g|] eqn:Eg; simpl; [|done].
  destruct (_ || _)%bool eqn:E; [done|]. bsplit. destruct (fits _ _ _ _ _) eqn:Ef; [|intros [= <- <-]; done].
  intros Hrun. destruct (IH _ Hrun) as [-> Hall]. split; [done|].
  intros Hfit i [->|Hi]%elem_of_cons; [|by apply Hall]. exists g. split; [done|]. split_and!; try done; lia.
Qed.

Definition meter_fits (c o : Z) (m : meter) : Prop :=
  fits c o (am_Consumed (m_Wire m)) (am_Observed (m_Wire m)) (am_Sequence (m_Wire m)) = true.

Lemma check_meters_spec c o ids tx fit tx' :
  check_meters c o ids tx = (Ok fit, tx') →
  tx' = tx ∧ (fit = true → ∀ id, id ∈ ids → ∃ m, Meters (tx_j tx) !! id = Some m ∧ meter_fits c o m).
Proof.
  revert tx. induction ids as [|id ids IH]; intros tx; cbn [check_meters].
  { intros [= <- <-]. split; [done|]. by intros _ id ?%not_elem_of_nil. }
  unfold tx_meter, mbind, ste_mbind, tx_get, tx_lift. simpl.
  destruct (Meters (tx_j tx) !! id) as [m|] eqn:Em; simpl; [|done].
  destruct (fits _ _ _ _ _) eqn:Ef; [|intros [= <- <-]; done].
  intros Hrun. destruct (IH _ Hrun) as [-> Hall]. split; [done|].
  intros Hfit i [->|Hi]%elem_of_cons; [|by apply Hall]. by exists m.
Qed.

Lemma settlement_fits_spec p c o tx fit tx' :
  settlement_fits p c o tx = (Ok fit, tx') →
  tx' = tx ∧ (fit = true →
    (∀ id, id ∈ p_Grants p → ∃ g, Grants (tx_j tx) !! id = Some g ∧ settleable (p_Bound p) c o g)
    ∧ ∀ id, id ∈ p_Meters p → ∃ m, Meters (tx_j tx) !! id = Some m ∧ meter_fits c o m).
Proof.
  unfold settlement_fits, mbind, ste_mbind.
  destruct (check_grants _ _ _ _ tx) as [[fg|e] tx1] eqn:Eg; [|done].
  destruct (check_grants_spec _ _ _ _ _ _ _ Eg) as [-> Hg]. destruct fg; [|intros [= <- <-]; done].
  intros Hm. destruct (check_meters_spec _ _ _ _ _ _ Hm) as [-> Hms]. split; [done|]. auto.
Qed.

(** ** The loops of [Finish] *)

Lemma fits_spec c o gc go gs :
  fits c o gc go gs = true → counter c → counter o → 0 <= gc → 0 <= go → 0 < gs →
  wrap64 (gc + c) = gc + c ∧ wrap64 (go + o) = go + o ∧ wrap64 (gs + 1) = gs + 1
  ∧ counter (gc + c) ∧ counter (go + o) ∧ counter (gs + 1).
Proof.
  unfold fits. intros Hf Hc Ho H1 H2 H3. bsplit.
  destruct (add_is_ok gc c) as [? ?]; [done..|]. destruct (add_is_ok go o) as [? ?]; [done..|].
  destruct (add_is_ok gs 1) as [? ?]; [done|lia|unfold counter; int_lia|]. by split_and!.
Qed.

(** Under way in [Finish]: the permit is still pending, the grants [booked]
    are settled and the others still can be. *)
Definition settling po j0 pid p c o (booked : list string) (tx : TX) : Prop :=
  jinv po (back (p_Bound p) booked) (tx_j tx) ∧ Permits (tx_j tx) = Permits j0 ∧ Permits j0 !! pid = Some p
  ∧ shifted booked c o j0 (tx_j tx)
  ∧ (∀ id, id ∈ p_Grants p → id ∉ booked → ∃ g, Grants (tx_j tx) !! id = Some g ∧ settleable (p_Bound p) c o g)
  ∧ Meters (tx_j tx) = Meters j0 ∧ Poisoned (tx_j tx) = Poisoned j0.

Lemma settle_grant_ok po x j id g bound c o overrun pid p :
  jinv po x j → Grants j !! id = Some g → x id = (0, 0) → settleable bound c o g →
  counter bound → counter c → counter o → o <= c → (overrun = false → c <= bound) → (overrun = true → po = true) →
  Permits j !! pid = Some p → p_Done p = false → id ∈ p_Grants p → p_Bound p = bound →
  grant_ok po id (mkGrant (g_Wire g) (g_Instance g) (wrap64 (g_Consumed g + c)) (wrap64 (g_Observed g + o))
    (wrap64 (g_Reserved g - bound)) (g_Pending g - 1) (g_Closed g || ((g_Overrun g || overrun) && (g_Pending g - 1 =? 0)))
    (g_Overrun g || overrun) (wrap64 (g_Sequence g + 1)) (g_Ack g) (g_Sent g)).
Proof.
  intros Hj Hg Hx (Hcl & Hpen & Hres & Hfit) Hb Hc Ho Hoc Hov Hpo Hp Hd Hin Hbd.
  destruct (ji_grants _ _ _ Hj _ _ Hg) as ([] & Hr & Hn). rewrite Hx in Hr, Hn. simpl in Hr, Hn.
  destruct (fits_spec _ _ _ _ _ Hfit) as (-> & -> & -> & ? & ? & ?); try done; try lia.
  unfold counter in *. rewrite (wrap64_id (g_Reserved g - bound)) by int_lia.
  split; simpl; unfold counter; try done; try lia.
  - intros Hclose. rewrite Hcl in Hclose. simpl in Hclose. bsplit.
    pose proof (owed_with j pid p id Hp Hd Hin). lia.
  - intros Hno. apply orb_false_iff in Hno as [Hg0 Ho0]. specialize (go_fits Hg0). specialize (Hov Ho0). lia.
  - intros Hyes. apply orb_true_iff in Hyes as [?|?]; auto.
Qed.

Lemma settle_grant_spec po j0 pid p c o overrun booked id :
  counter (p_Bound p) → counter c → counter o → o <= c → (overrun = false → c <= p_Bound p) → (overrun = true → po = true) →
  p_Done p = false → id ∈ p_Grants p → id ∉ booked →
  hoare (settling po j0 pid p c o booked) (settle_grant (p_Bound p) c o overrun id)
    (λ _, settling po j0 pid p c o (booked ++ [id])).
Proof.
  intros Hb Hc Ho Hoc Hov Hpo Hd Hin Hnew. apply hoare_grant. intros g. apply hoare_modify.
  intros tx [(Hj & Hps & Hp & Hsh & Hrest & Hms & Hpp) Hg].
  destruct (Hrest id Hin Hnew) as (g0 & Hg0 & Hset). rewrite Hg in Hg0. injection Hg0 as <-.
  assert (Hok : grant_ok po id _) by
    (eapply (settle_grant_ok po _ (tx_j tx) id g (p_Bound p) c o overrun pid p); try done;
     [by apply back_out|by rewrite Hps]).
  destruct Hset as (_ & _ & Hres & Hfit). destruct (ji_grants _ _ _ Hj _ _ Hg) as (Hgo & _ & _).
  destruct Hgo. destruct (fits_spec _ _ _ _ _ Hfit) as (Ec & Eo & _); try done; try lia.
  simpl. split; [|split; [done|split; [done|split; [|split; [|done]]]]].
  - apply (jinv_put_grant po (back (p_Bound p) booked) _ id g); [done|done|exact Hok| | |].
    + rewrite (back_in _ _ _ (elem_of_snoc booked id)), back_out by done. simpl. unfold counter in *.
      rewrite wrap64_id by int_lia. lia.
    + rewrite (back_in _ _ _ (elem_of_snoc booked id)), back_out by done. simpl. lia.
    + intros i Hne. by apply back_snoc.
  - apply (shifted_put _ _ _ _ _ _ _ g); [done..|]. unfold spent. simpl. by rewrite Ec, Eo.
  - intros i Hi Hni. simpl. destruct (decide (i = id)) as [->|Hne]; [exfalso; apply Hni, elem_of_snoc|].
    rewrite lookup_insert_ne by done. apply Hrest; [done|]. intros Hb'. apply Hni, elem_of_app. by left.
Qed.

(** The grants are settled, the meters [booked] too. *)
Definition metering po j0 pid p c o (booked : list string) (tx : TX) : Prop :=
  jinv po (back (p_Bound p) (p_Grants p)) (tx_j tx) ∧ Permits (tx_j tx) = Permits j0 ∧ Permits j0 !! pid = Some p
  ∧ shifted (p_Grants p) c o j0 (tx_j tx)
  ∧ (∀ id, id ∈ p_Meters p → id ∉ booked → ∃ m, Meters (tx_j tx) !! id = Some m ∧ meter_fits c o m)
  ∧ Poisoned (tx_j tx) = Poisoned j0.

Lemma settle_meter_spec po j0 pid p c o booked id :
  counter c → counter o → id ∈ p_Meters p → id ∉ booked →
  hoare (metering po j0 pid p c o booked) (settle_meter c o id) (λ _, metering po j0 pid p c o (booked ++ [id])).
Proof.
  intros Hc Ho Hin Hnew. apply hoare_meter. intros m. apply hoare_modify.
  intros tx [(Hj & Hps & Hp & Hsh & Hrest & Hpp) Hm].
  destruct (Hrest id Hin Hnew) as (m0 & Hm0 & Hfit). rewrite Hm in Hm0. injection Hm0 as <-.
  destruct (ji_meters _ _ _ Hj _ _ Hm) as (Hmc & Hmo & Hms & Hma & Hmx). unfold counter in *.
  destruct (fits_spec _ _ _ _ _ Hfit) as (Ec & Eo & Es & ? & ? & ?); try done; try lia.
  simpl. split; [|split; [done|split; [done|split; [done|split; [|done]]]]].
  - apply jinv_put_meter; [done|]. unfold meter_ok, counter in *. simpl. rewrite Ec, Eo, Es. lia.
  - intros i Hi Hni. simpl. destruct (decide (i = id)) as [->|Hne]; [exfalso; apply Hni, elem_of_snoc|].
    rewrite lookup_insert_ne by done. apply Hrest; [done|]. intros Hb'. apply Hni, elem_of_app. by left.
Qed.

(** A settled permit. *)
Definition settled_permit (p : permit) (actual : option Z) (complete invalidUsage : bool) : permit :=
  mkPermit (p_Instance p) (p_Bound p) (p_Grants p) (p_Meters p) true complete
    (match actual with Some n => Some n | None => p_Actual p end) (p_Retired p) invalidUsage.

Lemma due_done id p p' : p_Done p = false → p_Done p' = true →
  (back (p_Bound p) (p_Grants p) id).1 = due id p' - due id p
  ∧ (back (p_Bound p) (p_Grants p) id).2 = pending id p' - pending id p.
Proof. intros Hd Hd'. unfold back, due, pending. rewrite Hd, Hd'. case_bool_decide; simpl; lia. Qed.

(** Two loops and the permit: what a settlement that fits does. *)
Lemma settle_all_spec {B} (k : STE TX AdmissionError B) Q po j0 pid p c o overrun p' :
  counter c → counter o → o <= c → (overrun = false → c <= p_Bound p) → (overrun = true → po = true) →
  p_Done p = false → p_Done p' = true → permit_ok j0 p →
  p_Bound p' = p_Bound p → p_Grants p' = p_Grants p → p_Meters p' = p_Meters p →
  hoare (λ tx, jinv po none (tx_j tx) ∧ Permits (tx_j tx) = <[pid := p']> (Permits j0)
             ∧ shifted (p_Grants p) c o j0 (tx_j tx) ∧ Poisoned (tx_j tx) = Poisoned j0) k Q →
  hoare (λ tx, settling po j0 pid p c o [] tx
          ∧ ∀ id, id ∈ p_Meters p → ∃ m, Meters (tx_j tx) !! id = Some m ∧ meter_fits c o m)
    (_ ← each (p_Grants p) (settle_grant (p_Bound p) c o overrun);
     _ ← each (p_Meters p) (settle_meter c o);
     _ ← put_permit pid p'; k) Q.
Proof.
  intros Hc Ho Hoc Hov Hpo Hd Hd' (Hb & Hndg & Hndm & _ & _) Eb Eg Em Hk.
  eapply (hoare_bind _ _ _ (λ _ tx, settling po j0 pid p c o (p_Grants p) tx
    ∧ ∀ id, id ∈ p_Meters p → ∃ m, Meters (tx_j tx) !! id = Some m ∧ meter_fits c o m)).
  { intros tx [Hs Hms].
    pose proof (hoare_each (settling po j0 pid p c o) (settle_grant (p_Bound p) c o overrun) (p_Grants p) []) as He.
    assert (Hm0 : Meters (tx_j tx) = Meters j0) by apply Hs. rewrite Hm0 in Hms.
    assert (He' : hoare (settling po j0 pid p c o []) (each (p_Grants p) (settle_grant (p_Bound p) c o overrun))
              (λ _, settling po j0 pid p c o (p_Grants p))).
    { apply He. intros booked id todo Hl. simpl in Hl. apply settle_grant_spec; try done.
      - rewrite Hl. apply elem_of_app. right. by left.
      - rewrite Hl in Hndg. apply NoDup_app in Hndg as (_ & Hdj & _). intros Hin. apply (Hdj _ Hin). by left. }
    specialize (He' tx Hs). destruct (each (p_Grants p) _ tx) as [[[]|e] tx']; [|done]. split; [done|].
    assert (Hm1 : Meters (tx_j tx') = Meters j0) by apply He'. by rewrite Hm1. }
  intros []. eapply (hoare_bind _ _ _ (λ _, metering po j0 pid p c o (p_Meters p))).
  { eapply (hoare_pre _ (metering po j0 pid p c o [])).
    - apply (hoare_each (metering po j0 pid p c o) (settle_meter c o) (p_Meters p) []).
      intros booked id todo Hl. simpl in Hl. apply settle_meter_spec; try done.
      + rewrite Hl. apply elem_of_app. right. by left.
      + rewrite Hl in Hndm. apply NoDup_app in Hndm as (_ & Hdj & _). intros Hin. apply (Hdj _ Hin). by left.
    - intros tx [(Hj & Hps & Hp & Hsh & _ & _ & Hpp) Hms]. split_and!; try done. auto. }
  intros []. eapply hoare_seq; [|exact Hk].
  apply hoare_modify. intros tx (Hj & Hps & Hp & Hsh & _ & Hpp). simpl. split_and!; [|by rewrite Hps|done..].
  assert (Hp' : Permits (tx_j tx) !! pid = Some p) by (by rewrite Hps).
  eapply (jinv_change_permit po _ pid p p'); [exact Hj|done| |].
  - destruct (ji_permits _ _ _ Hj _ _ Hp') as (? & ? & ? & ? & ?). unfold permit_ok. rewrite Eb, Eg, Em. by split_and!.
  - intros id. by apply due_done.
Qed.

(** [poison] keeps the reservation and refuses admission from now on. *)
Lemma poison_spec j0 pid p invalidUsage actual :
  permit_ok j0 p → Permits j0 !! pid = Some p →
  hoare (λ tx, jinv true none (tx_j tx) ∧ tx_j tx = j0) (poison pid p invalidUsage actual)
    (λ _ tx, jinv true none (tx_j tx) ∧ Poisoned (tx_j tx) = true ∧ shifted [] 0 0 j0 (tx_j tx)).
Proof.
  intros Hok Hp. set (R := λ tx, jinv true none (tx_j tx) ∧ Permits (tx_j tx) = Permits j0
    ∧ Poisoned (tx_j tx) = true ∧ shifted [] 0 0 j0 (tx_j tx)).
  eapply (hoare_bind _ _ _ (λ _, R)).
  { apply hoare_modify. intros tx [Hj Hj0]. split; [by apply (jinv_other true none (tx_j tx))|]. split; [simpl; by rewrite Hj0|]. split; [done|].
    rewrite <- Hj0. exact (λ id, shifted_refl 0 0 (tx_j tx) id). }
  intros []. eapply (hoare_bind _ _ _ (λ _, R)).
  { destruct invalidUsage; [|by apply hoare_ret]. apply hoare_each_inv. intros id _. apply hoare_grant. intros g.
    apply hoare_modify. intros tx [(Hj & Hps & Hpo & Hsh) Hg]. simpl. split_and!; [|done|done|].
    - eapply jinv_update_grant; try done. destruct (ji_grants _ _ _ Hj _ _ Hg) as ([] & _). by split.
    - by apply (shifted_same _ _ _ _ _ _ _ g). }
  intros []. apply hoare_modify. intros tx (Hj & Hps & Hpo & Hsh). simpl. split_and!; [|done|done].
  eapply (jinv_change_permit true none pid p); [done|by rewrite Hps| |].
  - by destruct (ji_permits _ _ _ Hj pid p ltac:(by rewrite Hps)) as (? & ? & ? & ? & ?).
  - intros id. unfold none. simpl. split; unfold due, pending; simpl; lia.
Qed.

Section Finish.
Context (range : ∀ A, gmap string A → list (string * A)).

(** What [Finish] has decided about permit [p] of [j0]. *)
Inductive finished (s : Store) (j0 : journal) (a : BudgetPermit) (actual : option Z) (complete : bool) (p : permit)
    : option AdmissionError → journal → Prop :=
| finished_again :
    p_Done p = true → p_Complete p = complete → p_InvalidUsage p = bp_InvalidUsage a → p_Actual p = actual →
    finished s j0 a actual complete p None j0
| finished_poisoned j :
    p_Done p = false → Poisoned j = true → shifted [] 0 0 j0 j →
    finished s j0 a actual complete p (Some invalid) j
| finished_now c o j :
    p_Done p = false → p_Instance p = instance s → charge (p_Bound p) actual complete = (c, o) →
    Permits j = <[bp_ID a := settled_permit p actual complete (bp_InvalidUsage a)]> (Permits j0) →
    shifted (p_Grants p) c o j0 j →
    Poisoned j = (Poisoned j0 || bp_InvalidUsage a || (p_Bound p <? o))%bool →
    finished s j0 a actual complete p None j.

(** Once the permit is recorded: admission may close, and idle grants do. *)
Lemma finish_end_spec s a actual complete now j0 p c o po overrun :
  po = (Poisoned j0 || overrun)%bool → p_Done p = false → p_Instance p = instance s →
  charge (p_Bound p) actual complete = (c, o) → po = (Poisoned j0 || bp_InvalidUsage a || (p_Bound p <? o))%bool →
  hoare (λ tx, jinv po none (tx_j tx)
          ∧ Permits (tx_j tx) = <[bp_ID a := settled_permit p actual complete (bp_InvalidUsage a)]> (Permits j0)
          ∧ shifted (p_Grants p) c o j0 (tx_j tx) ∧ Poisoned (tx_j tx) = Poisoned j0)
    (_ ← tx_modify (λ j, with_Poisoned (Poisoned j || overrun) j); _ ← closeInactive range s now; mret None)
    (λ r tx, escrow_inv (tx_j tx) ∧ finished s j0 a actual complete p r (tx_j tx)).
Proof.
  intros Epo Ed Ei Ec Hpo.
  set (R := λ tx, Permits (tx_j tx) = <[bp_ID a := settled_permit p actual complete (bp_InvalidUsage a)]> (Permits j0)
        ∧ shifted (p_Grants p) c o j0 (tx_j tx) ∧ Poisoned (tx_j tx) = po).
  apply (hoare_seq _ (λ tx, jinv po none (tx_j tx) ∧ R tx)).
  { apply hoare_modify. intros tx (Hj & Hp & Hs & Hpp). split; [by apply (jinv_other po none (tx_j tx))|].
    split_and!; [done..|]. simpl. by rewrite Hpp. }
  apply (hoare_seq _ (λ tx, jinv po none (tx_j tx) ∧ R tx)).
  { apply closeInactive_spec. intros id tx g seq (Hp & Hs & Hpp) Hg Hcl Hpn. split_and!; [done| |done].
    by apply (shifted_survives _ _ _ _ id tx g seq). }
  apply hoare_ret. intros tx (Hj & Hp & Hs & Hpp). split; [unfold escrow_inv; by rewrite Hpp|].
  eapply finished_now; try done. by rewrite Hpp.
Qed.

Lemma finish_body_spec s a actual complete now j0 :
  escrow_inv j0 → actual_ok actual →
  hoare (λ tx, tx_j tx = j0) (finish_body range s a actual complete now)
    (λ r tx, escrow_inv (tx_j tx) ∧ ∃ p, Permits j0 !! bp_ID a = Some p ∧ p_Bound p = bp_Bound a ∧ p_Retired p = false
             ∧ finished s j0 a actual complete p r (tx_j tx)).
Proof.
  intros Hinv Hact. apply hoare_get. intros j. apply (hoare_pre _ (λ tx, tx_j tx = j0 ∧ j = j0)); [|naive_solver].
  destruct (Permits j !! bp_ID a) as [p|] eqn:Ep; [|apply hoare_early].
  destruct (_ || _)%bool eqn:E1; [apply hoare_early|]. bsplit.
  destruct (p_Done p) eqn:Ed.
  { destruct (_ || _)%bool eqn:E2; [apply hoare_early|]. apply hoare_ret. intros tx [-> ->]. split; [done|].
    exists p. bsplit. unfold equalActual in *. bsplit. split_and!; try done; try lia.
    apply finished_again; try done; by apply eqb_prop. }
  destruct (negb _) eqn:E2; [apply hoare_early|]. bsplit.
  destruct (charge _ _ _) as [c o] eqn:Ec.
  intros tx [Hj0 ->]. destruct (ji_permits _ _ _ Hinv _ _ Ep) as (Hb & Hndg & Hndm & Hpg & Hpm).
  destruct (charge_spec _ _ _ _ _ Hb Hact Ec) as (Hc & Ho & Hoc & Hle & _).
  unfold mbind at 1, ste_mbind at 1. destruct (settlement_fits p c o tx) as [[fit|e] tx'] eqn:Ef; [|done].
  destruct (settlement_fits_spec _ _ _ _ _ _ Ef) as [-> Hfit]. destruct fit; cbn [negb].
  2:{ pose proof (poison_spec j0 (bp_ID a) p (bp_InvalidUsage a) actual ltac:(by split_and!) Ep tx) as Hpo.
      assert (Hpre : jinv true none (tx_j tx)).
      { rewrite Hj0. apply (jinv_poison (Poisoned j0)); [done|exact Hinv]. }
      specialize (Hpo (conj Hpre Hj0)). unfold mbind, ste_mbind.
      destruct (poison _ _ _ _ tx) as [[[]|e] tx1]; [|done]. destruct Hpo as (Hj1 & Hp1 & Hs1). simpl.
      split; [unfold escrow_inv; by rewrite Hp1|]. exists p. split_and!; try done; try lia. by apply finished_poisoned. }
  destruct (Hfit eq_refl) as [Hgs Hms]. set (overrun := (bp_InvalidUsage a || (p_Bound p <? o))%bool).
  set (po := (Poisoned j0 || overrun)%bool).
  pose proof (finish_end_spec s a actual complete now j0 p c o po overrun eq_refl Ed E2 Ec
                ltac:(unfold po, overrun; by rewrite orb_assoc)) as Hk.
  assert (Hov : overrun = false → c <= p_Bound p) by (intros [_ Hov]%orb_false_iff; apply Hle; lia).
  assert (Hpo : overrun = true → po = true) by (unfold po; intros ->; apply orb_true_r).
  assert (Hok : permit_ok j0 p) by by split_and!.
  pose proof (settle_all_spec _ _ po j0 (bp_ID a) p c o overrun _ Hc Ho Hoc Hov Hpo Ed
                (eq_refl : p_Done (settled_permit p actual complete (bp_InvalidUsage a)) = true) Hok
                eq_refl eq_refl eq_refl Hk tx) as Hall.
  assert (Hpre : settling po j0 (bp_ID a) p c o [] tx).
  { split; [|split; [by rewrite Hj0|split; [done|split; [rewrite Hj0; apply shifted_refl|split; [auto|by rewrite Hj0]]]]].
    rewrite Hj0. apply (jinv_ext _ none); [intros id; by rewrite back_out by apply not_elem_of_nil|].
    apply (jinv_poison (Poisoned j0)); [unfold po; by intros ->|exact Hinv]. }
  specialize (Hall (conj Hpre Hms)).
  match goal with |- match ?m tx with _ => _ end => change (match m tx with (Ok a0, tx') => escrow_inv (tx_j tx') ∧ finished s j0 a actual complete p a0 (tx_j tx') | (Err _, _) => True end) in Hall; destruct (m tx) as [[r|e] tx1] end; [|done].
  destruct Hall as [? ?]. split; [done|]. exists p. split_and!; try done; lia.
Qed.

(** ** A permit that was never dispatched *)

(** Under way in the cleanup: what [released] grants gave back. *)
Definition releasing po j0 pid p released (tx : TX) : Prop :=
  jinv po (back (p_Bound p) released) (tx_j tx) ∧ Permits (tx_j tx) = Permits j0 ∧ Permits j0 !! pid = Some p
  ∧ shifted [] 0 0 j0 (tx_j tx) ∧ Poisoned (tx_j tx) = Poisoned j0.

Lemma release_spec po j0 pid p released id :
  counter (p_Bound p) → id ∉ released →
  hoare (releasing po j0 pid p released) (release (p_Bound p) id) (λ _, releasing po j0 pid p (released ++ [id])).
Proof.
  intros Hb Hnew. apply hoare_grant. intros g. destruct (_ || _)%bool eqn:E; [apply hoare_early|]. bsplit.
  apply hoare_modify. intros tx [(Hj & Hps & Hp & Hsh & Hpp) Hg]. simpl.
  destruct (ji_grants _ _ _ Hj _ _ Hg) as (Hgo & _ & _). destruct Hgo. unfold counter in *.
  split; [|split; [done|split; [done|split; [|done]]]].
  - apply (jinv_put_grant po (back (p_Bound p) released) _ id g); [done|done| | | |].
    + split; simpl; unfold counter; try done; try lia; try congruence.
    + rewrite (back_in _ _ _ (elem_of_snoc released id)), back_out by done. simpl. lia.
    + rewrite (back_in _ _ _ (elem_of_snoc released id)), back_out by done. simpl. lia.
    + intros i Hne. by apply back_snoc.
  - by apply (shifted_same _ _ _ _ _ _ _ g).
Qed.

(** The cleanup gives the whole bound back and charges nothing. *)
Lemma undispatched_body_spec s pid now j0 :
  escrow_inv j0 →
  hoare (λ tx, tx_j tx = j0) (undispatched_body range s pid now)
    (λ _ tx, escrow_inv (tx_j tx) ∧ shifted [] 0 0 j0 (tx_j tx) ∧ Poisoned (tx_j tx) = Poisoned j0
       ∧ ∃ p, Permits j0 !! pid = Some p ∧ p_Done p = false
         ∧ Permits (tx_j tx) = <[pid := mkPermit (p_Instance p) (p_Bound p) (p_Grants p) (p_Meters p) true true (Some 0)
                                   (p_Retired p) (p_InvalidUsage p)]> (Permits j0)).
Proof.
  intros Hinv. apply hoare_get. intros j. apply (hoare_pre _ (λ tx, tx_j tx = j0 ∧ j = j0)); [|naive_solver].
  destruct (Permits j !! pid) as [p|] eqn:Ep; [|apply hoare_early].
  destruct (p_Done p) eqn:Ed; [apply hoare_early|].
  set (p' := mkPermit _ _ _ _ _ _ _ _ _). set (po := Poisoned j0).
  intros tx [Hj0 ->]. destruct (ji_permits _ _ _ Hinv _ _ Ep) as (Hb & Hndg & Hndm & Hpg & Hpm).
  set (R := λ tx, Permits (tx_j tx) = <[pid := p']> (Permits j0) ∧ shifted [] 0 0 j0 (tx_j tx) ∧ Poisoned (tx_j tx) = po).
  assert (H : hoare (releasing po j0 pid p [])
     (_ ← each (p_Grants p) (release (p_Bound p)); _ ← put_permit pid p'; closeInactive range s now)
     (λ _ tx, jinv po none (tx_j tx) ∧ R tx)).
  { apply (hoare_seq _ (releasing po j0 pid p (p_Grants p))).
    { apply (hoare_each (releasing po j0 pid p) _ (p_Grants p) []). intros released id todo Hl. simpl in Hl.
      apply release_spec; [done|]. rewrite Hl in Hndg. apply NoDup_app in Hndg as (_ & Hdj & _).
      intros Hin. apply (Hdj _ Hin). by left. }
    apply (hoare_seq _ (λ tx, jinv po none (tx_j tx) ∧ R tx)).
    - apply hoare_modify. intros tx1 (Hj & Hps & Hp & Hsh & Hpp). simpl. split; [|split_and!; [by simpl; rewrite Hps|done..]].
      assert (Hp' : Permits (tx_j tx1) !! pid = Some p) by (by rewrite Hps).
      eapply (jinv_change_permit po _ pid p p'); [exact Hj|done| |].
      + by destruct (ji_permits _ _ _ Hj _ _ Hp') as (? & ? & ? & ? & ?).
      + intros id. by apply due_done.
    - apply closeInactive_spec. intros id tx1 g seq (Hp & Hs & Hpp) Hg Hcl Hpn. split_and!; [done| |done].
      by apply (shifted_survives _ _ _ _ id tx1 g seq). }
  revert tx Hj0. refine (hoare_conseq (λ tx, tx_j tx = j0) _ _ _ _ H _ _).
  - intros tx Hj0. split; [rewrite Hj0; apply (jinv_ext _ none); [intros id; by rewrite back_out by apply not_elem_of_nil|exact Hinv]|].
    rewrite Hj0. split_and!; done.
  - intros _ tx (Hj & Hp & Hs & Hpp).
    split; [unfold escrow_inv; by rewrite Hpp|]. split; [done|]. split; [done|]. by exists p.
Qed.

End Finish.
