(* ===== verification/EscrowStore.v ===== *)
(** * The journal between transactions (internal/authority/local: store.go,
    gc.go, sync.go)

    What the other transactions keep: collection of finished history, the boot
    that burns the grants of an earlier one, a request to the control plane and
    the application of its response.  Together with the two files before this,
    every operation of every handle keeps the invariant. *)

From S2P Require Import Prelude GoTime Denial Governor Escrow EscrowSafety EscrowSettle.

#[local] Abbreviation hoare := (Prelude.hoare (S := TX) (E := AdmissionError)).

(** ** Collection *)

Lemma sum_map_delete_zero (f : permit → Z) (m : gmap string permit) i :
  (∀ p, m !! i = Some p → f p = 0) → sum_map f (delete i m) = sum_map f m.
Proof.
  intros Hz. destruct (m !! i) as [p|] eqn:E.
  - rewrite (sum_map_delete _ _ _ _ E), (Hz p eq_refl). lia.
  - by rewrite delete_id.
Qed.

Lemma lookup_delete_all {A} (ids : list string) (m : gmap string A) k x :
  foldl (λ m k, delete k m) m ids !! k = Some x ↔ m !! k = Some x ∧ k ∉ ids.
Proof.
  revert m. induction ids as [|id ids IH]; intros m; simpl.
  - split; [intros H; split; [done|apply not_elem_of_nil]|by intros []].
  - rewrite IH, lookup_delete_Some, not_elem_of_cons. naive_solver.
Qed.

Lemma sum_map_delete_all (f : permit → Z) (ids : list string) (m : gmap string permit) :
  (∀ k p, k ∈ ids → m !! k = Some p → f p = 0) → sum_map f (foldl (λ m k, delete k m) m ids) = sum_map f m.
Proof.
  revert m. induction ids as [|id ids IH]; intros m Hz; simpl; [done|]. rewrite IH.
  - apply sum_map_delete_zero. intros p. apply Hz. by left.
  - intros k p Hin [_ Hk]%lookup_delete_Some. apply (Hz k); [by right|done].
Qed.

(** Other permits that hold as much. *)
Lemma jinv_permits po x j ps :
  jinv po x j → (∀ id p, ps !! id = Some p → permit_ok j p) →
  (∀ id, sum_map (due id) ps = owed j id ∧ sum_map (pending id) ps = npending j id) →
  jinv po x (with_Permits ps j).
Proof.
  intros [Hv Hg Hm Hp Hb] Hok Hs. split; simpl; try done.
  intros id g Hi. destruct (Hg id g Hi) as (? & ? & ?). destruct (Hs id). unfold owed, npending in *. simpl.
  split; [done|lia].
Qed.

Lemma jinv_delete_grant po x j id :
  jinv po x j → (∀ k p, Permits j !! k = Some p → id ∉ p_Grants p) → jinv po x (with_Grants (delete id (Grants j)) j).
Proof.
  intros [Hv Hg Hm Hp Hb] Hn. split; simpl; try done.
  - intros i g [_ Hi]%lookup_delete_Some. by apply Hg.
  - intros k p Hk. destruct (Hp k p Hk) as (? & ? & ? & Hgs & ?). split_and!; try done. simpl.
    intros i Hi. rewrite lookup_delete_ne; [by apply Hgs|]. intros <-. by apply (Hn k p).
Qed.

Lemma jinv_delete_meter po x j id :
  jinv po x j → (∀ k p, Permits j !! k = Some p → id ∉ p_Meters p) → jinv po x (with_Meters (delete id (Meters j)) j).
Proof.
  intros [Hv Hg Hm Hp Hb] Hn. split; simpl; try done.
  - intros i g [_ Hi]%lookup_delete_Some. by apply (Hm i).
  - intros k p Hk. destruct (Hp k p Hk) as (? & ? & ? & ? & Hms). split_and!; try done. simpl.
    intros i Hi. rewrite lookup_delete_ne; [by apply Hms|]. intros <-. by apply (Hn k p).
Qed.

Lemma remember_other id r j :
  Version (remember id r j) = Version j ∧ Grants (remember id r j) = Grants j ∧ Permits (remember id r j) = Permits j
  ∧ Meters (remember id r j) = Meters j ∧ Budgets (remember id r j) = Budgets j ∧ Poisoned (remember id r j) = Poisoned j ∧ j_Ready (remember id r j) = j_Ready j.
Proof. unfold remember. by destruct (over _ _). Qed.

(** The oldest of the completed permits, which go, are settled. *)
Definition done_in (j : journal) (id : string) : Prop := ∃ p, Permits j !! id = Some p ∧ p_Done p = true.

Lemma completed_order_done j : ∀ id, id ∈ completed_order j → done_in j id.
Proof.
  unfold completed_order.
  assert (H : ∀ l acc, (∀ id, id ∈ acc → done_in j id) →
    ∀ id, id ∈ foldl (λ order id, match Permits j !! id with
      | Some p => if (p_Done p && negb (bool_decide (id ∈ order)))%bool then order ++ [id] else order
      | None => order end) acc l → done_in j id).
  { induction l as [|i l IH]; intros acc Hacc; simpl; [done|]. apply IH.
    destruct (Permits j !! i) as [p|] eqn:Ep; [|done]. destruct (_ && _)%bool eqn:E; [|done]. bsplit.
    intros id [Hin| ->%list_elem_of_singleton]%elem_of_app; [auto|]. by exists p. }
  apply H. by intros id ?%not_elem_of_nil.
Qed.

Lemma drop_refs_due id p : due id (drop_refs p) = due id p ∧ pending id (drop_refs p) = pending id p.
Proof. unfold drop_refs, due, pending. by destruct (p_Done p) eqn:E; simpl; rewrite ?E. Qed.

Lemma drop_refs_done p : p_Done (drop_refs p) = p_Done p.
Proof. unfold drop_refs. by destruct (p_Done p) eqn:E; simpl. Qed.

(** [collect_permits]: settled permits lose their references, the oldest go. *)
Lemma collect_permits_shape j : ∃ gone order,
  (∀ id, id ∈ gone → done_in j id) ∧ (length order <= completedReceiptLimit)%nat
  ∧ collect_permits j = with_Completed order (with_Permits (foldl (λ m k, delete k m) (drop_refs <$> Permits j) gone) j).
Proof.
  unfold collect_permits. set (order := completed_order j ++ _). unfold over.
  exists (take (length order - completedReceiptLimit) order), (drop (length order - completedReceiptLimit) order).
  split; [|split; [rewrite length_drop; lia|done]].
  intros id (i & Hin & _)%elem_of_take. apply list_elem_of_lookup_2 in Hin.
  unfold order in Hin. apply elem_of_app in Hin as [Hin|Hin]; [by apply completed_order_done|].
  apply list_elem_of_filter in Hin as [[Hd _] _]. destruct (Permits j !! id) as [p|] eqn:E; [|done]. by exists p.
Qed.

(** A permit kept was there, and holds the same; a pending one is kept. *)
Lemma collect_permits_lookup j k p :
  Permits (collect_permits j) !! k = Some p → ∃ p0, Permits j !! k = Some p0 ∧ p = drop_refs p0.
Proof.
  destruct (collect_permits_shape j) as (gone & order & _ & _ & ->). simpl.
  intros [Hk _]%lookup_delete_all. rewrite lookup_fmap in Hk. destruct (Permits j !! k) as [p0|]; [|done].
  injection Hk as <-. by exists p0.
Qed.

Lemma collect_permits_pending j k p :
  Permits j !! k = Some p → p_Done p = false → Permits (collect_permits j) !! k = Some p.
Proof.
  intros Hk Hd. destruct (collect_permits_shape j) as (gone & order & Hg & _ & ->). simpl.
  apply lookup_delete_all. rewrite lookup_fmap, Hk. simpl. split; [unfold drop_refs; by rewrite Hd|].
  intros Hin. destruct (Hg _ Hin) as (p' & Hp' & Hd'). congruence.
Qed.

Lemma collect_permits_sum j id :
  owed (collect_permits j) id = owed j id ∧ npending (collect_permits j) id = npending j id.
Proof.
  destruct (collect_permits_shape j) as (gone & order & Hg & _ & ->). unfold owed, npending. simpl.
  assert (Hz : ∀ k p, k ∈ gone → (drop_refs <$> Permits j) !! k = Some p → p_Done p = true).
  { intros k p Hin Hk. rewrite lookup_fmap in Hk. destruct (Hg _ Hin) as (p' & Hp' & Hd').
    rewrite Hp' in Hk. injection Hk as <-. by rewrite drop_refs_done. }
  split; rewrite sum_map_delete_all, ?sum_map_fmap; try done.
  all: try (intros k p _; apply drop_refs_due).
  all: intros k p Hin Hk; specialize (Hz k p Hin Hk); unfold due, pending; by rewrite Hz.
Qed.

Lemma collect_permits_inv po x j : jinv po x j → jinv po x (collect_permits j).
Proof.
  intros Hj. pose proof (λ k p, collect_permits_lookup j k p) as Hl. pose proof (collect_permits_sum j) as Hs.
  destruct (collect_permits_shape j) as (gone & order & _ & _ & E). rewrite E in *.
  apply (jinv_other _ _ (with_Permits (foldl (λ m k, delete k m) (drop_refs <$> Permits j) gone) j)); try done.
  apply jinv_permits; [done| |exact Hs]. intros k p Hk. destruct (Hl k p Hk) as (p0 & Hp0 & ->).
  destruct (ji_permits _ _ _ Hj _ _ Hp0) as (? & ? & ? & ? & ?). unfold drop_refs.
  destruct (p_Done p0); split_and!; simpl; try done; try apply NoDup_nil_2; by intros ? ?%not_elem_of_nil.
Qed.

Lemma pending_refs_spec f j k p id :
  Permits j !! k = Some p → p_Done p = false → id ∈ f p → id ∈ pending_refs f j.
Proof.
  intros Hk Hd Hin. unfold pending_refs. apply list_elem_of_bind. exists k. rewrite Hk, Hd. split; [done|].
  apply sortedKeys_elem. by exists p.
Qed.

(** What the permits refer to, and the grants and meters that may go. *)
Definition referenced (pg pm : list string) (j : journal) : Prop :=
  ∀ k p, Permits j !! k = Some p → (∀ id, id ∈ p_Grants p → id ∈ pg) ∧ (∀ id, id ∈ p_Meters p → id ∈ pm).

(** Collection of grants and meters: permits, budgets and the poison stay, the
    grants that stay are unchanged, and those still referenced stay. *)
Definition thinned (pg : list string) (j j' : journal) : Prop :=
  Permits j' = Permits j ∧ Poisoned j' = Poisoned j ∧ Budgets j' = Budgets j ∧ j_Ready j' = j_Ready j
  ∧ (∀ id g, Grants j' !! id = Some g → Grants j !! id = Some g)
  ∧ (∀ id, id ∈ pg → Grants j' !! id = Grants j !! id).

Lemma thinned_refl pg j : thinned pg j j.
Proof. by split_and!. Qed.

Lemma thinned_trans pg j1 j2 j3 : thinned pg j1 j2 → thinned pg j2 j3 → thinned pg j1 j3.
Proof.
  intros (? & ? & ? & ? & Ha & Hb) (? & ? & ? & ? & Hc & Hd).
  split_and!; try congruence; [naive_solver|]. intros id Hin. by rewrite Hd, Hb.
Qed.

Section Collect.
Context (sums : AuthorityGrant → string) (enc : list string → string).

Lemma collect_grant_inv po x pg pm j id :
  jinv po x j → referenced pg pm j →
  jinv po x (collect_grant sums pg j id) ∧ thinned pg j (collect_grant sums pg j id).
Proof.
  intros Hj Hr. unfold collect_grant. destruct (Grants j !! id) as [g|] eqn:Eg; [|split; [done|apply thinned_refl]].
  destruct (finalized pg id g) eqn:Ef; [|split; [done|apply thinned_refl]]. unfold finalized in Ef. bsplit.
  set (rid := reportReceiptID id). set (r := mkReceipt _ _ _).
  destruct (remember_other rid r j) as (Ev & Eg' & Ep & Ems & Eb & Epo & Er). split.
  - apply (jinv_other _ _ (with_Grants (delete id (Grants j)) j)); simpl; try congruence.
    apply jinv_delete_grant; [done|]. intros k p Hk Hin. by destruct (Hr k p Hk) as [Hg _]; specialize (Hg _ Hin).
  - split_and!; simpl; rewrite ?Eg'; try congruence.
    + by intros i gi [_ ?]%lookup_delete_Some.
    + intros i Hi. rewrite lookup_delete_ne; [done|]. by intros <-.
Qed.

Lemma collect_meter_inv po x pg pm inst j id :
  jinv po x j → referenced pg pm j →
  jinv po x (collect_meter enc inst pm j id) ∧ thinned pg j (collect_meter enc inst pm j id).
Proof.
  intros Hj Hr. unfold collect_meter. destruct (Meters j !! id) as [m|] eqn:Em; [|split; [done|apply thinned_refl]].
  destruct (_ && _)%bool eqn:Ef; [|split; [done|apply thinned_refl]]. bsplit.
  set (mid := meterReceiptID _ _ _). set (r := mkReceipt _ _ _).
  destruct (remember_other mid r j) as (Ev & Eg & Ep & Ems & Eb & Epo & Er). split.
  - apply (jinv_other _ _ (with_Meters (delete id (Meters j)) j)); simpl; try congruence.
    apply jinv_delete_meter; [done|]. intros k p Hk Hin. by destruct (Hr k p Hk) as [_ Hm]; specialize (Hm _ Hin).
  - split_and!; simpl; congruence.
Qed.

Lemma collect_loop po x pg pm (step : journal → string → journal) ids j :
  (∀ j id, jinv po x j → referenced pg pm j → jinv po x (step j id) ∧ thinned pg j (step j id)) →
  jinv po x j → referenced pg pm j →
  jinv po x (foldl step j ids) ∧ thinned pg j (foldl step j ids).
Proof.
  intros Hstep. revert j. induction ids as [|id ids IH]; intros j Hj Hr; simpl; [split; [done|apply thinned_refl]|].
  destruct (Hstep j id Hj Hr) as [Hj' Ht]. destruct (IH (step j id)) as [Hj'' Ht']; [done| |].
  - unfold referenced. destruct Ht as (-> & _). exact Hr.
  - split; [done|]. by eapply thinned_trans.
Qed.

(** What collection keeps of the journal. *)
Definition collected (j j' : journal) : Prop :=
  Poisoned j' = Poisoned j ∧ Budgets j' = Budgets j ∧ j_Ready j' = j_Ready j
  ∧ (∀ k p, Permits j' !! k = Some p → ∃ p0, Permits j !! k = Some p0 ∧ p = drop_refs p0)
  ∧ (∀ k p, Permits j !! k = Some p → p_Done p = false → Permits j' !! k = Some p)
  ∧ (∀ id, owed j' id = owed j id)
  ∧ (∀ id g, Grants j' !! id = Some g → Grants j !! id = Some g)
  ∧ (∀ k p id, Permits j !! k = Some p → p_Done p = false → id ∈ p_Grants p → Grants j' !! id = Grants j !! id).

Lemma collectObsoleteRequests_other j : ∃ l rs, collectObsoleteRequests j = with_ObsoleteRequests l (with_Requests rs j).
Proof. unfold collectObsoleteRequests. destruct (over _ _). by eexists _, _. Qed.

Lemma collect_spec inst j :
  escrow_inv j → escrow_inv (collect sums enc inst j) ∧ collected j (collect sums enc inst j).
Proof.
  intros Hj. unfold collect. set (pg := pending_refs p_Grants j). set (pm := pending_refs p_Meters j).
  set (j1 := collect_permits j).
  assert (Hj1 : jinv (Poisoned j) none j1) by by apply collect_permits_inv.
  assert (Hr1 : referenced pg pm j1).
  { intros k p Hk. destruct (collect_permits_lookup _ _ _ Hk) as (p0 & Hp0 & ->). unfold drop_refs.
    destruct (p_Done p0) eqn:Ed; simpl; [by split; intros id ?%not_elem_of_nil|].
    split; intros id Hin; by apply (pending_refs_spec _ j k p0). }
  destruct (collect_loop (Poisoned j) none pg pm (collect_grant sums pg) (sortedKeys (Grants j1)) j1) as [Hj2 Ht2];
    [intros; by eapply collect_grant_inv|done..|].
  set (j2 := foldl (collect_grant sums pg) j1 _) in *.
  destruct (collect_loop (Poisoned j) none pg pm (collect_meter enc inst pm) (sortedKeys (Meters j2)) j2) as [Hj3 Ht3];
    [intros; by eapply collect_meter_inv|done| |].
  { unfold referenced. destruct Ht2 as (-> & _). exact Hr1. }
  set (j3 := foldl (collect_meter enc inst pm) j2 _) in *.
  destruct (thinned_trans _ _ _ _ Ht2 Ht3) as (Ep & Epo & Eb & Er & Hsub & Hkeep).
  destruct (collectObsoleteRequests_other j3) as (l & rs & ->).
  assert (Epo1 : Poisoned j1 = Poisoned j ∧ Budgets j1 = Budgets j ∧ j_Ready j1 = j_Ready j ∧ Grants j1 = Grants j).
  { unfold j1. destruct (collect_permits_shape j) as (gone & order & _ & _ & ->). by split_and!. }
  destruct Epo1 as (Epo1 & Eb1 & Er1 & Eg1). split.
  - unfold escrow_inv. simpl. rewrite Epo, Epo1. by apply (jinv_other _ _ j3).
  - split_and!; simpl; try congruence.
    + rewrite Ep. apply collect_permits_lookup.
    + rewrite Ep. apply collect_permits_pending.
    + intros id. unfold owed. simpl. rewrite Ep. apply collect_permits_sum.
    + intros id g Hg. rewrite <- Eg1. by apply Hsub.
    + intros k p id Hk Hd Hin. rewrite Hkeep, Eg1; [done|]. by apply (pending_refs_spec _ j k p).
Qed.
End Collect.

(** ** The decoder accepts what the invariant describes *)

Lemma decodes_inv po x j : jinv po x j → decodes j = true.
Proof.
  intros [Hv Hg Hm Hp _]. unfold decodes. rewrite Hv. simpl. rewrite !andb_true_iff, !forallb_forall.
  split; [split|]; intros [k v] Hin; apply list_elem_of_In, elem_of_map_to_list in Hin; simpl.
  - destruct (Hg _ _ Hin) as ([] & _). unfold valid_grant, counter in *. rewrite bool_decide_true by done.
    repeat (apply andb_true_iff; split); try done; lia.
  - destruct (Hm _ _ Hin) as (? & ? & ? & ? & ?). unfold valid_meter, counter in *.
    repeat (apply andb_true_iff; split); lia.
  - destruct (Hp _ _ Hin) as ([? _] & _ & _ & Hgs & Hms). unfold valid_permit. rewrite !andb_true_iff, !forallb_forall.
    split; [split; [lia|]|]; intros id Hid%list_elem_of_In; apply is_Some_b_spec; auto.
Qed.

(** ** A whole transaction *)

Definition row_inv (r : option (string * journal)) : Prop := ∀ owner j, r = Some (owner, j) → escrow_inv j.

(** Admission closed by an overrun stays closed. *)
Definition stays_poisoned (j0 j : journal) : Prop := Poisoned j0 = true → Poisoned j = true.

Definition row_step (r r' : option (string * journal)) : Prop :=
  r' = r ∨ ∃ owner j owner' j', r = Some (owner, j) ∧ r' = Some (owner', j') ∧ escrow_inv j' ∧ stays_poisoned j j'.

Section Transaction.
Context (sums : AuthorityGrant → string) (enc : list string → string).

(** What a successful transaction did: its body ran on the stored journal of
    this owner, and the collected journal was stored. *)
Lemma transaction_Ok {A} o (fn : STE TX AdmissionError A) w a j' w' :
  transaction sums enc o fn w = (Ok (a, j'), w') →
  ∃ j tx, row w = Some (instance (store w), j) ∧ fn (mkTX j (nonces_read (store w)) false) = (Ok a, tx)
    ∧ j' = collect sums enc (instance (store w)) (tx_j tx) ∧ row w' = Some (instance (store w), j')
    ∧ instance (store w') = instance (store w).
Proof.
  unfold transaction. destruct (closed (store w)); [done|]. destruct (broken (store w)); [done|].
  destruct o as [|c|c l]; [|by destruct (storageError c (store w))|].
  - destruct (row w) as [[owner j]|]; [|by destruct (storageError false (store w))].
    destruct (negb _) eqn:Eo; [done|]. bsplit. destruct (negb (decodes j)); [done|].
    destruct (fn _) as [[b|e] tx] eqn:Ef; [|done]. intros [= <- <- <-]. exists j, tx. simpl. by subst owner.
  - destruct (row w) as [[owner j]|]; [|by destruct (storageError false (store w))].
    destruct (negb _); [done|]. destruct (negb (decodes j)); [done|].
    destruct (fn _) as [[b|e] tx]; [by destruct (storageError c (after_tx tx (store w)))|done].
Qed.

(** Whatever SQLite answers, the row keeps the invariant. *)
Lemma transaction_row {A} o (fn : STE TX AdmissionError A) w :
  (∀ j, row w = Some (instance (store w), j) →
    match fn (mkTX j (nonces_read (store w)) false) with
    | (Ok _, tx) => escrow_inv (tx_j tx) ∧ stays_poisoned j (tx_j tx)
    | (Err _, _) => True end) →
  row_step (row w) (row (transaction sums enc o fn w).2).
Proof.
  intros Hfn. unfold transaction. destruct (closed (store w)); [by left|]. destruct (broken (store w)); [by left|].
  destruct o as [|c|c l]; [| by destruct (storageError c (store w)); left|].
  - destruct (row w) as [[owner j]|] eqn:Er; [|destruct (storageError false (store w)); by left].
    destruct (negb (bool_decide _)) eqn:Eo; [rewrite <- Er; by left|]. bsplit. subst owner.
    destruct (negb (decodes j)); [by left|]. specialize (Hfn j eq_refl).
    destruct (fn _) as [[b|e] tx]; [|by left]. simpl. right. destruct Hfn as [Hi Hp].
    destruct (collect_spec sums enc (instance (store w)) (tx_j tx) Hi) as [Hc (Epo & _)].
    eexists _, _, _, _. split_and!; [done..|]. intros Hj. by rewrite Epo, Hp.
  - destruct (row w) as [[owner j]|] eqn:Er; [|destruct (storageError false (store w)); by left].
    destruct (negb (bool_decide _)) eqn:Eo; [rewrite <- Er; by left|]. bsplit. subst owner.
    destruct (negb (decodes j)); [by left|]. specialize (Hfn j eq_refl).
    destruct (fn _) as [[b|e] tx]; [|by left]. destruct (storageError c _). simpl. destruct l; [|by left].
    right. destruct Hfn as [Hi Hp].
    destruct (collect_spec sums enc (instance (store w)) (tx_j tx) Hi) as [Hc (Epo & _)].
    eexists _, _, _, _. split_and!; [done..|]. intros Hj. by rewrite Epo, Hp.
Qed.
End Transaction.

Section Bodies.
Context (sums : AuthorityGrant → string) (enc : list string → string) (nonces : nat → option string).
Context (range : ∀ A, gmap string A → list (string * A)).
(** Go visits every entry of a map once. *)
Context (range_perm : ∀ A (m : gmap string A), range A m ≡ₚ map_to_list m).

Lemma range_lookup {A} (m : gmap string A) k x : (k, x) ∈ range A m ↔ m !! k = Some x.
Proof. by rewrite range_perm, elem_of_map_to_list. Qed.

Lemma range_NoDup {A} (m : gmap string A) : NoDup (range A m).*1.
Proof. rewrite range_perm. apply NoDup_fst_map_to_list. Qed.

(** The frame of the bodies below: only the invariant and the poison. *)
Definition safe (po : bool) (tx : TX) : Prop := jinv po none (tx_j tx) ∧ Poisoned (tx_j tx) = po.

Lemma closeInactive_safe po s now : hoare (safe po) (closeInactive range s now) (λ _, safe po).
Proof. apply (closeInactive_spec range po none (λ tx, Poisoned (tx_j tx) = po)). by intros id tx g seq. Qed.

(** A change that does not concern the invariant. *)
Lemma safe_modify po f :
  (∀ j, Version (f j) = Version j ∧ Grants (f j) = Grants j ∧ Permits (f j) = Permits j ∧ Meters (f j) = Meters j
        ∧ Budgets (f j) = Budgets j ∧ Poisoned (f j) = Poisoned j) →
  hoare (safe po) (tx_modify f) (λ _, safe po).
Proof.
  intros Hf. apply hoare_modify. intros tx [Hj Hp]. destruct (Hf (tx_j tx)) as (? & ? & ? & ? & ? & ?).
  split; simpl; [by eapply (jinv_other _ _ (tx_j tx))|congruence].
Qed.

Lemma safe_put_grant po g g' id :
  (grant_ok po id g → grant_ok po id g') → g_Reserved g' = g_Reserved g → g_Pending g' = g_Pending g →
  hoare (λ tx, safe po tx ∧ Grants (tx_j tx) !! id = Some g) (put_grant id g') (λ _, safe po).
Proof.
  intros Hok Hr Hn. apply hoare_modify. intros tx [[Hj Hp] Hg]. split; [|done]. simpl.
  eapply jinv_update_grant; try done. destruct (ji_grants _ _ _ Hj _ _ Hg) as (? & _). auto.
Qed.

(** ** Requests (sync.go) *)

Lemma stream_inv {A} P (item : string → STE TX AdmissionError (option A)) keys room cursor :
  (∀ id, hoare P (item id) (λ _, P)) → hoare P (stream keys room cursor item) (λ _, P).
Proof.
  intros Hi. revert room cursor. induction keys as [|id keys IH]; intros [|n] cursor; try by apply hoare_ret.
  cbn [stream]. eapply hoare_bind; [apply Hi|]. intros [x|]; [|apply IH].
  eapply hoare_bind; [apply IH|]. intros rest. by apply hoare_ret.
Qed.

Lemma want_item_safe po s id : hoare (safe po) (want_item s id) (λ _, safe po).
Proof.
  apply hoare_get. intros j. eapply (hoare_pre _ (safe po)); [|by intros tx []].
  destruct (Requests j !! id) as [r|]; [|by apply hoare_ret]. cbn zeta.
  destruct (_ || _ || _ || _)%bool; [by apply hoare_ret|].
  eapply hoare_seq; [by apply safe_modify|]. by apply hoare_ret.
Qed.

Lemma report_item_safe po id : hoare (safe po) (report_item id) (λ _, safe po).
Proof.
  apply hoare_grant. intros g. destruct (_ || _)%bool; [apply hoare_ret; by intros tx []|].
  eapply hoare_seq; [|by apply hoare_ret]. apply safe_put_grant; try done.
  intros []. split; simpl; try done. lia.
Qed.

Lemma meter_item_safe po id : hoare (safe po) (meter_item id) (λ _, safe po).
Proof.
  apply hoare_meter. intros m. destruct (_ =? _); [apply hoare_ret; by intros tx []|].
  eapply hoare_seq; [|by apply hoare_ret]. apply hoare_modify. intros tx [[Hj Hp] Hm]. split; [|done].
  apply jinv_put_meter; [done|]. destruct (ji_meters _ _ _ Hj _ _ Hm) as (? & ? & ? & ? & ?).
  split_and!; simpl; try done; lia.
Qed.

Lemma request_body_safe po s now : hoare (safe po) (request_body range s now) (λ _, safe po).
Proof.
  eapply hoare_seq; [apply closeInactive_safe|]. apply hoare_get. intros j.
  eapply (hoare_pre _ (safe po)); [|by intros tx []].
  eapply hoare_bind; [apply stream_inv, want_item_safe|]. intros wants.
  eapply hoare_bind; [apply stream_inv, report_item_safe|]. intros reports.
  eapply hoare_bind; [apply stream_inv, meter_item_safe|]. intros meters.
  eapply hoare_seq; [by apply safe_modify|]. by apply hoare_ret.
Qed.

(** ** Responses *)

Lemma budgets_loop_keyed bs now out seen m :
  budgets_loop bs now out seen = Ok m → (∀ k b, out !! k = Some b → b_Key b = k) → ∀ k b, m !! k = Some b → b_Key b = k.
Proof.
  revert out seen. induction bs as [|b bs IH]; intros out seen; simpl; [intros [= <-]; done|].
  destruct (_ || _)%bool; [done|]. intros Hl Hk. apply (IH _ _ Hl). intros k b' [[<- <-]|[_ Hk']]%lookup_insert_Some; auto.
Qed.

Lemma validateBudgets_keyed resp m : validateBudgets resp = Ok m → ∀ k b, m !! k = Some b → b_Key b = k.
Proof. intros Hv. eapply budgets_loop_keyed; [exact Hv|]. intros k b. by rewrite lookup_empty. Qed.

Lemma install_safe po server budgets :
  (∀ k b, budgets !! k = Some b → b_Key b = k) → hoare (safe po) (install server budgets) (λ _, safe po).
Proof.
  intros Hk. apply hoare_get. intros j. eapply (hoare_pre _ (safe po)); [|by intros tx []].
  cbn zeta. destruct (negb (IsZero _) && _)%bool; [by apply hoare_ret|].
  destruct (negb (_ || _) && _)%bool; [apply hoare_early|].
  eapply hoare_seq; [|by apply hoare_ret]. destruct (_ || _)%bool; [|by apply hoare_ret].
  apply hoare_modify. intros tx [[Hv Hg Hm Hp Hb] Hpo]. by split.
Qed.

Lemma put_request_safe po id r : hoare (safe po) (put_request id r) (λ _, safe po).
Proof. by apply safe_modify. Qed.

Lemma apply_grant_safe po s stale received serverTime server rtt a wire :
  ag_Amount wire <= MaxInt64 →
  hoare (safe po) (apply_grant sums s stale received serverTime server rtt a wire) (λ _, safe po).
Proof.
  intros Hmax. unfold apply_grant. destruct (_ || _)%bool; [apply hoare_early|].
  apply hoare_get. intros j. eapply (hoare_pre _ (λ tx, safe po tx ∧ tx_j tx = j)); [|done].
  destruct (Receipts j !! _) as [rc|]; [case_bool_decide; [apply hoare_ret; by intros tx []|apply hoare_early]|].
  destruct (validateGrant _ _ _) as [r|e] eqn:Ev; [|apply hoare_early].
  destruct (Grants j !! ag_ID wire) as [old|] eqn:Eg.
  { destruct (equalGrant _ _); [apply hoare_ret; by intros tx []|apply hoare_early]. }
  destruct (negb _); [apply hoare_early|].
  apply (hoare_seq _ (safe po)).
  - apply hoare_modify. intros tx [[Hj Hp] Hjj]. split; [|done]. simpl.
    assert (Hamount : 0 < ag_Amount wire).
    { unfold validateGrant in Ev. destruct (Requests j !! _); [|done]. destruct (bad_grant _ _ _) eqn:Eb; [done|].
      unfold bad_grant in Eb. bsplit. lia. }
    eapply jinv_new_grant; try done; [by rewrite Hjj|].
    destruct (negb (bool_decide _)); split; simpl; unfold counter; try done; try int_lia.
  - eapply hoare_seq; [apply put_request_safe|]. by apply hoare_ret.
Qed.

Lemma apply_grants_safe po s stale received serverTime server rtt a ws :
  Forall (λ g, ag_Amount g <= MaxInt64) ws →
  hoare (safe po) (apply_grants sums s stale received serverTime server rtt a ws) (λ _, safe po).
Proof.
  intros Hall. revert a. induction Hall as [|wire ws Hw _ IH]; intros a; [by apply hoare_ret|].
  cbn [apply_grants]. eapply hoare_bind; [by apply apply_grant_safe|]. intros a'. apply IH.
Qed.

Lemma apply_denials_safe po stale a ds : hoare (safe po) (apply_denials stale a ds) (λ _, safe po).
Proof.
  revert a. induction ds as [|d ds IH]; intros a; [by apply hoare_ret|]. cbn [apply_denials].
  eapply (hoare_bind _ _ _ (λ _, safe po)); [|intros a'; apply IH].
  apply hoare_get. intros j. eapply (hoare_pre _ (safe po)); [|by intros tx []].
  destruct (Requests j !! _) as [r|]; [|apply hoare_early]. destruct (_ || _)%bool; [apply hoare_early|].
  eapply hoare_seq; [|by apply hoare_ret]. destruct (_ && _)%bool; [apply put_request_safe|by apply hoare_ret].
Qed.

Lemma report_acks_safe po seen acks : hoare (safe po) (report_acks seen acks) (λ _, safe po).
Proof.
  revert seen. induction acks as [|ack acks IH]; intros seen; [by apply hoare_ret|]. cbn [report_acks].
  apply hoare_get. intros j. destruct (Grants j !! ak_ID ack) as [g|] eqn:Eg.
  - destruct (_ || _)%bool eqn:E; [apply hoare_early|]. bsplit.
    eapply hoare_seq; [|apply IH]. eapply hoare_pre; [apply (safe_put_grant po g)|]; try done.
    + intros []. split; simpl; try done. lia.
    + by intros tx [? <-].
  - eapply (hoare_pre _ (safe po)); [|by intros tx []].
    destruct (Receipts j !! _); [|apply hoare_early]. destruct (_ || _)%bool; [apply hoare_early|apply IH].
Qed.

Lemma meter_acks_safe po seen acks : hoare (safe po) (meter_acks enc range seen acks) (λ _, safe po).
Proof.
  revert seen. induction acks as [|ack acks IH]; intros seen; [by apply hoare_ret|]. cbn [meter_acks].
  destruct (_ || _)%bool; [apply hoare_early|]. apply hoare_get. intros j.
  destruct (Receipts j !! _).
  { eapply (hoare_pre _ (safe po)); [|by intros tx []]. destruct (_ || _)%bool; [apply hoare_early|apply IH]. }
  destruct (meters_named range ack j) as [|[id m] [|? ?]] eqn:Em; [apply hoare_early| |apply hoare_early].
  destruct (_ || _)%bool eqn:E; [apply hoare_early|]. bsplit.
  eapply hoare_seq; [|apply IH]. apply hoare_modify. intros tx [[Hj Hp] <-]. split; [|done].
  apply jinv_put_meter; [done|].
  assert (Hm : (id, m) ∈ range _ (Meters (tx_j tx))).
  { assert (Hin : (id, m) ∈ meters_named range ack (tx_j tx)) by (rewrite Em; by left).
    unfold meters_named in Hin. by apply list_elem_of_filter in Hin as [_ ?]. }
  apply range_lookup in Hm. destruct (ji_meters _ _ _ Hj _ _ Hm) as (? & ? & ? & ? & ?).
  split_and!; simpl; try done; lia.
Qed.

Lemma close_overtaken_safe po received ds : hoare (safe po) (close_overtaken range received ds) (λ _, safe po).
Proof.
  apply hoare_get. intros j. eapply (hoare_pre _ (safe po)); [|by intros tx []].
  apply hoare_each_inv. intros [id g] _. destruct (_ && _)%bool; [|by apply hoare_ret].
  apply (closeGrant_spec po none (λ tx, Poisoned (tx_j tx) = po)). by intros tx g' seq.
Qed.

Lemma apply_body_safe po s received rtt resp budgets :
  validateBudgets resp = Ok budgets → Forall (λ g, ag_Amount g <= MaxInt64) (rs_Grants resp) →
  hoare (safe po) (apply_body sums enc range s received rtt resp budgets) (λ _, safe po).
Proof.
  intros Hb Hg. unfold apply_body. eapply hoare_bind; [by eapply install_safe, validateBudgets_keyed|]. intros i.
  eapply hoare_bind; [by apply apply_grants_safe|]. intros a.
  eapply hoare_bind; [apply apply_denials_safe|]. intros a'.
  eapply hoare_seq; [apply report_acks_safe|]. eapply hoare_seq; [apply meter_acks_safe|].
  eapply hoare_seq; [by apply safe_modify|]. eapply hoare_seq; [apply close_overtaken_safe|]. by apply hoare_ret.
Qed.

End Bodies.
