(* ===== verification/EscrowTheorems.v ===== *)
(** * The escrow as a whole (internal/authority/local)

    The boot that burns what an earlier one held, and the properties of every
    history of the file: any handles, any order, any answers of SQLite. *)

From S2P Require Import Prelude GoTime Denial Governor Escrow EscrowSafety EscrowSettle EscrowStore.

#[local] Abbreviation hoare := (Prelude.hoare (S := TX) (E := AdmissionError)).

(** ** Boot *)

(** A grant of an earlier boot, burned in full. *)
Definition burn (g : grant) : grant :=
  mkGrant (g_Wire g) (g_Instance g) (Z.max (g_Consumed g) (ag_Amount (g_Wire g))) (g_Observed g) 0 0 true (g_Overrun g)
    (g_Sequence g + 1) (g_Ack g) (g_Sent g).

Definition retired_permit (p : permit) : permit :=
  if p_Done p then p
  else mkPermit (p_Instance p) (p_Bound p) (p_Grants p) (p_Meters p) true (p_Complete p) (p_Actual p) true (p_InvalidUsage p).

(** The entries named in [ids] of [m0] are replaced. *)
Definition replaced {A} (f : A → A) (ids : list string) (m0 m : gmap string A) : Prop :=
  ∀ k, m !! k = (if bool_decide (k ∈ ids) then f else id) <$> m0 !! k.

Lemma replaced_nil {A} (f : A → A) m : replaced f [] m m.
Proof. intros k. rewrite bool_decide_false by apply not_elem_of_nil. by rewrite option_fmap_id. Qed.

Lemma replaced_snoc {A} (f : A → A) ids m0 m k x :
  replaced f ids m0 m → k ∉ ids → m0 !! k = Some x → replaced f (ids ++ [k]) m0 (<[k := f x]> m).
Proof.
  intros Hr Hk Hx i. destruct (decide (i = k)) as [->|Hne].
  - rewrite lookup_insert_eq, bool_decide_true by apply elem_of_snoc. by rewrite Hx.
  - rewrite lookup_insert_ne, Hr by done. rewrite (bool_decide_ext (i ∈ ids ++ [k]) (i ∈ ids)); [done|].
    rewrite elem_of_app, list_elem_of_singleton. naive_solver.
Qed.

Lemma replaced_out {A} (f : A → A) ids m0 m k : replaced f ids m0 m → k ∉ ids → m !! k = m0 !! k.
Proof. intros Hr Hk. rewrite Hr, bool_decide_false by done. by rewrite option_fmap_id. Qed.

Lemma replaced_all {A} (f : A → A) ids m0 m :
  replaced f ids m0 m → (∀ k x, m0 !! k = Some x → k ∈ ids) → m = f <$> m0.
Proof.
  intros Hr Hall. apply map_eq. intros k. rewrite Hr, lookup_fmap. destruct (m0 !! k) as [x|] eqn:E; [|done].
  by rewrite bool_decide_true by by eapply Hall.
Qed.

Section Boot.
Context (range : ∀ A, gmap string A → list (string * A)).
Context (range_perm : ∀ A (m : gmap string A), range A m ≡ₚ map_to_list m).

(** Under way in [retire]: some reservation is booked ahead. *)
Definition retiring (j0 : journal) (ps gs : list string) (tx : TX) : Prop :=
  (∃ x, jinv (Poisoned j0) x (tx_j tx)) ∧ Poisoned (tx_j tx) = Poisoned j0
  ∧ replaced retired_permit ps (Permits j0) (Permits (tx_j tx)) ∧ replaced burn gs (Grants j0) (Grants (tx_j tx)).

Lemma retire_meter_spec j0 ps gs bound id :
  counter bound → hoare (retiring j0 ps gs) (retire_meter bound id) (λ _, retiring j0 ps gs).
Proof.
  intros Hb. apply hoare_meter. intros m. apply hoare_lift. intros c Hc. apply hoare_lift. intros q Hq.
  apply hoare_modify. intros tx [((x & Hj) & Hrest) Hm].
  destruct (ji_meters _ _ _ Hj _ _ Hm) as (Hmc & Hmo & Hms & ? & ?).
  apply add_Ok in Hc as [-> Hcc]; [|unfold counter in Hmc; lia|done]. apply bump_Ok in Hq as [-> Hqc]; [|lia].
  split; [exists x|done]. apply jinv_put_meter; [done|]. unfold meter_ok, counter in *. simpl. lia.
Qed.

Lemma retire_permit_spec j0 ps gs k p :
  Permits j0 !! k = Some p → k ∉ ps →
  hoare (retiring j0 ps gs) (retire_permit (k, p)) (λ _, retiring j0 (ps ++ [k]) gs).
Proof.
  intros Hp Hk. cbn [retire_permit]. destruct (p_Done p) eqn:Ed.
  - apply hoare_ret. intros tx (Hj & Hpo & Hps & Hgs). split; [done|]. split; [done|]. split; [|done].
    rewrite <- (insert_id (Permits (tx_j tx)) k (retired_permit p)); [by apply replaced_snoc|].
    rewrite (replaced_out _ _ _ _ _ Hps Hk). unfold retired_permit. by rewrite Ed.
  - intros tx Ht. assert (Hb : counter (p_Bound p)).
    { destruct Ht as ((x & Hj) & _ & Hps & _). rewrite <- (replaced_out _ _ _ _ _ Hps Hk) in Hp.
      by destruct (ji_permits _ _ _ Hj _ _ Hp). }
    revert tx Ht. apply (hoare_seq _ (retiring j0 ps gs)); [apply hoare_each_inv; intros id _; by apply retire_meter_spec|].
    apply hoare_modify. intros tx ((x & Hj) & Hpo & Hps & Hgs). split; [|split; [done|split; [|done]]].
    + assert (Hp' : Permits (tx_j tx) !! k = Some p) by by rewrite (replaced_out _ _ _ _ _ Hps Hk).
      exists (λ id, ((x id).1 + due id p, (x id).2 + pending id p)).
      apply (jinv_put_permit _ x); [done|by destruct (ji_permits _ _ _ Hj _ _ Hp') as (? & ? & ? & ? & ?)|].
      intros id. unfold owed, npending. rewrite !(sum_map_update _ _ _ _ _ Hp'). unfold due, pending. simpl. rewrite Ed. lia.
    + simpl. pose proof (replaced_snoc retired_permit ps _ _ k p Hps Hk Hp) as Hs. unfold retired_permit at 2 in Hs.
      by rewrite Ed in Hs.
Qed.

Lemma retire_grant_spec j0 ps gs k g :
  Grants j0 !! k = Some g → k ∉ gs →
  hoare (retiring j0 ps gs) (retire_grant (k, g)) (λ _, retiring j0 ps (gs ++ [k])).
Proof.
  intros Hg Hk. cbn [retire_grant]. apply hoare_lift. intros q Hq. apply hoare_modify.
  intros tx ((x & Hj) & Hpo & Hps & Hgs). split; [|split; [done|split; [done|]]].
  - assert (Hg' : Grants (tx_j tx) !! k = Some g) by by rewrite (replaced_out _ _ _ _ _ Hgs Hk).
    destruct (ji_grants _ _ _ Hj _ _ Hg') as ([] & Hr & Hn).
    apply bump_Ok in Hq as [-> Hqc]; [|lia]. unfold counter in *.
    exists (λ id, if bool_decide (id = k) then ((x k).1 - g_Reserved g, (x k).2 - g_Pending g) else x id).
    simpl. apply (jinv_put_grant _ x _ k g); [done|done| | | |].
    + split; simpl; unfold counter; try done; try int_lia.
    + rewrite bool_decide_true by done. simpl. lia.
    + rewrite bool_decide_true by done. simpl. lia.
    + intros i Hne. by rewrite bool_decide_false.
  - simpl. apply bump_Ok in Hq as [-> _]; [by apply (replaced_snoc burn)|].
    assert (Hg' : Grants (tx_j tx) !! k = Some g) by by rewrite (replaced_out _ _ _ _ _ Hgs Hk).
    destruct (ji_grants _ _ _ Hj _ _ Hg') as ([] & _). lia.
Qed.

(** A loop over a map visits every key once. *)
Lemma each_range {A} (m : gmap string A) (I : list string → TX → Prop) (f : string * A → STE TX AdmissionError unit) :
  (∀ ids k x, m !! k = Some x → k ∉ ids → hoare (I ids) (f (k, x)) (λ _, I (ids ++ [k]))) →
  hoare (I []) (each (range A m) f) (λ _, I (range A m).*1).
Proof.
  intros Hf. pose proof (hoare_each (λ l, I l.*1) f (range A m) []) as He. simpl in He. apply He. intros l [k x] todo Hl.
  rewrite fmap_app. simpl. pose proof (range_NoDup range range_perm m) as Hnd. rewrite Hl, fmap_app in Hnd. simpl in Hnd.
  apply Hf.
  - apply (range_lookup range range_perm). rewrite Hl. apply elem_of_app. right. by left.
  - apply NoDup_app in Hnd as (_ & Hd & _). intros Hin. apply (Hd _ Hin). by left.
Qed.

Lemma range_keys {A} (m : gmap string A) k x : m !! k = Some x → k ∈ (range A m).*1.
Proof.
  intros Hk. apply (range_lookup range range_perm) in Hk. apply list_elem_of_fmap. by exists (k, x).
Qed.

Lemma retire_spec j0 :
  escrow_inv j0 →
  match retire range (mkTX j0 0 false) with
  | (Ok _, tx) => escrow_inv (tx_j tx) ∧ Poisoned (tx_j tx) = Poisoned j0
      ∧ Permits (tx_j tx) = retired_permit <$> Permits j0 ∧ Grants (tx_j tx) = burn <$> Grants j0
  | (Err _, _) => True
  end.
Proof.
  intros Hj0.
  assert (H : hoare (λ tx, retiring j0 [] [] tx ∧ tx_j tx = j0) (retire range)
    (λ _ tx, retiring j0 (range _ (Permits j0)).*1 (range _ (Grants j0)).*1 tx)).
  { apply hoare_get. intros j. apply (hoare_pre _ (λ tx, retiring j0 [] [] tx ∧ j = j0)); [|naive_solver].
    intros tx' [Ht ->]. revert tx' Ht.
    apply (hoare_seq _ (retiring j0 (range _ (Permits j0)).*1 [])).
    { apply (each_range (Permits j0) (λ ps, retiring j0 ps [])). intros. by apply retire_permit_spec. }
    apply (hoare_seq _ (retiring j0 (range _ (Permits j0)).*1 (range _ (Grants j0)).*1)).
    { apply (each_range (Grants j0) (retiring j0 (range _ (Permits j0)).*1)). intros. by apply retire_grant_spec. }
    apply hoare_modify. intros tx' ((x & Hj) & Hpo & Hps & Hgs). split_and!; try done. exists x.
    by apply (jinv_other _ _ (tx_j tx')). }
  specialize (H (mkTX j0 0 false)). destruct (retire range _) as [[[]|e] tx1]; [|done].
  destruct H as ((x & Hj) & Hpo & Hps & Hgs).
  { split; [|done]. split; [by exists none|]. split; [done|]. split; apply replaced_nil. }
  assert (Ep : Permits (tx_j tx1) = retired_permit <$> Permits j0) by (eapply replaced_all; [done|apply range_keys]).
  assert (Eg : Grants (tx_j tx1) = burn <$> Grants j0) by (eapply replaced_all; [done|apply range_keys]).
  split; [|done]. unfold escrow_inv. rewrite Hpo. destruct Hj as [Hv Hgr Hm Hpe Hb]. split; try done.
  intros id g Hg. destruct (Hgr id g Hg) as (Hok & _ & _). split; [done|].
  rewrite Eg, lookup_fmap in Hg. destruct (Grants j0 !! id) as [g0|]; [|done]. injection Hg as <-. simpl.
  assert (Hd : ∀ i p, Permits (tx_j tx1) !! i = Some p → p_Done p = true).
  { intros i p Hp. rewrite Ep, lookup_fmap in Hp. destruct (Permits j0 !! i) as [p0|]; [|done]. injection Hp as <-.
    unfold retired_permit. by destruct (p_Done p0) eqn:Ed. }
  unfold owed, npending. rewrite !sum_map_zero; [done|..]; intros i p Hp; specialize (Hd i p Hp);
    unfold due, pending; by rewrite Hd.
Qed.
End Boot.

(** ** Histories of the file *)

(** An operation of a handle, with what the outside answers it. *)
Inductive op :=
| OpReserve (o1 o2 : TxResult) (t1 t2 t3 : Time) (subject : Subject) (bound : Z)
| OpFinish (o : TxResult) (now : Time) (a : BudgetPermit) (actual : option Z) (complete : bool)
| OpRequest (o : TxResult) (now : Time)
| OpApply (o : TxResult) (received : Time) (rtt : Duration) (resp : AuthorityResponse).

Section History.
Context (sums : AuthorityGrant → string) (enc : list string → string) (nonces : nat → option string).
Context (range : ∀ A, gmap string A → list (string * A)).
Context (enc_key : ∀ i k w k' w', enc [i; k; w] = enc [i; k'; w'] → k = k').
Context (range_perm : ∀ A (m : gmap string A), range A m ≡ₚ map_to_list m).

Definition run (c : op) (w : World) : World :=
  match c with
  | OpReserve o1 o2 t1 t2 t3 subject bound => (Reserve sums enc nonces range o1 o2 t1 t2 t3 subject bound w).2
  | OpFinish o now a actual complete => (Finish sums enc range o now a actual complete w).2
  | OpRequest o now => (Request sums enc range o now w).2
  | OpApply o received rtt resp => (Apply sums enc range o received rtt resp w).2
  end.

(** The amounts are 64-bit integers, and a random identifier is new. *)
Definition op_ok (r : option (string * journal)) (s : Store) (c : op) : Prop :=
  match c with
  | OpReserve _ _ _ _ _ _ bound => bound <= MaxInt64 ∧ ∀ owner j, r = Some (owner, j) → fresh nonces j (nonces_read s)
  | OpFinish _ _ _ actual _ => default 0 actual <= MaxInt64
  | OpRequest _ _ => True
  | OpApply _ _ _ resp => Forall (λ g, ag_Amount g <= MaxInt64) (rs_Grants resp)
  end.

(** A boot, or an operation of a handle in whatever state. *)
Inductive step : option (string * journal) → option (string * journal) → Prop :=
| step_boot r inst o : step r (Open sums enc range inst o r).2
| step_op r s c : op_ok r s c → step r (row (run c (mkWorld r s))).

Definition history : option (string * journal) → Prop := rtc step None.

(** *** The bodies as whole operations *)

Lemma row_step_inv r r' : row_inv r → row_step r r' → row_inv r'.
Proof.
  intros Hi [->|(? & ? & ? & ? & _ & -> & Hj & _)]; [done|]. intros owner j' [= <- <-]. done.
Qed.

Lemma row_step_trans r1 r2 r3 : row_step r1 r2 → row_step r2 r3 → row_step r1 r3.
Proof.
  intros [->|(o1 & j1 & o2 & j2 & -> & -> & Hi & Hp)]; [done|].
  intros [->|(o3 & j3 & o4 & j4 & [= <- <-] & -> & Hi' & Hp')]; right; eexists _, _, _, _; split_and!; try done.
  intros Hpo. by apply Hp', Hp.
Qed.

Lemma undispatched_row o s0 pid now w :
  row_inv (row w) → row_step (row w) (row (transaction sums enc o (undispatched_body range s0 pid now) w).2).
Proof.
  intros Hi. apply transaction_row. intros j Hj.
  pose proof (undispatched_body_spec range s0 pid now j (Hi _ _ Hj) (mkTX j (nonces_read (store w)) false) eq_refl) as Hf.
  destruct (undispatched_body _ _ _ _ _) as [[[]|e] tx]; [|done]. destruct Hf as (Hinv & _ & Hpo & _).
  split; [done|]. intros Hp. by rewrite Hpo.
Qed.

Lemma Reserve_row o1 o2 t1 t2 t3 subject bound w :
  row_inv (row w) → bound <= MaxInt64 → (∀ owner j, row w = Some (owner, j) → fresh nonces j (nonces_read (store w))) →
  row_step (row w) (row (Reserve sums enc nonces range o1 o2 t1 t2 t3 subject bound w).2).
Proof.
  intros Hi Hb Hf. unfold Reserve. destruct (_ || _)%bool eqn:E; [by left|]. bsplit.
  assert (Hs : row_step (row w) (row (transaction sums enc o1 (reserve_body enc nonces range (store w) subject bound t1) w).2)).
  { apply transaction_row. intros j Hj.
    pose proof (reserve_body_spec enc nonces range enc_key (store w) subject bound t1 j (nonces_read (store w))
      (Hi _ _ Hj) (Hf _ _ Hj) ltac:(unfold counter; lia) (mkTX j (nonces_read (store w)) false) (conj eq_refl eq_refl)) as Hr.
    destruct (reserve_body _ _ _ _ _ _ _ _) as [[a|e] tx]; [|done]. destruct Hr as (Hinv & Hpo & _).
    split; [done|]. intros Hp. by rewrite Hpo. }
  pose proof (row_step_inv _ _ Hi Hs) as Hi'.
  destruct (transaction _ _ o1 _ w) as [[[[[[e|] [p|]] ex] j']|e] w']; try done. cbn [snd] in *.
  destruct (_ && _)%bool; [|done].
  pose proof (undispatched_row o2 (store w') (bp_ID p) t3 w' Hi') as Hu.
  destruct (transaction _ _ o2 _ w') as [[u|e] w2]; cbn [snd row] in *; by eapply row_step_trans.
Qed.

Lemma Finish_row o now a actual complete w :
  row_inv (row w) → default 0 actual <= MaxInt64 →
  row_step (row w) (row (Finish sums enc range o now a actual complete w).2).
Proof.
  intros Hi Hb. unfold Finish. destruct (_ || _)%bool eqn:E; [by left|]. bsplit.
  assert (Hs : row_step (row w) (row (transaction sums enc o (finish_body range (store w) a actual
                 (complete && negb (bp_InvalidUsage a)) now) w).2)).
  { apply transaction_row. intros j Hj.
    assert (Ha : actual_ok actual) by (destruct actual; simpl in *; unfold counter; lia || done).
    pose proof (finish_body_spec range (store w) a actual (complete && negb (bp_InvalidUsage a)) now j (Hi _ _ Hj) Ha
      (mkTX j (nonces_read (store w)) false) eq_refl) as Hf.
    destruct (finish_body _ _ _ _ _ _ _) as [[r|e] tx]; [|done]. destruct Hf as (Hinv & p & _ & _ & _ & Hfin).
    split; [done|]. intros Hp. destruct Hfin as [| |c o' j' _ _ _ _ _ Hpo]; [done..|]. by rewrite Hpo, Hp. }
  destruct (transaction _ _ o _ w) as [[[r j']|e] w']; exact Hs.
Qed.

Lemma safe_row {A} o (fn : STE TX AdmissionError A) w :
  row_inv (row w) → (∀ po, hoare (safe po) fn (λ _, safe po)) → row_step (row w) (row (transaction sums enc o fn w).2).
Proof.
  intros Hi Hfn. apply transaction_row. intros j Hj.
  specialize (Hfn (Poisoned j) (mkTX j (nonces_read (store w)) false) (conj (Hi _ _ Hj) eq_refl)).
  destruct (fn _) as [[a|e] tx]; [|done]. destruct Hfn as [Hj' Hp]. split; [unfold escrow_inv; by rewrite Hp|].
  intros Hpo. by rewrite Hp.
Qed.

Lemma run_row c w : row_inv (row w) → op_ok (row w) (store w) c → row_step (row w) (row (run c w)).
Proof.
  intros Hi. destruct c as [o1 o2 t1 t2 t3 subject bound|o now a actual complete|o now|o received rtt resp]; simpl.
  - intros []. by apply Reserve_row.
  - by apply Finish_row.
  - intros _. unfold Request. pose proof (safe_row o _ w Hi (λ po, request_body_safe range po (store w) now)) as Hs.
    destruct (transaction _ _ o _ w) as [[[out j']|e] w']; exact Hs.
  - intros Hg. unfold Apply. destruct (_ || _)%bool; [by left|].
    destruct (validateBudgets resp) as [budgets|e] eqn:Ev; [|by left].
    pose proof (safe_row o _ w Hi (λ po, apply_body_safe sums enc range range_perm po (store w) received rtt resp budgets Ev Hg)) as Hs.
    destruct (transaction _ _ o _ w) as [[[[[stale ds] ws] j']|e] w']; exact Hs.
Qed.

Lemma Open_row inst o r : row_inv r →
  row_step r (Open sums enc range inst o r).2
  ∨ r = None ∧ ∃ j, (Open sums enc range inst o r).2 = Some (inst, j) ∧ escrow_inv j.
Proof.
  intros Hi. assert (Hreset : ∀ j, escrow_inv j →
    let j' := collect sums enc inst (with_Snapshot zeroStamp ∅ (with_Ready false j)) in
    escrow_inv j' ∧ Poisoned j' = Poisoned j).
  { intros j [Hv Hg Hm Hp Hb]. set (j1 := with_Snapshot zeroStamp ∅ (with_Ready false j)).
    destruct (collect_spec sums enc inst j1) as [Hc (Hpo & _)]; [|by split].
    by split. }
  unfold Open, initialize. destruct o as [|c|c landed]; [|by left; left|].
  all: destruct r as [[owner j]|];
    [destruct (decodes j); [|by left; left];
     pose proof (retire_spec range range_perm j (Hi _ _ eq_refl)) as Hr;
     destruct (retire range _) as [[u|e] tx]; [|by left; left];
     destruct Hr as (Hr & Hpo & _); destruct (Hreset _ Hr) as [Hi' Hpo']|
     assert (He : escrow_inv emptyJournal) by
       (split; try done; simpl; intros ? ?; by rewrite lookup_empty);
     destruct (Hreset _ He) as [Hi' _]].
  - left. right. eexists _, _, _, _. split_and!; [done..|]. intros Hp. by rewrite Hpo', Hpo.
  - right. split; [done|]. by eexists.
  - destruct landed; [|by left; left]. left. right. eexists _, _, _, _. split_and!; [done..|].
    intros Hp. by rewrite Hpo', Hpo.
  - destruct landed; [|by left; left]. right. split; [done|]. by eexists.
Qed.

Lemma journal_step_inv r r' : row_inv r → step r r' → row_inv r'.
Proof.
  intros Hi Hs. destruct Hs as [r inst o|r s c Hok].
  - destruct (Open_row inst o r Hi) as [Hs|(-> & j & -> & Hj)]; [by eapply row_step_inv|].
    intros owner j' [= <- <-]. done.
  - eapply row_step_inv; [exact Hi|]. by apply (run_row c (mkWorld r s)).
Qed.

Lemma history_inv r : history r → row_inv r.
Proof.
  intros Hh. assert (H : ∀ r1 r2, rtc step r1 r2 → row_inv r1 → row_inv r2).
  { induction 1 as [|r1 r2 r3 Hs _ IH]; [done|]. intros Hi. apply IH. by eapply journal_step_inv. }
  by apply (H None).
Qed.

Lemma step_poisoned r r' owner j :
  row_inv r → step r r' → r = Some (owner, j) → Poisoned j = true → ∃ owner' j', r' = Some (owner', j') ∧ Poisoned j' = true.
Proof.
  intros Hi Hs -> Hp.
  assert (Hrow : row_step (Some (owner, j)) r').
  { inversion Hs; subst.
    - by destruct (Open_row inst o (Some (owner, j)) Hi) as [?|[? _]].
    - by apply (run_row c (mkWorld (Some (owner, j)) s)). }
  destruct Hrow as [->|(o1 & j1 & o2 & j2 & [= <- <-] & -> & _ & Hpo)]; [by exists owner, j|].
  exists o2, j2. split; [done|by apply Hpo].
Qed.

Lemma steps_poisoned r r' : rtc step r r' → row_inv r → ∀ owner j, r = Some (owner, j) → Poisoned j = true →
  row_inv r' ∧ ∃ owner' j', r' = Some (owner', j') ∧ Poisoned j' = true.
Proof.
  induction 1 as [r|r1 r2 r3 Hs _ IH]; intros Hi owner j Hr Hp; [split; [done|by exists owner, j]|].
  destruct (step_poisoned _ _ _ _ Hi Hs Hr Hp) as (o2 & j2 & Hr2 & Hp2).
  apply (IH ltac:(by eapply journal_step_inv) o2 j2 Hr2 Hp2).
Qed.

(** ** The properties *)

(** C15: In every history of the file, whatever the storage and the control
    plane answered: the bounds of the permits pending on a grant are exactly
    what it reserves; the observed cost is never more than what is charged;
    and unless an overrun has closed admission, what was charged and every
    bound still pending fit together in the amount the control plane leased. *)
Theorem escrow_never_overspends r owner j id g :
  history r → r = Some (owner, j) → Grants j !! id = Some g →
  decodes j = true ∧ g_Reserved g = owed j id ∧ 0 <= g_Observed g <= g_Consumed g
  ∧ (Poisoned j = false → g_Consumed g + owed j id <= ag_Amount (g_Wire g)).
Proof.
  intros Hh Hr Hg. pose proof (history_inv r Hh _ _ Hr) as Hj. split; [by eapply decodes_inv|].
  destruct (ji_grants _ _ _ Hj _ _ Hg) as ([] & Hres & _). simpl in Hres. split; [lia|]. split; [lia|].
  intros Hp. assert (Ho : g_Overrun g = false) by (destruct (g_Overrun g); [by rewrite go_overrun in Hp|done]).
  specialize (go_fits Ho). lia.
Qed.

(** C16: A permit that [Reserve] returns is new and stands in the file with its
    whole bound; the window of every budget the request answers to was open;
    and for each hard one of them a live grant of this boot and of the
    budget's current definition holds it, with room for all it holds. *)
Theorem Reserve_backed r s o1 o2 t1 t2 t3 subject bound p w' :
  history r → op_ok r s (OpReserve o1 o2 t1 t2 t3 subject bound) →
  Reserve sums enc nonces range o1 o2 t1 t2 t3 subject bound (mkWorld r s) = (Ok p, w') →
  ∃ j j' pm, r = Some (instance s, j) ∧ row w' = Some (instance s, j') ∧ Poisoned j = false
    ∧ Permits j !! bp_ID p = None ∧ Permits j' !! bp_ID p = Some pm
    ∧ p_Done pm = false ∧ p_Bound pm = bound ∧ p_Instance pm = instance s
    ∧ ∀ k b, Budgets j !! k = Some b → matches b subject = true →
        Before t1 (default zeroTime (windows s !! k)) = true
        ∧ (b_HardCap b = true → ∃ id g, id ∈ p_Grants pm ∧ Grants j' !! id = Some g ∧ own s g b
             ∧ g_Consumed g + owed j' id <= ag_Amount (g_Wire g)).
Proof.
  intros Hh [Hb Hfresh] Hres. pose proof (history_inv r Hh) as Hi. unfold Reserve in Hres.
  destruct (_ || _)%bool eqn:E; [done|]. bsplit.
  destruct (transaction _ _ o1 _ _) as [[[[[e x] ex] j']|e] w1] eqn:Et; [|done].
  destruct (transaction_Ok _ _ _ _ _ _ _ _ Et) as (j & tx & Hrow & Hbody & Hj' & Hrow1 & _). simpl in Hrow, Hrow1.
  destruct e as [e|]; [done|]. destruct x as [p'|]; [|done].
  destruct (_ && _)%bool; [by destruct (transaction _ _ o2 _ w1) as [[?|?] ?]|]. injection Hres as -> ->.
  pose proof (reserve_body_spec enc nonces range enc_key s subject bound t1 j (nonces_read s)
    (Hi _ _ Hrow) (Hfresh _ _ Hrow) ltac:(unfold counter; lia) (mkTX j (nonces_read s) false) (conj eq_refl eq_refl)) as Hr.
  simpl in Hbody. rewrite Hbody in Hr. destruct Hr as (Hinv & Hpo & Hbs & chosen & meters & Hbd & _ & Hpz & _ & Hps & Hnew & Hall & Hwin).
  destruct (collect_spec sums enc (instance s) (tx_j tx) Hinv) as [_ (_ & _ & _ & _ & Hpend & Howed & _ & Hkeep)].
  assert (Hpm : Permits (tx_j tx) !! bp_ID p = Some (mkPermit (instance s) bound chosen meters false false None false false))
    by (by rewrite Hps, lookup_insert_eq).
  exists j, j', (mkPermit (instance s) bound chosen meters false false None false false). simpl in Hj'.
  split_and!; try done; [rewrite Hj'; by apply Hpend|].
  intros k b Hk Hm. split; [apply Hwin; unfold subject_to; by rewrite Hk|]. intros Hhard.
  assert (Hin : k ∈ hard_keys j subject (sortedKeys (Budgets j))).
  { apply list_elem_of_filter. split; [unfold hard_for; by rewrite Hk, Hm, Hhard|]. apply sortedKeys_elem. by exists b. }
  destruct (Forall2_elem_l _ _ _ _ Hall Hin) as (id & Hid & g & b' & Hg & Hb' & Hown & Hroom).
  rewrite Hk in Hb'. injection Hb' as <-. exists id, g. split_and!; [done| |done|].
  - rewrite Hj'. by rewrite (Hkeep _ _ _ Hpm eq_refl Hid).
  - by rewrite Hj', Howed.
Qed.

(** The recorded outcome of a settlement. *)
Definition outcome (a : BudgetPermit) (actual : option Z) (complete : bool) (p : permit) : Prop :=
  p_Done p = true ∧ p_Complete p = (complete && negb (bp_InvalidUsage a))%bool ∧ p_InvalidUsage p = bp_InvalidUsage a
  ∧ (actual = None ∨ p_Actual p = actual).

(** C17: A settlement that [Finish] accepts charges its permit once.  The first
    one charges exactly [charge] to each grant of the permit that remains and
    nothing to any other, and records its outcome; any later one agrees with
    the recorded outcome and charges nothing. *)
Theorem Finish_charges_once r s o now a actual complete w' :
  history r → default 0 actual <= MaxInt64 →
  Finish sums enc range o now a actual complete (mkWorld r s) = (Ok tt, w') →
  ∃ j j' p, r = Some (instance s, j) ∧ row w' = Some (instance s, j') ∧ Permits j !! bp_ID a = Some p
    ∧ p_Bound p = bp_Bound a
    ∧ (p_Done p = true → outcome a actual complete p ∧ ∀ id g, Grants j' !! id = Some g → Grants j !! id = Some g)
    ∧ (p_Done p = false → ∃ c o, charge (p_Bound p) actual (complete && negb (bp_InvalidUsage a)) = (c, o)
         ∧ (∀ p', Permits j' !! bp_ID a = Some p' → outcome a actual complete p')
         ∧ (bp_InvalidUsage a = true ∨ p_Bound p < o → Poisoned j' = true)
         ∧ ∀ id g', Grants j' !! id = Some g' → ∃ g, Grants j !! id = Some g
             ∧ spent g' = if bool_decide (id ∈ p_Grants p) then (g_Consumed g + c, g_Observed g + o) else spent g).
Proof.
  intros Hh Hb Hfin. pose proof (history_inv r Hh) as Hi. unfold Finish in Hfin. destruct (_ || _)%bool eqn:E; [done|]. bsplit.
  destruct (transaction _ _ o _ _) as [[[rs j']|e] w1] eqn:Et; [|done].
  destruct (transaction_Ok _ _ _ _ _ _ _ _ Et) as (j & tx & Hrow & Hbody & Hj' & Hrow1 & _). simpl in Hrow, Hrow1, Hbody, Hj'.
  destruct rs as [e|]; [done|]. injection Hfin as <-.
  assert (Ha : actual_ok actual) by (destruct actual; simpl in *; unfold counter; lia || done).
  pose proof (finish_body_spec range s a actual (complete && negb (bp_InvalidUsage a)) now j (Hi _ _ Hrow) Ha
      (mkTX j (nonces_read s) false) eq_refl) as Hf.
  rewrite Hbody in Hf. destruct Hf as (Hinv & p & Hp & Hbd & _ & Hf).
  destruct (collect_spec sums enc (instance s) (tx_j tx) Hinv) as [_ (Hpo & _ & _ & Hpl & _ & _ & Hsub & _)].
  exists j, j', p. split_and!; try done.
  - intros Hd. inversion Hf; subst; [|congruence]. split; [split_and!; try done; by right|].
    intros id g Hg. congruence || by apply Hsub.
  - intros Hd. inversion Hf as [| |c o' j1 Hd1 Hin Hch Hps Hsh Hpo']; subst; [congruence|].
    exists c, o'. split_and!; [done| | |].
    + intros p' Hp'. destruct (Hpl _ _ Hp') as (p0 & Hp0 & ->). rewrite Hps, lookup_insert_eq in Hp0. injection Hp0 as <-.
      unfold drop_refs. simpl. split_and!; try done. destruct actual; [by right|by left].
    + intros Hover. rewrite Hpo, Hpo'. destruct Hover as [->|Hlt]; [by rewrite orb_true_r|].
      assert ((p_Bound p <? o') = true) as -> by lia. apply orb_true_r.
    + intros id g' Hg'. apply Hsub in Hg'. specialize (Hsh id). rewrite Hg' in Hsh. simpl in Hsh.
      destruct (Grants j !! id) as [g|]; [|done]. exists g. split; [done|]. simpl in Hsh. by injection Hsh as ->.
Qed.

(** C18: A boot that succeeds burns what every earlier boot held: each grant
    it keeps is closed, reserves nothing and counts its whole amount as spent,
    each permit is settled for good, and no budget or window is known until
    the control plane answers. *)
Theorem Open_burns r inst o s r' :
  history r → Open sums enc range inst o r = (Ok s, r') →
  ∃ j', r' = Some (inst, j') ∧ j_Ready j' = false ∧ Budgets j' = ∅ ∧ windows s = ∅ ∧ deadlines s = ∅
    ∧ (∀ k p, Permits j' !! k = Some p → p_Done p = true)
    ∧ ∀ id g', Grants j' !! id = Some g' →
        g_Closed g' = true ∧ g_Reserved g' = 0 ∧ ag_Amount (g_Wire g') <= g_Consumed g'
        ∧ ∃ owner j g, r = Some (owner, j) ∧ Grants j !! id = Some g ∧ g' = burn g.
Proof.
  intros Hh Ho. pose proof (history_inv r Hh) as Hi. unfold Open, initialize in Ho.
  assert (Hcol : ∀ j, escrow_inv j → (∀ k p, Permits j !! k = Some p → p_Done p = true) →
    let j' := collect sums enc inst (with_Snapshot zeroStamp ∅ (with_Ready false j)) in
    j_Ready j' = false ∧ Budgets j' = ∅ ∧ (∀ k p, Permits j' !! k = Some p → p_Done p = true)
    ∧ (∀ id g, Grants j' !! id = Some g → Grants j !! id = Some g)).
  { intros j [Hv Hg Hm Hp Hb] Hd. set (j1 := with_Snapshot zeroStamp ∅ (with_Ready false j)).
    destruct (collect_spec sums enc inst j1) as [_ (_ & HB & HR & Hpl & _ & _ & Hsub & _)]; [by split|].
    split_and!; [done|done| |done]. intros k p Hk. destruct (Hpl _ _ Hk) as (p0 & Hp0 & ->). rewrite drop_refs_done. by eapply Hd. }
  destruct o as [|c|c landed]; [|done|by destruct r as [[? ?]|]; repeat (case_match; try done)].
  destruct r as [[owner j]|].
  - destruct (decodes j); [|done]. pose proof (retire_spec range range_perm j (Hi _ _ eq_refl)) as Hr.
    destruct (retire range _) as [[u|e] tx]; [|done]. injection Ho as <- <-. destruct Hr as (Hinv & _ & Hps & Hgs).
    destruct (Hcol (tx_j tx) Hinv) as (HR & HB & Hd & Hsub).
    { intros k p. rewrite Hps, lookup_fmap. destruct (Permits j !! k) as [p0|]; [|done]. intros [= <-].
      unfold retired_permit. by destruct (p_Done p0) eqn:Ed. }
    eexists. split_and!; [done..|]. intros id g' Hg'. apply Hsub in Hg'. rewrite Hgs, lookup_fmap in Hg'.
    destruct (Grants j !! id) as [g|] eqn:Eg; [|done]. injection Hg' as <-. simpl. split_and!; [done|done|lia|].
    by exists owner, j, g.
  - injection Ho as <- <-. destruct (Hcol emptyJournal) as (HR & HB & Hd & Hsub).
    { by split. } { intros k p. simpl. by rewrite lookup_empty. }
    eexists. split_and!; [done..|]. intros id g' Hg'. apply Hsub in Hg'. simpl in Hg'. by rewrite lookup_empty in Hg'.
Qed.

(** C19: An overrun is never forgotten: once the file records one, every later
    state of it does, across boots, and no handle is ever admitted again. *)
Theorem overrun_is_final r owner j r' s o1 o2 t1 t2 t3 subject bound :
  history r → r = Some (owner, j) → Poisoned j = true → rtc step r r' →
  (∃ owner' j', r' = Some (owner', j') ∧ Poisoned j' = true)
  ∧ ¬ is_ok (Reserve sums enc nonces range o1 o2 t1 t2 t3 subject bound (mkWorld r' s)).1 = true.
Proof.
  intros Hh Hr Hp Hs. destruct (steps_poisoned _ _ Hs (history_inv _ Hh) _ _ Hr Hp) as (_ & owner' & j' & Hr' & Hp').
  split; [by exists owner', j'|]. unfold Reserve. destruct (_ || _)%bool; [done|].
  destruct (transaction _ _ o1 _ _) as [[[[[e x] ex] j2]|e] w1] eqn:Et; [|done].
  destruct (transaction_Ok _ _ _ _ _ _ _ _ Et) as (j1 & tx & Hrow & Hbody & _). simpl in Hrow, Hbody.
  exfalso. rewrite Hr' in Hrow. injection Hrow as -> ->. unfold reserve_body in Hbody.
  unfold mbind, ste_mbind, tx_get in Hbody. simpl in Hbody. by rewrite Hp' in Hbody.
Qed.
End History.

(** ** The properties at a concrete file *)

Module Demo.
Import Escrow.Demo.

Lemma escaped_inj s s' r r' : escaped s r = escaped s' r' → s = s' ∧ r = r'.
Proof.
  revert s'. induction s as [|a s IH]; intros [|a' s'] He; simpl in He; try done; injection He.
  { intros Hr. by split. }
  intros Hr ->. by destruct (IH _ Hr) as [-> ->].
Qed.

Lemma enc_key i k w k' w' : enc [i; k; w] = enc [i; k'; w'] → k = k'.
Proof. simpl. intros [_ He]%escaped_inj. by apply escaped_inj in He as [-> _]. Qed.

Lemma range_perm (A : Type) (m : gmap string A) : range A m ≡ₚ map_to_list m.
Proof. done. Qed.

Abbreviation hist := (history sums enc nonces range).
Abbreviation ops_ok := (op_ok nonces).
Abbreviation runs := (run sums enc nonces range).

Lemma history_run w c : hist (row w) → ops_ok (row w) (store w) c → hist (row (runs c w)).
Proof. destruct w as [r s]. intros Hh Hok. eapply rtc_r; [exact Hh|]. by apply step_op. Qed.

Definition no_permits (r : option (string * journal)) : bool :=
  match r with Some (_, j) => bool_decide (Permits j = ∅) | None => true end.

Lemma no_permits_fresh r n : no_permits r = true → ∀ owner j, r = Some (owner, j) → fresh nonces j n.
Proof. intros Hn owner j -> k id _ _. simpl in Hn. bsplit. by rewrite Hn. Qed.

Definition wa : World := apply_resp [] w0.
Definition wb : World := (reserve 40 wa).2.
Definition wc : World := (Request sums enc range TxOK now wb).2.

Lemma history_w1 : hist (row w1).
Proof.
  assert (H0 : hist (row w0)).
  { assert (E : row w0 = (Open sums enc range "i" TxOK None).2) by (by vm_compute). rewrite E.
    eapply rtc_r; [apply rtc_refl|apply step_boot]. }
  assert (Ha : hist (row wa)).
  { apply (history_run w0 (OpApply TxOK now 0 (respond []))); [done|]. by constructor. }
  assert (Hb : hist (row wb)).
  { apply (history_run wa (OpReserve TxOK TxOK now now now subject 40)); [done|].
    split; [by vm_compute|]. apply no_permits_fresh. by vm_compute. }
  assert (Hc : hist (row wc)) by by apply (history_run wb (OpRequest TxOK now)).
  apply (history_run wc (OpApply TxOK now 0 (respond [granted]))); [done|]. by repeat constructor.
Qed.

Lemma w1_op : ops_ok (row w1) (store w1) (OpReserve TxOK TxOK now now now subject 40).
Proof. split; [by vm_compute|]. apply no_permits_fresh. by vm_compute. Qed.

Lemma history_w2 : hist (row w2).
Proof. apply (history_run w1 (OpReserve TxOK TxOK now now now subject 40)); [apply history_w1|apply w1_op]. Qed.

Definition journal_of (w : World) : journal := default emptyJournal (snd <$> row w).

Lemma row_w2 : row w2 = Some ("i", journal_of w2).
Proof. by vm_compute. Qed.

Definition g2 : grant := mkGrant granted "i" 0 0 40 1 false false 1 0 0.

(** 40 is held of 100. *)
Lemma escrow_never_overspends_witness :
  Grants (journal_of w2) !! "g1" = Some g2 ∧ 0 + owed (journal_of w2) "g1" <= 100.
Proof.
  assert (Hg : Grants (journal_of w2) !! "g1" = Some g2) by (by vm_compute). split; [exact Hg|].
  apply (escrow_never_overspends sums enc nonces range enc_key range_perm _ _ _ _ _ history_w2 row_w2 Hg). by vm_compute.
Defined.

Lemma reserve_w1 : Reserve sums enc nonces range TxOK TxOK now now now subject 40 (mkWorld (row w1) (store w1)) = (Ok p1, w2).
Proof. by vm_compute. Qed.

Lemma w1_facts : match row w1 with Some (_, j) => Budgets j !! "k" = Some hard | None => False end.
Proof. by vm_compute. Qed.

Lemma Reserve_backed_witness :
  match row w2 with
  | Some (_, j) => ∃ pm id g, Permits j !! bp_ID p1 = Some pm ∧ id ∈ p_Grants pm ∧ Grants j !! id = Some g
                     ∧ g_Consumed g + owed j id <= ag_Amount (g_Wire g)
  | None => False
  end.
Proof.
  destruct (Reserve_backed sums enc nonces range enc_key range_perm _ _ _ _ _ _ _ _ _ _ _ history_w1 w1_op reserve_w1)
    as (j & j' & pm & Hr & Hr' & _ & _ & Hp & _ & _ & _ & Hall).
  pose proof w1_facts as Hk. rewrite Hr in Hk. rewrite Hr'.
  destruct (Hall "k" hard Hk ltac:(by vm_compute)) as [_ Hh]. destruct (Hh ltac:(by vm_compute)) as (id & g & Hin & Hg & _ & Hroom).
  exists pm, id, g. split_and!; [exact Hp|exact Hin|exact Hg|exact Hroom].
Defined.

Definition w3 : World := (finish p1 25 w2).2.
Definition w4 : World := (finish p1 150 w2).2.

Lemma finish_w2 : Finish sums enc range TxOK now p1 (Some 25) true (mkWorld (row w2) (store w2)) = (Ok tt, w3).
Proof. by vm_compute. Qed.

Definition pm2 : permit := mkPermit "i" 40 ["g1"] [enc ["i"; "s"; "w2"]] false false None false false.

Lemma w2_facts : match row w2 with
  | Some (_, j) => Grants j !! "g1" = Some g2 ∧ Permits j !! bp_ID p1 = Some pm2
  | None => False end.
Proof. by vm_compute. Qed.

Lemma w3_facts : match row w3 with Some (_, j) => is_Some (Grants j !! "g1") | None => False end.
Proof. vm_compute. by eexists. Qed.

Lemma Finish_charges_once_witness :
  match row w3 with Some (_, j') => spent <$> (Grants j' !! "g1") = Some (25, 25) | None => False end.
Proof.
  assert (Hb : default 0 (Some 25) <= MaxInt64) by (by vm_compute).
  destruct (Finish_charges_once sums enc nonces range enc_key range_perm _ _ _ _ _ _ _ _ history_w2 Hb finish_w2)
    as (j & j' & p & Hr & Hr' & Hp & _ & _ & Hfirst).
  pose proof w2_facts as H2. pose proof w3_facts as H3. rewrite Hr in H2. rewrite Hr' in H3. rewrite Hr'.
  destruct H2 as [Hg2 Hp2]. rewrite Hp2 in Hp. injection Hp as <-. destruct (Hfirst eq_refl) as (c & o & Hc & _ & _ & Hall).
  destruct H3 as [g Eg]. destruct (Hall _ _ Eg) as (g0 & Hg0 & Hsp). rewrite Eg. rewrite Hg2 in Hg0. injection Hg0 as <-.
  injection Hc as <- <-. simpl. rewrite Hsp. by vm_compute.
Defined.

Lemma open_w2 : is_ok (Open sums enc range "i2" TxOK (row w2)).1 = true.
Proof. by vm_compute. Qed.

Lemma Open_burns_witness :
  ∃ j', (Open sums enc range "i2" TxOK (row w2)).2 = Some ("i2", j')
    ∧ ∀ id g, Grants j' !! id = Some g → g_Closed g = true ∧ ag_Amount (g_Wire g) <= g_Consumed g.
Proof.
  pose proof open_w2 as Hok. destruct (Open sums enc range "i2" TxOK (row w2)) as [[s|e] r'] eqn:Eo; [|done].
  destruct (Open_burns sums enc nonces range enc_key range_perm _ _ _ _ _ history_w2 Eo) as (j' & Hr & _ & _ & _ & _ & _ & Hall).
  exists j'. split; [exact Hr|]. intros id g Hg. destruct (Hall id g Hg) as (Hc & _ & Ha & _). by split.
Defined.

(** A cost of 150 against a bound of 40. *)
Lemma history_w4 : hist (row w4).
Proof. apply (history_run w2 (OpFinish TxOK now p1 (Some 150) true)); [apply history_w2|by vm_compute]. Qed.

Lemma w4_facts : match row w4 with Some (_, j) => Poisoned j = true | None => False end.
Proof. by vm_compute. Qed.

Lemma overrun_is_final_witness :
  ¬ is_ok (Reserve sums enc nonces range TxOK TxOK now now now subject 1 (mkWorld (row w4) (store w4))).1 = true.
Proof.
  assert (H : ∀ r s, match r with Some (_, j) => Poisoned j = true | None => False end → hist r →
    ¬ is_ok (Reserve sums enc nonces range TxOK TxOK now now now subject 1 (mkWorld r s)).1 = true).
  { intros [[owner j]|] s Hp Hh; [|destruct Hp].
    destruct (overrun_is_final sums enc nonces range enc_key range_perm _ _ _ _ s TxOK TxOK now now now subject 1
                Hh eq_refl Hp (rtc_refl _ _)) as [_ Hno]. exact Hno. }
  exact (H (row w4) (store w4) w4_facts history_w4).
Defined.

End Demo.
