(* ===== verification/Central.v ===== *)
(** * The control plane's ledger: internal/authority/pgstore,
    internal/policy/authority_definitions.go

    The tables of the authority schema and one [Sync] of a dataplane over them:
    cumulative reports and meters are booked against the account of their
    budget window, and grants are leased while the account has room.

    A [Sync] is one transaction: it holds the policies, the dataplane and the
    accounts it touches until it commits, so it is one atomic step here, whose
    commit may report an error and land nevertheless.  A table is a map from
    its primary key.  The parsed policy documents stand for their YAML; the
    identity gate, the readings of the database clock and the random grant
    identities are inputs; [capabilityHash] and [authorityHash] are SHA-256 of
    a string and of a JSON list. *)

From S2P Require Import Prelude GoTime V1Alpha1 Policy Tier Escrow.

(** ** Why a synchronization is refused *)

Inductive CentralError :=
| DatabaseFailure | MissingClock | DuplicatePolicy | InvalidPolicy | InvalidLease
| InvalidIdentity | BatchTooLarge | MalformedRequest | DuplicateRequest | MalformedReport | DuplicateReport
| MalformedMeter | DuplicateMeter
| UnknownGrant | NonmonotonicReport | ReportExceedsGrant | RefundTwice | InconsistentRefund | Overflow
| NoSoftWindow | NonmonotonicMeter | ConflictingReplay | InvalidGrantAmount | UnknownWindow | WindowChanged
| InconsistentPending | NoTierWindow | GateRefused | NilAccount.

(** ** Budgets of a policy snapshot (authority_definitions.go) *)

(** A midnight in UTC in the layout [time.RFC3339]. *)
Definition rfc3339_midnight (t : Time) : string := format_day t UTC +:+ "T00:00:00Z".

(** The window of a period that holds [now]. *)
Definition window_of (now : Time) (period : string) : Time * Time :=
  let '(y, m, d) := civil_in now UTC in
  if bool_decide (period = v1alpha1.PeriodCalendarDay)
  then (GoTime.Date y m d UTC, GoTime.Date y m (d + 1) UTC)
  else (GoTime.Date y m 1 UTC, GoTime.Date y (m + 1) 1 UTC).

Definition budget_le (a b : AuthorityBudget) : Prop := String.ltb (Escrow.b_Key b) (Escrow.b_Key a) = false.
#[export] Instance budget_le_dec a b : Decision (budget_le a b) :=
  decide (String.ltb (Escrow.b_Key b) (Escrow.b_Key a) = false).

Section Definitions.
Context (range : gmap string string → list (string * string)).
Context (authorityHash : list string → string) (revise : Policy.Budget → string → string).

Definition authority_budget (now : Time) (p : Policy.Policy) (r : Policy.Rule) (b : Policy.Budget)
    : result CentralError AuthorityBudget :=
  let '(start, stop) := window_of now (Policy.b_Period b) in
  let sub := Policy.p_Subject p in
  let key := authorityHash [Policy.p_Name p; Policy.r_Name r; Policy.Team sub; Policy.User sub; Policy.b_Period b] in
  let seconds := wrap64 (3 * Policy.b_LeaseRenewInterval b) ÷ Second in
  if seconds <? 1 then Err InvalidLease
  else Ok (mkBudget key (Policy.p_Name p) (Policy.r_Name r) (Policy.Team sub) (Policy.User sub) (revise b (Policy.r_FailurePolicy r))
             (authorityHash [key; rfc3339_midnight start; rfc3339_midnight stop]) (mkStamp start 0) (mkStamp stop 0)
             (Policy.b_LimitMicroUSD b) (Policy.b_LeaseGrantMicroUSD b) seconds (Policy.b_HardCap b)).

(** The finite budgets of a document's rules, in order. *)
Fixpoint rule_budgets (now : Time) (p : Policy.Policy) (rs : list Policy.Rule) : result CentralError (list AuthorityBudget) :=
  match rs with
  | [] => Ok []
  | r :: rs =>
      match Policy.r_Budget r with
      | Some b =>
          if Policy.b_Unlimited b then rule_budgets now p rs
          else x ← authority_budget now p r b; xs ← rule_budgets now p rs; Ok (x :: xs)
      | None => rule_budgets now p rs
      end
  end.

Fixpoint doc_budgets (now : Time) (seen : list string) (docs : list v1alpha1.GovernancePolicy)
    : result CentralError (list AuthorityBudget) :=
  match docs with
  | [] => Ok []
  | doc :: docs =>
      let name := v1alpha1.om_Name (v1alpha1.Metadata doc) in
      if bool_decide (name ∈ seen) then Err DuplicatePolicy
      else match FromV1Alpha1 range doc with
      | Err _ => Err InvalidPolicy
      | Ok p => xs ← rule_budgets now p (Policy.p_Rules p); ys ← doc_budgets now (name :: seen) docs; Ok (xs ++ ys)
      end
  end.

Definition AuthorityBudgets (docs : list v1alpha1.GovernancePolicy) (databaseTime : Time)
    : result CentralError (list AuthorityBudget) :=
  if IsZero databaseTime then Err MissingClock
  else bs ← doc_budgets databaseTime [] docs; Ok (merge_sort budget_le bs).

End Definitions.

(** ** The tables (pgstore.go, accounts.go, grants.go) *)

Abbreviation accountKey := (string * string)%type.

Record account := mkAccount
  { hardEncumbered : Z; hardConsumed : Z; softConsumed : Z; softPending : Z; acceptsMeters : bool; frozen : bool }.

Record grantState := mkGrantState
  { gs_key : string; gs_window : string; gs_revision : string; gs_id : string; gs_denial : string;
    gs_want : Z; gs_amount : Z; gs_seq : Z; gs_consumed : Z; gs_observed : Z; gs_expires : option Time;
    gs_closed : bool; gs_overrun : bool }.

Record meterState := mkMeterState
  { ms_key : string; ms_window : string; ms_seq : Z; ms_consumed : Z; ms_observed : Z }.

(** (owner, instance, request hash); (owner, instance, budget key, window);
    (budget key, window, policy, rule). *)
Abbreviation requestKey := (string * string * string)%type.
Abbreviation meterKey := (string * string * string * string)%type.
Abbreviation tierKey := (string * string * string * string)%type.

Record DB := mkDB
  { Policies : list v1alpha1.GovernancePolicy; Accounts : gmap accountKey account;
    GrantRows : gmap requestKey grantState; MeterRows : gmap meterKey meterState; TierRows : gmap tierKey Z }.

Definition with_Accounts f db := mkDB (Policies db) (f (Accounts db)) (GrantRows db) (MeterRows db) (TierRows db).
Definition with_GrantRows f db := mkDB (Policies db) (Accounts db) (f (GrantRows db)) (MeterRows db) (TierRows db).
Definition with_MeterRows f db := mkDB (Policies db) (Accounts db) (GrantRows db) (f (MeterRows db)) (TierRows db).
Definition with_TierRows f db := mkDB (Policies db) (Accounts db) (GrantRows db) (MeterRows db) (f (TierRows db)).

Definition emptyDB (docs : list v1alpha1.GovernancePolicy) : DB := mkDB docs ∅ ∅ ∅ ∅.

(** A transaction under way: the tables, the accounts it has locked, and how
    many grant identities it has drawn. *)
Record CTX := mkCTX { c_db : DB; c_accounts : gmap accountKey account; c_ids : nat }.

Definition ctx_get : STE CTX CentralError CTX := λ t, (Ok t, t).
Definition ctx_lift {A} (r : result CentralError A) : STE CTX CentralError A := λ t, (r, t).
Definition ctx_db (f : DB → DB) : STE CTX CentralError unit :=
  λ t, (Ok tt, mkCTX (f (c_db t)) (c_accounts t) (c_ids t)).
Definition put_account (k : accountKey) (a : account) : STE CTX CentralError unit :=
  λ t, (Ok tt, mkCTX (c_db t) (<[k := a]> (c_accounts t)) (c_ids t)).
Definition get_account (k : accountKey) : STE CTX CentralError account :=
  λ t, (from_option Ok (Err NilAccount) (c_accounts t !! k), t).
Definition put_grant_row (k : requestKey) (g : grantState) : STE CTX CentralError unit :=
  ctx_db (with_GrantRows <[k := g]>).

Fixpoint ctx_each {A} (l : list A) (f : A → STE CTX CentralError unit) : STE CTX CentralError unit :=
  match l with [] => mret tt | x :: l => _ ← f x; ctx_each l f end.

(** ** Validation (accounts.go) *)

Definition checkedAdd (a b : Z) : result CentralError Z :=
  if ((a <? 0) || (b <? 0) || (wrap64 (MaxInt64 - b) <? a))%bool then Err Overflow else Ok (wrap64 (a + b)).

Definition nul : Ascii.ascii := Ascii.zero.

Definition validText (s : string) : bool :=
  (negb (bool_decide (s = "")) && (Z.of_nat (String.length s) <=? 1024) && str_free nul s)%bool.
Definition validCapability (s : string) : bool := (validText s && (32 <=? Z.of_nat (String.length s)))%bool.

Definition bad_request (r : AuthorityGrantRequest) : bool :=
  (negb (validCapability (q_RequestID r)) || negb (validText (q_Key r)) || negb (validText (q_WindowID r))
   || negb (validText (q_Revision r)) || (q_Want r <? 0))%bool.

Definition bad_report (r : AuthorityReport) : bool :=
  (negb (validText (ar_Instance r)) || negb (validText (ar_GrantID r)) || negb (validCapability (ar_RequestID r))
   || (ar_Sequence r <=? 0) || (ar_Consumed r <? 0) || (ar_Observed r <? 0)
   || (negb (ar_Overrun r) && (ar_Consumed r <? ar_Observed r)) || (ar_Overrun r && negb (ar_Closed r)))%bool.

Definition bad_meter (m : AuthorityMeter) : bool :=
  (negb (validText (am_Instance m)) || negb (validText (am_Key m)) || negb (validText (am_WindowID m))
   || (am_Sequence m <=? 0) || (am_Consumed m <? 0) || (am_Observed m <? 0) || (am_Consumed m <? am_Observed m))%bool.

(** A loop that refuses a malformed item, then one whose identity was seen. *)
Fixpoint valid_items {A K} `{EqDecision K} (bad : A → bool) (id : A → K) (malformed duplicate : CentralError)
    (seen : list K) (l : list A) : result CentralError unit :=
  match l with
  | [] => Ok tt
  | x :: l =>
      if bad x then Err malformed
      else if bool_decide (id x ∈ seen) then Err duplicate
      else valid_items bad id malformed duplicate (id x :: seen) l
  end.

Definition validateRequest (owner : string) (req : AuthorityRequest) : result CentralError unit :=
  if (negb (bool_decide (rq_Protocol req = AuthorityProtocol)) || negb (validText owner) || negb (validText (rq_Instance req)))%bool
  then Err InvalidIdentity
  else if 1024 <? Z.of_nat (length (rq_Requests req) + length (rq_Reports req) + length (rq_Meters req)) then Err BatchTooLarge
  else
    _ ← valid_items bad_request q_RequestID MalformedRequest DuplicateRequest [] (rq_Requests req);
    _ ← valid_items bad_report ar_GrantID MalformedReport DuplicateReport [] (rq_Reports req);
    valid_items bad_meter (λ m, (am_Instance m, am_Key m, am_WindowID m)) MalformedMeter DuplicateMeter [] (rq_Meters req).

(** ** Accounts (accounts.go) *)

Definition account_le (a b : accountKey) : Prop :=
  (if bool_decide (a.1 = b.1) then String.ltb b.2 a.2 else String.ltb b.1 a.1) = false.
#[export] Instance account_le_dec a b : Decision (account_le a b) :=
  decide ((if bool_decide (a.1 = b.1) then String.ltb b.2 a.2 else String.ltb b.1 a.1) = false).

Definition orderedKeys {V} (m : gmap accountKey V) : list accountKey := merge_sort account_le (map_to_list m).*1.

Section Sync.
Context (range : gmap string string → list (string * string)).
Context (authorityHash : list string → string) (revise : Policy.Budget → string → string).
Context (capabilityHash : string → string).

(** [reportGrant]: the issued grant a report's capability names. *)
Definition reportGrant (owner : string) (r : AuthorityReport) : STE CTX CentralError (requestKey * grantState) :=
  t ← ctx_get;
  let k := (owner, ar_Instance r, capabilityHash (ar_RequestID r)) in
  ctx_lift (match GrantRows (c_db t) !! k with
            | Some g => if (bool_decide (gs_id g = ar_GrantID r) && (0 <? gs_amount g))%bool then Ok (k, g) else Err UnknownGrant
            | None => Err UnknownGrant
            end).

(** The accounts of the reports' grants. *)
Fixpoint report_keys (owner : string) (rs : list AuthorityReport) : STE CTX CentralError (list accountKey) :=
  match rs with
  | [] => mret []
  | r :: rs => g ← reportGrant owner r; ks ← report_keys owner rs; mret ((gs_key g.2, gs_window g.2) :: ks)
  end.

Definition budget_key (b : AuthorityBudget) : accountKey := (Escrow.b_Key b, b_WindowID b).

(** The budget of an account, the last of the snapshot. *)
Definition current_account (budgets : list AuthorityBudget) : gmap accountKey AuthorityBudget :=
  foldl (λ m b, <[budget_key b := b]> m) ∅ budgets.

(** Lock one account, made on first use of a current budget. *)
Definition lock_account (current : gmap accountKey AuthorityBudget) (k : accountKey) : STE CTX CentralError unit :=
  _ ← match current !! k with
      | Some b => ctx_db (with_Accounts (λ m, match m !! k with
                            | Some _ => m | None => <[k := mkAccount 0 0 0 0 (negb (b_HardCap b)) false]> m end))
      | None => mret tt
      end;
  t ← ctx_get;
  match Accounts (c_db t) !! k with
  | None => early UnknownWindow
  | Some a =>
      put_account k (match current !! k with
        | Some b => if b_HardCap b then a
                    else mkAccount (hardEncumbered a) (hardConsumed a) (softConsumed a) (softPending a) true (frozen a)
        | None => a
        end)
  end.

Definition lockAccounts (owner : string) (req : AuthorityRequest) (budgets : list AuthorityBudget) : STE CTX CentralError unit :=
  let current := current_account budgets in
  reported ← report_keys owner (rq_Reports req);
  let wanted := map budget_key budgets ++ reported ++ map (λ m, (am_Key m, am_WindowID m)) (rq_Meters req) in
  ctx_each (orderedKeys (list_to_map (map (λ k, (k, tt)) wanted) : gmap accountKey unit)) (lock_account current).

Definition persist_account (k : accountKey) : STE CTX CentralError unit :=
  a ← get_account k;
  _ ← ctx_lift (checkedAdd (hardEncumbered a) (softConsumed a));
  if ((softPending a <? 0) || (softConsumed a <? softPending a))%bool then early InconsistentPending
  else ctx_db (with_Accounts (alter (λ _, a) k)).

Definition persistAccounts : STE CTX CentralError unit :=
  t ← ctx_get; ctx_each (orderedKeys (c_accounts t)) persist_account.

(** ** Reports (grants.go) *)

(** A terminal copy from an earlier boot of a grant already closed: only its
    sequence and observation may move. *)
Definition closed_recovery (currentInstance : string) (g : grantState) (r : AuthorityReport) : bool :=
  (gs_closed g && ar_Closed r && negb (bool_decide (ar_Instance r = currentInstance)) && negb (ar_Overrun r)
   && ((ar_Consumed r =? gs_amount g) || (ar_Consumed r =? gs_consumed g))
   && (ar_Observed r <=? Z.max (gs_consumed g) (gs_observed g)))%bool.

(** A full burn, from an earlier boot, of a grant still open here. *)
Definition recovery_burn (currentInstance : string) (g : grantState) (r : AuthorityReport) : bool :=
  (negb (gs_closed g) && ar_Closed r && negb (bool_decide (ar_Instance r = currentInstance)) && negb (ar_Overrun r)
   && (ar_Consumed r =? gs_amount g))%bool.

Definition report_with (seq observed : Z) (r : AuthorityReport) : AuthorityReport :=
  mkReport (ar_Instance r) (ar_GrantID r) (ar_RequestID r) seq (ar_Consumed r) observed (ar_Closed r) (ar_Overrun r).

Definition same_report (g : grantState) (r : AuthorityReport) : bool :=
  ((ar_Consumed r =? gs_consumed g) && (ar_Observed r =? gs_observed g) && Bool.eqb (ar_Closed r) (gs_closed g)
   && Bool.eqb (ar_Overrun r) (gs_overrun g))%bool.

Definition nonmonotonic (burn : bool) (g : grantState) (r : AuthorityReport) : bool :=
  ((negb burn && ((ar_Sequence r <? gs_seq g) || ((ar_Sequence r =? gs_seq g) && negb (same_report g r))))
   || (ar_Consumed r <? gs_consumed g) || (ar_Observed r <? gs_observed g)
   || (gs_closed g && negb (same_report g r) && negb (ar_Closed r && ar_Overrun r)))%bool.

Definition with_report (g : grantState) (r : AuthorityReport) : grantState :=
  mkGrantState (gs_key g) (gs_window g) (gs_revision g) (gs_id g) (gs_denial g) (gs_want g) (gs_amount g)
    (ar_Sequence r) (ar_Consumed r) (ar_Observed r) (gs_expires g) (ar_Closed r) (ar_Overrun r).

(** What a row contributed before a closing report. *)
Definition previous_hold (g : grantState) : Z :=
  if gs_closed g then
    let old := Z.max (gs_consumed g) (gs_observed g) in
    if gs_overrun g then Z.max old (gs_amount g) else old
  else gs_amount g.

Definition enc_account (e : Z) (a : account) : account :=
  mkAccount e (hardConsumed a) (softConsumed a) (softPending a) (acceptsMeters a) (frozen a).

(** The closing report's refund, or what a late overrun adds. *)
Definition close_account (g : grantState) (r : AuthorityReport) (newConsumed : Z) (a : account) : result CentralError account :=
  let previous := previous_hold g in
  let retained := if ar_Overrun r then Z.max newConsumed (gs_amount g) else newConsumed in
  let a := if ar_Overrun r
           then mkAccount (hardEncumbered a) (hardConsumed a) (softConsumed a) (softPending a) (acceptsMeters a) true else a in
  if retained <? previous then
    if gs_closed g then Err RefundTwice
    else
      let refund := previous - retained in
      if hardEncumbered a <? refund then Err InconsistentRefund
      else Ok (enc_account (hardEncumbered a - refund) a)
  else e ← checkedAdd (hardEncumbered a) (retained - previous); Ok (enc_account e a).

Definition applyReport (owner currentInstance : string) (r : AuthorityReport) : STE CTX CentralError unit :=
  kg ← reportGrant owner r;
  let '(k, g) := kg in
  if closed_recovery currentInstance g r then
    put_grant_row k (mkGrantState (gs_key g) (gs_window g) (gs_revision g) (gs_id g) (gs_denial g) (gs_want g) (gs_amount g)
      (Z.max (gs_seq g) (ar_Sequence r)) (gs_consumed g) (Z.max (gs_observed g) (ar_Observed r)) (gs_expires g)
      (gs_closed g) (gs_overrun g))
  else
    let burn := recovery_burn currentInstance g r in
    let r := if burn then report_with (Z.max (ar_Sequence r) (gs_seq g)) (Z.max (ar_Observed r) (gs_observed g)) r else r in
    if nonmonotonic burn g r then early NonmonotonicReport
    else if (negb (ar_Overrun r) && (gs_amount g <? ar_Consumed r))%bool then early ReportExceedsGrant
    else if ((ar_Sequence r =? gs_seq g) && negb burn)%bool then mret tt
    else
      a ← get_account (gs_key g, gs_window g);
      let newConsumed := Z.max (ar_Consumed r) (ar_Observed r) in
      let oldConsumed := Z.max (gs_consumed g) (gs_observed g) in
      hc ← ctx_lift (checkedAdd (hardConsumed a) (wrap64 (newConsumed - oldConsumed)));
      let a := mkAccount (hardEncumbered a) hc (softConsumed a) (softPending a) (acceptsMeters a) (frozen a) in
      a ← ctx_lift (if ar_Closed r then close_account g r newConsumed a else Ok a);
      _ ← put_account (gs_key g, gs_window g) a;
      put_grant_row k (with_report g r).

(** *** Meters *)

Definition old_meter_state (k : accountKey) (m : option meterState) : meterState := default (mkMeterState k.1 k.2 0 0 0) m.

(** An earlier boot's checkpoint is joined with what is known. *)
Definition join_meter (currentInstance : string) (m : AuthorityMeter) (s : meterState) : result CentralError meterState :=
  if negb (bool_decide (am_Instance m = currentInstance)) then
    Ok (mkMeterState (ms_key s) (ms_window s) (Z.max (am_Sequence m) (ms_seq s)) (Z.max (am_Consumed m) (ms_consumed s)) (Z.max (am_Observed m) (ms_observed s)))
  else if ((am_Sequence m <? ms_seq s) || (am_Consumed m <? ms_consumed s) || (am_Observed m <? ms_observed s)
           || ((am_Sequence m =? ms_seq s)
               && (negb (am_Consumed m =? ms_consumed s) || negb (am_Observed m =? ms_observed s))))%bool
  then Err NonmonotonicMeter
  else Ok (mkMeterState (ms_key s) (ms_window s) (am_Sequence m) (am_Consumed m) (am_Observed m)).

Definition applyMeter (owner currentInstance : string) (m : AuthorityMeter) : STE CTX CentralError unit :=
  let k := (am_Key m, am_WindowID m) in
  t ← ctx_get;
  match c_accounts t !! k with
  | None => early NoSoftWindow
  | Some a =>
      if negb (acceptsMeters a) then early NoSoftWindow
      else
        let mk := (owner, am_Instance m, am_Key m, am_WindowID m) in
        let s := old_meter_state k (MeterRows (c_db t) !! mk) in
        n ← ctx_lift (join_meter currentInstance m s);
        if ((ms_seq n =? ms_seq s) && (ms_consumed n =? ms_consumed s) && (ms_observed n =? ms_observed s))%bool then mret tt
        else
          c ← ctx_lift (checkedAdd (softConsumed a) (wrap64 (ms_consumed n - ms_consumed s)));
          _ ← put_account k (mkAccount (hardEncumbered a) (hardConsumed a) c (softPending a) (acceptsMeters a) (frozen a));
          ctx_db (with_MeterRows <[mk := n]>)
  end.

(** ** Grants (grants.go) *)

Inductive grant_result := Granted (g : AuthorityGrant) | Refused (d : AuthorityDenial).

Definition appendGrantResult (r : AuthorityGrantRequest) (g : grantState) : grant_result :=
  if (negb (bool_decide (gs_denial g = "")) || gs_closed g)%bool
  then Refused (mkDenial (q_RequestID r) (q_Key r) (if gs_closed g then "closed_grant" else gs_denial g))
  else Granted (mkAuthorityGrant (gs_id g) (q_RequestID r) (gs_key g) (gs_revision g) (gs_window g) (gs_amount g)
         (mkStamp (default zeroTime (gs_expires g)) 0)).

(** What a request gets of the account: a reason, or an amount and an expiry. *)
Definition lease (b : AuthorityBudget) (want : Z) (now : Time) (a : account) : result CentralError (string + Z * Time) :=
  encumbered ← checkedAdd (hardEncumbered a) (softConsumed a);
  if frozen a then Ok (inl "frozen_window")
  else if ((Escrow.b_LimitMicroUSD b <=? encumbered) || (Escrow.b_LimitMicroUSD b - encumbered <? want))%bool
  then Ok (inl "exhausted")
  else
    let amount := Z.min (Z.max (b_GrantMicroUSD b) want) (Escrow.b_LimitMicroUSD b - encumbered) in
    if amount <=? 0 then Err InvalidGrantAmount
    else
      let stop := instant (b_WindowEnd b) in
      Ok (inr (amount, if b_LeaseSeconds b <=? Sub stop now ÷ Second then Add now (wrap64 (b_LeaseSeconds b * Second)) else stop)).

Definition same_intent (g : grantState) (r : AuthorityGrantRequest) : bool :=
  (bool_decide (gs_key g = q_Key r) && bool_decide (gs_window g = q_WindowID r)
   && bool_decide (gs_revision g = q_Revision r) && (gs_want g =? q_Want r))%bool.

(** A row of the request, not yet decided. *)
Definition undecided (r : AuthorityGrantRequest) (id : string) (denial : string) (amount : Z) (expires : option Time) : grantState :=
  mkGrantState (q_Key r) (q_WindowID r) (q_Revision r) id denial (q_Want r) amount 0 0 0 expires false false.

(** The decision on a request that holds no grant. *)
Definition decide_grant (current : gmap string AuthorityBudget) (now : Time) (r : AuthorityGrantRequest) (id : string)
    : STE CTX CentralError grantState :=
  match current !! q_Key r with
  | None => mret (undecided r id "unknown_budget" 0 None)
  | Some b =>
      if (negb (bool_decide (Escrow.b_Revision b = q_Revision r)) || negb (bool_decide (b_WindowID b = q_WindowID r)))%bool
      then mret (undecided r id "stale_budget" 0 None)
      else if negb (b_HardCap b) then mret (undecided r id "soft_budget" 0 None)
      else
        a ← get_account (budget_key b);
        x ← ctx_lift (lease b (q_Want r) now a);
        match x with
        | inl denial => mret (undecided r id denial 0 None)
        | inr (amount, expires) =>
            e ← ctx_lift (checkedAdd (hardEncumbered a) amount);
            _ ← put_account (budget_key b) (enc_account e a);
            mret (undecided r id "" amount (Some expires))
        end
  end.

(** The fresh random identity of a grant, unique in the table. *)
Definition fresh_id (ids : nat → option string) : STE CTX CentralError string :=
  λ t, (match ids (c_ids t) with
        | Some id => if forallb (λ kv, negb (bool_decide (gs_id kv.2 = id))) (map_to_list (GrantRows (c_db t)))
                     then Ok id else Err DatabaseFailure
        | None => Err DatabaseFailure
        end, mkCTX (c_db t) (c_accounts t) (S (c_ids t))).

(** The row [UPDATE] leaves of a denied request decided again. *)
Definition redecided (old g : grantState) : grantState :=
  mkGrantState (gs_key old) (gs_window old) (gs_revision old) (gs_id old) (gs_denial g) (gs_want old) (gs_amount g)
    (gs_seq old) (gs_consumed old) (gs_observed old) (gs_expires g) (gs_closed old) (gs_overrun old).

Definition with_id (id : string) (g : grantState) : grantState :=
  mkGrantState (gs_key g) (gs_window g) (gs_revision g) id (gs_denial g) (gs_want g) (gs_amount g) (gs_seq g)
    (gs_consumed g) (gs_observed g) (gs_expires g) (gs_closed g) (gs_overrun g).

Definition issueGrant (ids : nat → option string) (current : gmap string AuthorityBudget) (now : Time) (owner inst : string)
    (r : AuthorityGrantRequest) : STE CTX CentralError grant_result :=
  let k := (owner, inst, capabilityHash (q_RequestID r)) in
  t ← ctx_get;
  match GrantRows (c_db t) !! k with
  | Some old =>
      if negb (same_intent old r) then early ConflictingReplay
      else if 0 <? gs_amount old then mret (appendGrantResult r old)
      else
        g ← decide_grant current now r (gs_id old);
        _ ← put_grant_row k (redecided old g);
        mret (appendGrantResult r g)
  | None =>
      g ← decide_grant current now r "";
      id ← fresh_id ids;
      _ ← put_grant_row k (with_id id g);
      mret (appendGrantResult r (with_id id g))
  end.

Fixpoint issue_all (ids : nat → option string) (current : gmap string AuthorityBudget) (now : Time) (owner inst : string)
    (rs : list AuthorityGrantRequest) : STE CTX CentralError (list grant_result) :=
  match rs with
  | [] => mret []
  | r :: rs => x ← issueGrant ids current now owner inst r; xs ← issue_all ids current now owner inst rs; mret (x :: xs)
  end.

(** ** Tiers (accounts.go) *)

Record ActiveTier := mkActiveTier
  { at_Policy : string; at_Rule : string; at_BudgetRef : string; at_Team : string; at_User : string;
    at_Threshold : Z; at_Substitute : gmap string string; at_EnforceTargets : bool }.

(** The last threshold of the ladder reached. *)
Definition reached (percent : Z) (tiers : list v1alpha1.BudgetTier) : Z :=
  foldl (λ th c, if v1alpha1.bt_ThresholdPercent c <=? percent then v1alpha1.bt_ThresholdPercent c else th) 0 tiers.

(** The last step of the ladder at or under a threshold. *)
Definition selected (threshold : Z) (tiers : list v1alpha1.BudgetTier) : option v1alpha1.BudgetTier :=
  foldl (λ s c, if v1alpha1.bt_ThresholdPercent c <=? threshold then Some c else s) None tiers.

(** What a tier judges: all that is committed for a hard budget; what is
    settled for a soft one. *)
Definition tier_percent (b : AuthorityBudget) (a : account) : option Z :=
  if b_HardCap b then UtilizedPercent (hardEncumbered a) (softConsumed a) (Escrow.b_LimitMicroUSD b)
  else UtilizedPercent (hardConsumed a) (wrap64 (softConsumed a - softPending a)) (Escrow.b_LimitMicroUSD b).

Definition latch (k : tierKey) (threshold : Z) (m : gmap tierKey Z) : gmap tierKey Z :=
  if 0 <? threshold then <[k := match m !! k with Some old => Z.max old threshold | None => threshold end]> m else m.

Definition by_rule (budgets : list AuthorityBudget) (policy rule : string) : option AuthorityBudget :=
  foldl (λ s b, if (bool_decide (Escrow.b_Policy b = policy) && bool_decide (Escrow.b_Rule b = rule))%bool then Some b else s) None budgets.

Definition rule_tier (budgets : list AuthorityBudget) (doc : v1alpha1.GovernancePolicy) (rule : v1alpha1.Rule)
    : STE CTX CentralError (list ActiveTier) :=
  match v1alpha1.Routing rule ≫= v1alpha1.ro_BudgetTiers with
  | None => mret []
  | Some tr =>
      let name := v1alpha1.om_Name (v1alpha1.Metadata doc) in
      match by_rule budgets name (v1alpha1.btr_BudgetRef tr) with
      | None => early NoTierWindow
      | Some b =>
          a ← get_account (budget_key b);
          percent ← ctx_lift (from_option Ok (Err DatabaseFailure) (tier_percent b a));
          let k := (Escrow.b_Key b, b_WindowID b, name, v1alpha1.Name rule) in
          _ ← ctx_db (with_TierRows (latch k (reached percent (v1alpha1.btr_Tiers tr))));
          t ← ctx_get;
          match TierRows (c_db t) !! k with
          | None => mret []
          | Some threshold =>
              match selected threshold (v1alpha1.btr_Tiers tr) with
              | None => mret []
              | Some s =>
                  let sub := v1alpha1.sp_Subject (v1alpha1.Spec doc) in
                  mret [mkActiveTier name (v1alpha1.Name rule) (v1alpha1.btr_BudgetRef tr) (v1alpha1.sub_Team sub)
                          (v1alpha1.sub_User sub) (v1alpha1.bt_ThresholdPercent s) (v1alpha1.bt_Substitute s)
                          (v1alpha1.btr_EnforceTargets tr)]
              end
          end
      end
  end.

Fixpoint concat_tiers {A} (l : list A) (f : A → STE CTX CentralError (list ActiveTier)) : STE CTX CentralError (list ActiveTier) :=
  match l with [] => mret [] | x :: l => t ← f x; ts ← concat_tiers l f; mret (t ++ ts) end.

Definition activeTiers (docs : list v1alpha1.GovernancePolicy) (budgets : list AuthorityBudget)
    : STE CTX CentralError (list ActiveTier) :=
  concat_tiers docs (λ doc, concat_tiers (v1alpha1.sp_Rules (v1alpha1.Spec doc)) (rule_tier budgets doc)).

(** ** [Sync] (pgstore.go) *)

Record SyncResponse := mkSync
  { sy_Interval : Z; sy_Tiers : list ActiveTier; sy_Budgets : list AuthorityBudget; sy_ServerTime : Time;
    sy_Results : list grant_result; sy_ReportAcks : list AuthorityAck; sy_MeterAcks : list AuthorityAck }.

Definition sy_Grants (s : SyncResponse) : list AuthorityGrant :=
  omap (λ x, match x with Granted g => Some g | Refused _ => None end) (sy_Results s).
Definition sy_Denied (s : SyncResponse) : list AuthorityDenial :=
  omap (λ x, match x with Granted _ => None | Refused d => Some d end) (sy_Results s).

Definition sync_interval (budgets : list AuthorityBudget) : Z :=
  foldl (λ s b, let cadence := Z.max 1 (b_LeaseSeconds b ÷ 3) in if cadence <? s then cadence else s) 10 budgets.

Definition current_budgets (budgets : list AuthorityBudget) : gmap string AuthorityBudget :=
  foldl (λ m b, <[Escrow.b_Key b := b]> m) ∅ budgets.

(** The window of a budget holds [now]. *)
Definition in_window (now : Time) (b : AuthorityBudget) : bool :=
  (Before now (instant (b_WindowEnd b)) && negb (Before now (instant (b_WindowStart b))))%bool.

Definition sync_body (ids : nat → option string) (gate : list v1alpha1.GovernancePolicy → bool) (now1 now2 : Time)
    (dataplane : string) (req : AuthorityRequest) : STE CTX CentralError SyncResponse :=
  t ← ctx_get;
  let docs := Policies (c_db t) in
  if negb (gate docs) then early GateRefused
  else
    budgets ← ctx_lift (AuthorityBudgets range authorityHash revise docs now1);
    _ ← lockAccounts dataplane req budgets;
    if negb (forallb (in_window now2) budgets) then early WindowChanged
    else
      _ ← ctx_each (rq_Reports req) (applyReport dataplane (rq_Instance req));
      _ ← ctx_each (rq_Meters req) (applyMeter dataplane (rq_Instance req));
      results ← issue_all ids (current_budgets budgets) now2 dataplane (rq_Instance req) (rq_Requests req);
      _ ← persistAccounts;
      tiers ← activeTiers docs budgets;
      mret (mkSync (sync_interval budgets) tiers budgets now2 results
              (map (λ r, mkAck (ar_Instance r) (ar_GrantID r) (ar_Sequence r)) (rq_Reports req))
              (map (λ m, mkAck (am_Instance m) (am_WindowID m) (am_Sequence m)) (rq_Meters req))).

(** What the database answers to the commit: an error may hide a commit that
    landed. *)
Inductive Commit := Committed | CommitFails (landed : bool).

Definition Sync (ids : nat → option string) (gate : list v1alpha1.GovernancePolicy → bool) (now1 now2 : Time) (o : Commit)
    (dataplane : string) (req : AuthorityRequest) (db : DB) : result CentralError SyncResponse * DB :=
  match validateRequest dataplane req with
  | Err e => (Err e, db)
  | Ok _ =>
      match sync_body ids gate now1 now2 dataplane req (mkCTX db ∅ 0) with
      | (Err e, _) => (Err e, db)
      | (Ok resp, t) =>
          match o with
          | Committed => (Ok resp, c_db t)
          | CommitFails landed => (Err DatabaseFailure, if landed then c_db t else db)
          end
      end
  end.

End Sync.

(** ** A concrete ledger *)

Module Demo.

Definition range (m : gmap string string) : list (string * string) := map_to_list m.
Fixpoint joined (l : list string) : string := match l with [] => "" | s :: l => s +:+ "/" +:+ joined l end.
Definition revise (b : Policy.Budget) (fp : string) : string := fp.
Definition ids (n : nat) : option string := Some (Escrow.Demo.nonces_from n).
Definition everyone (docs : list v1alpha1.GovernancePolicy) : bool := true.

Definition doc : v1alpha1.GovernancePolicy := Policy.demo_doc.
Definition db0 : DB := emptyDB [doc].
Definition now : Time := 100 * Second.

Definition budgets : list AuthorityBudget :=
  match AuthorityBudgets range joined revise [doc] now with Ok bs => bs | Err _ => [] end.

Definition capability : string := "0123456789abcdef0123456789abcdef".
Definition other_capability : string := "fedcba9876543210fedcba9876543210".

Definition sync (req : AuthorityRequest) (db : DB) :=
  Sync range joined revise (λ s, s) ids everyone now now Committed "dp" req db.

End Demo.
