(* ===== verification/CentralSafety.v ===== *)
(** * What the control plane's ledger guarantees (internal/authority/pgstore)

    Every account equals the sum of its parts: an open grant counts with its
    whole amount, a closed one with what it settled, a meter with what it
    consumed.  A [Sync] keeps that, never changes a grant it has issued, never
    thaws a window, and leases only within the limit that is left. *)

From S2P Require Import Prelude GoTime V1Alpha1 Policy Tier Escrow EscrowSettle Central.

#[local] Abbreviation hoare := (Prelude.hoare (S := CTX) (E := CentralError)).

(** ** Sums over rows *)

Section sums.
Context {K A : Type} `{Countable K}.

(** The sum sel [f] over the rows that [sel] selects. *)
Definition sum_if (sel : A → bool) (f : A → Z) (m : gmap K A) : Z := sum_map (λ x, if sel x then f x else 0) m.

Lemma sum_if_insert sel f m k x y :
  m !! k = Some x → sel x = sel y → sum_if sel f (<[k := y]> m) = sum_if sel f m + (if sel y then f y - f x else 0).
Proof. intros Hk Hof. unfold sum_if. rewrite (sum_map_update _ _ _ _ _ Hk), Hof. destruct (sel y); lia. Qed.

Lemma sum_if_new sel f m k x :
  m !! k = None → sum_if sel f (<[k := x]> m) = sum_if sel f m + (if sel x then f x else 0).
Proof. intros Hk. unfold sum_if. rewrite sum_map_new by done. lia. Qed.

Lemma sum_if_put sel f m k y :
  (∀ x, m !! k = Some x → sel x = sel y) →
  sum_if sel f (<[k := y]> m) = sum_if sel f m + (if sel y then f y - from_option f 0 (m !! k) else 0).
Proof.
  intros Hs. destruct (m !! k) as [x|] eqn:E; simpl.
  - rewrite (sum_if_insert _ _ _ _ _ _ E (Hs x eq_refl)). done.
  - rewrite sum_if_new by done. destruct (sel y); lia.
Qed.

Lemma sum_if_zero sel f (m : gmap K A) : (∀ k x, m !! k = Some x → sel x = true → f x = 0) → sum_if sel f m = 0.
Proof.
  intros Hz. unfold sum_if, sum_map.
  assert (Hin : ∀ kv, kv ∈ map_to_list m → (if sel kv.2 then f kv.2 else 0) = 0).
  { intros [k x] Hin%elem_of_map_to_list. simpl. destruct (sel x) eqn:E; [by eapply Hz|done]. }
  induction (map_to_list m) as [|kv l IH]; simpl; [done|]. rewrite Hin by by left.
  rewrite IH; [done|]. intros kv' Hkv. apply Hin. by right.
Qed.

Lemma sum_if_le sel f g (m : gmap K A) : (∀ k x, m !! k = Some x → f x <= g x) → sum_if sel f m <= sum_if sel g m.
Proof.
  intros Hz. unfold sum_if, sum_map.
  assert (Hin : ∀ kv, kv ∈ map_to_list m → f kv.2 <= g kv.2) by (intros [k x] Hin%elem_of_map_to_list; by eapply Hz).
  induction (map_to_list m) as [|kv l IH]; simpl; [lia|]. specialize (Hin kv ltac:(by left)) as Hkv.
  specialize (IH (λ kv' Hkv', Hin kv' (list_elem_of_further _ _ _ Hkv'))). destruct (sel kv.2); lia.
Qed.
End sums.

(** ** What the rows hold *)

Definition spent_row (g : grantState) : Z := Z.max (gs_consumed g) (gs_observed g).
Definition on_row (k : accountKey) (g : grantState) : bool := bool_decide ((gs_key g, gs_window g) = k).
Definition on_meter (k : accountKey) (m : meterState) : bool := bool_decide ((ms_key m, ms_window m) = k).

Definition held_on (k : accountKey) (db : DB) : Z := sum_if (on_row k) previous_hold (GrantRows db).
Definition spent_on (k : accountKey) (db : DB) : Z := sum_if (on_row k) spent_row (GrantRows db).
Definition metered_on (k : accountKey) (db : DB) : Z := sum_if (on_meter k) ms_consumed (MeterRows db).

(** An issued or a denied row. *)
Definition row_ok (g : grantState) : Prop :=
  nat63 (gs_amount g) ∧ nat63 (gs_seq g) ∧ nat63 (gs_consumed g) ∧ nat63 (gs_observed g)
  ∧ (gs_overrun g = false → gs_observed g <= gs_consumed g <= gs_amount g)
  ∧ (gs_overrun g = true → gs_closed g = true ∧ 0 < gs_amount g)
  ∧ (gs_amount g = 0 → gs_closed g = false)
  ∧ (0 < gs_amount g ↔ gs_denial g = "").

Definition meter_row_ok (m : meterState) : Prop := nat63 (ms_seq m) ∧ nat63 (ms_consumed m) ∧ nat63 (ms_observed m).

(** What the other writers of the accounts hold of each: encumbered, consumed
    and soft. *)
Record Others := mkOthers { o_enc : accountKey → Z; o_con : accountKey → Z; o_soft : accountKey → Z; o_pend : accountKey → Z }.

Record account_ok (x : Others) (db : DB) (k : accountKey) (a : account) : Prop := {
  ao_enc : hardEncumbered a = held_on k db + o_enc x k;
  ao_con : hardConsumed a = spent_on k db + o_con x k;
  ao_soft : softConsumed a = metered_on k db + o_soft x k;
  ao_pend : softPending a = o_pend x k;
  ao_range : nat63 (hardEncumbered a) ∧ nat63 (hardConsumed a) ∧ nat63 (softConsumed a) }.

(** The account as the transaction sees it. *)
Definition acct (t : CTX) (k : accountKey) : option account :=
  match c_accounts t !! k with Some a => Some a | None => Accounts (c_db t) !! k end.

(** The ledger under way. *)
Record ledger (x : Others) (t : CTX) : Prop := {
  l_accounts : ∀ k a, acct t k = Some a → account_ok x (c_db t) k a;
  l_locked : ∀ k, is_Some (c_accounts t !! k) → is_Some (Accounts (c_db t) !! k);
  l_none : ∀ k, acct t k = None → o_enc x k = 0 ∧ o_con x k = 0 ∧ o_soft x k = 0 ∧ o_pend x k = 0;
  l_rows : ∀ rk g, GrantRows (c_db t) !! rk = Some g → row_ok g ∧ (0 < gs_amount g → is_Some (acct t (gs_key g, gs_window g)));
  l_ids : ∀ rk rk' g g', GrantRows (c_db t) !! rk = Some g → GrantRows (c_db t) !! rk' = Some g' → gs_id g = gs_id g' → rk = rk';
  l_meters : ∀ mk m, MeterRows (c_db t) !! mk = Some m →
    meter_row_ok m ∧ is_Some (acct t (ms_key m, ms_window m)) ∧ mk.1.2 = ms_key m ∧ mk.2 = ms_window m }.

(** What every committed row of an account passed. *)
Definition table_row_ok (a : account) : Prop :=
  hardEncumbered a + softConsumed a <= MaxInt64 ∧ 0 <= softPending a <= softConsumed a.
Definition table_ok (db : DB) : Prop := ∀ k a, Accounts db !! k = Some a → table_row_ok a.

(** The tables between transactions. *)
Definition ledger_ok (x : Others) (db : DB) : Prop := ledger x (mkCTX db ∅ 0) ∧ table_ok db.

(** ** What never goes back *)

(** An issued grant keeps its identity, amount and expiry; its report only
    grows, and closing and overruns stay. *)
Record grant_evolves (g g' : grantState) : Prop := {
  ge_intent : gs_key g' = gs_key g ∧ gs_window g' = gs_window g ∧ gs_revision g' = gs_revision g ∧ gs_want g' = gs_want g
              ∧ gs_id g' = gs_id g;
  ge_issued : 0 < gs_amount g → gs_amount g' = gs_amount g ∧ gs_expires g' = gs_expires g ∧ gs_denial g' = gs_denial g;
  ge_report : gs_seq g <= gs_seq g' ∧ gs_consumed g <= gs_consumed g' ∧ gs_observed g <= gs_observed g';
  ge_closed : gs_closed g = true → gs_closed g' = true;
  ge_overrun : gs_overrun g = true → gs_overrun g' = true }.

Lemma grant_evolves_refl g : grant_evolves g g.
Proof. by split. Qed.

Lemma grant_evolves_trans g1 g2 g3 : grant_evolves g1 g2 → grant_evolves g2 g3 → grant_evolves g1 g3.
Proof.
  intros [(? & ? & ? & ? & ?) Ha (? & ? & ?) Hc Ho] [(? & ? & ? & ? & ?) Ha' (? & ? & ?) Hc' Ho']. split.
  - split_and!; congruence.
  - intros Hp. destruct (Ha Hp) as (E1 & E2 & E3). destruct Ha' as (E1' & E2' & E3'); [lia|]. split_and!; congruence.
  - lia.
  - auto.
  - auto.
Qed.

Definition rows_evolve (db db' : DB) : Prop :=
  ∀ rk g, GrantRows db !! rk = Some g → ∃ g', GrantRows db' !! rk = Some g' ∧ grant_evolves g g'.

(** A window frozen stays frozen, and one that takes meters goes on taking
    them; a latched threshold does not fall. *)
Definition accounts_evolve (db : DB) (t : CTX) : Prop :=
  ∀ k a, Accounts db !! k = Some a →
    ∃ a', acct t k = Some a' ∧ (frozen a = true → frozen a' = true) ∧ (acceptsMeters a = true → acceptsMeters a' = true).
Definition tiers_evolve (db db' : DB) : Prop :=
  ∀ k v, TierRows db !! k = Some v → ∃ v', TierRows db' !! k = Some v' ∧ v <= v'.

(** What an account has committed. *)
Definition committed (a : account) : Z := hardEncumbered a + softConsumed a.

(** No overrun has been reported on the account, and no soft meter books on it. *)
Definition strict (a : account) : bool := (negb (frozen a) && negb (acceptsMeters a))%bool.

(** A grant leased by the current budget of its window, whose limit covers
    what the window has committed. *)
Definition leased (cur : gmap string AuthorityBudget) (t : CTX) (g : grantState) : Prop :=
  ∃ b a, cur !! gs_key g = Some b ∧ b_HardCap b = true ∧ Escrow.b_Revision b = gs_revision g
    ∧ budget_key b = (gs_key g, gs_window g) ∧ acct t (gs_key g, gs_window g) = Some a
    ∧ frozen a = false ∧ committed a <= Escrow.b_LimitMicroUSD b.

Section keeps.
Context (x : Others) (lim : accountKey → option Z) (db0 : DB).

(** What every statement of a [Sync] on [db0] keeps; [lim] are limits known to
    hold, [cur] the budgets it leases from. *)
Record keeps (cur : gmap string AuthorityBudget) (t : CTX) : Prop := {
  k_ledger : ledger x t;
  k_table : table_ok (c_db t);
  k_rows : rows_evolve db0 (c_db t);
  k_accounts : accounts_evolve db0 t;
  k_tiers : tiers_evolve db0 (c_db t);
  k_policies : Policies (c_db t) = Policies db0;
  k_fits : ∀ k L a, lim k = Some L → acct t k = Some a → strict a = true → committed a <= L;
  k_new : ∀ rk g, GrantRows (c_db t) !! rk = Some g → 0 < gs_amount g →
    (∃ g0, GrantRows db0 !! rk = Some g0 ∧ 0 < gs_amount g0) ∨ leased cur t g }.
End keeps.

Lemma rows_evolve_refl db : rows_evolve db db.
Proof. intros rk g Hg. exists g. split; [done|apply grant_evolves_refl]. Qed.

Lemma rows_evolve_put db0 db rk g g' :
  rows_evolve db0 db → GrantRows db !! rk = Some g → grant_evolves g g' →
  rows_evolve db0 (with_GrantRows <[rk := g']> db).
Proof.
  intros Hr Hg He rk' g0 Hg0. destruct (Hr _ _ Hg0) as (g1 & Hg1 & He1). simpl.
  destruct (decide (rk' = rk)) as [->|Hne].
  - rewrite lookup_insert_eq. exists g'. split; [done|]. rewrite Hg in Hg1. injection Hg1 as <-. by eapply grant_evolves_trans.
  - rewrite lookup_insert_ne by done. by exists g1.
Qed.

Lemma rows_evolve_new db0 db rk g' :
  rows_evolve db0 db → GrantRows db !! rk = None → rows_evolve db0 (with_GrantRows <[rk := g']> db).
Proof.
  intros Hr Hn rk' g0 Hg0. destruct (Hr _ _ Hg0) as (g1 & Hg1 & He1). exists g1. split; [|done]. simpl.
  rewrite lookup_insert_ne; [done|]. intros ->. congruence.
Qed.

(** ** One account changes, and one row with it *)

Lemma acct_put t k a k' :
  acct (mkCTX (c_db t) (<[k := a]> (c_accounts t)) (c_ids t)) k' = if bool_decide (k' = k) then Some a else acct t k'.
Proof.
  unfold acct. simpl. case_bool_decide as Hk; [subst k'; by rewrite lookup_insert_eq|by rewrite lookup_insert_ne].
Qed.

Lemma on_row_true k g : on_row k g = true ↔ (gs_key g, gs_window g) = k.
Proof. unfold on_row. apply bool_decide_eq_true. Qed.

(** An identity no other row has. *)
Definition new_id (db : DB) (rk : requestKey) (id : string) : Prop :=
  match GrantRows db !! rk with
  | Some g => id = gs_id g
  | None => ∀ rk' g', GrantRows db !! rk' = Some g' → gs_id g' ≠ id
  end.

Lemma ids_put db rk g' :
  (∀ rk1 rk2 g1 g2, GrantRows db !! rk1 = Some g1 → GrantRows db !! rk2 = Some g2 → gs_id g1 = gs_id g2 → rk1 = rk2) →
  new_id db rk (gs_id g') →
  ∀ rk1 rk2 g1 g2, <[rk := g']> (GrantRows db) !! rk1 = Some g1 → <[rk := g']> (GrantRows db) !! rk2 = Some g2 →
  gs_id g1 = gs_id g2 → rk1 = rk2.
Proof.
  unfold new_id. intros Hids Hnew rk1 rk2 g1 g2 Hg1 Hg2 He.
  apply lookup_insert_Some in Hg1 as [[<- <-]|[? Hg1]], Hg2 as [[<- <-]|[? Hg2]]; try done.
  - destruct (GrantRows db !! rk) as [g|] eqn:E; [|by exfalso; apply (Hnew _ _ Hg2)].
    apply (Hids _ _ g g2); [done..|congruence].
  - destruct (GrantRows db !! rk) as [g|] eqn:E; [|by exfalso; apply (Hnew _ _ Hg1)].
    apply (Hids _ _ g1 g); [done..|congruence].
  - by apply (Hids _ _ g1 g2).
Qed.

(** What the row at [rk] holds, of an account. *)
Definition old_hold (f : grantState → Z) (db : DB) (rk : requestKey) : Z := from_option f 0 (GrantRows db !! rk).

(** The row's account takes over what its change adds. *)
Lemma ledger_row x t rk g' k a a' :
  ledger x t → row_ok g' → new_id (c_db t) rk (gs_id g') →
  (∀ g, GrantRows (c_db t) !! rk = Some g → (gs_key g, gs_window g) = k) →
  (gs_key g', gs_window g') = k → c_accounts t !! k = Some a →
  hardEncumbered a' = hardEncumbered a + previous_hold g' - old_hold previous_hold (c_db t) rk →
  hardConsumed a' = hardConsumed a + spent_row g' - old_hold spent_row (c_db t) rk →
  softConsumed a' = softConsumed a → softPending a' = softPending a → nat63 (hardEncumbered a') → nat63 (hardConsumed a') →
  ledger x (mkCTX (with_GrantRows <[rk := g']> (c_db t)) (<[k := a']> (c_accounts t)) (c_ids t)).
Proof.
  intros Hl Hok Hid Hold Hk' Ha Henc Hcon Hsoft Hpend Hr1 Hr2.
  assert (Hacct : ∀ k', acct (mkCTX (with_GrantRows <[rk := g']> (c_db t)) (<[k := a']> (c_accounts t)) (c_ids t)) k'
                        = if bool_decide (k' = k) then Some a' else acct t k').
  { intros k'. rewrite <- (acct_put t k a' k'). done. }
  assert (Hak : acct t k = Some a) by (unfold acct; by rewrite Ha).
  pose proof (l_accounts _ _ Hl _ _ Hak) as [E1 E2 E3 E4 (_ & _ & E5)].
  assert (Hsum : ∀ f k', sum_if (on_row k') f (<[rk := g']> (GrantRows (c_db t)))
                         = sum_if (on_row k') f (GrantRows (c_db t))
                           + (if bool_decide (k' = k) then f g' - old_hold f (c_db t) rk else 0)).
  { intros f k'. rewrite sum_if_put; [|intros g Hg; unfold on_row; by rewrite (Hold _ Hg), Hk'].
    unfold on_row, old_hold. rewrite Hk'. do 2 case_bool_decide; congruence || lia. }
  split.
  - intros k' a1. rewrite Hacct. case_bool_decide as Hkk.
    + intros [= <-]. subst k'. split; unfold held_on, spent_on, metered_on in *; simpl; rewrite ?Hsum, ?bool_decide_true by done; try lia.
      split_and!; [done|done|by rewrite Hsoft].
    + intros Ha1. destruct (l_accounts _ _ Hl _ _ Ha1) as [F1 F2 F3 F4 F5].
      split; unfold held_on, spent_on, metered_on in *; simpl; rewrite ?Hsum, ?bool_decide_false by done; try done; lia.
  - intros k'. simpl. intros [a1 [[<- _]|[_ Hk1]]%lookup_insert_Some]; apply (l_locked _ _ Hl); by eexists.
  - intros k'. rewrite Hacct. case_bool_decide; [done|]. apply (l_none _ _ Hl).
  - intros rk' g1 Hg1. simpl in Hg1. rewrite Hacct. apply lookup_insert_Some in Hg1 as [[<- <-]|[_ Hg1]].
    + split; [done|]. intros _. rewrite Hk', bool_decide_true by done. by eexists.
    + destruct (l_rows _ _ Hl _ _ Hg1) as [? Hs]. split; [done|]. intros Hp. case_bool_decide; [by eexists|auto].
  - apply ids_put; [apply (l_ids _ _ Hl)|done].
  - intros mk m Hm. rewrite Hacct. destruct (l_meters _ _ Hl _ _ Hm) as (? & Hs & ? & ?).
    split_and!; try done. case_bool_decide; [by eexists|done].
Qed.

(** A row that holds what it held needs no account. *)
Lemma ledger_same x t rk g' :
  ledger x t → row_ok g' → new_id (c_db t) rk (gs_id g') →
  (∀ g, GrantRows (c_db t) !! rk = Some g → (gs_key g, gs_window g) = (gs_key g', gs_window g') ∧ (0 < gs_amount g' → 0 < gs_amount g)) →
  (GrantRows (c_db t) !! rk = None → gs_amount g' = 0) →
  previous_hold g' = old_hold previous_hold (c_db t) rk → spent_row g' = old_hold spent_row (c_db t) rk →
  ledger x (mkCTX (with_GrantRows <[rk := g']> (c_db t)) (c_accounts t) (c_ids t)).
Proof.
  intros Hl Hok Hid Hold Hnew Hh Hs.
  assert (Hacct : ∀ k, acct (mkCTX (with_GrantRows <[rk := g']> (c_db t)) (c_accounts t) (c_ids t)) k = acct t k) by done.
  assert (Hsum : ∀ f k, f g' = old_hold f (c_db t) rk →
     sum_if (on_row k) f (<[rk := g']> (GrantRows (c_db t))) = sum_if (on_row k) f (GrantRows (c_db t))).
  { intros f k Hf. rewrite sum_if_put; [|intros g Hg; unfold on_row; by destruct (Hold _ Hg) as [-> _]].
    unfold old_hold in Hf. destruct (on_row k g'); lia. }
  split.
  - intros k a Hka. rewrite Hacct in Hka. destruct (l_accounts _ _ Hl _ _ Hka) as [F1 F2 F3 F4 F5].
    split; unfold held_on, spent_on, metered_on in *; simpl; rewrite ?Hsum by done; done.
  - intros k. apply (l_locked _ _ Hl).
  - apply (l_none _ _ Hl).
  - intros rk' g1 Hg1. simpl in Hg1. rewrite Hacct. apply lookup_insert_Some in Hg1 as [[<- <-]|[_ Hg1]]; [|by apply (l_rows _ _ Hl rk')].
    split; [done|]. intros Hp. destruct (GrantRows (c_db t) !! rk) as [g|] eqn:Eg; [|specialize (Hnew eq_refl); lia].
    destruct (Hold _ eq_refl) as [<- Ha]. apply (l_rows _ _ Hl _ _ Eg). auto.
  - apply ids_put; [apply (l_ids _ _ Hl)|done].
  - apply (l_meters _ _ Hl).
Qed.

(** A meter's row and its account advance together. *)
Lemma ledger_meter x t mk m k a a' :
  ledger x t → mk.1.2 = k.1 → mk.2 = k.2 → meter_row_ok m → (ms_key m, ms_window m) = k → c_accounts t !! k = Some a →
  softConsumed a' = softConsumed a + ms_consumed m - ms_consumed (old_meter_state k (MeterRows (c_db t) !! mk)) →
  hardEncumbered a' = hardEncumbered a → hardConsumed a' = hardConsumed a → softPending a' = softPending a →
  nat63 (softConsumed a') →
  ledger x (mkCTX (with_MeterRows <[mk := m]> (c_db t)) (<[k := a']> (c_accounts t)) (c_ids t)).
Proof.
  intros Hl Hmk1 Hmk2 Hok Hk Ha Hsoft Henc Hcon Hpend Hr.
  assert (Hacct : ∀ k', acct (mkCTX (with_MeterRows <[mk := m]> (c_db t)) (<[k := a']> (c_accounts t)) (c_ids t)) k'
                        = if bool_decide (k' = k) then Some a' else acct t k').
  { intros k'. rewrite <- (acct_put t k a' k'). done. }
  assert (Hak : acct t k = Some a) by (unfold acct; by rewrite Ha).
  pose proof (l_accounts _ _ Hl _ _ Hak) as [E1 E2 E3 E4 (? & ? & E5)].
  assert (Hsum : ∀ k', sum_if (on_meter k') ms_consumed (<[mk := m]> (MeterRows (c_db t)))
     = sum_if (on_meter k') ms_consumed (MeterRows (c_db t))
       + (if bool_decide (k' = k) then ms_consumed m - ms_consumed (old_meter_state k (MeterRows (c_db t) !! mk)) else 0)).
  { intros k'. rewrite sum_if_put.
    - unfold on_meter. rewrite Hk. destruct (MeterRows (c_db t) !! mk); simpl; do 2 case_bool_decide; congruence || lia.
    - intros s Hs. destruct (l_meters _ _ Hl _ _ Hs) as (_ & _ & K1 & K2). unfold on_meter.
      rewrite Hk, <- K1, <- K2, Hmk1, Hmk2. by destruct k. }
  split.
  - intros k' a1. rewrite Hacct. case_bool_decide as Hkk.
    + intros [= <-]. subst k'. split; unfold held_on, spent_on, metered_on in *; simpl; rewrite ?Hsum, ?bool_decide_true by done; try lia.
      split_and!; [by rewrite Henc|by rewrite Hcon|done].
    + intros Ha1. destruct (l_accounts _ _ Hl _ _ Ha1) as [F1 F2 F3 F4 F5].
      split; unfold held_on, spent_on, metered_on in *; simpl; rewrite ?Hsum, ?bool_decide_false by done; try done; lia.
  - intros k'. simpl. intros [a1 [[<- _]|[_ Hk1]]%lookup_insert_Some]; apply (l_locked _ _ Hl); by eexists.
  - intros k'. rewrite Hacct. case_bool_decide; [done|]. apply (l_none _ _ Hl).
  - intros rk g Hg. rewrite Hacct. destruct (l_rows _ _ Hl _ _ Hg) as [? Hs]. split; [done|]. intros Hp.
    case_bool_decide; [by eexists|auto].
  - apply (l_ids _ _ Hl).
  - intros mk' m' Hm'. simpl in Hm'. rewrite Hacct. apply lookup_insert_Some in Hm' as [[<- <-]|[_ Hm']].
    + split; [done|]. rewrite Hk, bool_decide_true by done. split; [by eexists|].
      rewrite Hmk1, Hmk2, <- Hk. done.
    + destruct (l_meters _ _ Hl _ _ Hm') as (? & Hs & ? & ?). split_and!; try done. case_bool_decide; [by eexists|done].
Qed.

(** ** Arithmetic and the rows *)

Lemma checkedAdd_Ok a b c : a <= MaxInt64 → b <= MaxInt64 → checkedAdd a b = Ok c → c = a + b ∧ 0 <= a ∧ 0 <= b ∧ nat63 c.
Proof.
  unfold checkedAdd. intros Ha Hb. destruct (_ || _)%bool eqn:E; [done|]. bsplit. intros [= <-].
  repeat match goal with H : context [wrap64 _] |- _ => rewrite wrap64_id in H by int_lia end.
  rewrite wrap64_id by int_lia. int_lia.
Qed.

Lemma spent_row_nonneg g : row_ok g → 0 <= spent_row g <= previous_hold g.
Proof.
  unfold row_ok, spent_row, previous_hold, nat63. intros (? & ? & ? & ? & Hu & Ho & ?).
  destruct (gs_closed g), (gs_overrun g); destruct_and?; try lia; specialize (Ho eq_refl) as [? ?]; done.
Qed.

Lemma denied_row g : row_ok g → gs_amount g <= 0 → previous_hold g = 0 ∧ spent_row g = 0.
Proof.
  intros Hok Ha. pose proof (spent_row_nonneg _ Hok). destruct Hok as ([Hz ?] & ? & ? & ? & Hu & Ho & Hc & _).
  assert (gs_amount g = 0) as E by lia. unfold previous_hold in *. rewrite (Hc E) in *. lia.
Qed.

(** An account that is not there holds nothing. *)
Lemma no_account x t k :
  ledger x t → acct t k = None → held_on k (c_db t) = 0 ∧ spent_on k (c_db t) = 0 ∧ metered_on k (c_db t) = 0.
Proof.
  intros Hl Hn.
  assert (Hrow : ∀ rk g, GrantRows (c_db t) !! rk = Some g → on_row k g = true → previous_hold g = 0 ∧ spent_row g = 0).
  { intros rk g Hg Hon%on_row_true. destruct (l_rows _ _ Hl _ _ Hg) as [Hok Hs]. apply denied_row; [done|].
    destruct (decide (0 < gs_amount g)) as [Hp|]; [|lia]. destruct (Hs Hp) as [a Ha]. congruence. }
  split_and!; apply sum_if_zero; intros rk g Hg Hon.
  - by destruct (Hrow _ _ Hg Hon).
  - by destruct (Hrow _ _ Hg Hon).
  - apply bool_decide_eq_true in Hon. destruct (l_meters _ _ Hl _ _ Hg) as (_ & [a Ha] & _). congruence.
Qed.

(** Only the accounts and the identities drawn differ. *)
Lemma keeps_ids x lim db0 cur t n :
  keeps x lim db0 cur t → keeps x lim db0 cur (mkCTX (c_db t) (c_accounts t) n).
Proof. intros [[] ]. by split; [split|..]. Qed.

(** ** One row changes, and what it keeps *)

Section row_step.
Context (x : Others) (lim : accountKey → option Z) (db0 : DB) (cur : gmap string AuthorityBudget).

(** The tables and accounts after a row and its account changed. *)
Definition put_both (rk : requestKey) (g' : grantState) (k : accountKey) (a' : account) (t : CTX) : CTX :=
  mkCTX (with_GrantRows <[rk := g']> (c_db t)) (<[k := a']> (c_accounts t)) (c_ids t).

Lemma acct_both rk g' k a' t k' : acct (put_both rk g' k a' t) k' = if bool_decide (k' = k) then Some a' else acct t k'.
Proof. rewrite <- (acct_put t k a' k'). done. Qed.

Lemma accounts_evolve_put t k a a' t' :
  accounts_evolve db0 t → acct t k = Some a → (frozen a = true → frozen a' = true) →
  (acceptsMeters a = true → acceptsMeters a' = true) →
  (∀ k', acct t' k' = if bool_decide (k' = k) then Some a' else acct t k') → accounts_evolve db0 t'.
Proof.
  intros Hev Ha Hf Hm Hacct k' a0 Ha0. destruct (Hev _ _ Ha0) as (a1 & Ha1 & Hf1 & Hm1). rewrite Hacct.
  case_bool_decide; [subst k'; exists a'; rewrite Ha in Ha1; injection Ha1 as <-; auto|by exists a1].
Qed.

(** A lease stands while its account commits no more than the limit. *)
Lemma leased_put t k a' t' g g' :
  leased cur t g → gs_key g' = gs_key g → gs_window g' = gs_window g → gs_revision g' = gs_revision g →
  (∀ k', acct t' k' = if bool_decide (k' = k) then Some a' else acct t k') →
  (∀ b, cur !! k.1 = Some b → frozen a' = false ∧ committed a' <= Escrow.b_LimitMicroUSD b) → leased cur t' g'.
Proof.
  intros (b & a & Hb & Hh & Hr & Hbk & Ha & Hf & Hc) E1 E2 E3 Hacct Hroom. unfold leased. rewrite E1, E2, E3.
  rewrite Hacct. case_bool_decide as Hk.
  - destruct (Hroom b) as [? ?]; [by subst k|]. by exists b, a'.
  - by exists b, a.
Qed.

Lemma keeps_row t rk g' k a a' :
  keeps x lim db0 cur t → ledger x (put_both rk g' k a' t) → (gs_key g', gs_window g') = k → acct t k = Some a →
  (∀ g, GrantRows (c_db t) !! rk = Some g → grant_evolves g g') →
  (frozen a = true → frozen a' = true) → acceptsMeters a' = acceptsMeters a →
  (∀ L, lim k = Some L → strict a' = true → committed a' <= L) →
  (∀ b, cur !! k.1 = Some b → frozen a' = false ∧ committed a' <= Escrow.b_LimitMicroUSD b) →
  (0 < gs_amount g' → (∃ g, GrantRows (c_db t) !! rk = Some g ∧ 0 < gs_amount g) ∨ leased cur (put_both rk g' k a' t) g') →
  keeps x lim db0 cur (put_both rk g' k a' t).
Proof.
  intros Hk Hl Hgk Ha Hev Hf Hm Hfits Hroom Hnew. pose proof (acct_both rk g' k a' t) as Hacct. split.
  - done.
  - apply (k_table _ _ _ _ _ Hk).
  - simpl. destruct (GrantRows (c_db t) !! rk) as [g|] eqn:Eg.
    + apply (rows_evolve_put _ _ _ g); [apply (k_rows _ _ _ _ _ Hk)|done|auto].
    + apply rows_evolve_new; [apply (k_rows _ _ _ _ _ Hk)|done].
  - apply (accounts_evolve_put t k a a'); try done; [apply (k_accounts _ _ _ _ _ Hk)|by rewrite Hm].
  - apply (k_tiers _ _ _ _ _ Hk).
  - apply (k_policies _ _ _ _ _ Hk).
  - intros k' L a1 HL. rewrite Hacct. case_bool_decide; [subst k'; intros [= <-]; auto|by apply (k_fits _ _ _ _ _ Hk)].
  - intros rk' g1 Hg1 Hp. unfold put_both in Hg1. simpl in Hg1. apply lookup_insert_Some in Hg1 as [[<- <-]|[_ Hg1]].
    + destruct (Hnew Hp) as [(g & Hg & Hpg)|]; [|by right]. specialize (Hev _ Hg) as [(? & ? & ? & ? & ?) ? ? ? ?].
      destruct (k_new _ _ _ _ _ Hk _ _ Hg Hpg) as [|Hleased]; [by left|right]. by apply (leased_put t k a' _ g).
    + destruct (k_new _ _ _ _ _ Hk _ _ Hg1 Hp) as [|Hleased]; [by left|right]. by apply (leased_put t k a' _ g1).
Qed.

(** A row that holds what it held, of the same account. *)
Lemma keeps_same t rk g' :
  keeps x lim db0 cur t → ledger x (mkCTX (with_GrantRows <[rk := g']> (c_db t)) (c_accounts t) (c_ids t)) →
  (∀ g, GrantRows (c_db t) !! rk = Some g → grant_evolves g g') →
  (0 < gs_amount g' → ∃ g, GrantRows (c_db t) !! rk = Some g ∧ 0 < gs_amount g) →
  keeps x lim db0 cur (mkCTX (with_GrantRows <[rk := g']> (c_db t)) (c_accounts t) (c_ids t)).
Proof.
  intros Hk Hl Hev Hold. split; try by destruct Hk.
  - simpl. destruct (GrantRows (c_db t) !! rk) as [g|] eqn:Eg.
    + apply (rows_evolve_put _ _ _ g); [apply (k_rows _ _ _ _ _ Hk)|done|auto].
    + apply rows_evolve_new; [apply (k_rows _ _ _ _ _ Hk)|done].
  - intros rk' g1 Hg1 Hp. simpl in Hg1. apply lookup_insert_Some in Hg1 as [[<- <-]|[_ Hg1]]; [|by apply (k_new _ _ _ _ _ Hk rk')].
    destruct (Hold Hp) as (g & Hg & Hpg). destruct (Hev _ Hg) as [(E1 & E2 & E3 & ? & ?) ? ? ? ?].
    destruct (k_new _ _ _ _ _ Hk _ _ Hg Hpg) as [|Hle]; [by left|right].
    unfold leased in *. rewrite E1, E2, E3. exact Hle.
Qed.
End row_step.

(** ** Reports *)

Lemma reportGrant_spec chash owner r t k g t' :
  reportGrant chash owner r t = (Ok (k, g), t') →
  t' = t ∧ k = (owner, ar_Instance r, chash (ar_RequestID r)) ∧ GrantRows (c_db t) !! k = Some g ∧ gs_id g = ar_GrantID r ∧ 0 < gs_amount g.
Proof.
  unfold reportGrant, mbind, ste_mbind, ctx_get, ctx_lift. simpl.
  destruct (GrantRows (c_db t) !! _) as [g0|] eqn:E; [|done]. destruct (_ && _)%bool eqn:Ec; [|done].
  bsplit. by intros [= <- <- <-].
Qed.

(** The numbers of a report that passed validation. *)
Definition report_ok (r : AuthorityReport) : Prop :=
  nat63 (ar_Sequence r) ∧ nat63 (ar_Consumed r) ∧ nat63 (ar_Observed r)
  ∧ (ar_Overrun r = false → ar_Observed r <= ar_Consumed r) ∧ (ar_Overrun r = true → ar_Closed r = true).

(** What [close_account] leaves: the account holds what the closed row holds,
    and frozen if it overran. *)
Lemma close_account_spec g r a a' :
  row_ok g → report_ok r → hardEncumbered a <= MaxInt64 →
  close_account g r (Z.max (ar_Consumed r) (ar_Observed r)) a = Ok a' →
  let g' := with_report g r in
  ar_Closed r = true →
  hardEncumbered a' = hardEncumbered a + previous_hold g' - previous_hold g ∧ nat63 (hardEncumbered a')
  ∧ hardConsumed a' = hardConsumed a ∧ softConsumed a' = softConsumed a ∧ softPending a' = softPending a
  ∧ acceptsMeters a' = acceptsMeters a ∧ frozen a' = (frozen a || ar_Overrun r)%bool.
Proof.
  intros Hok (? & ? & ? & _) Ha Hrun g' Hc.
  assert (Hh : previous_hold g' = if ar_Overrun r then Z.max (Z.max (ar_Consumed r) (ar_Observed r)) (gs_amount g) else Z.max (ar_Consumed r) (ar_Observed r)).
  { unfold previous_hold, g'. simpl. by rewrite Hc. }
  assert (nat63 (previous_hold g)) as [? ?].
  { destruct Hok as ([] & [] & [] & [] & _). unfold previous_hold, nat63. destruct (gs_closed g), (gs_overrun g); lia. }
  assert (nat63 (gs_amount g)) as [? ?] by (by destruct Hok).
  unfold close_account in Hrun. rewrite Hh. unfold nat63 in *.
  destruct (_ <? previous_hold g) eqn:E; bsplit.
  - destruct (gs_closed g); [done|]. destruct (_ <? _) eqn:E2; [done|]. injection Hrun as <-. bsplit.
    destruct (ar_Overrun r); simpl in *; rewrite ?orb_true_r, ?orb_false_r; split_and!; try done; lia.
  - destruct (checkedAdd _ _) as [e|] eqn:Ea; [|done]. injection Hrun as <-.
    apply checkedAdd_Ok in Ea as (-> & ? & ? & ? & ?); [|destruct (ar_Overrun r); simpl; lia..].
    destruct (ar_Overrun r); simpl in *; rewrite ?orb_true_r, ?orb_false_r; split_and!; try done; lia.
Qed.

(** A report the guards let through: the row evolves. *)
Lemma report_evolves burn g r :
  row_ok g → 0 < gs_amount g → report_ok r → nonmonotonic burn g r = false → (burn = true → gs_seq g <= ar_Sequence r ∧ gs_closed g = false ∧ ar_Closed r = true) →
  (negb (ar_Overrun r) && (gs_amount g <? ar_Consumed r))%bool = false →
  row_ok (with_report g r) ∧ grant_evolves g (with_report g r)
  ∧ (gs_closed g = true → ar_Closed r = true ∧ (ar_Overrun r = false → previous_hold (with_report g r) = previous_hold g)).
Proof.
  intros Hok Hp (Hs & Hc & Ho & Hu & Hv) Hm Hb Hx. unfold nonmonotonic in Hm. bsplit.
  assert (Hclosed : gs_closed g = true → ar_Closed r = true).
  { intros Hcl. rewrite Hcl in *. destruct (same_report g r) eqn:E; [unfold same_report in E; bsplit|].
    - match goal with H : Bool.eqb (ar_Closed r) _ = true |- _ => apply eqb_prop in H end. congruence.
    - match goal with H : (true && _ && _)%bool = false |- _ => simpl in H; bsplit end. done. }
  assert (Hover : gs_overrun g = true → ar_Overrun r = true).
  { intros Hov. destruct Hok as (_ & _ & _ & _ & _ & Hcl & _). destruct (Hcl Hov) as [Hcl' _]. rewrite Hcl' in *.
    destruct (same_report g r) eqn:E; [unfold same_report in E; bsplit|].
    - match goal with H : Bool.eqb (ar_Overrun r) _ = true |- _ => apply eqb_prop in H end. congruence.
    - match goal with H : (true && _ && _)%bool = false |- _ => simpl in H; bsplit end. done. }
  destruct Hok as (Ha & Hsq & Hco & Hob & Hunder & Hovr & Hz & Hden). split_and!.
  - unfold row_ok, with_report. simpl. split_and!; try done.
    + intros E. rewrite E in *. simpl in *. bsplit. specialize (Hu eq_refl). lia.
    + intros E. by rewrite (Hv E).
    + lia.
  - split; try done. unfold with_report. simpl. split_and!; try lia. destruct burn; [by destruct (Hb eq_refl)|].
    simpl in *. bsplit. lia.
  - intros Hcl. split; [auto|]. intros Hno. unfold previous_hold, with_report. simpl. rewrite Hclosed, Hcl, Hno by done.
    destruct (gs_overrun g) eqn:Eo; [rewrite Hover in Hno by done; done|].
    rewrite Hcl in *. rewrite Hclosed, Hno in * by done. destruct (same_report g r) eqn:E; [|done].
    unfold same_report in E. bsplit. lia.
Qed.

Section reports.
Context (chash : string → string) (x : Others) (lim : accountKey → option Z) (db0 : DB).

(** Terminal evidence of a grant already closed moves no money. *)
Lemma closed_recovery_keeps cur inst g r t rk :
  report_ok r → keeps x lim db0 cur t → GrantRows (c_db t) !! rk = Some g → 0 < gs_amount g → closed_recovery inst g r = true →
  let g' := mkGrantState (gs_key g) (gs_window g) (gs_revision g) (gs_id g) (gs_denial g) (gs_want g) (gs_amount g)
      (Z.max (gs_seq g) (ar_Sequence r)) (gs_consumed g) (Z.max (gs_observed g) (ar_Observed r)) (gs_expires g)
      (gs_closed g) (gs_overrun g) in
  keeps x lim db0 cur (mkCTX (with_GrantRows <[rk := g']> (c_db t)) (c_accounts t) (c_ids t)).
Proof.
  intros ([? ?] & [? ?] & [? ?] & Hu & _) Hk Hg Hp Hc g'. unfold closed_recovery in Hc. bsplit.
  destruct (l_rows _ _ (k_ledger _ _ _ _ _ Hk) _ _ Hg) as [Hok _].
  destruct (Hok) as ([? ?] & [? ?] & [? ?] & [? ?] & Hunder & Hover & Hz & Hden).
  assert (Hspent : spent_row g' = spent_row g) by (unfold spent_row, g'; simpl; lia).
  apply keeps_same; [done| |intros g1; rewrite Hg; intros [= <-]; split; unfold g'; simpl; try done; lia|by eexists].
  apply ledger_same; unfold g'; simpl; unfold new_id, old_hold; rewrite ?Hg; simpl; try done.
  - apply (k_ledger _ _ _ _ _ Hk).
  - unfold row_ok. simpl. split_and!; try done; unfold nat63; lia.
  - intros g1 [= <-]. done.
  - unfold previous_hold. simpl. unfold spent_row, g' in Hspent. simpl in Hspent. by rewrite Hspent.
Qed.

(** What a booked report does to its account. *)
Lemma report_account burn g r a hc a' :
  row_ok g → 0 < gs_amount g → report_ok r → nonmonotonic burn g r = false →
  (burn = true → gs_seq g <= ar_Sequence r ∧ gs_closed g = false ∧ ar_Closed r = true) →
  (negb (ar_Overrun r) && (gs_amount g <? ar_Consumed r))%bool = false →
  nat63 (hardEncumbered a) → nat63 (hardConsumed a) →
  checkedAdd (hardConsumed a) (wrap64 (Z.max (ar_Consumed r) (ar_Observed r) - Z.max (gs_consumed g) (gs_observed g))) = Ok hc →
  (let b := mkAccount (hardEncumbered a) hc (softConsumed a) (softPending a) (acceptsMeters a) (frozen a) in
   if ar_Closed r then close_account g r (Z.max (ar_Consumed r) (ar_Observed r)) b else Ok b) = Ok a' →
  (hardEncumbered a' = hardEncumbered a + previous_hold (with_report g r) - previous_hold g ∧ nat63 (hardEncumbered a')
   ∧ hardConsumed a' = hardConsumed a + spent_row (with_report g r) - spent_row g ∧ nat63 (hardConsumed a')
   ∧ softConsumed a' = softConsumed a ∧ softPending a' = softPending a ∧ acceptsMeters a' = acceptsMeters a
   ∧ frozen a' = (frozen a || ar_Overrun r)%bool)
  ∧ (ar_Overrun r = false → previous_hold (with_report g r) <= previous_hold g).
Proof.
  intros Hok Hp Hr Hmono Hburn Hexc [Ha1 Ha2] [Ha3 Ha4] Hadd Hclose. cbv zeta in Hclose.
  destruct (report_evolves burn g r Hok Hp Hr Hmono Hburn Hexc) as (_ & _ & Hcl).
  destruct (Hok) as ([? ?] & [? ?] & [? ?] & [? ?] & _). destruct (Hr) as ([? ?] & [? ?] & [? ?] & Hu & Hv).
  rewrite wrap64_id in Hadd by int_lia. apply checkedAdd_Ok in Hadd as (-> & _ & _ & Hhc); [|lia..].
  assert (Hspent : hardConsumed a + (Z.max (ar_Consumed r) (ar_Observed r) - Z.max (gs_consumed g) (gs_observed g))
     = hardConsumed a + spent_row (with_report g r) - spent_row g) by (unfold spent_row; simpl; lia).
  split.
  - destruct (ar_Closed r) eqn:Ec.
    + apply close_account_spec in Hclose as (E1 & E2 & E3 & E4 & E5 & E6 & E7); [|done|done|simpl; lia|done].
      simpl in *. rewrite E3, <- Hspent. split_and!; done.
    + injection Hclose as <-. simpl. rewrite <- Hspent.
      assert (ar_Overrun r = false) as -> by (destruct (ar_Overrun r); [by specialize (Hv eq_refl)|done]).
      assert (previous_hold (with_report g r) = previous_hold g) as ->.
      { unfold previous_hold. simpl. rewrite Ec. destruct (gs_closed g) eqn:Eg; [|done]. by destruct (Hcl eq_refl). }
      rewrite orb_false_r. split_and!; try done; lia.
  - intros Eo. destruct (gs_closed g) eqn:Ecl; [destruct (Hcl eq_refl) as [_ He]; rewrite (He Eo); lia|].
    assert (ar_Consumed r <= gs_amount g) by (rewrite Eo in Hexc; simpl in Hexc; lia). specialize (Hu Eo).
    unfold previous_hold. simpl. rewrite Ecl, Eo. destruct (ar_Closed r); lia.
Qed.

(** A report that is booked: the row and its account move together. *)
Lemma booked_keeps burn g r t rk a hc a' :
  report_ok r → keeps x lim db0 ∅ t → GrantRows (c_db t) !! rk = Some g → 0 < gs_amount g →
  nonmonotonic burn g r = false → (burn = true → gs_seq g <= ar_Sequence r ∧ gs_closed g = false ∧ ar_Closed r = true) →
  (negb (ar_Overrun r) && (gs_amount g <? ar_Consumed r))%bool = false →
  c_accounts t !! (gs_key g, gs_window g) = Some a →
  checkedAdd (hardConsumed a) (wrap64 (Z.max (ar_Consumed r) (ar_Observed r) - Z.max (gs_consumed g) (gs_observed g))) = Ok hc →
  (let b := mkAccount (hardEncumbered a) hc (softConsumed a) (softPending a) (acceptsMeters a) (frozen a) in
   if ar_Closed r then close_account g r (Z.max (ar_Consumed r) (ar_Observed r)) b else Ok b) = Ok a' →
  keeps x lim db0 ∅ (put_both rk (with_report g r) (gs_key g, gs_window g) a' t).
Proof.
  intros Hr Hk Hg Hp Hmono Hburn Hexc Ha Hadd Hclose.
  destruct (l_rows _ _ (k_ledger _ _ _ _ _ Hk) _ _ Hg) as [Hok _].
  destruct (report_evolves burn g r Hok Hp Hr Hmono Hburn Hexc) as (Hok' & Hev & _).
  assert (Hacct : acct t (gs_key g, gs_window g) = Some a) by (unfold acct; by rewrite Ha).
  pose proof (l_accounts _ _ (k_ledger _ _ _ _ _ Hk) _ _ Hacct) as [_ _ _ _ (Hn1 & Hn2 & _)].
  destruct (report_account burn g r a hc a' Hok Hp Hr Hmono Hburn Hexc Hn1 Hn2 Hadd Hclose)
    as [(E1 & E2 & E3 & E4 & E5 & E6 & E7 & E8) Hle].
  apply (keeps_row _ _ _ _ _ _ _ _ a); try done.
  - apply (ledger_row _ _ _ _ _ a); try done; unfold new_id, old_hold; rewrite ?Hg; try done.
    + apply (k_ledger _ _ _ _ _ Hk).
    + by intros g1 [= <-].
  - intros g1. rewrite Hg. by intros [= <-].
  - rewrite E8. by intros ->.
  - intros L HL Hs. unfold strict in Hs. rewrite E7, E8 in Hs. bsplit.
    match goal with H : frozen a = false |- _ => rename H into Hf end.
    match goal with H : acceptsMeters a = false |- _ => rename H into Hm end.
    assert (committed a <= L).
    { apply (k_fits _ _ _ _ _ Hk _ _ _ HL Hacct). unfold strict. by rewrite Hf, Hm. }
    unfold committed in *. lia.
  - intros _. left. by exists g.
Qed.

Lemma applyReport_keeps owner inst r :
  report_ok r → hoare (keeps x lim db0 ∅) (applyReport chash owner inst r) (λ _, keeps x lim db0 ∅).
Proof.
  intros Hr t Hk. unfold applyReport. unfold mbind at 1, ste_mbind at 1.
  destruct (reportGrant chash owner r t) as [[[k g]|e] t1] eqn:Eg; [|done].
  destruct (reportGrant_spec _ _ _ _ _ _ _ Eg) as (-> & _ & Hg & _ & Hp).
  destruct (closed_recovery inst g r) eqn:Ec; [by apply (closed_recovery_keeps _ inst)|].
  set (burn := recovery_burn inst g r). set (r' := if burn then _ else r).
  destruct (l_rows _ _ (k_ledger _ _ _ _ _ Hk) _ _ Hg) as [Hok _].
  assert (Hr' : report_ok r' ∧ (burn = true → gs_seq g <= ar_Sequence r' ∧ gs_closed g = false ∧ ar_Closed r' = true)).
  { unfold r'. destruct burn eqn:Eb; [|done]. unfold burn, recovery_burn in Eb. bsplit.
    destruct Hr as ([? ?] & [? ?] & [? ?] & Hu & Hv). destruct Hok as (_ & [? ?] & [? ?] & [? ?] & Hunder & Hover & _).
    assert (gs_overrun g = false) as Eo by (destruct (gs_overrun g); [by destruct (Hover eq_refl); congruence|done]).
    specialize (Hunder Eo). specialize (Hu ltac:(done)). unfold report_ok, report_with. simpl. split_and!; try (intros _; split_and!); try done; unfold nat63; lia. }
  destruct Hr' as [Hr' Hburn]. clearbody r' burn.
  destruct (nonmonotonic burn g r') eqn:Em; [done|]. destruct (negb (ar_Overrun r') && _)%bool eqn:Ex; [done|].
  destruct (_ && negb burn)%bool eqn:Es; [done|].
  unfold get_account, ctx_lift, put_account, put_grant_row, ctx_db, mbind, ste_mbind.
  destruct (c_accounts t !! (gs_key g, gs_window g)) as [a|] eqn:Ea; [|done]. cbn beta iota zeta delta [from_option].
  destruct (checkedAdd _ _) as [hc|] eqn:Eh; [|done]. destruct (if ar_Closed r' then _ else _) as [a'|] eqn:Ecl; [|done].
  by apply (booked_keeps burn g r' t k a hc a').
Qed.
End reports.

(** ** Accounts alone, and meters *)

Lemma keeps_account x x' lim db0 t t' k a a' :
  keeps x lim db0 ∅ t → ledger x' t' → table_ok (c_db t') →
  GrantRows (c_db t') = GrantRows (c_db t) → TierRows (c_db t') = TierRows (c_db t) → Policies (c_db t') = Policies (c_db t) →
  (∀ k', acct t' k' = if bool_decide (k' = k) then Some a' else acct t k') →
  (∀ a0, acct t k = Some a0 → a0 = a) →
  (frozen a = true → frozen a' = true) → (acceptsMeters a = true → acceptsMeters a' = true) →
  (∀ L, lim k = Some L → strict a' = true → committed a' <= L) → keeps x' lim db0 ∅ t'.
Proof.
  intros Hk Hl Htab Eg Et Ep Hacct Ha Hf Hm Hfits. split.
  - done.
  - done.
  - unfold rows_evolve. rewrite Eg. apply (k_rows _ _ _ _ _ Hk).
  - intros k' a0 Ha0. destruct (k_accounts _ _ _ _ _ Hk _ _ Ha0) as (a1 & Ha1 & Hf1 & Hm1). rewrite Hacct.
    case_bool_decide; [subst k'|by exists a1]. rewrite (Ha _ Ha1) in *. exists a'. auto.
  - unfold tiers_evolve. rewrite Et. apply (k_tiers _ _ _ _ _ Hk).
  - rewrite Ep. apply (k_policies _ _ _ _ _ Hk).
  - intros k' L a1 HL. rewrite Hacct. case_bool_decide; [subst k'; intros [= <-]; auto|by apply (k_fits _ _ _ _ _ Hk)].
  - intros rk g. rewrite Eg. intros Hg Hp. destruct (k_new _ _ _ _ _ Hk _ _ Hg Hp) as [|(b & ? & Hb & _)]; [by left|].
    by rewrite lookup_empty in Hb.
Qed.

Definition meter_ok (m : AuthorityMeter) : Prop :=
  nat63 (am_Sequence m) ∧ nat63 (am_Consumed m) ∧ nat63 (am_Observed m).

Lemma join_meter_spec inst m s n :
  meter_ok m → meter_row_ok s → join_meter inst m s = Ok n →
  meter_row_ok n ∧ ms_key n = ms_key s ∧ ms_window n = ms_window s
  ∧ ms_seq s <= ms_seq n ∧ ms_consumed s <= ms_consumed n ∧ ms_observed s <= ms_observed n.
Proof.
  unfold join_meter, meter_ok, meter_row_ok, nat63. intros (? & ? & ?) (? & ? & ?). destruct (negb _).
  - intros [= <-]. simpl. split_and!; done || lia.
  - destruct (_ || _)%bool eqn:E; [done|]. bsplit. intros [= <-]. simpl. split_and!; done || lia.
Qed.

Lemma applyMeter_keeps x lim db0 owner inst m :
  meter_ok m → hoare (keeps x lim db0 ∅) (applyMeter owner inst m) (λ _, keeps x lim db0 ∅).
Proof.
  intros Hm t Hk. pose proof (k_ledger _ _ _ _ _ Hk) as Hl. unfold applyMeter, ctx_get, ctx_lift, put_account, ctx_db, mbind, ste_mbind.
  cbn beta iota zeta. set (k := (am_Key m, am_WindowID m)).
  destruct (c_accounts t !! k) as [a|] eqn:Ea; [|done]. destruct (negb (acceptsMeters a)) eqn:Eacc; [done|]. bsplit.
  set (mk := (owner, am_Instance m, am_Key m, am_WindowID m)). set (s := old_meter_state k (MeterRows (c_db t) !! mk)).
  assert (Hs : meter_row_ok s ∧ (ms_key s, ms_window s) = k).
  { unfold s. destruct (MeterRows (c_db t) !! mk) as [s0|] eqn:Es; simpl; [|done].
    destruct (l_meters _ _ Hl _ _ Es) as (Hok & _ & E1 & E2). split; [done|]. by rewrite <- E1, <- E2. }
  destruct Hs as [Hs Hsk]. destruct (join_meter inst m s) as [n|] eqn:Ej; [|done]. cbn beta iota zeta.
  destruct (join_meter_spec _ _ _ _ Hm Hs Ej) as (Hn & Ek & Ew & _ & Hle & _).
  destruct (_ && _ && _)%bool; [done|]. destruct (checkedAdd _ _) as [c|] eqn:Ec; [|done]. simpl.
  assert (Hacct : acct t k = Some a) by (unfold acct; by rewrite Ea).
  pose proof (l_accounts _ _ Hl _ _ Hacct) as [_ _ _ _ (_ & _ & [? ?])].
  destruct Hs as (_ & [? ?] & _). destruct Hn as (? & [? ?] & ?). rewrite wrap64_id in Ec by int_lia.
  apply checkedAdd_Ok in Ec as (-> & _ & _ & Hc); [|lia..].
  set (a' := mkAccount _ _ _ _ _ _).
  assert (Hput := ledger_meter x t mk n k a a' Hl eq_refl eq_refl). unfold s in *.
  apply (keeps_account x x lim db0 t _ k a a'); try done.
  - apply Hput; try done; [by rewrite Ek, Ew|simpl; lia].
  - apply (k_table _ _ _ _ _ Hk).
  - intros k'. rewrite <- (acct_put t k a' k'). done.
  - intros a0. rewrite Hacct. by intros [= <-].
  - unfold strict. simpl. rewrite Eacc. by rewrite andb_false_r.
Qed.

Lemma ctx_each_hoare {A} (P : CTX → Prop) (l : list A) f :
  (∀ y, y ∈ l → hoare P (f y) (λ _, P)) → hoare P (ctx_each l f) (λ _, P).
Proof.
  induction l as [|y l IH]; intros Hf; simpl; [by apply hoare_ret|].
  eapply hoare_seq; [apply Hf; by left|]. apply IH. intros z Hz. apply Hf. by right.
Qed.

(** ** Locks *)

(** A window's first account. *)
Lemma ledger_open x t k m :
  ledger x t → c_accounts t !! k = None → Accounts (c_db t) !! k = None →
  ledger x (mkCTX (with_Accounts <[k := mkAccount 0 0 0 0 m false]> (c_db t)) (c_accounts t) (c_ids t)).
Proof.
  intros Hl Hc Hn. set (t' := mkCTX _ _ _). assert (Hnone : acct t k = None) by (unfold acct; by rewrite Hc).
  assert (Hacct : ∀ k', acct t' k' = if bool_decide (k' = k) then Some (mkAccount 0 0 0 0 m false) else acct t k').
  { intros k'. unfold acct, t'. simpl. case_bool_decide as E; [subst k'; by rewrite Hc, lookup_insert_eq|].
    by rewrite lookup_insert_ne. }
  assert (Hsome : ∀ k', is_Some (acct t k') → is_Some (acct t' k')).
  { intros k' Hs. rewrite Hacct. case_bool_decide; [by eexists|done]. }
  split.
  - intros k' a. rewrite Hacct. case_bool_decide as E; [subst k'; intros [= <-]|intros Ha; by destruct (l_accounts _ _ Hl _ _ Ha)].
    destruct (no_account _ _ _ Hl Hnone) as (H1 & H2 & H3). destruct (l_none _ _ Hl _ Hnone) as (E1 & E2 & E3 & E4).
    unfold held_on, spent_on, metered_on in *. split; unfold held_on, spent_on, metered_on; simpl; try lia. by split_and!.
  - intros k' [a Ha]%(l_locked _ _ Hl). simpl. destruct (decide (k = k')) as [->|]; [by rewrite lookup_insert_eq; eexists|].
    rewrite lookup_insert_ne by done. by exists a.
  - intros k'. rewrite Hacct. case_bool_decide; [done|]. apply (l_none _ _ Hl).
  - intros rk g Hg. destruct (l_rows _ _ Hl _ _ Hg) as [? Hs]. split; [done|]. intros Hp. auto.
  - apply (l_ids _ _ Hl).
  - intros mk0 m0 Hm. destruct (l_meters _ _ Hl _ _ Hm) as (? & Hs & ? & ?). split_and!; try done. auto.
Qed.

(** The lock reads the account; a soft budget opens it to meters. *)
Lemma ledger_lock x t k a a' :
  ledger x t → c_accounts t !! k = None → Accounts (c_db t) !! k = Some a →
  hardEncumbered a' = hardEncumbered a → hardConsumed a' = hardConsumed a → softConsumed a' = softConsumed a →
  softPending a' = softPending a →
  ledger x (mkCTX (c_db t) (<[k := a']> (c_accounts t)) (c_ids t)).
Proof.
  intros Hl Hc Ha E1 E2 E3 E4. pose proof (acct_put t k a') as Hacct.
  assert (Hk : acct t k = Some a) by (unfold acct; by rewrite Hc).
  set (t' := mkCTX _ _ _) in *. assert (Hsome : ∀ k', is_Some (acct t k') → is_Some (acct t' k')).
  { intros k' Hs. rewrite Hacct. case_bool_decide; [by eexists|done]. }
  split.
  - intros k' a1. rewrite Hacct. case_bool_decide as E; [subst k'; intros [= <-]|apply (l_accounts _ _ Hl)].
    destruct (l_accounts _ _ Hl _ _ Hk) as [F1 F2 F3 F4 F5]. split; rewrite ?E1, ?E2, ?E3, ?E4; done.
  - intros k'. unfold t'. simpl. intros [a1 [[<- _]|[_ Hk1]]%lookup_insert_Some]; [by eexists|apply (l_locked _ _ Hl); by eexists].
  - intros k'. rewrite Hacct. case_bool_decide; [done|]. apply (l_none _ _ Hl).
  - intros rk g Hg. destruct (l_rows _ _ Hl _ _ Hg) as [? Hs]. split; [done|]. intros Hp. auto.
  - apply (l_ids _ _ Hl).
  - intros mk0 m0 Hm. destruct (l_meters _ _ Hl _ _ Hm) as (? & Hs & ? & ?). split_and!; try done. auto.
Qed.

Section locks.
Context (chash : string → string) (x : Others) (lim : accountKey → option Z) (db0 : DB).
Context (current : gmap accountKey AuthorityBudget).
Hypothesis lim_pos : ∀ k L b, lim k = Some L → current !! k = Some b → 0 <= L.

Lemma lock_account_keeps k t t' :
  keeps x lim db0 ∅ t → c_accounts t !! k = None → lock_account current k t = (Ok tt, t') →
  keeps x lim db0 ∅ t' ∧ ∃ a, c_accounts t' = <[k := a]> (c_accounts t).
Proof.
  intros Hk Hc. unfold lock_account, ctx_db, ctx_get, put_account, mbind, ste_mbind.
  assert (Hopen : ∀ b, current !! k = Some b → Accounts (c_db t) !! k = None →
    keeps x lim db0 ∅ (mkCTX (with_Accounts <[k := mkAccount 0 0 0 0 (negb (b_HardCap b)) false]> (c_db t)) (c_accounts t) (c_ids t))).
  { intros b Hb Hn. set (a := mkAccount _ _ _ _ _ _). set (t1 := mkCTX _ _ _).
    assert (Hacct : ∀ k', acct t1 k' = if bool_decide (k' = k) then Some a else acct t k').
    { intros k'. unfold acct, t1. simpl. case_bool_decide as E; [subst k'; by rewrite Hc, lookup_insert_eq|]. by rewrite lookup_insert_ne. }
    apply (keeps_account x x lim db0 t t1 k a a); try done.
    - by apply ledger_open; [apply (k_ledger _ _ _ _ _ Hk)|..].
    - intros k' a0. unfold t1. simpl. intros [[<- <-]|[_ Ha0]]%lookup_insert_Some; [done|by apply (k_table _ _ _ _ _ Hk k')].
    - intros a0. unfold acct. rewrite Hc. congruence.
    - intros L HL _. unfold committed. simpl. by eapply lim_pos. }
  assert (Hlock : ∀ t1 a a', keeps x lim db0 ∅ t1 → c_accounts t1 = c_accounts t → Accounts (c_db t1) !! k = Some a →
    (a' = a ∨ a' = mkAccount (hardEncumbered a) (hardConsumed a) (softConsumed a) (softPending a) true (frozen a)) →
    keeps x lim db0 ∅ (mkCTX (c_db t1) (<[k := a']> (c_accounts t1)) (c_ids t1))).
  { intros t1 a a' Hk1 Ec Ha Ha'. assert (Hak : acct t1 k = Some a) by (unfold acct; by rewrite Ec, Hc).
    apply (keeps_account x x lim db0 t1 _ k a a'); try done.
    - apply (ledger_lock _ _ _ a); [apply (k_ledger _ _ _ _ _ Hk1)|by rewrite Ec|done|by destruct Ha' as [->| ->]..].
    - apply (k_table _ _ _ _ _ Hk1).
    - apply acct_put.
    - intros a0. rewrite Hak. by intros [= <-].
    - by destruct Ha' as [->| ->].
    - by destruct Ha' as [->| ->].
    - intros L HL. destruct Ha' as [->| ->]; [by apply (k_fits _ _ _ _ _ Hk1 _ _ _ HL)|]. unfold strict. simpl. by rewrite andb_false_r. }
  destruct (current !! k) as [b|] eqn:Eb; simpl.
  - destruct (Accounts (c_db t) !! k) as [a|] eqn:Ea; simpl.
    + unfold with_Accounts. simpl. rewrite !Ea. intros [= <-]. split; [|by eexists].
      destruct t as [[] ? ?]. apply (Hlock (mkCTX (mkDB _ _ _ _ _) _ _) a); try done. destruct (b_HardCap b); auto.
    + unfold with_Accounts. simpl. rewrite !Ea, lookup_insert_eq. intros [= <-]. split; [|by eexists].
      eapply (Hlock _ _ _ (Hopen _ eq_refl eq_refl)); simpl; [done|by rewrite lookup_insert_eq|].
      destruct (b_HardCap b); auto.
  - destruct (Accounts (c_db t) !! k) as [a|] eqn:Ea; [|done]. intros [= <-]. split; [|by eexists].
    apply (Hlock t a); auto.
Qed.
End locks.
