(* ===== verification/CentralTheorems.v ===== *)
(** * Synchronizations of the control plane's ledger

    The leases of a [Sync], its commit, and histories of synchronizations: the
    accounts stay the sums of their rows, a grant issued never changes, and no
    window leases past its limit. *)

From S2P Require Import Prelude GoTime V1Alpha1 Policy Tier Escrow EscrowSettle Central CentralSafety.

#[local] Abbreviation hoare := (Prelude.hoare (S := CTX) (E := CentralError)).

(** ** Budgets of a snapshot *)

Section fold.
Context {K V : Type} `{Countable K} (f : V → K).

(** A map filled from a list holds elements of the list under their keys. *)
Lemma fold_insert_lookup (l : list V) (m : gmap K V) k v :
  foldl (λ m v, <[f v := v]> m) m l !! k = Some v → (v ∈ l ∧ f v = k) ∨ m !! k = Some v.
Proof.
  revert m. induction l as [|w l IH]; intros m; simpl; [by right|]. intros Hl. apply IH in Hl as [[? ?]|Hl].
  - left. split; [by right|done].
  - apply lookup_insert_Some in Hl as [[<- <-]|[_ ?]]; [left; split; [by left|done]|by right].
Qed.

Lemma fold_insert_some (l : list V) (m : gmap K V) v :
  v ∈ l → is_Some (foldl (λ m v, <[f v := v]> m) m l !! f v).
Proof.
  revert m. assert (Hkeep : ∀ l (m : gmap K V) k, is_Some (m !! k) → is_Some (foldl (λ m v, <[f v := v]> m) m l !! k)).
  { intros l'. induction l' as [|w l' IH]; intros m k Hs; simpl; [done|]. apply IH.
    destruct (decide (f w = k)) as [->|]; [rewrite lookup_insert_eq; by eexists|by rewrite lookup_insert_ne]. }
  induction l as [|w l IH]; intros m; [by intros ?%not_elem_of_nil|]. intros [->|Hv]%elem_of_cons; simpl; [|by apply IH].
  apply Hkeep. rewrite lookup_insert_eq. by eexists.
Qed.
End fold.

Lemma current_account_lookup budgets k b : current_account budgets !! k = Some b → b ∈ budgets ∧ budget_key b = k.
Proof. intros [?|He]%(fold_insert_lookup budget_key); [done|by rewrite lookup_empty in He]. Qed.

Lemma current_budgets_lookup budgets k b : current_budgets budgets !! k = Some b → b ∈ budgets ∧ Escrow.b_Key b = k.
Proof. intros [?|He]%(fold_insert_lookup Escrow.b_Key); [done|by rewrite lookup_empty in He]. Qed.

(** The finite budgets of policies have positive limits and grants. *)
Definition budget_ok (b : AuthorityBudget) : Prop :=
  0 < Escrow.b_LimitMicroUSD b <= MaxInt64 ∧ 0 < b_GrantMicroUSD b <= MaxInt64 ∧ 0 < b_LeaseSeconds b.

Section snapshot.
Context (range : gmap string string → list (string * string)).
Context (authorityHash : list string → string) (revise : Policy.Budget → string → string).

Lemma authority_budget_ok now p r fp b x :
  Policy.budget_wf fp b → Policy.b_Unlimited b = false → authority_budget authorityHash revise now p r b = Ok x → budget_ok x.
Proof.
  unfold authority_budget, Policy.budget_wf. intros [_ Hwf] Hu. rewrite Hu in Hwf.
  destruct (window_of _ _) as [start stop]. destruct (_ <? 1) eqn:E; [done|]. intros [= <-].
  unfold budget_ok. simpl. bsplit. lia.
Qed.


Hypothesis range_perm : ∀ m, range m ≡ₚ map_to_list m.

Lemma rule_budgets_ok now p rs xs :
  (∀ r b, r ∈ rs → Policy.r_Budget r = Some b → Policy.budget_wf (Policy.r_FailurePolicy r) b) →
  rule_budgets authorityHash revise now p rs = Ok xs → Forall budget_ok xs.
Proof.
  revert xs. induction rs as [|r rs IH]; intros xs Hwf Hrun; simpl in Hrun; [by injection Hrun as <-|].
  assert (Hwf' : ∀ r' b, r' ∈ rs → Policy.r_Budget r' = Some b → Policy.budget_wf (Policy.r_FailurePolicy r') b).
  { intros r' b Hr'. apply Hwf. by right. }
  destruct (Policy.r_Budget r) as [b|] eqn:Eb; [|by apply IH].
  destruct (Policy.b_Unlimited b) eqn:Eu; [by apply IH|]. inv_ok.
  constructor; [|by apply IH]. eapply (authority_budget_ok now p r _ b); [|done..]. apply Hwf; [by left|done].
Qed.

Lemma doc_budgets_ok now seen docs bs :
  doc_budgets range authorityHash revise now seen docs = Ok bs → Forall budget_ok bs.
Proof.
  revert seen bs. induction docs as [|doc docs IH]; intros seen bs Hrun; simpl in Hrun; [by injection Hrun as <-|].
  destruct (bool_decide _); [done|]. destruct (Policy.FromV1Alpha1 range doc) as [p|] eqn:Ep; [|done]. inv_ok.
  apply Forall_app. split; [|by eapply IH]. eapply rule_budgets_ok; [|done]. intros r b Hr Hb.
  pose proof (Policy.FromV1Alpha1_wf range range_perm doc _ Ep) as Hwf.
  by apply (Policy.rw_budget _ _ (Policy.pw_rules _ Hwf _ Hr)).
Qed.

Lemma AuthorityBudgets_ok docs now bs :
  AuthorityBudgets range authorityHash revise docs now = Ok bs → ∀ b, b ∈ bs → budget_ok b.
Proof.
  unfold AuthorityBudgets. destruct (IsZero now); [done|]. intros Hrun. inv_ok. intros b. rewrite merge_sort_Permutation.
  intros Hb. pose proof (doc_budgets_ok _ _ _ _ E) as Hf. rewrite Forall_forall in Hf. auto.
Qed.
(** *** Windows *)

(** The window holds the reading, and starts and ends at the boundaries of its
    period. *)
Lemma window_of_spec now period start stop :
  window_of now period = (start, stop) →
  start <= now < stop
  ∧ (if bool_decide (period = v1alpha1.PeriodCalendarDay)
     then local_midnight 0 start ∧ stop = start + 24 * Hour
     else local_month_start 0 start ∧ local_month_start 0 stop ∧ start + 28 * 24 * Hour <= stop <= start + 31 * 24 * Hour).
Proof.
  unfold window_of, UTC, civil_in. cbn [FixedZone loc_lookup z_offset].
  destruct (civil_from_days _) as [[y m] d] eqn:E. apply civil_from_days_spec in E as (Hd & Hm & Hr).
  change {| loc_name := _; loc_lookup := _ |} with (FixedZone "UTC" 0). symmetry in Hd. apply day_of_instant in Hd.
  case_bool_decide; intros [= <- <-]; rewrite !Date_fixed.
  - rewrite days_from_civil_day. unfold Hour, Minute, Second in *. split; [lia|]. split; [by eexists|lia].
  - pose proof (days_from_civil_month y m Hm). pose proof (month_len_pos (is_leap y) m).
    replace d with (1 + (d - 1)) in Hd by lia. rewrite days_from_civil_day in Hd.
    unfold Hour, Minute, Second in *. split; [lia|]. split; [by exists y, m|]. split; [by exists y, (m + 1)|lia].
Qed.

(** A budget of the snapshot comes from a finite budget of a rule. *)
Definition derived (now : Time) (docs : list v1alpha1.GovernancePolicy) (b : AuthorityBudget) : Prop :=
  ∃ doc p r pb, doc ∈ docs ∧ Policy.FromV1Alpha1 range doc = Ok p ∧ r ∈ Policy.p_Rules p ∧ Policy.r_Budget r = Some pb
    ∧ Policy.b_Unlimited pb = false ∧ authority_budget authorityHash revise now p r pb = Ok b.

Lemma rule_budgets_derived now p rs xs :
  rule_budgets authorityHash revise now p rs = Ok xs →
  ∀ b, b ∈ xs ↔ ∃ r pb, r ∈ rs ∧ Policy.r_Budget r = Some pb ∧ Policy.b_Unlimited pb = false
    ∧ authority_budget authorityHash revise now p r pb = Ok b.
Proof.
  revert xs. induction rs as [|r rs IH]; intros xs Hrun b; simpl in Hrun.
  { injection Hrun as <-. split; [by intros ?%not_elem_of_nil|]. by intros (? & ? & ?%not_elem_of_nil & _). }
  assert (Hskip : ∀ zs, rule_budgets authorityHash revise now p rs = Ok zs →
    (∀ pb, Policy.r_Budget r = Some pb → Policy.b_Unlimited pb = true) →
    b ∈ zs ↔ ∃ r0 pb, r0 ∈ r :: rs ∧ Policy.r_Budget r0 = Some pb ∧ Policy.b_Unlimited pb = false
      ∧ authority_budget authorityHash revise now p r0 pb = Ok b).
  { intros zs Hzs Hno. rewrite (IH _ Hzs). split; intros (r0 & pb & Hin & Hb & Hu & Ha).
    - exists r0, pb. split_and!; try done. by right.
    - apply elem_of_cons in Hin as [->|Hin]; [rewrite (Hno _ Hb) in Hu; done|]. by exists r0, pb. }
  destruct (Policy.r_Budget r) as [pb|] eqn:Eb; [|by apply Hskip].
  destruct (Policy.b_Unlimited pb) eqn:Eu; [apply Hskip; [done|by intros ? [= <-]]|]. inv_ok.
  rewrite elem_of_cons, (IH _ E0). split.
  - intros [->|(r0 & pb0 & Hin & ?)]; [exists r, pb; split_and!; try done; by left|]. exists r0, pb0. split; [by right|done].
  - intros (r0 & pb0 & [->|Hin]%elem_of_cons & Hb & Hu & Ha); [left; congruence|right; by exists r0, pb0].
Qed.

Lemma doc_budgets_derived now seen docs bs :
  doc_budgets range authorityHash revise now seen docs = Ok bs → ∀ b, b ∈ bs ↔ derived now docs b.
Proof.
  revert seen bs. induction docs as [|doc docs IH]; intros seen bs Hrun b; simpl in Hrun.
  { injection Hrun as <-. split; [by intros ?%not_elem_of_nil|]. by intros (? & ? & ? & ? & ?%not_elem_of_nil & _). }
  destruct (bool_decide _); [done|]. destruct (Policy.FromV1Alpha1 range doc) as [p|] eqn:Ep; [|done]. inv_ok.
  rewrite elem_of_app, (rule_budgets_derived _ _ _ _ E), (IH _ _ E0). split.
  - intros [(r & pb & ?)|(doc' & p' & r & pb & Hin & ?)]; [exists doc, p, r, pb; split; [by left|]; naive_solver|].
    exists doc', p', r, pb. split; [by right|done].
  - intros (doc' & p' & r & pb & [->|Hin]%elem_of_cons & Hp & ?); [left|right; by exists doc', p', r, pb].
    rewrite Ep in Hp. injection Hp as <-. by exists r, pb.
Qed.

#[local] Instance budget_le_total : Total budget_le.
Proof.
  intros a b. unfold budget_le. destruct (String.ltb (Escrow.b_Key b) (Escrow.b_Key a)) eqn:E1; [right|by left].
  unfold String.ltb in *. rewrite String.compare_antisym. destruct (String.compare (Escrow.b_Key b) (Escrow.b_Key a)); done.
Qed.

(** A snapshot's budgets are its finite budgets.  When the documents convert, the
    budgets come sorted by key, and are those that the finite budgets of the
    rules derive and no others; each has a positive limit, grant and lease,
    and its window holds the clock's reading, a UTC day or month from boundary
    to boundary. *)
Theorem AuthorityBudgets_spec docs now bs :
  AuthorityBudgets range authorityHash revise docs now = Ok bs →
  Sorted budget_le bs
  ∧ (∀ b, b ∈ bs ↔ derived now docs b)
  ∧ ∀ b, b ∈ bs → budget_ok b ∧ in_window now b = true
    ∧ (local_midnight 0 (instant (b_WindowStart b)) ∧ instant (b_WindowEnd b) = instant (b_WindowStart b) + 24 * Hour
       ∨ local_month_start 0 (instant (b_WindowStart b)) ∧ local_month_start 0 (instant (b_WindowEnd b))).
Proof.
  intros Hrun. pose proof (AuthorityBudgets_ok _ _ _ Hrun) as Hok. unfold AuthorityBudgets in Hrun.
  destruct (IsZero now); [done|]. inv_ok. pose proof (doc_budgets_derived _ _ _ _ E) as Hd.
  assert (Hin : ∀ b, b ∈ merge_sort budget_le a ↔ derived now docs b) by (intros b; by rewrite merge_sort_Permutation).
  split; [by apply Sorted_merge_sort, _|]. split; [done|]. intros b Hb. split; [by apply Hok|].
  apply Hin in Hb as (doc & p & r & pb & _ & _ & _ & _ & _ & Hb). unfold authority_budget in Hb.
  destruct (window_of now _) as [start stop] eqn:Ew. destruct (window_of_spec _ _ _ _ Ew) as [[Hs1 Hs2] Hs3].
  destruct (_ <? 1); [done|]. injection Hb as <-. simpl. split.
  - unfold in_window, Before. simpl. lia.
  - case_bool_decide; [by left|right; naive_solver].
Qed.
End snapshot.

(** ** Leases *)

(** A lease covers what was asked, and the limit covers the window with it. *)
Lemma lease_spec b want now a amount expires :
  budget_ok b → nat63 (hardEncumbered a) → nat63 (softConsumed a) → 0 <= want →
  lease b want now a = Ok (inr (amount, expires)) →
  frozen a = false ∧ 0 < amount ∧ want <= amount ∧ committed a + amount <= Escrow.b_LimitMicroUSD b
  ∧ (b_GrantMicroUSD b <= amount ∨ committed a + amount = Escrow.b_LimitMicroUSD b).
Proof.
  intros (Hl & Hg & _) [? ?] [? ?] Hw. unfold lease, committed.
  destruct (checkedAdd _ _) as [e|] eqn:Ee; [|done]. apply checkedAdd_Ok in Ee as (-> & _ & _ & ?); [|done..].
  cbn [mbind result_bind]. destruct (frozen a); [done|]. destruct (_ || _)%bool eqn:E; [done|]. bsplit.
  destruct (_ <=? 0) eqn:E0; [done|]. bsplit. intros [= <- <-]. split_and!; lia.
Qed.

Section issue.
Context (x : Others) (lim : accountKey → option Z) (db0 : DB) (cur : gmap string AuthorityBudget).
Hypothesis cur_key : ∀ k b, cur !! k = Some b → Escrow.b_Key b = k.
Hypothesis cur_ok : ∀ k b, cur !! k = Some b → budget_ok b.
Hypothesis cur_lim : ∀ k b L, cur !! k = Some b → lim (budget_key b) = Some L → Escrow.b_LimitMicroUSD b = L.

(** What a decision leaves: a denial, or a lease booked on its account. *)
Inductive decided (r : AuthorityGrantRequest) (t : CTX) : grantState → CTX → Prop :=
| Denied g : gs_amount g = 0 → decided r t g t
| Leased b a g amount : cur !! q_Key r = Some b → budget_key b = (q_Key r, q_WindowID r) → b_HardCap b = true →
    Escrow.b_Revision b = q_Revision r → c_accounts t !! budget_key b = Some a → frozen a = false →
    0 < amount → committed a + amount <= Escrow.b_LimitMicroUSD b → gs_amount g = amount →
    decided r t g (mkCTX (c_db t) (<[budget_key b := enc_account (hardEncumbered a + amount) a]> (c_accounts t)) (c_ids t)).

(** A row fresh from its decision. *)
Definition unreported (r : AuthorityGrantRequest) (g : grantState) : Prop :=
  (gs_key g, gs_window g, gs_revision g) = (q_Key r, q_WindowID r, q_Revision r) ∧ gs_want g = q_Want r
  ∧ nat63 (gs_seq g) ∧ gs_consumed g = 0 ∧ gs_observed g = 0 ∧ gs_closed g = false ∧ gs_overrun g = false
  ∧ (0 < gs_amount g ↔ gs_denial g = "").

Lemma decide_grant_spec now r id t g t' :
  0 <= q_Want r → ledger x t → decide_grant cur now r id t = (Ok g, t') →
  decided r t g t' ∧ unreported r g ∧ gs_id g = id ∧ (0 < gs_amount g → q_Want r <= gs_amount g).
Proof.
  intros Hw Hl. assert (Hden : ∀ d, d ≠ "" → let g := undecided r id d 0 None in
    decided r t g t ∧ unreported r g ∧ gs_id g = id ∧ (0 < gs_amount g → q_Want r <= gs_amount g)).
  { intros d Hd g0. split_and!; simpl; first [by constructor | done | lia]. }
  unfold decide_grant, get_account, put_account, ctx_lift, mbind, ste_mbind.
  destruct (cur !! q_Key r) as [b|] eqn:Eb; [|intros [= <- <-]; by apply Hden].
  destruct (_ || _)%bool eqn:Es; [intros [= <- <-]; by apply Hden|].
  destruct (b_HardCap b) eqn:Eh; cbn [negb]; [|intros [= <- <-]; by apply Hden]. bsplit.
  destruct (c_accounts t !! budget_key b) as [a|] eqn:Ea; [|done]. cbn beta iota zeta delta [from_option].
  assert (Hacct : acct t (budget_key b) = Some a) by (unfold acct; by rewrite Ea).
  pose proof (l_accounts _ _ Hl _ _ Hacct) as [_ _ _ _ (Hn1 & _ & Hn2)].
  destruct (lease b (q_Want r) now a) as [[d|[amount expires]]|] eqn:El; [| |done]; cbn beta iota zeta.
  - intros [= <- <-]. apply Hden. unfold lease in El. inv_ok. by repeat (case_hyp El; try done); injection El as <-.
  - destruct (lease_spec _ _ _ _ _ _ (cur_ok _ _ Eb) Hn1 Hn2 Hw El) as (Hf & Hp & Hwa & Hc & _).
    destruct (cur_ok _ _ Eb) as ([? ?] & _). destruct Hn1 as [? ?], Hn2 as [? ?]. unfold committed in Hc.
    destruct (checkedAdd _ amount) as [e|] eqn:Ec; [|done]. apply checkedAdd_Ok in Ec as (-> & _); [|lia..].
    intros [= <- <-]. split_and!; simpl; try done; try lia.
    apply (Leased r t b a _ amount); try done. unfold budget_key. by rewrite (cur_key _ _ Eb); f_equal.
Qed.

(** The decided row lands with its booking. *)
Lemma decided_keeps r t g t1 rk g' n :
  keeps x lim db0 cur t → decided r t g t1 → unreported r g' → gs_amount g' = gs_amount g → new_id (c_db t) rk (gs_id g') →
  (∀ old, GrantRows (c_db t) !! rk = Some old → gs_amount old <= 0 ∧ grant_evolves old g') →
  keeps x lim db0 cur (mkCTX (with_GrantRows <[rk := g']> (c_db t1)) (c_accounts t1) n).
Proof.
  intros Hk Hd ([= Ek Ew Er] & _ & [Eq1 Eq2] & Ec & Eo & Ecl & Eov & [Ed1 Ed2]) Ea Hid Hold. rewrite Ea in Ed1, Ed2. pose proof (k_ledger _ _ _ _ _ Hk) as Hl.
  assert (Hzero : old_hold previous_hold (c_db t) rk = 0 ∧ old_hold spent_row (c_db t) rk = 0).
  { unfold old_hold. destruct (GrantRows (c_db t) !! rk) as [old|] eqn:Eold; [simpl|done].
    destruct (Hold _ eq_refl) as [? _]. apply denied_row; [|done]. by destruct (l_rows _ _ Hl _ _ Eold). }
  destruct Hzero as [Hz1 Hz2].
  assert (Hhold : previous_hold g' = gs_amount g ∧ spent_row g' = 0).
  { unfold previous_hold, spent_row. by rewrite Ecl, Ec, Eo, Ea. }
  destruct Hhold as [Hh1 Hh2]. apply (keeps_ids _ _ _ _ (mkCTX (with_GrantRows <[rk := g']> (c_db t1)) (c_accounts t1) (c_ids t1))).
  destruct Hd as [g Hg0|b a g amount Hb Hbk Hh Hrev Hacc Hf Hp Hc Hga].
  - apply keeps_same; [done| |intros old Ho; by destruct (Hold _ Ho)|rewrite Ea, Hg0; lia].
    apply ledger_same; try done; [| |by intros; rewrite Ea|by rewrite Hh1, Hg0|by rewrite Hh2].
    + rewrite Hg0 in Ed1, Ed2. unfold row_ok, nat63. rewrite Ea, Hg0, Ec, Eo, Ecl, Eov. split_and!; done || lia.
    + intros old Ho. destruct (Hold _ Ho) as [_ [(<- & <- & _) _ _ _ _]]. split; [done|]. rewrite Ea. lia.
  - simpl. set (a' := enc_account _ a).
    assert (Hacct : acct t (q_Key r, q_WindowID r) = Some a) by (unfold acct; by rewrite <- Hbk, Hacc).
    pose proof (l_accounts _ _ Hl _ _ Hacct) as [_ _ _ _ ([? ?] & ? & [? ?])]. destruct (cur_ok _ _ Hb) as ([? ?] & _).
    assert (Hnew : leased cur (put_both rk g' (budget_key b) a' t) g').
    { exists b, a'. rewrite Ek, Ew, Er, <- Hbk, acct_both, bool_decide_true by done. split_and!; try done.
      unfold committed in *. simpl. lia. }
    unfold committed in Hc. rewrite Hbk in *. change (mkCTX _ _ _) with (put_both rk g' (q_Key r, q_WindowID r) a' t).
    apply (keeps_row x lim db0 cur t rk g' (q_Key r, q_WindowID r) a a'); try done.
    + apply (ledger_row x t rk g' _ a a'); try done; rewrite ?Hz1, ?Hz2, ?Hh1, ?Hh2, ?Hga; simpl; try lia.
      * rewrite Hga in Ed1, Ed2. unfold row_ok, nat63. rewrite Ea, Hga, Ec, Eo, Ecl, Eov. split_and!; done || lia.
      * intros old Ho. destruct (Hold _ Ho) as [_ [(E1 & E2 & _) _ _ _ _]]. by rewrite <- E1, <- E2, Ek, Ew.
      * by rewrite Ek, Ew.
      * split; lia.
    + by rewrite Ek, Ew.
    + intros old Ho. by destruct (Hold _ Ho).
    + intros L HL _. rewrite <- (cur_lim _ _ _ Hb ltac:(by rewrite Hbk)). unfold committed. simpl. lia.
    + simpl. intros b'. rewrite Hb. intros [= <-]. split; [done|]. unfold committed. simpl. lia.
    + intros _. by right.
Qed.
End issue.

(** ** Requests *)

Section requests.
Context (chash : string → string) (ids : nat → option string).
Context (x : Others) (lim : accountKey → option Z) (db0 : DB) (cur : gmap string AuthorityBudget).
Hypothesis cur_key : ∀ k b, cur !! k = Some b → Escrow.b_Key b = k.
Hypothesis cur_ok : ∀ k b, cur !! k = Some b → budget_ok b.
Hypothesis cur_lim : ∀ k b L, cur !! k = Some b → lim (budget_key b) = Some L → Escrow.b_LimitMicroUSD b = L.

(** The row [k] answers the request. *)
Definition answered (k : requestKey) (r : AuthorityGrantRequest) (res : grant_result) (db : DB) : Prop :=
  ∃ g, GrantRows db !! k = Some g ∧ row_ok g ∧ same_intent g r = true ∧ res = appendGrantResult r g.

Lemma unreported_intent r g : unreported r g → same_intent g r = true.
Proof.
  intros ([= Ek Ew Er] & Ewant & _). unfold same_intent. rewrite !bool_decide_true by done. simpl. lia.
Qed.

(** A denied request decided again is answered by its row. *)
Lemma redecided_spec r old g :
  row_ok old → gs_amount old <= 0 → same_intent old r = true → unreported r g → gs_id g = gs_id old →
  unreported r (redecided old g) ∧ grant_evolves old (redecided old g)
  ∧ appendGrantResult r g = appendGrantResult r (redecided old g).
Proof.
  intros ([? ?] & [? ?] & [? ?] & [? ?] & Hun & Hov & Hz & _) Ha Hi ([= Ek Ew Er] & Ewant & _ & _ & _ & Ec & _ & Hden) Eid.
  specialize (Hz ltac:(lia)). unfold same_intent in Hi. bsplit.
  assert (gs_overrun old = false) as Eo by (destruct (gs_overrun old); [destruct (Hov eq_refl); lia|done]). specialize (Hun Eo).
  split_and!.
  - unfold unreported, redecided. simpl. rewrite Hz, Eo. split_and!; try done; try lia; congruence.
  - split; unfold redecided; simpl; done || lia.
  - unfold appendGrantResult, redecided. simpl. rewrite Ec, Hz, Eid.
    replace (gs_key g) with (gs_key old) by congruence. replace (gs_window g) with (gs_window old) by congruence.
    by replace (gs_revision g) with (gs_revision old) by congruence.
Qed.

(** The accounts do not show in the rows. *)
Lemma decided_db r t g t1 : decided cur r t g t1 → c_db t1 = c_db t.
Proof. by intros []. Qed.

Lemma fresh_id_spec t id t' :
  fresh_id ids t = (Ok id, t') →
  t' = mkCTX (c_db t) (c_accounts t) (S (c_ids t)) ∧ ∀ rk g, GrantRows (c_db t) !! rk = Some g → gs_id g ≠ id.
Proof.
  unfold fresh_id. destruct (ids (c_ids t)) as [id0|]; [|done]. destruct (forallb _ _) eqn:E; [|done].
  intros [= <- <-]. split; [done|]. intros rk g Hg. rewrite forallb_forall in E.
  specialize (E (rk, g)). rewrite <- list_elem_of_In, elem_of_map_to_list in E. specialize (E Hg). simpl in E. by bsplit.
Qed.

Lemma answered_intro k r t g :
  keeps x lim db0 cur t → GrantRows (c_db t) !! k = Some g → same_intent g r = true → answered k r (appendGrantResult r g) (c_db t).
Proof. intros Hk Hg Hi. exists g. split_and!; try done. by apply (l_rows _ _ (k_ledger _ _ _ _ _ Hk) k). Qed.

Lemma issueGrant_spec now owner inst r t res t' :
  0 <= q_Want r → keeps x lim db0 cur t → issueGrant chash ids cur now owner inst r t = (Ok res, t') →
  keeps x lim db0 cur t' ∧ rows_evolve (c_db t) (c_db t')
  ∧ answered (owner, inst, chash (q_RequestID r)) r res (c_db t').
Proof.
  intros Hw Hk. pose proof (k_ledger _ _ _ _ _ Hk) as Hl. set (k := (owner, inst, chash (q_RequestID r))).
  unfold issueGrant, ctx_get. unfold mbind at 1, ste_mbind at 1. cbn beta iota zeta. fold k.
  destruct (GrantRows (c_db t) !! k) as [old|] eqn:Eold.
  - destruct (l_rows _ _ Hl _ _ Eold) as [Hok _]. destruct (negb (same_intent old r)) eqn:Ei; [done|].
    apply negb_false_iff in Ei. destruct (0 <? gs_amount old) eqn:Ep.
    { intros [= <- <-]. split_and!; [done|apply rows_evolve_refl|by apply answered_intro]. }
    unfold put_grant_row, ctx_db, mbind, ste_mbind. destruct (decide_grant _ _ _ _ t) as [[g|] t1] eqn:Ed; [|done].
    destruct (decide_grant_spec x cur cur_key cur_ok _ _ _ _ _ _ Hw Hl Ed) as (Hd & Hu & Hgid & _). intros [= <- <-].
    bsplit. destruct (redecided_spec r old g Hok Ep Ei Hu Hgid) as (Hu' & Hev & Happ).
    assert (Hk' : keeps x lim db0 cur (mkCTX (with_GrantRows <[k := redecided old g]> (c_db t1)) (c_accounts t1) (c_ids t1))).
    { apply (decided_keeps x lim db0 cur cur_ok cur_lim r t g); try done.
      - unfold new_id. by rewrite Eold.
      - intros old' Ho. replace old' with old by congruence. split; [lia|done]. }
    split_and!; [done|simpl; rewrite (decided_db _ _ _ _ Hd); apply (rows_evolve_put _ _ _ old); [apply rows_evolve_refl|done..]|].
    rewrite Happ. apply (answered_intro _ _ _ _ Hk'); [simpl; apply lookup_insert_eq|by apply unreported_intent].
  - unfold put_grant_row, ctx_db, mbind, ste_mbind. destruct (decide_grant _ _ _ _ t) as [[g|] t1] eqn:Ed; [|done].
    destruct (decide_grant_spec x cur cur_key cur_ok _ _ _ _ _ _ Hw Hl Ed) as (Hd & Hu & _ & _).
    destruct (fresh_id ids t1) as [[id|] t2] eqn:Ef; [|done]. destruct (fresh_id_spec _ _ _ Ef) as [-> Hfresh]. intros [= <- <-].
    rewrite (decided_db _ _ _ _ Hd) in Hfresh. simpl.
    assert (Hk' : keeps x lim db0 cur (mkCTX (with_GrantRows <[k := with_id id g]> (c_db t1)) (c_accounts t1) (S (c_ids t1)))).
    { apply (decided_keeps x lim db0 cur cur_ok cur_lim r t g); try done.
      - unfold new_id. rewrite Eold. apply Hfresh.
      - intros old'. by rewrite Eold. }
    split_and!; [done|simpl; rewrite (decided_db _ _ _ _ Hd); apply rows_evolve_new; [apply rows_evolve_refl|done]|].
    apply (answered_intro _ _ _ _ Hk'); [simpl; apply lookup_insert_eq|by apply unreported_intent].
Qed.

Lemma rows_evolve_trans db1 db2 db3 : rows_evolve db1 db2 → rows_evolve db2 db3 → rows_evolve db1 db3.
Proof.
  intros H1 H2 rk g Hg. destruct (H1 _ _ Hg) as (g' & Hg' & He). destruct (H2 _ _ Hg') as (g2 & Hg2 & He').
  exists g2. split; [done|]. by eapply grant_evolves_trans.
Qed.

(** A request of the batch got the answer of its row, on the way from [db0] to [db']. *)
Definition answers (owner inst : string) (db' : DB) (r : AuthorityGrantRequest) (res : grant_result) : Prop :=
  ∃ db, answered (owner, inst, chash (q_RequestID r)) r res db ∧ rows_evolve db0 db ∧ rows_evolve db db'.

(** Each request of a batch gets the answer of its row, at the time. *)
Lemma issue_all_spec now owner inst rs t l t' :
  Forall (λ r, 0 <= q_Want r) rs → keeps x lim db0 cur t → issue_all chash ids cur now owner inst rs t = (Ok l, t') →
  keeps x lim db0 cur t' ∧ rows_evolve (c_db t) (c_db t')
  ∧ Forall2 (answers owner inst (c_db t')) rs l.
Proof.
  revert t l. induction rs as [|r rs IH]; intros t l Hws Hk; cbn [issue_all].
  { intros [= <- <-]. split_and!; [done|apply rows_evolve_refl|done]. }
  apply Forall_cons in Hws as [Hw Hws]. unfold mbind, ste_mbind.
  destruct (issueGrant _ _ _ _ _ _ r t) as [[res|] t1] eqn:E1; [|done].
  destruct (issueGrant_spec _ _ _ _ _ _ _ Hw Hk E1) as (Hk1 & Hr1 & Ha).
  destruct (issue_all _ _ _ _ _ _ rs t1) as [[l1|] t2] eqn:E2; [|done]. intros [= <- <-].
  destruct (IH _ _ Hws Hk1 E2) as (Hk2 & Hr2 & Hf). split_and!; [done|by eapply rows_evolve_trans|].
  constructor; [|done]. exists (c_db t1). split_and!; [done|apply (k_rows _ _ _ _ _ Hk1)|done].
Qed.
End requests.

(** ** Commit *)

Section commit.
Context (x : Others) (lim : accountKey → option Z) (db0 : DB) (cur : gmap string AuthorityBudget).

(** The rows and what the accounts show are all that is kept. *)
Lemma keeps_view t t' :
  keeps x lim db0 cur t → (∀ k, acct t' k = acct t k) → (∀ k, is_Some (c_accounts t' !! k) → is_Some (Accounts (c_db t') !! k)) →
  table_ok (c_db t') → GrantRows (c_db t') = GrantRows (c_db t) → MeterRows (c_db t') = MeterRows (c_db t) →
  Policies (c_db t') = Policies (c_db t) → tiers_evolve db0 (c_db t') → keeps x lim db0 cur t'.
Proof.
  intros Hk Hacct Hlocked Htab Eg Em Ep Ht. pose proof (k_ledger _ _ _ _ _ Hk) as Hl. split.
  - split.
    + intros k a. rewrite Hacct. intros Ha. destruct (l_accounts _ _ Hl _ _ Ha) as [F1 F2 F3 F4 F5].
      unfold held_on, spent_on, metered_on in *. split; unfold held_on, spent_on, metered_on; by rewrite ?Eg, ?Em.
    + done.
    + intros k. rewrite Hacct. apply (l_none _ _ Hl).
    + intros rk g. rewrite Eg, Hacct. apply (l_rows _ _ Hl).
    + rewrite Eg. apply (l_ids _ _ Hl).
    + intros mk m. rewrite Em, Hacct. apply (l_meters _ _ Hl).
  - done.
  - unfold rows_evolve. rewrite Eg. apply (k_rows _ _ _ _ _ Hk).
  - intros k a Ha. rewrite Hacct. by apply (k_accounts _ _ _ _ _ Hk).
  - done.
  - rewrite Ep. apply (k_policies _ _ _ _ _ Hk).
  - intros k L a HL. rewrite Hacct. by apply (k_fits _ _ _ _ _ Hk).
  - intros rk g. rewrite Eg. intros Hg Hp. destruct (k_new _ _ _ _ _ Hk _ _ Hg Hp) as [|(b & a & Hle)]; [by left|right].
    exists b, a. by rewrite Hacct.
Qed.

Definition written (t : CTX) (k : accountKey) : Prop := Accounts (c_db t) !! k = c_accounts t !! k.

Lemma persist_account_spec k t t' :
  keeps x lim db0 cur t → persist_account k t = (Ok tt, t') →
  keeps x lim db0 cur t' ∧ c_accounts t' = c_accounts t ∧ GrantRows (c_db t') = GrantRows (c_db t)
  ∧ written t' k ∧ (∀ k', written t k' → written t' k') ∧ ∀ k', acct t' k' = acct t k'.
Proof.
  intros Hk. unfold persist_account, get_account, ctx_lift, ctx_db, mbind, ste_mbind.
  destruct (c_accounts t !! k) as [a|] eqn:Ea; [|done]. cbn beta iota zeta delta [from_option].
  destruct (checkedAdd _ _) as [e|] eqn:Ec; [|done]. destruct (_ || _)%bool eqn:Ep; [done|]. intros [= <-].
  assert (Hrow : table_row_ok a).
  { assert (Hacct : acct t k = Some a) by (unfold acct; by rewrite Ea).
    destruct (l_accounts _ _ (k_ledger _ _ _ _ _ Hk) _ _ Hacct) as [_ _ _ _ ([? ?] & _ & [? ?])].
    apply checkedAdd_Ok in Ec as (-> & _ & _ & [? ?]); [|done..]. bsplit. split; lia. }
  destruct (l_locked _ _ (k_ledger _ _ _ _ _ Hk) k) as [a1 Ha1]; [by eexists|].
  set (t' := mkCTX _ _ _).
  assert (Hat : ∀ k', Accounts (c_db t') !! k' = if bool_decide (k' = k) then Some a else Accounts (c_db t) !! k').
  { intros k'. unfold t'. simpl. case_bool_decide as E; [subst k'; by rewrite lookup_alter_eq, Ha1|]. by rewrite lookup_alter_ne. }
  assert (Hacct : ∀ k', acct t' k' = acct t k').
  { intros k'. unfold acct. rewrite Hat. simpl. case_bool_decide as E; [subst k'; by rewrite Ea|done]. }
  split_and!; try done.
  - apply (keeps_view t); try done; [| |by apply (k_tiers _ _ _ _ _ Hk)].
    + intros k' Hs. rewrite Hat. case_bool_decide; [by eexists|]. by apply (l_locked _ _ (k_ledger _ _ _ _ _ Hk)).
    + intros k' a0. rewrite Hat. case_bool_decide; [by intros [= <-]|by apply (k_table _ _ _ _ _ Hk k')].
  - unfold written. rewrite Hat, bool_decide_true by done. done.
  - intros k' Hw. unfold written in *. rewrite Hat. simpl. case_bool_decide; [congruence|done].
Qed.

Lemma persist_each l t t' :
  keeps x lim db0 cur t → ctx_each l persist_account t = (Ok tt, t') →
  keeps x lim db0 cur t' ∧ c_accounts t' = c_accounts t ∧ GrantRows (c_db t') = GrantRows (c_db t)
  ∧ (∀ k, k ∈ l → written t' k) ∧ (∀ k, written t k → written t' k) ∧ ∀ k, acct t' k = acct t k.
Proof.
  revert t. induction l as [|k l IH]; intros t Hk; simpl.
  { intros [= <-]. split_and!; try done. by intros k ?%not_elem_of_nil. }
  unfold mbind, ste_mbind. destruct (persist_account k t) as [[[]|] t1] eqn:E1; [|done].
  destruct (persist_account_spec _ _ _ Hk E1) as (Hk1 & Ec1 & Eg1 & Hw1 & Hm1 & Ha1). intros Hrun.
  destruct (IH _ Hk1 Hrun) as (Hk2 & Ec2 & Eg2 & Hw2 & Hm2 & Ha2). split_and!; try done; [congruence..| |auto|].
  - intros k' [->|Hin]%elem_of_cons; auto.
  - intros k'. by rewrite Ha2, Ha1.
Qed.

Lemma elem_of_orderedKeys {V} (m : gmap accountKey V) k : k ∈ orderedKeys m ↔ is_Some (m !! k).
Proof.
  unfold orderedKeys. rewrite merge_sort_Permutation, list_elem_of_fmap. split.
  - intros ([k' v] & -> & Hin%elem_of_map_to_list). by eexists.
  - intros [v Hv]. exists (k, v). split; [done|]. by apply elem_of_map_to_list.
Qed.

(** The tables hold every account locked. *)
Definition all_written (t : CTX) : Prop := ∀ k, is_Some (c_accounts t !! k) → written t k.

Lemma persistAccounts_spec t t' :
  keeps x lim db0 cur t → persistAccounts t = (Ok tt, t') →
  keeps x lim db0 cur t' ∧ all_written t' ∧ GrantRows (c_db t') = GrantRows (c_db t) ∧ ∀ k, acct t' k = acct t k.
Proof.
  intros Hk Hrun. destruct (persist_each _ _ _ Hk Hrun) as (Hk' & Ec & Eg & Hw & _ & Ha). split_and!; try done.
  intros k. rewrite Ec. intros Hs. apply Hw. by apply elem_of_orderedKeys.
Qed.

(** *** Tiers *)

Lemma latch_evolves k v m : ∀ k' w, m !! k' = Some w → ∃ w', latch k v m !! k' = Some w' ∧ w <= w'.
Proof.
  intros k' w Hw. unfold latch. destruct (0 <? v); [|by exists w]. destruct (decide (k' = k)) as [->|Hne].
  - rewrite lookup_insert_eq, Hw. exists (Z.max w v). split; [done|lia].
  - rewrite lookup_insert_ne by done. by exists w.
Qed.

Definition tiered (t0 t : CTX) : Prop :=
  keeps x lim db0 cur t ∧ all_written t ∧ GrantRows (c_db t) = GrantRows (c_db t0).

Lemma rule_tier_keeps t0 budgets doc rule : hoare (tiered t0) (rule_tier budgets doc rule) (λ _, tiered t0).
Proof.
  unfold rule_tier. destruct (_ ≫= _) as [tr|]; [|by apply hoare_ret]. destruct (by_rule _ _ _) as [b|]; [|apply hoare_early].
  intros t (Hk & Hw & Hg). unfold get_account, ctx_lift, ctx_db, ctx_get, mbind, ste_mbind.
  destruct (from_option Ok _ _) as [a|]; [|done]. destruct (from_option Ok _ _) as [percent|]; [|done]. cbn beta iota zeta.
  assert (Ht : tiered t0 (mkCTX (with_TierRows (latch (Escrow.b_Key b, b_WindowID b, v1alpha1.om_Name (v1alpha1.Metadata doc), v1alpha1.Name rule)
                 (reached percent (v1alpha1.btr_Tiers tr))) (c_db t)) (c_accounts t) (c_ids t))).
  { split_and!; try done. apply (keeps_view t); try done; [apply (l_locked _ _ (k_ledger _ _ _ _ _ Hk))|apply (k_table _ _ _ _ _ Hk)|].
    intros k v Hv. destruct (k_tiers _ _ _ _ _ Hk _ _ Hv) as (w & Hw1 & ?).
    destruct (latch_evolves (Escrow.b_Key b, b_WindowID b, v1alpha1.om_Name (v1alpha1.Metadata doc), v1alpha1.Name rule)
      (reached percent (v1alpha1.btr_Tiers tr)) _ _ _ Hw1) as (w' & ? & ?). exists w'. split; [done|lia]. }
  simpl in *. destruct (latch _ _ _ !! _) as [th|]; [|done]. by destruct (selected _ _).
Qed.

Lemma concat_tiers_hoare {A} (P : CTX → Prop) (l : list A) f :
  (∀ y, hoare P (f y) (λ _, P)) → hoare P (concat_tiers l f) (λ _, P).
Proof.
  intros Hf. induction l as [|y l IH]; simpl; [by apply hoare_ret|].
  eapply hoare_bind; [apply Hf|]. intros ts. eapply hoare_bind; [apply IH|]. intros ts'. by apply hoare_ret.
Qed.

Lemma activeTiers_keeps t0 docs budgets : hoare (tiered t0) (activeTiers docs budgets) (λ _, tiered t0).
Proof. apply concat_tiers_hoare. intros doc. apply concat_tiers_hoare. intros rule. apply rule_tier_keeps. Qed.

(** What the transaction showed is what the tables hold. *)
Lemma written_acct t : ledger x t → all_written t → ∀ k, acct t k = Accounts (c_db t) !! k.
Proof.
  intros Hl Hw k. unfold acct. destruct (c_accounts t !! k) as [a|] eqn:Ea; [|done]. rewrite (Hw k); [done|by eexists].
Qed.

Lemma committed_keeps t n : keeps x lim db0 cur t → all_written t → keeps x lim db0 cur (mkCTX (c_db t) ∅ n).
Proof.
  intros Hk Hw. apply (keeps_view t); try done; [|intros k; simpl; by intros ?%lookup_empty_is_Some|apply (k_table _ _ _ _ _ Hk)|apply (k_tiers _ _ _ _ _ Hk)].
  intros k. rewrite (written_acct t) by (done || apply (k_ledger _ _ _ _ _ Hk)). unfold acct. simpl. by rewrite lookup_empty.
Qed.
End commit.

(** ** One synchronization *)

(** The numbers of a request are 64-bit integers. *)
Definition typed_request (req : AuthorityRequest) : Prop :=
  Forall (λ r, int64 (ar_Sequence r) ∧ int64 (ar_Consumed r) ∧ int64 (ar_Observed r)) (rq_Reports req)
  ∧ Forall (λ m, int64 (am_Sequence m) ∧ int64 (am_Consumed m) ∧ int64 (am_Observed m)) (rq_Meters req).

Lemma valid_items_all {A K} `{EqDecision K} (bad : A → bool) (id : A → K) e1 e2 seen l :
  valid_items bad id e1 e2 seen l = Ok tt → Forall (λ y, bad y = false) l.
Proof.
  revert seen. induction l as [|y l IH]; intros seen; simpl; [constructor|].
  destruct (bad y) eqn:E; [done|]. destruct (bool_decide _); [done|]. intros Hv. constructor; [done|by eapply IH].
Qed.

Lemma validateRequest_ok owner req :
  validateRequest owner req = Ok tt → typed_request req →
  Forall (λ r, 0 <= q_Want r) (rq_Requests req) ∧ Forall report_ok (rq_Reports req) ∧ Forall meter_ok (rq_Meters req).
Proof.
  unfold validateRequest. destruct (_ || _)%bool; [done|]. destruct (1024 <? _); [done|]. intros Hv [Hr Hm].
  destruct (valid_items bad_request _ _ _ _ _) as [[]|] eqn:E1; [|done].
  destruct (valid_items bad_report _ _ _ _ _) as [[]|] eqn:E2; [|done]. simpl in Hv.
  apply valid_items_all in E1, E2, Hv. split_and!.
  - eapply Forall_impl; [exact E1|]. intros r Hb. unfold bad_request in Hb. bsplit. done.
  - eapply Forall_impl; [exact (proj2 (Forall_and _ _) (conj E2 Hr))|]. intros r [Hb (Hi1 & Hi2 & Hi3)].
    unfold bad_report in Hb. bsplit. unfold report_ok. int_unfold. split_and!; try lia; destruct (ar_Overrun r), (ar_Closed r); done || lia.
  - eapply Forall_impl; [exact (proj2 (Forall_and _ _) (conj Hv Hm))|]. intros m [Hb (Hi1 & Hi2 & Hi3)].
    unfold bad_meter in Hb. bsplit. unfold meter_ok. int_unfold. lia.
Qed.

Lemma report_keys_same chash owner rs t ks t' : report_keys chash owner rs t = (Ok ks, t') → t' = t.
Proof.
  revert t ks. induction rs as [|r rs IH]; intros t ks; cbn [report_keys]; [by intros [= <- <-]|].
  unfold mbind, ste_mbind. destruct (reportGrant chash owner r t) as [[[k g]|] t1] eqn:E1; [|done].
  destruct (reportGrant_spec _ _ _ _ _ _ _ E1) as (-> & _).
  destruct (report_keys chash owner rs t) as [[ks1|] t2] eqn:E2; [|done]. intros [= <- <-]. by eapply IH.
Qed.

Lemma orderedKeys_NoDup {V} (m : gmap accountKey V) : NoDup (orderedKeys m).
Proof. unfold orderedKeys. rewrite merge_sort_Permutation. apply NoDup_fst_map_to_list. Qed.

Section sync.
Context (range : gmap string string → list (string * string)).
Context (authorityHash : list string → string) (revise : Policy.Budget → string → string) (chash : string → string).
Hypothesis range_perm : ∀ m, range m ≡ₚ map_to_list m.

(** [lim] states limits that hold in every snapshot of the documents. *)
Definition limits (lim : accountKey → option Z) (docs : list v1alpha1.GovernancePolicy) : Prop :=
  ∀ now bs b L, AuthorityBudgets range authorityHash revise docs now = Ok bs → b ∈ bs →
    lim (budget_key b) = Some L → Escrow.b_LimitMicroUSD b = L.

Section body.
Context (x : Others) (lim : accountKey → option Z) (db0 : DB).
Hypothesis docs_lim : limits lim (Policies db0).

Lemma lock_each current l t t' :
  (∀ k L b, lim k = Some L → current !! k = Some b → 0 <= L) → NoDup l → (∀ k, k ∈ l → c_accounts t !! k = None) →
  keeps x lim db0 ∅ t → ctx_each l (lock_account current) t = (Ok tt, t') → keeps x lim db0 ∅ t'.
Proof.
  intros Hlim. revert t. induction l as [|k l IH]; intros t Hnd Hfree Hk; cbn [ctx_each]; [by intros [= <-]|].
  apply NoDup_cons in Hnd as [Hni Hnd]. unfold mbind, ste_mbind.
  destruct (lock_account current k t) as [[[]|] t1] eqn:E1; [|done].
  destruct (lock_account_keeps x lim db0 current Hlim _ _ _ Hk (Hfree _ ltac:(by left)) E1) as (Hk1 & a & Ec).
  apply IH; try done. intros k' Hin. rewrite Ec, lookup_insert_ne by (intros ->; done). apply Hfree. by right.
Qed.

Lemma lockAccounts_keeps owner req budgets now t t' :
  AuthorityBudgets range authorityHash revise (Policies db0) now = Ok budgets →
  keeps x lim db0 ∅ t → c_accounts t = ∅ → lockAccounts chash owner req budgets t = (Ok tt, t') → keeps x lim db0 ∅ t'.
Proof.
  intros Hb Hk Hc. unfold lockAccounts, mbind, ste_mbind.
  destruct (report_keys _ _ _ t) as [[ks|] t1] eqn:E; [|done]. rewrite (report_keys_same _ _ _ _ _ _ E).
  apply lock_each; [|apply orderedKeys_NoDup|intros k _; by rewrite Hc, lookup_empty|done].
  intros k L b HL Hcur. apply current_account_lookup in Hcur as [Hin <-].
  rewrite <- (docs_lim _ _ _ _ Hb Hin HL).
  by destruct (AuthorityBudgets_ok range authorityHash revise range_perm _ _ _ Hb _ Hin) as ([? ?] & _); lia.
Qed.

Lemma keeps_cur cur t : keeps x lim db0 ∅ t → keeps x lim db0 cur t.
Proof.
  intros Hk. split; try by destruct Hk. intros rk g Hg Hp.
  destruct (k_new _ _ _ _ _ Hk _ _ Hg Hp) as [|(b & ? & Hb & _)]; [by left|]. by rewrite lookup_empty in Hb.
Qed.

(** What a successful body leaves. *)
Lemma sync_body_spec ids gate now1 now2 dataplane req resp t :
  typed_request req → validateRequest dataplane req = Ok tt → keeps x lim db0 ∅ (mkCTX db0 ∅ 0) →
  sync_body range authorityHash revise chash ids gate now1 now2 dataplane req (mkCTX db0 ∅ 0) = (Ok resp, t) →
  ∃ budgets, AuthorityBudgets range authorityHash revise (Policies db0) now1 = Ok budgets
    ∧ keeps x lim db0 (current_budgets budgets) (mkCTX (c_db t) ∅ 0)
    ∧ Forall2 (answers chash db0 dataplane (rq_Instance req) (c_db t)) (rq_Requests req) (sy_Results resp).
Proof.
  intros Hty Hv Hk0. destruct (validateRequest_ok _ _ Hv Hty) as (Hq & Hr & Hm).
  unfold sync_body, ctx_get, ctx_lift. unfold mbind at 1, ste_mbind at 1. cbn beta iota zeta. cbn [c_db].
  destruct (negb (gate _)); [done|]. unfold mbind, ste_mbind.
  destruct (AuthorityBudgets _ _ _ _ now1) as [budgets|] eqn:Eb; [|done].
  destruct (lockAccounts _ _ _ _ _) as [[[]|] t1] eqn:E1; [|done].
  pose proof (lockAccounts_keeps _ _ _ _ _ _ Eb Hk0 eq_refl E1) as Hk1.
  destruct (negb (forallb _ _)); [done|].
  destruct (ctx_each (rq_Reports req) _ t1) as [[[]|] t2] eqn:E2; [|done].
  pose proof (ctx_each_hoare (keeps x lim db0 ∅) (rq_Reports req) (applyReport chash dataplane (rq_Instance req))) as Hh.
  rewrite Forall_forall in Hr. specialize (Hh (λ y Hy, applyReport_keeps chash x lim db0 _ _ _ (Hr y Hy)) _ Hk1). rewrite E2 in Hh.
  destruct (ctx_each (rq_Meters req) _ t2) as [[[]|] t3] eqn:E3; [|done].
  pose proof (ctx_each_hoare (keeps x lim db0 ∅) (rq_Meters req) (applyMeter dataplane (rq_Instance req))) as Hh2.
  rewrite Forall_forall in Hm. specialize (Hh2 (λ y Hy, applyMeter_keeps x lim db0 _ _ _ (Hm y Hy)) _ Hh). rewrite E3 in Hh2.
  set (cur := current_budgets budgets).
  assert (Hck : ∀ k b, cur !! k = Some b → b ∈ budgets ∧ Escrow.b_Key b = k) by apply current_budgets_lookup.
  destruct (issue_all _ _ _ _ _ _ _ t3) as [[results|] t4] eqn:E4; [|done].
  apply (issue_all_spec chash ids x lim db0 cur) in E4 as (Hk4 & _ & Hans); [| | | |done|by apply keeps_cur].
  2: { intros k b Hb. by apply Hck. }
  2: { intros k b Hb. eapply AuthorityBudgets_ok; [done..|]. by apply (Hck k). }
  2: { intros k b L Hb. eapply docs_lim; [done|]. by apply (Hck k). }
  destruct (persistAccounts t4) as [[[]|] t5] eqn:E5; [|done]. destruct (persistAccounts_spec _ _ _ _ _ _ Hk4 E5) as (Hk5 & Hw5 & Eg5 & _).
  pose proof (activeTiers_keeps x lim db0 cur t5 (Policies db0) budgets t5 (conj Hk5 (conj Hw5 eq_refl))) as H6.
  destruct (activeTiers (Policies db0) budgets t5) as [[tiers|] t6] eqn:E6; [|done]. destruct H6 as (Hk6 & Hw6 & Eg6).
  intros [= <- <-]. exists budgets. split_and!; [done|by apply committed_keeps|]. simpl.
  eapply Forall2_impl; [exact Hans|]. intros r res (db & Ha & Hev0 & Hev). exists db. split_and!; [done..|].
  unfold rows_evolve in *. by rewrite Eg6, Eg5.
Qed.
End body.

(** *** The tables between transactions *)

(** Every window that never overran and takes no meters is within its limit. *)
Definition within (lim : accountKey → option Z) (db : DB) : Prop :=
  ∀ k L a, lim k = Some L → Accounts db !! k = Some a → strict a = true → committed a <= L.

Lemma keeps_start x lim db : ledger_ok x db → within lim db → keeps x lim db ∅ (mkCTX db ∅ 0).
Proof.
  intros [Hl Ht] Hw. split; try done.
  - apply rows_evolve_refl.
  - intros k a Ha. exists a. unfold acct. simpl. by rewrite lookup_empty.
  - intros k v Hv. by exists v.
  - intros rk g Hg Hp. left. by exists g.
Qed.

(** A [Sync] commits what its body left, or nothing. *)
Lemma Sync_cases x lim ids gate now1 now2 o dataplane req db r db' :
  limits lim (Policies db) → typed_request req → ledger_ok x db → within lim db →
  Sync range authorityHash revise chash ids gate now1 now2 o dataplane req db = (r, db') →
  db' = db ∧ (∃ e, r = Err e)
  ∨ ∃ budgets resp, AuthorityBudgets range authorityHash revise (Policies db) now1 = Ok budgets
    ∧ (r = Ok resp ∨ r = Err DatabaseFailure) ∧ keeps x lim db (current_budgets budgets) (mkCTX db' ∅ 0)
    ∧ Forall2 (answers chash db dataplane (rq_Instance req) db') (rq_Requests req) (sy_Results resp).
Proof.
  intros Hlim Hty Hl Hw. unfold Sync. destruct (validateRequest dataplane req) as [[]|e] eqn:Ev; [|intros [= <- <-]; eauto].
  destruct (sync_body _ _ _ _ _ _ _ _ _ _ _) as [[resp|e] t] eqn:Eb; [|intros [= <- <-]; eauto].
  destruct (sync_body_spec x lim db Hlim _ _ _ _ _ _ _ _ Hty Ev (keeps_start _ _ _ Hl Hw) Eb) as (bs & Hbs & Hk & Hans).
  destruct o as [|[]]; intros [= <- <-]; [right; exists bs, resp; eauto|right; exists bs, resp; eauto|left; eauto].
Qed.

Lemma keeps_ok x lim db cur db' :
  keeps x lim db cur (mkCTX db' ∅ 0) → ledger_ok x db' ∧ within lim db' ∧ rows_evolve db db' ∧ tiers_evolve db db' ∧ Policies db' = Policies db
  ∧ ∀ k a, Accounts db !! k = Some a → ∃ a', Accounts db' !! k = Some a' ∧ (frozen a = true → frozen a' = true).
Proof.
  assert (Hacct : ∀ k, acct (mkCTX db' ∅ 0) k = Accounts db' !! k) by (intros k; unfold acct; simpl; by rewrite lookup_empty).
  intros Hk. split_and!.
  - split; [apply (k_ledger _ _ _ _ _ Hk)|apply (k_table _ _ _ _ _ Hk)].
  - intros k L a HL Ha. apply (k_fits _ _ _ _ _ Hk _ _ _ HL). by rewrite Hacct.
  - apply (k_rows _ _ _ _ _ Hk).
  - apply (k_tiers _ _ _ _ _ Hk).
  - apply (k_policies _ _ _ _ _ Hk).
  - intros k a Ha. destruct (k_accounts _ _ _ _ _ Hk _ _ Ha) as (a' & Ha' & Hf & _). rewrite Hacct in Ha'. eauto.
Qed.

(** *** Histories *)

(** One step of the ledger: a dataplane synchronizes, or an administrator
    replaces the documents by some that [allowed] admits. *)
Inductive step (allowed : list v1alpha1.GovernancePolicy → Prop) (db : DB) : DB → Prop :=
| StepSync ids gate now1 now2 o dataplane req :
    typed_request req →
    step allowed db (Sync range authorityHash revise chash ids gate now1 now2 o dataplane req db).2
| StepPolicies docs : allowed docs → step allowed db (mkDB docs (Accounts db) (GrantRows db) (MeterRows db) (TierRows db)).

Definition history (allowed : list v1alpha1.GovernancePolicy → Prop) : relation DB := rtc (step allowed).

(** What a step, and so a history, does not take back. *)
Definition evolves (db db' : DB) : Prop :=
  rows_evolve db db' ∧ tiers_evolve db db'
  ∧ ∀ k a, Accounts db !! k = Some a → ∃ a', Accounts db' !! k = Some a' ∧ (frozen a = true → frozen a' = true).

Lemma evolves_refl db : evolves db db.
Proof. split_and!; [apply rows_evolve_refl|intros k v Hv; by exists v|intros k a Ha; by exists a]. Qed.

Lemma evolves_trans db1 db2 db3 : evolves db1 db2 → evolves db2 db3 → evolves db1 db3.
Proof.
  intros (Hr1 & Ht1 & Ha1) (Hr2 & Ht2 & Ha2). split_and!; [by eapply rows_evolve_trans|..].
  - intros k v Hv. destruct (Ht1 _ _ Hv) as (v' & Hv' & ?). destruct (Ht2 _ _ Hv') as (w & ? & ?). exists w. split; [done|lia].
  - intros k a Ha. destruct (Ha1 _ _ Ha) as (a' & Ha' & ?). destruct (Ha2 _ _ Ha') as (b & ? & ?). exists b. auto.
Qed.

Lemma ledger_ok_policies x db docs :
  ledger_ok x db → ledger_ok x (mkDB docs (Accounts db) (GrantRows db) (MeterRows db) (TierRows db)).
Proof. intros [Hl Ht]. split; [|done]. split; try by destruct Hl. intros k a Ha. by destruct (l_accounts _ _ Hl k a Ha). Qed.

Lemma step_ok x lim allowed db db' :
  (∀ docs, allowed docs → limits lim docs) → limits lim (Policies db) → step allowed db db' → ledger_ok x db → within lim db →
  ledger_ok x db' ∧ within lim db' ∧ evolves db db' ∧ limits lim (Policies db').
Proof.
  intros Hall Hlim Hst Hl Hw. destruct Hst as [ids gate now1 now2 o dp req Hty|docs Hd].
  - destruct (Sync _ _ _ _ _ _ _ _ _ _ _ _) as [r db'] eqn:E. simpl.
    destruct (Sync_cases x lim _ _ _ _ _ _ _ _ _ _ Hlim Hty Hl Hw E) as [[-> _]|(bs & resp & _ & _ & Hk & _)].
    + split_and!; [done..|apply evolves_refl|done].
    + destruct (keeps_ok _ _ _ _ _ Hk) as (? & ? & ? & ? & Hp & ?). by rewrite Hp.
  - split_and!; [by apply ledger_ok_policies|done|exact (evolves_refl db)|by apply Hall].
Qed.

Lemma history_ok x lim allowed db db' :
  (∀ docs, allowed docs → limits lim docs) → limits lim (Policies db) → history allowed db db' → ledger_ok x db → within lim db →
  ledger_ok x db' ∧ within lim db' ∧ evolves db db' ∧ limits lim (Policies db').
Proof.
  intros Hall Hlim Hh. revert Hlim. induction Hh as [db|db1 db2 db3 Hs Hh IH]; intros Hlim Hl Hw; [split_and!; [done..|apply evolves_refl|done]|].
  destruct (step_ok x lim _ _ _ Hall Hlim Hs Hl Hw) as (Hl2 & Hw2 & He2 & Hlim2).
  destruct (IH Hlim2 Hl2 Hw2) as (? & ? & ? & ?). split_and!; [done..|by eapply evolves_trans|done].
Qed.

(** No limit is claimed. *)
Definition no_limit (k : accountKey) : option Z := None.

Lemma no_limits docs : limits no_limit docs.
Proof. by intros now bs b L _ _. Qed.

Lemma no_within db : within no_limit db.
Proof. by intros k L a. Qed.

(** A step reads the documents it does not replace. *)
Lemma step_policies x allowed db db' : step allowed db db' → ledger_ok x db → Policies db' = Policies db ∨ allowed (Policies db').
Proof.
  intros [ids gate now1 now2 o dp req Hty|docs Hd] Hl; [left|by right].
  destruct (Sync _ _ _ _ _ _ _ _ _ _ _ _) as [r db2] eqn:E.
  destruct (Sync_cases x no_limit _ _ _ _ _ _ _ _ _ _ (no_limits _) Hty Hl (no_within _) E) as [[-> _]|(bs & resp & _ & _ & Hk & _)]; [done|].
  by apply (keeps_ok _ _ _ _ _ Hk).
Qed.

(** ** What the ledger guarantees *)

(** C27: No account drifts.  Whatever the dataplanes send, in any order and with
    any outcome of the commits, and whatever documents the policies become:
    every account holds exactly what its rows hold, an open grant with its
    whole amount, a closed one with what it settled, a meter with what it
    consumed, on top of what the other writers of the account booked. *)
Theorem accounts_balance x allowed db db' :
  ledger_ok x db → history allowed db db' → ledger_ok x db'.
Proof.
  intros Hl Hh. destruct (history_ok x no_limit allowed db db') as (Hl' & _); done.
Qed.

(** C28: No lease goes past the limit.  A grant that a [Sync] newly issues is of a
    hard budget of the snapshot it read, with its revision and window; when
    the transaction commits, all that the window has committed, hard and
    soft, is within that budget's limit, and the window is not frozen. *)
Theorem lease_within_limit x ids gate now1 now2 o dataplane req db rk g :
  ledger_ok x db → typed_request req →
  let db' := (Sync range authorityHash revise chash ids gate now1 now2 o dataplane req db).2 in
  GrantRows db' !! rk = Some g → 0 < gs_amount g →
  (∀ g0, GrantRows db !! rk = Some g0 → gs_amount g0 <= 0) →
  ∃ budgets b a, AuthorityBudgets range authorityHash revise (Policies db) now1 = Ok budgets ∧ b ∈ budgets
    ∧ b_HardCap b = true ∧ Escrow.b_Revision b = gs_revision g ∧ budget_key b = (gs_key g, gs_window g)
    ∧ Accounts db' !! budget_key b = Some a ∧ frozen a = false
    ∧ hardEncumbered a + softConsumed a <= Escrow.b_LimitMicroUSD b.
Proof.
  intros Hl Hty db' Hg Hp Hnew. unfold db' in *. clear db'.
  destruct (Sync _ _ _ _ _ _ _ _ _ _ _ db) as [r db'] eqn:E. simpl in *.
  destruct (Sync_cases x no_limit _ _ _ _ _ _ _ _ _ _ (no_limits _) Hty Hl (no_within _) E) as [[-> _]|(bs & resp & Hbs & _ & Hk & _)].
  - specialize (Hnew _ Hg). lia.
  - destruct (k_new _ _ _ _ _ Hk _ _ Hg Hp) as [(g0 & Hg0 & ?)|(b & a & Hb & Hh & Hr & Hbk & Ha & Hf & Hc)].
    + specialize (Hnew _ Hg0). lia.
    + apply current_budgets_lookup in Hb as [Hin _]. exists bs, b, a. rewrite Hbk. split_and!; try done.
Qed.

(** A limit holds for good.  Start from an empty ledger, and let [L] be the limit
    of a window in every snapshot of the documents.  As long as no overrun
    has frozen the window and no soft budget has opened it to meters, what
    its dataplanes spent is within what it encumbers, and that within [L]. *)
Theorem limit_holds docs allowed k L db a :
  limits (λ k', if decide (k' = k) then Some L else None) docs →
  (∀ docs', allowed docs' → limits (λ k', if decide (k' = k) then Some L else None) docs') →
  history allowed (emptyDB docs) db → Accounts db !! k = Some a → frozen a = false → acceptsMeters a = false →
  spent_on k db <= held_on k db <= hardEncumbered a ∧ hardEncumbered a + softConsumed a <= L.
Proof.
  intros Hlim Hall Hh Ha Hf Hm. set (lim := λ k', if decide (k' = k) then Some L else None) in *.
  set (nobody := mkOthers (λ _, 0) (λ _, 0) (λ _, 0) (λ _, 0)).
  assert (Hl0 : ledger_ok nobody (emptyDB docs)) by (split; [|done]; split; try done; intros k'; unfold acct; simpl; rewrite ?lookup_empty; by intros []).
  destruct (history_ok nobody lim allowed (emptyDB docs) db Hall Hlim Hh Hl0 ltac:(done)) as (Hl & Hw & _).
  assert (Hacct : acct (mkCTX db ∅ 0) k = Some a) by (unfold acct; simpl; by rewrite lookup_empty).
  destruct Hl as [Hl _]. pose proof (l_accounts _ _ Hl _ _ Hacct) as [E1 _ _ _ _]. simpl in E1. split; [split|].
  - apply sum_if_le. intros rk g Hg. apply spent_row_nonneg. by apply (l_rows _ _ Hl rk).
  - lia.
  - apply (Hw k); [unfold lim; by rewrite decide_True|done|]. unfold strict. by rewrite Hf, Hm.
Qed.

(** C30: What is granted stays granted, and what is reported stays reported.  Over
    any history an issued grant keeps its identity, capability, amount and
    expiry, its reported sequence, consumption and observation never fall, it
    never reopens and an overrun is never forgotten; a frozen window stays
    frozen and a latched tier threshold never falls. *)
Theorem ledger_never_goes_back x allowed db db' :
  ledger_ok x db → history allowed db db' → evolves db db'.
Proof.
  intros Hl Hh. destruct (history_ok x no_limit allowed db db') as (_ & _ & He & _); done.
Qed.

(** A grant's row goes on answering with the grant. *)
Lemma granted_replay q q' g g' w :
  row_ok g → q_RequestID q' = q_RequestID q → Granted w = appendGrantResult q g → same_intent g' q' = true → grant_evolves g g' →
  appendGrantResult q' g' = Granted w ∨ appendGrantResult q' g' = Refused (mkDenial (q_RequestID q') (q_Key q') "closed_grant").
Proof.
  intros (_ & _ & _ & _ & _ & _ & _ & Hden) Hcap Hw Hi [(E1 & E2 & E3 & E4 & E5) Hiss _ _ _]. unfold appendGrantResult in *.
  destruct (negb (bool_decide (gs_denial g = ""))) eqn:Ed; [done|]. simpl in Hw. destruct (gs_closed g); [done|]. bsplit.
  destruct (Hiss (proj2 Hden Ed)) as (Ea & Ee & Edn). rewrite E1, E2, E3, E5, Ea, Ee, Edn, Ed, Hcap. simpl.
  destruct (gs_closed g'); [by right|left]. by rewrite Hw.
Qed.

(** C29: A capability buys one grant.  When a dataplane asks again with a request
    that was granted, however much later and whatever happened in between,
    the answer is the same grant, or that it is closed: never a second one. *)
Theorem capability_buys_once x allowed ids gate now1 now2 dataplane req resp db db1 db2
    ids' gate' now1' now2' req' resp' db3 i j q q' w res :
  ledger_ok x db → typed_request req → typed_request req' →
  Sync range authorityHash revise chash ids gate now1 now2 Committed dataplane req db = (Ok resp, db1) →
  history allowed db1 db2 →
  Sync range authorityHash revise chash ids' gate' now1' now2' Committed dataplane req' db2 = (Ok resp', db3) →
  rq_Instance req' = rq_Instance req → q_RequestID q' = q_RequestID q →
  rq_Requests req !! i = Some q → sy_Results resp !! i = Some (Granted w) →
  rq_Requests req' !! j = Some q' → sy_Results resp' !! j = Some res →
  res = Granted w ∨ res = Refused (mkDenial (q_RequestID q') (q_Key q') "closed_grant").
Proof.
  intros Hl Hty Hty' E1 Hh E2 Hinst Hcap Hq Hw Hq' Hres.
  destruct (Sync_cases x no_limit _ _ _ _ _ _ _ _ _ _ (no_limits _) Hty Hl (no_within _) E1) as [[_ [? ?]]|(bs & r1 & _ & [[= <-]|] & Hk1 & Ha1)]; [done| |done].
  destruct (keeps_ok _ _ _ _ _ Hk1) as (Hl1 & _).
  destruct (history_ok x no_limit allowed _ _ (λ d _, no_limits d) (no_limits _) Hh Hl1 (no_within _)) as (Hl2 & _ & (Hr12 & _) & _).
  destruct (Sync_cases x no_limit _ _ _ _ _ _ _ _ _ _ (no_limits _) Hty' Hl2 (no_within _) E2) as [[_ [? ?]]|(bs' & r2 & _ & [[= <-]|] & Hk3 & Ha3)]; [done| |done].
  destruct (Forall2_lookup_lr _ _ _ _ _ _ Ha1 Hq Hw) as (d1 & (g1 & Hg1 & Hok1 & Hi1 & Hap1) & _ & Hev1).
  destruct (Forall2_lookup_lr _ _ _ _ _ _ Ha3 Hq' Hres) as (d3 & (g3 & Hg3 & _ & Hi3 & ->) & Hev3 & _).
  rewrite Hinst, Hcap in Hg3.
  destruct (Hev1 _ _ Hg1) as (g2 & Hg2 & He2). destruct (Hr12 _ _ Hg2) as (g2' & Hg2' & He2').
  destruct (Hev3 _ _ Hg2') as (g3' & Hg3' & He3). replace g3' with g3 in * by congruence.
  apply (granted_replay q q' g1); try done. by eapply grant_evolves_trans, grant_evolves_trans.
Qed.
End sync.

(** ** Witnesses *)

Module Demo.

Definition a_budget : AuthorityBudget := mkBudget "" "" "" "" "" "" "" zeroStamp zeroStamp 0 0 0 false.
Definition hard : AuthorityBudget := nth 1 Central.Demo.budgets a_budget.
Definition soft : AuthorityBudget := nth 0 Central.Demo.budgets a_budget.

Definition ask : AuthorityGrantRequest :=
  mkGrantRequest Central.Demo.capability (Escrow.b_Key hard) (Escrow.b_Revision hard) (b_WindowID hard) 100.
Definition asking : AuthorityRequest := mkRequest AuthorityProtocol "node" [ask] [] [].

(** The node asks again, reports what it spent of the grant, and meters. *)
Definition reporting : AuthorityRequest :=
  mkRequest AuthorityProtocol "node" [ask] [mkReport "node" "n" Central.Demo.capability 1 30 20 false false]
    [mkMeterWire "node" (Escrow.b_Key soft) (b_WindowID soft) 1 5 5].

Definition db1 : DB := (Central.Demo.sync asking Central.Demo.db0).2.
Definition db2 : DB := (Central.Demo.sync reporting db1).2.

Definition nobody : Others := mkOthers (λ _, 0) (λ _, 0) (λ _, 0) (λ _, 0).
Definition any_docs (docs : list v1alpha1.GovernancePolicy) : Prop := True.
Definition the_docs (docs : list v1alpha1.GovernancePolicy) : Prop := docs = [Central.Demo.doc].

Definition demo_history := history Central.Demo.range Central.Demo.joined Central.Demo.revise (λ s, s).

Lemma demo_range_perm : ∀ m, Central.Demo.range m ≡ₚ map_to_list m.
Proof. done. Qed.

Lemma empty_ok : ledger_ok nobody Central.Demo.db0.
Proof. split; [|done]; split; try done; intros k; unfold acct; simpl; rewrite ?lookup_empty; by intros []. Qed.

Lemma asking_typed : typed_request asking.
Proof. by split. Qed.

Lemma reporting_typed : typed_request reporting.
Proof. by repeat constructor. Qed.

Lemma db1_reached allowed : demo_history allowed Central.Demo.db0 db1.
Proof. apply rtc_once. apply StepSync, asking_typed. Qed.

Lemma db2_reached allowed : demo_history allowed db1 db2.
Proof. apply rtc_once. apply StepSync, reporting_typed. Qed.

Lemma db1_ok : ledger_ok nobody db1.
Proof.
  destruct (history_ok Central.Demo.range Central.Demo.joined Central.Demo.revise (λ s, s) demo_range_perm nobody no_limit any_docs Central.Demo.db0 db1)
    as (Hl & _); first [apply empty_ok | apply db1_reached | done].
Qed.

(** The limit of the hard budget, in every month. *)
Definition hard_limit (k : accountKey) (L : Z) : Prop :=
  limits Central.Demo.range Central.Demo.joined Central.Demo.revise (λ k', if decide (k' = k) then Some L else None) [Central.Demo.doc].

Lemma demo_hard_budget now bs b :
  AuthorityBudgets Central.Demo.range Central.Demo.joined Central.Demo.revise [Central.Demo.doc] now = Ok bs → b ∈ bs →
  budget_key b = budget_key hard → Escrow.b_LimitMicroUSD b = 50000000 ∧ b_HardCap b = true.
Proof.
  intros Hbs Hb Hk.
  apply (AuthorityBudgets_spec _ _ _ demo_range_perm) in Hbs as (_ & Hd & _).
  apply Hd in Hb as (doc & p & r & pb & ->%list_elem_of_singleton & Hp & Hr & Hpb & Hu & Hb).
  assert (Hrule : ((Policy.r_Name r = "month" ∧ Policy.b_LimitMicroUSD pb = 50000000 ∧ Policy.b_HardCap pb = true)) ∨ Policy.r_Name r = "day").
  { assert (Hall : match Policy.FromV1Alpha1 Central.Demo.range Central.Demo.doc with
                   | Ok p => Forall (λ r, match Policy.r_Budget r with
                       | Some pb => (Policy.r_Name r = "month" ∧ Policy.b_LimitMicroUSD pb = 50000000 ∧ Policy.b_HardCap pb = true) ∨ Policy.r_Name r = "day"
                       | None => True end) (Policy.p_Rules p)
                   | Err _ => True end).
    { vm_compute. repeat constructor; try (by left); by right. }
    rewrite Hp in Hall. rewrite Forall_forall in Hall. specialize (Hall _ Hr). by rewrite Hpb in Hall. }
  assert (Hname : Policy.p_Name p = "acme").
  { assert (Hall : match Policy.FromV1Alpha1 Central.Demo.range Central.Demo.doc with Ok p => Policy.p_Name p = "acme" | Err _ => True end)
      by (vm_compute; done). by rewrite Hp in Hall. }
  unfold authority_budget in Hb. destruct (window_of _ _). destruct (_ <? 1); [discriminate Hb|].
  apply (f_equal (λ r, match r with Ok b => Some b | Err _ => None end)) in Hb. injection Hb as <-. clear Hp Hd Hr Hpb.
  destruct Hrule as [[_ Hl]|Hday]; [exact Hl|]. apply (f_equal fst) in Hk. simpl in Hk. rewrite Hname, Hday in Hk. vm_compute in Hk. done.
Qed.

Lemma hard_limit_holds : hard_limit (budget_key hard) 50000000.
Proof.
  intros now bs b L Hbs Hb HL. destruct (decide _) as [Hk|]; [injection HL as <-|done]. by apply (demo_hard_budget now bs b Hbs Hb Hk).
Qed.

Definition row_key : requestKey := ("dp", "node", Central.Demo.capability).

Lemma db1_row : match GrantRows db1 !! row_key with Some g => 0 < gs_amount g | None => False end.
Proof. by vm_compute. Qed.

Lemma accounts_balance_witness :
  ledger_ok nobody Central.Demo.db0 ∧ demo_history any_docs Central.Demo.db0 db2 ∧ ledger_ok nobody db2.
Proof.
  assert (Hh : demo_history any_docs Central.Demo.db0 db2) by (transitivity db1; [apply db1_reached|apply db2_reached]).
  split; [exact empty_ok|]. split; [exact Hh|].
  exact (accounts_balance _ _ _ _ demo_range_perm nobody any_docs _ _ empty_ok Hh).
Defined.

Lemma lease_within_limit_witness :
  ∃ g, GrantRows db1 !! row_key = Some g ∧ 0 < gs_amount g
    ∧ ∃ budgets b a, AuthorityBudgets Central.Demo.range Central.Demo.joined Central.Demo.revise (Policies Central.Demo.db0) Central.Demo.now = Ok budgets
        ∧ b ∈ budgets ∧ b_HardCap b = true ∧ Escrow.b_Revision b = gs_revision g ∧ budget_key b = (gs_key g, gs_window g)
        ∧ Accounts db1 !! budget_key b = Some a ∧ frozen a = false ∧ hardEncumbered a + softConsumed a <= Escrow.b_LimitMicroUSD b.
Proof.
  pose proof db1_row as Hrow. destruct (GrantRows db1 !! row_key) as [g|] eqn:E; [|destruct Hrow].
  exists g. split; [reflexivity|]. split; [exact Hrow|].
  refine (lease_within_limit Central.Demo.range Central.Demo.joined Central.Demo.revise (λ s, s) demo_range_perm nobody Central.Demo.ids
    Central.Demo.everyone Central.Demo.now Central.Demo.now Committed "dp" asking Central.Demo.db0 row_key g
    empty_ok asking_typed E Hrow _).
  intros g0. discriminate.
Defined.

Lemma db1_account : match Accounts db1 !! budget_key hard with Some a => frozen a = false ∧ acceptsMeters a = false | None => False end.
Proof. by vm_compute. Qed.

Lemma limit_holds_witness :
  ∃ a, Accounts db1 !! budget_key hard = Some a ∧ frozen a = false ∧ acceptsMeters a = false
    ∧ spent_on (budget_key hard) db1 <= held_on (budget_key hard) db1 <= hardEncumbered a ∧ hardEncumbered a + softConsumed a <= 50000000.
Proof.
  pose proof db1_account as Ha. destruct (Accounts db1 !! budget_key hard) as [a|] eqn:E; [|destruct Ha]. destruct Ha as [Hf Hm].
  exists a. split; [reflexivity|]. split; [exact Hf|]. split; [exact Hm|].
  refine (limit_holds Central.Demo.range Central.Demo.joined Central.Demo.revise (λ s, s) demo_range_perm [Central.Demo.doc] the_docs
    (budget_key hard) 50000000 db1 a hard_limit_holds _ (db1_reached the_docs) E Hf Hm).
  intros docs ->. exact hard_limit_holds.
Defined.

Lemma ledger_never_goes_back_witness : ledger_ok nobody db1 ∧ evolves db1 db2 ∧ ∃ g, GrantRows db1 !! row_key = Some g.
Proof.
  split; [exact db1_ok|]. split.
  - exact (ledger_never_goes_back _ _ _ _ demo_range_perm nobody any_docs _ _ db1_ok (db2_reached any_docs)).
  - pose proof db1_row as Hrow. destruct (GrantRows db1 !! row_key) as [g|]; [|destruct Hrow]. exists g. reflexivity.
Defined.

(** The node's second request is answered with the grant of the first. *)
Lemma replayed :
  match Central.Demo.sync asking Central.Demo.db0, Central.Demo.sync reporting db1 with
  | (Ok r1, _), (Ok r2, _) =>
      match sy_Results r1, sy_Results r2 with [Granted w], [Granted w'] => w = w' | _, _ => False end
  | _, _ => False
  end.
Proof. by vm_compute. Qed.

Lemma capability_buys_once_witness :
  ∃ resp resp' w res, Central.Demo.sync asking Central.Demo.db0 = (Ok resp, db1) ∧ Central.Demo.sync reporting db1 = (Ok resp', db2)
    ∧ sy_Results resp !! 0%nat = Some (Granted w) ∧ sy_Results resp' !! 0%nat = Some res
    ∧ (res = Granted w ∨ res = Refused (mkDenial Central.Demo.capability (Escrow.b_Key hard) "closed_grant")).
Proof.
  pose proof replayed as Hr. pose proof (eq_refl db1 : (Central.Demo.sync asking Central.Demo.db0).2 = db1) as D1.
  pose proof (eq_refl db2 : (Central.Demo.sync reporting db1).2 = db2) as D2.
  destruct (Central.Demo.sync asking Central.Demo.db0) as [[resp|] d1] eqn:E1; [|destruct Hr].
  destruct (Central.Demo.sync reporting db1) as [[resp'|] d2] eqn:E2; [|destruct Hr]. cbn [snd] in D1, D2. rewrite D1 in E1. rewrite D2 in E2.
  destruct (sy_Results resp) as [|[w|?] [|? ?]] eqn:R1; try exact (False_ind _ Hr).
  destruct (sy_Results resp') as [|[w'|?] [|? ?]] eqn:R2; try exact (False_ind _ Hr).
  exists resp, resp', w, (Granted w'). split; [rewrite D1; reflexivity|]. split; [rewrite D2; reflexivity|].
  rewrite R1, R2. split; [reflexivity|]. split; [reflexivity|].
  refine (capability_buys_once Central.Demo.range Central.Demo.joined Central.Demo.revise (λ s, s) demo_range_perm nobody any_docs
    Central.Demo.ids Central.Demo.everyone Central.Demo.now Central.Demo.now "dp" asking resp Central.Demo.db0 db1 db1
    Central.Demo.ids Central.Demo.everyone Central.Demo.now Central.Demo.now reporting resp' db2 0 0 ask ask w (Granted w')
    empty_ok asking_typed reporting_typed E1 (rtc_refl _ _) E2 eq_refl eq_refl eq_refl _ eq_refl _).
  - rewrite R1. reflexivity.
  - rewrite R2. reflexivity.
Defined.

Lemma AuthorityBudgets_spec_witness :
  AuthorityBudgets Central.Demo.range Central.Demo.joined Central.Demo.revise [Central.Demo.doc] Central.Demo.now = Ok [soft; hard]
  ∧ Sorted budget_le [soft; hard] ∧ in_window Central.Demo.now hard = true.
Proof.
  assert (E : AuthorityBudgets Central.Demo.range Central.Demo.joined Central.Demo.revise [Central.Demo.doc] Central.Demo.now = Ok [soft; hard])
    by (vm_compute; reflexivity).
  destruct (AuthorityBudgets_spec _ _ _ demo_range_perm _ _ _ E) as (Hs & _ & Hall). split; [exact E|]. split; [exact Hs|].
  apply (Hall hard). right. left.
Defined.
End Demo.
