(* ===== verification/Shared.v ===== *)
(** * Shared admission (internal/authority/pgstore/shared*.go, governance/shared.go)

    The other profile of the control plane's database: one transaction checks
    and books every limit that applies to an attempt (rates, token quotas and
    money of the team, the key and the policies) and one more settles it.
    Policy money is booked in the accounts that [Sync] leases from, under the
    same locks.

    As in [Central] a transaction is one atomic step over the tables; readings
    of the clock, the key store's answer, the identity gate, the random permit
    and the outcome of the commit are its inputs.  [shared_bookings] rows are
    kept with the permit they reference, in the order of their insertion, and
    [shared_rate_segments] rows with their counter, in the order of their
    identity; NUMERIC(60) columns are unbounded. *)

From S2P Require Import Prelude GoTime V1Alpha1 Policy Tier Denial Governor Escrow Central.

(** ** Wire types (governance/shared.go, keystore.go) *)

Record SharedRequest := mkSharedRequest
  { rq_IdentityFingerprint : string; rq_Subject : Governor.Subject; rq_AuthRevision : string; rq_PolicyGeneration : string;
    rq_RequestedModel : string; rq_Model : string; rq_TokenBound : Z; rq_CostBoundMicroUSD : Z }.

Record SharedPermit := mkSharedPermit { sp_ID : string; sp_TokenBound : Z; sp_CostBoundMicroUSD : Z }.

Record SharedSettlement := mkSettlement
  { ss_Tokens : option Z; ss_CostMicroUSD : option Z; ss_Complete : bool; ss_InvalidUsage : bool }.

Record SharedLimit := mkSharedLimit
  { sl_Scope : string; sl_Kind : string; sl_Policy : string; sl_Rule : string; sl_Window : string; sl_Limit : Z; sl_Used : Z;
    sl_Reserved : Z; sl_Remaining : Z; sl_ResetsAt : Time; sl_Hard : bool }.

Record TeamRecord := mkTeamRecord
  { t_Name : string; t_RPM : Z; t_TPM : Z; t_TokensPerDay : Z; t_QuotaOnExceeded : string; t_BudgetUSDMicros : Z;
    t_BudgetUSDMicrosPerDay : Z; t_BudgetOnExceeded : string }.

Record Principal := mkPrincipal
  { pr_KeyID : string; pr_Team : string; pr_BudgetUSDMicros : Z; pr_BudgetUSDMicrosPerDay : Z; pr_TPM : Z; pr_RPM : Z;
    pr_ExpiresAt : option Time; pr_Owner : string; pr_HasIdentity : bool; pr_SharedRevision : string;
    pr_TeamSnapshot : option TeamRecord; pr_TeamSnapshotLoaded : bool; pr_IdentityFingerprint : string; pr_IdentityRequired : bool }.

Definition AccountSubject (p : Principal) : string := pr_Owner p.

Definition shared_denial (status : Z) (reason : string) (retry : Z) (gov : option GovernanceRef) : AdmissionError :=
  ErrSharedDenial {| sd_Status := status; sd_Reason := reason; sd_RetryAfter := retry; sd_Governance := gov |}.
Definition sharedChanged : AdmissionError := shared_denial 503 "shared authentication snapshot changed" 1 None.

(** ** Definitions (shared_constraints.go) *)

Definition sharedRateScale : Z := 60000000.

Record sharedDefinition := mkDefinition
  { d_id : accountKey; d_scope : string; d_kind : string; d_policy : string; d_rule : string; d_window : string; d_moneyKey : string;
    d_limit : Z; d_generation : Z; d_hard : bool; d_start : Time; d_end : Time }.

Definition limitName (d : sharedDefinition) : string :=
  let day := bool_decide (d_window d = v1alpha1.PeriodCalendarDay) in
  if bool_decide (d_kind d = "rpm") then GovLimitRPM
  else if bool_decide (d_kind d = "tpm") then GovLimitTPM
  else if bool_decide (d_kind d = "tokens") then if day then GovLimitTokensPerDay else GovLimitTokensPerMonth
  else if day then GovLimitBudgetDay else GovLimitBudgetMonth.

Definition definition_denial (d : sharedDefinition) : GovernanceRef :=
  let '(scope, source) :=
    if bool_decide (d_scope d = "key") then (GovScopeKey, GovSourceKey)
    else if bool_decide (d_scope d ∈ ["user"; "team-user"]) then (GovScopeUser, GovSourceTeamRecord)
    else (GovScopeTeam, GovSourceTeamRecord) in
  if bool_decide (d_policy d = "")
  then {| gr_Scope := scope; gr_Limit := limitName d; gr_Source := source; gr_Policy := None |}
  else {| gr_Scope := scope; gr_Limit := limitName d; gr_Source := GovSourcePolicy;
          gr_Policy := Some {| rr_Name := d_policy d; rr_Generation := d_generation d; rr_Rule := d_rule d |} |}.

Definition is_rate (kind : string) : bool := bool_decide (kind ∈ ["rpm"; "tpm"]).
Definition rate (d : sharedDefinition) : Z := if is_rate (d_kind d) then d_limit d else 0.

Definition bound (d : sharedDefinition) (r : SharedRequest) : Z :=
  if bool_decide (d_kind d = "rpm") then 1
  else if bool_decide (d_kind d = "microUSD") then rq_CostBoundMicroUSD r
  else rq_TokenBound r.

Definition sharedScope (team user : string) : string :=
  if (negb (bool_decide (team = "")) && negb (bool_decide (user = "")))%bool then "team-user"
  else if negb (bool_decide (user = "")) then "user"
  else "team".

Definition sharedMatch (team user : string) (p : Principal) : bool :=
  ((bool_decide (team = "") || bool_decide (team = pr_Team p))
   && (bool_decide (user = "") || bool_decide (user = AccountSubject p)))%bool.

Definition definition_le (a b : sharedDefinition) : Prop := account_le (d_id a) (d_id b).
#[export] Instance definition_le_dec a b : Decision (definition_le a b) := account_le_dec (d_id a) (d_id b).

Definition on_exceeded_ok (s : string) : bool := bool_decide (s ∈ [""; "block"; "warn"]).

Section definitions.
Context (range : gmap string string → list (string * string)).
Context (authorityHash : list string → string) (revise : Policy.Budget → string → string).
Context (GenerationOf : list v1alpha1.GovernancePolicy → string).

(** [add], a closure over the growing list. *)
Definition add_definition (now : Time) (scope identity kind pol rule : string) (limit : Z) (hard : bool) (period : string)
    : list sharedDefinition :=
  if limit =? 0 then []
  else
    let key := authorityHash [scope; identity; kind; pol; rule; period] in
    if bool_decide (period = "") then [mkDefinition (key, "bucket") scope kind pol rule "minute" "" limit 0 hard zeroTime zeroTime]
    else
      let '(start, stop) := window_of now period in
      [mkDefinition (key, rfc3339_midnight start) scope kind pol rule period "" limit 0 hard start stop].

(** The limits of the team's record and of the key. *)
Definition account_definitions (now : Time) (p : Principal) (t : TeamRecord) : list sharedDefinition :=
  let quota_hard := negb (bool_decide (t_QuotaOnExceeded t = "warn")) in
  let budget_hard := negb (bool_decide (t_BudgetOnExceeded t = "warn")) in
  add_definition now "team" (pr_Team p) "rpm" "" "" (t_RPM t) true ""
  ++ add_definition now "team" (pr_Team p) "tpm" "" "" (t_TPM t) true ""
  ++ add_definition now "team" (pr_Team p) "tokens" "" "" (t_TokensPerDay t) quota_hard v1alpha1.PeriodCalendarDay
  ++ add_definition now "team" (pr_Team p) "microUSD" "" "" (t_BudgetUSDMicros t) budget_hard v1alpha1.PeriodCalendarMonth
  ++ add_definition now "team" (pr_Team p) "microUSD" "" "" (t_BudgetUSDMicrosPerDay t) budget_hard v1alpha1.PeriodCalendarDay
  ++ add_definition now "key" (pr_KeyID p) "rpm" "" "" (pr_RPM p) true ""
  ++ add_definition now "key" (pr_KeyID p) "tpm" "" "" (pr_TPM p) true ""
  ++ add_definition now "key" (pr_KeyID p) "microUSD" "" "" (pr_BudgetUSDMicros p) true v1alpha1.PeriodCalendarMonth
  ++ add_definition now "key" (pr_KeyID p) "microUSD" "" "" (pr_BudgetUSDMicrosPerDay p) true v1alpha1.PeriodCalendarDay.

(** The rates and quotas of a policy's rules. *)
Definition rule_definitions (now : Time) (p : Policy.Policy) (r : Policy.Rule) : list sharedDefinition :=
  let sub := Policy.p_Subject p in
  let scope := sharedScope (Policy.Team sub) (Policy.User sub) in
  let identity := authorityHash [Policy.Team sub; Policy.User sub] in
  match Policy.r_Rate r with
  | Some rt =>
      if Policy.rate_Unlimited rt then []
      else add_definition now scope identity "rpm" (Policy.p_Name p) (Policy.r_Name r) (Policy.RPM rt) true ""
           ++ add_definition now scope identity "tpm" (Policy.p_Name p) (Policy.r_Name r) (Policy.TPM rt) true ""
  | None => []
  end
  ++ match Policy.r_TokenQuota r with
     | Some q => add_definition now scope identity "tokens" (Policy.p_Name p) (Policy.r_Name r) (Policy.q_LimitTokens q) true (Policy.q_Period q)
     | None => []
     end.

(** The policies' definitions and their generations. *)
Fixpoint policy_definitions (now : Time) (pr : Principal) (docs : list v1alpha1.GovernancePolicy)
    : result AdmissionError (list sharedDefinition * gmap string Z) :=
  match docs with
  | [] => Ok ([], ∅)
  | doc :: docs =>
      match Policy.FromV1Alpha1 range doc with
      | Err _ => Err ErrSharedUnavailable
      | Ok p =>
          rest ← policy_definitions now pr docs;
          let sub := Policy.p_Subject p in
          let here := if sharedMatch (Policy.Team sub) (Policy.User sub) pr
                      then flat_map (rule_definitions now p) (Policy.p_Rules p) else [] in
          Ok (here ++ rest.1, match rest.2 !! Policy.p_Name p with
                              | Some _ => rest.2 | None => <[Policy.p_Name p := Policy.p_Generation p]> rest.2 end)
      end
  end.

Definition money_definition (b : AuthorityBudget) : sharedDefinition :=
  let period := if Sub (instant (b_WindowEnd b)) (instant (b_WindowStart b)) =? 24 * Hour
                then v1alpha1.PeriodCalendarDay else v1alpha1.PeriodCalendarMonth in
  mkDefinition ("money:" +:+ Escrow.b_Key b, b_WindowID b) (sharedScope (b_Team b) (b_User b)) "microUSD" (Escrow.b_Policy b)
    (Escrow.b_Rule b) period (Escrow.b_Key b) (Escrow.b_LimitMicroUSD b) 0 (b_HardCap b) (instant (b_WindowStart b)) (instant (b_WindowEnd b)).

Definition with_generation (generations : gmap string Z) (d : sharedDefinition) : sharedDefinition :=
  mkDefinition (d_id d) (d_scope d) (d_kind d) (d_policy d) (d_rule d) (d_window d) (d_moneyKey d) (d_limit d)
    (default 0 (generations !! d_policy d)) (d_hard d) (d_start d) (d_end d).

Definition sharedDefinitions (docs : list v1alpha1.GovernancePolicy) (p : Principal) (now : Time) (req : option SharedRequest)
    : result AdmissionError (list sharedDefinition * list AuthorityBudget) :=
  if match req with
     | Some r => (bool_decide (rq_PolicyGeneration r = "") || negb (bool_decide (rq_PolicyGeneration r = GenerationOf docs)))%bool
     | None => false
     end
  then Err (shared_denial 503 "shared policy snapshot changed" 1 None)
  else match AuthorityBudgets range authorityHash revise docs now with
  | Err _ => Err ErrSharedUnavailable
  | Ok allBudgets =>
      match pr_TeamSnapshot p with
      | None => Err sharedChanged
      | Some t =>
          if existsb (λ n, n <? 0) [t_RPM t; t_TPM t; t_TokensPerDay t; t_BudgetUSDMicros t; t_BudgetUSDMicrosPerDay t;
                                    pr_RPM p; pr_TPM p; pr_BudgetUSDMicros p; pr_BudgetUSDMicrosPerDay p]
          then Err ErrSharedUnavailable
          else if (negb (on_exceeded_ok (t_QuotaOnExceeded t)) || negb (on_exceeded_ok (t_BudgetOnExceeded t)))%bool
          then Err ErrSharedUnavailable
          else
            pd ← policy_definitions now p docs;
            let budgets := List.filter (λ b, sharedMatch (b_Team b) (b_User b) p) allBudgets in
            let defs := account_definitions now p t ++ pd.1 ++ map money_definition budgets in
            Ok (merge_sort definition_le (map (with_generation pd.2) defs), budgets)
      end
  end.
End definitions.

(** ** The tables *)

Record sharedCounter := mkCounter
  { sc_used : Z; sc_reserved : Z; sc_rate : Z; sc_debt : Z; sc_refilled : Z; sc_updated : Time; sc_frozen : bool }.

Record sharedBooking := mkBooking { bk_id : accountKey; bk_kind : string; bk_moneyKey : string; bk_amount : Z; bk_hard : bool }.

Record permitRow := mkPermitRow
  { pm_token_bound : Z; pm_cost_bound : Z; pm_booking_count : Z; pm_terminal : string; pm_fingerprint : string; pm_invalid : bool;
    pm_bookings : list sharedBooking }.

(** One live piece of a booking's rate debt. *)
Record segment := mkSegment { sg_permit : string; sg_remaining : Z; sg_uncertain : bool }.

Record World := mkWorld
  { w_db : DB; w_counters : gmap accountKey sharedCounter; w_permits : gmap string permitRow; w_segments : gmap accountKey (list segment) }.

Definition with_db f w := mkWorld (f (w_db w)) (w_counters w) (w_permits w) (w_segments w).
Definition with_counters f w := mkWorld (w_db w) (f (w_counters w)) (w_permits w) (w_segments w).
Definition with_permits f w := mkWorld (w_db w) (w_counters w) (f (w_permits w)) (w_segments w).
Definition with_segments f w := mkWorld (w_db w) (w_counters w) (w_permits w) (f (w_segments w)).

(** A transaction under way: the tables, the accounts and the counters it has
    locked. *)
Record STX := mkSTX { x_world : World; x_accounts : gmap accountKey account; x_counters : gmap accountKey sharedCounter }.

Definition stx_get : STE STX AdmissionError STX := λ t, (Ok t, t).
Definition stx_lift {A} (r : result AdmissionError A) : STE STX AdmissionError A := λ t, (r, t).
Definition stx_world (f : World → World) : STE STX AdmissionError unit := λ t, (Ok tt, mkSTX (f (x_world t)) (x_accounts t) (x_counters t)).
Definition refuse {A} (b : bool) (e : AdmissionError) (k : STE STX AdmissionError A) : STE STX AdmissionError A :=
  if b then early e else k.

(** [sharedError]: nothing of an inner failure shows. *)
Definition sharedError {A} (r : result CentralError A) : STE STX AdmissionError A :=
  stx_lift (match r with Ok a => Ok a | Err _ => Err ErrSharedUnavailable end).

(** The operations on accounts that [Sync] uses too. *)
Definition on_accounts {A} (m : STE CTX CentralError A) : STE STX AdmissionError A := λ t,
  let '(r, c) := m (mkCTX (w_db (x_world t)) (x_accounts t) 0) in
  (match r with Ok a => Ok a | Err _ => Err ErrSharedUnavailable end,
   mkSTX (with_db (λ _, c_db c) (x_world t)) (c_accounts c) (x_counters t)).

Definition stx_account (k : accountKey) : STE STX AdmissionError account := on_accounts (get_account k).
Definition stx_put_account (k : accountKey) (a : account) : STE STX AdmissionError unit := on_accounts (put_account k a).

Definition stx_counter (k : accountKey) : STE STX AdmissionError sharedCounter :=
  λ t, (from_option Ok (Err ErrSharedUnavailable) (x_counters t !! k), t).
Definition stx_put_counter (k : accountKey) (c : sharedCounter) : STE STX AdmissionError unit :=
  λ t, (Ok tt, mkSTX (x_world t) (x_accounts t) (<[k := c]> (x_counters t))).

Fixpoint stx_each {A} (l : list A) (f : A → STE STX AdmissionError unit) : STE STX AdmissionError unit :=
  match l with [] => mret tt | x :: l => _ ← f x; stx_each l f end.

(** ** Counters (shared_constraints.go) *)

(** The row's CHECK constraint on the rate comes before the conflict. *)
Definition lock_counter (create : bool) (now : Time) (d : sharedDefinition) : STE STX AdmissionError unit :=
  _ ← (if create
       then refuse (rate d <? 0) ErrSharedUnavailable
              (stx_world (with_counters (λ m, match m !! d_id d with
                 | Some _ => m | None => <[d_id d := mkCounter 0 0 (rate d) 0 0 now false]> m end)))
       else mret tt);
  t ← stx_get;
  match w_counters (x_world t) !! d_id d with
  | None => early ErrSharedUnavailable
  | Some c => stx_put_counter (d_id d) c
  end.

(** The definitions to lock, the last of each identity, in order. *)
Definition wanted_counters (defs : list sharedDefinition) : gmap accountKey sharedDefinition :=
  foldl (λ m d, <[d_id d := d]> m) ∅ defs.

Definition lockSharedCounters (defs : list sharedDefinition) (now : Time) (create : bool) : STE STX AdmissionError unit :=
  let wanted := wanted_counters defs in
  stx_each (omap (λ k, wanted !! k) (orderedKeys wanted)) (lock_counter create now).

(** The row's CHECK constraints. *)
Definition counter_checks (c : sharedCounter) : bool :=
  ((0 <=? sc_used c) && (0 <=? sc_reserved c) && (sc_reserved c <=? sc_used c) && (0 <=? sc_debt c) && (0 <=? sc_refilled c)
   && (0 <=? sc_rate c))%bool.

Definition persist_counter (k : accountKey) : STE STX AdmissionError unit :=
  c ← stx_counter k;
  refuse (negb (counter_checks c)) ErrSharedUnavailable (stx_world (with_counters (alter (λ _, c) k))).

Definition persistSharedCounters : STE STX AdmissionError unit :=
  t ← stx_get; stx_each (orderedKeys (x_counters t)) persist_counter.

Definition micros (t : Time) : Z := t / 1000.

(** [refill]: debt falls with the time elapsed at the slower of the two rates. *)
Definition refill (c : sharedCounter) (now : Time) (r : Z) : result AdmissionError sharedCounter :=
  if Before now (sc_updated c) then Err ErrSharedUnavailable
  else
    let delta := if 0 <? sc_rate c
                 then Z.min ((micros now - micros (sc_updated c)) * Z.min (sc_rate c) r) (sc_debt c)
                 else 0 in
    Ok (mkCounter (sc_used c) (sc_reserved c) r (sc_debt c - delta) (sc_refilled c + delta) now (sc_frozen c)).

Definition sharedScaled (amount : Z) : Z := amount * sharedRateScale.

Definition sharedCeil (value : Z) : result AdmissionError Z :=
  let n := (value + (sharedRateScale - 1)) ÷ sharedRateScale in
  if ((n <? 0) || (MaxInt64 <? n))%bool then Err ErrSharedUnavailable else Ok n.

(** ** Rate segments (shared_rate.go) *)

Definition with_remaining (n : Z) (s : segment) : segment := mkSegment (sg_permit s) n (sg_uncertain s).

(** The statement's [changed]: oldest segments first, each by what [retired]
    exceeds those before it. *)
Fixpoint retire_segments (retired prior : Z) (l : list segment) : list segment :=
  match l with
  | [] => []
  | s :: l =>
      (if prior <? retired then with_remaining (Z.max 0 (sg_remaining s - Z.max 0 (retired - prior))) s else s)
      :: retire_segments retired (prior + sg_remaining s) l
  end.

Definition remaining_sum (l : list segment) : Z := sumZ (map sg_remaining l).

Definition live_segments (l : list segment) : list segment := List.filter (λ s, negb (sg_remaining s =? 0)) l.

Definition segments_of (k : accountKey) (w : World) : list segment := default [] (w_segments w !! k).

Definition put_segments (k : accountKey) (l : list segment) : STE STX AdmissionError unit :=
  stx_world (with_segments <[k := l]>).

Definition refillSharedRate (k : accountKey) (now : Time) (r : Z) : STE STX AdmissionError unit :=
  c ← stx_counter k;
  c' ← stx_lift (refill c now r);
  _ ← stx_put_counter k c';
  let retired := sc_debt c - sc_debt c' in
  if retired =? 0 then mret tt
  else
    t ← stx_get;
    let l := segments_of k (x_world t) in
    let l' := retire_segments retired 0 l in
    refuse (negb (remaining_sum l - remaining_sum l' =? retired)) ErrSharedUnavailable (put_segments k (live_segments l')).

(** A booking's segment, by its permit. *)
Definition segment_of (hash : string) (l : list segment) : option segment :=
  List.find (λ s, bool_decide (sg_permit s = hash)) l.

Definition update_segment (hash : string) (remaining : Z) (uncertain : bool) (l : list segment) : list segment :=
  map (λ s, if bool_decide (sg_permit s = hash) then mkSegment hash remaining uncertain else s) l.
Definition delete_segment (hash : string) (l : list segment) : list segment :=
  List.filter (λ s, negb (bool_decide (sg_permit s = hash))) l.

Definition with_debt (debt : Z) (c : sharedCounter) : sharedCounter :=
  mkCounter (sc_used c) (sc_reserved c) (sc_rate c) debt (sc_refilled c) (sc_updated c) (sc_frozen c).

Definition returnSharedRate (hash : string) (b : sharedBooking) (refund : Z) (known : bool) : STE STX AdmissionError unit :=
  c ← stx_counter (bk_id b);
  t ← stx_get;
  let l := segments_of (bk_id b) (x_world t) in
  match segment_of hash l with
  | None => mret tt
  | Some s =>
      refuse (sg_remaining s <? 0) ErrSharedUnavailable
        (let release := Z.min (sharedScaled refund) (sg_remaining s) in
         refuse (sc_debt c <? release) ErrSharedUnavailable
           (_ ← stx_put_counter (bk_id b) (with_debt (sc_debt c - release) c);
            let remaining := sg_remaining s - release in
            put_segments (bk_id b) (if remaining =? 0 then delete_segment hash l else update_segment hash remaining (negb known) l)))
  end.

Definition sharedRateReserved (k : accountKey) (w : World) : result AdmissionError Z :=
  sharedCeil (remaining_sum (List.filter sg_uncertain (segments_of k w))).

(** ** Capacity and bookings (shared_constraints.go) *)

Definition money_account (d : sharedDefinition) : accountKey := (d_moneyKey d, (d_id d).2).

Definition over_limit (d : sharedDefinition) (c : sharedCounter) (next amount : Z) : bool :=
  if 0 <? rate d then sharedScaled (d_limit d) <? sc_debt c + sharedScaled amount else d_limit d <? next.

Definition capacity_denial (d : sharedDefinition) : AdmissionError :=
  if bool_decide (d_kind d = "microUSD")
  then shared_denial 402 "shared monetary budget exhausted" 0 (Some (definition_denial d))
  else shared_denial 429 "shared rate or token quota exhausted" (if 0 <? rate d then 60 else 1) (Some (definition_denial d)).

Definition sharedCheckCapacity (d : sharedDefinition) (amount : Z) : STE STX AdmissionError unit :=
  c ← stx_counter (d_id d);
  used ← (if bool_decide (d_moneyKey d = "") then mret (sc_used c)
          else a ← stx_account (money_account d); sharedError (checkedAdd (hardEncumbered a) (softConsumed a)));
  next ← sharedError (checkedAdd used amount);
  _ ← sharedError (checkedAdd (sc_used c) amount);
  _ ← sharedError (checkedAdd (sc_reserved c) amount);
  if (d_hard d && over_limit d c next amount)%bool then early (capacity_denial d) else mret tt.

Definition sharedBook (d : sharedDefinition) (amount : Z) : STE STX AdmissionError unit :=
  c ← stx_counter (d_id d);
  used ← sharedError (checkedAdd (sc_used c) amount);
  reserved ← sharedError (checkedAdd (sc_reserved c) amount);
  _ ← stx_put_counter (d_id d)
        (mkCounter used reserved (sc_rate c) (if 0 <? rate d then sc_debt c + sharedScaled amount else sc_debt c)
           (sc_refilled c) (sc_updated c) (sc_frozen c));
  if bool_decide (d_moneyKey d = "") then mret tt
  else
    a ← stx_account (money_account d);
    if d_hard d then
      e ← sharedError (checkedAdd (hardEncumbered a) amount);
      stx_put_account (money_account d) (enc_account e a)
    else
      s ← sharedError (checkedAdd (softConsumed a) amount);
      n ← sharedError (checkedAdd (softPending a) amount);
      stx_put_account (money_account d) (mkAccount (hardEncumbered a) (hardConsumed a) s n (acceptsMeters a) (frozen a)).

(** ** [ReserveShared] (shared.go) *)

Definition sharedSubjectMatches (p : Principal) (sub : Governor.Subject) : bool :=
  (bool_decide (pr_Team p = Governor.s_Team sub) && bool_decide (pr_KeyID p = Governor.s_KeyID sub)
   && bool_decide (AccountSubject p = Governor.s_User sub))%bool.

(** [read] is what the key store answers in this transaction. *)
Definition sharedSnapshot (read : string → Time → option Principal) (now : Time) (sub : Governor.Subject)
    : result AdmissionError Principal :=
  if (negb (validText (Governor.s_KeyID sub)) || negb (validText (Governor.s_Team sub))
      || (negb (bool_decide (Governor.s_User sub = "")) && negb (validText (Governor.s_User sub))))%bool
  then Err sharedChanged
  else match read (Governor.s_KeyID sub) now with
  | None => Err ErrSharedUnavailable
  | Some p =>
      if (negb (sharedSubjectMatches p sub) || negb (pr_TeamSnapshotLoaded p)
          || match pr_TeamSnapshot p with None => true | Some t => negb (bool_decide (t_Name t = pr_Team p)) end
          || bool_decide (pr_SharedRevision p = ""))%bool
      then Err sharedChanged else Ok p
  end.

Definition sharedCheckClock (p : Principal) (defs : list sharedDefinition) (now : Time) : result AdmissionError unit :=
  if match pr_ExpiresAt p with Some t => negb (Before now t) | None => false end then Err sharedChanged
  else if existsb (λ d, (negb (IsZero (d_end d)) && (Before now (d_start d) || negb (Before now (d_end d))))%bool) defs
  then Err ErrSharedUnavailable else Ok tt.

Definition is_denial (e : AdmissionError) : bool := match e with ErrSharedDenial _ => true | _ => false end.

(** One definition's checks: frozen, or the denial it raises. *)
Definition check_definition (now : Time) (req : SharedRequest) (d : sharedDefinition) (denial : option AdmissionError)
    : STE STX AdmissionError (option AdmissionError) :=
  _ ← refillSharedRate (d_id d) now (rate d);
  c ← stx_counter (d_id d);
  iced ← (if sc_frozen c then mret true
          else if bool_decide (d_moneyKey d = "") then mret false
          else a ← stx_account (money_account d); mret (frozen a));
  refuse iced ErrSharedUnavailable
    (λ t, match sharedCheckCapacity d (bound d req) t with
          | (Ok _, t') => (Ok denial, t')
          | (Err e, t') => if is_denial e then (Ok (Some (default e denial)), t') else (Err e, t')
          end).

Fixpoint check_all (now : Time) (req : SharedRequest) (defs : list sharedDefinition) (denial : option AdmissionError)
    : STE STX AdmissionError (option AdmissionError) :=
  match defs with
  | [] => mret denial
  | d :: defs => x ← check_definition now req d denial; check_all now req defs x
  end.

Definition with_bookings (l : list sharedBooking) (r : permitRow) : permitRow :=
  mkPermitRow (pm_token_bound r) (pm_cost_bound r) (pm_booking_count r) (pm_terminal r) (pm_fingerprint r) (pm_invalid r) l.

Definition stx_permit (hash : string) : STE STX AdmissionError permitRow :=
  λ t, (from_option Ok (Err ErrSharedUnavailable) (w_permits (x_world t) !! hash), t).
Definition put_permit (hash : string) (r : permitRow) : STE STX AdmissionError unit := stx_world (with_permits <[hash := r]>).

(** Book a definition, insert its booking and, for a rate, its segment. *)
Definition book_definition (hash : string) (req : SharedRequest) (d : sharedDefinition) : STE STX AdmissionError unit :=
  let amount := bound d req in
  _ ← sharedBook d amount;
  r ← stx_permit hash;
  refuse (bool_decide (d_id d ∈ map bk_id (pm_bookings r))) ErrSharedUnavailable
    (_ ← put_permit hash (with_bookings (pm_bookings r ++ [mkBooking (d_id d) (d_kind d) (d_moneyKey d) amount (d_hard d)]) r);
     if ((0 <? rate d) && (0 <? amount))%bool then
       t ← stx_get;
       put_segments (d_id d) (segments_of (d_id d) (x_world t) ++ [mkSegment hash (sharedScaled amount) true])
     else mret tt).

Section shared.
Context (range : gmap string string → list (string * string)).
Context (authorityHash : list string → string) (revise : Policy.Budget → string → string).
Context (GenerationOf : list v1alpha1.GovernancePolicy → string).
Context (capabilityHash : string → string) (settlementHash : string → SharedSettlement → string).

Definition no_request : AuthorityRequest := mkRequest "" "" [] [] [].

(** Everything before the bookings: the definitions, and the denial if any. *)
Definition admit_shared (identity : option (list v1alpha1.GovernancePolicy → bool)) (identity_set : bool)
    (read : string → Time → option Principal) (now1 now2 : Time) (req : SharedRequest)
    : STE STX AdmissionError (list sharedDefinition) :=
  match identity with
  | None => early ErrSharedUnavailable
  | Some subjects =>
      p ← stx_lift (sharedSnapshot read now1 (rq_Subject req));
      refuse (negb (bool_decide (pr_SharedRevision p = rq_AuthRevision req))) sharedChanged
        (refuse (pr_IdentityRequired p && (negb (pr_HasIdentity p) || negb (bool_decide (pr_IdentityFingerprint p = rq_IdentityFingerprint req))))%bool
           sharedChanged
           (t ← stx_get;
            let docs := Policies (w_db (x_world t)) in
            refuse (identity_set && negb (subjects docs))%bool ErrSharedUnavailable
              (db ← stx_lift (sharedDefinitions range authorityHash revise GenerationOf docs p now1 (Some req));
               _ ← on_accounts (lockAccounts capabilityHash "" no_request db.2);
               _ ← lockSharedCounters db.1 now1 true;
               _ ← stx_lift (sharedCheckClock p db.1 now2);
               denial ← check_all now2 req db.1 None;
               match denial with Some e => early e | None => mret db.1 end)))
  end.

Definition reserve_shared_body (identity : option (list v1alpha1.GovernancePolicy → bool)) (identity_set : bool)
    (read : string → Time → option Principal) (now1 now2 : Time) (permitID : option string) (req : SharedRequest)
    : STE STX AdmissionError SharedPermit :=
  defs ← admit_shared identity identity_set read now1 now2 req;
  match permitID with
  | None => early ErrSharedUnavailable
  | Some id =>
      let hash := capabilityHash id in
      t ← stx_get;
      refuse (is_Some_b (w_permits (x_world t) !! hash)) ErrSharedUnavailable
        (_ ← put_permit hash (mkPermitRow (rq_TokenBound req) (rq_CostBoundMicroUSD req) (Z.of_nat (length defs)) "" "" false []);
         _ ← stx_each defs (book_definition hash req);
         _ ← on_accounts persistAccounts;
         _ ← persistSharedCounters;
         mret (mkSharedPermit id (rq_TokenBound req) (rq_CostBoundMicroUSD req)))
  end.

Definition ReserveShared (identity : option (list v1alpha1.GovernancePolicy → bool)) (identity_set : bool)
    (read : string → Time → option Principal) (now1 now2 : Time) (permitID : option string) (o : Commit) (req : SharedRequest) (w : World)
    : result AdmissionError SharedPermit * World :=
  if ((rq_TokenBound req <? 0) || (rq_CostBoundMicroUSD req <? 0) || negb (validText (rq_AuthRevision req))
      || negb (validText (rq_Model req)) || negb (validText (rq_RequestedModel req)))%bool
  then (Err ErrSharedUnavailable, w)
  else match reserve_shared_body identity identity_set read now1 now2 permitID req (mkSTX w ∅ ∅) with
       | (Err e, _) => (Err e, w)
       | (Ok permit, t) =>
           match o with
           | Committed => (Ok permit, x_world t)
           | CommitFails landed => (Err ErrSharedUnavailable, if landed then x_world t else w)
           end
       end.

(** ** [FinishShared], [CancelShared] (shared_finish.go) *)

Definition sharedInvalidObservation (observation : option Z) (b : Z) : bool :=
  match observation with Some n => ((n <? 0) || (b <? n))%bool | None => false end.

Definition sharedRetained (b : sharedBooking) (terminal : string) (u : SharedSettlement) : Z * bool :=
  if bool_decide (terminal = "cancel") then (0, true)
  else if bool_decide (bk_kind b = "rpm") then (bk_amount b, true)
  else if negb (ss_Complete u) then (bk_amount b, false)
  else match (if bool_decide (bk_kind b = "microUSD") then ss_CostMicroUSD u else ss_Tokens u) with
       | None => (bk_amount b, false)
       | Some n => (n, true)
       end.

Definition booking_account (b : sharedBooking) : accountKey := (bk_moneyKey b, (bk_id b).2).

(** The money of a booking, once settled. *)
Definition settle_money (b : sharedBooking) (retained refund : Z) : STE STX AdmissionError unit :=
  a ← stx_account (booking_account b);
  if bk_hard b then
    refuse (hardEncumbered a <? refund) ErrSharedUnavailable
      (c ← sharedError (checkedAdd (hardConsumed a) retained);
       stx_put_account (booking_account b)
         (mkAccount (hardEncumbered a - refund) c (softConsumed a) (softPending a) (acceptsMeters a) (frozen a)))
  else
    refuse (softConsumed a <? refund) ErrSharedUnavailable
      (stx_put_account (booking_account b)
         (mkAccount (hardEncumbered a) (hardConsumed a) (softConsumed a - refund) (softPending a) (acceptsMeters a) (frozen a))).

Definition with_usage (used reserved : Z) (c : sharedCounter) : sharedCounter :=
  mkCounter used reserved (sc_rate c) (sc_debt c) (sc_refilled c) (sc_updated c) (sc_frozen c).

Definition settleSharedBooking (hash : string) (b : sharedBooking) (retained : Z) (known : bool) : STE STX AdmissionError unit :=
  c ← stx_counter (bk_id b);
  refuse ((retained <? 0) || (bk_amount b <? retained) || (sc_reserved c <? bk_amount b) || (sc_used c <? bk_amount b))%bool
    ErrSharedUnavailable
    (let refund := bk_amount b - retained in
     _ ← (if is_rate (bk_kind b) then
            _ ← returnSharedRate hash b refund known;
            c ← stx_counter (bk_id b);
            stx_put_counter (bk_id b) (with_usage (sc_used c - bk_amount b) (sc_reserved c - bk_amount b) c)
          else
            stx_put_counter (bk_id b) (with_usage (sc_used c - refund) (if known then sc_reserved c - bk_amount b else sc_reserved c) c));
     if bool_decide (bk_moneyKey b = "") then mret tt else settle_money b retained refund).

Definition freeze_counter (c : sharedCounter) : sharedCounter :=
  mkCounter (sc_used c) (sc_reserved c) (sc_rate c) (sc_debt c) (sc_refilled c) (sc_updated c) true.

Definition without_pending (amount : Z) (a : account) : account :=
  mkAccount (hardEncumbered a) (hardConsumed a) (softConsumed a) (softPending a - amount) (acceptsMeters a) (frozen a).
Definition freeze_account (a : account) : account :=
  mkAccount (hardEncumbered a) (hardConsumed a) (softConsumed a) (softPending a) (acceptsMeters a) true.

(** A soft booking of money is no longer pending. *)
Definition clear_pending (b : sharedBooking) : STE STX AdmissionError unit :=
  if (negb (bool_decide (bk_moneyKey b = "")) && negb (bk_hard b))%bool then
    a ← stx_account (booking_account b);
    refuse (softPending a <? bk_amount b) ErrSharedUnavailable
      (stx_put_account (booking_account b) (without_pending (bk_amount b) a))
  else mret tt.

(** An invalid outcome freezes what the booking touched, and refunds nothing. *)
Definition freeze_booking (b : sharedBooking) : STE STX AdmissionError unit :=
  c ← stx_counter (bk_id b);
  _ ← stx_put_counter (bk_id b) (freeze_counter c);
  if bool_decide (bk_moneyKey b = "") then mret tt
  else a ← stx_account (booking_account b); stx_put_account (booking_account b) (freeze_account a).

(** One booking of the loop of [sharedTerminal]. *)
Definition settle_one (hash terminal : string) (invalid : bool) (usage : SharedSettlement) (b : sharedBooking) : STE STX AdmissionError unit :=
  _ ← clear_pending b;
  if invalid then freeze_booking b
  else let '(retained, known) := sharedRetained b terminal usage in settleSharedBooking hash b retained known.

(** The accounts and counters of a permit's bookings. *)
Definition booking_refs (bs : list sharedBooking) : AuthorityRequest :=
  mkRequest "" "" [] [] (map (λ b, mkMeterWire "" (booking_account b).1 (booking_account b).2 0 0 0)
                             (List.filter (λ b, negb (bool_decide (bk_moneyKey b = ""))) bs)).
Definition booking_definition (b : sharedBooking) : sharedDefinition :=
  mkDefinition (bk_id b) "" "" "" "" "" "" 0 0 false zeroTime zeroTime.

Definition settled_row (terminal fingerprint : string) (invalid : bool) (r : permitRow) : permitRow :=
  mkPermitRow (pm_token_bound r) (pm_cost_bound r) (pm_booking_count r) terminal fingerprint invalid (pm_bookings r).

Definition invalid_usage (usage : SharedSettlement) (r : permitRow) : bool :=
  (ss_InvalidUsage usage || sharedInvalidObservation (ss_Tokens usage) (pm_token_bound r)
   || sharedInvalidObservation (ss_CostMicroUSD usage) (pm_cost_bound r))%bool.

(** The body returns whether the outcome is invalid, which commits all the same,
    or nothing for the replay of a settlement, which has nothing to commit. *)
Definition terminal_body (now : Time) (p : SharedPermit) (terminal : string) (usage : SharedSettlement)
    : STE STX AdmissionError (option bool) :=
  let hash := capabilityHash (sp_ID p) in
  r ← stx_permit hash;
  refuse (negb (pm_token_bound r =? sp_TokenBound p) || negb (pm_cost_bound r =? sp_CostBoundMicroUSD p))%bool ErrSharedUnavailable
    (let fingerprint := settlementHash terminal usage in
     if negb (bool_decide (pm_terminal r = "")) then
       refuse (negb (bool_decide (pm_terminal r = terminal)) || negb (bool_decide (pm_fingerprint r = fingerprint)) || pm_invalid r)%bool
         ErrSharedUnavailable (mret None)
     else
       refuse (negb (Z.of_nat (length (pm_bookings r)) =? pm_booking_count r)) ErrSharedUnavailable
         (_ ← on_accounts (lockAccounts capabilityHash "" (booking_refs (pm_bookings r)) []);
          _ ← lockSharedCounters (map booking_definition (pm_bookings r)) now false;
          let invalid := invalid_usage usage r in
          _ ← stx_each (pm_bookings r) (settle_one hash terminal invalid usage);
          _ ← on_accounts persistAccounts;
          _ ← persistSharedCounters;
          _ ← put_permit hash (settled_row terminal fingerprint invalid r);
          mret (Some invalid))).

Definition sharedTerminal (now : Time) (o : Commit) (p : option SharedPermit) (terminal : string) (usage : SharedSettlement) (w : World)
    : result AdmissionError unit * World :=
  match p with
  | None => (Err ErrSharedUnavailable, w)
  | Some p =>
      if (negb (validCapability (sp_ID p)) || (sp_TokenBound p <? 0) || (sp_CostBoundMicroUSD p <? 0))%bool
      then (Err ErrSharedUnavailable, w)
      else match terminal_body now p terminal usage (mkSTX w ∅ ∅) with
           | (Err e, _) => (Err e, w)
           | (Ok None, _) => (Ok tt, w)
           | (Ok (Some invalid), t) =>
               match o with
               | Committed => (if invalid then Err ErrSharedUnavailable else Ok tt, x_world t)
               | CommitFails landed => (Err ErrSharedUnavailable, if landed then x_world t else w)
               end
           end
  end.

Definition FinishShared (now : Time) (o : Commit) (p : option SharedPermit) (usage : SharedSettlement) (w : World) :=
  sharedTerminal now o p "finish" usage w.
Definition CancelShared (now : Time) (o : Commit) (p : option SharedPermit) (w : World) :=
  sharedTerminal now o p "cancel" (mkSettlement None None false false) w.

(** ** [SharedUsage] *)

(** The liability of the node grants of a window that are still open. *)
Definition open_grants (k : accountKey) (db : DB) : Z :=
  sumZ (map (λ g, if (bool_decide ((gs_key g, gs_window g) = k) && negb (gs_closed g))%bool then Z.max (gs_amount g - gs_consumed g) 0 else 0)
            (map_to_list (GrantRows db)).*2).

Definition usage_of (now : Time) (d : sharedDefinition) : STE STX AdmissionError SharedLimit :=
  _ ← refillSharedRate (d_id d) now (rate d);
  c ← stx_counter (d_id d);
  t ← stx_get;
  ur ← (if 0 <? rate d then
          used ← stx_lift (sharedCeil (sc_debt c)); reserved ← stx_lift (sharedRateReserved (d_id d) (x_world t)); mret (used, reserved)
        else mret (sc_used c, sc_reserved c));
  ur ← (if bool_decide (d_moneyKey d = "") then mret ur
        else
          a ← stx_account (money_account d);
          used ← sharedError (checkedAdd (hardEncumbered a) (softConsumed a));
          let local := open_grants (money_account d) (w_db (x_world t)) in
          refuse (MaxInt64 <? local) ErrSharedUnavailable
            (reserved ← sharedError (checkedAdd ur.2 local); mret (used, reserved)));
  mret (mkSharedLimit (d_scope d) (d_kind d) (d_policy d) (d_rule d) (d_window d) (d_limit d) ur.1 ur.2
          (Z.max 0 (wrap64 (d_limit d - ur.1))) (d_end d) (d_hard d)).

Fixpoint usage_all (now : Time) (defs : list sharedDefinition) : STE STX AdmissionError (list SharedLimit) :=
  match defs with
  | [] => mret []
  | d :: defs => l ← usage_of now d; ls ← usage_all now defs; mret (l :: ls)
  end.

Definition usage_body (read : string → Time → option Principal) (now1 now2 : Time) (sub : Governor.Subject)
    : STE STX AdmissionError (list SharedLimit) :=
  p ← stx_lift (sharedSnapshot read now1 sub);
  t ← stx_get;
  db ← stx_lift (sharedDefinitions range authorityHash revise GenerationOf (Policies (w_db (x_world t))) p now1 None);
  _ ← on_accounts (lockAccounts capabilityHash "" no_request db.2);
  _ ← lockSharedCounters db.1 now1 true;
  _ ← stx_lift (sharedCheckClock p db.1 now2);
  usage_all now2 db.1.

(** The transaction is rolled back. *)
Definition SharedUsage (read : string → Time → option Principal) (now1 now2 : Time) (sub : Governor.Subject) (w : World)
    : result AdmissionError (list SharedLimit) := (usage_body read now1 now2 sub (mkSTX w ∅ ∅)).1.

End shared.

(** ** A concrete deployment *)

Module Demo.

Definition principal : Principal :=
  mkPrincipal "key" "acme" 0 0 0 0 None "" false "auth" (Some (mkTeamRecord "acme" 0 1000 0 "" 0 0 "")) true "" false.
Definition read (id : string) (now : Time) : option Principal := if bool_decide (id = "key") then Some principal else None.
Definition subject : Governor.Subject := {| Governor.s_Team := "acme"; Governor.s_KeyID := "key"; Governor.s_User := "" |}.
Definition generation (docs : list v1alpha1.GovernancePolicy) : string := "gen".
Definition settlement (terminal : string) (u : SharedSettlement) : string :=
  terminal +:+ (if ss_Complete u then "/complete" else "/partial").
Definition request (tokens cost : Z) : SharedRequest := mkSharedRequest "" subject "auth" "gen" "model" "model" tokens cost.

Definition world0 : World := mkWorld Central.Demo.db0 ∅ ∅ ∅.
Definition now : Time := Central.Demo.now.

Definition reserve (id : string) (tokens cost : Z) (w : World) :=
  ReserveShared Central.Demo.range Central.Demo.joined Central.Demo.revise generation (λ s, s)
    (Some (λ _, true)) false read now now (Some id) Committed (request tokens cost) w.
Definition finish (p : SharedPermit) (u : SharedSettlement) (w : World) :=
  FinishShared (λ s, s) settlement now Committed (Some p) u w.

End Demo.
