(* ===== verification/SharedSafety.v ===== *)
(** * The invariant of shared admission (internal/authority/pgstore/shared*.go)

    Every counter covers the bookings of the permits still open, a rate's debt
    is the sum of its live segments, and the accounts that [Sync] leases from
    hold the money of the bookings on top of their own rows.  A settlement of
    an open permit always fits. *)

From S2P Require Import Prelude GoTime V1Alpha1 Policy Tier Denial Governor Escrow EscrowSafety EscrowSettle Central CentralSafety CentralTheorems Shared.

#[local] Abbreviation hoare := (Prelude.hoare (S := STX) (E := AdmissionError)).

(** ** What the open permits hold *)

Definition is_open (r : permitRow) : bool := bool_decide (pm_terminal r = "").

Definition sum_open (f : sharedBooking → Z) (P : gmap string permitRow) : Z :=
  sum_if is_open (λ r, sumZ (map f (pm_bookings r))) P.

Definition amount_at (k : accountKey) (b : sharedBooking) : Z := if bool_decide (bk_id b = k) then bk_amount b else 0.
Definition is_money (b : sharedBooking) : bool := negb (bool_decide (bk_moneyKey b = "")).
Definition hard_at (k : accountKey) (b : sharedBooking) : Z :=
  if (is_money b && bk_hard b && bool_decide (booking_account b = k))%bool then bk_amount b else 0.
Definition soft_at (k : accountKey) (b : sharedBooking) : Z :=
  if (is_money b && negb (bk_hard b) && bool_decide (booking_account b = k))%bool then bk_amount b else 0.

Definition booking_ok (r : permitRow) (b : sharedBooking) : Prop :=
  0 <= bk_amount b ∧ bk_amount b <= MaxInt64
  ∧ bk_amount b = (if bool_decide (bk_kind b = "rpm") then 1
                   else if bool_decide (bk_kind b = "microUSD") then pm_cost_bound r else pm_token_bound r)
  ∧ (is_rate (bk_kind b) = true → bk_moneyKey b = "").

Record row_shape (r : permitRow) : Prop := {
  rs_bookings : Forall (booking_ok r) (pm_bookings r);
  rs_ids : NoDup (map bk_id (pm_bookings r)) }.

Lemma sum_bookings_nonneg (f : sharedBooking → Z) bs : Forall (λ b, 0 <= f b) bs → 0 <= sumZ (map f bs).
Proof. induction 1; simpl; lia. Qed.

Lemma sum_open_put f P h r : is_open r = true →
  sum_open f (<[h := r]> P)
  = sum_open f P + sumZ (map f (pm_bookings r)) - (match P !! h with Some r0 => if is_open r0 then sumZ (map f (pm_bookings r0)) else 0 | None => 0 end).
Proof.
  intros Ho. unfold sum_open, sum_if. destruct (P !! h) as [r0|] eqn:E.
  - rewrite (sum_map_update _ _ _ _ _ E), Ho. lia.
  - rewrite sum_map_new by done. rewrite Ho. lia.
Qed.

Lemma sum_open_nonneg f P : (∀ h r, P !! h = Some r → Forall (λ b, 0 <= f b) (pm_bookings r)) → 0 <= sum_open f P.
Proof.
  intros Hf. apply sum_map_pos. intros h r Hr. destruct (is_open r); [|done]. apply sum_bookings_nonneg. by eapply Hf.
Qed.

(** ** Counters *)

Definition segments_ok (l : list segment) : Prop := Forall (λ s, 0 < sg_remaining s) l ∧ NoDup (map sg_permit l).

Record counter_ok (P : gmap string permitRow) (k : accountKey) (l : list segment) (c : sharedCounter) : Prop := {
  co_open : sum_open (amount_at k) P <= sc_reserved c;
  co_reserved : sc_reserved c <= sc_used c <= MaxInt64;
  co_debt : sc_debt c = remaining_sum l;
  co_refilled : 0 <= sc_refilled c;
  co_rate : 0 <= sc_rate c }.

Definition ctx_of (t : STX) : CTX := mkCTX (w_db (x_world t)) (x_accounts t) 0.

(** The counter as the transaction sees it. *)
Definition cnt (t : STX) (k : accountKey) : option sharedCounter :=
  match x_counters t !! k with Some c => Some c | None => w_counters (x_world t) !! k end.

Definition covered (t : STX) (b : sharedBooking) : Prop :=
  is_Some (cnt t (bk_id b)) ∧ (is_money b = true → is_Some (acct (ctx_of t) (booking_account b))).

(** The shared ledger under way; [P] are the permits, [x] what they and the
    permits before them left in the accounts. *)
Record books (lim : accountKey → option Z) (db0 : DB) (P : gmap string permitRow) (x : Others) (t : STX) : Prop := {
  b_keeps : keeps x lim db0 ∅ (ctx_of t);
  b_pend : ∀ k, o_pend x k = sum_open (soft_at k) P;
  b_soft : ∀ k, o_pend x k <= o_soft x k;
  b_enc : ∀ k, o_con x k + sum_open (hard_at k) P <= o_enc x k;
  b_con : ∀ k, 0 <= o_con x k;
  b_counter : ∀ k c, cnt t k = Some c → counter_ok P k (segments_of k (x_world t)) c;
  b_segments : ∀ k, segments_ok (segments_of k (x_world t)) ∧ (cnt t k = None → segments_of k (x_world t) = []);
  b_locked : ∀ k, is_Some (x_counters t !! k) → is_Some (w_counters (x_world t) !! k);
  b_rows : ∀ h r, P !! h = Some r → row_shape r;
  b_covered : ∀ h r b, P !! h = Some r → is_open r = true → b ∈ pm_bookings r → covered t b }.

(** ** Segments *)

Lemma remaining_sum_nonneg l : Forall (λ s, 0 < sg_remaining s) l → 0 <= remaining_sum l.
Proof. unfold remaining_sum. induction 1; simpl; lia. Qed.

(** The statement retires what was asked for, oldest first, as far as there is. *)
Lemma retire_segments_sum retired prior l :
  Forall (λ s, 0 <= sg_remaining s) l →
  remaining_sum l - remaining_sum (retire_segments retired prior l) = Z.min (Z.max 0 (retired - prior)) (remaining_sum l).
Proof.
  revert prior. induction l as [|s l IH]; intros prior Hl; [unfold remaining_sum; simpl; lia|].
  apply Forall_cons in Hl as [Hs Hl]. specialize (IH (prior + sg_remaining s) Hl).
  assert (Hn : 0 <= remaining_sum l) by (unfold remaining_sum in *; clear IH; induction Hl; simpl; lia).
  unfold remaining_sum, sumZ in *. simpl in *. destruct (prior <? retired) eqn:E; simpl; bsplit; lia.
Qed.

Lemma retire_segments_ok retired prior l :
  Forall (λ s, 0 <= sg_remaining s) l → 0 <= retired - prior →
  Forall (λ s, 0 <= sg_remaining s) (retire_segments retired prior l) ∧ map sg_permit (retire_segments retired prior l) = map sg_permit l.
Proof.
  revert prior. induction l as [|s l IH]; intros prior Hl Hr; simpl; [done|].
  apply Forall_cons in Hl as [Hs Hl].
  assert (Hh : 0 <= sg_remaining (if prior <? retired then with_remaining (Z.max 0 (sg_remaining s - Z.max 0 (retired - prior))) s else s)
    ∧ sg_permit (if prior <? retired then with_remaining (Z.max 0 (sg_remaining s - Z.max 0 (retired - prior))) s else s) = sg_permit s)
    by (destruct (prior <? retired); simpl; split; done || lia).
  destruct Hh as [Hh ->]. destruct (decide (0 <= retired - (prior + sg_remaining s))) as [Hp|Hp].
  - destruct (IH _ Hl Hp) as [? ->]. split; [by constructor|done].
  - assert (Hsame : ∀ p l, retired <= p → Forall (λ s, 0 <= sg_remaining s) l → retire_segments retired p l = l).
    { clear. intros p l. revert p. induction l as [|s l IH]; intros p Hp Hl; simpl; [done|]. apply Forall_cons in Hl as [? ?].
      rewrite IH by (done || lia). replace (p <? retired) with false by lia. done. }
    rewrite Hsame by (done || lia). split; [by constructor|done].
Qed.

Lemma live_segments_spec l :
  Forall (λ s, 0 <= sg_remaining s) l → NoDup (map sg_permit l) →
  segments_ok (live_segments l) ∧ remaining_sum (live_segments l) = remaining_sum l.
Proof.
  intros Hl Hnd. split; [split|].
  - rewrite Forall_forall in *. intros s Hs%list_elem_of_In%filter_In. destruct Hs as [Hin Hz]. bsplit.
    rewrite <- list_elem_of_In in Hin. specialize (Hl _ Hin). lia.
  - clear Hl. induction l as [|s l IH]; simpl in *; [done|]. apply NoDup_cons in Hnd as [Hni Hnd].
    destruct (negb _); simpl; [|auto]. apply NoDup_cons. split; [|auto]. intros Hin. apply Hni.
    rewrite list_elem_of_In, in_map_iff in *. destruct Hin as (y & <- & Hy%filter_In). exists y. by destruct Hy.
  - unfold remaining_sum. induction Hl as [|s l Hs Hl IH]; [done|]. cbn [map live_segments List.filter] in *.
    apply NoDup_cons in Hnd as [_ Hnd]. specialize (IH Hnd). unfold live_segments in IH. destruct (sg_remaining s =? 0) eqn:E; simpl; bsplit; lia.
Qed.

(** ** One account changes outside the rows of [Sync] *)

Definition shift (x : Others) (k : accountKey) (a a' : account) : Others :=
  let at_k (f : accountKey → Z) (g : account → Z) k' := f k' + (if bool_decide (k' = k) then g a' - g a else 0) in
  mkOthers (at_k (o_enc x) hardEncumbered) (at_k (o_con x) hardConsumed) (at_k (o_soft x) softConsumed) (at_k (o_pend x) softPending).

Lemma ledger_shift x t k a a' :
  ledger x t → c_accounts t !! k = Some a → nat63 (hardEncumbered a') → nat63 (hardConsumed a') → nat63 (softConsumed a') →
  ledger (shift x k a a') (mkCTX (c_db t) (<[k := a']> (c_accounts t)) (c_ids t)).
Proof.
  intros Hl Ha H1 H2 H3. pose proof (acct_put t k a') as Hacct. assert (Hk : acct t k = Some a) by (unfold acct; by rewrite Ha).
  set (t' := mkCTX _ _ _) in *. assert (Hsome : ∀ k', is_Some (acct t k') → is_Some (acct t' k')).
  { intros k' Hs. rewrite Hacct. case_bool_decide; [by eexists|done]. }
  split.
  - intros k' a1. rewrite Hacct. intros Ha1. unfold shift. case_bool_decide as E.
    + subst k'. injection Ha1 as <-. destruct (l_accounts _ _ Hl _ _ Hk) as [F1 F2 F3 F4 F5].
      unfold held_on, spent_on, metered_on in *. split; unfold held_on, spent_on, metered_on; simpl; rewrite ?bool_decide_true by done; try lia. done.
    + destruct (l_accounts _ _ Hl _ _ Ha1) as [F1 F2 F3 F4 F5].
      unfold held_on, spent_on, metered_on in *. split; unfold held_on, spent_on, metered_on; simpl; rewrite ?bool_decide_false by done; try lia. done.
  - intros k'. unfold t'. simpl. intros [a1 [[<- _]|[_ Hk1]]%lookup_insert_Some]; apply (l_locked _ _ Hl); by eexists.
  - intros k'. rewrite Hacct. case_bool_decide as E; [done|]. unfold shift. simpl. rewrite bool_decide_false by done.
    intros Hn. destruct (l_none _ _ Hl _ Hn) as (? & ? & ? & ?). split_and!; lia.
  - intros rk g Hg. destruct (l_rows _ _ Hl _ _ Hg) as [? Hs]. split; [done|]. intros Hp. auto.
  - apply (l_ids _ _ Hl).
  - intros mk0 m0 Hm. destruct (l_meters _ _ Hl _ _ Hm) as (? & Hs & ? & ?). split_and!; try done. auto.
Qed.

Lemma keeps_shift x lim db0 t k a a' :
  keeps x lim db0 ∅ t → c_accounts t !! k = Some a →
  nat63 (hardEncumbered a') → nat63 (hardConsumed a') → nat63 (softConsumed a') →
  (frozen a = true → frozen a' = true) → acceptsMeters a' = acceptsMeters a →
  (∀ L, lim k = Some L → strict a' = true → committed a' <= L) →
  keeps (shift x k a a') lim db0 ∅ (mkCTX (c_db t) (<[k := a']> (c_accounts t)) (c_ids t)).
Proof.
  intros Hk Ha H1 H2 H3 Hf Hm Hfits. apply (keeps_account x _ lim db0 t _ k a a'); try done.
  - by apply ledger_shift; [apply (k_ledger _ _ _ _ _ Hk)|..].
  - apply (k_table _ _ _ _ _ Hk).
  - apply acct_put.
  - intros a0. unfold acct. rewrite Ha. congruence.
  - by rewrite Hm.
Qed.

(** ** One counter changes *)

Record at_counter (k : accountKey) (c' : sharedCounter) (l' : list segment) (t t' : STX) : Prop := {
  ac_table : w_counters (x_world t') = w_counters (x_world t);
  ac_locked : x_counters t' = <[k := c']> (x_counters t);
  ac_segments : ∀ k', segments_of k' (x_world t') = if bool_decide (k' = k) then l' else segments_of k' (x_world t) }.

Lemma at_counter_cnt k c' l' t t' : at_counter k c' l' t t' → ∀ k', cnt t' k' = if bool_decide (k' = k) then Some c' else cnt t k'.
Proof.
  intros [Ht Hl _] k'. unfold cnt. rewrite Ht, Hl. case_bool_decide; [subst k'; by rewrite lookup_insert_eq|by rewrite lookup_insert_ne].
Qed.

(** The step of a booking: its counter, its account and the permits move
    together. *)
Lemma books_update lim db0 P P' x x' t t' k c c' l' :
  books lim db0 P x t → at_counter k c' l' t t' → x_counters t !! k = Some c →
  keeps x' lim db0 ∅ (ctx_of t') →
  (∀ k', o_pend x' k' = sum_open (soft_at k') P') → (∀ k', o_pend x' k' <= o_soft x' k') →
  (∀ k', o_con x' k' + sum_open (hard_at k') P' <= o_enc x' k') → (∀ k', 0 <= o_con x' k') →
  counter_ok P' k l' c' → segments_ok l' →
  (∀ k', k' ≠ k → sum_open (amount_at k') P' <= sum_open (amount_at k') P) →
  (∀ h r, P' !! h = Some r → row_shape r) →
  (∀ h r b, P' !! h = Some r → is_open r = true → b ∈ pm_bookings r → covered t' b) →
  books lim db0 P' x' t'.
Proof.
  intros Hb Hac Hc Hk H1 H2 H3 H4 Hco Hsg Hoth Hrows Hcov. pose proof (at_counter_cnt _ _ _ _ _ Hac) as Hcnt.
  destruct Hac as [Ht Hlk Hseg]. split; try done.
  - intros k' c0. rewrite Hcnt, Hseg. case_bool_decide as E; [subst k'; by intros [= <-]|].
    intros Hc0. destruct (b_counter _ _ _ _ _ Hb _ _ Hc0) as [O1 O2 O3 O4 O5]. split; try done. specialize (Hoth k' E). lia.
  - intros k'. rewrite Hcnt, Hseg. case_bool_decide; [by split|]. apply (b_segments _ _ _ _ _ Hb).
  - intros k'. rewrite Ht, Hlk. intros [c0 [[<- _]|[_ Hc0]]%lookup_insert_Some]; apply (b_locked _ _ _ _ _ Hb); by eexists.
Qed.

Lemma covered_mono t t' b :
  (∀ k, is_Some (cnt t k) → is_Some (cnt t' k)) → (∀ k, is_Some (acct (ctx_of t) k) → is_Some (acct (ctx_of t') k)) →
  covered t b → covered t' b.
Proof. intros Hc Ha [H1 H2]. split; auto. Qed.

Lemma at_counter_covered k c' l' t t' b :
  at_counter k c' l' t t' → (∀ k', is_Some (acct (ctx_of t) k') → is_Some (acct (ctx_of t') k')) → covered t b → covered t' b.
Proof.
  intros Hac Ha. apply covered_mono; [|done]. intros k' Hs. rewrite (at_counter_cnt _ _ _ _ _ Hac). case_bool_decide; [by eexists|done].
Qed.

(** A counter alone changes. *)
Lemma books_counter lim db0 P x t t' k c c' l' :
  books lim db0 P x t → at_counter k c' l' t t' → x_counters t !! k = Some c →
  w_db (x_world t') = w_db (x_world t) → x_accounts t' = x_accounts t →
  counter_ok P k l' c' → segments_ok l' → books lim db0 P x t'.
Proof.
  intros Hb Hac Hc Hdb Hacc Hco Hsg.
  assert (Hctx : ctx_of t' = ctx_of t) by (unfold ctx_of; by rewrite Hdb, Hacc).
  apply (books_update lim db0 P P x x t t' k c c' l'); try done; try by destruct Hb.
  - rewrite Hctx. by destruct Hb.
  - intros h r b Hr Ho Hin. apply (at_counter_covered _ _ _ _ _ _ Hac); [by rewrite Hctx|].
    by apply (b_covered _ _ _ _ _ Hb h r).
Qed.

(** *** Refill *)

Definition elapsed_debt (c : sharedCounter) (now : Time) (r : Z) : Z :=
  if 0 <? sc_rate c then Z.max 0 (sc_debt c - (micros now - micros (sc_updated c)) * Z.min (sc_rate c) r) else sc_debt c.

Definition refilled (now : Time) (r : Z) (c : sharedCounter) : sharedCounter :=
  mkCounter (sc_used c) (sc_reserved c) r (elapsed_debt c now r) (sc_refilled c + (sc_debt c - elapsed_debt c now r)) now (sc_frozen c).

Lemma micros_le t1 t2 : t1 <= t2 → micros t1 <= micros t2.
Proof. intros. unfold micros. lia. Qed.

Lemma refill_spec c now r :
  sc_updated c <= now → 0 <= sc_debt c → refill c now r = Ok (refilled now r c).
Proof.
  intros Hu Hd. unfold refill, refilled, elapsed_debt, Before. replace (now <? sc_updated c) with false by lia.
  f_equal. destruct (0 <? sc_rate c); f_equal; lia.
Qed.

Lemma segments_of_put w k l k' : segments_of k' (with_segments <[k := l]> w) = if bool_decide (k' = k) then l else segments_of k' w.
Proof.
  unfold segments_of. simpl. case_bool_decide; [subst k'; by rewrite lookup_insert_eq|by rewrite lookup_insert_ne].
Qed.

(** Refilling an admitted counter always finds the segments it retires. *)
Lemma refillSharedRate_spec lim db0 P x t k c now r :
  books lim db0 P x t → x_counters t !! k = Some c → sc_updated c <= now → 0 <= r →
  ∃ t' l', refillSharedRate k now r t = (Ok tt, t') ∧ at_counter k (refilled now r c) l' t t' ∧ books lim db0 P x t'
    ∧ w_db (x_world t') = w_db (x_world t) ∧ x_accounts t' = x_accounts t ∧ w_permits (x_world t') = w_permits (x_world t).
Proof.
  intros Hb Hc Hu Hr. assert (Hcnt : cnt t k = Some c) by (unfold cnt; by rewrite Hc).
  destruct (b_counter _ _ _ _ _ Hb _ _ Hcnt) as [O1 O2 O3 O4 O5]. destruct (b_segments _ _ _ _ _ Hb k) as [[S1 S2] _].
  pose proof (remaining_sum_nonneg _ S1) as Hn. set (l := segments_of k (x_world t)) in *.
  assert (S1' : Forall (λ s, 0 <= sg_remaining s) l) by (eapply Forall_impl; [exact S1|]; intros s ?; simpl in *; lia).
  assert (He : 0 <= elapsed_debt c now r <= sc_debt c).
  { unfold elapsed_debt. pose proof (micros_le _ _ Hu). destruct (0 <? sc_rate c); [nia|lia]. }
  unfold refillSharedRate, stx_counter, stx_lift, stx_put_counter, stx_get, put_segments, stx_world, refuse, mbind, ste_mbind.
  rewrite Hc. cbn beta iota zeta delta [from_option]. rewrite refill_spec by (done || lia). cbn beta iota zeta.
  destruct (_ =? 0) eqn:Ez; bsplit; simpl in Ez.
  - eexists _, l. split; [reflexivity|].
    assert (Hac : at_counter k (refilled now r c) l t (mkSTX (x_world t) (x_accounts t) (<[k := refilled now r c]> (x_counters t)))).
    { split; try done. intros k'. by case_bool_decide; [subst k'|]. }
    split_and!; try done. apply (books_counter lim db0 P x t _ k c _ l Hb Hac Hc); try done. split; simpl; try done; lia.
  - simpl. fold l. set (rt := sc_debt c - elapsed_debt c now r) in *.
    pose proof (retire_segments_sum rt 0 l S1') as Hsum. destruct (retire_segments_ok rt 0 l S1' ltac:(lia)) as [R1 R2].
    destruct (live_segments_spec (retire_segments rt 0 l) R1 ltac:(by rewrite R2)) as [L1 L2].
    replace (remaining_sum l - remaining_sum (retire_segments rt 0 l) =? rt) with true by lia. simpl.
    eexists _, (live_segments (retire_segments rt 0 l)). split; [reflexivity|]. set (t' := mkSTX _ _ _).
    assert (Hac : at_counter k (refilled now r c) (live_segments (retire_segments rt 0 l)) t t').
    { split; try done. intros k'. apply segments_of_put. }
    split_and!; try done. apply (books_counter lim db0 P x t _ k c _ _ Hb Hac Hc); try done.
    split; simpl; done || lia.
Qed.

(** ** Settlement *)

Lemma stx_account_eq k t a : x_accounts t !! k = Some a → stx_account k t = (Ok a, t).
Proof. intros Ha. destruct t as [[] ? ?]. unfold stx_account, on_accounts, get_account. simpl in *. by rewrite Ha. Qed.

Lemma stx_put_account_eq k a t : stx_put_account k a t = (Ok tt, mkSTX (x_world t) (<[k := a]> (x_accounts t)) (x_counters t)).
Proof. by destruct t as [[] ? ?]. Qed.

Lemma stx_counter_eq k t c : x_counters t !! k = Some c → stx_counter k t = (Ok c, t).
Proof. intros Hc. unfold stx_counter. by rewrite Hc. Qed.

Lemma at_counter_trans k c1 l1 c2 l2 t t1 t2 : at_counter k c1 l1 t t1 → at_counter k c2 l2 t1 t2 → at_counter k c2 l2 t t2.
Proof.
  intros [T1 L1 S1] [T2 L2 S2]. split; [congruence|by rewrite L2, L1, insert_insert_eq|].
  intros k'. rewrite S2. case_bool_decide as E; [done|]. rewrite S1. by rewrite bool_decide_false.
Qed.

Lemma at_counter_put k c l t : segments_of k (x_world t) = l → at_counter k c l t (mkSTX (x_world t) (x_accounts t) (<[k := c]> (x_counters t))).
Proof. intros <-. split; try done. intros k'. by case_bool_decide; [subst k'|]. Qed.

Lemma remaining_sum_app l1 l2 : remaining_sum (l1 ++ l2) = remaining_sum l1 + remaining_sum l2.
Proof. unfold remaining_sum. by rewrite map_app, sumZ_app. Qed.

(** A segment of the permit [h], where it is in the list. *)
Lemma segment_of_split h l s :
  NoDup (map sg_permit l) → segment_of h l = Some s →
  ∃ l1 l2, l = l1 ++ s :: l2 ∧ sg_permit s = h ∧ Forall (λ s', sg_permit s' ≠ h) l1 ∧ Forall (λ s', sg_permit s' ≠ h) l2.
Proof.
  induction l as [|s0 l IH]; intros Hnd Hf; simpl in Hf; [done|]. simpl in Hnd. apply NoDup_cons in Hnd as [Hni Hnd].
  case_bool_decide as E.
  - injection Hf as <-. exists [], l. split_and!; try done. apply Forall_forall. intros s' Hs' Es. apply Hni.
    rewrite E, <- Es. by apply list_elem_of_In, in_map, list_elem_of_In.
  - destruct (IH Hnd Hf) as (l1 & l2 & -> & Es & H1 & H2). exists (s0 :: l1), l2. split_and!; try done. by constructor.
Qed.

Lemma other_segments h l : Forall (λ s', sg_permit s' ≠ h) l → delete_segment h l = l ∧ ∀ n u, update_segment h n u l = l.
Proof.
  unfold delete_segment, update_segment. induction 1 as [|s l Hs Hl [IH1 IH2]]; simpl; [done|]. rewrite bool_decide_false by done. simpl.
  rewrite IH1. split; [done|]. intros n u. by rewrite IH2.
Qed.

(** What is left of a permit's segment after a return. *)
Definition returned (h : string) (n : Z) (u : bool) (l : list segment) : list segment :=
  if n =? 0 then delete_segment h l else update_segment h n u l.

Lemma returned_spec h l s n u :
  segments_ok l → segment_of h l = Some s → 0 <= n →
  segments_ok (returned h n u l) ∧ remaining_sum (returned h n u l) = remaining_sum l - sg_remaining s + n.
Proof.
  intros [Hf Hnd] Hs Hn. destruct (segment_of_split _ _ _ Hnd Hs) as (l1 & l2 & -> & Es & H1 & H2).
  destruct (other_segments _ _ H1) as [D1 U1]. destruct (other_segments _ _ H2) as [D2 U2].
  apply Forall_app in Hf as [F1 [F F2]%Forall_cons]. rewrite map_app in Hnd. simpl in Hnd.
  unfold returned. destruct (n =? 0) eqn:E; bsplit.
  - assert (delete_segment h (l1 ++ s :: l2) = l1 ++ l2) as ->.
    { unfold delete_segment in *. rewrite List.filter_app. simpl. rewrite bool_decide_true by done. simpl. by rewrite D1, D2. }
    split; [split|rewrite !remaining_sum_app; unfold remaining_sum, sumZ; simpl; lia].
    + by apply Forall_app.
    + rewrite map_app. apply NoDup_app in Hnd as (N1 & N2 & N3). apply NoDup_cons in N3 as [_ N3].
      apply NoDup_app. split_and!; try done. intros y Hy Hy2. apply (N2 y Hy). by right.
  - assert (update_segment h n u (l1 ++ s :: l2) = l1 ++ mkSegment h n u :: l2) as ->.
    { unfold update_segment in *. rewrite map_app. simpl. rewrite bool_decide_true by done. by rewrite U1, U2. }
    split; [split|rewrite !remaining_sum_app; unfold remaining_sum, sumZ; simpl; lia].
    + apply Forall_app. split; [done|]. constructor; [simpl; lia|done].
    + rewrite map_app. simpl. by rewrite <- Es.
Qed.

(** What a refund releases: at most what the permit's segment still holds. *)
Definition refund_of (h : string) (refund : Z) (l : list segment) : Z :=
  match segment_of h l with Some s => Z.min (sharedScaled refund) (sg_remaining s) | None => 0 end.
Definition refunded (h : string) (refund : Z) (known : bool) (l : list segment) : list segment :=
  match segment_of h l with Some s => returned h (sg_remaining s - refund_of h refund l) (negb known) l | None => l end.

Lemma refunded_spec h refund known l : segments_ok l → 0 <= refund →
  segments_ok (refunded h refund known l) ∧ remaining_sum (refunded h refund known l) = remaining_sum l - refund_of h refund l
  ∧ 0 <= refund_of h refund l <= remaining_sum l.
Proof.
  intros Hsg Hr. pose proof (remaining_sum_nonneg _ (proj1 Hsg)) as Hl. unfold refunded, refund_of. destruct (segment_of h l) as [s|] eqn:Es; [|split_and!; try done; lia].
  destruct (segment_of_split _ _ _ (proj2 Hsg) Es) as (l1 & l2 & El & _). pose proof (proj1 Hsg) as S1. rewrite El in S1.
  apply Forall_app in S1 as [F1 [F F2]%Forall_cons]. pose proof (remaining_sum_nonneg _ F1). pose proof (remaining_sum_nonneg _ F2).
  assert (sg_remaining s <= remaining_sum l) by (rewrite El, remaining_sum_app; unfold remaining_sum, sumZ in *; simpl; lia).
  set (release := Z.min (sharedScaled refund) (sg_remaining s)).
  assert (0 <= release <= sg_remaining s) by (unfold release, sharedScaled, sharedRateScale; lia).
  destruct (returned_spec h l s (sg_remaining s - release) (negb known) Hsg Es ltac:(lia)) as [L1 L2]. split_and!; [done|lia..].
Qed.

(** Returning unspent debt leaves a counter that still sums its segments. *)
Lemma returnSharedRate_spec t b c h refund known :
  x_counters t !! bk_id b = Some c → sc_debt c = remaining_sum (segments_of (bk_id b) (x_world t)) →
  segments_ok (segments_of (bk_id b) (x_world t)) → 0 <= refund →
  let l' := refunded h refund known (segments_of (bk_id b) (x_world t)) in
  ∃ t', returnSharedRate h b refund known t = (Ok tt, t') ∧ at_counter (bk_id b) (with_debt (remaining_sum l') c) l' t t'
    ∧ segments_ok l' ∧ w_db (x_world t') = w_db (x_world t) ∧ x_accounts t' = x_accounts t ∧ w_permits (x_world t') = w_permits (x_world t).
Proof.
  intros Hc O3 Hsg Hr l'. destruct (refunded_spec h refund known _ Hsg Hr) as (L1 & L2 & L3). fold l' in L1, L2.
  unfold returnSharedRate, stx_get, mbind, ste_mbind. rewrite (stx_counter_eq _ _ _ Hc). cbn beta iota zeta.
  revert L2 L3. unfold l', refunded, refund_of. set (l := segments_of (bk_id b) (x_world t)) in *. destruct (segment_of h l) as [s|] eqn:Es; intros L2 L3.
  - assert (0 <= sg_remaining s).
    { destruct (segment_of_split _ _ _ (proj2 Hsg) Es) as (l1 & l2 & El & _). pose proof (proj1 Hsg) as S1. rewrite El in S1.
      apply Forall_app in S1 as [_ [F _]%Forall_cons]. lia. }
    unfold refuse, put_segments, stx_world, stx_put_counter. replace (sg_remaining s <? 0) with false by lia.
    set (release := Z.min (sharedScaled refund) (sg_remaining s)) in *.
    replace (sc_debt c <? release) with false by lia. fold (returned h (sg_remaining s - release) (negb known) l).
    eexists _. split; [reflexivity|]. split_and!; try done; [|by revert L1; unfold l', refunded, refund_of; rewrite Es].
    split; try done; [|intros k'; apply segments_of_put]. simpl. do 2 f_equal. rewrite L2, O3. lia.
  - exists t. split_and!; try done. split; [done| |intros k'; by case_bool_decide; [subst k'|]].
    rewrite <- O3. replace (with_debt (sc_debt c) c) with c by by destruct c. by rewrite insert_id.
Qed.

(** *** One booking *)

Definition settled_account (terminal : string) (invalid : bool) (usage : SharedSettlement) (b : sharedBooking) (a : account) : account :=
  let pending := if bk_hard b then softPending a else softPending a - bk_amount b in
  if invalid then mkAccount (hardEncumbered a) (hardConsumed a) (softConsumed a) pending (acceptsMeters a) true
  else
    let retained := (sharedRetained b terminal usage).1 in
    let refund := bk_amount b - retained in
    if bk_hard b then mkAccount (hardEncumbered a - refund) (hardConsumed a + retained) (softConsumed a) pending (acceptsMeters a) (frozen a)
    else mkAccount (hardEncumbered a) (hardConsumed a) (softConsumed a - refund) pending (acceptsMeters a) (frozen a).

Definition settled_counter (terminal : string) (invalid : bool) (usage : SharedSettlement) (b : sharedBooking) (debt : Z) (c : sharedCounter) : sharedCounter :=
  if invalid then freeze_counter c
  else
    let '(retained, known) := sharedRetained b terminal usage in
    if is_rate (bk_kind b) then with_usage (sc_used c - bk_amount b) (sc_reserved c - bk_amount b) (with_debt debt c)
    else with_usage (sc_used c - (bk_amount b - retained)) (if known then sc_reserved c - bk_amount b else sc_reserved c) c.

(** What a settlement releases of the debt of a rate, and what segments it leaves. *)
Definition released (h terminal : string) (invalid : bool) (usage : SharedSettlement) (b : sharedBooking) (l : list segment) : Z :=
  if (invalid || negb (is_rate (bk_kind b)))%bool then 0 else refund_of h (bk_amount b - (sharedRetained b terminal usage).1) l.
Definition settled_segments (h terminal : string) (invalid : bool) (usage : SharedSettlement) (b : sharedBooking) (l : list segment) : list segment :=
  if (invalid || negb (is_rate (bk_kind b)))%bool then l
  else refunded h (bk_amount b - (sharedRetained b terminal usage).1) (sharedRetained b terminal usage).2 l.

Lemma sharedRetained_bounds b terminal usage r :
  booking_ok r b → invalid_usage usage r = false → 0 <= (sharedRetained b terminal usage).1 <= bk_amount b.
Proof.
  intros (H0 & _ & Ha & _) Hv. unfold invalid_usage, sharedInvalidObservation in Hv. bsplit. unfold sharedRetained.
  destruct (bool_decide (terminal = "cancel")); [simpl; lia|]. destruct (bool_decide (bk_kind b = "rpm")) eqn:E1; [simpl; lia|].
  destruct (negb (ss_Complete usage)); [simpl; lia|]. destruct (bool_decide (bk_kind b = "microUSD")) eqn:E2.
  - destruct (ss_CostMicroUSD usage); simpl; [bsplit; lia|lia].
  - destruct (ss_Tokens usage); simpl; [bsplit; lia|lia].
Qed.

(** What is not known is retained in full. *)
Lemma sharedRetained_unknown b terminal usage : (sharedRetained b terminal usage).2 = false → (sharedRetained b terminal usage).1 = bk_amount b.
Proof.
  unfold sharedRetained. destruct (bool_decide _); [done|]. destruct (bool_decide _); [done|]. destruct (negb _); [done|].
  by destruct (if bool_decide _ then _ else _).
Qed.

(** The account of an open booking holds it. *)
Lemma account_holds lim db0 P x t k a :
  books lim db0 P x t → x_accounts t !! k = Some a →
  sum_open (hard_at k) P <= hardEncumbered a - hardConsumed a ∧ sum_open (soft_at k) P = softPending a ∧ softPending a <= softConsumed a
  ∧ nat63 (hardEncumbered a) ∧ nat63 (hardConsumed a) ∧ nat63 (softConsumed a).
Proof.
  intros Hb Ha. assert (Hacct : acct (ctx_of t) k = Some a) by (unfold acct; simpl; by rewrite Ha).
  pose proof (k_ledger _ _ _ _ _ (b_keeps _ _ _ _ _ Hb)) as Hl. destruct (l_accounts _ _ Hl _ _ Hacct) as [E1 E2 E3 E4 (R1 & R2 & R3)].
  assert (Hsp : spent_on k (c_db (ctx_of t)) <= held_on k (c_db (ctx_of t))).
  { apply sum_if_le. intros rk g Hg. apply spent_row_nonneg. by apply (l_rows _ _ Hl rk). }
  assert (Hmt : 0 <= metered_on k (c_db (ctx_of t))).
  { unfold metered_on. apply sum_map_pos. intros mk m Hm. destruct (on_meter k m); [|done].
    destruct (l_meters _ _ Hl _ _ Hm) as [(_ & [? _] & _) _]. done. }
  pose proof (b_enc _ _ _ _ _ Hb k). pose proof (b_soft _ _ _ _ _ Hb k). pose proof (b_pend _ _ _ _ _ Hb k).
  split_and!; try done; lia.
Qed.

Lemma sum_open_rest f P h r b rest :
  P !! h = Some r → is_open r = true → pm_bookings r = b :: rest →
  sum_open f (<[h := with_bookings rest r]> P) = sum_open f P - f b.
Proof.
  intros Hr Ho Hbs. rewrite sum_open_put by done. rewrite Hr, Ho, Hbs. simpl. lia.
Qed.

Lemma row_shape_rest r b rest : row_shape r → pm_bookings r = b :: rest → row_shape (with_bookings rest r) ∧ booking_ok r b.
Proof.
  intros [Hf Hn] Hbs. rewrite Hbs in *. apply Forall_cons in Hf as [Hb Hf]. simpl in Hn. apply NoDup_cons in Hn as [_ Hn].
  split; [|done]. split; [|done]. eapply Forall_impl; [exact Hf|]. done.
Qed.

Lemma hard_at_nonneg k r b : booking_ok r b → 0 <= hard_at k b.
Proof. intros [? _]. unfold hard_at. destruct (_ && _)%bool; lia. Qed.
Lemma soft_at_nonneg k r b : booking_ok r b → 0 <= soft_at k b.
Proof. intros [? _]. unfold soft_at. destruct (_ && _)%bool; lia. Qed.
Lemma amount_at_nonneg k r b : booking_ok r b → 0 <= amount_at k b.
Proof. intros [? _]. unfold amount_at. destruct (bool_decide _); lia. Qed.

Lemma sum_open_pos f P :
  (∀ h r, P !! h = Some r → row_shape r) → (∀ r b, booking_ok r b → 0 <= f b) → 0 <= sum_open f P.
Proof.
  intros Hrows Hf. apply sum_open_nonneg. intros h r Hr. eapply Forall_impl; [apply (rs_bookings _ (Hrows _ _ Hr))|]. intros b. apply Hf.
Qed.

(** An open booking is part of what is open. *)
Lemma booking_part f P h r b rest :
  (∀ h r, P !! h = Some r → row_shape r) → (∀ r b, booking_ok r b → 0 <= f b) →
  P !! h = Some r → is_open r = true → pm_bookings r = b :: rest → f b <= sum_open f P.
Proof.
  intros Hrows Hf Hr Ho Hbs. pose proof (sum_open_rest f _ _ _ _ _ Hr Ho Hbs) as Hs.
  destruct (row_shape_rest _ _ _ (Hrows _ _ Hr) Hbs) as [Hsh _].
  assert (0 <= sum_open f (<[h := with_bookings rest r]> P)); [|lia]. apply sum_open_pos; [|done].
  intros h' r' [[<- <-]|[_ Hr']]%lookup_insert_Some; [done|by eapply Hrows].
Qed.

Lemma alter_present {K A} `{Countable K} (f : A → A) (m : gmap K A) k a : m !! k = Some a → alter f k m = <[k := f a]> m.
Proof.
  intros Ha. apply map_eq. intros k'. destruct (decide (k' = k)) as [->|Hne].
  - by rewrite lookup_alter_eq, lookup_insert_eq, Ha.
  - by rewrite lookup_alter_ne, lookup_insert_ne.
Qed.

(** The books after a booking is settled. *)
Lemma settled_books lim db0 P x t t' h r b rest c l' debt terminal invalid usage :
  books lim db0 P x t → P !! h = Some r → is_open r = true → pm_bookings r = b :: rest →
  (invalid = false → invalid_usage usage r = false) → x_counters t !! bk_id b = Some c →
  (is_money b = true → is_Some (x_accounts t !! booking_account b)) →
  at_counter (bk_id b) (settled_counter terminal invalid usage b debt c) l' t t' →
  debt = remaining_sum l' → segments_ok l' → (invalid = true ∨ is_rate (bk_kind b) = false → l' = segments_of (bk_id b) (x_world t)) →
  w_db (x_world t') = w_db (x_world t) →
  x_accounts t' = (if is_money b then alter (settled_account terminal invalid usage b) (booking_account b) (x_accounts t) else x_accounts t) →
  ∃ x', books lim db0 (<[h := with_bookings rest r]> P) x' t'.
Proof.
  intros Hb Hr Ho Hbs Hinv Hc Hmon Hac Hd Hsg Hl' Hdb Hacc. set (P' := <[h := with_bookings rest r]> P).
  pose proof (b_rows _ _ _ _ _ Hb) as Hrows. destruct (row_shape_rest _ _ _ (Hrows _ _ Hr) Hbs) as [Hsh Hbok].
  assert (Hsum : ∀ f, sum_open f P' = sum_open f P - f b) by (intros f; by apply (sum_open_rest f P h r b rest)).
  assert (Hcnt : cnt t (bk_id b) = Some c) by (unfold cnt; by rewrite Hc).
  destruct (b_counter _ _ _ _ _ Hb _ _ Hcnt) as [O1 [O2 O2'] O3 O4 O5].
  assert (Hret : invalid = false → 0 <= (sharedRetained b terminal usage).1 <= bk_amount b).
  { intros E. eapply sharedRetained_bounds; [done|]. auto. }
  assert (Hco : counter_ok P' (bk_id b) l' (settled_counter terminal invalid usage b debt c)).
  { assert (Ha : amount_at (bk_id b) b = bk_amount b) by (unfold amount_at; by rewrite bool_decide_true). specialize (Hsum (amount_at (bk_id b))).
    destruct Hbok as (Hb0 & _). unfold settled_counter.
    destruct invalid; [rewrite Hl' by auto; split; simpl; try done; lia|]. specialize (Hret eq_refl).
    pose proof (sharedRetained_unknown b terminal usage) as Hunk. destruct (sharedRetained b terminal usage) as [ret known] eqn:Er; simpl in Hret, Hunk.
    destruct (is_rate (bk_kind b)) eqn:Erate; [split; simpl; try done; lia|]. rewrite Hl' by auto.
    split; simpl; try done; destruct known; simpl in Hunk; try lia; specialize (Hunk eq_refl); lia. }
  assert (Hfin : ∀ x', keeps x' lim db0 ∅ (ctx_of t') →
    (∀ k', o_pend x' k' = sum_open (soft_at k') P') → (∀ k', o_pend x' k' <= o_soft x' k') →
    (∀ k', o_con x' k' + sum_open (hard_at k') P' <= o_enc x' k') → (∀ k', 0 <= o_con x' k') → books lim db0 P' x' t').
  { intros x' K1 K2 K3 K4 K5. apply (books_update lim db0 P P' x x' t t' (bk_id b) c _ l' Hb Hac Hc); try done.
    - intros k' _. rewrite Hsum. pose proof (amount_at_nonneg k' _ _ Hbok). lia.
    - intros h' r' [[<- <-]|[_ Hr']]%lookup_insert_Some; [done|by eapply Hrows].
    - assert (Hac' : ∀ k', is_Some (acct (ctx_of t) k') → is_Some (acct (ctx_of t') k')).
      { intros k'. unfold acct, ctx_of. simpl. rewrite Hacc, Hdb. destruct (is_money b); [|done].
        destruct (decide (k' = booking_account b)) as [->|Hne]; [|by rewrite lookup_alter_ne].
        rewrite lookup_alter_eq. by destruct (x_accounts t !! booking_account b). }
      intros h' r' b' Hr' Ho' Hin. apply (at_counter_covered _ _ _ _ _ _ Hac Hac').
      apply lookup_insert_Some in Hr' as [[<- <-]|[_ Hr']]; [|by apply (b_covered _ _ _ _ _ Hb h' r')].
      apply (b_covered _ _ _ _ _ Hb h r); try done. rewrite Hbs. by right. }
  assert (Hpre := b_pend _ _ _ _ _ Hb). assert (Hpre2 := b_soft _ _ _ _ _ Hb).
  assert (Hpre3 := b_enc _ _ _ _ _ Hb). assert (Hpre4 := b_con _ _ _ _ _ Hb).
  destruct (is_money b) eqn:Em.
  - destruct (Hmon eq_refl) as [a Ha]. set (ka := booking_account b) in *. set (a' := settled_account terminal invalid usage b a).
    destruct (account_holds _ _ _ _ _ _ _ Hb Ha) as (A1 & A2 & A3 & [? ?] & [? ?] & [? ?]).
    assert (Hctx : ctx_of t' = mkCTX (c_db (ctx_of t)) (<[ka := a']> (c_accounts (ctx_of t))) 0).
    { unfold ctx_of. simpl. rewrite Hdb, Hacc. f_equal. by apply alter_present. }
    pose proof (booking_part (hard_at ka) _ _ _ _ _ Hrows (λ r b, hard_at_nonneg ka r b) Hr Ho Hbs) as Hp1.
    pose proof (booking_part (soft_at ka) _ _ _ _ _ Hrows (λ r b, soft_at_nonneg ka r b) Hr Ho Hbs) as Hp2.
    assert (Hat : hard_at ka b = (if bk_hard b then bk_amount b else 0) ∧ soft_at ka b = (if bk_hard b then 0 else bk_amount b)).
    { unfold hard_at, soft_at. fold ka. rewrite Em, bool_decide_true by done. by destruct (bk_hard b). }
    destruct Hat as [Hat1 Hat2]. rewrite Hat1, Hat2 in *. pose proof Hbok as (Hb0 & _).
    assert (Hoth : ∀ k', k' ≠ ka → hard_at k' b = 0 ∧ soft_at k' b = 0).
    { intros k' Hne. unfold hard_at, soft_at. fold ka. rewrite (bool_decide_false (ka = k')) by done. by rewrite !andb_false_r. }
    assert (Hnum : (hardEncumbered a' = hardEncumbered a - (if (bk_hard b && negb invalid)%bool then bk_amount b - (sharedRetained b terminal usage).1 else 0))
      ∧ hardConsumed a' = hardConsumed a + (if (bk_hard b && negb invalid)%bool then (sharedRetained b terminal usage).1 else 0)
      ∧ softConsumed a' = softConsumed a - (if (negb (bk_hard b) && negb invalid)%bool then bk_amount b - (sharedRetained b terminal usage).1 else 0)
      ∧ softPending a' = softPending a - (if bk_hard b then 0 else bk_amount b) ∧ acceptsMeters a' = acceptsMeters a
      ∧ frozen a' = (frozen a || invalid)%bool).
    { unfold a', settled_account. destruct invalid, (bk_hard b); simpl; rewrite ?orb_true_r, ?orb_false_r; split_and!; done || lia. }
    destruct Hnum as (N1 & N2 & N3 & N4 & N5 & N6).
    exists (shift x ka a a'). apply Hfin.
    + rewrite Hctx. apply keeps_shift; try done; try by apply Hb.
      * split; rewrite N1; destruct (bk_hard b), invalid; simpl in *; try lia; specialize (Hret eq_refl); lia.
      * split; rewrite N2; destruct (bk_hard b), invalid; simpl in *; try lia; specialize (Hret eq_refl); lia.
      * split; rewrite N3; destruct (bk_hard b), invalid; simpl in *; try lia; specialize (Hret eq_refl); lia.
      * rewrite N6. by intros ->.
      * intros L HL Hs. assert (Hs' : strict a = true).
        { unfold strict in *. rewrite N5, N6 in Hs. destruct (frozen a), invalid, (acceptsMeters a); done. }
        assert (Hca : committed a <= L).
        { apply (k_fits _ _ _ _ _ (b_keeps _ _ _ _ _ Hb) ka L a HL); [|done]. unfold acct. simpl. by rewrite Ha. }
        unfold committed in *. rewrite N1, N3. destruct (bk_hard b), invalid; simpl in *; try lia; specialize (Hret eq_refl); lia.
    + intros k'. unfold shift. simpl. rewrite Hsum, Hpre. case_bool_decide as E; [subst k'; rewrite Hat2, N4; destruct (bk_hard b); lia|].
      destruct (Hoth k' E) as [_ ->]. lia.
    + intros k'. unfold shift. simpl. specialize (Hpre2 k'). case_bool_decide as E; [subst k'|lia].
      rewrite N3, N4. destruct (bk_hard b), invalid; simpl in *; try lia; specialize (Hret eq_refl); lia.
    + intros k'. unfold shift. simpl. specialize (Hpre3 k'). rewrite Hsum. case_bool_decide as E; [subst k'|destruct (Hoth k' E) as [-> _]; lia].
      rewrite Hat1, N1, N2. destruct (bk_hard b), invalid; simpl in *; lia.
    + intros k'. unfold shift. simpl. specialize (Hpre4 k'). case_bool_decide as E; [subst k'|lia].
      rewrite N2. destruct (bk_hard b), invalid; simpl in *; try lia; specialize (Hret eq_refl); lia.
  - assert (Hctx : ctx_of t' = ctx_of t) by (unfold ctx_of; by rewrite Hdb, Hacc).
    assert (Hz : ∀ k', hard_at k' b = 0 ∧ soft_at k' b = 0) by (intros k'; unfold hard_at, soft_at; by rewrite Em).
    exists x. apply Hfin; try done.
    + rewrite Hctx. by destruct Hb.
    + intros k'. rewrite Hsum, Hpre. destruct (Hz k') as [_ ->]. lia.
    + intros k'. rewrite Hsum. destruct (Hz k') as [-> _]. specialize (Hpre3 k'). lia.
Qed.

Definition alter_money (f : account → account) (b : sharedBooking) (t : STX) : STX :=
  mkSTX (x_world t) (if is_money b then alter f (booking_account b) (x_accounts t) else x_accounts t) (x_counters t).

Definition money_locked (b : sharedBooking) (t : STX) : Prop := is_money b = true → is_Some (x_accounts t !! booking_account b).

Lemma alter_money_locked f b b' t : money_locked b' t → money_locked b' (alter_money f b t).
Proof.
  intros Hl Hm. specialize (Hl Hm). simpl. destruct (is_money b); [|done].
  destruct Hl as [a Ha]. destruct (decide (booking_account b' = booking_account b)) as [E|Hne]; [|rewrite lookup_alter_ne by done; by exists a].
  rewrite <- E, lookup_alter_eq, Ha. by eexists.
Qed.

Lemma alter_money_id b t : alter_money id b t = t.
Proof.
  destruct t as [w A C]. unfold alter_money. simpl. f_equal. destruct (is_money b); [|done]. apply map_eq. intros k'.
  destruct (decide (k' = booking_account b)) as [->|Hne]; [rewrite lookup_alter_eq|by rewrite lookup_alter_ne].
  by destruct (A !! booking_account b).
Qed.

Lemma alter_money_twice f g b t : alter_money g b (alter_money f b t) = alter_money (λ a, g (f a)) b t.
Proof.
  unfold alter_money. simpl. f_equal. destruct (is_money b); [|done]. apply map_eq. intros k'.
  destruct (decide (k' = booking_account b)) as [->|Hne]; [rewrite !lookup_alter_eq|by rewrite !lookup_alter_ne].
  by destruct (x_accounts t !! booking_account b).
Qed.

(** What [is_money] makes of a step on the booking's account. *)
Lemma alter_money_put f b t a :
  is_money b = true → x_accounts t !! booking_account b = Some a →
  stx_put_account (booking_account b) (f a) t = (Ok tt, alter_money f b t).
Proof. intros Hm Ha. rewrite stx_put_account_eq. unfold alter_money. rewrite Hm. by rewrite (alter_present _ _ _ _ Ha). Qed.

Lemma clear_pending_spec b t :
  money_locked b t → (∀ a, x_accounts t !! booking_account b = Some a → is_money b = true → bk_hard b = false → bk_amount b <= softPending a) →
  clear_pending b t = (Ok tt, alter_money (if bk_hard b then id else without_pending (bk_amount b)) b t).
Proof.
  intros Hl Hp. unfold clear_pending, mbind, ste_mbind. fold (is_money b). destruct (is_money b) eqn:Em; cbn [andb].
  - destruct (Hl Em) as [a Ha]. destruct (bk_hard b) eqn:Eh; cbn [negb]; [by rewrite alter_money_id|].
    rewrite (stx_account_eq _ _ _ Ha). unfold refuse. specialize (Hp a Ha eq_refl eq_refl).
    replace (softPending a <? bk_amount b) with false by lia. by apply alter_money_put.
  - unfold alter_money. rewrite Em. by destruct t.
Qed.

Lemma freeze_booking_spec b t c :
  money_locked b t → x_counters t !! bk_id b = Some c →
  freeze_booking b t = (Ok tt, alter_money freeze_account b (mkSTX (x_world t) (x_accounts t) (<[bk_id b := freeze_counter c]> (x_counters t)))).
Proof.
  intros Hl Hc. unfold freeze_booking, stx_put_counter, mbind, ste_mbind. rewrite (stx_counter_eq _ _ _ Hc). cbn beta iota zeta.
  destruct (bool_decide (bk_moneyKey b = "")) eqn:Em.
  - unfold alter_money, is_money. by rewrite Em.
  - assert (Hm : is_money b = true) by (unfold is_money; by rewrite Em). destruct (Hl Hm) as [a Ha].
    rewrite (stx_account_eq (booking_account b) (mkSTX _ _ _) a Ha). by apply alter_money_put.
Qed.

Lemma settle_money_spec b t retained refund :
  is_money b = true → money_locked b t →
  (∀ a, x_accounts t !! booking_account b = Some a →
     if bk_hard b then refund <= hardEncumbered a ∧ 0 <= hardConsumed a ∧ hardConsumed a + retained <= MaxInt64 ∧ 0 <= retained
     else refund <= softConsumed a) →
  settle_money b retained refund t
  = (Ok tt, alter_money (λ a, if bk_hard b
       then mkAccount (hardEncumbered a - refund) (hardConsumed a + retained) (softConsumed a) (softPending a) (acceptsMeters a) (frozen a)
       else mkAccount (hardEncumbered a) (hardConsumed a) (softConsumed a - refund) (softPending a) (acceptsMeters a) (frozen a)) b t).
Proof.
  intros Hm Hl Hok. destruct (Hl Hm) as [a Ha]. specialize (Hok a Ha). unfold settle_money, mbind, ste_mbind. rewrite (stx_account_eq _ _ _ Ha).
  destruct (bk_hard b) eqn:Eh; unfold refuse.
  - replace (hardEncumbered a <? refund) with false by lia. unfold sharedError, stx_lift, checkedAdd.
    rewrite wrap64_id by int_lia. replace (_ || _)%bool with false by lia. rewrite wrap64_id by int_lia.
    erewrite <- alter_money_put by done. simpl. done.
  - replace (softConsumed a <? refund) with false by lia. erewrite <- alter_money_put by done. simpl. done.
Qed.

(** What a settled booking's counter needs. *)
Record settles (b : sharedBooking) (retained : Z) (c : sharedCounter) (l : list segment) : Prop := {
  se_retained : 0 <= retained <= bk_amount b;
  se_reserved : bk_amount b <= sc_reserved c <= sc_used c;
  se_debt : sc_debt c = remaining_sum l;
  se_segments : segments_ok l }.

(** The money of an open booking fits its account. *)
Definition money_fits (b : sharedBooking) (a : account) : Prop :=
  if bk_hard b then bk_amount b <= hardEncumbered a - hardConsumed a ∧ nat63 (hardEncumbered a) ∧ nat63 (hardConsumed a)
  else bk_amount b <= softPending a <= softConsumed a.

Lemma with_debt_usage u r d c : with_usage u r (with_debt d c) = mkCounter u r (sc_rate c) d (sc_refilled c) (sc_updated c) (sc_frozen c).
Proof. done. Qed.

Lemma settleSharedBooking_spec h b retained known t c :
  x_counters t !! bk_id b = Some c → settles b retained c (segments_of (bk_id b) (x_world t)) → money_locked b t →
  (is_rate (bk_kind b) = true → bk_moneyKey b = "") →
  (∀ a, x_accounts t !! booking_account b = Some a → is_money b = true →
     if bk_hard b then bk_amount b - retained <= hardEncumbered a ∧ 0 <= hardConsumed a ∧ hardConsumed a + retained <= MaxInt64
     else bk_amount b - retained <= softConsumed a) →
  let l' := if is_rate (bk_kind b) then refunded h (bk_amount b - retained) known (segments_of (bk_id b) (x_world t)) else segments_of (bk_id b) (x_world t) in
  ∃ t', settleSharedBooking h b retained known t = (Ok tt, t')
    ∧ at_counter (bk_id b)
        (if is_rate (bk_kind b) then with_usage (sc_used c - bk_amount b) (sc_reserved c - bk_amount b) (with_debt (remaining_sum l') c)
         else with_usage (sc_used c - (bk_amount b - retained)) (if known then sc_reserved c - bk_amount b else sc_reserved c) c) l' t t'
    ∧ segments_ok l'
    ∧ w_db (x_world t') = w_db (x_world t) ∧ w_permits (x_world t') = w_permits (x_world t)
    ∧ x_accounts t' = x_accounts (alter_money (λ a, if bk_hard b
       then mkAccount (hardEncumbered a - (bk_amount b - retained)) (hardConsumed a + retained) (softConsumed a) (softPending a) (acceptsMeters a) (frozen a)
       else mkAccount (hardEncumbered a) (hardConsumed a) (softConsumed a - (bk_amount b - retained)) (softPending a) (acceptsMeters a) (frozen a)) b t).
Proof.
  intros Hc [[R1 R2] [V1 V2] D Hsg] Hl Hrm Hfit l'. unfold l'; clear l'. unfold settleSharedBooking. unfold mbind at 1, ste_mbind at 1. rewrite (stx_counter_eq _ _ _ Hc).
  unfold refuse. replace (_ || _)%bool with false by lia. destruct (is_rate (bk_kind b)) eqn:Er.
  - destruct (returnSharedRate_spec t b c h (bk_amount b - retained) known Hc D Hsg ltac:(lia)) as (t1 & Hret & Hac & Hsg' & Hdb & Hacc & Hpm).
    set (l' := refunded _ _ _ _) in *. assert (Hc1 : x_counters t1 !! bk_id b = Some (with_debt (remaining_sum l') c)) by (by rewrite (ac_locked _ _ _ _ _ Hac), lookup_insert_eq).
    unfold mbind, ste_mbind. rewrite Hret. cbn beta iota zeta. rewrite (stx_counter_eq _ _ _ Hc1). cbn beta iota zeta.
    unfold stx_put_counter. rewrite (Hrm eq_refl). cbn beta iota zeta. rewrite bool_decide_true by done.
    eexists _. split; [reflexivity|]. split_and!; try done.
    + eapply at_counter_trans; [exact Hac|]. apply at_counter_put. rewrite (ac_segments _ _ _ _ _ Hac). by rewrite bool_decide_true.
    + unfold alter_money, is_money. rewrite (Hrm eq_refl). done.
  - unfold mbind, ste_mbind, stx_put_counter. cbn beta iota zeta. set (c' := with_usage _ _ c).
    set (t1 := mkSTX (x_world t) (x_accounts t) (<[bk_id b := c']> (x_counters t))).
    assert (Hac : at_counter (bk_id b) c' (segments_of (bk_id b) (x_world t)) t t1) by by apply at_counter_put.
    destruct (bool_decide (bk_moneyKey b = "")) eqn:Em.
    + eexists _. split; [reflexivity|]. split_and!; try done. unfold alter_money, is_money. by rewrite Em.
    + assert (Hm : is_money b = true) by (unfold is_money; by rewrite Em).
      rewrite (settle_money_spec b t1); [|done|done|].
      * eexists _. split; [reflexivity|]. split_and!; try done. by destruct Hac.
      * intros a Ha. specialize (Hfit a Ha Hm). destruct (bk_hard b); [|done]. destruct Hfit as (? & ? & ?). split_and!; lia.
Qed.

(** A booking of an open permit always settles. *)
Lemma settle_one_spec lim db0 P x t h r b rest c terminal invalid usage :
  books lim db0 P x t → P !! h = Some r → is_open r = true → pm_bookings r = b :: rest →
  (invalid = false → invalid_usage usage r = false) → x_counters t !! bk_id b = Some c → money_locked b t →
  let l := segments_of (bk_id b) (x_world t) in let l' := settled_segments h terminal invalid usage b l in
  ∃ t', settle_one h terminal invalid usage b t = (Ok tt, t')
    ∧ at_counter (bk_id b) (settled_counter terminal invalid usage b (remaining_sum l') c) l' t t' ∧ segments_ok l'
    ∧ remaining_sum l' = sc_debt c - released h terminal invalid usage b l
    ∧ w_db (x_world t') = w_db (x_world t) ∧ w_permits (x_world t') = w_permits (x_world t)
    ∧ x_accounts t' = x_accounts (alter_money (settled_account terminal invalid usage b) b t).
Proof.
  intros Hb Hr Ho Hbs Hinv Hc Hmon l l'. pose proof (b_rows _ _ _ _ _ Hb) as Hrows. destruct (row_shape_rest _ _ _ (Hrows _ _ Hr) Hbs) as [_ Hbok].
  assert (Hcnt : cnt t (bk_id b) = Some c) by (unfold cnt; by rewrite Hc).
  destruct (b_counter _ _ _ _ _ Hb _ _ Hcnt) as [O1 [O2 O2'] O3 O4 O5]. destruct (b_segments _ _ _ _ _ Hb (bk_id b)) as [Hsg _].
  pose proof (booking_part (amount_at (bk_id b)) _ _ _ _ _ Hrows (λ r b', amount_at_nonneg _ r b') Hr Ho Hbs) as Hpart.
  unfold amount_at at 1 in Hpart. rewrite bool_decide_true in Hpart by done.
  assert (Hfit : ∀ a, x_accounts t !! booking_account b = Some a → is_money b = true → money_fits b a).
  { intros a Ha Hm. destruct (account_holds _ _ _ _ _ _ _ Hb Ha) as (A1 & A2 & A3 & A4 & A5 & A6).
    pose proof (booking_part (hard_at (booking_account b)) _ _ _ _ _ Hrows (λ r b, hard_at_nonneg _ r b) Hr Ho Hbs) as Hp1.
    pose proof (booking_part (soft_at (booking_account b)) _ _ _ _ _ Hrows (λ r b, soft_at_nonneg _ r b) Hr Ho Hbs) as Hp2.
    unfold hard_at at 1 in Hp1. unfold soft_at at 1 in Hp2. rewrite Hm, bool_decide_true in Hp1, Hp2 by done.
    unfold money_fits. destruct (bk_hard b); simpl in Hp1, Hp2; [split_and!; try done; lia|lia]. }
  set (f1 := if bk_hard b then id else without_pending (bk_amount b)).
  assert (Hclear : clear_pending b t = (Ok tt, alter_money f1 b t)).
  { apply clear_pending_spec; [done|]. intros a Ha Hm Hh. specialize (Hfit a Ha Hm). unfold money_fits in Hfit. rewrite Hh in Hfit. lia. }
  unfold settle_one, mbind, ste_mbind. rewrite Hclear. cbn beta iota zeta. set (t1 := alter_money f1 b t).
  assert (Hmon1 : money_locked b t1) by by apply alter_money_locked.
  destruct invalid.
  - rewrite (freeze_booking_spec b t1 c Hmon1 Hc). eexists. split; [reflexivity|].
    split; [split; [done|done|intros k'; by case_bool_decide; [subst k'|]]|]. split_and!; try done; [unfold l', settled_segments, released; simpl; fold l in O3; lia|]. simpl. unfold settled_account, f1, without_pending, freeze_account.
    destruct (is_money b); [|done].
    apply map_eq. intros k'. destruct (decide (k' = booking_account b)) as [->|Hne]; [rewrite !lookup_alter_eq|by rewrite !lookup_alter_ne].
    destruct (x_accounts t !! booking_account b); simpl; [|done]. by destruct (bk_hard b).
  - specialize (Hinv eq_refl). pose proof (sharedRetained_bounds _ terminal _ _ Hbok Hinv) as Hret. unfold settled_counter, settled_account, l', settled_segments, released. cbn [orb].
    destruct (sharedRetained b terminal usage) as [ret known] eqn:Eret. simpl in Hret.
    destruct (settleSharedBooking_spec h b ret known t1 c Hc) as (t' & Hrun & Hac & Hsg' & Hdb & Hpm & Hacc).
    + split; try done; lia.
    + done.
    + by destruct Hbok as (_ & _ & _ & ?).
    + intros a. unfold t1, alter_money. simpl. intros Ha Hm. rewrite Hm, lookup_alter_eq in Ha. apply fmap_Some in Ha as (a0 & Ha0 & ->).
      specialize (Hfit a0 Ha0 Hm). unfold f1, money_fits, nat63 in *. destruct (bk_hard b); simpl; lia.
    + exists t'. split; [exact Hrun|]. cbn [fst snd]. change (segments_of (bk_id b) (x_world t1)) with l in Hac, Hsg'.
      assert (0 <= bk_amount b - ret) as Hrf by lia. destruct (refunded_spec h (bk_amount b - ret) known l Hsg Hrf) as (_ & HL & _).
      destruct (is_rate (bk_kind b)); cbn [negb] in *; (split; [by destruct Hac|]; split_and!; try done; [fold l in O3; lia|]).
      all: rewrite Hacc; unfold t1; rewrite alter_money_twice; unfold f1, without_pending, alter_money; simpl; destruct (is_money b); [|done].
      all: apply map_eq; intros k'; destruct (decide (k' = booking_account b)) as [->|Hne]; [rewrite !lookup_alter_eq|by rewrite !lookup_alter_ne].
      all: destruct (x_accounts t !! booking_account b); simpl; [|done]; by destruct (bk_hard b).
Qed.

(** ** The loop of [sharedTerminal] *)

(** The accounts a transaction holds fit their columns. *)
Definition bounded (t : STX) : Prop := ∀ k a, x_accounts t !! k = Some a → committed a <= MaxInt64.

(** The counter and the account of each booking are locked. *)
Definition locked (t : STX) (bs : list sharedBooking) : Prop :=
  ∀ b, b ∈ bs → is_Some (x_counters t !! bk_id b) ∧ money_locked b t.

Lemma settled_committed terminal invalid usage b a :
  (invalid = false → 0 <= (sharedRetained b terminal usage).1 <= bk_amount b) → 0 <= bk_amount b →
  committed (settled_account terminal invalid usage b a) <= committed a.
Proof.
  intros Hr Hb. unfold settled_account, committed. destruct invalid; simpl; [lia|]. specialize (Hr eq_refl).
  destruct (bk_hard b); simpl; lia.
Qed.

(** What settling bookings in turn makes of an account. *)
Definition account_after (terminal : string) (invalid : bool) (usage : SharedSettlement) (bs : list sharedBooking) (k : accountKey) (a : account) : account :=
  foldl (λ a b, if (is_money b && bool_decide (booking_account b = k))%bool then settled_account terminal invalid usage b a else a) a bs.

(** What the counter and the segments of a booking become. *)
Definition booked_back (h terminal : string) (invalid : bool) (usage : SharedSettlement) (b : sharedBooking)
    (c c' : option sharedCounter) (l l' : list segment) : Prop :=
  ∃ c0, c = Some c0 ∧ c' = Some (settled_counter terminal invalid usage b (sc_debt c0 - released h terminal invalid usage b l) c0)
    ∧ l' = settled_segments h terminal invalid usage b l.

Lemma settle_all lim db0 P h r terminal invalid usage :
  (invalid = false → invalid_usage usage r = false) → is_open r = true →
  ∀ bs x t, books lim db0 (<[h := with_bookings bs r]> P) x t → locked t bs → bounded t →
  ∃ t' x', stx_each bs (settle_one h terminal invalid usage) t = (Ok tt, t')
    ∧ books lim db0 (<[h := with_bookings [] r]> P) x' t' ∧ bounded t'
    ∧ w_db (x_world t') = w_db (x_world t) ∧ w_permits (x_world t') = w_permits (x_world t)
    ∧ w_counters (x_world t') = w_counters (x_world t)
    ∧ (∀ k, k ∉ map bk_id bs → x_counters t' !! k = x_counters t !! k ∧ segments_of k (x_world t') = segments_of k (x_world t))
    ∧ (∀ b, b ∈ bs → booked_back h terminal invalid usage b (x_counters t !! bk_id b) (x_counters t' !! bk_id b)
                       (segments_of (bk_id b) (x_world t)) (segments_of (bk_id b) (x_world t')))
    ∧ ∀ k, x_accounts t' !! k = account_after terminal invalid usage bs k <$> x_accounts t !! k.
Proof.
  intros Hinv Ho bs. induction bs as [|b bs IH]; intros x t Hb Hl Hbd; simpl.
  { exists t, x. split_and!; try done; [by intros b ?%not_elem_of_nil|]. intros k. by destruct (x_accounts t !! k). }
  set (P1 := <[h := with_bookings (b :: bs) r]> P) in *. set (r1 := with_bookings (b :: bs) r) in *.
  assert (Hr1 : P1 !! h = Some r1) by apply lookup_insert_eq.
  destruct (Hl b ltac:(by left)) as [[c Hc] Hm].
  destruct (settle_one_spec lim db0 P1 x t h r1 b bs c terminal invalid usage Hb Hr1 Ho eq_refl Hinv Hc Hm)
    as (t1 & Hrun & Hac & Hsg & Hd & Hdb & Hpm & Hacc).
  set (l1 := settled_segments _ _ _ _ _ _) in *.
  assert (Hsame : invalid = true ∨ is_rate (bk_kind b) = false → l1 = segments_of (bk_id b) (x_world t)).
  { unfold l1, settled_segments. by intros [->| ->]; rewrite ?orb_true_r. }
  destruct (settled_books lim db0 P1 x t t1 h r1 b bs c l1 (remaining_sum l1) terminal invalid usage Hb Hr1 Ho eq_refl Hinv Hc Hm Hac eq_refl Hsg Hsame Hdb Hacc) as [x1 Hb1].
  unfold P1, r1 in Hb1. rewrite insert_insert_eq in Hb1. change (with_bookings bs (with_bookings (b :: bs) r)) with (with_bookings bs r) in Hb1.
  destruct (row_shape_rest r1 b bs (b_rows _ _ _ _ _ Hb _ _ Hr1) eq_refl) as [_ Hbok].
  assert (Hl1 : locked t1 bs).
  { intros b' Hin. destruct (Hl b' ltac:(by right)) as [Hs Hm']. split.
    - rewrite (ac_locked _ _ _ _ _ Hac). destruct (decide (bk_id b' = bk_id b)) as [->|]; [rewrite lookup_insert_eq; by eexists|by rewrite lookup_insert_ne].
    - intros Hmb. rewrite Hacc. by apply (alter_money_locked _ _ _ _ Hm'). }
  assert (Hbd1 : bounded t1).
  { intros k a. rewrite Hacc. simpl. destruct (is_money b); [|apply Hbd]. intros Ha.
    destruct (decide (k = booking_account b)) as [->|Hne]; [|rewrite lookup_alter_ne in Ha by done; by apply (Hbd k)].
    rewrite lookup_alter_eq in Ha. apply fmap_Some in Ha as (a0 & Ha0 & ->). specialize (Hbd _ _ Ha0). pose proof Hbok as (Hb0 & _).
    pose proof (settled_committed terminal invalid usage b a0) as Hs. enough (committed (settled_account terminal invalid usage b a0) <= committed a0) by lia.
    apply Hs; [|done]. intros Ei. eapply (sharedRetained_bounds _ _ _ r1); [done|]. by apply Hinv. }
  destruct (IH x1 t1 Hb1 Hl1 Hbd1) as (t2 & x2 & Hrun2 & Hb2 & Hbd2 & Hdb2 & Hpm2 & Hct2 & Hoth2 & Hset2 & Hacc2).
  assert (Hni : bk_id b ∉ map bk_id bs) by (pose proof (rs_ids _ (b_rows _ _ _ _ _ Hb _ _ Hr1)) as Hn; by apply NoDup_cons in Hn as [? _]).
  exists t2, x2. unfold mbind, ste_mbind. rewrite Hrun. split_and!; try done; try congruence.
  - by rewrite Hct2, (ac_table _ _ _ _ _ Hac).
  - intros k Hk. rewrite elem_of_cons in Hk. destruct (Hoth2 k) as [-> ->]; [naive_solver|].
    rewrite (ac_locked _ _ _ _ _ Hac), (ac_segments _ _ _ _ _ Hac), bool_decide_false, lookup_insert_ne by naive_solver. done.
  - intros b' [->|Hin]%elem_of_cons.
    + destruct (Hoth2 (bk_id b) Hni) as [-> ->]. exists c. split; [done|]. rewrite (ac_locked _ _ _ _ _ Hac), lookup_insert_eq.
      rewrite (ac_segments _ _ _ _ _ Hac), bool_decide_true by done. by rewrite <- Hd.
    + assert (bk_id b' ≠ bk_id b) as Hne by (intros E; apply Hni; rewrite <- E; by apply list_elem_of_In, in_map, list_elem_of_In).
      specialize (Hset2 _ Hin). by rewrite (ac_locked _ _ _ _ _ Hac), lookup_insert_ne, (ac_segments _ _ _ _ _ Hac), bool_decide_false in Hset2.
  - intros k. rewrite Hacc2, Hacc. unfold account_after. simpl. destruct (is_money b); cbn [andb]; [|done].
    case_bool_decide as Ek; [subst k; rewrite lookup_alter_eq; by destruct (x_accounts t !! _)|by rewrite lookup_alter_ne].
Qed.
