(* ===== verification/SharedSettle.v ===== *)
(** * Shared admission: commits and settlements (shared_finish.go, shared_constraints.go)

    A transaction whose books balance passes every check of the commit, and
    leaves tables whose books balance; so the settlement of an open permit
    always lands. *)

From S2P Require Import Prelude GoTime V1Alpha1 Policy Tier Denial Governor Escrow EscrowSafety EscrowSettle Central CentralSafety CentralTheorems Shared SharedSafety.

#[local] Abbreviation hoare := (Prelude.hoare (S := STX) (E := AdmissionError)).

(** ** Locks that only read *)

(** Accounts of windows that exist, none of them of a current budget. *)
Lemma lock_existing l t :
  NoDup l → (∀ k, k ∈ l → is_Some (Accounts (c_db t) !! k)) →
  ∃ t', ctx_each l (lock_account ∅) t = (Ok tt, t') ∧ c_db t' = c_db t
    ∧ ∀ k, c_accounts t' !! k = if bool_decide (k ∈ l) then Accounts (c_db t) !! k else c_accounts t !! k.
Proof.
  revert t. induction l as [|k l IH]; intros t Hnd Hs; simpl.
  { by exists t. }
  apply NoDup_cons in Hnd as [Hni Hnd]. destruct (Hs k ltac:(by left)) as [a Ha].
  set (t1 := mkCTX (c_db t) (<[k := a]> (c_accounts t)) (c_ids t)).
  assert (H1 : lock_account ∅ k t = (Ok tt, t1)).
  { unfold lock_account, ctx_get, put_account, mbind, ste_mbind. rewrite lookup_empty. simpl. rewrite Ha. done. }
  destruct (IH t1 Hnd ltac:(intros k' Hk'; apply Hs; by right)) as (t' & Hrun & Hdb & Hacc).
  exists t'. unfold mbind, ste_mbind. rewrite H1. split_and!; try done. intros k'. rewrite Hacc. simpl.
  destruct (decide (k' = k)) as [->|Hne].
  - rewrite (bool_decide_false (k ∈ l)), (bool_decide_true (k ∈ k :: l)) by (done || by left). by rewrite lookup_insert_eq.
  - rewrite lookup_insert_ne by done. rewrite (bool_decide_ext (k' ∈ k :: l) (k' ∈ l)); [done|]. rewrite elem_of_cons. naive_solver.
Qed.

Lemma lookup_wanted (l : list accountKey) k :
  is_Some ((list_to_map (map (λ k, (k, tt)) l) : gmap accountKey unit) !! k) ↔ k ∈ l.
Proof.
  induction l as [|k0 l IH]; simpl.
  - rewrite lookup_empty. split; [by intros []|by intros ?%not_elem_of_nil].
  - rewrite elem_of_cons, <- IH. destruct (decide (k = k0)) as [->|Hne].
    + rewrite lookup_insert_eq. split; [by left|by eexists].
    + rewrite lookup_insert_ne by done. naive_solver.
Qed.

Lemma lock_no_budgets chash req t :
  rq_Reports req = [] →
  lockAccounts chash "" req [] t
  = ctx_each (orderedKeys (list_to_map (map (λ k, (k, tt)) (map (λ m, (am_Key m, am_WindowID m)) (rq_Meters req))) : gmap accountKey unit))
      (lock_account ∅) t.
Proof. intros Hr. unfold lockAccounts. rewrite Hr. done. Qed.

Lemma lock_bookings chash bs w :
  (∀ b, b ∈ bs → is_money b = true → is_Some (Accounts (w_db w) !! booking_account b)) →
  ∃ accts, on_accounts (lockAccounts chash "" (booking_refs bs) []) (mkSTX w ∅ ∅) = (Ok tt, mkSTX w accts ∅)
    ∧ (∀ b, b ∈ bs → is_money b = true → is_Some (accts !! booking_account b))
    ∧ ∀ k a, accts !! k = Some a → Accounts (w_db w) !! k = Some a.
Proof.
  intros Hs. set (wanted := map booking_account (List.filter is_money bs)).
  set (m := list_to_map (map (λ k, (k, tt)) wanted) : gmap accountKey unit).
  assert (Hw : ∀ k, k ∈ orderedKeys m ↔ k ∈ wanted).
  { intros k. rewrite elem_of_orderedKeys. apply lookup_wanted. }
  assert (Hin : ∀ k, k ∈ wanted ↔ ∃ b, b ∈ bs ∧ is_money b = true ∧ booking_account b = k).
  { intros k. unfold wanted. rewrite list_elem_of_In, in_map_iff. setoid_rewrite filter_In. setoid_rewrite list_elem_of_In. naive_solver. }
  destruct (lock_existing (orderedKeys m) (mkCTX (w_db w) ∅ 0)) as (t' & Hrun & Hdb & Hacc).
  { apply orderedKeys_NoDup. }
  { intros k Hk%Hw. apply Hin in Hk as (b & Hb & Hm & <-). by apply Hs. }
  exists (c_accounts t'). split_and!.
  - assert (Hrefs : map (λ m, (am_Key m, am_WindowID m)) (rq_Meters (booking_refs bs)) = wanted).
    { unfold wanted, booking_refs. simpl. rewrite map_map. apply map_ext. by intros []. }
    unfold on_accounts. rewrite lock_no_budgets by done. rewrite Hrefs. cbn [x_world x_accounts x_counters].
    unfold m in Hrun. rewrite Hrun, Hdb. by destruct w.
  - intros b Hb Hm. rewrite Hacc. rewrite bool_decide_true by (apply Hw, Hin; by exists b). by apply Hs.
  - intros k a. rewrite Hacc. case_bool_decide; [done|]. simpl. by rewrite lookup_empty.
Qed.

Lemma stx_lock_existing defs now t :
  (∀ d, d ∈ defs → is_Some (w_counters (x_world t) !! d_id d)) →
  ∃ t', stx_each defs (lock_counter false now) t = (Ok tt, t') ∧ x_world t' = x_world t ∧ x_accounts t' = x_accounts t
    ∧ (∀ d, d ∈ defs → is_Some (x_counters t' !! d_id d))
    ∧ (∀ k, is_Some (x_counters t !! k) → is_Some (x_counters t' !! k))
    ∧ ∀ k c, x_counters t' !! k = Some c → x_counters t !! k = Some c ∨ w_counters (x_world t) !! k = Some c.
Proof.
  revert t. induction defs as [|d defs IH]; intros t Hs; simpl.
  { exists t. split_and!; try done; [by intros d ?%not_elem_of_nil|auto]. }
  destruct (Hs d ltac:(by left)) as [c Hc]. set (t1 := mkSTX (x_world t) (x_accounts t) (<[d_id d := c]> (x_counters t))).
  assert (H1 : lock_counter false now d t = (Ok tt, t1)).
  { unfold lock_counter, stx_get, stx_put_counter, mbind, ste_mbind. simpl. by rewrite Hc. }
  destruct (IH t1 ltac:(intros d' Hd'; apply Hs; by right)) as (t' & Hrun & Hw & Ha & Hd & Hm & Hback).
  assert (Hk1 : ∀ k, is_Some (x_counters t !! k) ∨ k = d_id d → is_Some (x_counters t1 !! k)).
  { intros k Hk. simpl. destruct (decide (k = d_id d)) as [->|]; [rewrite lookup_insert_eq; by eexists|rewrite lookup_insert_ne by done]. naive_solver. }
  exists t'. unfold mbind, ste_mbind. rewrite H1. split_and!; try done.
  - intros d' [->|Hin]%elem_of_cons; [|by apply Hd]. apply Hm, Hk1. by right.
  - intros k Hk. apply Hm, Hk1. by left.
  - intros k c' Hc'. destruct (Hback _ _ Hc') as [Hx|]; [|by right]. simpl in Hx.
    apply lookup_insert_Some in Hx as [[<- <-]|[_ ?]]; [by right|by left].
Qed.

Lemma wanted_counters_lookup defs k d : wanted_counters defs !! k = Some d → d ∈ defs ∧ d_id d = k.
Proof. intros [?|He]%(fold_insert_lookup d_id); [done|by rewrite lookup_empty in He]. Qed.

Lemma wanted_counters_some defs d : d ∈ defs → is_Some (wanted_counters defs !! d_id d).
Proof. apply (fold_insert_some d_id). Qed.

(** The definitions that are locked, in order. *)
Definition lock_list (defs : list sharedDefinition) : list sharedDefinition :=
  omap (λ k, wanted_counters defs !! k) (orderedKeys (wanted_counters defs)).

Lemma elem_of_lock_list defs d : d ∈ lock_list defs ↔ wanted_counters defs !! d_id d = Some d.
Proof.
  unfold lock_list. rewrite list_elem_of_omap. split.
  - intros (k & _ & Hk). by destruct (wanted_counters_lookup _ _ _ Hk) as [_ <-].
  - intros Hd. exists (d_id d). split; [|done]. apply elem_of_orderedKeys. by eexists.
Qed.

Lemma lock_list_ids defs : map d_id (lock_list defs) = orderedKeys (wanted_counters defs).
Proof.
  unfold lock_list. assert (Hall : ∀ k, k ∈ orderedKeys (wanted_counters defs) → ∃ d, wanted_counters defs !! k = Some d ∧ d_id d = k).
  { intros k [d Hd]%elem_of_orderedKeys. exists d. split; [done|]. by apply wanted_counters_lookup in Hd as [_ ?]. }
  induction (orderedKeys (wanted_counters defs)) as [|k l IH]; simpl; [done|].
  destruct (Hall k ltac:(by left)) as (d & Hd & Hid). rewrite Hd. simpl. rewrite Hid. f_equal. apply IH. intros k' Hk'. apply Hall. by right.
Qed.


(** ** What a transaction sees *)

(** The books depend on what the transaction sees. *)
Lemma books_view lim db0 db0' P x t t' :
  books lim db0 P x t → keeps x lim db0' ∅ (ctx_of t') →
  (∀ k, is_Some (acct (ctx_of t) k) → is_Some (acct (ctx_of t') k)) → (∀ k, cnt t' k = cnt t k) →
  w_segments (x_world t') = w_segments (x_world t) →
  (∀ k, is_Some (x_counters t' !! k) → is_Some (w_counters (x_world t') !! k)) → books lim db0' P x t'.
Proof.
  intros Hb Hk Ha Hc Hs Hl.
  assert (Hseg : ∀ k, segments_of k (x_world t') = segments_of k (x_world t)) by (intros k; unfold segments_of; by rewrite Hs).
  split; try done; try by destruct Hb.
  - intros k c. rewrite Hc, Hseg. apply (b_counter _ _ _ _ _ Hb).
  - intros k. rewrite Hc, Hseg. apply (b_segments _ _ _ _ _ Hb).
  - intros h r b Hr Ho Hin. destruct (b_covered _ _ _ _ _ Hb h r b Hr Ho Hin) as [H1 H2]. split; [by rewrite Hc|auto].
Qed.

(** A row closes with nothing left to settle. *)
Lemma books_close lim db0 P x t h r r' :
  books lim db0 (<[h := with_bookings [] r]> P) x t → is_open r = true → is_open r' = false → row_shape r' →
  books lim db0 (<[h := r']> P) x t.
Proof.
  intros Hb Ho Hc Hsh.
  assert (Hsum : ∀ f, sum_open f (<[h := r']> P) = sum_open f (<[h := with_bookings [] r]> P)).
  { intros f. rewrite <- (insert_insert_eq P h r' (with_bookings [] r)). set (P1 := <[h := with_bookings [] r]> P).
    assert (H1 : P1 !! h = Some (with_bookings [] r)) by apply lookup_insert_eq. unfold sum_open, sum_if.
    rewrite (sum_map_update _ _ _ _ _ H1). rewrite Hc. change (is_open (with_bookings [] r)) with (is_open r). rewrite Ho. simpl. lia. }
  split; try by destruct Hb.
  - intros k. rewrite Hsum. apply (b_pend _ _ _ _ _ Hb).
  - intros k. rewrite Hsum. apply (b_enc _ _ _ _ _ Hb).
  - intros k c Hk. destruct (b_counter _ _ _ _ _ Hb k c Hk). split; try done. by rewrite Hsum.
  - intros h' r0 [[<- <-]|[Hne Hr]]%lookup_insert_Some; [done|]. apply (b_rows _ _ _ _ _ Hb h'). by rewrite lookup_insert_ne.
  - intros h' r0 b [[<- <-]|[Hne Hr]]%lookup_insert_Some; [by rewrite Hc|]. intros Ho' Hin.
    apply (b_covered _ _ _ _ _ Hb h' r0); try done. by rewrite lookup_insert_ne.
Qed.

(** ** Commits *)

Lemma persist_account_total k t a :
  c_accounts t !! k = Some a → table_row_ok a → nat63 (hardEncumbered a) → nat63 (softConsumed a) →
  ∃ t', persist_account k t = (Ok tt, t') ∧ c_accounts t' = c_accounts t.
Proof.
  intros Ha [H1 H2] [? ?] [? ?]. unfold persist_account, get_account, ctx_lift, ctx_db, mbind, ste_mbind.
  rewrite Ha. cbn beta iota zeta delta [from_option]. unfold checkedAdd. rewrite wrap64_id by int_lia.
  replace (_ || _)%bool with false by lia. cbn beta iota zeta.
  replace ((softPending a <? 0) || (softConsumed a <? softPending a))%bool with false by lia.
  eexists. by split.
Qed.

Lemma persist_total l t :
  (∀ k, k ∈ l → ∃ a, c_accounts t !! k = Some a ∧ table_row_ok a ∧ nat63 (hardEncumbered a) ∧ nat63 (softConsumed a)) →
  ∃ t', ctx_each l persist_account t = (Ok tt, t').
Proof.
  revert t. induction l as [|k l IH]; intros t Hall; simpl; [by eexists|].
  destruct (Hall k ltac:(by left)) as (a & Ha & H1 & H2 & H3). destruct (persist_account_total k t a Ha H1 H2 H3) as (t1 & Hrun & Hsame).
  unfold mbind, ste_mbind. rewrite Hrun. apply IH. intros k' Hk'. rewrite Hsame. apply Hall. by right.
Qed.

(** What the statements on the counters leave. *)
Lemma persist_counters_spec l t t' :
  (∀ k, k ∈ l → is_Some (w_counters (x_world t) !! k)) →
  stx_each l persist_counter t = (Ok tt, t') →
  x_counters t' = x_counters t ∧ x_accounts t' = x_accounts t ∧ w_db (x_world t') = w_db (x_world t)
  ∧ w_permits (x_world t') = w_permits (x_world t) ∧ w_segments (x_world t') = w_segments (x_world t)
  ∧ ∀ k, w_counters (x_world t') !! k = if bool_decide (k ∈ l) then x_counters t !! k else w_counters (x_world t) !! k.
Proof.
  revert t. induction l as [|k l IH]; intros t Hl; simpl; [by intros [= <-]|].
  unfold mbind, ste_mbind. unfold persist_counter at 1, stx_counter, mbind, ste_mbind.
  destruct (x_counters t !! k) as [c|] eqn:Ec; [|done]. cbn beta iota zeta delta [from_option]. unfold refuse.
  destruct (negb _); [done|]. unfold stx_world. set (t1 := mkSTX _ _ _). intros Hrun.
  assert (Hat : ∀ k', w_counters (x_world t1) !! k' = if bool_decide (k' = k) then Some c else w_counters (x_world t) !! k').
  { intros k'. destruct (Hl k ltac:(by left)) as [c0 Hc0]. simpl. case_bool_decide; [subst k'; by rewrite lookup_alter_eq, Hc0|by rewrite lookup_alter_ne]. }
  destruct (IH t1) as (E1 & E2 & E3 & E4 & E5 & E6); [|done|].
  { intros k' Hk'. rewrite Hat. case_bool_decide; [by eexists|]. apply Hl. by right. }
  split_and!; try done. intros k'. rewrite E6, Hat. simpl. case_bool_decide as D1.
  - rewrite bool_decide_true by (by right). done.
  - case_bool_decide as D2; [subst k'; rewrite bool_decide_true by (by left); done|].
    rewrite bool_decide_false by (rewrite elem_of_cons; naive_solver). done.
Qed.

Lemma persist_counters_total l t :
  (∀ k, k ∈ l → ∃ c, x_counters t !! k = Some c ∧ counter_checks c = true) → ∃ t', stx_each l persist_counter t = (Ok tt, t').
Proof.
  revert t. induction l as [|k l IH]; intros t Hall; simpl; [by eexists|].
  destruct (Hall k ltac:(by left)) as (c & Hc & Hck). unfold mbind, ste_mbind. unfold persist_counter at 1, mbind, ste_mbind.
  rewrite (stx_counter_eq _ _ _ Hc). cbn beta iota zeta. unfold refuse. rewrite Hck. simpl. apply IH. intros k' Hk'. simpl. apply Hall. by right.
Qed.

Lemma on_accounts_eq {A} (m : STE CTX CentralError A) a c t :
  m (ctx_of t) = (Ok a, c) → on_accounts m t = (Ok a, mkSTX (with_db (λ _, c_db c) (x_world t)) (c_accounts c) (x_counters t)).
Proof. intros Hm. unfold on_accounts, ctx_of in *. by rewrite Hm. Qed.

Lemma on_accounts_Ok {A} (m : STE CTX CentralError A) a t t' :
  on_accounts m t = (Ok a, t') →
  ∃ c, m (ctx_of t) = (Ok a, c) ∧ t' = mkSTX (with_db (λ _, c_db c) (x_world t)) (c_accounts c) (x_counters t).
Proof.
  unfold on_accounts, ctx_of. destruct (m _) as [[a0|] c]; [|done]. intros [= <- <-]. by exists c.
Qed.

(** What the two sweeps of a commit leave: the tables show what the
    transaction saw. *)
Lemma commit_books lim db0 P x t t1 t2 :
  books lim db0 P x t → on_accounts persistAccounts t = (Ok tt, t1) → persistSharedCounters t1 = (Ok tt, t2) →
  books lim (w_db (x_world t2)) P x (mkSTX (x_world t2) ∅ ∅) ∧ within lim (w_db (x_world t2))
  ∧ w_permits (x_world t2) = w_permits (x_world t) ∧ w_segments (x_world t2) = w_segments (x_world t)
  ∧ Policies (w_db (x_world t2)) = Policies db0 ∧ evolves db0 (w_db (x_world t2))
  ∧ (∀ k, w_counters (x_world t2) !! k = cnt t k) ∧ ∀ k, Accounts (w_db (x_world t2)) !! k = acct (ctx_of t) k.
Proof.
  intros Hb (c & Hrun & ->)%on_accounts_Ok Hcs. pose proof (b_keeps _ _ _ _ _ Hb) as Hk.
  destruct (persistAccounts_spec _ _ _ _ _ _ Hk Hrun) as (Hk1 & Hw1 & _ & Hacc).
  unfold persistSharedCounters, stx_get, mbind, ste_mbind in Hcs. cbn [x_counters] in Hcs.
  apply persist_counters_spec in Hcs as (E1 & E2 & E3 & E4 & E5 & E6).
  2: { intros k Hin%elem_of_orderedKeys. by apply (b_locked _ _ _ _ _ Hb). }
  simpl in E1, E2, E3, E4, E5, E6.
  assert (Hct : ∀ k, w_counters (x_world t2) !! k = cnt t k).
  { intros k. rewrite E6. unfold cnt. case_bool_decide as D; rewrite elem_of_orderedKeys in D.
    - by destruct D as [c0 ->].
    - destruct (x_counters t !! k); [destruct D; by eexists|done]. }
  assert (Hk2 : keeps x lim db0 ∅ (mkCTX (w_db (x_world t2)) ∅ 0)) by (rewrite E3; by apply committed_keeps).
  destruct (keeps_ok _ _ _ _ _ Hk2) as (Hok & Hwi & Hre & Hte & Hp & Hae).
  split_and!; try done.
  - apply (books_view lim db0 _ P x t); [done|by apply keeps_start|..]; simpl.
    + intros k. rewrite <- Hacc, (written_acct _ c (k_ledger _ _ _ _ _ Hk1) Hw1). unfold acct. simpl. by rewrite lookup_empty, E3.
    + intros k. unfold cnt at 1. simpl. by rewrite lookup_empty, Hct.
    + done.
    + intros k [? He]. by rewrite lookup_empty in He.
  - intros k. rewrite <- Hacc, E3. by rewrite (written_acct _ c (k_ledger _ _ _ _ _ Hk1) Hw1).
Qed.

(** The books of a bounded transaction pass every check of the commit. *)
Lemma commit_total lim db0 P x t :
  books lim db0 P x t → bounded t →
  ∃ t1 t2, on_accounts persistAccounts t = (Ok tt, t1) ∧ persistSharedCounters t1 = (Ok tt, t2).
Proof.
  intros Hb Hbd. destruct (persist_total (orderedKeys (x_accounts t)) (ctx_of t)) as [c Hc].
  { intros k [a Ha]%elem_of_orderedKeys. exists a. destruct (account_holds _ _ _ _ _ _ _ Hb Ha) as (_ & H2 & H3 & H4 & H5 & H6).
    pose proof (sum_open_pos (soft_at k) P (b_rows _ _ _ _ _ Hb) (λ r b, soft_at_nonneg k r b)).
    split_and!; try done. split; [by apply (Hbd k)|lia]. }
  eexists. rewrite (on_accounts_eq persistAccounts tt c t Hc).
  edestruct persist_counters_total as [t2 Ht2]; [|exists t2; split; [reflexivity|exact Ht2]].
  simpl. intros k [c0 Hc0]%elem_of_orderedKeys. exists c0. split; [done|].
  destruct (b_counter _ _ _ _ _ Hb k c0) as [O1 O2 O3 O4 O5]; [unfold cnt; by rewrite Hc0|].
  destruct (b_segments _ _ _ _ _ Hb k) as [[Hs _] _]. pose proof (remaining_sum_nonneg _ Hs).
  pose proof (sum_open_pos (amount_at k) P (b_rows _ _ _ _ _ Hb) (λ r b, amount_at_nonneg k r b)).
  unfold counter_checks. repeat (apply andb_true_iff; split); lia.
Qed.

(** ** Segments belong to bookings *)

Definition owned (O : accountKey → string → Prop) (t : STX) : Prop :=
  ∀ k s, s ∈ segments_of k (x_world t) → O k (sg_permit s).

Lemma retire_segments_permits retired prior l : map sg_permit (retire_segments retired prior l) = map sg_permit l.
Proof. revert prior. induction l as [|s l IH]; intros prior; simpl; [done|]. rewrite IH. by destruct (prior <? retired). Qed.

Lemma owned_put O k l :
  (∀ s, s ∈ l → O k (sg_permit s)) → hoare (owned O) (put_segments k l) (λ _, owned O).
Proof.
  intros Hl t Ho. unfold put_segments, stx_world. simpl. intros k' s. simpl. rewrite segments_of_put.
  case_bool_decide; [subst k'; apply Hl|apply Ho].
Qed.

Lemma refill_owned O k now r : hoare (owned O) (refillSharedRate k now r) (λ _, owned O).
Proof.
  intros t Ho. unfold refillSharedRate, stx_counter, stx_lift, stx_put_counter, stx_get, refuse, mbind, ste_mbind.
  destruct (x_counters t !! k) as [c|]; [|done]. cbn beta iota zeta delta [from_option]. destruct (refill c now r) as [c'|]; [|done].
  destruct (_ =? 0); [done|]. destruct (negb _); [done|]. apply owned_put; [|done].
  intros s Hs%list_elem_of_In%filter_In. destruct Hs as [Hs _]. apply (in_map sg_permit) in Hs. rewrite retire_segments_permits, in_map_iff in Hs.
  destruct Hs as (s0 & <- & Hs0). apply (Ho k). by apply list_elem_of_In.
Qed.

Lemma return_owned O h b refund known : hoare (owned O) (returnSharedRate h b refund known) (λ _, owned O).
Proof.
  intros t Ho. unfold returnSharedRate, stx_counter, stx_put_counter, stx_get, refuse, mbind, ste_mbind.
  destruct (x_counters t !! bk_id b) as [c|]; [|done]. cbn beta iota zeta delta [from_option].
  destruct (segment_of h _) as [s|] eqn:Es; [|done]. destruct (_ <? 0); [done|]. destruct (_ <? _); [done|].
  apply owned_put; [|done]. apply find_some in Es as [Hin Heq]. apply bool_decide_eq_true in Heq.
  intros s' Hs'. destruct (_ =? 0).
  - apply list_elem_of_In, filter_In in Hs' as [Hs' _]. apply (Ho (bk_id b)). by apply list_elem_of_In.
  - apply list_elem_of_In, in_map_iff in Hs' as (s0 & <- & Hs0). case_bool_decide; simpl.
    + rewrite <- Heq. apply (Ho (bk_id b)). by apply list_elem_of_In.
    + apply (Ho (bk_id b)). by apply list_elem_of_In.
Qed.

(** Statements that leave every table but the accounts'. *)
Definition tables (w : World) := (w_counters w, w_permits w, w_segments w).
Definition tables_kept {A} (m : STE STX AdmissionError A) : Prop := ∀ t, tables (x_world (m t).2) = tables (x_world t).

Lemma kept_owned {A} O (m : STE STX AdmissionError A) : tables_kept m → hoare (owned O) m (λ _, owned O).
Proof.
  intros Hm t Ho. specialize (Hm t). destruct (m t) as [[a|] t']; [|done]. simpl in Hm. injection Hm as _ _ Hm. intros k s. unfold segments_of. rewrite Hm. apply Ho.
Qed.

Lemma kept_bind {A B} (m : STE STX AdmissionError A) (f : A → STE STX AdmissionError B) :
  tables_kept m → (∀ a, tables_kept (f a)) → tables_kept (m ≫= f).
Proof.
  intros Hm Hf t. unfold mbind, ste_mbind. specialize (Hm t). destruct (m t) as [[a|e] t']; [|done]. by rewrite Hf.
Qed.

Lemma kept_refuse {A} b e (m : STE STX AdmissionError A) : tables_kept m → tables_kept (refuse b e m).
Proof. intros Hm. by destruct b. Qed.

Lemma kept_on_accounts {A} (m : STE CTX CentralError A) : tables_kept (on_accounts m).
Proof. intros t. unfold on_accounts. by destruct (m _). Qed.

Ltac kept_step :=
  match goal with
  | |- tables_kept (_ ≫= _) => apply kept_bind; [|intros ?]
  | |- tables_kept (refuse _ _ _) => apply kept_refuse
  | |- tables_kept (stx_account _) => apply kept_on_accounts
  | |- tables_kept (stx_put_account _ _) => apply kept_on_accounts
  | |- tables_kept (if ?b then _ else _) => destruct b
  | |- tables_kept _ => done
  end.
Ltac kept := repeat kept_step.

Lemma clear_pending_kept b : tables_kept (clear_pending b).
Proof. unfold clear_pending. kept. Qed.
Lemma freeze_booking_kept b : tables_kept (freeze_booking b).
Proof. unfold freeze_booking. kept. Qed.
Lemma settle_money_kept b retained refund : tables_kept (settle_money b retained refund).
Proof. unfold settle_money. kept. Qed.

Lemma settle_one_owned O h terminal invalid usage b : hoare (owned O) (settle_one h terminal invalid usage b) (λ _, owned O).
Proof.
  unfold settle_one. eapply hoare_seq; [apply kept_owned, clear_pending_kept|].
  destruct invalid; [apply kept_owned, freeze_booking_kept|]. destruct (sharedRetained b terminal usage) as [ret known].
  unfold settleSharedBooking. eapply hoare_bind; [by apply (kept_owned O)|]. intros c. unfold refuse. destruct (_ || _)%bool; [apply hoare_early|].
  eapply hoare_seq.
  - destruct (is_rate (bk_kind b)); [|by apply (kept_owned O)]. eapply hoare_seq; [apply return_owned|]. apply kept_owned. kept.
  - destruct (bool_decide _); [by apply hoare_ret|]. apply kept_owned, settle_money_kept.
Qed.

Lemma stx_each_hoare {A} (I : STX → Prop) (l : list A) f :
  (∀ y, y ∈ l → hoare I (f y) (λ _, I)) → hoare I (stx_each l f) (λ _, I).
Proof.
  induction l as [|y l IH]; intros Hf; simpl; [by apply hoare_ret|].
  eapply hoare_seq; [apply Hf; by left|]. apply IH. intros z Hz. apply Hf. by right.
Qed.

(** ** The tables between transactions *)

Definition books_of (P : gmap string permitRow) (k : accountKey) (h : string) : Prop :=
  ∃ r, P !! h = Some r ∧ k ∈ map bk_id (pm_bookings r).

Record world_ok (lim : accountKey → option Z) (x : Others) (w : World) : Prop := {
  wo_books : books lim (w_db w) (w_permits w) x (mkSTX w ∅ ∅);
  wo_count : ∀ h r, w_permits w !! h = Some r → Z.of_nat (length (pm_bookings r)) = pm_booking_count r;
  wo_owned : owned (books_of (w_permits w)) (mkSTX w ∅ ∅) }.

(** What a settlement of the permit's bookings makes of the tables: each
    booking's counter and segments, each account, and nothing else. *)
Record settled_tables (h terminal : string) (invalid : bool) (usage : SharedSettlement) (bs : list sharedBooking) (w w' : World) : Prop := {
  st_booked b : b ∈ bs → booked_back h terminal invalid usage b (w_counters w !! bk_id b) (w_counters w' !! bk_id b)
                           (segments_of (bk_id b) w) (segments_of (bk_id b) w');
  st_others k : k ∉ map bk_id bs → w_counters w' !! k = w_counters w !! k ∧ segments_of k w' = segments_of k w;
  st_accounts k : Accounts (w_db w') !! k = account_after terminal invalid usage bs k <$> Accounts (w_db w) !! k }.

Lemma account_after_other terminal invalid usage bs k a :
  (∀ b, b ∈ bs → is_money b = true → booking_account b ≠ k) → account_after terminal invalid usage bs k a = a.
Proof.
  unfold account_after. revert a. induction bs as [|b bs IH]; intros a Hk; simpl; [done|].
  replace (is_money b && bool_decide (booking_account b = k))%bool with false; [apply IH; intros b' Hb'; apply Hk; by right|].
  symmetry. apply andb_false_iff. destruct (is_money b) eqn:Em; [right|by left]. apply bool_decide_eq_false. apply Hk; [by left|done].
Qed.

(** ** Settlement *)

Section settlement.
Context (chash : string → string) (shash : string → SharedSettlement → string).

(** The locks of an open permit's bookings are there to take. *)
Lemma lock_settlement lim x w h r now :
  world_ok lim x w → w_permits w !! h = Some r → is_open r = true →
  ∃ t, (_ ← on_accounts (lockAccounts chash "" (booking_refs (pm_bookings r)) []); lockSharedCounters (map booking_definition (pm_bookings r)) now false)
         (mkSTX w ∅ ∅) = (Ok tt, t)
    ∧ x_world t = w ∧ books lim (w_db w) (w_permits w) x t ∧ locked t (pm_bookings r) ∧ bounded t
    ∧ (∀ k c, x_counters t !! k = Some c → w_counters w !! k = Some c)
    ∧ ∀ k, acct (ctx_of t) k = Accounts (w_db w) !! k.
Proof.
  intros [Hb Hcnt Hown] Hr Ho.
  assert (Hcov : ∀ b, b ∈ pm_bookings r → is_Some (w_counters w !! bk_id b) ∧ (is_money b = true → is_Some (Accounts (w_db w) !! booking_account b))).
  { intros b Hin. destruct (b_covered _ _ _ _ _ Hb h r b Hr Ho Hin) as [H1 H2]. unfold cnt, acct in *. simpl in *. rewrite lookup_empty in H1.
    split; [done|]. intros Hm. specialize (H2 Hm). by rewrite lookup_empty in H2. }
  destruct (lock_bookings chash (pm_bookings r) w) as (accts & Hla & Hm & Hback).
  { intros b Hin Hmb. by apply Hcov. }
  set (wanted := wanted_counters (map booking_definition (pm_bookings r))).
  assert (Hids : ∀ d, d ∈ lock_list (map booking_definition (pm_bookings r)) → ∃ b, b ∈ pm_bookings r ∧ d_id d = bk_id b).
  { intros d Hd%elem_of_lock_list. apply wanted_counters_lookup in Hd as [Hd _].
    apply list_elem_of_In, in_map_iff in Hd as (b & <- & Hb'). exists b. split; [by apply list_elem_of_In|done]. }
  destruct (stx_lock_existing (lock_list (map booking_definition (pm_bookings r))) now (mkSTX w accts ∅)) as (t & Hlc & Hw & Ha & Hd & Hmono & Hbk).
  { intros d (b & Hin & ->)%Hids. simpl. by apply Hcov. }
  exists t. unfold mbind, ste_mbind. rewrite Hla. cbn beta iota zeta. simpl in Hw, Ha, Hbk.
  assert (Hcb : ∀ k c, x_counters t !! k = Some c → w_counters w !! k = Some c).
  { intros k c Hc. destruct (Hbk k c Hc) as [He|]; [by rewrite lookup_empty in He|done]. }
  assert (Hact : ∀ k, acct (ctx_of t) k = acct (ctx_of (mkSTX w ∅ ∅)) k).
  { intros k. unfold acct, ctx_of. simpl. rewrite Ha, Hw, lookup_empty. destruct (accts !! k) as [a|] eqn:E; [|done]. by rewrite (Hback _ _ E). }
  split_and!; try done.
  - apply (books_view lim (w_db w) _ _ x (mkSTX w ∅ ∅)); try done.
    + unfold ctx_of. rewrite Hw, Ha. apply (keeps_view x lim (w_db w) ∅ (ctx_of (mkSTX w ∅ ∅))); try done; try by destruct (b_keeps _ _ _ _ _ Hb).
      * intros k. specialize (Hact k). unfold ctx_of in *. by rewrite Hw, Ha in Hact.
      * intros k [a Hka]. simpl in Hka. exists a. simpl. by apply Hback.
    + intros k. by rewrite Hact.
    + intros k. unfold cnt. simpl. rewrite Hw, lookup_empty. destruct (x_counters t !! k) as [c|] eqn:E; [|done]. by rewrite (Hcb _ _ E).
    + by rewrite Hw.
    + intros k [c Hc]. rewrite Hw. exists c. by apply Hcb.
  - intros b Hin. split.
    + destruct (wanted_counters_some (map booking_definition (pm_bookings r)) (booking_definition b)) as [d Hd'].
      { apply list_elem_of_In, in_map. by apply list_elem_of_In. }
      destruct (wanted_counters_lookup _ _ _ Hd') as [_ Hid]. change (bk_id b) with (d_id (booking_definition b)). rewrite <- Hid. apply Hd.
      apply elem_of_lock_list. by rewrite Hid.
    + intros Hmb. rewrite Ha. by apply Hm.
  - intros k a. rewrite Ha. intros Hka%Hback. by destruct (k_table _ _ _ _ _ (b_keeps _ _ _ _ _ Hb) k a Hka) as [? _].
Qed.

(** A well-formed settlement call of the permit. *)
Definition settlement_call (p : SharedPermit) (r : permitRow) : Prop :=
  validCapability (sp_ID p) = true ∧ sp_TokenBound p = pm_token_bound r ∧ sp_CostBoundMicroUSD p = pm_cost_bound r
  ∧ 0 <= pm_token_bound r ∧ 0 <= pm_cost_bound r.

(** What the body of a settlement leaves. *)
Lemma terminal_lands lim x w p r now terminal usage :
  world_ok lim x w → w_permits w !! chash (sp_ID p) = Some r → pm_terminal r = "" → settlement_call p r → terminal ≠ "" →
  let invalid := invalid_usage usage r in
  ∃ t x', terminal_body chash shash now p terminal usage (mkSTX w ∅ ∅) = (Ok (Some invalid), t)
    ∧ world_ok lim x' (x_world t) ∧ within lim (w_db (x_world t)) ∧ Policies (w_db (x_world t)) = Policies (w_db w)
    ∧ evolves (w_db w) (w_db (x_world t))
    ∧ w_permits (x_world t) = <[chash (sp_ID p) := settled_row terminal (shash terminal usage) invalid r]> (w_permits w)
    ∧ settled_tables (chash (sp_ID p)) terminal invalid usage (pm_bookings r) w (x_world t).
Proof.
  intros Hok Hr Hopen (Hcap & Ht & Hc & _ & _) Hterm invalid. set (h := chash (sp_ID p)) in *. set (r' := settled_row terminal _ invalid r).
  assert (Ho : is_open r = true) by (by apply bool_decide_eq_true).
  destruct (lock_settlement lim x w h r now Hok Hr Ho) as (t0 & Hlock & Hw0 & Hb0 & Hl0 & Hbd0 & Hcb0 & Hac0).
  pose proof (wo_books _ _ _ Hok) as Hb. assert (Hsh : row_shape r) by (by apply (b_rows _ _ _ _ _ Hb h)).
  rewrite <- (insert_id (w_permits w) h r Hr) in Hb0. replace r with (with_bookings (pm_bookings r) r) in Hb0 at 1 by by destruct r.
  destruct (settle_all lim (w_db w) (w_permits w) h r terminal invalid usage) with (bs := pm_bookings r) (x := x) (t := t0)
    as (t1 & x1 & Hrun & Hb1 & Hbd1 & Hdb1 & Hpm1 & Hct1 & Hoth & Hset & Hacc1); [by intros|done..|].
  assert (Hb1' : books lim (w_db w) (<[h := r']> (w_permits w)) x1 t1).
  { apply (books_close _ _ _ _ _ _ r); try done; [by apply bool_decide_eq_false|]. by destruct Hsh; split. }
  destruct (commit_total _ _ _ _ _ Hb1' Hbd1) as (t2 & t3 & Hp2 & Hp3).
  destruct (commit_books _ _ _ _ _ _ _ Hb1' Hp2 Hp3) as (Hb3 & Hwi & Epm & Esg & Epol & Hev & Ecnt & Eacc).
  assert (Hown : owned (books_of (w_permits w)) t1).
  { pose proof (stx_each_hoare (owned (books_of (w_permits w))) (pm_bookings r) (settle_one h terminal invalid usage) (λ b _, settle_one_owned _ h terminal invalid usage b) t0) as Hh.
    rewrite Hrun in Hh. apply Hh. intros k s. rewrite Hw0. apply (wo_owned _ _ _ Hok). }
  set (t4 := mkSTX (with_permits <[h := r']> (x_world t3)) (x_accounts t3) (x_counters t3)).
  exists t4, x1. split.
  - unfold terminal_body. fold h. unfold mbind, ste_mbind in *. unfold stx_permit. cbn [x_world]. rewrite Hr. cbn beta iota zeta delta [from_option].
    unfold refuse. rewrite Ht, Hc, !Z.eqb_refl, Hopen. cbn [negb orb]. rewrite bool_decide_true by done. cbn [negb].
    rewrite (wo_count _ _ _ Hok h r Hr), Z.eqb_refl. cbn [negb]. revert Hlock. destruct (on_accounts _ (mkSTX w ∅ ∅)) as [[[]|] ta]; [|done].
    intros ->. fold invalid. rewrite Hrun, Hp2, Hp3. done.
  - assert (Epm3 : w_permits (x_world t3) = w_permits w) by (by rewrite Epm, Hpm1, Hw0).
    split; [split|]; unfold t4; cbn [x_world with_permits w_db w_permits]; rewrite ?Epm3.
    + apply (books_view lim (w_db (x_world t3)) _ _ x1 (mkSTX (x_world t3) ∅ ∅)); try done; [by destruct Hb3|intros k [? He]; simpl in He; by rewrite lookup_empty in He].
    + intros h0 r0 [[<- <-]|[_ Hr0]]%lookup_insert_Some; [apply (wo_count _ _ _ Hok h r Hr)|by apply (wo_count _ _ _ Hok h0)].
    + intros k s Hs. unfold segments_of in Hs. simpl in Hs. rewrite Esg in Hs. destruct (Hown k s Hs) as (r0 & Hr0 & Hin).
      destruct (decide (sg_permit s = h)) as [E|Hne]; [|exists r0; by rewrite lookup_insert_ne].
      exists r'. rewrite E, lookup_insert_eq. split; [done|]. rewrite E, Hr in Hr0. by injection Hr0 as <-.
    + assert (Esg' : ∀ k, segments_of k (mkWorld (w_db (x_world t3)) (w_counters (x_world t3)) (<[h := r']> (w_permits (x_world t3))) (w_segments (x_world t3))) = segments_of k (x_world t1))
        by (intros k; unfold segments_of; simpl; by rewrite Esg).
      split_and!; try done. split; intros k; cbn [x_world with_permits w_db w_counters].
      * intros Hin. rewrite Ecnt. unfold cnt at 1. destruct (Hset k Hin) as (c & Hc0 & Hc1 & Hsl). exists c. rewrite Hc1. rewrite Hw0 in *.
        split; [by apply Hcb0|]. split; [done|]. by rewrite Esg'.
      * intros Hk. destruct (Hoth k Hk) as [Hco Hso]. rewrite Ecnt, Esg', Hso, Hw0. split; [|done]. unfold cnt. rewrite Hco, Hct1, Hw0.
        destruct (x_counters t0 !! k) as [c|] eqn:E; [|done]. by rewrite (Hcb0 _ _ E).
      * rewrite Eacc, <- Hac0. unfold acct, ctx_of. cbn [c_accounts c_db]. rewrite Hacc1, Hdb1. destruct (x_accounts t0 !! k) as [a|] eqn:E; simpl; [done|].
        destruct (Accounts _ !! k) as [a|]; simpl; [|done]. f_equal. symmetry. apply account_after_other. intros b Hin Hm <-.
        destruct (Hl0 b Hin) as [_ Hml]. destruct (Hml Hm) as [a' Ha']. congruence.
Qed.
End settlement.
