(* ===== verification/SharedReserve.v ===== *)
(** * Shared admission: reservations (shared.go, shared_constraints.go)

    What the definitions of a snapshot are, what the locks and the checks of a
    reservation establish, and that booking every definition keeps the books
    and stays within every hard limit. *)

From S2P Require Import Prelude GoTime V1Alpha1 Policy Tier Denial Governor Escrow EscrowSafety EscrowSettle Central CentralSafety CentralTheorems Shared SharedSafety SharedSettle.

#[local] Abbreviation hoare := (Prelude.hoare (S := STX) (E := AdmissionError)).

(** ** Definitions *)

(** A definition of money is a budget's, and its identity is the account's. *)
Definition def_ok (budgets : list AuthorityBudget) (d : sharedDefinition) : Prop :=
  d_moneyKey d ≠ "" →
  d_kind d = "microUSD" ∧ (d_id d).1 = "money:" +:+ d_moneyKey d
  ∧ ∃ b, b ∈ budgets ∧ money_account d = budget_key b ∧ d_limit d = Escrow.b_LimitMicroUSD b ∧ d_hard d = b_HardCap b.

Section definitions.
Context (range : gmap string string → list (string * string)).
Context (authorityHash : list string → string) (revise : Policy.Budget → string → string).
Context (GenerationOf : list v1alpha1.GovernancePolicy → string).

Definition counted (d : sharedDefinition) : Prop := d_moneyKey d = "".

Lemma add_definition_counted now scope identity kind pol rule limit hard period :
  Forall counted (add_definition authorityHash now scope identity kind pol rule limit hard period).
Proof.
  unfold add_definition. destruct (limit =? 0); [done|]. destruct (bool_decide _); [by repeat constructor|].
  destruct (window_of now period). by repeat constructor.
Qed.

Lemma account_definitions_counted now p t : Forall counted (account_definitions authorityHash now p t).
Proof. unfold account_definitions. rewrite !Forall_app. split_and!; apply add_definition_counted. Qed.

Lemma rule_definitions_counted now p r : Forall counted (rule_definitions authorityHash now p r).
Proof.
  unfold rule_definitions. rewrite Forall_app. split.
  - destruct (Policy.r_Rate r) as [rt|]; [|done]. destruct (Policy.rate_Unlimited rt); [done|]. rewrite Forall_app. split; apply add_definition_counted.
  - destruct (Policy.r_TokenQuota r); [apply add_definition_counted|done].
Qed.

Lemma policy_definitions_counted now pr docs pd :
  policy_definitions range authorityHash now pr docs = Ok pd → Forall counted pd.1.
Proof.
  revert pd. induction docs as [|doc docs IH]; intros pd; simpl; [by intros [= <-]|].
  destruct (Policy.FromV1Alpha1 range doc) as [p|]; [|done]. intros Hrun. inv_ok. simpl. apply Forall_app. split; [|by eapply IH].
  destruct (sharedMatch _ _ pr); [|done]. induction (Policy.p_Rules p) as [|r rs IHr]; simpl; [done|].
  apply Forall_app. split; [apply rule_definitions_counted|done].
Qed.

Lemma sharedDefinitions_ok docs p now req defs budgets :
  sharedDefinitions range authorityHash revise GenerationOf docs p now req = Ok (defs, budgets) →
  (∃ all, AuthorityBudgets range authorityHash revise docs now = Ok all ∧ ∀ b, b ∈ budgets → b ∈ all) ∧ ∀ d, d ∈ defs → def_ok budgets d.
Proof.
  unfold sharedDefinitions. destruct (match req with Some _ => _ | None => _ end); [done|].
  destruct (AuthorityBudgets range authorityHash revise docs now) as [all|]; [|done]. destruct (pr_TeamSnapshot p) as [t|]; [|done].
  destruct (existsb _ _); [done|]. destruct (_ || _)%bool; [done|]. intros Hrun. inv_ok. split.
  { exists all. split; [done|]. intros b Hb%list_elem_of_In%filter_In. apply list_elem_of_In, Hb. }
  set (bs := List.filter _ all). intros d Hd. rewrite merge_sort_Permutation in Hd.
  apply list_elem_of_In, in_map_iff in Hd as (d0 & <- & Hd0). apply list_elem_of_In in Hd0.
  assert (Hc : counted d0 ∨ ∃ b, b ∈ bs ∧ d0 = money_definition b).
  { rewrite !elem_of_app in Hd0. destruct Hd0 as [Hd0|[Hd0|Hd0]].
    - left. pose proof (account_definitions_counted now p t) as Hf. rewrite Forall_forall in Hf. auto.
    - left. pose proof (policy_definitions_counted _ _ _ _ E) as Hf. rewrite Forall_forall in Hf. auto.
    - right. apply list_elem_of_In, in_map_iff in Hd0 as (b & <- & Hb). exists b. split; [by apply list_elem_of_In|done]. }
  destruct Hc as [Hc|(b & Hb & ->)]; [intros Hm; by destruct Hm|]. intros _. split_and!; try done. by exists b.
Qed.
End definitions.

(** ** Locks *)

Lemma NoDup_map_inj {A B} (f : A → B) l y z : NoDup (map f l) → y ∈ l → z ∈ l → f y = f z → y = z.
Proof.
  induction l as [|w l IH]; simpl; [by intros _ ?%not_elem_of_nil|]. intros [Hni Hnd]%NoDup_cons Hy Hz E.
  assert (Hin : ∀ v, v ∈ l → f v ∈ map f l) by (intros v Hv; by apply list_elem_of_In, in_map, list_elem_of_In).
  apply elem_of_cons in Hy as [->|Hy], Hz as [->|Hz]; try done; [| |by apply IH].
  - destruct Hni. rewrite E. by apply Hin.
  - destruct Hni. rewrite <- E. by apply Hin.
Qed.

Lemma sumZ_map_zero {A} (f : A → Z) l : (∀ y, y ∈ l → f y = 0) → sumZ (map f l) = 0.
Proof. induction l as [|y l IH]; intros Hf; simpl; [done|]. rewrite Hf by (by left). apply IH. intros z Hz. apply Hf. by right. Qed.

Section locks.
Context (lim : accountKey → option Z).

Lemma lock_each_some db0 x current l t t' :
  (∀ k L b, lim k = Some L → current !! k = Some b → 0 <= L) → NoDup l → (∀ k, k ∈ l → c_accounts t !! k = None) →
  keeps x lim db0 ∅ t → ctx_each l (lock_account current) t = (Ok tt, t') →
  keeps x lim db0 ∅ t' ∧ ∀ k, (k ∈ l ∨ is_Some (c_accounts t !! k)) → is_Some (c_accounts t' !! k).
Proof.
  intros Hlim. revert t. induction l as [|k l IH]; intros t Hnd Hfree Hk; cbn [ctx_each].
  { intros [= <-]. split; [done|]. intros k [?%not_elem_of_nil|?]; done. }
  apply NoDup_cons in Hnd as [Hni Hnd]. unfold mbind, ste_mbind.
  destruct (lock_account current k t) as [[[]|] t1] eqn:E1; [|done].
  destruct (lock_account_keeps x lim db0 current Hlim _ _ _ Hk (Hfree _ ltac:(by left)) E1) as (Hk1 & a & Ec). intros Hrun.
  destruct (IH t1) as [Hk2 Hs]; try done.
  { intros k' Hin. rewrite Ec, lookup_insert_ne by (intros ->; done). apply Hfree. by right. }
  split; [done|]. intros k' Hk'. apply Hs. destruct (decide (k' = k)) as [->|Hne].
  - right. rewrite Ec, lookup_insert_eq. by eexists.
  - rewrite Ec, lookup_insert_ne by done. rewrite elem_of_cons in Hk'. naive_solver.
Qed.

(** The accounts of the budgets, locked or opened. *)
Lemma lock_budgets P x w chash budgets t :
  books lim (w_db w) P x (mkSTX w ∅ ∅) → (∀ b L, b ∈ budgets → lim (budget_key b) = Some L → 0 <= L) →
  on_accounts (lockAccounts chash "" no_request budgets) (mkSTX w ∅ ∅) = (Ok tt, t) →
  books lim (w_db w) P x t ∧ (∀ b, b ∈ budgets → is_Some (x_accounts t !! budget_key b)) ∧ x_counters t = ∅
  ∧ w_counters (x_world t) = w_counters w ∧ w_permits (x_world t) = w_permits w ∧ w_segments (x_world t) = w_segments w.
Proof.
  intros Hb Hlim (c & Hrun & ->)%on_accounts_Ok. simpl.
  unfold lockAccounts in Hrun. simpl in Hrun. unfold mbind, ste_mbind in Hrun. simpl in Hrun. rewrite app_nil_r in Hrun.
  assert (Hcur : ∀ k L b, lim k = Some L → current_account budgets !! k = Some b → 0 <= L).
  { intros k L b HL Hcur. apply current_account_lookup in Hcur as [Hin <-]. by eapply Hlim. }
  apply (lock_each_some (w_db w) x) in Hrun as [Hk Hs]; [|done|apply orderedKeys_NoDup|intros k _; simpl; by rewrite lookup_empty|apply (b_keeps _ _ _ _ _ Hb)].
  split_and!; try done.
  - apply (books_view lim (w_db w) _ P x (mkSTX w ∅ ∅)); try done.
    + by apply (keeps_ids _ _ _ _ c 0).
    + intros k Hs0. unfold acct in Hs0. simpl in Hs0. rewrite lookup_empty in Hs0. destruct Hs0 as [a Ha].
      destruct (k_accounts _ _ _ _ _ Hk k a Ha) as (a' & Ha' & _). exists a'. exact Ha'.
    + intros k [? He]. simpl in He. by rewrite lookup_empty in He.
  - intros b Hin. apply Hs. left. apply elem_of_orderedKeys, lookup_wanted.
    by apply list_elem_of_In, in_map, list_elem_of_In.
Qed.

(** A counter that no booking has used starts at nothing. *)
Lemma lock_counter_books db0 P x now d t t' :
  books lim db0 P x t → x_counters t !! d_id d = None → lock_counter true now d t = (Ok tt, t') →
  books lim db0 P x t' ∧ 0 <= rate d ∧ (∃ c, x_counters t' = <[d_id d := c]> (x_counters t))
  ∧ x_accounts t' = x_accounts t ∧ w_db (x_world t') = w_db (x_world t) ∧ w_permits (x_world t') = w_permits (x_world t)
  ∧ w_segments (x_world t') = w_segments (x_world t).
Proof.
  intros Hb Hn. unfold lock_counter, refuse, mbind, ste_mbind. destruct (rate d <? 0) eqn:Er; [done|]. bsplit. cbn beta iota zeta.
  unfold stx_world, stx_get. cbn beta iota zeta. unfold with_counters. cbn [x_world w_counters].
  destruct (w_counters (x_world t) !! d_id d) as [c|] eqn:Ec.
  - rewrite Ec. unfold stx_put_counter. intros [= <-]. split_and!; try done; [|by eexists].
    assert (Hw : mkWorld (w_db (x_world t)) (w_counters (x_world t)) (w_permits (x_world t)) (w_segments (x_world t)) = x_world t) by by destruct (x_world t).
    cbn [x_world x_accounts x_counters]. rewrite Hw. apply (books_view lim db0 _ P x t); try done; [by destruct Hb| |].
    + intros k. unfold cnt. simpl. destruct (decide (k = d_id d)) as [->|Hne]; [by rewrite lookup_insert_eq, Hn, Ec|by rewrite lookup_insert_ne].
    + intros k. simpl. intros [c0 [[<- _]|[_ Hc0]]%lookup_insert_Some]; [by exists c|]. apply (b_locked _ _ _ _ _ Hb). by exists c0.
  - rewrite lookup_insert_eq. set (c0 := mkCounter _ _ _ _ _ _ _). unfold stx_put_counter. intros [= <-].
    set (t' := mkSTX _ _ _).
    assert (Hcn : cnt t (d_id d) = None) by (unfold cnt; by rewrite Hn).
    assert (Hcnt : ∀ k, cnt t' k = if bool_decide (k = d_id d) then Some c0 else cnt t k).
    { intros k. unfold cnt, t'. simpl. case_bool_decide as E; [subst k; by rewrite lookup_insert_eq|by rewrite !lookup_insert_ne]. }
    assert (Hseg : ∀ k, segments_of k (x_world t') = segments_of k (x_world t)) by done.
    destruct (b_segments _ _ _ _ _ Hb (d_id d)) as [_ Hs0]. specialize (Hs0 Hcn).
    split_and!; try done; [|by eexists]. split; try by destruct Hb.
    + intros k c. rewrite Hcnt, Hseg. case_bool_decide as E; [|apply (b_counter _ _ _ _ _ Hb)]. subst k. intros [= <-]. rewrite Hs0.
      split; simpl; try (done || lia). unfold sum_open. rewrite sum_if_zero; [done|]. intros h r Hr Ho.
      apply sumZ_map_zero. intros b Hin. unfold amount_at. rewrite bool_decide_false; [done|]. intros Hid.
      destruct (b_covered _ _ _ _ _ Hb h r b Hr Ho Hin) as [[c1 Hc1] _]. rewrite Hid in Hc1. congruence.
    + intros k. rewrite Hcnt, Hseg. case_bool_decide as E; [subst k; split; [apply (b_segments _ _ _ _ _ Hb)|done]|apply (b_segments _ _ _ _ _ Hb)].
    + intros k. unfold t'. simpl. intros [c1 [[<- _]|[_ Hc1]]%lookup_insert_Some]; [rewrite lookup_insert_eq; by eexists|].
      destruct (decide (k = d_id d)) as [->|Hne]; [rewrite lookup_insert_eq; by eexists|rewrite lookup_insert_ne by done]. apply (b_locked _ _ _ _ _ Hb). by exists c1.
    + intros h r b Hr Ho Hin. eapply covered_mono; [| |by apply (b_covered _ _ _ _ _ Hb h r)]; [|done].
      intros k Hs. rewrite Hcnt. case_bool_decide; [by eexists|done].
Qed.

(** What a transaction leaves of another's view. *)
Record frame (t t' : STX) : Prop := {
  f_accounts : x_accounts t' = x_accounts t;
  f_db : w_db (x_world t') = w_db (x_world t);
  f_permits : w_permits (x_world t') = w_permits (x_world t) }.

Lemma frame_trans t1 t2 t3 : frame t1 t2 → frame t2 t3 → frame t1 t3.
Proof. intros [] []. split; congruence. Qed.

Lemma lock_counters_books db0 P x now l t t' :
  books lim db0 P x t → NoDup (map d_id l) → (∀ d, d ∈ l → x_counters t !! d_id d = None) →
  stx_each l (lock_counter true now) t = (Ok tt, t') →
  books lim db0 P x t' ∧ frame t t' ∧ w_segments (x_world t') = w_segments (x_world t)
  ∧ (∀ d, d ∈ l → 0 <= rate d ∧ is_Some (x_counters t' !! d_id d))
  ∧ ∀ k, is_Some (x_counters t !! k) → is_Some (x_counters t' !! k).
Proof.
  revert t. induction l as [|d l IH]; intros t Hb Hnd Hfree; simpl.
  { intros [= <-]. split_and!; try done. by intros d ?%not_elem_of_nil. }
  simpl in Hnd. apply NoDup_cons in Hnd as [Hni Hnd]. unfold mbind, ste_mbind.
  destruct (lock_counter true now d t) as [[[]|] t1] eqn:E1; [|done].
  destruct (lock_counter_books db0 P x now d t t1 Hb (Hfree d ltac:(by left)) E1) as (Hb1 & Hr & (c & Hc) & Ea & Ed & Ep & Es). intros Hrun.
  destruct (IH t1 Hb1 Hnd) as (Hb2 & Hf2 & Hs2 & Hall & Hmono); [|done|].
  { intros d' Hin. rewrite Hc, lookup_insert_ne; [apply Hfree; by right|]. intros E. apply Hni. rewrite E. by apply list_elem_of_In, in_map, list_elem_of_In. }
  split_and!; try done; [by eapply frame_trans|congruence|..].
  - intros d' [->|Hin]%elem_of_cons; [|by apply Hall]. split; [done|]. apply Hmono. rewrite Hc, lookup_insert_eq. by eexists.
  - intros k Hs. apply Hmono. rewrite Hc. destruct (decide (k = d_id d)) as [->|]; [rewrite lookup_insert_eq; by eexists|by rewrite lookup_insert_ne].
Qed.

Lemma lockSharedCounters_books db0 P x now defs t t' :
  books lim db0 P x t → x_counters t = ∅ → NoDup (map d_id defs) → lockSharedCounters defs now true t = (Ok tt, t') →
  books lim db0 P x t' ∧ frame t t' ∧ w_segments (x_world t') = w_segments (x_world t)
  ∧ ∀ d, d ∈ defs → 0 <= rate d ∧ is_Some (x_counters t' !! d_id d).
Proof.
  intros Hb He Hnd Hrun. change (lockSharedCounters defs now true) with (stx_each (lock_list defs) (lock_counter true now)) in Hrun.
  destruct (lock_counters_books db0 P x now (lock_list defs) t t') as (H1 & H2 & H3 & H4 & _); try done.
  { rewrite lock_list_ids. apply orderedKeys_NoDup. }
  { intros d _. by rewrite He, lookup_empty. }
  split_and!; try done. intros d Hd. apply H4, elem_of_lock_list. destruct (wanted_counters_some defs d Hd) as [d' Hd'].
  rewrite Hd'. f_equal. destruct (wanted_counters_lookup _ _ _ Hd') as [Hin Hid]. by eapply NoDup_map_inj.
Qed.
End locks.

(** ** Checks *)

(** A definition that has room for the attempt. *)
Definition room (req : SharedRequest) (t : STX) (d : sharedDefinition) : Prop :=
  let amount := bound d req in
  ∃ c, x_counters t !! d_id d = Some c ∧ sc_frozen c = false ∧ 0 <= amount ∧ sc_used c + amount <= MaxInt64
    ∧ (d_hard d = true → d_moneyKey d = "" →
         if 0 <? rate d then sc_debt c + sharedScaled amount <= sharedScaled (d_limit d) else sc_used c + amount <= d_limit d)
    ∧ (d_moneyKey d ≠ "" → ∃ a, x_accounts t !! money_account d = Some a ∧ frozen a = false ∧ committed a + amount <= MaxInt64
         ∧ (d_hard d = true → committed a + amount <= d_limit d)).

Lemma stx_account_same k t r t' : stx_account k t = (r, t') → t' = t.
Proof.
  destruct t as [[] A C]. unfold stx_account, on_accounts, get_account. simpl.
  destruct (A !! k); simpl; by intros [= <- <-].
Qed.

Lemma stx_account_Ok k t a t' : stx_account k t = (Ok a, t') → x_accounts t !! k = Some a ∧ t' = t.
Proof.
  intros Hrun. split; [|by eapply stx_account_same]. revert Hrun. unfold stx_account, on_accounts, get_account. simpl.
  destruct (x_accounts t !! k); simpl; by intros [= <- <-].
Qed.

Lemma capacity_spec lim db0 P x t d amount t' c :
  books lim db0 P x t → (d_moneyKey d ≠ "" → d_kind d = "microUSD") → amount <= MaxInt64 → x_counters t !! d_id d = Some c →
  sharedCheckCapacity d amount t = (Ok tt, t') →
  t' = t ∧ 0 <= amount ∧ sc_used c + amount <= MaxInt64
  ∧ (d_hard d = true → d_moneyKey d = "" →
       if 0 <? rate d then sc_debt c + sharedScaled amount <= sharedScaled (d_limit d) else sc_used c + amount <= d_limit d)
  ∧ (d_moneyKey d ≠ "" → ∃ a, x_accounts t !! money_account d = Some a ∧ committed a + amount <= MaxInt64
       ∧ (d_hard d = true → committed a + amount <= d_limit d)).
Proof.
  intros Hb Hkind Ham Hc Hrun. assert (Hcnt : cnt t (d_id d) = Some c) by (unfold cnt; by rewrite Hc).
  destruct (b_counter _ _ _ _ _ Hb _ _ Hcnt) as [_ [Hrv Hused] _ _ _].
  unfold sharedCheckCapacity in Hrun. unfold mbind at 1, ste_mbind at 1 in Hrun. rewrite (stx_counter_eq _ _ _ Hc) in Hrun. unfold mbind, ste_mbind in Hrun.
  set (rest := λ u : Z, next ← sharedError (checkedAdd u amount);
    _ ← sharedError (checkedAdd (sc_used c) amount); _ ← sharedError (checkedAdd (sc_reserved c) amount);
    if (d_hard d && over_limit d c next amount)%bool then early (capacity_denial d) else mret (M := STE STX AdmissionError) tt).
  set (used := if bool_decide (d_moneyKey d = "") then sc_used c
               else match x_accounts t !! money_account d with Some a => committed a | None => 0 end).
  assert (Hu : (d_moneyKey d ≠ "" → ∃ a, x_accounts t !! money_account d = Some a ∧ used = committed a) ∧ used <= MaxInt64
    ∧ rest used t = (Ok tt, t')).
  { unfold used. case_bool_decide as Em; [by split_and!|].
    destruct (stx_account (money_account d) t) as [[a|] ta] eqn:Ea; [|done]. apply stx_account_Ok in Ea as [Ha ->]. rewrite Ha.
      unfold sharedError, stx_lift in Hrun. destruct (checkedAdd (hardEncumbered a) (softConsumed a)) as [u|] eqn:Eu; [|done].
      destruct (account_holds _ _ _ _ _ _ _ Hb Ha) as (_ & _ & _ & [_ H4] & _ & [_ H6]).
      apply checkedAdd_Ok in Eu as (-> & _ & _ & [_ Hmax]); [|done..]. unfold committed. split_and!; [intros _; by exists a|done|exact Hrun]. }
  clear Hrun. destruct Hu as (Hmoney & Humax & Hrun). unfold rest, mbind, ste_mbind, sharedError, stx_lift in Hrun.
  destruct (checkedAdd used amount) as [next|] eqn:E1; [|done]. apply checkedAdd_Ok in E1 as (-> & _ & Hpos & [_ Hn]); [|done..].
  destruct (checkedAdd (sc_used c) amount) as [nu|] eqn:E2; [|done]. apply checkedAdd_Ok in E2 as (-> & _ & _ & [_ Hn2]); [|done..].
  destruct (checkedAdd (sc_reserved c) amount) as [nr|] eqn:E3; [|done].
  destruct (d_hard d && over_limit d c (used + amount) amount)%bool eqn:Eov; [done|]. injection Hrun as <-. split_and!; try done.
  - intros Hh Hm. rewrite Hh in Eov. unfold over_limit, used in Eov. rewrite Hm, bool_decide_true in Eov by done. simpl in Eov.
    destruct (0 <? rate d); bsplit; lia.
  - intros Hm. destruct (Hmoney Hm) as (a & Ha & Hua). exists a. rewrite <- Hua. split_and!; try done. intros Hh. rewrite Hh in Eov. unfold over_limit in Eov.
    assert (Hr : rate d = 0) by (unfold rate; by rewrite Hkind). rewrite Hr in Eov. simpl in Eov. bsplit. lia.
Qed.

Section checks.
Context (lim : accountKey → option Z) (db0 : DB) (P : gmap string permitRow) (x : Others) (req : SharedRequest) (now : Time).
Hypothesis typed : rq_TokenBound req <= MaxInt64 ∧ rq_CostBoundMicroUSD req <= MaxInt64.

Lemma bound_typed d : bound d req <= MaxInt64.
Proof. destruct typed. unfold bound. repeat case_bool_decide; int_lia. Qed.

(** The check of one definition changes its counter alone. *)
Lemma check_definition_spec d t t' :
  books lim db0 P x t → (d_moneyKey d ≠ "" → d_kind d = "microUSD") → 0 <= rate d →
  check_definition now req d None t = (Ok None, t') →
  books lim db0 P x t' ∧ frame t t' ∧ room req t' d ∧ ∃ c, x_counters t' = <[d_id d := c]> (x_counters t).
Proof.
  intros Hb Hkind Hr Hrun. unfold check_definition in Hrun. unfold mbind at 1, ste_mbind at 1 in Hrun.
  destruct (x_counters t !! d_id d) as [c|] eqn:Hc; [|unfold refillSharedRate, stx_counter, mbind, ste_mbind in Hrun; by rewrite Hc in Hrun].
  destruct (decide (sc_updated c <= now)) as [Hu|Hu].
  2: { unfold refillSharedRate, stx_lift, refill, mbind, ste_mbind in Hrun. rewrite (stx_counter_eq _ _ _ Hc) in Hrun.
       unfold Before in Hrun. replace (now <? sc_updated c) with true in Hrun by lia. done. }
  destruct (refillSharedRate_spec lim db0 P x t (d_id d) c now (rate d) Hb Hc Hu Hr) as (t1 & l' & Hrefill & Hac & Hb1 & Hdb & Hacc & Hpm).
  rewrite Hrefill in Hrun. set (c1 := refilled now (rate d) c) in *.
  assert (Hc1 : x_counters t1 !! d_id d = Some c1) by (rewrite (ac_locked _ _ _ _ _ Hac); apply lookup_insert_eq).
  unfold mbind, ste_mbind in Hrun. rewrite (stx_counter_eq _ _ _ Hc1) in Hrun. cbn beta iota zeta in Hrun.
  destruct (sc_frozen c1) eqn:Ef; [done|]. unfold refuse in Hrun.
  assert (Hm : (d_moneyKey d ≠ "" → ∃ a, x_accounts t1 !! money_account d = Some a ∧ frozen a = false)
    ∧ sharedCheckCapacity d (bound d req) t1 = (Ok tt, t')).
  { assert (Hcap : ∀ s, match sharedCheckCapacity d (bound d req) s with
        | (Ok _, t'0) => (Ok None, t'0)
        | (Err e, t'0) => if is_denial e then (Ok (Some (default e None)), t'0) else (Err e, t'0) end = (Ok None, t') →
        sharedCheckCapacity d (bound d req) s = (Ok tt, t')).
    { intros s. destruct (sharedCheckCapacity _ _ s) as [[[]|e] s']; [by intros [= <-]|]. by destruct (is_denial e). }
    case_bool_decide as Em; cbn [mret ste_mret] in Hrun.
    - split; [done|]. by apply Hcap.
    - destruct (stx_account (money_account d) t1) as [[a|] ta] eqn:Ea; [|done]. apply stx_account_Ok in Ea as [Ha ->].
      cbn beta iota zeta in Hrun. unfold mret, ste_mret in Hrun. cbn beta iota zeta in Hrun. destruct (frozen a) eqn:Efa; [done|]. split; [intros _; by exists a|by apply Hcap]. }
  destruct Hm as [Hfz Hcap].
  destruct (capacity_spec lim db0 P x t1 d (bound d req) t' c1 Hb1 Hkind (bound_typed d) Hc1 Hcap) as (-> & H0 & H1 & H2 & H3).
  split_and!; try done; [|by rewrite (ac_locked _ _ _ _ _ Hac); eexists].
  exists c1. split_and!; try done. intros Hm. destruct (Hfz Hm) as (a & Ha & Hf). destruct (H3 Hm) as (a' & Ha' & H4 & H5).
  rewrite Ha in Ha'. injection Ha' as <-. exists a. by split_and!.
Qed.

Lemma check_denied d e t : match check_definition now req d (Some e) t with (Ok o, _) => is_Some o | (Err _, _) => True end.
Proof.
  unfold check_definition, mbind, ste_mbind. destruct (refillSharedRate _ _ _ t) as [[[]|] t1]; [|done].
  destruct (stx_counter _ t1) as [[c|] t2]; [|done]. 
  destruct (if sc_frozen c then _ else _) as [[iced|] t3]; [|done]. unfold refuse. destruct iced; [done|].
  destruct (sharedCheckCapacity _ _ t3) as [[[]|e'] t4]; [by eexists|]. destruct (is_denial e'); [by eexists|done].
Qed.

Lemma check_all_denied defs e t t' : check_all now req defs (Some e) t ≠ (Ok None, t').
Proof.
  revert e t. induction defs as [|d defs IH]; intros e t; simpl; [done|]. unfold mbind, ste_mbind.
  pose proof (check_denied d e t) as Hd. destruct (check_definition now req d (Some e) t) as [[o|] t1]; [|done].
  destruct Hd as [e' ->]. apply IH.
Qed.

Lemma room_other d t t' k c :
  room req t d → frame t t' → x_counters t' = <[k := c]> (x_counters t) → d_id d ≠ k → room req t' d.
Proof.
  intros (c0 & Hc0 & Hrest) [Ha _ _] Hc Hne. exists c0. rewrite Hc, lookup_insert_ne by done. by rewrite Ha.
Qed.

(** No denial means room for every definition. *)
Lemma check_all_spec defs t t' :
  books lim db0 P x t → NoDup (map d_id defs) → (∀ d, d ∈ defs → (d_moneyKey d ≠ "" → d_kind d = "microUSD") ∧ 0 <= rate d) →
  check_all now req defs None t = (Ok None, t') →
  books lim db0 P x t' ∧ frame t t' ∧ (∀ d, d ∈ defs → room req t' d) ∧ ∀ d, room req t d → d_id d ∉ map d_id defs → room req t' d.
Proof.
  revert t. induction defs as [|d defs IH]; intros t Hb Hnd Hall; simpl.
  { intros [= <-]. split_and!; try done. by intros d ?%not_elem_of_nil. }
  simpl in Hnd. apply NoDup_cons in Hnd as [Hni Hnd]. unfold mbind, ste_mbind.
  destruct (check_definition now req d None t) as [[o|] t1] eqn:E1; [|done].
  destruct o as [e|]; [by intros ?%check_all_denied|]. destruct (Hall d ltac:(by left)) as [Hk Hr].
  destruct (check_definition_spec d t t1 Hb Hk Hr E1) as (Hb1 & Hf1 & Hroom & c & Hc). intros Hrun.
  destruct (IH t1 Hb1 Hnd) as (Hb2 & Hf2 & H2 & H3); [intros d' Hd'; apply Hall; by right|done|].
  split_and!; try done; [by eapply frame_trans|..].
  - intros d' [->|Hin]%elem_of_cons; [|by apply H2]. by apply H3.
  - intros d' Hd' Hnin. rewrite elem_of_cons in Hnin. apply H3; [|naive_solver]. eapply (room_other d'); [exact Hd'|done|exact Hc|naive_solver].
Qed.

Lemma capacity_kept d amount : tables_kept (sharedCheckCapacity d amount).
Proof. unfold sharedCheckCapacity. kept. Qed.

Lemma check_definition_owned O d o : hoare (owned O) (check_definition now req d o) (λ _, owned O).
Proof.
  unfold check_definition. eapply hoare_seq; [apply refill_owned|].
  eapply hoare_bind; [by apply (kept_owned O)|]. intros c. eapply hoare_bind.
  - apply (kept_owned O). kept.
  - intros iced. unfold refuse. destruct iced; [apply hoare_early|]. intros t Ho.
    pose proof (kept_owned O _ (capacity_kept d (bound d req)) t Ho) as Hc. revert Hc.
    pose proof (capacity_kept d (bound d req) t) as Hk.
    destruct (sharedCheckCapacity _ _ t) as [[[]|e] t']; [done|]. intros _. destruct (is_denial e); [|done].
    simpl in Hk. injection Hk as _ _ Hk. intros k s. unfold segments_of. rewrite Hk. apply Ho.
Qed.

Lemma check_all_owned O defs o : hoare (owned O) (check_all now req defs o) (λ _, owned O).
Proof.
  revert o. induction defs as [|d defs IH]; intros o; simpl; [by apply hoare_ret|].
  eapply hoare_bind; [apply check_definition_owned|]. intros o'. apply IH.
Qed.
End checks.

(** ** Bookings *)

Section booking.
Context (lim : accountKey → option Z) (db0 : DB) (budgets : list AuthorityBudget) (hash : string) (req : SharedRequest).
Hypothesis typed : rq_TokenBound req <= MaxInt64 ∧ rq_CostBoundMicroUSD req <= MaxInt64.
(** A window whose limit is known is of a hard budget. *)
Hypothesis docs_lim : ∀ b L, b ∈ budgets → lim (budget_key b) = Some L → Escrow.b_LimitMicroUSD b = L ∧ b_HardCap b = true.

Definition booking_of (d : sharedDefinition) : sharedBooking := mkBooking (d_id d) (d_kind d) (d_moneyKey d) (bound d req) (d_hard d).

Definition booked_counter (d : sharedDefinition) (c : sharedCounter) : sharedCounter :=
  mkCounter (sc_used c + bound d req) (sc_reserved c + bound d req) (sc_rate c)
    (if 0 <? rate d then sc_debt c + sharedScaled (bound d req) else sc_debt c) (sc_refilled c) (sc_updated c) (sc_frozen c).

Definition booked_account (d : sharedDefinition) (a : account) : account :=
  if d_hard d then enc_account (hardEncumbered a + bound d req) a
  else mkAccount (hardEncumbered a) (hardConsumed a) (softConsumed a + bound d req) (softPending a + bound d req) (acceptsMeters a) (frozen a).

(** The transaction after [sharedBook]. *)
Definition after_book (d : sharedDefinition) (c : sharedCounter) (t : STX) : STX :=
  mkSTX (x_world t) (if bool_decide (d_moneyKey d = "") then x_accounts t else alter (booked_account d) (money_account d) (x_accounts t))
    (<[d_id d := booked_counter d c]> (x_counters t)).

Lemma checkedAdd_fits a b : 0 <= a → 0 <= b → a + b <= MaxInt64 → checkedAdd a b = Ok (a + b).
Proof. intros. unfold checkedAdd. rewrite !wrap64_id by int_lia. replace (_ || _)%bool with false; [done|]. symmetry. rewrite !orb_false_iff. split_and?; lia. Qed.

Lemma sharedBook_spec P x t d c :
  books lim db0 P x t → room req t d → x_counters t !! d_id d = Some c → sharedBook d (bound d req) t = (Ok tt, after_book d c t).
Proof.
  intros Hb (c' & Hc' & _ & H0 & H1 & _ & Hm) Hc. rewrite Hc in Hc'. injection Hc' as <-.
  assert (Hcnt : cnt t (d_id d) = Some c) by (unfold cnt; by rewrite Hc).
  destruct (b_counter _ _ _ _ _ Hb _ _ Hcnt) as [O1 [O2 O2'] _ _ _].
  pose proof (sum_open_pos (amount_at (d_id d)) P (b_rows _ _ _ _ _ Hb) (λ r b, amount_at_nonneg (d_id d) r b)) as Hpos.
  unfold sharedBook, mbind, ste_mbind. rewrite (stx_counter_eq _ _ _ Hc). unfold sharedError, stx_lift.
  rewrite !checkedAdd_fits by lia. cbn beta iota zeta. unfold stx_put_counter. unfold after_book. cbn beta iota zeta.
  case_bool_decide as Em; [done|]. destruct (Hm Em) as (a & Ha & _ & Hmax & _).
  destruct (account_holds _ _ _ _ _ _ _ Hb Ha) as (A1 & A2 & A3 & [? ?] & [? ?] & [? ?]).
  pose proof (sum_open_pos (soft_at (money_account d)) P (b_rows _ _ _ _ _ Hb) (λ r b, soft_at_nonneg (money_account d) r b)) as Hp2.
  rewrite (stx_account_eq (money_account d) (mkSTX _ _ _) a Ha). cbn beta iota zeta. unfold committed in Hmax.
  rewrite (alter_present _ _ _ _ Ha). unfold booked_account. destruct (d_hard d).
  - rewrite checkedAdd_fits by lia. cbn beta iota zeta. by rewrite stx_put_account_eq.
  - rewrite !checkedAdd_fits by lia. cbn beta iota zeta. by rewrite stx_put_account_eq.
Qed.

(** The segment of a rate booking. *)
Definition booked_segments (d : sharedDefinition) (l : list segment) : list segment :=
  if ((0 <? rate d) && (0 <? bound d req))%bool then l ++ [mkSegment hash (sharedScaled (bound d req)) true] else l.

(** The permit's row as its bookings are inserted. *)
Definition booked_row (n : Z) (bs : list sharedBooking) : permitRow :=
  mkPermitRow (rq_TokenBound req) (rq_CostBoundMicroUSD req) n "" "" false bs.

Definition after_booking (d : sharedDefinition) (c : sharedCounter) (n : Z) (bs : list sharedBooking) (t : STX) : STX :=
  let t1 := after_book d c t in
  mkSTX (with_segments (λ m, if ((0 <? rate d) && (0 <? bound d req))%bool then <[d_id d := booked_segments d (segments_of (d_id d) (x_world t))]> m else m)
           (with_permits <[hash := booked_row n (bs ++ [booking_of d])]> (x_world t)))
    (x_accounts t1) (x_counters t1).

Lemma book_definition_spec P x t d c n bs t' :
  books lim db0 P x t → room req t d → x_counters t !! d_id d = Some c →
  w_permits (x_world t) !! hash = Some (booked_row n bs) → book_definition hash req d t = (Ok tt, t') →
  (d_id d ∉ map bk_id bs) ∧ t' = after_booking d c n bs t.
Proof.
  intros Hb Hroom Hc Hp. unfold book_definition, mbind, ste_mbind. rewrite (sharedBook_spec P x t d c Hb Hroom Hc). cbn beta iota zeta.
  unfold stx_permit. cbn [x_world after_book]. rewrite Hp. cbn beta iota zeta delta [from_option]. unfold refuse. cbn [pm_bookings booked_row].
  case_bool_decide as Hin; [done|]. unfold put_permit, stx_world. cbn beta iota zeta. unfold after_booking, booked_segments, stx_get, put_segments, stx_world, mbind, ste_mbind.
  destruct ((0 <? rate d) && (0 <? bound d req))%bool; intros [= <-]; by split.
Qed.

Lemma booked_row_shape n bs d :
  row_shape (booked_row n bs) → def_ok budgets d → 0 <= bound d req → d_id d ∉ map bk_id bs →
  booking_ok (booked_row n (bs ++ [booking_of d])) (booking_of d) ∧ row_shape (booked_row n (bs ++ [booking_of d])).
Proof.
  intros [Hf Hn] Hd H0 Hni.
  assert (Hbok : booking_ok (booked_row n (bs ++ [booking_of d])) (booking_of d)).
  { unfold booking_ok. simpl. split_and!; [done|by apply bound_typed|done|]. intros Hr. destruct (decide (d_moneyKey d = "")) as [|Hm]; [done|].
    destruct (Hd Hm) as [Hk _]. by rewrite Hk in Hr. }
  split; [done|]. split; simpl.
  - apply Forall_app. split; [exact Hf|by constructor].
  - rewrite map_app. apply NoDup_app. split_and!; [exact Hn| |apply NoDup_singleton]. intros k Hk ->%list_elem_of_singleton. done.
Qed.

Lemma sum_open_booked f P n bs d :
  P !! hash = Some (booked_row n bs) → sum_open f (<[hash := booked_row n (bs ++ [booking_of d])]> P) = sum_open f P + f (booking_of d).
Proof.
  intros Hp. rewrite sum_open_put by done. rewrite Hp. simpl. rewrite map_app, sumZ_app. simpl. lia.
Qed.

(** The counter of a booking covers it, and its debt is its segments'. *)
Lemma booked_counter_ok P n bs d c l :
  P !! hash = Some (booked_row n bs) → counter_ok P (d_id d) l c → segments_ok l → hash ∉ map sg_permit l → 0 <= bound d req →
  sc_used c + bound d req <= MaxInt64 →
  counter_ok (<[hash := booked_row n (bs ++ [booking_of d])]> P) (d_id d) (booked_segments d l) (booked_counter d c)
  ∧ segments_ok (booked_segments d l).
Proof.
  intros Hp [O1 [O2 O2'] O3 O4 O5] [S1 S2] Hfresh H0 Hmax.
  assert (Ha : amount_at (d_id d) (booking_of d) = bound d req) by (unfold amount_at; by rewrite bool_decide_true).
  split.
  - split; simpl; try done; [rewrite sum_open_booked by done; lia|lia|]. unfold booked_segments.
    destruct (0 <? rate d); simpl; [|done]. destruct (0 <? bound d req) eqn:E; bsplit.
    + rewrite remaining_sum_app. unfold remaining_sum at 2, sumZ. simpl. lia.
    + unfold sharedScaled. replace (bound d req) with 0 by lia. lia.
  - unfold booked_segments. destruct (0 <? rate d) eqn:Er; simpl; [|done]. destruct (0 <? bound d req) eqn:E; [|done]. bsplit. split.
    + apply Forall_app. split; [done|]. constructor; [|done]. simpl. unfold sharedScaled, sharedRateScale. lia.
    + rewrite map_app. apply NoDup_app. split_and!; [done| |apply NoDup_singleton]. intros h Hh ->%list_elem_of_singleton. done.
Qed.

(** The account of a booking holds it, within the limit that is known. *)
Lemma booked_account_keeps P x t d a :
  books lim db0 P x t → def_ok budgets d → d_moneyKey d ≠ "" → x_accounts t !! money_account d = Some a →
  0 <= bound d req → committed a + bound d req <= MaxInt64 → (d_hard d = true → committed a + bound d req <= d_limit d) →
  keeps (shift x (money_account d) a (booked_account d a)) lim db0 ∅
    (mkCTX (w_db (x_world t)) (<[money_account d := booked_account d a]> (x_accounts t)) 0).
Proof.
  intros Hb Hd Hm Ha H0 Hmax Hlimit. destruct (account_holds _ _ _ _ _ _ _ Hb Ha) as (A1 & A2 & A3 & [? ?] & [? ?] & [? ?]).
  pose proof (sum_open_pos (soft_at (money_account d)) P (b_rows _ _ _ _ _ Hb) (λ r b, soft_at_nonneg (money_account d) r b)) as Hp2.
  pose proof (sum_open_pos (hard_at (money_account d)) P (b_rows _ _ _ _ _ Hb) (λ r b, hard_at_nonneg (money_account d) r b)) as Hp1.
  unfold committed in *. apply (keeps_shift x lim db0 (ctx_of t)); try done; try apply (b_keeps _ _ _ _ _ Hb).
  - unfold booked_account. destruct (d_hard d); simpl; split; lia.
  - unfold booked_account. by destruct (d_hard d).
  - unfold booked_account. destruct (d_hard d); simpl; split; lia.
  - unfold booked_account. by destruct (d_hard d).
  - unfold booked_account. by destruct (d_hard d).
  - intros L HL _. destruct (Hd Hm) as (_ & _ & b & Hin & Ek & El & Eh). rewrite Ek in HL.
    destruct (docs_lim b L Hin HL) as [<- Hhard]. rewrite <- Eh in Hhard. rewrite <- El. specialize (Hlimit Hhard).
    unfold booked_account. rewrite Hhard. simpl. unfold committed. simpl. lia.
Qed.

Lemma after_booking_at d c n bs t : at_counter (d_id d) (booked_counter d c) (booked_segments d (segments_of (d_id d) (x_world t))) t (after_booking d c n bs t).
Proof.
  split; try done. intros k'. unfold after_booking, booked_segments. cbn [x_world]. destruct ((0 <? rate d) && (0 <? bound d req))%bool.
  - rewrite segments_of_put. done.
  - case_bool_decide; [subst k'|]; done.
Qed.

(** What the bookings of the attempt keep, those of [bs] done. *)
Record booking_state (x : Others) (n : Z) (bs : list sharedBooking) (t : STX) : Prop := {
  bs_books : books lim db0 (w_permits (x_world t)) x t;
  bs_row : w_permits (x_world t) !! hash = Some (booked_row n bs);
  bs_owned : owned (books_of (w_permits (x_world t))) t }.

Lemma booked_owned x n bs d c t :
  booking_state x n bs t → (d_id d ∉ map bk_id bs) → owned (books_of (w_permits (x_world (after_booking d c n bs t)))) (after_booking d c n bs t).
Proof.
  intros [_ Hp Ho] Hni k s Hs. pose proof (ac_segments _ _ _ _ _ (after_booking_at d c n bs t) k) as Hseg. rewrite Hseg in Hs.
  assert (Hold : ∀ s, s ∈ segments_of k (x_world t) → books_of (w_permits (x_world (after_booking d c n bs t))) k (sg_permit s)).
  { intros s0 (r & Hr & Hin)%Ho. unfold books_of. simpl. destruct (decide (sg_permit s0 = hash)) as [E|Hne].
    - rewrite E in *. rewrite Hp in Hr. injection Hr as <-. eexists. rewrite lookup_insert_eq. split; [done|]. simpl. rewrite map_app, elem_of_app. by left.
    - exists r. by rewrite lookup_insert_ne. }
  case_bool_decide as E; [|by apply Hold]. subst k. unfold booked_segments in Hs. destruct (_ && _)%bool; [|by apply Hold].
  apply elem_of_app in Hs as [Hs| ->%list_elem_of_singleton]; [by apply Hold|]. unfold books_of. simpl. rewrite lookup_insert_eq.
  eexists. split; [done|]. simpl. rewrite map_app, elem_of_app. right. by left.
Qed.

(** Booking a definition that has room keeps the books. *)
Lemma booked_books x n bs d c t :
  booking_state x n bs t → def_ok budgets d → room req t d → x_counters t !! d_id d = Some c → (d_id d ∉ map bk_id bs) →
  ∃ x', booking_state x' n (bs ++ [booking_of d]) (after_booking d c n bs t).
Proof.
  intros Hst Hd (c' & Hc' & _ & H0 & Hmax & _ & Hmoney) Hc Hni. rewrite Hc in Hc'. injection Hc' as <-. pose proof Hst as [Hb Hp Hown].
  set (P := w_permits (x_world t)) in *. set (P' := <[hash := booked_row n (bs ++ [booking_of d])]> P). set (t' := after_booking d c n bs t).
  assert (Hcnt : cnt t (d_id d) = Some c) by (unfold cnt; by rewrite Hc).
  destruct (b_segments _ _ _ _ _ Hb (d_id d)) as [Hsg _].
  assert (Hfresh : hash ∉ map sg_permit (segments_of (d_id d) (x_world t))).
  { intros Hin. apply list_elem_of_In, in_map_iff in Hin as (s & Es & Hs). apply list_elem_of_In in Hs.
    destruct (Hown _ _ Hs) as (r & Hr & Hin). rewrite Es, Hp in Hr. injection Hr as <-. by apply Hni. }
  destruct (booked_counter_ok P n bs d c _ Hp (b_counter _ _ _ _ _ Hb _ _ Hcnt) Hsg Hfresh H0 Hmax) as [Hco Hsg'].
  destruct (booked_row_shape n bs d (b_rows _ _ _ _ _ Hb _ _ Hp) Hd H0 Hni) as [Hbok Hshape].
  assert (Hsum : ∀ f, sum_open f P' = sum_open f P + f (booking_of d)) by (intros f; by apply sum_open_booked).
  pose proof (after_booking_at d c n bs t) as Hac.
  assert (Hfin : ∀ x', keeps x' lim db0 ∅ (ctx_of t') →
    (∀ k', is_Some (acct (ctx_of t) k') → is_Some (acct (ctx_of t') k')) → (is_money (booking_of d) = true → is_Some (acct (ctx_of t') (money_account d))) →
    (∀ k', o_pend x' k' = o_pend x k' + soft_at k' (booking_of d)) → (∀ k', o_pend x' k' - o_pend x k' <= o_soft x' k' - o_soft x k') →
    (∀ k', o_con x' k' = o_con x k') → (∀ k', o_enc x' k' = o_enc x k' + hard_at k' (booking_of d)) → booking_state x' n (bs ++ [booking_of d]) t').
  { intros x' K1 K2 K3 K4 K5 K6 K7. split; [|by apply lookup_insert_eq|by eapply booked_owned].
    apply (books_update lim db0 P P' x x' t t' (d_id d) c _ _ Hb Hac Hc); try done.
    - intros k'. rewrite K4, Hsum. by rewrite (b_pend _ _ _ _ _ Hb).
    - intros k'. pose proof (b_soft _ _ _ _ _ Hb k'). specialize (K5 k'). lia.
    - intros k'. rewrite K6, K7, Hsum. pose proof (b_enc _ _ _ _ _ Hb k'). lia.
    - intros k'. rewrite K6. apply (b_con _ _ _ _ _ Hb).
    - intros k' Hne. rewrite Hsum. unfold amount_at at 2. rewrite bool_decide_false by (intros E; by apply Hne). lia.
    - intros h r [[<- <-]|[_ Hr]]%lookup_insert_Some; [done|by apply (b_rows _ _ _ _ _ Hb h)].
    - assert (Hcov : ∀ b, covered t b → covered t' b) by (intros b; by apply (at_counter_covered _ _ _ _ _ _ Hac)).
      intros h r b [[<- <-]|[_ Hr]]%lookup_insert_Some Ho Hin; [|apply Hcov; by apply (b_covered _ _ _ _ _ Hb h r)].
      simpl in Hin. apply elem_of_app in Hin as [Hin| ->%list_elem_of_singleton].
      + apply Hcov. by apply (b_covered _ _ _ _ _ Hb hash (booked_row n bs)).
      + split; [|exact K3]. rewrite (at_counter_cnt _ _ _ _ _ Hac). rewrite bool_decide_true by done. by eexists. }
  destruct (decide (d_moneyKey d = "")) as [Em|Em].
  - assert (Hz : ∀ k', hard_at k' (booking_of d) = 0 ∧ soft_at k' (booking_of d) = 0) by (intros k'; unfold hard_at, soft_at, is_money; simpl; by rewrite Em).
    assert (Hctx : ctx_of t' = ctx_of t) by (unfold ctx_of, t', after_booking, after_book; simpl; by rewrite Em, bool_decide_true).
    exists x. apply Hfin; try done; try (intros k'; destruct (Hz k') as [E1 E2]; rewrite ?E1, ?E2; lia).
    + rewrite Hctx. apply (b_keeps _ _ _ _ _ Hb).
    + by rewrite Hctx.
    + unfold is_money. simpl. by rewrite Em.
  - destruct (Hmoney Em) as (a & Ha & _ & Hca & Hhard). set (ka := money_account d) in *. set (a' := booked_account d a).
    assert (Hctx : ctx_of t' = mkCTX (w_db (x_world t)) (<[ka := a']> (x_accounts t)) 0).
    { unfold ctx_of, t', after_booking, after_book. simpl. rewrite bool_decide_false by done. by rewrite (alter_present _ _ _ _ Ha). }
    assert (Hat : ∀ k', hard_at k' (booking_of d) = (if bool_decide (k' = ka) then if d_hard d then bound d req else 0 else 0)
      ∧ soft_at k' (booking_of d) = (if bool_decide (k' = ka) then if d_hard d then 0 else bound d req else 0)).
    { intros k'. unfold hard_at, soft_at, is_money. simpl. rewrite (bool_decide_false (d_moneyKey d = "")) by done. simpl.
      rewrite (bool_decide_ext (booking_account (booking_of d) = k') (k' = ka)) by (split; intros E; [by rewrite <- E|by rewrite E]).
      by destruct (d_hard d), (bool_decide (k' = ka)). }
    exists (shift x ka a a'). apply Hfin.
    + rewrite Hctx. by apply (booked_account_keeps P).
    + intros k'. rewrite Hctx. unfold acct, ctx_of. simpl. destruct (decide (k' = ka)) as [->|]; [rewrite lookup_insert_eq; by eexists|by rewrite lookup_insert_ne].
    + intros _. rewrite Hctx. unfold acct. simpl. rewrite lookup_insert_eq. by eexists.
    + intros k'. destruct (Hat k') as [_ ->]. unfold shift, a', booked_account. simpl. case_bool_decide; destruct (d_hard d); simpl; lia.
    + intros k'. unfold shift, a', booked_account. simpl. case_bool_decide; destruct (d_hard d); simpl; lia.
    + intros k'. unfold shift, a', booked_account. simpl. case_bool_decide; destruct (d_hard d); simpl; lia.
    + intros k'. destruct (Hat k') as [-> _]. unfold shift, a', booked_account. simpl. case_bool_decide; destruct (d_hard d); simpl; lia.
Qed.

(** What a booked definition shows. *)
Definition booked_within (t : STX) (d : sharedDefinition) : Prop :=
  ∃ c, x_counters t !! d_id d = Some c ∧ sc_frozen c = false
    ∧ (d_hard d = true → d_moneyKey d = "" → if 0 <? rate d then sc_debt c <= sharedScaled (d_limit d) else sc_used c <= d_limit d)
    ∧ (d_moneyKey d ≠ "" → ∃ a, x_accounts t !! money_account d = Some a ∧ frozen a = false ∧ (d_hard d = true → committed a <= d_limit d)).

(** Two definitions of money on one account are one. *)
Lemma money_account_inj d d' : def_ok budgets d → def_ok budgets d' → d_moneyKey d ≠ "" → d_moneyKey d' ≠ "" → money_account d = money_account d' → d_id d = d_id d'.
Proof.
  intros Hd Hd' Hm Hm' E. destruct (Hd Hm) as (_ & E1 & _). destruct (Hd' Hm') as (_ & E2 & _). injection E as Ek Ew.
  destruct (d_id d) as [k w], (d_id d') as [k' w']. simpl in *. by rewrite E1, E2, Ek, Ew.
Qed.

Lemma after_booking_account d' d c n bs t :
  def_ok budgets d → def_ok budgets d' → d_id d' ≠ d_id d → d_moneyKey d' ≠ "" →
  x_accounts (after_booking d c n bs t) !! money_account d' = x_accounts t !! money_account d'.
Proof.
  intros Hd Hd' Hne Hm. unfold after_booking, after_book. simpl. case_bool_decide as Em; [done|].
  apply lookup_alter_ne. intros E. apply Hne. symmetry. by apply money_account_inj.
Qed.

Lemma after_booking_counter d' d c n bs t :
  d_id d' ≠ d_id d → x_counters (after_booking d c n bs t) !! d_id d' = x_counters t !! d_id d'.
Proof. intros Hne. unfold after_booking, after_book. simpl. by rewrite lookup_insert_ne. Qed.

Lemma room_after d' d c n bs t : def_ok budgets d → def_ok budgets d' → d_id d' ≠ d_id d → room req t d' → room req (after_booking d c n bs t) d'.
Proof.
  intros Hd Hd' Hne (c' & Hc' & H1 & H2 & H3 & H4 & H5). exists c'. rewrite after_booking_counter by done. split_and!; try done.
  intros Hm. destruct (H5 Hm) as (a & Ha & Hrest). exists a. by rewrite after_booking_account.
Qed.

Lemma booked_within_after d' d c n bs t :
  def_ok budgets d → def_ok budgets d' → d_id d' ≠ d_id d → booked_within t d' → booked_within (after_booking d c n bs t) d'.
Proof.
  intros Hd Hd' Hne (c' & Hc' & H1 & H2 & H5). exists c'. rewrite after_booking_counter by done. split_and!; try done.
  intros Hm. destruct (H5 Hm) as (a & Ha & Hrest). exists a. by rewrite after_booking_account.
Qed.

Lemma after_booking_within d c n bs t : room req t d → x_counters t !! d_id d = Some c → booked_within (after_booking d c n bs t) d.
Proof.
  intros (c' & Hc' & Hf & H0 & _ & H2 & H5) Hc. rewrite Hc in Hc'. injection Hc' as <-. exists (booked_counter d c).
  unfold after_booking, after_book. simpl. rewrite lookup_insert_eq. split_and!; [done|done|..].
  - intros Hh Hm. specialize (H2 Hh Hm). destruct (0 <? rate d); simpl; lia.
  - intros Hm. destruct (H5 Hm) as (a & Ha & Hfr & _ & Hl). rewrite bool_decide_false, lookup_alter_eq, Ha by done. simpl.
    eexists. split; [done|]. unfold booked_account. destruct (d_hard d); [|by split]. split; [done|]. intros _. specialize (Hl eq_refl).
    unfold committed in *. simpl. lia.
Qed.

(** Booking every definition. *)
Lemma book_all x n defs bs t t' :
  booking_state x n bs t → (∀ d, d ∈ defs → def_ok budgets d) → NoDup (map d_id defs) → (∀ d, d ∈ defs → room req t d) →
  stx_each defs (book_definition hash req) t = (Ok tt, t') →
  (∃ x', booking_state x' n (bs ++ map booking_of defs) t')
  ∧ (∀ d, d ∈ defs → booked_within t' d)
  ∧ (∀ d, def_ok budgets d → d_id d ∉ map d_id defs → booked_within t d → booked_within t' d)
  ∧ w_db (x_world t') = w_db (x_world t)
  ∧ (∀ h, h ≠ hash → w_permits (x_world t') !! h = w_permits (x_world t) !! h).
Proof.
  revert x bs t. induction defs as [|d defs IH]; intros x bs t Hst Hok Hnd Hroom; simpl.
  { intros [= <-]. rewrite app_nil_r. split_and!; try done; [by exists x|by intros d ?%not_elem_of_nil]. }
  simpl in Hnd. apply NoDup_cons in Hnd as [Hni Hnd]. unfold mbind, ste_mbind.
  destruct (book_definition hash req d t) as [[[]|] t1] eqn:E1; [|done].
  pose proof (Hroom d ltac:(by left)) as Hr. pose proof (Hok d ltac:(by left)) as Hd. pose proof Hr as (c & Hc & _).
  eapply book_definition_spec in E1 as [Hin ->]; [|apply (bs_books _ _ _ _ Hst)|done|exact Hc|apply (bs_row _ _ _ _ Hst)]. intros Hrun.
  destruct (booked_books x n bs d c t Hst Hd Hr Hc Hin) as [x1 Hst1].
  assert (Hne : ∀ d', d' ∈ defs → d_id d' ≠ d_id d).
  { intros d' Hd' E. apply Hni. rewrite <- E. by apply list_elem_of_In, in_map, list_elem_of_In. }
  apply (IH x1 (bs ++ [booking_of d]) _ Hst1) in Hrun as (Hx & H2 & H3 & Hdb & Hpm); [|intros d' Hd'; apply Hok; by right|done|].
  2: { intros d' Hd'. apply room_after; [done|apply Hok; by right|by apply Hne|apply Hroom; by right]. }
  rewrite <- app_assoc in Hx. split_and!; try done.
  - intros d' [->|Hd']%elem_of_cons; [|by apply H2]. apply H3; [done|done|by apply after_booking_within].
  - intros d' Hd' Hnin Hw. rewrite elem_of_cons in Hnin. apply H3; [done|naive_solver|]. apply booked_within_after; try done. naive_solver.
  - intros h Hh. rewrite (Hpm h Hh). unfold after_booking. simpl. by rewrite lookup_insert_ne.
Qed.
End booking.

(** ** Identities *)

(** A permit's bookings are of distinct identities: the attempt fails else. *)
Lemma sharedBook_kept d amount : tables_kept (sharedBook d amount).
Proof. unfold sharedBook. kept. Qed.

Lemma book_ids hash req defs t t' r :
  w_permits (x_world t) !! hash = Some r → stx_each defs (book_definition hash req) t = (Ok tt, t') →
  NoDup (map d_id defs) ∧ ∀ d, d ∈ defs → d_id d ∉ map bk_id (pm_bookings r).
Proof.
  revert t r. induction defs as [|d defs IH]; intros t r Hr; simpl; [intros _; split; [apply NoDup_nil_2|by intros d ?%not_elem_of_nil]|].
  unfold mbind, ste_mbind. destruct (book_definition hash req d t) as [[[]|] t1] eqn:E1; [|done]. intros Hrun.
  unfold book_definition, mbind, ste_mbind in E1. pose proof (sharedBook_kept d (bound d req) t) as Hk.
  destruct (sharedBook d _ t) as [[[]|] t2]; [|done]. simpl in Hk. injection Hk as _ Hk _.
  unfold stx_permit in E1. rewrite Hk, Hr in E1. cbn beta iota zeta delta [from_option] in E1. unfold refuse in E1.
  case_bool_decide as Hin; [done|].
  assert (Hr1 : w_permits (x_world t1) !! hash = Some (with_bookings (pm_bookings r ++ [booking_of req d]) r)).
  { unfold put_permit, stx_world, stx_get, put_segments in E1. destruct ((0 <? rate d) && _)%bool; injection E1 as <-; simpl; apply lookup_insert_eq. }
  destruct (IH _ _ Hr1 Hrun) as [Hnd Hfresh]. split.
  - apply NoDup_cons. split; [|done]. intros Hd. apply list_elem_of_In, in_map_iff in Hd as (d' & E & Hd'). apply list_elem_of_In in Hd'.
    apply (Hfresh d' Hd'). simpl. rewrite map_app, elem_of_app, E. right. by left.
  - intros d' [->|Hd']%elem_of_cons; [done|]. intros Hin'. apply (Hfresh d' Hd'). simpl. rewrite map_app, elem_of_app. by left.
Qed.
