(* ===== verification/SharedTheorems.v ===== *)
(** * Shared admission: what it guarantees

    An open permit settles, and settles once; a reservation stays within every
    hard limit of its definitions; and in any order of reservations,
    settlements, synchronizations and changes of policy, the accounts hold the
    money of both profiles within each hard limit. *)

From S2P Require Import Prelude GoTime V1Alpha1 Policy Tier Denial Governor Escrow EscrowSafety EscrowSettle Central CentralSafety CentralTheorems Shared SharedSafety SharedSettle SharedReserve.

#[local] Abbreviation hoare := (Prelude.hoare (S := STX) (E := AdmissionError)).

(** ** Settlement *)

Section settlement.
Context (chash : string → string) (shash : string → SharedSettlement → string).

(** C26: A settlement always lands.  An open permit, presented with its bounds,
    settles whatever the outcome it reports: the permit is closed with that
    outcome and the books go on balancing.  Each of its bookings is given back
    down to what is retained: to its counter, to its account, and of the debt of a
    rate what the permit's segment still holds of the refund, which that segment
    loses; no other counter, segment or account changes.  An outcome past the
    bounds is refused, refunds nothing, and freezes the counter and the account of
    each booking. *)
Theorem settlement_lands lim x w p r now terminal usage :
  world_ok lim x w → w_permits w !! chash (sp_ID p) = Some r → pm_terminal r = "" → settlement_call p r → terminal ≠ "" →
  let invalid := invalid_usage usage r in
  ∃ w' x', (∀ o, sharedTerminal chash shash now o (Some p) terminal usage w
      = match o with
        | Committed => (if invalid then Err ErrSharedUnavailable else Ok tt, w')
        | CommitFails landed => (Err ErrSharedUnavailable, if landed then w' else w)
        end)
    ∧ world_ok lim x' w'
    ∧ w_permits w' = <[chash (sp_ID p) := settled_row terminal (shash terminal usage) invalid r]> (w_permits w)
    ∧ settled_tables (chash (sp_ID p)) terminal invalid usage (pm_bookings r) w w'.
Proof.
  intros Hok Hr Ho Hcall Hterm invalid.
  destruct (terminal_lands chash shash lim x w p r now terminal usage Hok Hr Ho Hcall Hterm) as (t & x' & Hrun & H1 & _ & _ & _ & H2 & H3).
  exists (x_world t), x'. split_and!; try done. intros o. destruct Hcall as (Hcap & Et & Ec & H5 & H6). unfold sharedTerminal.
  rewrite Hcap, Et, Ec. replace (_ || _ || _)%bool with false; [by rewrite Hrun|]. symmetry. rewrite !orb_false_iff. split_and!; [done|lia|lia].
Qed.

(** A permit settles once.  A second settlement changes nothing at all; it
    succeeds exactly when it repeats a first one that was valid. *)
Theorem settled_once w p r now o terminal usage :
  w_permits w !! chash (sp_ID p) = Some r → pm_terminal r ≠ "" → settlement_call p r →
  sharedTerminal chash shash now o (Some p) terminal usage w
  = (if bool_decide (pm_terminal r = terminal ∧ pm_fingerprint r = shash terminal usage ∧ pm_invalid r = false)
     then Ok tt else Err ErrSharedUnavailable, w).
Proof.
  intros Hr Ho (Hcap & Et & Ec & H5 & H6). unfold sharedTerminal. rewrite Hcap, Et, Ec.
  replace (_ || _ || _)%bool with false by (symmetry; rewrite !orb_false_iff; split_and!; [done|lia|lia]).
  unfold terminal_body, mbind, ste_mbind, stx_permit. cbn [x_world]. rewrite Hr. cbn beta iota zeta delta [from_option]. unfold refuse.
  rewrite Et, Ec, !Z.eqb_refl. cbn [negb orb]. rewrite (bool_decide_false (pm_terminal r = "")) by done. cbn [negb].
  repeat case_bool_decide; destruct (pm_invalid r); simpl; naive_solver.
Qed.
End settlement.

(** ** Reservation *)

(** A row that holds nothing yet. *)
Lemma books_open lim db0 P x t h r :
  books lim db0 P x t → P !! h = None → pm_bookings r = [] → books lim db0 (<[h := r]> P) x t.
Proof.
  intros Hb Hn Hr. assert (Hsum : ∀ f, sum_open f (<[h := r]> P) = sum_open f P).
  { intros f. unfold sum_open. rewrite sum_if_new by done. rewrite Hr. simpl. destruct (is_open r); lia. }
  split; try by destruct Hb.
  - intros k. rewrite Hsum. apply (b_pend _ _ _ _ _ Hb).
  - intros k. rewrite Hsum. apply (b_enc _ _ _ _ _ Hb).
  - intros k c Hk. destruct (b_counter _ _ _ _ _ Hb k c Hk). split; try done. by rewrite Hsum.
  - intros h' r0 [[<- <-]|[_ Hr0]]%lookup_insert_Some; [|by apply (b_rows _ _ _ _ _ Hb h')]. split; rewrite Hr; [done|apply NoDup_nil_2].
  - intros h' r0 b [[<- <-]|[_ Hr0]]%lookup_insert_Some Ho; [rewrite Hr; by intros ?%not_elem_of_nil|by apply (b_covered _ _ _ _ _ Hb h')].
Qed.

(** A definition of an attempt admitted, in the tables it left. *)
Definition within_limit (w : World) (d : sharedDefinition) : Prop :=
  ∃ c, w_counters w !! d_id d = Some c ∧ sc_frozen c = false
    ∧ (d_hard d = true → d_moneyKey d = "" → if 0 <? rate d then sc_debt c <= sharedScaled (d_limit d) else sc_used c <= d_limit d)
    ∧ (d_moneyKey d ≠ "" → ∃ a, Accounts (w_db w) !! money_account d = Some a ∧ frozen a = false
         ∧ (d_hard d = true → hardEncumbered a + softConsumed a <= d_limit d)).

Section reserve.
Context (range : gmap string string → list (string * string)).
Context (authorityHash : list string → string) (revise : Policy.Budget → string → string).
Context (GenerationOf : list v1alpha1.GovernancePolicy → string).
Context (chash : string → string) (shash : string → SharedSettlement → string).
Hypothesis range_perm : ∀ m, range m ≡ₚ map_to_list m.

(** The limits of hard budgets, the same in every snapshot of the documents. *)
Definition hard_limits (lim : accountKey → option Z) (docs : list v1alpha1.GovernancePolicy) : Prop :=
  ∀ now bs b L, AuthorityBudgets range authorityHash revise docs now = Ok bs → b ∈ bs → lim (budget_key b) = Some L →
    Escrow.b_LimitMicroUSD b = L ∧ b_HardCap b = true.

(** The numbers of a request are 64-bit integers. *)
Definition typed_shared (req : SharedRequest) : Prop := rq_TokenBound req <= MaxInt64 ∧ rq_CostBoundMicroUSD req <= MaxInt64.

(** What a permit reserves. *)
Definition reserved_row (req : SharedRequest) (defs : list sharedDefinition) : permitRow :=
  booked_row req (Z.of_nat (length defs)) (map (booking_of req) defs).

(** A transaction that has checked everything and booked nothing. *)
Lemma admit_spec lim x identity identity_set read now1 now2 req w t defs :
  world_ok lim x w → typed_shared req → hard_limits lim (Policies (w_db w)) → NoDup (map d_id defs) →
  admit_shared range authorityHash revise GenerationOf chash identity identity_set read now1 now2 req (mkSTX w ∅ ∅) = (Ok defs, t) →
  ∃ p budgets, sharedSnapshot read now1 (rq_Subject req) = Ok p
    ∧ sharedDefinitions range authorityHash revise GenerationOf (Policies (w_db w)) p now1 (Some req) = Ok (defs, budgets)
    ∧ (∀ d, d ∈ defs → def_ok budgets d ∧ room req t d) ∧ books lim (w_db w) (w_permits w) x t
    ∧ w_permits (x_world t) = w_permits w ∧ owned (books_of (w_permits w)) t
    ∧ ∀ b L, b ∈ budgets → lim (budget_key b) = Some L → Escrow.b_LimitMicroUSD b = L ∧ b_HardCap b = true.
Proof.
  intros Hok Hty Hlim Hnd. unfold admit_shared. destruct identity as [subjects|]; [|done]. unfold mbind, ste_mbind, stx_lift, refuse.
  destruct (sharedSnapshot read now1 (rq_Subject req)) as [p|]; [|done]. destruct (negb _); [done|]. destruct (_ && _)%bool; [done|].
  unfold stx_get. cbn beta iota zeta. cbn [x_world]. destruct (_ && _)%bool; [done|].
  destruct (sharedDefinitions _ _ _ _ _ p now1 (Some req)) as [[ds budgets]|] eqn:Ed; [|done]. cbn [fst snd].
  destruct (on_accounts _ _) as [[[]|] t1] eqn:E1; [|done]. destruct (lockSharedCounters ds now1 true t1) as [[[]|] t2] eqn:E2; [|done].
  destruct (sharedCheckClock p ds now2) as [[]|]; [|done]. destruct (check_all now2 req ds None t2) as [[o|] t3] eqn:E3; [|done].
  destruct o as [e|]; [done|]. intros [= <- <-].
  destruct (sharedDefinitions_ok _ _ _ _ _ _ _ _ _ _ Ed) as [(all & Hall & Hsub) Hdefs].
  assert (Hbl : ∀ b L, b ∈ budgets → lim (budget_key b) = Some L → Escrow.b_LimitMicroUSD b = L ∧ b_HardCap b = true).
  { intros b L Hb. by apply (Hlim _ _ _ _ Hall), Hsub. }
  assert (Hpos : ∀ b L, b ∈ budgets → lim (budget_key b) = Some L → 0 <= L).
  { intros b L Hb HL. destruct (Hbl b L Hb HL) as [<- _].
    destruct (AuthorityBudgets_ok range authorityHash revise range_perm _ _ _ Hall b (Hsub _ Hb)) as ([? ?] & _). lia. }
  destruct (lock_budgets lim _ x w chash budgets t1 (wo_books _ _ _ Hok) Hpos E1) as (Hb1 & _ & He1 & Hc1 & Hp1 & Hs1).
  destruct (lockSharedCounters_books lim _ _ x now1 ds t1 t2 Hb1 He1 Hnd E2) as (Hb2 & Hf2 & Hs2 & Hr2).
  assert (Hkind : ∀ d, d ∈ ds → (d_moneyKey d ≠ "" → d_kind d = "microUSD") ∧ 0 <= rate d).
  { intros d Hd. split; [|by apply Hr2]. intros Hm. by destruct (Hdefs d Hd Hm) as (? & _). }
  destruct (check_all_spec lim _ _ x req now2 Hty ds t2 t3 Hb2 Hnd Hkind E3) as (Hb3 & Hf3 & Hroom & _).
  assert (Hown : owned (books_of (w_permits w)) t2).
  { intros k s. unfold segments_of. rewrite Hs2, Hs1. apply (wo_owned _ _ _ Hok). }
  pose proof (check_all_owned req now2 (books_of (w_permits w)) ds None t2 Hown) as Hown3. rewrite E3 in Hown3.
  exists p, budgets. split_and!; try done; [intros d Hd; split; [by apply Hdefs|by apply Hroom]|].
  by rewrite (f_permits _ _ Hf3), (f_permits _ _ Hf2), Hp1.
Qed.

Lemma reserve_spec lim x identity identity_set read now1 now2 permitID req w t permit :
  world_ok lim x w → typed_shared req → hard_limits lim (Policies (w_db w)) →
  reserve_shared_body range authorityHash revise GenerationOf chash identity identity_set read now1 now2 permitID req (mkSTX w ∅ ∅) = (Ok permit, t) →
  ∃ p defs budgets x', sharedSnapshot read now1 (rq_Subject req) = Ok p
    ∧ sharedDefinitions range authorityHash revise GenerationOf (Policies (w_db w)) p now1 (Some req) = Ok (defs, budgets)
    ∧ sp_TokenBound permit = rq_TokenBound req ∧ sp_CostBoundMicroUSD permit = rq_CostBoundMicroUSD req
    ∧ w_permits w !! chash (sp_ID permit) = None
    ∧ w_permits (x_world t) = <[chash (sp_ID permit) := reserved_row req defs]> (w_permits w)
    ∧ (∀ d, d ∈ defs → within_limit (x_world t) d) ∧ world_ok lim x' (x_world t)
    ∧ within lim (w_db (x_world t)) ∧ Policies (w_db (x_world t)) = Policies (w_db w) ∧ evolves (w_db w) (w_db (x_world t)).
Proof.
  intros Hok Hty Hlim. unfold reserve_shared_body. unfold mbind at 1, ste_mbind at 1.
  destruct (admit_shared _ _ _ _ _ _ _ _ _ _ _ _) as [[defs|] t1] eqn:E1; [|done]. destruct permitID as [id|]; [|done].
  set (hash := chash id). set (n := Z.of_nat (length defs)). unfold mbind, ste_mbind, stx_get, refuse, put_permit, stx_world. cbn beta iota zeta.
  destruct (is_Some_b _) eqn:Ep; [done|]. set (t2 := mkSTX (with_permits _ (x_world t1)) (x_accounts t1) (x_counters t1)).
  destruct (stx_each defs (book_definition hash req) t2) as [[[]|] t3] eqn:E3; [|done].
  destruct (on_accounts persistAccounts t3) as [[[]|] t4] eqn:E4; [|done].
  destruct (persistSharedCounters t4) as [[[]|] t5] eqn:E5; [|done]. intros [= <- <-]. cbn [sp_ID sp_TokenBound sp_CostBoundMicroUSD].
  assert (Hr2 : w_permits (x_world t2) !! hash = Some (booked_row req n [])) by apply lookup_insert_eq.
  destruct (book_ids _ _ _ _ _ _ Hr2 E3) as [Hnd _].
  destruct (admit_spec lim x _ _ _ _ _ _ _ _ _ Hok Hty Hlim Hnd E1) as (p & budgets & Hp & Hd & Hall & Hb1 & Hpm1 & Hown1 & Hbl).
  assert (Hnone : w_permits w !! hash = None) by (rewrite <- Hpm1; by destruct (w_permits (x_world t1) !! hash)).
  assert (Hst2 : booking_state lim (w_db w) hash req x n [] t2).
  { split; [|done|].
    - unfold t2. cbn [x_world with_permits w_permits]. rewrite Hpm1.
      apply (books_view lim (w_db w) _ _ x t1); try done; [by apply books_open|apply (b_keeps _ _ _ _ _ Hb1)|].
      intros k. apply (b_locked _ _ _ _ _ Hb1).
    - intros k s Hs. destruct (Hown1 k s Hs) as (r & Hr & Hin). exists r. unfold t2. simpl. rewrite Hpm1.
      rewrite lookup_insert_ne; [done|]. intros E. rewrite <- E in Hr. congruence. }
  assert (Hroom : ∀ d, d ∈ defs → room req t2 d) by (intros d Hin; by apply Hall).
  apply (book_all lim (w_db w) budgets hash req Hty Hbl x n defs [] t2 t3 Hst2 ltac:(intros d Hin; by apply Hall) Hnd Hroom) in E3
    as ((x' & [Hb3 Hr3 Hown3]) & Hwithin & _ & Hdb3 & Hpm3).
  destruct (commit_books _ _ _ _ _ _ _ Hb3 E4 E5) as (Hb5 & Hwi & Epm & Esg & Epol & Hev & Ecnt & Eacc).
  assert (Hrow : w_permits (x_world t5) = <[hash := reserved_row req defs]> (w_permits w)).
  { rewrite Epm. apply map_eq. intros h. destruct (decide (h = hash)) as [->|Hne]; [by rewrite Hr3, lookup_insert_eq|].
    rewrite Hpm3, lookup_insert_ne by done. unfold t2. simpl. by rewrite lookup_insert_ne, Hpm1. }
  exists p, defs, budgets, x'. split_and!; try done.
  - intros d Hin. destruct (Hwithin d Hin) as (c & Hc & Hf & H1 & H2). exists c. rewrite Ecnt. unfold cnt. rewrite Hc. split_and!; try done.
    intros Hm. destruct (H2 Hm) as (a & Ha & ? & ?). exists a. rewrite Eacc. unfold acct, ctx_of. simpl. by rewrite Ha.
  - split; [by rewrite Epm| |].
    + rewrite Hrow. intros h r [[<- <-]|[_ Hr]]%lookup_insert_Some; [simpl; by rewrite length_map|by apply (wo_count _ _ _ Hok h)].
    + intros k s. unfold segments_of. cbn [x_world]. rewrite Esg, Epm. apply Hown3.
Qed.

(** C25: A reservation stays within every hard limit.  When an attempt is
    admitted, each definition that applies to it is booked in the permit and
    none is frozen: the debt of every hard rate is at most one minute of it,
    the tokens and the money of every hard quota are within it, and every
    hard budget, with what the dataplanes hold of it, is within its limit. *)
Theorem reserve_within_limits lim x identity identity_set read now1 now2 permitID o req w w' permit :
  world_ok lim x w → typed_shared req → hard_limits lim (Policies (w_db w)) →
  ReserveShared range authorityHash revise GenerationOf chash identity identity_set read now1 now2 permitID o req w = (Ok permit, w') →
  ∃ p defs budgets, sharedSnapshot read now1 (rq_Subject req) = Ok p
    ∧ sharedDefinitions range authorityHash revise GenerationOf (Policies (w_db w)) p now1 (Some req) = Ok (defs, budgets)
    ∧ w_permits w !! chash (sp_ID permit) = None
    ∧ w_permits w' = <[chash (sp_ID permit) := reserved_row req defs]> (w_permits w)
    ∧ ∀ d, d ∈ defs → within_limit w' d.
Proof.
  intros Hok Hty Hlim. unfold ReserveShared. destruct (_ || _)%bool; [done|].
  destruct (reserve_shared_body _ _ _ _ _ _ _ _ _ _ _ _ _) as [[pm|e] t] eqn:E; [|done].
  destruct o as [|[]]; intros [= <- <-].
  destruct (reserve_spec lim x _ _ _ _ _ _ _ _ _ _ Hok Hty Hlim E) as (p & defs & budgets & x' & H1 & H2 & _ & _ & H3 & H4 & H5 & _).
  by exists p, defs, budgets.
Qed.

(** ** Histories *)

(** One transaction of either profile, or a change of the documents. *)
Inductive shared_step (allowed : list v1alpha1.GovernancePolicy → Prop) (w : World) : World → Prop :=
| StepLedger db : step range authorityHash revise chash allowed (w_db w) db → shared_step allowed w (with_db (λ _, db) w)
| StepReserve identity identity_set read now1 now2 permitID o req :
    typed_shared req →
    shared_step allowed w (ReserveShared range authorityHash revise GenerationOf chash identity identity_set read now1 now2 permitID o req w).2
| StepFinish now o p usage : shared_step allowed w (FinishShared chash shash now o p usage w).2
| StepCancel now o p : shared_step allowed w (CancelShared chash shash now o p w).2.

Definition shared_history (allowed : list v1alpha1.GovernancePolicy → Prop) : relation World := rtc (shared_step allowed).

Lemma hard_limits_limits lim docs : hard_limits lim docs → limits range authorityHash revise lim docs.
Proof. intros Hl now bs b L H1 H2 H3. by destruct (Hl now bs b L H1 H2 H3). Qed.

(** What every step keeps of the tables and the documents. *)
Definition keeps_world (lim : accountKey → option Z) (w w' : World) : Prop :=
  (∃ x, world_ok lim x w') ∧ hard_limits lim (Policies (w_db w')) ∧ evolves (w_db w) (w_db w').

Lemma world_ledger lim x w : world_ok lim x w → ledger_ok x (w_db w) ∧ within lim (w_db w).
Proof. intros Hok. by destruct (keeps_ok _ _ _ _ _ (b_keeps _ _ _ _ _ (wo_books _ _ _ Hok))) as (? & ? & _). Qed.

Lemma world_step_db lim x w db :
  world_ok lim x w → ledger_ok x db → within lim db → evolves (w_db w) db → world_ok lim x (with_db (λ _, db) w).
Proof.
  intros [Hb Hc Ho] Hl Hw (_ & _ & Ha). split; [|done|done].
  apply (books_view lim (w_db w) _ _ x (mkSTX w ∅ ∅)); try done; [by apply keeps_start| |intros k [? He]; simpl in He; by rewrite lookup_empty in He].
  intros k. unfold acct, ctx_of. simpl. rewrite !lookup_empty. intros [a Hka]. destruct (Ha k a Hka) as (a' & Ha' & _). by exists a'.
Qed.

Lemma terminal_step lim x w now o p terminal usage :
  world_ok lim x w → hard_limits lim (Policies (w_db w)) → terminal ≠ "" →
  keeps_world lim w (sharedTerminal chash shash now o p terminal usage w).2.
Proof.
  intros Hok Hlim Hterm. assert (Hsame : keeps_world lim w w) by (split_and!; [by exists x|done|apply evolves_refl]).
  unfold sharedTerminal. destruct p as [p|]; [|done]. destruct (_ || _ || _)%bool eqn:Eb; [done|]. bsplit.
  destruct (w_permits w !! chash (sp_ID p)) as [r|] eqn:Er.
  2: { unfold terminal_body, mbind, ste_mbind, stx_permit. cbn [x_world]. by rewrite Er. }
  destruct (decide (sp_TokenBound p = pm_token_bound r ∧ sp_CostBoundMicroUSD p = pm_cost_bound r)) as [[E1 E2]|Hne].
  2: { unfold terminal_body, mbind, ste_mbind, stx_permit. cbn [x_world]. rewrite Er. cbn beta iota zeta delta [from_option]. unfold refuse.
       replace (negb (pm_token_bound r =? sp_TokenBound p) || negb (pm_cost_bound r =? sp_CostBoundMicroUSD p))%bool with true; [done|].
       symmetry. apply orb_true_iff. rewrite !negb_true_iff, !Z.eqb_neq. destruct (decide (sp_TokenBound p = pm_token_bound r)); [right|left]; intros E; apply Hne; lia. }
  assert (Hcall : settlement_call p r) by (repeat split; try done; lia).
  destruct (decide (pm_terminal r = "")) as [Eo|Eo].
  - destruct (terminal_lands chash shash lim x w p r now terminal usage Hok Er Eo Hcall Hterm) as (t & x' & Hrun & K1 & K2 & Hp & He & _).
    rewrite Hrun. assert (Hnew : keeps_world lim w (x_world t)) by (split_and!; [by exists x'|by rewrite Hp|done]).
    destruct o as [|[]]; done.
  - pose proof (settled_once chash shash w p r now o terminal usage Er Eo Hcall) as Hrun. unfold sharedTerminal in Hrun.
    replace (_ || _ || _)%bool with false in Hrun by (symmetry; rewrite !orb_false_iff; split_and!; [|lia|lia]; by destruct Hcall as [-> _]).
    by rewrite Hrun.
Qed.

Lemma shared_step_ok lim x allowed w w' :
  (∀ docs, allowed docs → hard_limits lim docs) → hard_limits lim (Policies (w_db w)) → world_ok lim x w → shared_step allowed w w' →
  keeps_world lim w w'.
Proof.
  intros Hall Hlim Hok Hst. destruct (world_ledger _ _ _ Hok) as [Hl Hw].
  assert (Hsame : keeps_world lim w w) by (split_and!; [by exists x|done|apply evolves_refl]).
  destruct Hst as [db Hdb|identity ids read now1 now2 pid o req Hty|now o p usage|now o p]; [| |by eapply terminal_step|by eapply terminal_step].
  - destruct (step_ok range authorityHash revise chash range_perm x lim allowed (w_db w) db) as (Hl' & Hw' & He & _); try done.
    { intros docs Hd. by apply hard_limits_limits, Hall. }
    { by apply hard_limits_limits. }
    split_and!; [exists x; by apply world_step_db| |done]. cbn [with_db w_db].
    destruct (step_policies range authorityHash revise chash range_perm x allowed (w_db w) db Hdb Hl) as [->|]; [done|by apply Hall].
  - unfold ReserveShared. destruct (_ || _)%bool; [done|].
    destruct (reserve_shared_body _ _ _ _ _ _ _ _ _ _ _ _ _) as [[pm|e] t] eqn:E; [|done].
    destruct (reserve_spec lim x _ _ _ _ _ _ _ _ _ _ Hok Hty Hlim E) as (p & defs & budgets & x' & _ & _ & _ & _ & _ & _ & _ & H1 & _ & Hp & He).
    assert (Hnew : keeps_world lim w (x_world t)) by (split_and!; [by exists x'|by rewrite Hp|done]). destruct o as [|[]]; done.
Qed.

Lemma shared_history_ok lim x allowed w w' :
  (∀ docs, allowed docs → hard_limits lim docs) → hard_limits lim (Policies (w_db w)) → world_ok lim x w → shared_history allowed w w' →
  keeps_world lim w w'.
Proof.
  intros Hall Hlim Hok Hh. revert x Hlim Hok. induction Hh as [w|w1 w2 w3 Hs Hh IH]; intros x Hlim Hok; [split_and!; [by exists x|done|apply evolves_refl]|].
  destruct (shared_step_ok _ _ _ _ _ Hall Hlim Hok Hs) as ([x2 Hok2] & Hlim2 & He2).
  destruct (IH x2 Hlim2 Hok2) as (? & ? & ?). split_and!; try done. by eapply evolves_trans.
Qed.

(** Nothing has happened yet. *)
Definition emptyWorld (docs : list v1alpha1.GovernancePolicy) : World := mkWorld (emptyDB docs) ∅ ∅ ∅.
Definition nobody : Others := mkOthers (λ _, 0) (λ _, 0) (λ _, 0) (λ _, 0).

Lemma empty_world_ok lim docs : world_ok lim nobody (emptyWorld docs).
Proof.
  assert (Hempty : ∀ f, sum_open f (∅ : gmap string permitRow) = 0) by (intros f; unfold sum_open, sum_if; by apply sum_map_zero).
  split; [|by intros h r|].
  - split.
    + apply keeps_start; [|by intros k L a _]. split; [|done]; split; try done; intros k'; unfold acct; simpl; rewrite ?lookup_empty; by intros [].
    + intros k. by rewrite Hempty.
    + done.
    + intros k. simpl. by rewrite Hempty.
    + done.
    + intros k c. unfold cnt. simpl. by rewrite !lookup_empty.
    + intros k. unfold segments_of. simpl. rewrite lookup_empty. split; [split; [done|apply NoDup_nil_2]|done].
    + intros k [c Hc]. simpl in Hc. by rewrite lookup_empty in Hc.
    + by intros h r.
    + by intros h r b.
  - intros k s. unfold segments_of. simpl. rewrite lookup_empty. by intros ?%not_elem_of_nil.
Qed.

(** What the books say of one window. *)
Lemma books_limit lim x w k L a :
  world_ok lim x w → lim k = Some L → Accounts (w_db w) !! k = Some a → frozen a = false → acceptsMeters a = false →
  spent_on k (w_db w) <= held_on k (w_db w) ∧ held_on k (w_db w) + sum_open (hard_at k) (w_permits w) <= hardEncumbered a
  ∧ hardEncumbered a + softConsumed a <= L.
Proof.
  intros Hok HL Ha Hf Hm. destruct (world_ledger _ _ _ Hok) as [[Hl _] Hw]. pose proof (wo_books _ _ _ Hok) as Hb.
  assert (Hacct : acct (mkCTX (w_db w) ∅ 0) k = Some a) by (unfold acct; simpl; by rewrite lookup_empty).
  destruct (l_accounts _ _ Hl _ _ Hacct) as [E1 _ _ _ _]. simpl in E1. split_and!.
  - apply sum_if_le. intros rk g Hg. apply spent_row_nonneg. by apply (l_rows _ _ Hl rk).
  - pose proof (b_enc _ _ _ _ _ Hb k). pose proof (b_con _ _ _ _ _ Hb k). lia.
  - apply (Hw k L a); [done|done|]. unfold strict. by rewrite Hf, Hm.
Qed.

(** A hard limit holds across both profiles.  Start with nothing booked and
    let [L] be the limit of a window's hard budget in every snapshot of the
    documents.  Whatever the order of synchronizations, reservations,
    settlements, cancellations and changes of policy, with any outcome of
    their commits: unless an overrun has frozen the window, what the
    dataplanes spent is within the grants they hold, those grants with the
    permits still open are within what the account encumbers, and that, with
    everything settled, is within [L]. *)
Theorem shared_limit_holds docs allowed k L w a :
  let lim := λ k', if decide (k' = k) then Some L else None in
  hard_limits lim docs → (∀ docs', allowed docs' → hard_limits lim docs') → shared_history allowed (emptyWorld docs) w →
  Accounts (w_db w) !! k = Some a → frozen a = false → acceptsMeters a = false →
  spent_on k (w_db w) <= held_on k (w_db w) ∧ held_on k (w_db w) + sum_open (hard_at k) (w_permits w) <= hardEncumbered a
  ∧ hardEncumbered a + softConsumed a <= L.
Proof.
  intros lim Hlim Hall Hh.
  destruct (shared_history_ok lim nobody allowed (emptyWorld docs) w Hall Hlim (empty_world_ok lim docs) Hh) as ([x Hok] & _ & _).
  apply (books_limit lim x w k L a Hok). unfold lim. by rewrite decide_True.
Qed.
End reserve.

(** ** On the concrete deployment *)

Module Demo.

Definition w0 : World := Shared.Demo.world0.
Definition request : SharedRequest := Shared.Demo.request 100 1000.
Definition permit : SharedPermit := mkSharedPermit Central.Demo.capability 100 1000.
Definition w1 : World := (Shared.Demo.reserve Central.Demo.capability 100 1000 w0).2.
Definition usage : SharedSettlement := mkSettlement (Some 40) (Some 700) true false.
Definition w2 : World := (Shared.Demo.finish permit usage w1).2.

Definition demo_shared_history :=
  shared_history Central.Demo.range Central.Demo.joined Central.Demo.revise Shared.Demo.generation (λ s, s) Shared.Demo.settlement.
Definition lim_none : accountKey → option Z := λ _, None.

Lemma demo_no_hard_limits docs : hard_limits Central.Demo.range Central.Demo.joined Central.Demo.revise lim_none docs.
Proof. by intros now bs b L _ _. Qed.

Lemma demo_request_typed : typed_shared request.
Proof. by vm_compute. Qed.

Lemma demo_w0_ok : world_ok lim_none nobody w0.
Proof. exact (empty_world_ok lim_none [Central.Demo.doc]). Qed.

Lemma demo_w1_reached allowed : demo_shared_history allowed w0 w1.
Proof. apply rtc_once. apply StepReserve. exact demo_request_typed. Qed.

Lemma demo_w2_reached allowed : demo_shared_history allowed w1 w2.
Proof. apply rtc_once. exact (StepFinish _ _ _ _ _ _ _ _ Shared.Demo.now Committed (Some permit) usage). Qed.

Lemma demo_reserved : (Shared.Demo.reserve Central.Demo.capability 100 1000 w0).1 = Ok permit.
Proof. by vm_compute. Qed.

Lemma demo_w1_ok : ∃ x, world_ok lim_none x w1.
Proof.
  destruct (shared_history_ok Central.Demo.range Central.Demo.joined Central.Demo.revise Shared.Demo.generation (λ s, s) Shared.Demo.settlement
    CentralTheorems.Demo.demo_range_perm lim_none nobody CentralTheorems.Demo.any_docs w0 w1) as (Hx & _);
  [by intros docs _ | apply demo_no_hard_limits | apply demo_w0_ok | apply demo_w1_reached | exact Hx].
Qed.

Lemma demo_hard_limits :
  hard_limits Central.Demo.range Central.Demo.joined Central.Demo.revise
    (λ k', if decide (k' = budget_key CentralTheorems.Demo.hard) then Some 50000000 else None) [Central.Demo.doc].
Proof.
  intros now bs b L Hbs Hb HL. destruct (decide _) as [Hk|]; [injection HL as <-|done]. by apply (CentralTheorems.Demo.demo_hard_budget now bs b Hbs Hb Hk).
Qed.

Definition row : permitRow := default (mkPermitRow 0 0 0 "" "" false []) (w_permits w1 !! Central.Demo.capability).

Lemma demo_row : w_permits w1 !! Central.Demo.capability = Some row.
Proof. by vm_compute. Qed.
Lemma demo_row_open : pm_terminal row = "" ∧ invalid_usage usage row = false.
Proof. by vm_compute. Qed.
Lemma demo_call : settlement_call permit row.
Proof. by vm_compute. Qed.

Definition closed : permitRow := settled_row "finish" (Shared.Demo.settlement "finish" usage) false row.
Lemma demo_closed : w_permits w2 !! Central.Demo.capability = Some closed.
Proof. by vm_compute. Qed.
Lemma demo_closed_call : pm_terminal closed ≠ "" ∧ settlement_call permit closed.
Proof. by vm_compute. Qed.

Lemma demo_account :
  match Accounts (w_db w2) !! budget_key CentralTheorems.Demo.hard with
  | Some a => frozen a = false ∧ acceptsMeters a = false ∧ hardConsumed a = 700 | None => False end.
Proof. by vm_compute. Qed.

Lemma reserve_within_limits_witness :
  (Shared.Demo.reserve Central.Demo.capability 100 1000 w0).1 = Ok permit
  ∧ ∃ p defs budgets, sharedSnapshot Shared.Demo.read Shared.Demo.now (rq_Subject request) = Ok p
    ∧ sharedDefinitions Central.Demo.range Central.Demo.joined Central.Demo.revise Shared.Demo.generation (Policies (w_db w0)) p Shared.Demo.now (Some request) = Ok (defs, budgets)
    ∧ w_permits w0 !! Central.Demo.capability = None
    ∧ w_permits w1 = <[Central.Demo.capability := reserved_row request defs]> (w_permits w0)
    ∧ ∀ d, d ∈ defs → within_limit w1 d.
Proof.
  split; [exact demo_reserved|].
  refine (reserve_within_limits Central.Demo.range Central.Demo.joined Central.Demo.revise Shared.Demo.generation (λ s, s)
    CentralTheorems.Demo.demo_range_perm lim_none nobody (Some (λ _, true)) false Shared.Demo.read Shared.Demo.now Shared.Demo.now
    (Some Central.Demo.capability) Committed request w0 w1 permit demo_w0_ok demo_request_typed (demo_no_hard_limits _) _).
  rewrite <- demo_reserved. apply surjective_pairing.
Defined.

Definition account_of (w : World) : option account := Accounts (w_db w) !! budget_key CentralTheorems.Demo.hard.
Definition past_bounds : SharedSettlement := mkSettlement (Some 101) None true false.
Lemma demo_past_bounds : invalid_usage past_bounds row = true.
Proof. by vm_compute. Qed.

Lemma settlement_lands_witness :
  ∃ x w' wf, world_ok lim_none x w1 ∧ Shared.Demo.finish permit usage w1 = (Ok tt, w')
    ∧ settled_tables Central.Demo.capability "finish" false usage (pm_bookings row) w1 w'
    ∧ (λ a, (hardEncumbered a, hardConsumed a, frozen a)) <$> account_of w1 = Some (1000, 0, false)
    ∧ (λ a, (hardEncumbered a, hardConsumed a, frozen a)) <$> account_of w' = Some (700, 700, false)
    ∧ Shared.Demo.finish permit past_bounds w1 = (Err ErrSharedUnavailable, wf)
    ∧ (λ a, (hardEncumbered a, hardConsumed a, frozen a)) <$> account_of wf = Some (1000, 0, true).
Proof.
  destruct demo_w1_ok as [x Hx]. destruct demo_row_open as [Ho Hv]. pose proof demo_past_bounds as Hp. exists x.
  pose proof (λ u, settlement_lands (λ s, s) Shared.Demo.settlement lim_none x w1 permit row Shared.Demo.now "finish" u Hx demo_row Ho demo_call ltac:(discriminate)) as Hl.
  destruct (Hl usage) as (w' & x' & Hrun & _ & _ & Hb). destruct (Hl past_bounds) as (wf & xf & Hrunf & _ & _ & Hbf). clear Hl.
  rewrite Hv in Hrun, Hb. rewrite Hp in Hrunf, Hbf. exists w', wf. split; [exact Hx|]. split; [exact (Hrun Committed)|]. split; [exact Hb|].
  unfold account_of. rewrite (st_accounts _ _ _ _ _ _ _ Hb), (st_accounts _ _ _ _ _ _ _ Hbf).
  split; [by vm_compute|]. split; [by vm_compute|]. split; [exact (Hrunf Committed)|by vm_compute].
Defined.

Lemma settled_once_witness : pm_terminal closed ≠ "" ∧ Shared.Demo.finish permit usage w2 = (Ok tt, w2)
  ∧ CancelShared (λ s, s) Shared.Demo.settlement Shared.Demo.now Committed (Some permit) w2 = (Err ErrSharedUnavailable, w2).
Proof.
  destruct demo_closed_call as [Ht Hcall]. split; [exact Ht|].
  pose proof (λ terminal u, settled_once (λ s, s) Shared.Demo.settlement w2 permit closed Shared.Demo.now Committed terminal u demo_closed Ht Hcall) as Hs.
  split; [exact (Hs "finish" usage)|exact (Hs "cancel" (mkSettlement None None false false))].
Defined.

Lemma shared_limit_holds_witness :
  ∃ a, Accounts (w_db w2) !! budget_key CentralTheorems.Demo.hard = Some a ∧ hardConsumed a = 700
    ∧ hardEncumbered a + softConsumed a <= 50000000.
Proof.
  pose proof demo_account as Ha. destruct (Accounts (w_db w2) !! budget_key CentralTheorems.Demo.hard) as [a|] eqn:E; [|destruct Ha].
  destruct Ha as (Hf & Hm & Hc). exists a. split; [reflexivity|]. split; [exact Hc|].
  refine (proj2 (proj2 (shared_limit_holds Central.Demo.range Central.Demo.joined Central.Demo.revise Shared.Demo.generation (λ s, s) Shared.Demo.settlement
    CentralTheorems.Demo.demo_range_perm [Central.Demo.doc] CentralTheorems.Demo.the_docs (budget_key CentralTheorems.Demo.hard) 50000000 w2 a
    demo_hard_limits _ _ E Hf Hm))).
  - intros docs ->. exact demo_hard_limits.
  - transitivity w1; [apply demo_w1_reached|apply demo_w2_reached].
Defined.

End Demo.
