(* ===== verification/Settlement.v ===== *)
(** * Money of an attempt (internal/server/requestpolicy/authority.go, shared.go)

    Every attempt reserves money before its provider is called and settles it
    once, against whatever the provider reported: the observed usage priced
    exactly, or nothing known.  The money is kept by the node's own ledger, by
    a durable authority or by the shared one, behind the interfaces that
    internal/governance declares.

    The request's context is the identity of the attempt it carries; the
    observers of an evaluation are a trace. *)

From S2P Require Import Prelude GoTime GoFloat Json Usage Pricing Budget Limiter Denial Governor LocalMoney Governance Live Router Escrow Shared.

(** ** What a provider reported *)

Definition out_of_range (window : Z) (v : option Z) : bool :=
  match v with Some n => ((n <? 0) || (window <? n))%bool | None => false end.

(** The counts that [authorityUsage] validates. *)
Definition reported (u : Usage.Usage) : list (option Z) :=
  [Usage.InputTokens u; Usage.OutputTokens u; Usage.CacheReadInputTokens u; Usage.CacheCreationInputTokens u]
  ++ match Usage.CacheCreation_ u with
     | Some cc => [Usage.Ephemeral5mInputTokens cc; Usage.Ephemeral1hInputTokens cc]
     | None => []
     end.

Definition no_usage : Pricing.Usage := mkUsage 0 0 0 0 0 false false.

(** The usage, whether it is exact, whether it is invalid. *)
Definition authorityUsage (u : option Usage.Usage) (window : Z) : Pricing.Usage * bool * bool :=
  match u with
  | None => (no_usage, false, false)
  | Some u =>
      if existsb (out_of_range window) (reported u) then (no_usage, false, true)
      else if Usage.AccountingUncertain u then (no_usage, false, false)
      else match Usage.InputTokens u, Usage.OutputTokens u with
      | Some input, Some output =>
          let read := Usage.deref64 (Usage.CacheReadInputTokens u) in
          let total := Usage.deref64 (Usage.CacheCreationInputTokens u) in
          match Usage.CacheCreation_ u with
          | None => (mkUsage input output read 0 0 false false, total =? 0, false)
          | Some cc =>
              if negb (Usage.no_extra (Usage.cc_Extra cc)) then (mkUsage input output read 0 0 false false, false, false)
              else match Usage.Ephemeral5mInputTokens cc, Usage.Ephemeral1hInputTokens cc with
              | Some five, Some one =>
                  let out := mkUsage input output read five one false false in
                  match Usage.CacheCreationInputTokens u with
                  | Some total => if ((total <? five) || negb (one =? total - five))%bool then (out, false, true) else (out, true, false)
                  | None => (out, true, false)
                  end
              | _, _ => (mkUsage input output read 0 0 false false, false, false)
              end
          end
      | _, _ => (no_usage, false, false)
      end
  end.

(** The sum of the counts present, or an overflow. *)
Fixpoint total_of (l : list (option Z)) (total : Z) : option Z :=
  match l with
  | [] => Some total
  | None :: l => total_of l total
  | Some n :: l => if ((n <? 0) || (MaxInt64 - n <? total))%bool then None else total_of l (wrap64 (total + n))
  end.

(** The parts of a split that stay within the total, in order. *)
Fixpoint split_within (l : list (option Z)) (creation known : Z) : bool :=
  match l with
  | [] => true
  | None :: l => split_within l creation known
  | Some n :: l => if ((n <? 0) || (creation - known <? n))%bool then false else split_within l creation (known + n)
  end.

(** What the cache creations come to: [Err] is the (exact, invalid) to return. *)
Definition creation_of (u : Usage.Usage) : result (bool * bool) Z :=
  match Usage.CacheCreationInputTokens u, Usage.CacheCreation_ u with
  | Some creation, Some cc =>
      if split_within [Usage.Ephemeral5mInputTokens cc; Usage.Ephemeral1hInputTokens cc] creation 0 then Ok creation else Err (false, true)
  | Some creation, None => Ok creation
  | None, Some cc =>
      match Usage.Ephemeral5mInputTokens cc, Usage.Ephemeral1hInputTokens cc with
      | Some five, Some one => if MaxInt64 - one <? five then Err (false, true) else Ok (wrap64 (five + one))
      | _, _ => Err (false, false)
      end
  | None, None => Ok 0
  end.

Definition authorityTokens (u : option Usage.Usage) (window : Z) : Z * bool * bool :=
  match u with
  | None => (0, false, false)
  | Some o =>
      if (authorityUsage u window).2 then (0, false, true)
      else if (Usage.AccountingUncertain o || bool_decide (Usage.InputTokens o = None) || bool_decide (Usage.OutputTokens o = None))%bool
      then (0, false, false)
      else match creation_of o with
      | Err (exact, invalid) => (0, exact, invalid)
      | Ok creation =>
          match total_of [Usage.InputTokens o; Usage.OutputTokens o; Usage.CacheReadInputTokens o; Some creation] 0 with
          | None => (0, false, true)
          | Some total => (total, true, false)
          end
      end
  end.

(** ** The body's generation controls *)

Definition errMultiplicity : AdmissionError := ErrOther "durable budgets require a single generation per request".

Definition count_controls : list string :=
  ["n"; "best_of"; "num_generations"; "num_return_sequences"; "candidate_count"; "candidateCount"].
Definition nested_controls : list string :=
  ["inferenceConfig"; "textGenerationConfig"; "generation_config"; "additionalModelRequestFields"].

(** The members are decoded once each; an absent one says nothing. *)
Fixpoint single_generation (j : json) : bool :=
  match j with
  | JObject fs =>
      let nested := map (λ f, (f.1, single_generation f.2)) fs in
      (forallb (λ k, match member k fs with Some v => bool_decide (to_int64 v = Some 1) | None => true end) count_controls
       && forallb (λ k, match member k nested with Some b => b | None => true end) nested_controls)%bool
  | _ => false
  end.

(** [decode] is [json.Unmarshal] of a whole document. *)
Definition singleGeneration (decode : string → option json) (raw : string) : result AdmissionError unit :=
  match decode raw with
  | Some j => if single_generation j then Ok tt else Err errMultiplicity
  | None => Err errMultiplicity
  end.

(** ** The price of a service tier (pricing.go) *)

(** Occurrences of a key at the top level of a valid document. *)
Definition topLevelKeyCount (j : json) (key : string) : nat :=
  match j with JObject fs => length (List.filter (λ f, bool_decide (f.1 = key)) fs) | _ => 0 end.

Definition zero_usage : Pricing.Usage := mkUsage 0 0 0 0 0 false false.

Definition bad_tier_body : GovDecision :=
  deny 400 "invalid request for configured pricing" DenyPricingMissing (Some PricingDenial).
Definition unpriced_tier : GovDecision :=
  deny 402 "no configured price for the requested service tier" DenyPricingMissing (Some PricingDenial).

Definition PricingGuard (decode : string → option json) (table : option Pricing.Table) (targets : list PricedTarget) (raw : string) : GovDecision :=
  let decision := Governance.PricingGuard table targets in
  if negb (d_Allowed decision) then decision
  else if negb (existsb (λ t, negb (bool_decide (ContextTier table (pt_Provider t) (pt_Upstream t) zero_usage = ""))) targets) then decision
  else match decode raw with
  | Some (JObject fs as j) =>
      if (1 <? topLevelKeyCount j "service_tier")%nat then bad_tier_body
      else match member "service_tier" fs with
      | None | Some JNull => decision
      | Some (JString s) => if bool_decide (s = "default") then decision else unpriced_tier
      | Some _ => unpriced_tier
      end
  | Some JNull => decision
  | _ => bad_tier_body
  end.

(** ** The interfaces of internal/governance *)

Class BudgetAuthority (A : Type) := {
  ba_Reserve : Governor.Subject → Z → A → result AdmissionError (option BudgetPermit) * A;
  ba_Finish : BudgetPermit → option Z → bool → A → result AdmissionError unit * A }.

Class SharedAuthority (S : Type) := {
  sa_ReserveShared : SharedRequest → S → result AdmissionError (option SharedPermit) * S;
  sa_FinishShared : SharedPermit → SharedSettlement → S → result AdmissionError unit * S;
  sa_SharedUsage : Governor.Subject → S → result AdmissionError (list SharedLimit) * S }.

(** ** The attempt *)

Record CostRef := { cr_AmountUSDMicros : Z; cr_PricingMissing : bool; cr_PricingVersion : string; cr_ContextTier : string }.

Record budgetAttempt := mkAttempt
  { at_governor : Governor; at_permit : option BudgetPermit; at_shared : option SharedPermit; at_local : option nat;
    at_localInvalid : bool; at_subject : Governor.Subject; at_done : bool; at_table : option Pricing.Table;
    at_provider : string; at_upstream : string; at_window : Z }.

Definition with_done (a : budgetAttempt) : budgetAttempt :=
  mkAttempt (at_governor a) (at_permit a) (at_shared a) (at_local a) (at_localInvalid a) (at_subject a) true
    (at_table a) (at_provider a) (at_upstream a) (at_window a).

(** [a.localInvalid = invalid], and [a.permit.InvalidUsage = invalid]. *)
Definition with_invalid (invalid : bool) (a : budgetAttempt) : budgetAttempt :=
  mkAttempt (at_governor a) ((λ p, mkBudgetPermit (bp_ID p) (bp_Bound p) invalid) <$> at_permit a) (at_shared a) (at_local a) invalid
    (at_subject a) (at_done a) (at_table a) (at_provider a) (at_upstream a) (at_window a).

(** [valid] of [localObservedCost]. *)
Definition valid_count (window : Z) (n : option Z) : option Z := if out_of_range window n then None else n.

Definition localObservedCost (a : budgetAttempt) (usage : option Usage.Usage) : option Z :=
  match at_local a, usage with
  | Some _, Some usage =>
      let valid := valid_count (at_window a) in
      let input := valid (Usage.InputTokens usage) in
      let output := valid (Usage.OutputTokens usage) in
      let read := valid (Usage.CacheReadInputTokens usage) in
      let readKnown := (bool_decide (Usage.CacheReadInputTokens usage = None) || is_Some_b read)%bool in
      let cache := Usage.CacheWriteAccounting (Some usage) in
      let '(five, one) :=
        match Usage.CacheCreation_ usage with
        | Some cc => if Usage.Invalid cache then (None, None)
                     else (valid (Usage.Ephemeral5mInputTokens cc), valid (Usage.Ephemeral1hInputTokens cc))
        | None => (None, None)
        end in
      let observed := existsb is_Some_b [input; output; read; five; one] in
      let u := mkUsage (default 0 input) (default 0 output) (default 0 read) (default 0 five) (default 0 one) false false in
      let tier u := ContextTier (at_table a) (at_provider a) (at_upstream a) u in
      let price u := CostUSDMicrosChecked (at_table a) (at_provider a) (at_upstream a) u in
      if negb observed then None
      else if (negb (bool_decide (tier u = ""))
               && (negb (is_Some_b input) || negb readKnown || negb (Usage.TTLKnown cache) || Usage.Invalid cache || Usage.AccountingUncertain usage))%bool
      then None
      else match price u with
      | Ok cost => Some cost
      | Err _ =>
          if (negb (CacheWrite5m u =? 0) || negb (CacheWrite1h u =? 0))%bool then
            let u' := mkUsage (Input u) (Output u) (CacheRead u) 0 0 false false in
            if negb (bool_decide (tier u' = tier u)) then None
            else match price u' with Ok cost => Some cost | Err _ => None end
          else None
      end
  | _, _ => None
  end.

(** What the shared authority is told. *)
Definition shared_settlement (a : budgetAttempt) (usage : option Usage.Usage) (complete : bool) : SharedSettlement :=
  let '(u, exactCost, invalid) := authorityUsage usage (at_window a) in
  let '(tokens, exactTokens, invalidTokens) := authorityTokens usage (at_window a) in
  let bad := (invalid || invalidTokens)%bool in
  let toks := if (exactTokens && negb bad)%bool then Some tokens else None in
  if (exactCost && negb bad)%bool then
    match CostUSDMicrosChecked (at_table a) (at_provider a) (at_upstream a) u with
    | Err _ => mkSettlement toks None complete true
    | Ok cost => mkSettlement toks (Some cost) complete bad
    end
  else mkSettlement toks None complete bad.

(** ** The state *)

Inductive Observation :=
| ObservedAttempt
| ObservedSettlement (cost : option CostRef) (usage : option Usage.Usage) (complete : bool).

Section backends.
Context {L F B A S : Type}.

Record Backends := mkBackends
  { bk_gov : Governor.State L F B; bk_auth : A; bk_shared : S; bk_attempts : gmap nat budgetAttempt; bk_observed : list Observation }.

Definition on_gov {X} (m : ST (Governor.State L F B) X) : ST Backends X := λ st,
  let '(x, g) := m (bk_gov st) in (x, mkBackends g (bk_auth st) (bk_shared st) (bk_attempts st) (bk_observed st)).
Definition on_auth {X} (m : A → X * A) : ST Backends X := λ st,
  let '(x, a) := m (bk_auth st) in (x, mkBackends (bk_gov st) a (bk_shared st) (bk_attempts st) (bk_observed st)).
Definition on_shared {X} (m : S → X * S) : ST Backends X := λ st,
  let '(x, s) := m (bk_shared st) in (x, mkBackends (bk_gov st) (bk_auth st) s (bk_attempts st) (bk_observed st)).
Definition observe (o : Observation) : ST Backends unit := λ st,
  (tt, mkBackends (bk_gov st) (bk_auth st) (bk_shared st) (bk_attempts st) (bk_observed st ++ [o])).
Definition put_attempt (i : nat) (a : budgetAttempt) : ST Backends unit := λ st,
  (tt, mkBackends (bk_gov st) (bk_auth st) (bk_shared st) (<[i := a]> (bk_attempts st)) (bk_observed st)).
Definition get_attempt (i : nat) : ST Backends (option budgetAttempt) := λ st, (bk_attempts st !! i, st).
(** [&budgetAttempt{...}]. *)
Definition new_attempt (a : budgetAttempt) : ST Backends nat := λ st,
  let i := new_loc (bk_attempts st) in
  (i, mkBackends (bk_gov st) (bk_auth st) (bk_shared st) (<[i := a]> (bk_attempts st)) (bk_observed st)).
End backends.
Arguments Backends : clear implicits.

Section attempt.
Context {L F B A S : Type} `{LimiterStore L F} `{BudgetStore B} `{BudgetAuthority A} `{SharedAuthority S}.
Context (range : gmap string nat → list (string * nat)).
Context (decode : string → option json).
Abbreviation St := (Backends L F B A S).
Abbreviation Attempt := (STE St AdmissionError).

Definition checked {X} (m : ST St (result AdmissionError X)) : Attempt X := m.

Definition attempt_subject (p : Principal) : Governor.Subject :=
  {| s_Team := pr_Team p; s_KeyID := pr_KeyID p; s_User := AccountSubject p |}.
Definition attempt_key (p : Principal) : KeyPolicy :=
  {| kp_RatePerMin := 0; kp_TokensPerMinute := 0; kp_BudgetMicrosPerMonth := pr_BudgetUSDMicros p;
     kp_BudgetMicrosPerDay := pr_BudgetUSDMicrosPerDay p |}.

(** [None] is the nil governor. *)
Definition HasBudgetAuthority (g : option Governor) : bool := match g with Some g => Governor.authority g | None => false end.
Definition has_shared (g : option Governor) : bool := match g with Some g => HasSharedAuthority g | None => false end.

(** ** Reserving (ReserveBudget, reserveShared) *)

(** [bundle]: the generation and the requested model that the request's context carries. *)
Definition reserveShared (g : Governor) (p : Principal) (bundle : option (string * string)) (target : ChainTarget)
    (table : option Pricing.Table) (window costBound : Z) : Attempt (option nat) :=
  if (HasBudgetAuthority (Some g) || (window <=? 0) || (MaxInt64 / 5 <? window))%bool then early ErrSharedUnavailable
  else
    let '(generation, requested) := default ("", "") bundle in
    let fingerprint := if pr_IdentityRequired p then pr_IdentityFingerprint p else "" in
    permit ← checked (on_shared (sa_ReserveShared (mkSharedRequest fingerprint (attempt_subject p) (pr_SharedRevision p) generation requested
                                                     (ct_Model target) (wrap64 (5 * window)) costBound)));
    match permit with
    | None => early ErrSharedUnavailable
    | Some permit =>
        i ← ste_lift (new_attempt (mkAttempt g None (Some permit) None false (attempt_subject p) false table
                                     (ct_ProviderName target) (ct_Upstream target) window));
        mret (Some i)
    end.

Fixpoint each_admission (f : option nat → ST (Governor.State L F B) unit) (admissions : list (option nat)) : ST St unit :=
  match admissions with
  | [] => mret tt
  | a :: admissions => _ ← on_gov (f a); each_admission f admissions
  end.

(** The money of the node and of the durable authority. *)
Definition reserveLocal (g : Governor) (p : Principal) (target : ChainTarget) (table : option Pricing.Table) (window : Z)
    (bound : Z) (bounded : bool) (admissions : list (option nat)) : Attempt (option nat) :=
  local ← checked (on_gov (ReserveLocalBudget range g (attempt_subject p) (attempt_key p) bound bounded));
  _ ← (if is_Some_b local then ste_lift (each_admission OwnLocalMoney admissions) else mret tt);
  let attempt permit := mkAttempt g permit None local false {| s_Team := ""; s_KeyID := ""; s_User := "" |} false table
                          (ct_ProviderName target) (ct_Upstream target) (if window <=? 0 then MaxInt64 else window) in
  if negb (HasBudgetAuthority (Some g)) then i ← ste_lift (new_attempt (attempt None)); mret (Some i)
  else
    r ← ste_lift (on_auth (ba_Reserve (attempt_subject p) bound));
    match r with
    | Ok (Some permit) => i ← ste_lift (new_attempt (attempt (Some permit))); mret (Some i)
    | Ok None => _ ← ste_lift (on_gov (FinishLocalBudget g local None true false "" "")); early ErrAuthorityInvalid
    | Err e => _ ← ste_lift (on_gov (FinishLocalBudget g local None true false "" "")); early e
    end.

(** [pricing.AuthorityBound], zero with an error. *)
Definition bound_of (st : Live.State) (target : ChainTarget) (window : Z) : Z * bool :=
  match AuthorityBound (pricing st) (ct_ProviderName target) (ct_Upstream target) window window with
  | Ok bound => (bound, true)
  | Err _ => (0, false)
  end.

Definition reserve_body (g : option Governor) (p : Principal) (bundle : option (string * string)) (target : ChainTarget)
    (state : option Live.State) (raw : string) (admissions : list (option nat)) : Attempt (option nat) :=
  let subject := attempt_subject p in
  let key := attempt_key p in
  match g with
  | None => mret None
  | Some g =>
      if negb (HasBudgetAuthority (Some g) || HasSharedAuthority g || HasLocalBudget (Some g) subject key)%bool then mret None
      else
        _ ← checked (mret (singleGeneration decode raw));
        match state with
        | None => early ErrAuthorityUnavailable
        | Some state =>
            match Route state (ct_Model target) with
            | None => early ErrAuthorityUnavailable
            | Some model =>
                let window := mc_ContextWindow model in
                let '(bound, bounded) := bound_of state target window in
                if (negb bounded && (HasBudgetAuthority (Some g) || HasSharedAuthority g))%bool then early ErrAuthorityUnavailable
                else if HasSharedAuthority g then reserveShared g p bundle target (pricing state) window bound
                else reserveLocal g p target (pricing state) window bound bounded admissions
            end
        end
  end.

(** [Ok None]: no budget of any kind, and nothing to finish. *)
Definition ReserveBudget (g : option Governor) (p : Principal) (bundle : option (string * string)) (target : ChainTarget)
    (state : option Live.State) (raw : string) (admissions : list (option nat)) : ST St (result AdmissionError (option nat)) :=
  _ ← observe ObservedAttempt;
  r ← reserve_body g p bundle target state raw admissions;
  _ ← each_admission (match r with Err _ => CancelUndispatched | Ok _ => MarkDispatched end) admissions;
  mret r.

(** ** Reporting the shared counters (governance/shared.go) *)

(** [max] of two floats, neither of them a NaN. *)
Definition fmax (x y : float64) : float64 := if fltb x y then y else x.

Definition shared_gauge (scope kind window : string) (l : SharedLimit) : bool :=
  (bool_decide (sl_Scope l = scope) && bool_decide (sl_Kind l = kind) && bool_decide (sl_Window l = window))%bool.

Fixpoint observe_limits (g : Governor) (s : Governor.Subject) (limits : list SharedLimit) (budget quota : float64)
    : ST St (float64 * float64) :=
  match limits with
  | [] => mret (budget, quota)
  | l :: limits =>
      if sl_Limit l <=? 0 then observe_limits g s limits budget quota
      else
        let ratio := fdiv (of_int (sl_Used l)) (of_int (sl_Limit l)) in
        let team := shared_gauge "team" "microUSD" "CalendarMonth" l in
        _ ← (if (team && notifyBudget g)%bool then on_gov (emit (NotifyBudget (s_Team s) (sl_Used l) (sl_Limit l))) else mret tt);
        _ ← (if (shared_gauge "key" "microUSD" "CalendarMonth" l && notifyKeyBudget g)%bool
             then on_gov (emit (NotifyKeyBudget (s_Team s) (s_KeyID s) (sl_Used l) (sl_Limit l))) else mret tt);
        observe_limits g s limits (if team then fmax budget ratio else budget)
          (if shared_gauge "team" "tokens" "CalendarDay" l then fmax quota ratio else quota)
  end.

Definition ObserveShared (g : Governor) (s : Governor.Subject) : ST St unit :=
  if negb (HasSharedAuthority g) then mret tt
  else
    r ← on_shared (sa_SharedUsage s);
    match r with
    | Err _ => mret tt
    | Ok limits =>
        ratios ← observe_limits g s limits (of_int 0) (of_int 0);
        _ ← on_gov (emit (SetBudgetUtilization (s_Team s) ratios.1));
        on_gov (emit (SetQuotaUtilization (s_Team s) "day" ratios.2))
    end.

(** ** Finishing, once *)

(** [a.done.CompareAndSwap(false, true)], then the body. *)
Definition finish_once (i : nat) (a : budgetAttempt) (body : ST St unit) : ST St unit :=
  if at_done a then mret tt else _ ← put_attempt i (with_done a); body.

Definition finishShared (i : nat) (a : budgetAttempt) (permit : SharedPermit) (settlement : SharedSettlement) : ST St unit :=
  finish_once i a
    (r ← on_shared (sa_FinishShared permit settlement);
     match r with Err _ => mret tt | Ok _ => ObserveShared (at_governor a) (at_subject a) end).

(** [FinishBudget]: its error leaves the reservation held. *)
Definition finish_authority (a : budgetAttempt) (actual : option Z) (complete : bool) : ST St unit :=
  match at_permit a with
  | None => mret tt
  | Some permit =>
      if HasBudgetAuthority (Some (at_governor a)) then _ ← on_auth (ba_Finish permit actual complete); mret tt else mret tt
  end.

Definition finishObserved (i : nat) (a : budgetAttempt) (localActual authorityActual : option Z) (complete : bool) : ST St unit :=
  match at_shared a with
  | Some permit => finishShared i a permit (mkSettlement None authorityActual complete false)
  | None =>
      finish_once i a
        (_ ← on_gov (FinishLocalBudget (at_governor a) (at_local a) localActual (complete && is_Some_b localActual)%bool
                       (at_localInvalid a) (at_provider a) (at_upstream a));
         finish_authority a authorityActual complete)
  end.

(** The finalizer that [ReserveBudget] returns. *)
Definition finalize (i : nat) : ST St unit :=
  a ← get_attempt i;
  match a with
  | None => mret tt
  | Some a =>
      match at_shared a with
      | Some permit => finishShared i a permit (mkSettlement None None false false)
      | None => finishObserved i a None None false
      end
  end.

(** ** Settling (SettleBudget, settleShared) *)

Definition settleShared (i : nat) (a : budgetAttempt) (permit : SharedPermit) (usage : option Usage.Usage) (complete : bool) : ST St bool :=
  let settlement := shared_settlement a usage complete in
  _ ← finishShared i a permit settlement;
  mret (complete && negb (ss_InvalidUsage settlement) && is_Some_b (ss_CostMicroUSD settlement) && is_Some_b (ss_Tokens settlement))%bool.

(** The usage is invalid, or its cost is not known: only what was observed counts. *)
Definition settle_uncertain (i : nat) (a : budgetAttempt) (usage : option Usage.Usage) : ST St bool :=
  _ ← put_attempt i a; _ ← finishObserved i a (localObservedCost a usage) None false; mret false.

Definition settle_attempt (i : nat) (a : budgetAttempt) (usage : option Usage.Usage) (complete : bool) : ST St bool :=
  match at_shared a with
  | Some permit => settleShared i a permit usage complete
  | None =>
      let '(u, exact, invalid) := authorityUsage usage (at_window a) in
      if (negb exact || invalid)%bool then settle_uncertain i (with_invalid invalid a) usage
      else match CostUSDMicrosChecked (at_table a) (at_provider a) (at_upstream a) u with
      | Err _ => settle_uncertain i (with_invalid true a) usage
      | Ok actual =>
          let a := with_invalid false a in
          _ ← put_attempt i a; _ ← finishObserved i a (Some actual) (Some actual) complete; mret complete
      end
  end.

(** [attempt] is the one the request's context carries. *)
Definition SettleBudget (attempt : option nat) (cost : option CostRef) (usage : option Usage.Usage) (complete : bool) : ST St unit :=
  a ← match attempt with Some i => get_attempt i | None => mret None end;
  observedComplete ← match attempt, a with
                     | Some i, Some a => settle_attempt i a usage complete
                     | _, _ => mret complete
                     end;
  observe (ObservedSettlement cost usage observedComplete).
End attempt.

(** ** Answers to a refusal *)

(** [errors.As] of a shared denial, and [errors.Is]. *)
Fixpoint as_shared (e : AdmissionError) : option SharedDenial :=
  match e with ErrSharedDenial d => Some d | ErrBudgetDenial e _ => as_shared e | _ => None end.

Fixpoint errors_Is (same : AdmissionError → bool) (e : AdmissionError) : bool :=
  (same e || match e with ErrBudgetDenial e _ => errors_Is same e | _ => false end)%bool.

Definition is_multiplicity (e : AdmissionError) : bool :=
  match e with ErrOther text => bool_decide (text = "durable budgets require a single generation per request") | _ => false end.
Definition is_shared_unavailable (e : AdmissionError) : bool := match e with ErrSharedUnavailable => true | _ => false end.
Definition is_exhausted (e : AdmissionError) : bool := match e with ErrAuthorityExhausted | ErrLocalBudgetExhausted => true | _ => false end.

Definition BudgetStatus (e : AdmissionError) : Z :=
  match as_shared e with
  | Some d => sd_Status d
  | None =>
      if errors_Is is_shared_unavailable e then 503
      else if errors_Is is_multiplicity e then 400
      else if errors_Is is_exhausted e then 402
      else 503
  end.

(** The value of the Retry-After header, in seconds. *)
Definition BudgetErrorHeaders (e : AdmissionError) : option Z :=
  match as_shared e with
  | Some d => if 0 <? sd_RetryAfter d then Some (sd_RetryAfter d) else if BudgetStatus e =? 503 then Some 1 else None
  | None => if BudgetStatus e =? 503 then Some 1 else None
  end.

(** A team captured with the key is the team, absent or not. *)
Definition TeamSnapshot (p : Principal) (lookup : option (string → option TeamRecord)) : option TeamRecord :=
  if pr_TeamSnapshotLoaded p then pr_TeamSnapshot p
  else match lookup with Some f => f (pr_Team p) | None => None end.
