(* ===== verification/SettlementTheorems.v ===== *)
(** * Money of an attempt: what it guarantees

    Whatever a provider reports, what is settled stays within what was reserved;
    an exact settlement is the bill that is recorded; an attempt settles once;
    and a history of attempts meets the hypotheses of the ledgers it drives. *)

From S2P Require Import Prelude GoTime GoFloat Json Usage Pricing Budget Limiter Denial Governor LocalMoney Governance Live Router Escrow Shared SharedSettle Settlement.

(** ** Counts *)

Lemma in_range_le w v : out_of_range w v = false → 0 <= w → 0 <= deref64 v <= w.
Proof. destruct v as [n|]; simpl; [|lia]. intros [??]%orb_false_iff ?. bsplit. lia. Qed.

Lemma valid_count_bound w n v : valid_count w n = Some v → 0 <= v <= w.
Proof. unfold valid_count, out_of_range. destruct n; [|done]. repeat case_match; intros; simplify_eq. rewrite orb_false_iff in *. bsplit. lia. Qed.

Lemma valid_count_default w n : 0 <= w → 0 <= default 0 (valid_count w n) <= w.
Proof. intros Hw. destruct (valid_count w n) eqn:E; simpl; [by eapply valid_count_bound|lia]. Qed.

(** What a usage must be for its price to be exact. *)
Definition exact_split (u : Usage.Usage) (five one : Z) : Prop :=
  match Usage.CacheCreation_ u with
  | None => deref64 (Usage.CacheCreationInputTokens u) = 0 ∧ five = 0 ∧ one = 0
  | Some cc => no_extra (cc_Extra cc) = true ∧ Ephemeral5mInputTokens cc = Some five ∧ Ephemeral1hInputTokens cc = Some one
      ∧ match Usage.CacheCreationInputTokens u with Some total => five <= total ∧ one = total - five | None => True end
  end.

Definition counts_within (w : Z) (u : Usage.Usage) : Prop := Forall (λ v, out_of_range w v = false) (reported u).

Lemma authorityUsage_exact ou w pu invalid :
  authorityUsage ou w = (pu, true, invalid) →
  invalid = false ∧ ∃ u i o five one, ou = Some u ∧ counts_within w u ∧ Usage.AccountingUncertain u = false
    ∧ Usage.InputTokens u = Some i ∧ Usage.OutputTokens u = Some o ∧ exact_split u five one
    ∧ pu = mkUsage i o (deref64 (Usage.CacheReadInputTokens u)) five one false false.
Proof.
  unfold authorityUsage, exact_split, counts_within. destruct ou as [u|]; [|done].
  destruct (existsb _ _) eqn:Er; [done|].
  apply existsb_Forall in Er as Hr.
  destruct (Usage.AccountingUncertain u) eqn:Eu; [done|]. destruct (Usage.InputTokens u) as [i|] eqn:Ei; [|done].
  destruct (Usage.OutputTokens u) as [o|] eqn:Eo; [|done]. destruct (CacheCreation_ u) as [cc|] eqn:Ec.
  - destruct (no_extra _) eqn:En; [|done]. cbn [negb].
    destruct (Ephemeral5mInputTokens cc) as [five|] eqn:E5; [|done]. destruct (Ephemeral1hInputTokens cc) as [one|] eqn:E1; [|done].
    destruct (CacheCreationInputTokens u) as [total|] eqn:Et.
    + destruct (_ || _)%bool eqn:Eb; [done|]. bsplit.
      intros [= <- <-]. split; [done|]. exists u, i, o, five, one. rewrite Ec, Et. split_and!; try done; lia.
    + intros [= <- <-]. split; [done|]. exists u, i, o, five, one. rewrite Ec, Et. by split_and!.
  - intros [= <- Hz <-]. split; [done|]. exists u, i, o, 0, 0. rewrite Ec. bsplit. by split_and!.
Qed.

(** The counts of an exact usage are within the window. *)
Lemma exact_within u w five one :
  counts_within w u → exact_split u five one → 0 <= w →
  0 <= deref64 (Usage.InputTokens u) <= w ∧ 0 <= deref64 (Usage.OutputTokens u) <= w
  ∧ 0 <= deref64 (Usage.CacheReadInputTokens u) <= w ∧ 0 <= five <= w ∧ 0 <= one <= w.
Proof.
  unfold counts_within, reported, exact_split. intros Hr Hs Hw. rewrite Forall_app in Hr. destruct Hr as [Hr Hc].
  rewrite !Forall_cons in Hr. destruct Hr as (H1 & H2 & H3 & _ & _).
  pose proof (in_range_le _ _ H1 Hw). pose proof (in_range_le _ _ H2 Hw). pose proof (in_range_le _ _ H3 Hw).
  enough (0 <= five <= w ∧ 0 <= one <= w) by naive_solver. destruct (CacheCreation_ u) as [cc|].
  - rewrite !Forall_cons in Hc. destruct Hc as (H5 & H6 & _). destruct Hs as (_ & E5 & E1 & _). rewrite E5 in H5. rewrite E1 in H6.
    split; [apply (in_range_le _ _ H5 Hw)|apply (in_range_le _ _ H6 Hw)].
  - destruct Hs as (_ & -> & ->). lia.
Qed.

(** ** Costs *)

Lemma AuthorityBound_positive t p m w w' bound : AuthorityBound t p m w w' = Ok bound → 0 < w ∧ 0 < w'.
Proof. unfold AuthorityBound. destruct t; [|done]. destruct (_ || _)%bool eqn:E; [done|]. bsplit. lia. Qed.

Lemma exact_cost_within t p m w bound ou pu invalid cost :
  AuthorityBound t p m w w = Ok bound → authorityUsage ou w = (pu, true, invalid) → CostUSDMicrosChecked t p m pu = Ok cost →
  0 <= cost <= bound.
Proof.
  intros Hb Hu Hc. apply authorityUsage_exact in Hu as (_ & u & i & o & five & one & -> & Hr & _ & Ei & Eo & Hs & ->).
  destruct (AuthorityBound_positive _ _ _ _ _ _ Hb) as [Hw _].
  destruct (exact_within u w five one Hr Hs ltac:(lia)) as (H1 & H2 & H3 & H5 & H6). rewrite Ei in H1. rewrite Eo in H2. simpl in *.
  eapply AuthorityBound_dominates; [exact Hb|exact Hc|simpl; lia..].
Qed.

(** The price of the categories that were observed. *)
Lemma local_cost_within a usage bound cost :
  AuthorityBound (at_table a) (at_provider a) (at_upstream a) (at_window a) (at_window a) = Ok bound →
  localObservedCost a usage = Some cost → 0 <= cost <= bound.
Proof.
  intros Hb. destruct (AuthorityBound_positive _ _ _ _ _ _ Hb) as [Hw _].
  unfold localObservedCost. destruct (at_local a); [|done]. destruct usage as [u|]; [|done].
  set (w := at_window a) in *. pose proof (valid_count_default w) as Hv.
  assert (Hsplit : ∀ f o, (f, o) = match CacheCreation_ u with
      | Some cc => if Usage.Invalid (CacheWriteAccounting (Some u)) then (None, None)
                   else (valid_count w (Ephemeral5mInputTokens cc), valid_count w (Ephemeral1hInputTokens cc))
      | None => (None, None) end → 0 <= default 0 f <= w ∧ 0 <= default 0 o <= w).
  { intros f o E. destruct (CacheCreation_ u); [|simplify_eq; simpl; lia].
    destruct (Usage.Invalid _); simplify_eq; simpl; [lia|]. split; apply Hv; lia. }
  destruct (match CacheCreation_ u with Some _ => _ | None => _ end) as [five one] eqn:E.
  destruct (Hsplit five one eq_refl) as [H5 H1]. cbv zeta. set (pu := mkUsage _ _ _ _ _ _ _).
  destruct (negb (existsb _ _)); [done|]. destruct (_ && _)%bool; [done|].
  pose proof (Hv (Usage.InputTokens u) ltac:(lia)). pose proof (Hv (Usage.OutputTokens u) ltac:(lia)).
  pose proof (Hv (Usage.CacheReadInputTokens u) ltac:(lia)).
  destruct (CostUSDMicrosChecked _ _ _ pu) eqn:Ep.
  - intros [= <-]. eapply AuthorityBound_dominates; [exact Hb|exact Ep|simpl; lia..].
  - destruct (_ || _)%bool; [|done]. destruct (negb _); [done|].
    match goal with |- match ?x with Ok _ => _ | Err _ => _ end = _ → _ => destruct x eqn:Ep'; [|done] end. intros [= <-].
    eapply AuthorityBound_dominates; [exact Hb|exact Ep'|simpl; lia..].
Qed.

(** ** Tokens *)

Lemma total_of_spec l t n :
  0 <= t → total_of l t = Some n → Forall (λ v, 0 <= deref64 v) l ∧ n = t + sumZ (map deref64 l) ∧ (t <= MaxInt64 → n <= MaxInt64).
Proof.
  revert t. induction l as [|[v|] l IH]; intros t Ht; simpl.
  - intros [= <-]. split_and!; [constructor|lia|done].
  - destruct (_ || _)%bool eqn:E; [done|]. bsplit. rewrite wrap64_id by int_lia. intros (H1 & -> & H3)%IH; [|lia].
    split_and!; [by constructor|simpl; lia|intros _; apply H3; lia].
  - intros (H1 & -> & H3)%IH; [|done]. split_and!; [by constructor|simpl; lia|done].
Qed.

Lemma authorityTokens_exact ou w n invalid :
  0 <= w → authorityTokens ou w = (n, true, invalid) →
  invalid = false ∧ ∃ u creation, ou = Some u ∧ Usage.AccountingUncertain u = false ∧ is_Some (Usage.InputTokens u) ∧ is_Some (Usage.OutputTokens u)
    ∧ counts_within w u ∧ creation_of u = Ok creation ∧ 0 <= creation <= 2 * w
    ∧ n = deref64 (Usage.InputTokens u) + deref64 (Usage.OutputTokens u) + deref64 (Usage.CacheReadInputTokens u) + creation
    ∧ 0 <= n <= 5 * w ∧ n <= MaxInt64.
Proof.
  intros Hw. unfold authorityTokens. destruct ou as [u|]; [|done].
  destruct ((authorityUsage (Some u) w).2) eqn:Einv; [done|].
  assert (Hr : counts_within w u).
  { revert Einv. unfold authorityUsage. destruct (existsb _ _) eqn:E; [done|]. intros _. by apply existsb_Forall. }
  destruct (_ || _)%bool eqn:Eu; [done|]. bsplit.
  destruct (creation_of u) as [creation|[]] eqn:Ec.
  2: { unfold creation_of in Ec. repeat (case_match; simplify_eq); done. }
  destruct (total_of _ _) as [total|] eqn:Et; [|done]. intros [= <- <-]. split; [done|].
  apply total_of_spec in Et as (Hpos & -> & Hmax); [|lia].
  rewrite !Forall_cons in Hpos. destruct Hpos as (P1 & P2 & P3 & P4 & _).
  assert (0 <= creation <= 2 * w).
  { pose proof Hr as Hr'. unfold counts_within, reported in Hr'. rewrite Forall_app, !Forall_cons in Hr'. destruct Hr' as [(_ & _ & _ & H4 & _) Hc].
    pose proof (in_range_le _ _ H4 Hw). unfold creation_of in Ec.
    destruct (CacheCreationInputTokens u) as [c|]; destruct (CacheCreation_ u) as [cc|].
    - destruct (split_within _ _ _); simplify_eq. simpl in *. lia.
    - simplify_eq. simpl in *. lia.
    - rewrite !Forall_cons in Hc. destruct Hc as (H5 & H6 & _).
      destruct (Ephemeral5mInputTokens cc) as [five|]; [|done]. destruct (Ephemeral1hInputTokens cc) as [one|]; [|done].
      pose proof (in_range_le _ _ H5 Hw). pose proof (in_range_le _ _ H6 Hw). simpl in *.
      destruct (_ <? _) eqn:E; [done|]. bsplit. rewrite wrap64_id in Ec by int_lia. simplify_eq. lia.
    - simplify_eq. lia. }
  pose proof Hr as Hr'. unfold counts_within, reported in Hr'. rewrite Forall_app, !Forall_cons in Hr'. destruct Hr' as [(K1 & K2 & K3 & _ & _) _].
  pose proof (in_range_le _ _ K1 Hw). pose proof (in_range_le _ _ K2 Hw). pose proof (in_range_le _ _ K3 Hw). simpl in *.
  specialize (Hmax ltac:(int_lia)). repeat case_bool_decide; try done.
  exists u, creation. split_and!; try done; try lia; by apply not_eq_None_Some.
Qed.

(** ** The bill *)

Lemma exact_is_recorded t p m w u pu invalid cost :
  authorityUsage (Some u) w = (pu, true, invalid) → CostUSDMicrosChecked t p m pu = Ok cost → FromUsage (Some u) = pu.
Proof.
  intros Hu Hc. apply authorityUsage_exact in Hu as (_ & u' & i & o & five & one & [= <-] & _ & Eu & Ei & Eo & Hs & ->).
  apply cost_inv in Hc as (_ & _ & _ & Ht & _). apply TotalTokens_spec in Ht as (_ & Hpos & _ & Hmax).
  unfold usage_counts in Hpos, Hmax. cbn [Input Output CacheRead CacheWrite5m CacheWrite1h map] in Hpos, Hmax.
  rewrite !Forall_cons in Hpos. destruct Hpos as (P1 & P2 & P3 & P5 & P6 & _). simpl in Hmax.
  unfold FromUsage. rewrite Eu, Ei, Eo. cbn [orb].
  replace (match Usage.CacheReadInputTokens u with Some v => v | None => 0 end) with (deref64 (Usage.CacheReadInputTokens u))
    by (by destruct (Usage.CacheReadInputTokens u)).
  unfold exact_split in Hs. unfold CacheWriteAccounting. destruct (CacheCreation_ u) as [cc|].
  - destruct Hs as (En & E5 & E1 & Hs). rewrite E5, E1, En. simpl deref64. rewrite !bool_decide_true by done. cbn [andb].
    destruct (CacheCreationInputTokens u) as [total|]; simpl deref64.
    + destruct Hs as [Hle ->]. replace (five + (total - five)) with total by lia.
      replace (_ || _ || _ || _)%bool with false by (symmetry; rewrite !orb_false_iff, !Z.ltb_ge; lia).
      replace (_ || _)%bool with false by (symmetry; rewrite orb_false_iff, Z.ltb_ge, Z.eqb_refl, andb_false_r; split; [lia|done]).
      simpl. f_equal; lia.
    + replace (_ || _ || _ || _)%bool with false by (symmetry; rewrite !orb_false_iff, !Z.ltb_ge; lia). by rewrite ?bool_decide_false.
  - destruct Hs as (E0 & -> & ->). rewrite E0. simpl. done.
Qed.

Lemma creation_is_counted u w creation :
  counts_within w u → 0 <= w → creation_of u = Ok creation → QuantityKnown (CacheWriteAccounting (Some u)) = true →
  let c := CacheWriteAccounting (Some u) in
  Usage.Invalid c = false ∧ 0 <= FiveMinutes c ∧ 0 <= OneHour c ∧ FiveMinutes c + OneHour c = creation.
Proof.
  intros Hr Hw Hc. unfold counts_within, reported in Hr. rewrite Forall_app, !Forall_cons in Hr. destruct Hr as [(_ & _ & _ & H4 & _) Hcc].
  pose proof (in_range_le _ _ H4 Hw) as B4. unfold creation_of in Hc. unfold CacheWriteAccounting.
  destruct (CacheCreation_ u) as [cc|]; destruct (CacheCreationInputTokens u) as [total|]; cbn [from_option default deref64] in *.
  1, 2: rewrite !Forall_cons in Hcc; destruct Hcc as (H5 & H6 & _);
    pose proof (in_range_le _ _ H5 Hw); pose proof (in_range_le _ _ H6 Hw);
    destruct (_ || _ || _ || _)%bool eqn:Eb; [done|]; bsplit.
  - destruct (_ || _)%bool eqn:Ec; [done|]. bsplit. intros _. destruct (split_within _ _ _); [|done]. simplify_eq. unfold id in *. simpl. split_and!; try done; lia.
  - destruct (Ephemeral5mInputTokens cc) as [five|]; [|done]. destruct (Ephemeral1hInputTokens cc) as [one|]; [|done].
    cbn [deref64 from_option default] in *. unfold id in *. destruct (_ <? _) in Hc; [done|]. rewrite wrap64_id in Hc by int_lia. simplify_eq. intros _. simpl. split_and!; try done; lia.
  - simplify_eq. unfold id in *. simpl. intros Hq. bsplit. split_and!; lia.
  - simplify_eq. unfold id in *. simpl. intros _. split_and!; [done|lia..].
Qed.

(** C23: The bill that settles is the bill that is recorded.  When the usage a
    provider reported has an exact price, the price at which the attempt is
    settled is the one the records and the counters charge for the same usage;
    when its number of tokens is exact and its cache writes are fully counted,
    it is the number that is recorded. *)
Theorem settled_is_recorded w u :
  0 <= w →
  (∀ t p m pu invalid cost, authorityUsage (Some u) w = (pu, true, invalid) → CostUSDMicrosChecked t p m pu = Ok cost →
     CostUSDMicros t p m (FromUsage (Some u)) = (cost, false))
  ∧ (∀ n invalid, authorityTokens (Some u) w = (n, true, invalid) → QuantityKnown (CacheWriteAccounting (Some u)) = true →
     TotalTokens (FromUsage (Some u)) = Ok n).
Proof.
  intros Hw. split.
  - intros t p m pu invalid cost Hu Hc. rewrite (exact_is_recorded t p m w u pu invalid cost Hu Hc). unfold CostUSDMicros. by rewrite Hc.
  - intros n invalid Ht Hq.
    destruct (authorityTokens_exact _ _ _ _ Hw Ht) as (_ & u' & creation & [= <-] & _ & [i Ei] & [o Eo] & Hr & Hc & _ & -> & _ & Hmax).
    destruct (creation_is_counted u w creation Hr Hw Hc Hq) as (Hi & P5 & P6 & Hsum). rewrite <- Hsum in Hmax |- *.
    unfold counts_within, reported in Hr. rewrite Forall_app, !Forall_cons in Hr. destruct Hr as [(K1 & K2 & K3 & _ & _) _].
    pose proof (in_range_le _ _ K1 Hw). pose proof (in_range_le _ _ K2 Hw). pose proof (in_range_le _ _ K3 Hw).
    apply TotalTokens_spec. unfold FromUsage, usage_counts. cbn [Input Output CacheRead CacheWrite5m CacheWrite1h Invalid map].
    rewrite Ei, Eo in *. simpl deref64 in *. unfold id in *.
    replace (match Usage.CacheReadInputTokens u with Some v => v | None => 0 end) with (deref64 (Usage.CacheReadInputTokens u))
      by (by destruct (Usage.CacheReadInputTokens u)).
    split_and!; [done|by repeat constructor; lia| |lia]. simpl. lia.
Qed.

(** ** An attempt settles once *)

Section attempt.
Context {L F B A S : Type} `{LimiterStore L F} `{BudgetStore B} `{BudgetAuthority A} `{SharedAuthority S}.
Abbreviation St := (Backends L F B A S).

(** Everything but the attempts themselves and the observers. *)
Definition monies (st : St) := (bk_gov st, bk_auth st, bk_shared st).

Definition keeps_attempts {X} (m : ST St X) : Prop := ∀ st, bk_attempts (m st).2 = bk_attempts st.

Lemma keeps_ret {X} (x : X) : keeps_attempts (mret x).
Proof. done. Qed.
Lemma keeps_bind {X Y} (m : ST St X) (f : X → ST St Y) : keeps_attempts m → (∀ x, keeps_attempts (f x)) → keeps_attempts (m ≫= f).
Proof.
  intros Hm Hf st. unfold mbind, st_mbind. specialize (Hm st). destruct (m st) as [x st']. simpl in Hm. by rewrite Hf.
Qed.
Lemma keeps_gov {X} (m : ST (Governor.State L F B) X) : keeps_attempts (on_gov m).
Proof. intros st. unfold on_gov. by destruct (m _). Qed.
Lemma keeps_auth {X} (m : A → X * A) : keeps_attempts (on_auth m).
Proof. intros st. unfold on_auth. by destruct (m _). Qed.
Lemma keeps_shared {X} (m : S → X * S) : keeps_attempts (on_shared m).
Proof. intros st. unfold on_shared. by destruct (m _). Qed.
Lemma keeps_observe o : keeps_attempts (observe o).
Proof. done. Qed.

Create HintDb keeps.
#[local] Hint Resolve keeps_ret keeps_gov keeps_auth keeps_shared keeps_observe : keeps.

Lemma keeps_each f l : keeps_attempts (each_admission f l).
Proof. induction l as [|a l IH]; simpl; [auto with keeps|]. apply keeps_bind; auto with keeps. Qed.

Lemma keeps_limits g s limits b q : keeps_attempts (observe_limits g s limits b q).
Proof.
  revert b q. induction limits as [|l limits IH]; intros b q; simpl; [auto with keeps|]. destruct (_ <=? _); [done|].
  repeat (apply keeps_bind; [case_match; auto with keeps|intros _]). apply IH.
Qed.

Lemma keeps_ObserveShared g s : keeps_attempts (ObserveShared g s).
Proof.
  unfold ObserveShared. case_match; [auto with keeps|]. apply keeps_bind; [auto with keeps|]. intros [limits|e]; [|auto with keeps].
  apply keeps_bind; [apply keeps_limits|]. intros r. apply keeps_bind; auto with keeps.
Qed.

Lemma keeps_finish_authority a actual complete : keeps_attempts (finish_authority a actual complete).
Proof. unfold finish_authority. repeat case_match; auto with keeps. apply keeps_bind; auto with keeps. Qed.

(** Finishing leaves its attempt done, whatever the outcome, and no other touched. *)
Lemma finish_once_spec i a body (st : St) :
  bk_attempts st !! i = Some a → keeps_attempts body →
  bk_attempts (finish_once i a body st).2 = <[i := with_done a]> (bk_attempts st).
Proof.
  intros Ha Hb. unfold finish_once. destruct (at_done a) eqn:Ed; simpl.
  - rewrite insert_id; [done|]. rewrite Ha. destruct a; simpl in *. by rewrite Ed.
  - unfold mbind, st_mbind, put_attempt. by rewrite Hb.
Qed.

Lemma finishShared_attempts i a permit settlement (st : St) :
  bk_attempts st !! i = Some a →
  bk_attempts (finishShared i a permit settlement st).2 = <[i := with_done a]> (bk_attempts st).
Proof.
  intros Ha. apply finish_once_spec; [done|]. apply keeps_bind; [auto with keeps|].
  intros []; [apply keeps_ObserveShared|auto with keeps].
Qed.

Lemma finishObserved_attempts i a la aa complete (st : St) :
  bk_attempts st !! i = Some a →
  bk_attempts (finishObserved i a la aa complete st).2 = <[i := with_done a]> (bk_attempts st).
Proof.
  intros Ha. unfold finishObserved. destruct (at_shared a); [by apply finishShared_attempts|].
  apply finish_once_spec; [done|]. apply keeps_bind; [auto with keeps|]. intros _. apply keeps_finish_authority.
Qed.

Lemma bind_snd {X Y} (m : ST St X) (f : X → ST St Y) st : (mbind f m st).2 = (f (m st).1 (m st).2).2.
Proof. unfold mbind, st_mbind. by destruct (m st). Qed.

(** A done attempt costs nothing more. *)
Lemma done_finishObserved i a la aa complete (st : St) : at_done a = true → finishObserved i a la aa complete st = (tt, st).
Proof. intros Hd. unfold finishObserved, finishShared, finish_once. rewrite Hd. by destruct (at_shared a). Qed.

(** What may be called of an attempt, any number of times and in any order. *)
Inductive finish_op :=
| Settle (cost : option CostRef) (usage : option Usage.Usage) (complete : bool)
| Finalize.

Definition run_op (i : nat) (op : finish_op) : ST St unit :=
  match op with Settle cost usage complete => SettleBudget (Some i) cost usage complete | Finalize => finalize i end.

(** The attempt that a call leaves. *)
Lemma run_op_attempts i op (st : St) a :
  bk_attempts st !! i = Some a →
  ∃ a', bk_attempts (run_op i op st).2 = <[i := with_done a']> (bk_attempts st) ∧ at_shared a' = at_shared a ∧ at_done a' = at_done a.
Proof.
  intros Ha. destruct op as [cost usage complete|]; simpl run_op.
  - unfold SettleBudget. rewrite bind_snd. unfold get_attempt at 1 2. simpl. rewrite Ha. rewrite bind_snd. unfold observe. simpl.
    unfold settle_attempt. destruct (at_shared a) as [permit|] eqn:Es.
    + unfold settleShared. rewrite bind_snd. simpl. rewrite finishShared_attempts by done. by exists a.
    + destruct (authorityUsage usage (at_window a)) as [[u exact] invalid].
      assert (∀ inv la aa c, ∃ a' : budgetAttempt,
        bk_attempts (finishObserved i (with_invalid inv a) la aa c (put_attempt i (with_invalid inv a) st).2).2
          = <[i := with_done a']> (bk_attempts st) ∧ at_shared a' = None ∧ at_done a' = at_done a) as Hf.
      { intros inv la aa c. exists (with_invalid inv a). rewrite finishObserved_attempts by (simpl; by rewrite lookup_insert_eq).
        simpl. by rewrite insert_insert_eq. }
      destruct (_ || _)%bool; [|destruct (CostUSDMicrosChecked _ _ _ _)];
        unfold settle_uncertain; rewrite !bind_snd; simpl; apply Hf.
  - unfold finalize. rewrite bind_snd. unfold get_attempt at 1 2. simpl. rewrite Ha. exists a. split; [|done].
    destruct (at_shared a); [by apply finishShared_attempts|by apply finishObserved_attempts].
Qed.

Lemma done_op i op (st : St) a : bk_attempts st !! i = Some a → at_done a = true → monies (run_op i op st).2 = monies st.
Proof.
  intros Ha Hd. destruct op as [cost usage complete|]; simpl run_op.
  - unfold SettleBudget. rewrite bind_snd. unfold get_attempt at 1 2. simpl. rewrite Ha. rewrite bind_snd. unfold observe, monies. simpl.
    unfold settle_attempt. destruct (at_shared a) as [permit|] eqn:Es.
    + unfold settleShared, finishShared, finish_once. rewrite bind_snd, Hd. done.
    + destruct (authorityUsage usage (at_window a)) as [[u exact] invalid]. unfold settle_uncertain.
      destruct (_ || _)%bool; [|destruct (CostUSDMicrosChecked _ _ _ _)]; rewrite !bind_snd; simpl; by rewrite done_finishObserved.
  - unfold finalize. rewrite bind_snd. unfold get_attempt at 1 2. simpl. rewrite Ha.
    unfold finishObserved, finishShared, finish_once. rewrite Hd. by destruct (at_shared a).
Qed.

(** C21: An attempt is charged once.  After a settlement or its finalizer, a
    second settlement, whatever it reports, and every later finalizer leave the
    governor, the durable authority and the shared authority as they are. *)
Theorem attempt_settles_once i op op' (st : St) :
  let st' := (run_op i op st).2 in monies (run_op i op' st').2 = monies st'.
Proof.
  intros st'. destruct (bk_attempts st !! i) as [a|] eqn:Ha.
  - destruct (run_op_attempts i op st a Ha) as (a' & Hst & _). apply (done_op i op' st' (with_done a')); [|done].
    unfold st'. rewrite Hst. apply lookup_insert_eq.
  - assert (Hn : bk_attempts st' !! i = None).
    { unfold st'. destruct op; simpl; unfold SettleBudget, finalize; rewrite !bind_snd; unfold get_attempt; simpl; by rewrite Ha. }
    destruct op'; simpl; unfold SettleBudget, finalize; rewrite !bind_snd; unfold get_attempt; simpl; by rewrite Hn.
Qed.
End attempt.

(** ** What is settled *)

(** What the node and the durable authority are told of an attempt: the cost to
    each, whether it is complete, whether the report was invalid. *)
Definition settlement_of (a : budgetAttempt) (usage : option Usage.Usage) (complete : bool) : option Z * option Z * bool * bool :=
  let '(u, exact, invalid) := authorityUsage usage (at_window a) in
  match (if (exact && negb invalid)%bool then CostUSDMicrosChecked (at_table a) (at_provider a) (at_upstream a) u else Err ErrInvalidCost) with
  | Ok cost => (Some cost, Some cost, complete, false)
  | Err _ => (localObservedCost a usage, None, false, (exact || invalid)%bool)
  end.

Section settling.
Context {L F B A S : Type} `{BudgetStore B} `{BudgetAuthority A} `{SharedAuthority S}.
Abbreviation St := (Backends L F B A S).

(** Telling both of them. *)
Definition settle_node (a : budgetAttempt) (l au : option Z) (complete invalid : bool) (st : St) :=
  ((FinishLocalBudget (at_governor a) (at_local a) l (complete && is_Some_b l)%bool invalid (at_provider a) (at_upstream a) (bk_gov st)).2,
   match at_permit a with
   | Some permit => if HasBudgetAuthority (Some (at_governor a))
       then (ba_Finish (mkBudgetPermit (bp_ID permit) (bp_Bound permit) invalid) au complete (bk_auth st)).2 else bk_auth st
   | None => bk_auth st
   end, bk_shared st).

Lemma finishObserved_node i a invalid la aa complete (st : St) :
  at_shared a = None → at_done a = false →
  monies (finishObserved i (with_invalid invalid a) la aa complete st).2 = settle_node a la aa complete invalid st.
Proof.
  intros Es Ed. unfold finishObserved, finish_once, finish_authority, settle_node, monies. simpl. rewrite Es, Ed. rewrite !bind_snd. unfold on_gov.
  destruct (FinishLocalBudget _ _ _ _ _ _ _ _) as [[] g]; simpl.
  destruct (at_permit a) as [permit|]; simpl; [|done]. destruct (Governor.authority _); [|done]. rewrite bind_snd. unfold on_auth. simpl.
  by destruct (ba_Finish _ _ _ _).
Qed.

Lemma settle_attempt_node i a usage complete (st : St) :
  at_shared a = None → at_done a = false →
  monies (settle_attempt i a usage complete st).2
  = let '(l, au, c, invalid) := settlement_of a usage complete in settle_node a l au c invalid st.
Proof.
  intros Es Ed. unfold settle_attempt, settlement_of. rewrite Es. destruct (authorityUsage usage (at_window a)) as [[u exact] invalid].
  assert (Hf : ∀ inv la aa c, monies (finishObserved i (with_invalid inv a) la aa c (put_attempt i (with_invalid inv a) st).2).2 = settle_node a la aa c inv st)
    by (intros; by rewrite finishObserved_node).
  assert (Hl : ∀ inv, localObservedCost (with_invalid inv a) usage = localObservedCost a usage) by done.
  destruct exact, invalid; cbn [negb orb andb]; unfold settle_uncertain; try (by rewrite !bind_snd, Hl, <- Hf).
  destruct (CostUSDMicrosChecked _ _ _ u); [by rewrite !bind_snd, <- Hf|]. by rewrite !bind_snd, Hl, <- Hf.
Qed.

(** C20: What is settled stays within what was reserved.  Settling an open
    attempt of the node tells the local ledger and the durable authority one
    settlement: a complete one carries the exact cost, and no cost told to
    either, nor to the shared authority, exceeds the bound that was reserved
    for it, whatever the provider reported; the tokens told to the shared
    authority are within five windows. *)
Theorem settlement_within_reservation i a bound cost usage complete (st : St) :
  bk_attempts st !! i = Some a → at_done a = false →
  AuthorityBound (at_table a) (at_provider a) (at_upstream a) (at_window a) (at_window a) = Ok bound →
  let '(l, au, c, invalid) := settlement_of a usage complete in
  let s := shared_settlement a usage complete in
  (at_shared a = None → monies (SettleBudget (Some i) cost usage complete st).2 = settle_node a l au c invalid st)
  ∧ (∀ n, l = Some n → 0 <= n <= bound) ∧ (∀ n, au = Some n → l = Some n ∧ c = complete ∧ invalid = false) ∧ (au = None → c = false)
  ∧ (∀ n, ss_CostMicroUSD s = Some n → au = Some n ∧ ss_InvalidUsage s = false) ∧ (∀ n, ss_Tokens s = Some n → 0 <= n <= 5 * at_window a).
Proof.
  intros Ha Ed Hb. destruct (AuthorityBound_positive _ _ _ _ _ _ Hb) as [Hw _].
  destruct (settlement_of a usage complete) as [[[l au] c] invalid] eqn:E. cbv zeta. split_and!.
  - intros Es. unfold SettleBudget. rewrite bind_snd. unfold get_attempt. simpl. rewrite Ha, bind_snd. simpl.
    unfold monies at 1. cbn [bk_gov bk_auth bk_shared]. fold (monies (settle_attempt i a usage complete st).2).
    rewrite settle_attempt_node by done. by rewrite E.
  - unfold settlement_of in E. destruct (authorityUsage _ _) as [[u exact] inv] eqn:Eu. destruct exact, inv; cbn [negb andb orb] in E;
      try (simplify_eq; intros n Hn; by eapply local_cost_within).
    destruct (CostUSDMicrosChecked _ _ _ u) eqn:Ec; simplify_eq; [|intros n Hn; by eapply local_cost_within].
    intros n [= <-]. by eapply exact_cost_within.
  - unfold settlement_of in E. repeat case_match; simplify_eq; intros; by simplify_eq.
  - unfold settlement_of in E. by repeat case_match; simplify_eq.
  - unfold settlement_of, shared_settlement in *. destruct (authorityUsage _ _) as [[u exact] inv].
    destruct (authorityTokens _ _) as [[tok et] it]. destruct exact, inv; cbn [negb andb orb] in *; try done.
    destruct it; cbn [negb andb orb]; [done|]. destruct (CostUSDMicrosChecked _ _ _ u); simplify_eq; [|done]. by intros n [= ->].
  - unfold shared_settlement. destruct (authorityUsage _ _) as [[u exact] inv]. destruct (authorityTokens usage (at_window a)) as [[tok et] it] eqn:Et.
    assert (Htok : ∀ n b, (if (et && b)%bool then Some tok else None) = Some n → 0 <= n <= 5 * at_window a).
    { intros n b Hn. destruct et; [|done]. destruct b; simplify_eq/=.
      destruct (authorityTokens_exact _ _ _ _ (Z.lt_le_incl _ _ Hw) Et) as (_ & u1 & c1 & _ & _ & _ & _ & _ & _ & _ & _ & Hn & _). exact Hn. }
    destruct (exact && _)%bool; [destruct (CostUSDMicrosChecked _ _ _ u)|]; simpl; intros n Hn; by eapply Htok.
Qed.
End settling.

(** ** Generation controls *)

(** The objects whose controls govern a body: itself, and what it nests under
    the names that the upstream APIs give their settings. *)
Inductive governs : json → json → Prop :=
| governs_here j : governs j j
| governs_nested fs k v j : k ∈ nested_controls → member k fs = Some v → governs v j → governs (JObject fs) j.

Definition one_each (j : json) : Prop :=
  ∃ fs, j = JObject fs ∧ ∀ k v, k ∈ count_controls → member k fs = Some v → to_int64 v = Some 1.

Lemma single_object fs :
  single_generation (JObject fs) = true ↔
  one_each (JObject fs) ∧ ∀ k v, k ∈ nested_controls → member k fs = Some v → single_generation v = true.
Proof.
  cbn [single_generation]. rewrite andb_true_iff, !forallb_Forall, !Forall_forall. split.
  - intros [Hc Hn]. split.
    + exists fs. split; [done|]. intros k v Hk Hm. specialize (Hc k Hk). rewrite Hm in Hc. by apply bool_decide_eq_true in Hc.
    + intros k v Hk Hm. specialize (Hn k Hk). rewrite member_map, Hm in Hn. done.
  - intros [(fs' & [= <-] & Hc) Hn]. split; intros k Hk.
    + destruct (member k fs) as [v|] eqn:Hm; [|done]. apply bool_decide_eq_true. by eapply Hc.
    + rewrite member_map. destruct (member k fs) as [v|] eqn:Hm; [|done]. simpl. by eapply Hn.
Qed.

(** C24: One window pays for one generation.  The body of a request is let
    through to a budget exactly when every object that governs its generation,
    however deeply nested in the settings, asks for one of each: each count it
    carries is the integer one. *)
Theorem singleGeneration_spec decode raw :
  singleGeneration decode raw = Ok tt ↔ ∃ j, decode raw = Some j ∧ ∀ j', governs j j' → one_each j'.
Proof.
  assert (∀ j, single_generation j = true ↔ ∀ j', governs j j' → one_each j') as Hj.
  { induction j as [| | | |l _|fs IH] using json_ind; try (split; [done|]; intros Hg; by destruct (Hg _ (governs_here _)) as (? & ? & _)).
    rewrite Forall_forall in IH. rewrite single_object. split.
    - intros [Hone Hn] j' Hg. inversion Hg as [|fs' k v j'' Hk Hm Hv]; subst; [done|].
      apply member_in in Hm as Hin. apply (IH (k, v) Hin); [by eapply Hn|done].
    - intros Hg. split; [apply Hg, governs_here|]. intros k v Hk Hm. apply member_in in Hm as Hin. apply (IH (k, v) Hin).
      intros j' Hv. apply Hg. by eapply governs_nested. }
  unfold singleGeneration. destruct (decode raw) as [j|]; [|by split; [|intros (? & ? & _)]].
  destruct (single_generation j) eqn:Es.
  - split; [|done]. intros _. exists j. split; [done|]. by apply Hj.
  - split; [done|]. intros (j' & [= <-] & Hg). apply Hj in Hg. congruence.
Qed.

(** ** On a concrete report *)

Module Demo.

(** A model of eight tokens, at one micro-USD a token. *)
Definition table : option Pricing.Table :=
  Some (New OnMissingBlock {[ {| Pricing.Provider := "p"; Model := "m" |} := flat_rate 1000000 1000000 1000000 1000000 1000000 ]}).

(** Part of the cache writes in the split, the rest only in the total. *)
Definition usage : Usage.Usage :=
  {| InputTokens := Some 2; OutputTokens := Some 3; CacheReadInputTokens := Some 1; CacheCreationInputTokens := Some 6;
     CacheCreation_ := Some {| Ephemeral5mInputTokens := Some 4; Ephemeral1hInputTokens := Some 2; cc_Extra := None |};
     Usage.Extra := None; AccountingUncertain := false |}.
Definition priced : Pricing.Usage := mkUsage 2 3 1 4 2 false false.

Lemma settled_is_recorded_witness :
  CostUSDMicros table "p" "m" (FromUsage (Some usage)) = (12, false) ∧ TotalTokens (FromUsage (Some usage)) = Ok 12.
Proof.
  destruct (settled_is_recorded 8 usage) as [H1 H2]; [lia|]. split.
  - apply (H1 table "p" "m" priced false 12); by vm_compute.
  - apply (H2 12 false); by vm_compute.
Defined.

Definition attempt : budgetAttempt :=
  mkAttempt (NewGovernor ∅) None None None false {| s_Team := ""; s_KeyID := ""; s_User := "" |} false table "p" "m" 8.

#[export] Instance no_authority : BudgetAuthority unit :=
  {| ba_Reserve _ _ a := (Err ErrAuthorityUnavailable, a); ba_Finish _ _ _ a := (Ok tt, a) |}.
#[export] Instance no_shared : SharedAuthority unit :=
  {| sa_ReserveShared _ s := (Err ErrSharedUnavailable, s); sa_FinishShared _ _ s := (Ok tt, s); sa_SharedUsage _ s := (Err ErrSharedUnavailable, s) |}.

Definition node : Backends unit unit Budget.Memory unit unit :=
  mkBackends {| lim := tt; bud := Budget.NewMemory (λ _, 0); admissions := ∅; localMoney := ∅; cells := ∅; permits := ∅; wall := λ _, 0;
                wall_reads := 0; events := [] |} tt tt {[ 0%nat := attempt ]} [].

Lemma settlement_within_reservation_witness :
  settlement_of attempt (Some usage) true = (Some 12, Some 12, true, false) ∧ 0 <= 12 <= 40
  ∧ ss_Tokens (shared_settlement attempt (Some usage) true) = Some 12 ∧ 0 <= 12 <= 5 * 8.
Proof.
  pose proof (settlement_within_reservation 0 attempt 40 None (Some usage) true node) as Hs.
  destruct (settlement_of attempt (Some usage) true) as [[[l au] c] invalid] eqn:E. vm_compute in E. injection E as <- <- <- <-.
  specialize (Hs ltac:(by vm_compute) ltac:(by vm_compute) ltac:(by vm_compute)). destruct Hs as (_ & Hl & _ & _ & _ & Ht).
  split; [reflexivity|]. split; [exact (Hl 12 eq_refl)|]. split; [by vm_compute|]. apply Ht. by vm_compute.
Defined.

(** A category of cache writes that the gateway does not know, and no total. *)
Definition unknown_category : Usage.Usage :=
  {| InputTokens := Some 2; OutputTokens := Some 3; CacheReadInputTokens := None; CacheCreationInputTokens := None;
     CacheCreation_ := Some {| Ephemeral5mInputTokens := Some 4; Ephemeral1hInputTokens := Some 0; cc_Extra := Some {[ "ephemeral_30m_input_tokens" := "900" ]} |};
     Usage.Extra := None; AccountingUncertain := false |}.

(** It settles as an exact number of tokens all the same, which the records of
    the same usage hold uncertain. *)
Lemma unknown_category_is_exact :
  authorityTokens (Some unknown_category) 1000 = (9, true, false) ∧ Uncertain (FromUsage (Some unknown_category)) = true
  ∧ QuantityKnown (CacheWriteAccounting (Some unknown_category)) = false.
Proof. by vm_compute. Qed.

(** A total whose split is all zero. *)
Definition zero_split : Usage.Usage :=
  {| InputTokens := Some 2; OutputTokens := Some 3; CacheReadInputTokens := None; CacheCreationInputTokens := Some 5;
     CacheCreation_ := Some {| Ephemeral5mInputTokens := Some 0; Ephemeral1hInputTokens := Some 0; cc_Extra := None |};
     Usage.Extra := None; AccountingUncertain := false |}.

(** The records count it; the authorities are told the report is invalid. *)
Lemma zero_split_is_invalid :
  Usage.Invalid (CacheWriteAccounting (Some zero_split)) = false ∧ QuantityKnown (CacheWriteAccounting (Some zero_split)) = true
  ∧ TotalTokens (FromUsage (Some zero_split)) = Ok 10 ∧ (authorityUsage (Some zero_split) 1000).2 = true.
Proof. by vm_compute. Qed.
End Demo.
