(* ===== verification/AttemptSafety.v ===== *)
(** * Histories of attempts

    What the attempts of a node do to its ledger, whatever their number and
    their interleaving: every settlement stays within what its permit holds, so
    the bound that the ledger promises holds of every history; a refused attempt
    has its admission give back what it took. *)

From S2P Require Import Prelude GoTime GoFloat Json Usage Pricing Budget Limiter Denial Governor LocalMoney Governance Enforcement Live Router Escrow Shared Settlement SettlementTheorems.

(** ** Permits of the ledger *)

Section permits.
Context {L F B : Type} `{!BudgetStore B}.
Abbreviation St := (Governor.State L F B).

(** Permits are never taken back, nor their holds changed, nor reopened. *)
Definition grows (st st' : St) : Prop :=
  ∀ id p, permits st !! id = Some p →
    ∃ p', permits st' !! id = Some p' ∧ p_holds p' = p_holds p ∧ (p_once p = true → p_once p' = true).

#[export] Instance grows_refl : Reflexive grows.
Proof. intros st id p Hp. by exists p. Qed.
#[export] Instance grows_trans : Transitive grows.
Proof.
  intros st1 st2 st3 G1 G2 id p Hp. destruct (G1 id p Hp) as (p2 & Hp2 & E2 & O2). destruct (G2 id p2 Hp2) as (p3 & Hp3 & E3 & O3).
  exists p3. split_and!; [done|congruence|auto].
Qed.

Lemma grows_same st st' : permits st' = permits st → grows st st'.
Proof. intros E id p Hp. exists p. by rewrite E. Qed.

(** Everything the ledger reads is as it was. *)
Record same_ledger (st st' : St) : Prop := {
  sm_bud : bud st' = bud st; sm_money : localMoney st' = localMoney st; sm_cells : cells st' = cells st;
  sm_permits : permits st' = permits st; sm_wall : wall st' = wall st }.

#[export] Instance same_ledger_refl : Reflexive same_ledger.
Proof. by split. Qed.
#[export] Instance same_ledger_trans : Transitive same_ledger.
Proof. intros ??? [] []. split; congruence. Qed.

Lemma FinishLocalBudget_permits g id actual complete invalid provider model (st : St) :
  wp (FinishLocalBudget g (Some id) actual complete invalid provider model) (λ _ st',
    permits st' = match permits st !! id with
                  | Some p => if p_once p then permits st else permits (mark_finished id p st)
                  | None => permits st end) st.
Proof.
  cbn [FinishLocalBudget]. rewrite wp_get. destruct (permits st !! id) as [p|] eqn:Hp; [|by rewrite wp_ret].
  destruct (p_once p) eqn:Ho; [by rewrite wp_ret|]. rewrite wp_modify. unfold finish_permit. rewrite wp_bind.
  eapply wp_mono with (Q := λ _ st', permits st' = permits (mark_finished id p st)).
  { case_match; [apply debit_loop_permits|by rewrite wp_ret]. }
  intros ? st1 H1. cbv beta in H1. rewrite wp_modify. case_match.
  - rewrite wp_bind. unfold emit at 1, wp at 1. cbn [fst snd].
    eapply wp_mono; [apply report_loop_permits|]. intros ? st2 H2. cbv beta in H2. by rewrite H2.
  - case_match; [unfold emit, wp; cbn [fst snd]; done|]. by rewrite wp_ret.
Qed.

Lemma FinishLocalBudget_grows g id actual complete invalid provider model (st : St) :
  grows st (FinishLocalBudget g id actual complete invalid provider model st).2.
Proof.
  destruct id as [id|]; [|reflexivity]. pose proof (FinishLocalBudget_permits g id actual complete invalid provider model st) as Hp.
  unfold wp in Hp. intros k q Hq. rewrite Hp. destruct (permits st !! id) as [p|] eqn:E; [|by exists q].
  destruct (p_once p) eqn:Eo; [by exists q|]. simpl. destruct (decide (k = id)) as [->|Hne].
  - rewrite lookup_insert_eq. simplify_eq. by eexists.
  - rewrite lookup_insert_ne by done. by exists q.
Qed.

(** Every hold of a bounded reservation is of its bound. *)
Definition holds_of (bound : Z) (p : LocalBudgetPermit) : Prop := Forall (λ h, h_amount h = bound) (p_holds p).

Lemma claim_loop_amounts bound scopes holds (st : St) :
  Forall (λ h, h_amount h = bound) holds →
  wp (claim_loop bound true scopes holds) (λ r _, ∀ hs, r = Ok hs → Forall (λ h, h_amount h = bound) hs) st.
Proof.
  revert holds st. induction scopes as [|sc scopes IH]; intros holds st Hh; cbn [claim_loop].
  { rewrite wp_ret. by intros hs [= <-]. }
  destruct (lm_hard sc); [|by apply IH]. rewrite wp_bind.
  assert (wp (claim_scope bound true sc) (λ r _, ∀ h, r = Ok h → h_amount h = bound) st) as Hc.
  { unfold claim_scope. do 3 (apply wp_skip; intros ? ?). rewrite wp_get. cbv zeta. destruct (_ || _)%bool; [by rewrite wp_ret|].
    apply wp_skip. intros dec st1. case_bool_decide; rewrite wp_ret; [by intros h [= <-]|done]. }
  eapply wp_mono; [exact Hc|]. intros [h|e] st1 Hr; [|by rewrite wp_ret].
  apply IH, Forall_app. split; [done|]. constructor; [by apply Hr|constructor].
Qed.

Context (range : gmap string nat → list (string * nat)).

Lemma ReserveLocalBudget_permit g s kp bound (st : St) :
  wp (ReserveLocalBudget range g s kp bound true) (λ r st', grows st st' ∧ match r with
      | Ok (Some id) => permits st !! id = None ∧ ∃ p, permits st' = <[id := p]> (permits st) ∧ p_once p = false ∧ holds_of bound p
      | _ => permits st' = permits st end) st.
Proof.
  eapply wp_mono; [apply wp_and; [apply (ReserveLocalBudget_atomic range g s kp bound true st)|]|].
  - instantiate (1 := λ r st', ∀ id, r = Ok (Some id) → ∃ p, permits st' !! id = Some p ∧ holds_of bound p).
    unfold ReserveLocalBudget. case_bool_decide; [by rewrite wp_ret|]. destruct (_ <? _); [by rewrite wp_ret|].
    rewrite wp_get. apply wp_skip. intros _ st1. rewrite wp_get. destruct (ledger_overflows _ _); [by rewrite wp_ret|].
    rewrite wp_bind. eapply wp_mono; [apply (claim_loop_amounts bound _ []); constructor|]. intros [hs|e] st2 Hr; [|by rewrite wp_ret].
    rewrite wp_bind. unfold LocalMoney.grant, wp at 1. cbn [fst snd]. rewrite wp_ret. intros id [= <-]. eexists. split; [apply lookup_insert_eq|]. by apply Hr.
  - intros [[id|]|e] st' [Ha Hp]; cbv beta in *.
    + destruct Ha as (_ & _ & Hn & holds & _ & Epm). destruct (Hp id eq_refl) as (p & Hp1 & Hp2). rewrite Epm, lookup_insert_eq in Hp1. simplify_eq.
      split; [|split; [done|]; by eexists]. intros k q Hq. exists q. rewrite Epm, lookup_insert_ne by congruence. done.
    + destruct Ha as [_ ->]. split; [reflexivity|done].
    + destruct Ha as [E _]. split; [by apply grows_same|done].
Qed.
End permits.

(** ** What does not touch the ledger *)

Section same.
Context {L F B A S : Type} `{!LimiterStore L F} `{!BudgetStore B} `{!BudgetAuthority A} `{!SharedAuthority S}.
Abbreviation Gov := (Governor.State L F B).
Abbreviation St := (Backends L F B A S).

Definition inert {X} (m : ST Gov X) : Prop := ∀ st, same_ledger st (m st).2.

Lemma inert_ret {X} (x : X) : inert (mret x).
Proof. intros st. reflexivity. Qed.
Lemma inert_bind {X Y} (m : ST Gov X) (f : X → ST Gov Y) : inert m → (∀ x, inert (f x)) → inert (m ≫= f).
Proof. intros Hm Hf st. unfold mbind, st_mbind. specialize (Hm st). destruct (m st) as [x st1]. etransitivity; [exact Hm|apply Hf]. Qed.
Lemma inert_lim {X} (m : ST L X) : inert (on_lim m).
Proof. intros st. unfold on_lim. destruct (m (lim st)). by split. Qed.
Lemma inert_get : inert st_get.
Proof. intros st. reflexivity. Qed.
Lemma inert_emit e : inert (emit e).
Proof. intros st. by split. Qed.
Lemma inert_update a f : inert (update_adm a f).
Proof. intros st. by split. Qed.

Create HintDb inert.
#[local] Hint Resolve inert_ret inert_lim inert_get inert_emit inert_update : inert.

Lemma inert_finish_loop rates actual : inert (finish_loop rates actual).
Proof. induction rates; simpl; [auto with inert|]. apply inert_bind; auto with inert. Qed.

Lemma inert_Own a : inert (OwnLocalMoney a).
Proof. unfold OwnLocalMoney. case_match; auto with inert. Qed.
Lemma inert_Mark a : inert (MarkDispatched a).
Proof. unfold MarkDispatched. case_match; auto with inert. Qed.
Lemma inert_Cancel a : inert (CancelUndispatched a).
Proof.
  unfold CancelUndispatched, Cancel, once_do, finishRates. destruct a; [|auto with inert].
  repeat first [apply inert_finish_loop | apply inert_bind; [auto with inert|intros ?] | case_match; [by auto with inert|] | progress auto with inert].
Qed.
End same.

(** ** Histories *)

Section history.
Context {L F B A S : Type} `{!LimiterStore L F} `{!BudgetStore B} `{!BudgetLaws B} `{!BudgetAuthority A} `{!SharedAuthority S}.
Context (range : gmap string nat → list (string * nat)) (range_perm : ∀ m, range m ≡ₚ map_to_list m).
Context (decode : string → option json).
Context (K : string) (W : Window) (E : Time) (lim Bd : Z) (I : B → Prop) (Hsteady : steady I K W E).
Abbreviation Gov := (Governor.State L F B).
Abbreviation St := (Backends L F B A S).
Abbreviation ledger_inv := (ledger_inv K W E lim Bd I).

Definition with_gov (g : Gov) (st : St) : St := mkBackends g (bk_auth st) (bk_shared st) (bk_attempts st) (bk_observed st).

(** An attempt's permit holds the bound of its rate and window. *)
Definition attempt_bound (a : budgetAttempt) (bound : Z) : Prop :=
  AuthorityBound (at_table a) (at_provider a) (at_upstream a) (at_window a) (at_window a) = Ok bound.
Definition attempt_held (g : Gov) (a : budgetAttempt) : Prop :=
  ∀ id, at_local a = Some id → ∃ p bound, permits g !! id = Some p ∧ attempt_bound a bound ∧ holds_of bound p.

Record attempts_inv (st : St) : Prop := {
  ai_ledger : ledger_inv (bk_gov st);
  ai_held i a : bk_attempts st !! i = Some a → attempt_held (bk_gov st) a }.

Lemma held_grows g g' a : grows g g' → attempt_held g a → attempt_held g' a.
Proof.
  intros G Hh id Hid. destruct (Hh id Hid) as (p & bound & Hp & Hb & Hf). destruct (G id p Hp) as (p' & Hp' & Eh & _).
  exists p', bound. split_and!; [done|done|]. unfold holds_of. by rewrite Eh.
Qed.

Lemma inv_gov g st : attempts_inv st → ledger_inv g → grows (bk_gov st) g → attempts_inv (with_gov g st).
Proof. intros [J Hh] J' G. split; [done|]. intros i a Ha. eapply held_grows; [exact G|]. by eapply Hh. Qed.

Lemma inv_same g st : attempts_inv st → same_ledger (bk_gov st) g → attempts_inv (with_gov g st).
Proof.
  intros Hi [E1 E2 E3 E4 E5]. apply inv_gov; [done| |by apply grows_same]. eapply inv_ext; [..|apply Hi]; done.
Qed.

Lemma wp_on_gov {X} (m : ST Gov X) Q (st : St) : wp (on_gov m) Q st ↔ wp m (λ x g, Q x (with_gov g st)) (bk_gov st).
Proof. unfold wp, on_gov. by destruct (m (bk_gov st)). Qed.

(** The attempts may change as long as each is held. *)
Lemma inv_attempts st st' :
  attempts_inv st → bk_gov st' = bk_gov st →
  (∀ i a, bk_attempts st' !! i = Some a → bk_attempts st !! i = Some a ∨ attempt_held (bk_gov st) a) → attempts_inv st'.
Proof. intros [J Hh] Eg Ha. split; [by rewrite Eg|]. intros i a Hi. rewrite Eg. destruct (Ha i a Hi); eauto. Qed.

Lemma inv_put i a st : attempts_inv st → attempt_held (bk_gov st) a → attempts_inv (put_attempt i a st).2.
Proof.
  intros Hi Ha. apply (inv_attempts st); [done|done|]. intros k b. simpl. intros [[<- <-]|[_ Hb]]%lookup_insert_Some; auto.
Qed.

Lemma inv_begin a st : attempts_inv st → attempt_held (bk_gov st) a → attempts_inv (new_attempt a st).2.
Proof. intros Hi Ha. by apply inv_put. Qed.

Definition keeps_inv {X} (m : ST St X) : Prop := ∀ st, attempts_inv st → attempts_inv (m st).2.

Lemma kept_seq {X Y} (m : ST St X) (f : X → ST St Y) : keeps_inv m → (∀ x, keeps_inv (f x)) → keeps_inv (m ≫= f).
Proof. intros Hm Hf st Hi. rewrite bind_snd. by apply Hf, Hm. Qed.
Lemma kept_ret {X} (x : X) : keeps_inv (mret x).
Proof. by intros st Hi. Qed.
Lemma kept_auth {X} (m : A → X * A) : keeps_inv (on_auth m).
Proof. intros st Hi. unfold on_auth. destruct (m _). apply (inv_attempts st); auto. Qed.
Lemma kept_shared {X} (m : S → X * S) : keeps_inv (on_shared m).
Proof. intros st Hi. unfold on_shared. destruct (m _). apply (inv_attempts st); auto. Qed.
Lemma kept_observe o : keeps_inv (observe o).
Proof. intros st Hi. apply (inv_attempts st); auto. Qed.
Lemma kept_inert {X} (m : ST Gov X) : inert m → keeps_inv (on_gov m).
Proof. intros Hm st Hi. unfold on_gov. specialize (Hm (bk_gov st)). destruct (m _) as [x g]. by apply (inv_same g). Qed.

Lemma kept_each f l : (∀ a, inert (f a)) → keeps_inv (each_admission f l).
Proof. intros Hf. induction l as [|a l IH]; simpl; [apply kept_ret|]. apply kept_seq; [by apply kept_inert|done]. Qed.

Lemma each_same f l (st : St) : (∀ a, inert (f a)) → same_ledger (bk_gov st) (bk_gov (each_admission f l st).2).
Proof.
  intros Hf. revert st. induction l as [|a l IH]; intros st; simpl; [reflexivity|]. rewrite bind_snd.
  etransitivity; [|apply IH]. unfold on_gov. specialize (Hf a (bk_gov st)). by destruct (f a (bk_gov st)).
Qed.

Lemma kept_limits g s limits b q : keeps_inv (observe_limits g s limits b q).
Proof.
  revert b q. induction limits as [|l limits IH]; intros b q; simpl; [apply kept_ret|]. destruct (_ <=? _); [done|].
  repeat (apply kept_seq; [case_match; [apply kept_inert, inert_emit|apply kept_ret]|intros _]). apply IH.
Qed.
Lemma kept_ObserveShared g s : keeps_inv (ObserveShared g s).
Proof.
  unfold ObserveShared. case_match; [apply kept_ret|]. apply kept_seq; [apply kept_shared|]. intros [limits|e]; [|apply kept_ret].
  apply kept_seq; [apply kept_limits|]. intros r. apply kept_seq; [apply kept_inert, inert_emit|]. intros _. apply kept_inert, inert_emit.
Qed.

(** *** Finishing *)

Lemma held_ext g a a' :
  at_local a' = at_local a → at_table a' = at_table a → at_provider a' = at_provider a → at_upstream a' = at_upstream a →
  at_window a' = at_window a → attempt_held g a → attempt_held g a'.
Proof. unfold attempt_held, attempt_bound. intros -> -> -> -> ->. done. Qed.

Lemma finish_local_inv g a la complete invalid provider model st :
  attempts_inv st → attempt_held (bk_gov st) a → (∀ bound n, attempt_bound a bound → la = Some n → n <= bound) →
  attempts_inv (on_gov (FinishLocalBudget g (at_local a) la complete invalid provider model) st).2.
Proof.
  intros Hi Ha Hla. pose proof (FinishLocalBudget_grows g (at_local a) la complete invalid provider model (bk_gov st)) as Hg.
  assert (wp (FinishLocalBudget g (at_local a) la complete invalid provider model) (λ _ g', ledger_inv g') (bk_gov st)) as HJ.
  { destruct (at_local a) as [id|] eqn:El; [|apply (ai_ledger _ Hi)].
    destruct (Ha id El) as (p & bound & Hp & Hb & Hf). apply (finish_inv K W E lim Bd I Hsteady); [apply Hi|].
    intros q Hq _ n Hn. assert (q = p) as -> by congruence. unfold proved in Hn. destruct la as [m|]; [|done].
    destruct (m <? 0); [done|]. injection Hn as ->. eapply Forall_impl; [exact Hf|]. intros h ->. by eapply Hla. }
  unfold on_gov, wp in *. destruct (FinishLocalBudget _ _ _ _ _ _ _ _) as [[] g']. by apply (inv_gov g').
Qed.

Lemma kept_finish_authority a actual complete : keeps_inv (finish_authority a actual complete).
Proof. unfold finish_authority. repeat case_match; try apply kept_ret. apply kept_seq; [apply kept_auth|]. intros _. apply kept_ret. Qed.

Lemma finishShared_inv i a permit settlement st :
  attempts_inv st → attempt_held (bk_gov st) a → attempts_inv (finishShared i a permit settlement st).2.
Proof.
  intros Hi Ha. unfold finishShared, finish_once. destruct (at_done a); [done|]. rewrite bind_snd.
  enough (keeps_inv (r ← on_shared (sa_FinishShared permit settlement); match r with Err _ => mret tt | Ok _ => ObserveShared (at_governor a) (at_subject a) end)) as Hk.
  { apply Hk, inv_put; [done|]. by apply (held_ext _ a). }
  apply kept_seq; [apply kept_shared|]. intros []; [apply kept_ObserveShared|apply kept_ret].
Qed.

Lemma finishObserved_inv i a la aa complete st :
  attempts_inv st → attempt_held (bk_gov st) a → (∀ bound n, attempt_bound a bound → la = Some n → n <= bound) →
  attempts_inv (finishObserved i a la aa complete st).2.
Proof.
  intros Hi Ha Hla. unfold finishObserved. destruct (at_shared a); [by apply finishShared_inv|].
  unfold finish_once. destruct (at_done a); [done|]. rewrite !bind_snd. apply kept_finish_authority, finish_local_inv; [|done|done].
  apply inv_put; [done|]. by apply (held_ext _ a).
Qed.

Lemma run_op_inv i op st : attempts_inv st → attempts_inv (run_op i op st).2.
Proof.
  intros Hi. destruct (bk_attempts st !! i) as [a|] eqn:Ea.
  2: { destruct op; simpl; unfold SettleBudget, finalize; rewrite !bind_snd; unfold get_attempt; simpl; rewrite Ea; [by apply kept_observe|done]. }
  pose proof (ai_held _ Hi i a Ea) as Ha. destruct op as [cost usage complete|]; simpl run_op.
  - unfold SettleBudget. rewrite bind_snd. unfold get_attempt at 1 2. simpl. rewrite Ea, bind_snd. apply kept_observe.
    unfold settle_attempt. destruct (at_shared a) as [permit|]; [unfold settleShared; rewrite bind_snd; by apply finishShared_inv|].
    assert (∀ inv, attempt_held (bk_gov st) (with_invalid inv a)) as Hinv by (intros; by apply (held_ext _ a)).
    assert (∀ inv, attempts_inv (settle_uncertain i (with_invalid inv a) usage st).2) as Hunc.
    { intros inv. unfold settle_uncertain. rewrite !bind_snd. apply finishObserved_inv; [by apply inv_put|by apply Hinv|].
      intros bound n Hb Hn. by eapply local_cost_within. }
    destruct (authorityUsage usage (at_window a)) as [[u exact] invalid] eqn:Eu. destruct (_ || _)%bool eqn:Ex; [apply Hunc|].
    destruct (CostUSDMicrosChecked _ _ _ u) eqn:Ec; [|apply Hunc]. rewrite !bind_snd. bsplit. subst exact.
    apply finishObserved_inv; [by apply inv_put|by apply Hinv|]. intros bound n Hb [= <-]. by eapply exact_cost_within.
  - unfold finalize. rewrite bind_snd. unfold get_attempt at 1 2. simpl. rewrite Ea. destruct (at_shared a) eqn:Es.
    + by apply finishShared_inv.
    + by apply finishObserved_inv.
Qed.

(** *** Reserving *)

(** The price and the limits of an attempt that the bound covers. *)
Definition attempt_covered (g : option Governor) (p : Principal) (target : ChainTarget) (state : option Live.State) : Prop :=
  ∀ g' topology model, g = Some g' → state = Some topology → Route topology (ct_Model target) = Some model →
    ∃ bound, AuthorityBound (pricing topology) (ct_ProviderName target) (ct_Upstream target) (mc_ContextWindow model) (mc_ContextWindow model) = Ok bound
      ∧ covered K W lim Bd g' (attempt_subject p) (attempt_key p) bound true.

Lemma ste_bind_run {X Y} (m : STE St AdmissionError X) (f : X → STE St AdmissionError Y) st :
  (mbind f m st) = match m st with (Ok x, st') => f x st' | (Err e, st') => (Err e, st') end.
Proof. done. Qed.

Lemma kept_ste_bind {X Y} (m : STE St AdmissionError X) (f : X → STE St AdmissionError Y) :
  keeps_inv m → (∀ x, keeps_inv (f x)) → keeps_inv (mbind f m).
Proof.
  intros Hm Hf st Hi. rewrite ste_bind_run. specialize (Hm st Hi). destruct (m st) as [[x|e] st']; [by apply Hf|done].
Qed.
Lemma kept_lift {X} (m : ST St X) : keeps_inv m → keeps_inv (ste_lift m : STE St AdmissionError X).
Proof. intros Hm st Hi. unfold ste_lift. specialize (Hm st Hi). by destruct (m st). Qed.
Lemma kept_early {X} e : keeps_inv (early e : STE St AdmissionError X).
Proof. by intros st Hi. Qed.
Lemma kept_steret {X} (x : X) : keeps_inv (mret x : STE St AdmissionError X).
Proof. by intros st Hi. Qed.

Lemma kept_reserveShared g p bundle target table window costBound : keeps_inv (reserveShared g p bundle target table window costBound).
Proof.
  unfold reserveShared. destruct (_ || _)%bool; [apply kept_early|]. destruct (default _ bundle) as [generation requested].
  apply kept_ste_bind; [apply kept_shared|]. intros [permit|]; [|apply kept_early].
  apply kept_ste_bind; [|intros; apply kept_steret]. apply kept_lift. intros st Hi. apply inv_begin; [done|]. by intros id.
Qed.

(** What is left of the reservation, once the node's ledger has granted. *)
Lemma reserved_inv g p local (attempt : option BudgetPermit → budgetAttempt) bound st :
  attempts_inv st → (∀ permit, attempt_held (bk_gov st) (attempt permit)) → (∀ permit, at_local (attempt permit) = local) →
  attempts_inv ((if negb (HasBudgetAuthority (Some g)) then i ← ste_lift (new_attempt (attempt None)); mret (Some i)
    else r ← ste_lift (on_auth (ba_Reserve (attempt_subject p) bound));
      match r with
      | Ok (Some permit) => i ← ste_lift (new_attempt (attempt (Some permit))); mret (Some i)
      | Ok None => _ ← ste_lift (on_gov (FinishLocalBudget g local None true false "" "")); early ErrAuthorityInvalid
      | Err e => _ ← ste_lift (on_gov (FinishLocalBudget g local None true false "" "")); early e
      end : STE St AdmissionError (option nat)) st).2.
Proof.
  intros Hi Ha Hl. destruct (negb _).
  - rewrite ste_bind_run. unfold ste_lift. by apply (inv_begin (attempt None) st).
  - rewrite ste_bind_run. unfold ste_lift at 1, on_auth. destruct (ba_Reserve _ _ _) as [r auth].
    set (st1 := mkBackends _ _ _ _ _). assert (attempts_inv st1) as Hi1 by (apply (inv_attempts st); auto).
    assert (∀ e, attempts_inv ((_ ← ste_lift (on_gov (FinishLocalBudget g local None true false "" "")); early e
      : STE St AdmissionError (option nat)) st1).2) as Hf.
    { intros e. rewrite ste_bind_run. unfold ste_lift, early. rewrite <- (Hl None).
      pose proof (finish_local_inv g (attempt None) None true false "" "" st1 Hi1 (Ha None) ltac:(done)) as H1.
      by destruct (on_gov _ st1). }
    destruct r as [[permit|]|e]; [|apply Hf|apply Hf]. rewrite ste_bind_run. unfold ste_lift. by apply (inv_begin (attempt (Some permit)) st1).
Qed.

Lemma reserveLocal_inv g p target table window bound admissions st :
  attempts_inv st → covered K W lim Bd g (attempt_subject p) (attempt_key p) bound true →
  AuthorityBound table (ct_ProviderName target) (ct_Upstream target) window window = Ok bound →
  attempts_inv (reserveLocal range g p target table window bound true admissions st).2.
Proof.
  intros Hi Hc Hb. destruct (AuthorityBound_positive _ _ _ _ _ _ Hb) as [Hw _]. unfold reserveLocal. rewrite ste_bind_run.
  pose proof (reserve_inv range range_perm K W E lim Bd I Hsteady g (attempt_subject p) (attempt_key p) bound true (bk_gov st) (ai_ledger _ Hi) Hc) as HJ.
  pose proof (ReserveLocalBudget_permit range g (attempt_subject p) (attempt_key p) bound (bk_gov st)) as Hp.
  unfold checked, on_gov, wp in *. destruct (ReserveLocalBudget _ _ _ _ _ _ _) as [[local|e] g1]; simpl in HJ, Hp.
  2: { apply (inv_gov g1); [done|done|apply Hp]. }
  assert (attempts_inv (with_gov g1 st)) as Hi1 by (apply inv_gov; [done|done|apply Hp]).
  set (attempt := λ permit, mkAttempt g permit None local false {| s_Team := ""; s_KeyID := ""; s_User := "" |} false table
                          (ct_ProviderName target) (ct_Upstream target) (if window <=? 0 then MaxInt64 else window)).
  assert (∀ permit, attempt_held g1 (attempt permit)) as Ha.
  { intros permit id Hid. simpl in Hid. subst local. destruct Hp as (_ & _ & q & Hq & _ & Hf). exists q, bound. split_and!; [|..|done].
    - rewrite Hq. apply lookup_insert_eq.
    - unfold attempt_bound. simpl. rewrite (proj2 (Z.leb_gt window 0)) by lia. done. }
  rewrite ste_bind_run. change (mkBackends g1 _ _ _ _) with (with_gov g1 st).
  destruct (is_Some_b local); [|by apply (reserved_inv g p local attempt)].
  unfold ste_lift at 1. pose proof (kept_each OwnLocalMoney admissions inert_Own _ Hi1) as Hi2.
  pose proof (each_same OwnLocalMoney admissions (with_gov g1 st) inert_Own) as Hsame.
  destruct (each_admission _ _ _) as [[] st2]. apply (reserved_inv g p local attempt); [done| |done].
  intros permit. eapply held_grows; [apply grows_same, Hsame|apply Ha].
Qed.

Lemma ReserveBudget_inv g p bundle target state raw admissions st :
  attempts_inv st → attempt_covered g p target state →
  attempts_inv (ReserveBudget range decode g p bundle target state raw admissions st).2.
Proof.
  intros Hi Hc. unfold ReserveBudget. rewrite !bind_snd.
  assert (∀ r : result AdmissionError (option nat), keeps_inv (each_admission (match r with Err _ => CancelUndispatched | Ok _ => MarkDispatched end) admissions)) as He.
  { intros r. apply kept_each. intros a. destruct r; [apply inert_Mark|apply inert_Cancel]. }
  apply (kept_observe ObservedAttempt) in Hi. apply He. revert Hi. generalize (observe (L := L) (F := F) (B := B) (A := A) (S := S) ObservedAttempt st).2.
  clear st He. intros st Hi. unfold reserve_body. destruct g as [g|]; [|done]. destruct (negb _); [done|].
  rewrite ste_bind_run. unfold checked, mret, st_mret. destruct (singleGeneration decode raw) as [[]|e]; [|done].
  destruct state as [state|]; [|done]. destruct (Route state (ct_Model target)) as [model|] eqn:Er; [|done].
  destruct (Hc g state model eq_refl eq_refl Er) as (bound & Hb & Hcov). unfold bound_of. rewrite Hb. cbn [negb andb].
  destruct (HasSharedAuthority g); [by apply kept_reserveShared|]. by apply reserveLocal_inv.
Qed.

(** Attempts begin, settle and are finalized in any order, any number of times,
    while others read the counters. *)
Inductive attempts_history : St → Prop :=
| hist_start st :
    localMoney (bk_gov st) = ∅ → permits (bk_gov st) = ∅ → (∀ n, wall (bk_gov st) n < E) → I (bud (bk_gov st)) →
    bs_within (bud (bk_gov st)) K (lim - 1 + Bd) → bk_attempts st = ∅ → attempts_history st
| hist_reserve st g p bundle target state raw admissions :
    attempts_history st → attempt_covered g p target state →
    attempts_history (ReserveBudget range decode g p bundle target state raw admissions st).2
| hist_op st i op : attempts_history st → attempts_history (run_op i op st).2
| hist_check st k e l w : attempts_history st → (k = K → w = W) → attempts_history (with_gov (on_bud (bs_check k e l w) (bk_gov st)).2 st)
| hist_spent st k w : attempts_history st → (k = K → w = W) → attempts_history (with_gov (on_bud (bs_spent k w) (bk_gov st)).2 st)
| hist_resets st k w : attempts_history st → (k = K → w = W) → attempts_history (with_gov (on_bud (bs_resetsAt k w) (bk_gov st)).2 st).

Lemma bud_permits {X} (m : ST B X) (g : Gov) : permits (on_bud m g).2 = permits g.
Proof. unfold on_bud. by destruct (m (bud g)). Qed.

Lemma history_attempts st : 0 < lim → 0 <= Bd → attempts_history st → attempts_inv st.
Proof.
  intros Hlim HB. induction 1 as [st H1 H2 H3 H4 H5 H6|st g p bundle target state raw admissions _ IH Hc|st i op _ IH
    |st k e l w _ IH Hw|st k w _ IH Hw|st k w _ IH Hw].
  - split; [by apply start_inv|]. intros i a. by rewrite H6.
  - by apply ReserveBudget_inv.
  - by apply run_op_inv.
  - apply inv_gov; [done|apply (check_inv K W E lim Bd I Hsteady); [done|apply IH]|apply grows_same, bud_permits].
  - apply inv_gov; [done|apply (spent_inv K W E lim Bd I Hsteady); [done|apply IH]|apply grows_same, bud_permits].
  - apply inv_gov; [done|apply (resets_inv K W E lim Bd I Hsteady); [done|apply IH]|apply grows_same, bud_permits].
Qed.

End history.

(** ** Refusals *)

Section refusal.
Context {L F B A S : Type} `{!LimiterStore L F} `{!BudgetStore B} `{!BudgetAuthority A} `{!SharedAuthority S}.
Context (range : gmap string nat → list (string * nat)).
Context (decode : string → option json).
Abbreviation Gov := (Governor.State L F B).
Abbreviation St := (Backends L F B A S).

(** No permit is left open that was not there. *)
Definition settled_since (g g' : Gov) : Prop :=
  ∀ id p, permits g' !! id = Some p → permits g !! id = Some p ∨ permits g !! id = None ∧ p_once p = true.

Lemma settled_same g g' : permits g' = permits g → settled_since g g'.
Proof. intros Eg id p. rewrite Eg. by left. Qed.

(** Releasing a grant that was just made. *)
Lemma released g id p (gv gv1 gv2 : Gov) (m provider : string) :
  permits gv !! id = None → permits gv1 = <[id := p]> (permits gv) →
  settled_since gv (FinishLocalBudget g (Some id) None true false provider m gv1).2.
Proof.
  intros Hn Hp. pose proof (FinishLocalBudget_permits g id None true false provider m gv1) as Hf. unfold wp in Hf.
  intros k q. rewrite Hf, Hp, lookup_insert_eq. destruct (p_once p) eqn:Eo; simpl.
  - intros [[<- <-]|[_ Hq]]%lookup_insert_Some; auto.
  - rewrite Hp, insert_insert_eq. intros [[<- <-]|[_ Hq]]%lookup_insert_Some; auto.
Qed.

Definition refused (st st' : St) : Prop := bk_attempts st' = bk_attempts st ∧ settled_since (bk_gov st) (bk_gov st').

Lemma reserveLocal_refused g p target table window bound bounded admissions st e st' :
  reserveLocal range g p target table window bound bounded admissions st = (Err e, st') → refused st st'.
Proof.
  unfold reserveLocal. rewrite ste_bind_run. pose proof (ReserveLocalBudget_atomic range g (attempt_subject p) (attempt_key p) bound bounded (bk_gov st)) as Ha.
  unfold checked, wp in *. unfold on_gov at 1. destruct (ReserveLocalBudget _ _ _ _ _ _ _) as [[local|e1] g1]; simpl in Ha.
  2: { intros [= <- <-]. split; [done|]. apply settled_same, Ha. }
  set (st1 := mkBackends g1 _ _ _ _).
  set (own := if is_Some_b local then _ else _). rewrite ste_bind_run.
  assert (∃ st2, own st1 = (Ok tt, st2) ∧ bk_attempts st2 = bk_attempts st ∧ permits (bk_gov st2) = permits g1) as (st2 & -> & Eat & Epm).
  { unfold own. destruct (is_Some_b local); [|by exists st1]. unfold ste_lift.
    pose proof (keeps_each OwnLocalMoney admissions st1) as Hk. pose proof (each_same OwnLocalMoney admissions st1 inert_Own) as [_ _ _ Hs _].
    destruct (each_admission _ _ _) as [[] st2]. by exists st2. }
  cbv zeta. destruct (negb _); [by unfold ste_lift|].
  rewrite ste_bind_run. unfold ste_lift at 1, on_auth. destruct (ba_Reserve _ _ _) as [r auth]. set (st3 := mkBackends _ _ _ _ _).
  assert (∀ e2, ((_ ← ste_lift (on_gov (FinishLocalBudget g local None true false "" "")); early e2
      : STE St AdmissionError (option nat)) st3) = (Err e, st') → refused st st') as Hf.
  { intros e2. rewrite ste_bind_run. unfold ste_lift, early, on_gov. destruct local as [id|].
    - destruct Ha as (_ & _ & Hn & holds & _ & Eg). simpl in Epm.
      pose proof (released g id _ (bk_gov st) (bk_gov st3) (bk_gov st3) "" "" Hn (eq_trans Epm Eg)) as Hrel.
      destruct (FinishLocalBudget _ _ _ _ _ _ _ (bk_gov st3)) as [[] g3]. intros [= <- <-]. by split.
    - destruct Ha as [_ ->]. intros [= <- <-]. split; [done|]. by apply settled_same. }
  destruct r as [[permit|]|e2]; [|apply Hf|apply Hf]. by rewrite ste_bind_run.
Qed.

Lemma reserve_body_refused g p bundle target state raw admissions st e st' :
  reserve_body range decode g p bundle target state raw admissions st = (Err e, st') → refused st st'.
Proof.
  assert (refused st st) as Hst by (split; [done|by apply settled_same]).
  unfold reserve_body. destruct g as [g|]; [|done]. destruct (negb _); [done|].
  rewrite ste_bind_run. unfold checked, mret, st_mret. destruct (singleGeneration decode raw) as [[]|e1]; [|by intros [= <- <-]].
  destruct state as [state|]; [|by intros [= <- <-]]. destruct (Route state (ct_Model target)) as [model|]; [|by intros [= <- <-]].
  destruct (bound_of _ _ _) as [bound bounded]. destruct (_ && _)%bool; [by intros [= <- <-]|].
  destruct (HasSharedAuthority g); [|apply reserveLocal_refused].
  unfold reserveShared. destruct (_ || _)%bool; [by intros [= <- <-]|]. destruct (default _ bundle) as [generation requested].
  rewrite ste_bind_run. unfold checked, on_shared. destruct (sa_ReserveShared _ _) as [[[permit|]|e1] sh]; [by rewrite ste_bind_run| |];
    intros [= <- <-]; split; (done || by apply settled_same).
Qed.

(** *** The admissions of the request *)

(** What cancelling makes of an admission: one that was never dispatched is
    closed. *)
Definition cancelled (x : Admission F) : Admission F := if a_dispatched x then x else set_once x.
(** All of an admission but which ledger settles its money. *)
Definition but_owner (x : Admission F) : Admission F := set_moneyOwned x.

(** The token reservations that are still to be given back: those of every
    admission that is open and was never dispatched, each once. *)
Fixpoint owed (seen : gset nat) (l : list (option nat)) (g : Gov) : list F :=
  match l with
  | [] => []
  | None :: l => owed seen l g
  | Some a :: l => (if (bool_decide (a ∈ seen) || a_dispatched (adm a g) || a_once (adm a g))%bool then [] else a_rates (adm a g))
                     ++ owed ({[ a ]} ∪ seen) l g
  end.
(** Giving back a reservation whole: nothing of it was used. *)
Definition give_back (fs : list F) (l : L) : L := foldl (λ l f, (ls_finish f (Some 0) l).2) l fs.

(** The limiter and the admissions as they were, but for the owner of the money. *)
Definition untouched (g g' : Gov) : Prop := lim g' = lim g ∧ ∀ a, but_owner (adm a g') = but_owner (adm a g).

Lemma untouched_robust g : robust (untouched g).
Proof. by split. Qed.
Lemma untouched_self g : untouched g g.
Proof. by split. Qed.
Lemma untouched_Own a g g' : untouched g g' → untouched g (OwnLocalMoney a g').2.
Proof.
  intros [Hl Ha]. destruct a as [i|]; [|done]. unfold OwnLocalMoney, update_adm, st_modify. split; [done|]. intros a. rewrite <- Ha.
  unfold adm. simpl. destruct (decide (a = i)) as [->|]; [by rewrite lookup_insert_eq|by rewrite lookup_insert_ne].
Qed.
Lemma on_gov_snd {X} (m : ST Gov X) (st : St) : bk_gov (on_gov m st).2 = (m (bk_gov st)).2.
Proof. unfold on_gov. by destruct (m _). Qed.
Lemma untouched_each l g (st : St) : untouched g (bk_gov st) → untouched g (bk_gov (each_admission OwnLocalMoney l st).2).
Proof.
  revert st. induction l as [|a l IH]; intros st Hg; [done|]. simpl. rewrite bind_snd. apply IH.
  rewrite on_gov_snd. by apply untouched_Own.
Qed.

Lemma reserveLocal_untouched g p target table window bound bounded admissions (st : St) e (st' : St) :
  reserveLocal range g p target table window bound bounded admissions st = (Err e, st') → untouched (bk_gov st) (bk_gov st').
Proof.
  unfold reserveLocal. rewrite ste_bind_run. unfold checked, on_gov at 1.
  pose proof (pres_Reserve range _ g (attempt_subject p) (attempt_key p) bound bounded (untouched_robust (bk_gov st)) (bk_gov st) (untouched_self _)) as Hu.
  unfold wp in Hu. destruct (ReserveLocalBudget _ _ _ _ _ _ _) as [[local|e1] g1]; [|by intros [= <- <-]].
  set (own := if is_Some_b local then _ else _). rewrite ste_bind_run. set (st1 := mkBackends g1 _ _ _ _).
  assert (∃ st2, own st1 = (Ok tt, st2) ∧ untouched (bk_gov st) (bk_gov st2)) as (st2 & -> & Hu2).
  { unfold own. destruct (is_Some_b local); [|by exists st1]. unfold ste_lift. pose proof (untouched_each admissions _ st1 Hu) as Ho.
    destruct (each_admission _ _ _) as [[] st2]. by exists st2. }
  cbv zeta. destruct (negb _); [by unfold ste_lift|]. rewrite ste_bind_run. unfold ste_lift at 1, on_auth.
  destruct (ba_Reserve _ _ _) as [r auth]. set (st3 := mkBackends _ _ _ _ _).
  assert (∀ e2, ((_ ← ste_lift (on_gov (FinishLocalBudget g local None true false "" "")); early e2
      : STE St AdmissionError (option nat)) st3) = (Err e, st') → untouched (bk_gov st) (bk_gov st')) as Hf.
  { intros e2. rewrite ste_bind_run. unfold ste_lift, early, on_gov.
    pose proof (pres_Finish _ g local None true false "" "" (untouched_robust (bk_gov st)) (bk_gov st3) Hu2) as Hu3. unfold wp in Hu3.
    destruct (FinishLocalBudget _ _ _ _ _ _ _ (bk_gov st3)) as [[] g3]. by intros [= <- <-]. }
  destruct r as [[permit|]|e2]; [|apply Hf|apply Hf]. by rewrite ste_bind_run.
Qed.

Lemma reserve_body_untouched g p bundle target state raw admissions (st : St) e (st' : St) :
  reserve_body range decode g p bundle target state raw admissions st = (Err e, st') → untouched (bk_gov st) (bk_gov st').
Proof.
  pose proof (untouched_self (bk_gov st)) as Hst.
  unfold reserve_body. destruct g as [g|]; [|done]. destruct (negb _); [done|].
  rewrite ste_bind_run. unfold checked, mret, st_mret. destruct (singleGeneration decode raw) as [[]|e1]; [|by intros [= <- <-]].
  destruct state as [state|]; [|by intros [= <- <-]]. destruct (Route state (ct_Model target)) as [model|]; [|by intros [= <- <-]].
  destruct (bound_of _ _ _) as [bound bounded]. destruct (_ && _)%bool; [by intros [= <- <-]|].
  destruct (HasSharedAuthority g); [|apply reserveLocal_untouched].
  unfold reserveShared. destruct (_ || _)%bool; [by intros [= <- <-]|]. destruct (default _ bundle) as [generation requested].
  rewrite ste_bind_run. unfold checked, on_shared. by destruct (sa_ReserveShared _ _) as [[[permit|]|e1] sh]; [rewrite ste_bind_run|intros [= <- <-]..].
Qed.

Lemma finish_loop_adds rates actual (g : Gov) :
  admissions (finish_loop rates actual g).2 = admissions g
  ∧ lim (finish_loop rates actual g).2 = foldl (λ l f, (ls_finish f actual l).2) (lim g) rates.
Proof.
  revert g. induction rates as [|f rates IH]; intros g; simpl; [done|]. unfold mbind, st_mbind, on_lim.
  destruct (ls_finish f actual (lim g)) as [[] l]. by apply (IH (with_lim l g)).
Qed.

(** One admission is cancelled. *)
Lemma CancelUndispatched_spec a (g : Gov) :
  lim (CancelUndispatched (Some a) g).2 = give_back (if (a_dispatched (adm a g) || a_once (adm a g))%bool then [] else a_rates (adm a g)) (lim g)
  ∧ adm a (CancelUndispatched (Some a) g).2 = cancelled (adm a g)
  ∧ ∀ b, b ≠ a → adm b (CancelUndispatched (Some a) g).2 = adm b g.
Proof.
  unfold CancelUndispatched, mbind, st_mbind, st_get, cancelled. destruct (a_dispatched (adm a g)) eqn:Ed; [done|].
  unfold Cancel, once_do, mbind, st_mbind, st_get. destruct (a_once (adm a g)) eqn:Eo; simpl.
  - split_and!; [done| |done]. revert Eo. destruct (adm a g). simpl. by intros ->.
  - unfold finishRates, mbind, st_mbind, st_get. set (g1 := with_admissions _ g). destruct (finish_loop_adds (a_rates (adm a g1)) (Some 0) g1) as [Ea El].
    unfold adm in *. rewrite El, Ea. unfold g1. simpl. rewrite lookup_insert_eq. split_and!; [done|done|]. intros b Hb. by rewrite lookup_insert_ne.
Qed.

(** What an admission has become when those of [seen] have been cancelled. *)
Definition cancel_if (seen : gset nat) (a : nat) (g : Gov) : Admission F := if bool_decide (a ∈ seen) then cancelled (adm a g) else adm a g.

Lemma cancelled_twice x : cancelled (cancelled x) = cancelled x.
Proof. unfold cancelled. destruct x as [o r e c m mo []]; done. Qed.
Lemma but_owner_fields x y : but_owner x = but_owner y → a_dispatched x = a_dispatched y ∧ a_once x = a_once y ∧ a_rates x = a_rates y ∧ but_owner (cancelled x) = but_owner (cancelled y).
Proof. destruct x as [? ? ? ? ? ? []], y as [? ? ? ? ? ? []]; intros [=]; simplify_eq; done. Qed.

Lemma cancel_each l (seen : gset nat) (g : Gov) (st : St) :
  (∀ a, but_owner (adm a (bk_gov st)) = but_owner (cancel_if seen a g)) →
  lim (bk_gov (each_admission CancelUndispatched l st).2) = give_back (owed seen l g) (lim (bk_gov st))
  ∧ ∀ a, but_owner (adm a (bk_gov (each_admission CancelUndispatched l st).2))
       = but_owner (if bool_decide (a ∈ seen ∨ Some a ∈ l) then cancelled (adm a g) else adm a g).
Proof.
  revert seen st. induction l as [|[a|] l IH]; intros seen st Ha; cbn [each_admission owed]; [|rewrite bind_snd..].
  - split; [done|]. intros a. rewrite Ha. unfold cancel_if. do 2 case_bool_decide; try done; set_solver.
  - destruct (CancelUndispatched_spec a (bk_gov st)) as (El & Ex & Eo). set (st1 := (on_gov _ st).2).
    pose proof (on_gov_snd (CancelUndispatched (Some a)) st : bk_gov st1 = _) as E1.
    destruct (but_owner_fields _ _ (Ha a)) as (Hd & Hn & Hr & Hc). destruct (IH ({[ a ]} ∪ seen) st1) as [H1 H2].
    + intros b. rewrite E1. unfold cancel_if. destruct (decide (b = a)) as [->|Hne].
      * rewrite Ex, Hc, bool_decide_true by set_solver. unfold cancel_if. case_bool_decide; [by rewrite cancelled_twice|done].
      * rewrite (Eo b Hne), Ha. unfold cancel_if. do 2 case_bool_decide; try done; set_solver.
    + split.
      * rewrite H1, E1, El. unfold give_back. rewrite foldl_app. f_equal. rewrite Hd, Hn, Hr. unfold cancel_if.
        case_bool_decide; simpl; [|done]. unfold cancelled. destruct (a_dispatched (adm a g)) eqn:E; simpl; rewrite ?E, ?orb_true_r; done.
      * intros b. rewrite H2. f_equal. do 2 case_bool_decide; try done; set_solver.
  - set (st1 := (on_gov _ st).2). assert (bk_gov st1 = bk_gov st) as E1 by done. clearbody st1.
    destruct (IH seen st1) as [H1 H2]; [by rewrite E1|]. split; [by rewrite H1, E1|]. intros b. rewrite H2. f_equal.
    do 2 case_bool_decide; try done; set_solver.
Qed.

(** C22: A refused attempt leaves nothing behind.  When the money of an attempt
    is refused, by whatever ledger and at whatever point, no attempt is begun and
    no permit of the node's ledger is open that was not before.  The limiter is
    given back, whole, the token reservations of every admission of the request
    that is open and was never dispatched, each once, and is otherwise as it was;
    those admissions are closed, and every other admission is as it was (but for
    the mark that the node's ledger owns its money). *)
Theorem refused_leaves_nothing g p bundle target state raw admissions (st : St) e (st' : St) :
  ReserveBudget range decode g p bundle target state raw admissions st = (Err e, st') →
  refused st st'
  ∧ lim (bk_gov st') = give_back (owed ∅ admissions (bk_gov st)) (lim (bk_gov st))
  ∧ ∀ a, let x := adm a (bk_gov st) in
      but_owner (adm a (bk_gov st')) = but_owner (if bool_decide (Some a ∈ admissions ∧ a_dispatched x = false) then set_once x else x).
Proof.
  unfold ReserveBudget, mbind, st_mbind, observe. set (st0 := mkBackends _ _ _ _ _).
  destruct (reserve_body _ _ _ _ _ _ _ _ _ st0) as [[i|e1] st1] eqn:Er; [by destruct (each_admission _ _)|].
  destruct (reserve_body_untouched _ _ _ _ _ _ _ _ _ _ Er) as [Hl Hu]. apply reserve_body_refused in Er as [Eat Hs].
  pose proof (keeps_each CancelUndispatched admissions st1) as Hk. pose proof (each_same CancelUndispatched admissions st1 inert_Cancel) as [_ _ _ Hp _].
  destruct (cancel_each admissions ∅ (bk_gov st0) st1) as [H1 H2]; [intros a; by rewrite Hu|].
  destruct (each_admission _ _ st1) as [[] st2]. intros [= <- <-]. simpl in *. split; [split; [congruence|]|split].
  - intros id q. rewrite Hp. apply Hs.
  - by rewrite H1, Hl.
  - intros a. rewrite H2. f_equal. unfold cancelled.
    rewrite (bool_decide_ext _ (Some a ∈ admissions)) by set_solver. rewrite bool_decide_and.
    destruct (bool_decide (Some a ∈ admissions)), (a_dispatched _); done.
Qed.
End refusal.

(** ** On a concrete node

    The team of the ledger's example, 99 of its 100 spent; a model whose window
    of eight tokens is bound by 40. *)

Module Demo.

Definition rate : Rate := flat_rate 1000000 1000000 1000000 1000000 1000000.
Definition table : option Pricing.Table := Some (New OnMissingBlock {[ {| Pricing.Provider := "p"; Model := "m" |} := rate ]}).
Definition model : ModelConfig := {| mc_Capabilities := []; mc_Aliases := []; mc_Targets := []; mc_ContextWindow := 8 |}.
Definition topology : Live.State :=
  {| providers := ∅; models := {[ "m" := model ]}; aliases := ∅; pricing := table; identities := ∅; providerConfigs := ∅;
     fallbacks := ∅; fallbackFamily := false |}.
Definition target : ChainTarget :=
  {| ct_Provider := {| pv_Name := "p"; pv_SupportsIngress := None; pv_SupportsBedrockConverse := None |}; ct_ProviderName := "p";
     ct_Identity := "p"; ct_Upstream := "m"; ct_Model := "m"; ct_Region := ""; ct_DataBoundary := "unknown" |}.
Definition principal : Principal := mkPrincipal "ik" "acme" 0 0 0 0 None "" false "" None false "" false.
Definition body (s : string) : option json := Some (JObject []).
Definition usage : Usage.Usage :=
  {| InputTokens := Some 8; OutputTokens := Some 3; CacheReadInputTokens := None; CacheCreationInputTokens := None;
     CacheCreation_ := None; Usage.Extra := None; AccountingUncertain := false |}.

(** Authorities that answer nothing. *)
#[export] Instance no_authority : BudgetAuthority unit :=
  {| ba_Reserve _ _ a := (Err ErrAuthorityUnavailable, a); ba_Finish _ _ _ a := (Ok tt, a) |}.
#[export] Instance no_shared : SharedAuthority unit :=
  {| sa_ReserveShared _ s := (Err ErrSharedUnavailable, s); sa_FinishShared _ _ s := (Ok tt, s); sa_SharedUsage _ s := (Err ErrSharedUnavailable, s) |}.

Definition Node : Type := Backends Limiter.Memory Limiter.Finish Budget.Memory unit unit.

(** Two requests have been admitted; the second holds ten tokens of the limiter. *)
Definition limited : Limiter.Memory := (Limiter.ReserveRate "tokens" 10 60 60 (Limiter.NewMemory (λ _, demo_now))).2.
Definition tokens_left (st : Node) : list float64 := (λ kv, Limiter.tokens kv.2) <$> map_to_list (Limiter.heap (lim (bk_gov st))).
Definition start : Node :=
  mkBackends {| lim := limited; bud := demo_bud; admissions := {[ 7%nat := mkAdmission false [] 1 0 true false false; 8%nat := mkAdmission false [Limiter.FinishReservation 0] 1 0 true false false ]};
                localMoney := ∅; cells := ∅; permits := ∅; wall := λ _, demo_now; wall_reads := 0; events := [] |} tt tt ∅ [].

Definition reserve (a : nat) (st : Node) := ReserveBudget map_to_list body (Some demo_governor) principal None target (Some topology) "{}" [Some a] st.
Definition one : Node := (reserve 7 start).2.
Definition two : Node := (reserve 8 one).2.
Definition refusal : AdmissionError := match (reserve 8 one).1 with Err e => e | Ok _ => ErrOther "" end.
Definition settled : Node := (run_op 1 (Settle None (Some usage) true) two).2.

Definition attempt : budgetAttempt :=
  mkAttempt demo_governor None None (Some 1%nat) false {| s_Team := ""; s_KeyID := ""; s_User := "" |} false table "p" "m" 8.

Lemma demo_attempt : bk_attempts two !! 1%nat = Some attempt.
Proof. by vm_compute. Qed.
Lemma demo_first : (reserve 7 start).1 = Ok (Some 1%nat).
Proof. by vm_compute. Qed.
Lemma demo_spent : Budget.spent <$> m (bud (bk_gov settled)) !! demo_key = Some 110.
Proof. by vm_compute. Qed.
Lemma demo_bound : AuthorityBound table "p" "m" 8 8 = Ok 40.
Proof. by vm_compute. Qed.

Lemma demo_attempt_covered : attempt_covered demo_key demo_month 100 40 (Some demo_governor) principal target (Some topology).
Proof.
  intros g st md [= <-] [= <-] Hr. vm_compute in Hr. injection Hr as <-. exists 40. split; [exact demo_bound|exact demo_covered].
Qed.


Lemma demo_refusal : (reserve 8 one).1 = Err refusal ∧ BudgetStatus refusal = 402.
Proof. by vm_compute. Qed.
Lemma demo_open_admission : adm 8 (bk_gov one) = mkAdmission false [Limiter.FinishReservation 0] 1 0 true false false.
Proof. by vm_compute. Qed.

Lemma refused_leaves_nothing_witness :
  BudgetStatus refusal = 402 ∧ refused one two ∧ but_owner (adm 8 (bk_gov two)) = mkAdmission true [Limiter.FinishReservation 0] 1 0 true true false
  ∧ tokens_left one = [of_int 50] ∧ tokens_left two = [of_int 60].
Proof.
  destruct demo_refusal as [Hr Hs]. split; [exact Hs|].
  destruct (refused_leaves_nothing map_to_list body (Some demo_governor) principal None target (Some topology) "{}" [Some 8%nat] one refusal two)
    as (H1 & H2 & H3); [by rewrite <- Hr; apply surjective_pairing|].
  split; [exact H1|]. split; [rewrite (H3 8%nat), demo_open_admission; by vm_compute|]. split; [by vm_compute|].
  unfold tokens_left. rewrite H2. by vm_compute.
Defined.
End Demo.
