(* ===== verification/AttemptLedgers.v ===== *)
(** * Attempts over the ledgers

    The durable escrow and the shared authority implement the interfaces that an
    attempt reserves and settles through, and an attempt only ever makes of them
    the calls that their own histories allow: whatever holds of every history of
    the journal or of the shared tables holds under any attempts. *)

From S2P Require Import Prelude GoTime GoFloat Json V1Alpha1 Policy Tier Usage Pricing Budget Limiter Denial Governor LocalMoney Governance Live Router Escrow EscrowSafety EscrowTheorems Central CentralSafety CentralTheorems Shared SharedSafety SharedReserve SharedTheorems Settlement SettlementTheorems.

(** ** What an attempt may ask *)

Section calls.
Context {L F B A S : Type} `{!LimiterStore L F} `{!BudgetStore B} `{!BudgetAuthority A} `{!SharedAuthority S}.
Context (range : gmap string nat → list (string * nat)).
Context (decode : string → option json).
Abbreviation St := (Backends L F B A S).

Context (RA : relation A) (RS : relation S) `{!PreOrder RA} `{!PreOrder RS}.
Context (reserve_ok : ∀ subject bound a, bound <= MaxInt64 → RA a (ba_Reserve subject bound a).2).
Context (finish_ok : ∀ permit actual complete a, default 0 actual <= MaxInt64 → RA a (ba_Finish permit actual complete a).2).
Context (shared_ok : ∀ req s, typed_shared req → RS s (sa_ReserveShared req s).2).
Context (finish_shared_ok : ∀ permit settlement s, RS s (sa_FinishShared permit settlement s).2).
Context (usage_ok : ∀ subject s, RS s (sa_SharedUsage subject s).2).

Definition allowed_calls (st st' : St) : Prop := RA (bk_auth st) (bk_auth st') ∧ RS (bk_shared st) (bk_shared st').

#[local] Instance allowed_refl : Reflexive allowed_calls.
Proof. intros st. by split. Qed.
#[local] Instance allowed_trans : Transitive allowed_calls.
Proof. intros ??? [] []. split; by etransitivity. Qed.

(** The type is that of both monads: an error keeps the state. *)
Definition calls {X} (m : St → X * St) : Prop := ∀ st, allowed_calls st (m st).2.

Lemma calls_ret {X} (x : X) : calls (λ st, (x, st)).
Proof. intros st. reflexivity. Qed.
Lemma calls_bind {X Y} (m : ST St X) (f : X → ST St Y) : calls m → (∀ x, calls (f x)) → calls (m ≫= f).
Proof. intros Hm Hf st. rewrite bind_snd. etransitivity; [apply Hm|apply Hf]. Qed.
Lemma calls_ste {X Y} (m : STE St AdmissionError X) (f : X → STE St AdmissionError Y) : calls m → (∀ x, calls (f x)) → calls (mbind f m).
Proof.
  intros Hm Hf st. unfold mbind, ste_mbind. specialize (Hm st). destruct (m st) as [[x|e] st1]; [|done]. etransitivity; [exact Hm|apply Hf].
Qed.
Lemma calls_lift {X} (m : ST St X) : calls m → calls (ste_lift m : STE St AdmissionError X).
Proof. intros Hm st. unfold ste_lift. specialize (Hm st). by destruct (m st). Qed.
Lemma calls_gov {X} (m : ST (Governor.State L F B) X) : calls (on_gov m).
Proof. intros st. unfold on_gov. destruct (m _). by split. Qed.
Lemma calls_auth {X} (m : A → X * A) : (∀ a, RA a (m a).2) → calls (on_auth m).
Proof. intros Hm st. unfold on_auth. specialize (Hm (bk_auth st)). destruct (m _). by split. Qed.
Lemma calls_shared {X} (m : S → X * S) : (∀ s, RS s (m s).2) → calls (on_shared m).
Proof. intros Hm st. unfold on_shared. specialize (Hm (bk_shared st)). destruct (m _). by split. Qed.
Lemma calls_observe o : calls (observe (L := L) (F := F) (B := B) (A := A) (S := S) o).
Proof. intros st. by split. Qed.
Lemma calls_put i a : calls (put_attempt (L := L) (F := F) (B := B) (A := A) (S := S) i a).
Proof. intros st. by split. Qed.
Lemma calls_get i : calls (get_attempt (L := L) (F := F) (B := B) (A := A) (S := S) i).
Proof. intros st. by split. Qed.
Lemma calls_new a : calls (new_attempt (L := L) (F := F) (B := B) (A := A) (S := S) a).
Proof. intros st. by split. Qed.

Create HintDb calls.
#[local] Hint Resolve calls_ret calls_bind calls_ste calls_lift calls_gov calls_observe calls_put calls_get calls_new : calls.
#[local] Hint Extern 1 (calls (mret _)) => (intros ?; reflexivity) : calls.
#[local] Hint Extern 1 (calls (early _)) => (intros ?; reflexivity) : calls.
#[local] Hint Extern 1 (calls (on_auth _)) => (apply calls_auth; intros ?; auto) : calls.
#[local] Hint Extern 1 (calls (on_shared _)) => (apply calls_shared; intros ?; auto) : calls.

Ltac calls := repeat first [solve [auto with calls] | apply calls_ste; [|intros ?] | apply calls_bind; [|intros ?] | apply calls_lift | case_match].

Lemma calls_each f l : calls (each_admission (A := A) (S := S) f l).
Proof. induction l as [|a l IH]; simpl; calls. Qed.

Lemma calls_limits g s limits b q : calls (observe_limits (A := A) (S := S) g s limits b q).
Proof. revert b q. induction limits as [|l limits IH]; intros b q; simpl; calls. Qed.
#[local] Hint Resolve calls_each calls_limits : calls.

Lemma calls_ObserveShared g s : calls (ObserveShared (A := A) g s).
Proof. unfold ObserveShared. calls. Qed.
#[local] Hint Resolve calls_ObserveShared : calls.

Lemma calls_finishShared i a permit settlement : calls (finishShared (A := A) i a permit settlement).
Proof. unfold finishShared, finish_once. calls. Qed.

Lemma calls_finishObserved i a la aa complete : default 0 aa <= MaxInt64 → calls (finishObserved i a la aa complete).
Proof. intros Ha. unfold finishObserved, finish_once, finish_authority. pose proof calls_finishShared. calls. Qed.

Lemma cost_nat63 t p m u cost : CostUSDMicrosChecked t p m u = Ok cost → cost <= MaxInt64.
Proof. intros (? & _ & _ & _ & _ & _ & [_ ?])%cost_inv. done. Qed.

Lemma calls_settle i a usage complete : calls (settle_attempt i a usage complete).
Proof.
  unfold settle_attempt, settleShared, settle_uncertain. pose proof calls_finishShared.
  assert (∀ i a la c, calls (finishObserved i a la None c)) as Hn by (intros; apply calls_finishObserved; done).
  destruct (at_shared a); [calls|]. destruct (authorityUsage usage (at_window a)) as [[u exact] invalid]. destruct (_ || _)%bool; [calls|].
  destruct (CostUSDMicrosChecked _ _ _ u) eqn:Ec; [|calls]. apply cost_nat63 in Ec.
  assert (∀ i a la c, calls (finishObserved i a la (Some a0) c)) as Hs by (intros; by apply calls_finishObserved). calls.
Qed.

Lemma calls_run_op i op : calls (run_op i op).
Proof.
  destruct op as [cost usage complete|]; simpl; unfold SettleBudget, finalize.
  - apply calls_bind; [calls|]. intros [a|]; (apply calls_bind; [|intros ?; calls]); [apply calls_settle|calls].
  - apply calls_bind; [calls|]. intros [a|]; [|calls]. destruct (at_shared a); [apply calls_finishShared|by apply calls_finishObserved].
Qed.

Lemma AuthorityBound_int64 t p m w w' bound : AuthorityBound t p m w w' = Ok bound → bound <= MaxInt64.
Proof.
  unfold AuthorityBound, mbind, result_bind. destruct t; [|done]. destruct (_ || _)%bool; [done|]. destruct (Pricing.lookup _ _ _); [|done].
  destruct (bound_loop _ _) as [total|]; [|done]. case_bool_decide as Hi; [|done]. intros [= <-]. by destruct Hi.
Qed.

Lemma calls_ReserveBudget g p bundle target state raw admissions : calls (ReserveBudget range decode g p bundle target state raw admissions).
Proof.
  unfold ReserveBudget. apply calls_bind; [calls|]. intros _. apply calls_bind; [|intros ?; calls].
  unfold reserve_body. destruct g as [g|]; [|calls]. destruct (negb _); [calls|]. apply calls_ste; [intros ?; reflexivity|]. intros _.
  destruct state as [state|]; [|calls]. destruct (Route _ _) as [model|]; [|calls].
  destruct (bound_of _ _ _) as [bound bounded] eqn:Eb.
  assert (bound <= MaxInt64) as Hb.
  { unfold bound_of in Eb. destruct (AuthorityBound _ _ _ _ _) eqn:E; simplify_eq; [by eapply AuthorityBound_int64|done]. }
  destruct (_ && _)%bool; [calls|]. destruct (HasSharedAuthority g).
  - unfold reserveShared. destruct (_ || _)%bool; [calls|]. destruct (default _ bundle) as [generation requested].
    apply calls_ste; [|intros ?; calls]. apply calls_shared. intros s. apply shared_ok. split; [|done]. simpl. pose proof (wrap64_int64 (5 * mc_ContextWindow model)). int_lia.
  - unfold reserveLocal. apply calls_ste; [apply calls_gov|intros local]. apply calls_ste; [calls|intros _]. destruct (negb _); [calls|].
    apply calls_ste; [calls|]. intros [[permit|]|e]; calls.
Qed.
End calls.

(** ** The shared authority as an attempt's *)

(** What the outside answers a call: clocks, identities, the random permit and
    the outcome of the commit. *)
Record SharedEnv := {
  se_identity : option (list v1alpha1.GovernancePolicy → bool); se_identity_set : bool;
  se_read : string → Time → option Principal; se_now1 : Time; se_now2 : Time; se_permit : option string; se_commit : Commit }.

Record SharedNode := mkNode { sn_world : World; sn_env : nat → SharedEnv; sn_calls : nat }.

Definition answered (w : World) (n : SharedNode) : SharedNode := mkNode w (sn_env n) (1 + sn_calls n).

Section node.
Context (order : gmap string string → list (string * string)).
Context (authorityHash : list string → string) (revise : Policy.Budget → string → string).
Context (GenerationOf : list v1alpha1.GovernancePolicy → string).
Context (chash : string → string) (shash : string → SharedSettlement → string).

Definition node_reserve (req : SharedRequest) (n : SharedNode) : result AdmissionError (option SharedPermit) * SharedNode :=
  let e := sn_env n (sn_calls n) in
  let '(r, w) := ReserveShared order authorityHash revise GenerationOf chash (se_identity e) (se_identity_set e) (se_read e) (se_now1 e) (se_now2 e)
                   (se_permit e) (se_commit e) req (sn_world n) in
  (match r with Ok permit => Ok (Some permit) | Err err => Err err end, answered w n).

Definition node_finish (permit : SharedPermit) (settlement : SharedSettlement) (n : SharedNode) : result AdmissionError unit * SharedNode :=
  let e := sn_env n (sn_calls n) in
  let '(r, w) := FinishShared chash shash (se_now1 e) (se_commit e) (Some permit) settlement (sn_world n) in (r, answered w n).

Definition node_usage (subject : Governor.Subject) (n : SharedNode) : result AdmissionError (list SharedLimit) * SharedNode :=
  let e := sn_env n (sn_calls n) in
  (SharedUsage order authorityHash revise GenerationOf chash (se_read e) (se_now1 e) (se_now2 e) subject (sn_world n), answered (sn_world n) n).

#[local] Instance node_authority : SharedAuthority SharedNode :=
  {| sa_ReserveShared := node_reserve; sa_FinishShared := node_finish; sa_SharedUsage := node_usage |}.

Context (order_perm : ∀ m, order m ≡ₚ map_to_list m).
Context (allowed : list v1alpha1.GovernancePolicy → Prop).
Abbreviation shared_step := (shared_step order authorityHash revise GenerationOf chash shash allowed).

(** A call is a step of the tables' own history, or none. *)
Definition node_step (n n' : SharedNode) : Prop := rtc shared_step (sn_world n) (sn_world n').

#[local] Instance node_preorder : PreOrder node_step.
Proof. split; [intros n; by apply rtc_refl|unfold node_step; intros n1 n2 n3 H1 H2; by etransitivity]. Qed.

Lemma node_reserve_step req n : typed_shared req → node_step n (node_reserve req n).2.
Proof.
  intros Hty. unfold node_step, node_reserve. apply rtc_once.
  pose proof (StepReserve order authorityHash revise GenerationOf chash shash allowed (sn_world n)
    (se_identity (sn_env n (sn_calls n))) (se_identity_set (sn_env n (sn_calls n))) (se_read (sn_env n (sn_calls n)))
    (se_now1 (sn_env n (sn_calls n))) (se_now2 (sn_env n (sn_calls n))) (se_permit (sn_env n (sn_calls n))) (se_commit (sn_env n (sn_calls n))) req Hty) as Hs.
  cbv zeta. by destruct (ReserveShared _ _ _ _ _ _ _ _ _ _ _ _ _ _).
Qed.

Lemma node_finish_step permit settlement n : node_step n (node_finish permit settlement n).2.
Proof.
  unfold node_step, node_finish. apply rtc_once.
  pose proof (StepFinish order authorityHash revise GenerationOf chash shash allowed (sn_world n)
    (se_now1 (sn_env n (sn_calls n))) (se_commit (sn_env n (sn_calls n))) (Some permit) settlement) as Hs.
  cbv zeta. by destruct (FinishShared _ _ _ _ _ _ _).
Qed.

(** ** Gateways on one database *)

Section fleet.
Context {L F B A : Type} `{!LimiterStore L F} `{!BudgetStore B} `{!BudgetAuthority A}.
Context (range : gmap string nat → list (string * nat)).
Context (decode : string → option json).
Abbreviation St := (Backends L F B A SharedNode).

Definition with_world (w : World) (st : St) : St :=
  mkBackends (bk_gov st) (bk_auth st) (mkNode w (sn_env (bk_shared st)) (sn_calls (bk_shared st))) (bk_attempts st) (bk_observed st).

(** This gateway's attempts, among whatever the other gateways, the dataplanes
    and the control plane do to the same tables. *)
Inductive fleet (docs : list v1alpha1.GovernancePolicy) : St → Prop :=
| fleet_start st : sn_world (bk_shared st) = emptyWorld docs → fleet docs st
| fleet_reserve st g p bundle target state raw admissions :
    fleet docs st → fleet docs (ReserveBudget range decode g p bundle target state raw admissions st).2
| fleet_op st i op : fleet docs st → fleet docs (run_op i op st).2
| fleet_other st w : fleet docs st → shared_step (sn_world (bk_shared st)) w → fleet docs (with_world w st).

Lemma attempts_allowed st :
  (∀ g p bundle target state raw admissions,
     node_step (bk_shared st) (bk_shared (ReserveBudget range decode g p bundle target state raw admissions st).2))
  ∧ ∀ i op, node_step (bk_shared st) (bk_shared (run_op i op st).2).
Proof.
  assert (PreOrder (λ _ _ : A, True)) as Htop by by split.
  split; intros; [eapply (calls_ReserveBudget range decode (λ _ _ : A, True) node_step)|eapply (calls_run_op (λ _ _ : A, True) node_step)];
    first [done|apply node_preorder|apply node_reserve_step|intros ??; apply node_finish_step|intros ? n; by apply rtc_refl].
Qed.

Lemma fleet_history docs st : fleet docs st → rtc shared_step (emptyWorld docs) (sn_world (bk_shared st)).
Proof.
  induction 1 as [st Hs|st g p bundle target state raw admissions _ IH|st i op _ IH|st w _ IH Hs].
  - by rewrite Hs.
  - etransitivity; [exact IH|apply attempts_allowed].
  - etransitivity; [exact IH|apply attempts_allowed].
  - eapply rtc_r; [exact IH|exact Hs].
Qed.
End fleet.

(** C6: A hard limit holds whatever the gateways do.  Any number of attempts
    begin, settle and are finalized at a gateway, its providers report any
    usage, and in between the other gateways, the dataplanes and the control
    plane do to the same database whatever they may: unless an overrun has
    frozen the window, what the dataplanes hold and the permits
    that are still open are within what the account encumbers, and that, with
    everything settled, is within the hard limit of the documents. *)
Theorem fleet_within_limit {L F B A : Type} `{!LimiterStore L F} `{!BudgetStore B} `{!BudgetAuthority A} range decode
    docs k limit (st : Backends L F B A SharedNode) a :
  let lim := λ k', if decide (k' = k) then Some limit else None in
  hard_limits order authorityHash revise lim docs → (∀ docs', allowed docs' → hard_limits order authorityHash revise lim docs') →
  fleet range decode docs st → Accounts (w_db (sn_world (bk_shared st))) !! k = Some a → frozen a = false → acceptsMeters a = false →
  held_on k (w_db (sn_world (bk_shared st))) + sum_open (hard_at k) (w_permits (sn_world (bk_shared st))) <= hardEncumbered a
  ∧ hardEncumbered a + softConsumed a <= limit.
Proof.
  intros lim Hlim Hall Hh Ha Hf Hm. apply fleet_history in Hh.
  destruct (shared_history_ok order authorityHash revise GenerationOf chash shash order_perm lim nobody allowed (emptyWorld docs) _ Hall Hlim
    (empty_world_ok _ _) Hh) as ([x Hok] & _ & _).
  eapply (books_limit _ _ _ k limit a Hok); [|done..]. unfold lim. by rewrite decide_True.
Qed.
End node.

(** ** On the concrete deployment *)

Module Demo.

Definition env : SharedEnv :=
  {| se_identity := Some (λ _, true); se_identity_set := false; se_read := Shared.Demo.read; se_now1 := Shared.Demo.now;
     se_now2 := Shared.Demo.now; se_permit := Some Central.Demo.capability; se_commit := Committed |}.

#[export] Instance demo_node : SharedAuthority SharedNode :=
  node_authority Central.Demo.range Central.Demo.joined Central.Demo.revise Shared.Demo.generation (λ s, s) Shared.Demo.settlement.

#[local] Existing Instance SettlementTheorems.Demo.no_authority.

Definition governor : Governor := SetSharedAuthority true (NewGovernor ∅).
Definition model : ModelConfig := {| mc_Capabilities := []; mc_Aliases := []; mc_Targets := []; mc_ContextWindow := 8 |}.
Definition topology : Live.State :=
  {| providers := ∅; models := {[ "model" := model ]}; aliases := ∅; pricing := SettlementTheorems.Demo.table; identities := ∅;
     providerConfigs := ∅; fallbacks := ∅; fallbackFamily := false |}.
Definition target : ChainTarget :=
  {| ct_Provider := {| pv_Name := "p"; pv_SupportsIngress := None; pv_SupportsBedrockConverse := None |}; ct_ProviderName := "p";
     ct_Identity := "p"; ct_Upstream := "m"; ct_Model := "model"; ct_Region := ""; ct_DataBoundary := "unknown" |}.
Definition body (s : string) : option json := Some (JObject []).

Definition Gateway : Type := Backends Limiter.Memory Limiter.Finish Budget.Memory unit SharedNode.
Definition start : Gateway :=
  mkBackends {| lim := Limiter.NewMemory (λ _, 0); bud := Budget.NewMemory (λ _, 0); admissions := ∅; localMoney := ∅; cells := ∅;
                permits := ∅; wall := λ _, 0; wall_reads := 0; events := [] |} tt (mkNode Shared.Demo.world0 (λ _, env) 0) ∅ [].
Definition reserved := ReserveBudget map_to_list body (Some governor) Shared.Demo.principal (Some ("gen", "model")) target (Some topology) "{}" [] start.
Definition settled : Gateway := (run_op 1 (Settle None (Some SettlementTheorems.Demo.usage) true) reserved.2).2.
Definition world : World := sn_world (bk_shared settled).

(** The request was reserved at 40 and settled at 12. *)
Lemma demo_reserved_attempt : reserved.1 = Ok (Some 1%nat).
Proof. by vm_compute. Qed.
Lemma demo_world_account :
  match Accounts (w_db world) !! budget_key CentralTheorems.Demo.hard with
  | Some a => frozen a = false ∧ acceptsMeters a = false ∧ hardConsumed a = 12 | None => False end.
Proof. by vm_compute. Qed.

Lemma fleet_within_limit_witness :
  ∃ a, Accounts (w_db world) !! budget_key CentralTheorems.Demo.hard = Some a ∧ hardConsumed a = 12
    ∧ hardEncumbered a + softConsumed a <= 50000000.
Proof.
  pose proof demo_world_account as Ha. destruct (Accounts (w_db world) !! budget_key CentralTheorems.Demo.hard) as [a|] eqn:E; [|destruct Ha].
  destruct Ha as (Hf & Hm & Hc). exists a. split; [reflexivity|]. split; [exact Hc|].
  refine (proj2 (fleet_within_limit Central.Demo.range Central.Demo.joined Central.Demo.revise Shared.Demo.generation (λ s, s) Shared.Demo.settlement
    CentralTheorems.Demo.demo_range_perm CentralTheorems.Demo.the_docs map_to_list body [Central.Demo.doc]
    (budget_key CentralTheorems.Demo.hard) 50000000 settled a SharedTheorems.Demo.demo_hard_limits _ _ E Hf Hm)).
  - intros docs ->. exact SharedTheorems.Demo.demo_hard_limits.
  - apply fleet_op, fleet_reserve, fleet_start. reflexivity.
Defined.
End Demo.
