(* ===== verification/Evidence.v ===== *)
(** * Evidence of a request (internal/audit/{evidence,routing,usage,substitution}.go)

    Every request carries one collector of evidence: the provider calls it made
    with their closed statuses, the time to its first token, the limit that
    refused it.  [Finish] stamps it onto the request's terminal record.  How an
    attempt ends is internal/server/requestpolicy/attempt.go.

    The collector is reached through the request's context; a context without one
    collects nothing. *)

From S2P Require Import Prelude GoTime Usage Denial Shared Settlement.

(** ** Errors, as far as they are asked about *)

(** The errors that [errors.Is] compares with. *)
Inductive Sentinel :=
| Canceled | DeadlineExceeded
| ErrTruncated | ErrFailed
| errStreamIncomplete | errResponseIncompatible | errUsageMissing | errClientWriteFailed.

#[export] Instance Sentinel_eq_dec : EqDecision Sentinel.
Proof. solve_decision. Defined.

(** providers.UpstreamError. *)
Record UpstreamError := mkUpstream { ue_StatusCode : Z; ue_Body : string }.

(** The status clamped to a writable one. *)
Definition HTTPStatus (e : UpstreamError) : Z :=
  if ((ue_StatusCode e <? 100) || (599 <? ue_StatusCode e))%bool then 502 else ue_StatusCode e.

(** What [errors.As] finds and what [errors.Is] answers. *)
Record error := mkError { er_upstream : option UpstreamError; er_is : list Sentinel }.

Definition sentinel (s : Sentinel) : error := mkError None [s].

(** Of an error that may be nil. *)
Definition As_Upstream (e : option error) : option UpstreamError := e ≫= er_upstream.
Definition Is (e : option error) (s : Sentinel) : bool :=
  match e with Some e => contains s (er_is e) | None => false end.

(** [errors.Join]. *)
Definition Join (a b : error) : error :=
  mkError (match er_upstream a with Some u => Some u | None => er_upstream b end) (er_is a ++ er_is b).

(** What a context's [Err] may answer. *)
Inductive CtxError := CtxCanceled | CtxDeadline.

#[export] Instance CtxError_eq_dec : EqDecision CtxError.
Proof. solve_decision. Defined.

(** ** Records (record.go, routing.go) *)

Definition AttemptOK : string := "ok".
Definition AttemptUpstreamError : string := "upstream_error".
Definition AttemptModelNotFound : string := "model_not_found".
Definition AttemptStreamFailed : string := "stream_failed".
Definition AttemptTimeout : string := "timeout".
Definition AttemptCanceled : string := "canceled".

(** The closed set. *)
Definition attempt_statuses : list string :=
  [AttemptOK; AttemptUpstreamError; AttemptModelNotFound; AttemptStreamFailed; AttemptTimeout; AttemptCanceled].

Definition maxAttempts : nat := 8.

Record AttemptRef := mkAttemptRef
  { ar_Provider : string; ar_Model : string; ar_Status : string; ar_HTTP : Z; ar_StartMs : Z; ar_DurMs : Z }.

Record ClientRef := { cl_RequestClass : string; cl_SessionRef : string }.
Record AutoModeRef := { am_Verdict : string; am_Stage : string; am_Signature : string }.

Record RoutingPolicyRef := { ro_Name : string; ro_Generation : Z; ro_Rule : string }.
Record RoutingRecommendation := { rr_Policy : RoutingPolicyRef; rr_Model : string; rr_Reason : string }.
Record ClassifierRef := { cf_Name : string; cf_Revision : string; cf_Boundary : string; cf_Mode : string; cf_Result : string; cf_WouldRestrict : bool }.

Record RoutingRef := mkRouting
  { ro_RequestedModel : string; ro_SelectedModel : string; ro_ProposedModel : string; ro_Mode : string; ro_Reason : string;
    ro_Inspection : string; ro_Privacy : string; ro_Categories : list string; ro_Policies : list RoutingPolicyRef;
    ro_Recommendations : list RoutingRecommendation; ro_PlannedProvider : string; ro_PlannedBoundary : string;
    ro_ActualModel : string; ro_ActualProvider : string; ro_ActualBoundary : string; ro_Masked : bool;
    ro_Classifiers : list ClassifierRef; ro_ModelFallbackFrom : string; ro_ModelFallbackSource : string }.

Record PrincipalRef := { pf_KeyID : string; pf_Team : string; pf_Identity : option string; pf_Account : string }.

Record RequestRef := mkRequestRef
  { rf_Ingress : string; rf_ModelRequested : string; rf_ModelResolved : string; rf_Provider : string; rf_Stream : bool;
    rf_PIIMasked : bool; rf_ModelSubstitutedFrom : string; rf_Routing : option RoutingRef }.

Record OutcomeRef := mkOutcome
  { oc_Status : Z; oc_FallbackUsed : bool; oc_FallbackChain : list string; oc_Partial : bool; oc_Error : option string }.

Record UsageEvidence := mkUsageEvidence
  { ue_InputKnown : bool; ue_OutputKnown : bool; ue_InputTotalKnown : bool; ue_CacheWriteTTLKnown : bool; ue_AccountingUncertain : bool }.

Record UsageRef := mkUsageRef
  { uf_InputTokens : Z; uf_OutputTokens : Z; uf_CacheReadInputTokens : Z; uf_CacheCreationInputTokens : Z; uf_Estimated : bool;
    uf_CacheCreation5m : Z; uf_CacheCreation1h : Z; uf_Evidence : option UsageEvidence }.

Record LatencyRef := mkLatency { la_TTFTMs : Z; la_TotalMs : Z }.

(** What a handler fills in of a record; the chain is internal/audit/writer.go. *)
Record Record_ := mkRecord
  { rec_Event : string; rec_ID : string; rec_TS : Time; rec_Principal : PrincipalRef; rec_Request : RequestRef;
    rec_Outcome : option OutcomeRef; rec_Usage : option UsageRef; rec_Cost : option CostRef; rec_Latency : option LatencyRef;
    rec_TraceID : option string; rec_BodyRef : option string; rec_Attempts : list AttemptRef; rec_Client : option ClientRef;
    rec_AutoMode : option AutoModeRef; rec_Governance : option GovernanceRef }.

Definition request_started : string := "request_started".
Definition request_completed : string := "request_completed".

(** *** Routing evidence of a context *)

Definition maxFallbackRequested : nat := 256.

(** The reference that [WithModelFallback] stores. *)
Definition WithModelFallback (requested served source : string) : RoutingRef :=
  let requested := String.substring 0 maxFallbackRequested requested in
  mkRouting requested served "" "" "model_fallback" "not_inspected" "" [] [] [] "" "" "" "" "" false [] requested source.

Definition with_fallback (from source : string) (r : RoutingRef) : RoutingRef :=
  mkRouting (ro_RequestedModel r) (ro_SelectedModel r) (ro_ProposedModel r) (ro_Mode r) (ro_Reason r) (ro_Inspection r)
    (ro_Privacy r) (ro_Categories r) (ro_Policies r) (ro_Recommendations r) (ro_PlannedProvider r) (ro_PlannedBoundary r)
    (ro_ActualModel r) (ro_ActualProvider r) (ro_ActualBoundary r) (ro_Masked r) (ro_Classifiers r) from source.

(** The routing reference of the context, and its model fallback. *)
Definition RoutingFrom (routing fallback : option RoutingRef) : option RoutingRef :=
  match routing with
  | None => fallback
  | Some r =>
      if bool_decide (ro_ModelFallbackSource r = "") then
        match fallback with
        | Some f => Some (with_fallback (ro_ModelFallbackFrom f) (ro_ModelFallbackSource f) r)
        | None => Some r
        end
      else Some r
  end.

(** The actual target of one provider call, on a context of its own. *)
Definition WithRoutingAttempt (model provider boundary : string) (routing fallback : option RoutingRef) : option RoutingRef :=
  match RoutingFrom routing fallback with
  | None => routing
  | Some r =>
      Some (mkRouting (ro_RequestedModel r) (ro_SelectedModel r) (ro_ProposedModel r) (ro_Mode r) (ro_Reason r) (ro_Inspection r)
              (ro_Privacy r) (ro_Categories r) (ro_Policies r) (ro_Recommendations r) (ro_PlannedProvider r) (ro_PlannedBoundary r)
              model provider (if bool_decide (boundary = "") then "unknown" else boundary) (ro_Masked r) (ro_Classifiers r)
              (ro_ModelFallbackFrom r) (ro_ModelFallbackSource r))
  end.

(** *** Usage evidence *)

(** The known sum of the input classes. *)
Fixpoint input_total (l : list Z) (total : Z) : option Z :=
  match l with
  | [] => Some total
  | n :: l => if ((n <? 0) || (MaxInt64 - total <? n))%bool then None else input_total l (total + n)
  end.

Definition count_known (n : option Z) : bool := match n with Some n => 0 <=? n | None => false end.

(** Where the loop stops, its partial sum is compared with the output. *)
Fixpoint input_partial (l : list Z) (total : Z) : Z :=
  match l with
  | [] => total
  | n :: l => if ((n <? 0) || (MaxInt64 - total <? n))%bool then total else input_partial l (total + n)
  end.

Definition UsageFrom (u : option Usage.Usage) : option UsageRef :=
  match u with
  | None => None
  | Some u =>
      let '(w5, w1) := CacheWriteTiers (Some u) in
      let c := CacheWriteAccounting (Some u) in
      let input := count_known (InputTokens u) in
      let output := count_known (OutputTokens u) in
      let ttl := (negb (AccountingUncertain u) && TTLKnown c && negb (Invalid c))%bool in
      let classes := [deref64 (InputTokens u); deref64 (CacheReadInputTokens u); w5; w1] in
      let overflow := negb (is_Some_b (input_total classes 0)) in
      let total_known := (input && negb (AccountingUncertain u) && QuantityKnown c && negb (Invalid c) && negb overflow)%bool in
      let doubtful := (AccountingUncertain u || negb input || negb output || negb ttl || overflow || negb total_known
                       || (MaxInt64 - input_partial classes 0 <? deref64 (OutputTokens u)))%bool in
      Some (mkUsageRef (deref64 (InputTokens u)) (deref64 (OutputTokens u)) (deref64 (CacheReadInputTokens u))
              (if ((0 <=? w5) && (0 <=? w1) && (w5 <=? MaxInt64 - w1))%bool then w5 + w1 else 0) false w5 w1
              (Some (mkUsageEvidence input output total_known ttl doubtful)))
  end.

(** ** The collector *)

Record evidence := mkEvidence
  { ev_start : Time; ev_client : option ClientRef; ev_ttft : Duration; ev_attempts : list AttemptRef; ev_open : option nat;
    ev_auto : option AutoModeRef; ev_gov : option GovernanceRef }.

(** The collector of a context, if it has one, and the clock. *)
Record Collector := mkCollector { co_evidence : option evidence; co_clock : nat → Time; co_reads : nat }.

Definition now : ST Collector Time := λ co,
  (co_clock co (co_reads co), mkCollector (co_evidence co) (co_clock co) (S (co_reads co))).

(** [if e == nil { return }]. *)
Definition on_evidence (f : evidence → ST Collector evidence) : ST Collector unit := λ co,
  match co_evidence co with
  | None => (tt, co)
  | Some e => let '(e', co') := f e co in (tt, mkCollector (Some e') (co_clock co') (co_reads co'))
  end.

Definition ev_with (attempts : list AttemptRef) (o : option nat) (e : evidence) : evidence :=
  mkEvidence (ev_start e) (ev_client e) (ev_ttft e) attempts o (ev_auto e) (ev_gov e).

(** [WithEvidence]; [None] of the client is the nil reference. *)
Definition WithEvidence (start : Time) (client : option ClientRef) : evidence := mkEvidence start client 0 [] None None None.

(** [Duration.Milliseconds] truncates. *)
Definition Milliseconds (d : Duration) : Z := Z.quot d Millisecond.

Definition sinceMs (e : evidence) : ST Collector Z := t ← now; mret (Milliseconds (Sub t (ev_start e))).

Definition endLocked (idx : nat) (status : string) (httpStatus : Z) (e : evidence) : ST Collector evidence :=
  match ev_attempts e !! idx with
  | None => mret e
  | Some a =>
      if negb (bool_decide (ar_Status a = "")) then mret e
      else
        ms ← sinceMs e;
        let a := mkAttemptRef (ar_Provider a) (ar_Model a) status (if 0 <? httpStatus then httpStatus else ar_HTTP a)
                   (ar_StartMs a) (Z.max (ms - ar_StartMs a) 0) in
        mret (ev_with (<[idx := a]> (ev_attempts e)) (if bool_decide (ev_open e = Some idx) then None else ev_open e) e)
  end.

(** [BeginAttempt]; its end function is [EndAttempt] of the index. *)
Definition BeginAttempt (provider model : string) : ST Collector unit :=
  on_evidence (λ e,
    ms ← sinceMs e;
    mret (ev_with (ev_attempts e ++ [mkAttemptRef provider model "" 0 ms 0]) (Some (length (ev_attempts e))) e)).

Definition EndAttempt (idx : nat) (status : string) (httpStatus : Z) : ST Collector unit :=
  on_evidence (endLocked idx status httpStatus).

Definition end_open (status : string) (httpStatus : Z) (e : evidence) : ST Collector evidence :=
  match ev_open e with Some idx => endLocked idx status httpStatus e | None => mret e end.

Definition EndOpenAttempt (status : string) (httpStatus : Z) : ST Collector unit := on_evidence (end_open status httpStatus).

Definition note_http (httpStatus : Z) (a : AttemptRef) : AttemptRef :=
  mkAttemptRef (ar_Provider a) (ar_Model a) (ar_Status a) httpStatus (ar_StartMs a) (ar_DurMs a).

Definition NoteAttemptHTTP (httpStatus : Z) : ST Collector unit :=
  if httpStatus <=? 0 then mret tt
  else on_evidence (λ e, mret (match ev_open e with
                               | Some idx => ev_with (alter (note_http httpStatus) idx (ev_attempts e)) (ev_open e) e
                               | None => e
                               end)).

Definition OpenAttemptHTTP (co : Collector) : Z :=
  match co_evidence co with
  | Some e => match ev_open e ≫= λ idx, ev_attempts e !! idx with Some a => ar_HTTP a | None => 0 end
  | None => 0
  end.

Definition MarkFirstToken : ST Collector unit :=
  on_evidence (λ e,
    if ev_ttft e =? 0 then
      t ← now;
      mret (mkEvidence (ev_start e) (ev_client e) (Z.max (Sub t (ev_start e)) Millisecond) (ev_attempts e) (ev_open e) (ev_auto e) (ev_gov e))
    else mret e).

Definition SetAutoMode (ref : option AutoModeRef) : ST Collector unit :=
  on_evidence (λ e, mret (mkEvidence (ev_start e) (ev_client e) (ev_ttft e) (ev_attempts e) (ev_open e) ref (ev_gov e))).

Definition SetGovernance (ref : option GovernanceRef) : ST Collector unit :=
  on_evidence (λ e, mret (mkEvidence (ev_start e) (ev_client e) (ev_ttft e) (ev_attempts e) (ev_open e) (ev_auto e) ref)).

(** ** The terminal record *)

Definition terminalRecord (r : Record_) : bool :=
  (bool_decide (rec_Event r = request_completed)
   || (bool_decide (rec_Event r = request_started) && is_Some_b (rec_Outcome r)))%bool.

Definition finalAttemptStatus (ctx : option CtxError) (o : option OutcomeRef) : string * Z :=
  if bool_decide (ctx = Some CtxCanceled) then (AttemptCanceled, 0)
  else match o with
  | None => (AttemptUpstreamError, 0)
  | Some o =>
      if oc_Partial o then (AttemptStreamFailed, oc_Status o)
      else if ((200 <=? oc_Status o) && (oc_Status o <? 400))%bool then (AttemptOK, oc_Status o)
      else if oc_Status o =? 504 then (AttemptTimeout, oc_Status o)
      else (AttemptUpstreamError, oc_Status o)
  end.

(** The first seven and the last. *)
Definition boundedAttempts {A} (l : list A) : list A :=
  if (length l <=? maxAttempts)%nat then l
  else take (maxAttempts - 1) l ++ match list.last l with Some a => [a] | None => [] end.

Definition fallback_outcome (attempts : list AttemptRef) (o : OutcomeRef) : OutcomeRef :=
  mkOutcome (oc_Status o) true (map ar_Provider attempts) (oc_Partial o) (oc_Error o).

(** The collected evidence, [latency] and [attempts] computed, on a record. *)
Definition stamp (e : evidence) (latency : option LatencyRef) (r : Record_) : Record_ :=
  let attempts := boundedAttempts (ev_attempts e) in
  mkRecord (rec_Event r) (rec_ID r) (rec_TS r) (rec_Principal r) (rec_Request r)
    (if (1 <? length (ev_attempts e))%nat then fallback_outcome attempts <$> rec_Outcome r else rec_Outcome r)
    (rec_Usage r) (rec_Cost r) latency (rec_TraceID r) (rec_BodyRef r)
    (if (0 <? length (ev_attempts e))%nat then attempts else rec_Attempts r)
    (match ev_client e with Some c => Some c | None => rec_Client r end)
    (if bool_decide (rec_Event r = request_completed)
     then match ev_auto e with Some a => Some a | None => rec_AutoMode r end else rec_AutoMode r)
    (if bool_decide (rec_Event r = request_started)
     then match ev_gov e with Some g => Some g | None => rec_Governance r end else rec_Governance r).

Definition put_evidence (e : evidence) : ST Collector unit := λ co, (tt, mkCollector (Some e) (co_clock co) (co_reads co)).

Definition Finish (ctx : option CtxError) (r : Record_) : ST Collector Record_ :=
  co ← st_get;
  match co_evidence co with
  | None => mret r
  | Some e =>
      if negb (terminalRecord r) then mret r
      else
        latency ← match rec_Latency r with
                  | Some l => mret (Some l)
                  | None => ms ← sinceMs e; mret (Some (mkLatency (Milliseconds (ev_ttft e)) ms))
                  end;
        let '(status, code) := finalAttemptStatus ctx (rec_Outcome r) in
        e ← end_open status code e;
        _ ← put_evidence e;
        mret (stamp e latency r)
  end.

(** ** How an attempt ends (requestpolicy/attempt.go) *)

(** [ctx.Err()] and the error of the exchange. *)
Definition canceled (ctx : option CtxError) (err : option error) : bool :=
  (Is err Canceled || bool_decide (ctx = Some CtxCanceled))%bool.

Definition NoteAttemptFailure (err : option error) : ST Collector unit :=
  match As_Upstream err with Some ue => NoteAttemptHTTP (HTTPStatus ue) | None => mret tt end.

Definition retried_code (err : option error) (httpStatus : Z) : Z :=
  match As_Upstream err with Some ue => HTTPStatus ue | None => if 0 <? httpStatus then httpStatus else 0 end.

Definition EndRetriedAttempt (ctx : option CtxError) (err : option error) (httpStatus : Z) (modelNotFound : bool) : ST Collector unit :=
  let code := retried_code err httpStatus in
  _ ← (if 0 <? code then NoteAttemptHTTP code else mret tt);
  EndOpenAttempt
    (if modelNotFound then AttemptModelNotFound
     else if canceled ctx err then AttemptCanceled
     else if (Is err DeadlineExceeded || (code =? 504))%bool then AttemptTimeout
     else AttemptUpstreamError) 0.

Definition EndStreamAttempt (ctx : option CtxError) (completed : bool) (err : option error) : ST Collector unit :=
  if (completed && negb (is_Some_b err))%bool then EndOpenAttempt AttemptOK 200
  else if canceled ctx err then EndOpenAttempt AttemptCanceled 200
  else EndOpenAttempt AttemptStreamFailed 200.

Definition EndAttemptOnError (ctx : option CtxError) (err : option error) : ST Collector unit :=
  _ ← NoteAttemptFailure err;
  EndOpenAttempt
    (if canceled ctx err then AttemptCanceled
     else if (Is err DeadlineExceeded
              || match As_Upstream err with Some ue => HTTPStatus ue =? 504 | None => false end)%bool then AttemptTimeout
     else AttemptUpstreamError) 0.

Definition AttemptStatusForHTTP (code : Z) : string :=
  if code <? 400 then AttemptOK else if code =? 504 then AttemptTimeout else AttemptUpstreamError.

(** ** Lemmas *)

(** Provider and model of a call, and with its status. *)
Definition named (a : AttemptRef) : string * string := (ar_Provider a, ar_Model a).
Definition tale (a : AttemptRef) : string * string * string := (named a, ar_Status a).

(** The calls so far, each ended with its status; or all but the last, which is
    open. *)
Definition closed_as (l : list (string * string * string)) (e : evidence) : Prop := ev_open e = None ∧ map tale (ev_attempts e) = l.
Definition opened_as (l : list (string * string * string)) (n : string * string) (e : evidence) : Prop := ∃ k a,
  ev_attempts e = k ++ [a] ∧ ev_open e = Some (length k) ∧ map tale k = l ∧ named a = n ∧ ar_Status a = "".

Lemma map_bounded {A B} (f : A → B) l : map f (boundedAttempts l) = boundedAttempts (map f l).
Proof.
  unfold boundedAttempts. rewrite length_map. destruct (_ <=? _)%nat; [done|]. rewrite map_app, <- firstn_map. f_equal.
  change (map f l) with (f <$> l). rewrite fmap_last. by destruct (list.last l).
Qed.

Lemma boundedAttempts_length {A} (l : list A) : (length (boundedAttempts l) <= maxAttempts)%nat.
Proof.
  unfold boundedAttempts. destruct (_ <=? _)%nat eqn:E; [by apply Nat.leb_le|]. rewrite length_app, length_take.
  destruct (list.last l); cbn [length]; unfold maxAttempts; lia.
Qed.

Lemma sinceMs_run e co : sinceMs e co = (Milliseconds (Sub (co_clock co (co_reads co)) (ev_start e)), (now co).2).
Proof. done. Qed.

(** Ending the open call closes it; without one there is nothing to end. *)
Lemma end_open_closed status http l e co : closed_as l e → end_open status http e co = (e, co).
Proof. intros [Ho _]. unfold end_open. by rewrite Ho. Qed.
Lemma end_open_opened status http l n e co : opened_as l n e →
  closed_as (l ++ [(n, status)]) (end_open status http e co).1 ∧ co_evidence (end_open status http e co).2 = co_evidence co.
Proof.
  intros (k & a & El & Eo & <- & <- & Ha). unfold end_open. rewrite Eo. unfold endLocked. rewrite El. rewrite list_lookup_middle by done.
  rewrite Ha, bool_decide_true by done. cbn [negb]. unfold mbind, st_mbind. rewrite sinceMs_run. cbn [fst snd mret st_mret ev_attempts ev_open ev_with].
  rewrite Eo, bool_decide_true by done. rewrite insert_app_r_alt, Nat.sub_diag by done. simpl. split; [split; [done|]|done]. simpl. by rewrite map_app.
Qed.

(** A step that neither begins a call nor ends one. *)
Definition tidy {X} (m : ST Collector X) : Prop := ∀ co e, co_evidence co = Some e → ∃ e', co_evidence (m co).2 = Some e'
  ∧ (∀ l, closed_as l e → closed_as l e') ∧ ∀ l n, opened_as l n e → opened_as l n e'.

Lemma tidy_ret {X} (x : X) : tidy (mret x).
Proof. intros co e He. by exists e. Qed.
Lemma tidy_bind {X Y} (m : ST Collector X) (f : X → ST Collector Y) : tidy m → (∀ x, tidy (f x)) → tidy (m ≫= f).
Proof.
  intros Hm Hf co e He. destruct (Hm co e He) as (e1 & H1 & C1 & O1). unfold mbind, st_mbind. destruct (m co) as [x co1].
  destruct (Hf x co1 e1 H1) as (e2 & H2 & C2 & O2). exists e2. split; [done|]. split; intros; [apply C2|apply O2]; auto.
Qed.
Lemma tidy_now : tidy now.
Proof. intros co e He. by exists e. Qed.

Lemma tidy_on_evidence f : (∀ e co, let e' := (f e co).1 in (∀ l, closed_as l e → closed_as l e') ∧ ∀ l n, opened_as l n e → opened_as l n e') →
  tidy (on_evidence f).
Proof. intros Hf co e He. unfold on_evidence. rewrite He. specialize (Hf e co). destruct (f e co) as [e' co']. by exists e'. Qed.

Lemma tidy_NoteAttemptHTTP http : tidy (NoteAttemptHTTP http).
Proof.
  unfold NoteAttemptHTTP. destruct (_ <=? _); [apply tidy_ret|]. apply tidy_on_evidence. intros e co. simpl. split.
  - intros l [Ho Hl]. by rewrite Ho.
  - intros l n (k & a & El & Eo & Hl & Hn & Ha). rewrite Eo, El. exists k, (note_http http a). simpl. by rewrite alter_app_r_alt, Nat.sub_diag by done.
Qed.
Lemma tidy_same f : (∀ e co, ev_attempts (f e co).1 = ev_attempts e ∧ ev_open (f e co).1 = ev_open e) → tidy (on_evidence f).
Proof. intros Hf. apply tidy_on_evidence. intros e co. destruct (Hf e co) as [E1 E2]. unfold closed_as, opened_as. cbv zeta. by rewrite E1, E2. Qed.
Lemma tidy_MarkFirstToken : tidy MarkFirstToken.
Proof. apply tidy_same. intros e co. by destruct (_ =? _). Qed.
Lemma tidy_SetGovernance ref : tidy (SetGovernance ref).
Proof. by apply tidy_same. Qed.

Create HintDb tidy discriminated.
#[export] Hint Resolve tidy_ret tidy_bind tidy_now tidy_NoteAttemptHTTP tidy_MarkFirstToken tidy_SetGovernance : tidy.

(** A step that ends the open call with a status. *)
Definition ends_with {X} (m : ST Collector X) (status : string) : Prop := ∀ co e l n, co_evidence co = Some e → opened_as l n e →
  ∃ e', co_evidence (m co).2 = Some e' ∧ closed_as (l ++ [(n, status)]) e'.

Lemma ends_EndOpen status http : ends_with (EndOpenAttempt status http) status.
Proof.
  intros co e l n He Ho. unfold EndOpenAttempt, on_evidence. rewrite He. destruct (end_open_opened status http l n e co Ho) as [Hc _].
  destruct (end_open _ _ e co) as [e' co']. by exists e'.
Qed.
Lemma ends_after {X Y} (m : ST Collector X) (f : X → ST Collector Y) status : tidy m → (∀ x, ends_with (f x) status) → ends_with (m ≫= f) status.
Proof.
  intros Hm Hf co e l n He Ho. destruct (Hm co e He) as (e1 & H1 & _ & O1). unfold mbind, st_mbind. destruct (m co) as [x co1].
  by apply (Hf x co1 e1); auto.
Qed.
(** From the outside: when no call is open, nothing changes. *)
Lemma EndOpen_closed status http co e l : co_evidence co = Some e → closed_as l e → co_evidence (EndOpenAttempt status http co).2 = Some e.
Proof. intros He Hc. unfold EndOpenAttempt, on_evidence. rewrite He. by rewrite (end_open_closed status http l e co Hc). Qed.

(** A call that timed out: on the gateway's side, or by the provider's answer. *)
Definition timed_out (err : option error) : bool :=
  (Is err DeadlineExceeded || match As_Upstream err with Some ue => HTTPStatus ue =? 504 | None => false end)%bool.
Definition failed_status (ctx : option CtxError) (err : option error) : string :=
  if canceled ctx err then AttemptCanceled else if timed_out err then AttemptTimeout else AttemptUpstreamError.

Lemma ends_EndOnError ctx err : ends_with (EndAttemptOnError ctx err) (failed_status ctx err).
Proof. apply ends_after; [unfold NoteAttemptFailure; case_match; auto with tidy|]. intros _. apply ends_EndOpen. Qed.
Lemma ends_EndRetried ctx err : ends_with (EndRetriedAttempt ctx err 0 false) (failed_status ctx err).
Proof.
  unfold EndRetriedAttempt. cbv zeta. apply ends_after; [destruct (_ <? _); auto with tidy|]. intros _. unfold failed_status, timed_out, retried_code.
  destruct (As_Upstream err); apply ends_EndOpen.
Qed.
(** A refused response that is retried, by its code. *)
Lemma ends_EndRefused ctx code : 0 < code →
  ends_with (EndRetriedAttempt ctx None code false)
    (if bool_decide (ctx = Some CtxCanceled) then AttemptCanceled else if code =? 504 then AttemptTimeout else AttemptUpstreamError).
Proof.
  intros Hc. unfold EndRetriedAttempt. cbv zeta. apply ends_after; [destruct (_ <? _); auto with tidy|]. intros _. unfold retried_code, canceled.
  simpl. replace (0 <? code) with true by lia. apply ends_EndOpen.
Qed.
Lemma ends_EndStream ctx completed err : ends_with (EndStreamAttempt ctx completed err)
  (if (completed && negb (is_Some_b err))%bool then AttemptOK else if canceled ctx err then AttemptCanceled else AttemptStreamFailed).
Proof. unfold EndStreamAttempt. destruct (_ && _)%bool; [apply ends_EndOpen|]. destruct (canceled _ _); apply ends_EndOpen. Qed.

(** A new call, when none is open. *)
Lemma BeginAttempt_spec provider model co e l : co_evidence co = Some e → closed_as l e → ∃ e',
  co_evidence (BeginAttempt provider model co).2 = Some e' ∧ opened_as l (provider, model) e'.
Proof.
  intros He [Ho Hl]. unfold BeginAttempt, on_evidence. rewrite He. unfold mbind, st_mbind. rewrite sinceMs_run. cbn [fst snd mret st_mret].
  eexists. split; [done|]. by eexists _, _.
Qed.

(** A terminal record lists the calls made so far with their statuses, the first
    seven and the last when there are more than eight. *)
Lemma Finish_spec ctx r co e l : co_evidence co = Some e → closed_as l e → terminalRecord r = true → rec_Attempts r = [] →
  wp (Finish ctx r) (λ r' co', ∃ e', co_evidence co' = Some e' ∧ closed_as l e' ∧ rec_Event r' = rec_Event r
    ∧ is_Some_b (rec_Outcome r') = is_Some_b (rec_Outcome r) ∧ map tale (rec_Attempts r') = boundedAttempts l) co.
Proof.
  intros He Hc Ht Hn. unfold Finish. rewrite wp_get, He, Ht. cbn [negb]. rewrite wp_bind.
  eapply wp_mono with (Q := λ _ co1, co_evidence co1 = Some e); [by destruct (rec_Latency r)|]. intros lat co1 H1.
  destruct (finalAttemptStatus ctx (rec_Outcome r)) as [status code] eqn:Ef. rewrite wp_bind.
  unfold wp. rewrite (end_open_closed status code l e co1 Hc). unfold mbind, st_mbind, mret, st_mret, put_evidence. cbn [fst snd]. exists e.
  split; [done|]. split; [done|]. split; [done|]. destruct Hc as [_ <-]. unfold stamp. cbn [rec_Attempts rec_Outcome].
  split; [destruct (1 <? _)%nat; by destruct (rec_Outcome r)|].
  destruct (ev_attempts e) as [|a k]; [simpl; by rewrite Hn|]. change (0 <? length (a :: k))%nat with true. cbv beta iota. by rewrite map_bounded.
Qed.
