(* ===== verification/Exchange.v ===== *)
(** * One provider exchange (internal/server/responsesapi/{attempt,observe,stream_failure}.go)

    An attempt calls its provider, plainly or as a stream, and answers the client
    or asks for the next target.  What the handler does to the outside is a trace
    ([Act]): headers and writes to the client, calls of providers, audit records,
    metrics.  What the outside answers is an environment, read at increasing
    instants: the context's error, the provider's responses, whether a write to
    the client succeeds.  Traces of OpenTelemetry spans are left out.

    The translation between wires (internal/responses) is the interface
    [ResponsesWire]. *)

From S2P Require Import Prelude GoTime GoFloat Json Usage Pricing Budget Limiter Denial Governor LocalMoney Governance Live Router Boundary Affinity Shared Settlement Evidence.

(** ** Requests, responses and events of providers (providers/provider.go) *)

Record ProxyRequest (P : Type) := mkProxy
  { px_Model : string; px_Upstream : string; px_Parsed : P; px_RawBody : string; px_Stream : bool;
    px_AnthropicVersion : option string; px_GuardrailID : string; px_GuardrailVersion : string }.
Arguments mkProxy {P} _ _ _ _ _ _ _ _.
Arguments px_Model {P} _. Arguments px_Upstream {P} _. Arguments px_Parsed {P} _. Arguments px_RawBody {P} _.
Arguments px_Stream {P} _. Arguments px_AnthropicVersion {P} _.

(** schema.ChatResponse and schema.ChatChunk: their usage and the rest ([Ch]). *)
Record ChatResponse (Ch : Type) := mkResponse { cr_Usage : option Usage.Usage; cr_Content : Ch }.
Arguments mkResponse {Ch} _ _. Arguments cr_Usage {Ch} _. Arguments cr_Content {Ch} _.

Record ChatChunk (Ch : Type) := mkChunk
  { ck_Type : string; ck_Message : option (ChatResponse Ch); ck_Usage : option Usage.Usage; ck_Content : Ch }.
Arguments mkChunk {Ch} _ _ _ _. Arguments ck_Type {Ch} _. Arguments ck_Message {Ch} _. Arguments ck_Usage {Ch} _. Arguments ck_Content {Ch} _.

Record ProxyResponse (Ch : Type) := mkProxyResponse
  { rs_StatusCode : Z; rs_RawBody : string; rs_Parsed : option (ChatResponse Ch) }.
Arguments mkProxyResponse {Ch} _ _ _. Arguments rs_StatusCode {Ch} _. Arguments rs_RawBody {Ch} _. Arguments rs_Parsed {Ch} _.

Record StreamEvent (Ch : Type) := mkEvent { se_Raw : string; se_Chunk : option (ChatChunk Ch) }.
Arguments mkEvent {Ch} _ _. Arguments se_Raw {Ch} _. Arguments se_Chunk {Ch} _.

(** An event of the client's wire: its type and data. *)
Record WireEvent := mkWireEvent { we_Type : string; we_Data : string }.

(** What internal/responses promises: a canonical request for Anthropic, a
    response for the client ([None] is an error), and a renderer of streams
    whose [Finish] says whether its error was a truncation. *)
Class ResponsesWire (P Ch R : Type) := {
  anthropicRequest : P → option string;
  CanonicalToResponseForRequest : ChatResponse Ch → P → option string;
  NewStreamState : string → P → R;
  Convert : ChatChunk Ch → ST R (option (list WireEvent));
  RendererFinish : R → result bool unit }.

(** ** What happens outside *)

Inductive Payload :=
| RawBytes (s : string)
| ErrorBody (kind message code : string)
| Wire (e : WireEvent)
| StreamInterrupted (code : string)
| StreamRecovery (code : string).

Inductive Metric :=
| ObserveRequest (ingress model provider team : string) (status : Z) (ttft : float64)
| ObserveTokenUsage (model provider team : string) (input output read write5m write1h : Z)
| ObserveFallback (model from to reason : string)
| ObserveModelSubstitution (team from to : string)
| ObserveRoutingDecision (team mode reason : string).

Inductive Act :=
| SetHeader (k v : string)
| DelHeader (k : string)
| WriteHeader (status : Z)
| Write (p : Payload)
| Flush
| Dispatch (streamed : bool) (target : ChainTarget) (body : string) (at_ : nat)
| Appended (r : Record_)
| Observed (m : Metric)
| UsageRecorded (team subject model : string) (u : Pricing.Usage) (amount : Z)
| ContentExported (id : string) (request : string) (response : option string).

(** The readings of the environment at an instant. *)
Record Env (P Ch : Type) := mkEnv
  { en_ctx : nat → option CtxError;
    en_write : nat → bool;
    en_ulid : nat → string;
    en_capture : nat → string;
    en_complete : nat → ChainTarget → ProxyRequest P → option (ProxyResponse Ch) * option error;
    en_stream : nat → ChainTarget → ProxyRequest P → option (list (result error (option (StreamEvent Ch)))) * option error;
    en_flusher : bool }.
Arguments mkEnv {P Ch} _ _ _ _ _ _ _.
Arguments en_ctx {P Ch} _. Arguments en_write {P Ch} _. Arguments en_ulid {P Ch} _. Arguments en_capture {P Ch} _.
Arguments en_complete {P Ch} _. Arguments en_stream {P Ch} _. Arguments en_flusher {P Ch} _.

(** What is installed of the handler. *)
Record Handler := mkHandler { h_gov : option Governor; h_aud : bool; h_bodies : bool; h_usage : bool; h_content : bool }.

(** What the request's context carries besides its collector. *)
Record Ctx (D : Type) := mkCtx
  { cx_routing : option RoutingRef; cx_fallback : option RoutingRef; cx_substituted : string;
    cx_bundle : option (string * string); cx_budget : option nat; cx_affinity : option (AffinityToken D * ChainTarget);
    cx_trace : string }.
Arguments mkCtx {D} _ _ _ _ _ _ _.
Arguments cx_routing {D} _. Arguments cx_fallback {D} _. Arguments cx_substituted {D} _. Arguments cx_bundle {D} _.
Arguments cx_budget {D} _. Arguments cx_affinity {D} _. Arguments cx_trace {D} _.

Record attempt (D P : Type) := mkAttemptOf
  { ra_ctx : Ctx D; ra_principal : Shared.Principal; ra_target : ChainTarget; ra_proxy : ProxyRequest P;
    ra_table : option Pricing.Table; ra_started : Time; ra_admission : option nat; ra_inputBody : option string }.
Arguments mkAttemptOf {D P} _ _ _ _ _ _ _ _.
Arguments ra_ctx {D P} _. Arguments ra_principal {D P} _. Arguments ra_target {D P} _. Arguments ra_proxy {D P} _.
Arguments ra_table {D P} _. Arguments ra_started {D P} _. Arguments ra_admission {D P} _. Arguments ra_inputBody {D P} _.

(** ** Failure codes *)

Definition errorStatus (err : option error) : Z :=
  match As_Upstream err with Some ue => HTTPStatus ue | None => 502 end.

Definition retryStatus (status : Z) : bool := ((status =? 429) || (500 <=? status))%bool.

Definition known_codes : list string := ["context_length_exceeded"; "invalid_encrypted_content"].

(** [envelope] is [json.Unmarshal] of an error envelope, to its code. *)
Definition ResponseErrorCode (envelope : string → option string) (body : string) : string :=
  if 65536 <? Z.of_nat (String.length body) then ""
  else match envelope body with
  | Some code => if contains code known_codes then code else ""
  | None => ""
  end.

Definition upstreamCode (envelope : string → option string) (err : option error) : string :=
  match As_Upstream err with Some ue => ResponseErrorCode envelope (ue_Body ue) | None => "" end.

Definition cause_code (cause : option error) : string :=
  if Is cause Canceled then "request_canceled"
  else if Is cause DeadlineExceeded then "upstream_timeout"
  else if Is cause errStreamIncomplete then "stream_incomplete"
  else if Is cause errResponseIncompatible then "response_incompatible"
  else if Is cause errUsageMissing then "usage_missing"
  else if Is cause errClientWriteFailed then "client_write_failed"
  else "upstream_error".

Definition streamFailureCode (envelope : string → option string) (cause : option error) : string :=
  let code := upstreamCode envelope cause in
  if bool_decide (code = "") then cause_code cause else code.

Definition governanceErrorType (status : Z) : string :=
  if status =? 429 then "rate_limit_exceeded" else "insufficient_quota".

Definition ok_status (status : Z) : bool := Z.quot status 100 =? 2.

(** ** The state *)

Section exchange.
Context {L F B A S D P Ch R : Type} `{!LimiterStore L F} `{!BudgetStore B} `{!BudgetAuthority A} `{!SharedAuthority S} `{!EqDecision D} `{!Countable D} `{!ResponsesWire P Ch R}.

Record Server := mkServer
  { sv_money : Backends L F B A S; sv_router : FullRouter (D := D); sv_collector : Collector; sv_tick : nat; sv_trace : list Act }.

Definition on_money {X} (m : ST (Backends L F B A S) X) : ST Server X := λ sv,
  let '(x, s) := m (sv_money sv) in (x, mkServer s (sv_router sv) (sv_collector sv) (sv_tick sv) (sv_trace sv)).
Definition on_full {X} (m : ST (FullRouter (D := D)) X) : ST Server X := λ sv,
  let '(x, s) := m (sv_router sv) in (x, mkServer (sv_money sv) s (sv_collector sv) (sv_tick sv) (sv_trace sv)).
Definition on_collector {X} (m : ST Collector X) : ST Server X := λ sv,
  let '(x, s) := m (sv_collector sv) in (x, mkServer (sv_money sv) (sv_router sv) s (sv_tick sv) (sv_trace sv)).
Definition say (a : Act) : ST Server unit := λ sv,
  (tt, mkServer (sv_money sv) (sv_router sv) (sv_collector sv) (sv_tick sv) (sv_trace sv ++ [a])).
Definition tick : ST Server nat := λ sv,
  (sv_tick sv, mkServer (sv_money sv) (sv_router sv) (sv_collector sv) (Datatypes.S (sv_tick sv)) (sv_trace sv)).

Context (envelope : string → option string) (identity : Shared.Principal → option string).
Context (h : Handler) (E : Env P Ch).
Abbreviation Attempt := (attempt D P).

Definition ctx_Err : ST Server (option CtxError) := n ← tick; mret (en_ctx E n).
Definition ctx_alive : ST Server bool := c ← ctx_Err; mret (negb (is_Some_b c)).
Definition ulid_New : ST Server string := n ← tick; mret (en_ulid E n).

(** Whether the write succeeded. *)
Definition write (p : Payload) : ST Server bool := _ ← say (Write p); n ← tick; mret (en_write E n).

Definition writeError (status : Z) (kind message code : string) : ST Server unit :=
  _ ← say (SetHeader "Content-Type" "application/json");
  _ ← say (WriteHeader status);
  _ ← write (ErrorBody kind message code);
  mret tt.

Definition writeCodedError (status : Z) (message code : string) : ST Server unit :=
  writeError status (if (negb (bool_decide (code = "")) && contains code known_codes)%bool then "invalid_request_error" else "upstream_error") message code.

(** ** Evidence and settlement of an attempt (observe.go) *)

Definition subject (p : Shared.Principal) : Governor.Subject := attempt_subject p.
Definition keyPolicy (p : Shared.Principal) : KeyPolicy :=
  {| kp_RatePerMin := pr_RPM p; kp_TokensPerMinute := pr_TPM p; kp_BudgetMicrosPerMonth := pr_BudgetUSDMicros p;
     kp_BudgetMicrosPerDay := pr_BudgetUSDMicrosPerDay p |}.

(** The identity's digests, when the credential carries a valid one. *)
Definition AuditPrincipal (p : Shared.Principal) : PrincipalRef :=
  {| pf_KeyID := Shared.pr_KeyID p; pf_Team := Shared.pr_Team p; pf_Identity := identity p; pf_Account := AccountSubject p |}.
Definition TelemetrySubject (p : Shared.Principal) : string := default (AccountSubject p) (identity p).

Definition masked_routing (r : option RoutingRef) : bool := match r with Some r => ro_Masked r | None => false end.

Definition requestRef (a : Attempt) : RequestRef :=
  let r := RoutingFrom (cx_routing (ra_ctx a)) (cx_fallback (ra_ctx a)) in
  mkRequestRef "responses" (ct_Model (ra_target a)) (ct_Upstream (ra_target a)) (ct_ProviderName (ra_target a)) (px_Stream (ra_proxy a))
    (masked_routing r) (cx_substituted (ra_ctx a)) r.

Definition append (r : Record_) : ST Server unit := say (Appended r).

(** A record, its evidence stamped. *)
Definition append_finished (r : Record_) : ST Server unit :=
  c ← ctx_Err; r ← on_collector (Finish c r); append r.

Definition denied (ctx : Ctx D) (p : Shared.Principal) (model : string) (status : Z) (reason : string) : ST Server unit :=
  _ ← say (Observed (ObserveRequest "responses" "_rejected" "" (Shared.pr_Team p) status (of_int 0)));
  if h_aud h then
    id ← ulid_New; ts ← on_collector now;
    append_finished
      (mkRecord request_started id ts (AuditPrincipal p)
         (mkRequestRef "responses" model "" "" false false "" (RoutingFrom (cx_routing ctx) (cx_fallback ctx)))
         (Some (mkOutcome status false [] false (Some reason))) None None None None None [] None None None)
  else mret tt.

Definition started (a : Attempt) : ST Server unit :=
  if h_aud h then
    id ← ulid_New; ts ← on_collector now;
    append (mkRecord request_started id ts (AuditPrincipal (ra_principal a)) (requestRef a) None None None None None None [] None None None)
  else mret tt.

(** The observed usage, counted, charged and recorded. *)
Definition finish_usage (a : Attempt) (u : Usage.Usage) : ST Server (option UsageRef * option CostRef) :=
  let pu := FromUsage (Some u) in
  let t := ra_target a in
  let p := ra_principal a in
  let usage := match TotalTokens pu with Ok _ => UsageFrom (Some u) | Err _ => None end in
  _ ← match TotalTokens pu with
      | Ok _ => say (Observed (ObserveTokenUsage (ct_Model t) (ct_ProviderName t) (Shared.pr_Team p)
                                 (Input pu) (Output pu) (CacheRead pu) (CacheWrite5m pu) (CacheWrite1h pu)))
      | Err _ => mret tt
      end;
  match h_gov h with
  | None => mret (usage, None)
  | Some g =>
      '(amount, missing) ← on_money (on_gov (Settle g (subject p) (keyPolicy p) (ct_ProviderName t) (ct_Upstream t) pu (ra_table a) (ra_admission a)));
      _ ← (if h_usage h then say (UsageRecorded (Shared.pr_Team p) (TelemetrySubject p) (ct_Upstream t) pu amount) else mret tt);
      mret (usage, Some {| cr_AmountUSDMicros := amount; cr_PricingMissing := missing;
                           cr_PricingVersion := match ra_table a with Some t => Pricing.Version t | None => "" end;
                           cr_ContextTier := ContextTier (ra_table a) (ct_ProviderName t) (ct_Upstream t) pu |})
  end.

Definition optional (s : string) : option string := if bool_decide (s = "") then None else Some s.

(** What is kept of a successful exchange: the reference of its captured body. *)
Definition capture (a : Attempt) (id : string) (status : Z) (body : option string) : ST Server string :=
  if ok_status status then
    let request := default (px_RawBody (ra_proxy a)) (ra_inputBody a) in
    r ← (if h_bodies h then n ← tick; mret (en_capture E n) else mret "");
    _ ← (if h_content h then say (ContentExported id request body) else mret tt);
    mret r
  else mret "".

Definition completed_record (a : Attempt) (id : string) (ts : Time) (status : Z) (partial : bool) (usage : option UsageRef)
    (cost : option CostRef) (ttft : Duration) (totalMs : Z) (errorCode bodyRef : string) : Record_ :=
  mkRecord request_completed id ts (AuditPrincipal (ra_principal a)) (requestRef a)
    (Some (mkOutcome status false [] partial (optional errorCode))) usage cost
    (Some (mkLatency (to_int (fmul (Seconds ttft) (of_int 1000))) totalMs)) (optional (cx_trace (ra_ctx a))) (optional bodyRef) [] None None None.

Definition finish_body (a : Attempt) (errorCode : string) (status : Z) (u : option Usage.Usage) (body : option string) (partial : bool)
    (ttft : Duration) : ST Server unit :=
  '(usage, cost) ← match u with Some u => finish_usage a u | None => mret (None, None) end;
  _ ← on_money (SettleBudget (cx_budget (ra_ctx a)) cost u (ok_status status && negb partial)%bool);
  _ ← say (Observed (ObserveRequest "responses" (ct_Model (ra_target a)) (ct_ProviderName (ra_target a)) (Shared.pr_Team (ra_principal a)) status (Seconds ttft)));
  id ← ulid_New;
  bodyRef ← capture a id status body;
  if h_aud h then
    ts ← on_collector now; t ← on_collector now;
    append_finished (completed_record a id ts status partial usage cost ttft (Milliseconds (Sub t (ra_started a))) errorCode bodyRef)
  else mret tt.

(** The admission is closed on return. *)
Definition finish (a : Attempt) (errorCode : string) (status : Z) (u : option Usage.Usage) (body : option string) (partial : bool)
    (ttft : Duration) : ST Server unit :=
  _ ← finish_body a errorCode status u body partial ttft;
  on_money (on_gov (Close (ra_admission a))).

(** [requestpolicy.RecordSuccess]. *)
Definition RecordSuccess (ctx : Ctx D) : ST Server unit :=
  alive ← ctx_alive;
  if (alive : bool) then
    match cx_affinity ctx with
    | Some (tk, ct) => on_full (st_modify (RecordAffinitySuccess (Some tk) ct))
    | None => mret tt
    end
  else mret tt.

Definition record_result (t : ChainTarget) (ok : bool) : ST Server unit := on_full (on_router (RecordResult (ct_ProviderName t) (ct_Identity t) ok)).

(** ** Ending a failed exchange (attempt.go) *)

Definition endFailedAttempt (err : option error) (httpStatus : Z) (retried : bool) : ST Server unit :=
  c ← ctx_Err;
  on_collector (if retried then EndRetriedAttempt c err httpStatus false else EndAttemptOnError c err).

Definition EndOpen (status : string) (httpStatus : Z) : ST Server unit := on_collector (EndOpenAttempt status httpStatus).

(** The last target is never retried, nor a request whose context has ended. *)
Definition may_retry (last : bool) (status : Z) : ST Server bool :=
  if (negb last && retryStatus status)%bool then ctx_alive else mret false.

Definition failed_call (a : Attempt) (last : bool) (err : option error) (code message : string) : ST Server bool :=
  let status := errorStatus err in
  retry ← may_retry last status;
  _ ← endFailedAttempt err 0 retry;
  _ ← finish a code status None None false 0;
  if (retry : bool) then mret true else _ ← writeCodedError status message code; mret false.

(** ** A plain call *)

Definition refused_response (a : Attempt) (last : bool) (resp : ProxyResponse Ch) : ST Server bool :=
  let status := rs_StatusCode resp in
  let code := ResponseErrorCode envelope (rs_RawBody resp) in
  let retry := (negb last && retryStatus status)%bool in
  _ ← (if retry then c ← ctx_Err; on_collector (EndRetriedAttempt c None status false)
       else EndOpen (AttemptStatusForHTTP status) status);
  _ ← finish a code status (rs_Parsed resp ≫= cr_Usage) None false 0;
  if retry then mret true else _ ← writeCodedError status "upstream request failed" code; mret false.

(** A 2xx response that cannot be served is the gateway's 502. *)
Definition unusable (a : Attempt) (resp : ProxyResponse Ch) (u : option Usage.Usage) (message : string) : ST Server bool :=
  _ ← EndOpen AttemptUpstreamError (rs_StatusCode resp);
  _ ← finish a "" 502 u None false 0;
  _ ← writeError 502 "upstream_error" message "";
  mret false.

Definition native (t : ChainTarget) : bool := bool_decide (pv_Name (ct_Provider t) = "openai_responses").

Definition accepted_response (a : Attempt) (resp : ProxyResponse Ch) (u : Usage.Usage) (body : string) : ST Server bool :=
  _ ← EndOpen (AttemptStatusForHTTP (rs_StatusCode resp)) (rs_StatusCode resp);
  _ ← say (SetHeader "Content-Type" "application/json");
  _ ← say (WriteHeader (rs_StatusCode resp));
  ok ← write (RawBytes body);
  _ ← record_result (ra_target a) true;
  _ ← (if (ok : bool) then RecordSuccess (ra_ctx a) else mret tt);
  _ ← finish a "" (rs_StatusCode resp) (Some u) (Some body) (negb ok) 0;
  mret false.

Definition complete_response (a : Attempt) (last : bool) (resp : ProxyResponse Ch) : ST Server bool :=
  if negb (ok_status (rs_StatusCode resp)) then refused_response a last resp
  else match rs_Parsed resp with
  | None => unusable a resp None "upstream response omitted usage"
  | Some parsed =>
      match cr_Usage parsed with
      | None => unusable a resp None "upstream response omitted usage"
      | Some u =>
          match (if native (ra_target a) then Some (rs_RawBody resp) else CanonicalToResponseForRequest parsed (px_Parsed (ra_proxy a))) with
          | Some body =>
              if bool_decide (body = "") then unusable a resp (Some u) "upstream response is incompatible"
              else accepted_response a resp u body
          | None => unusable a resp (Some u) "upstream response is incompatible"
          end
      end
  end.

Definition call (streamed : bool) (a : Attempt) : ST Server nat :=
  _ ← on_collector (BeginAttempt (ct_ProviderName (ra_target a)) (ct_Model (ra_target a)));
  n ← tick;
  _ ← say (Dispatch streamed (ra_target a) (px_RawBody (ra_proxy a)) n);
  mret n.

(** Whether the handler goes on to the next target. *)
Definition complete (a : Attempt) (last : bool) : ST Server bool :=
  n ← call false a;
  match en_complete E n (ra_target a) (ra_proxy a) with
  | (Some resp, None) => complete_response a last resp
  | (_, err) => failed_call a last err (upstreamCode envelope err) "upstream request failed"
  end.

(** ** A stream *)

Record Streaming := mkStreaming
  { st_usage : option Usage.Usage; st_ttft : Duration; st_conversion : option error; st_committed : bool;
    st_terminal : bool; st_failed : bool; st_renderer : R }.

Definition with_conversion (e : error) (s : Streaming) : Streaming :=
  mkStreaming (st_usage s) (st_ttft s) (Some e) (st_committed s) (st_terminal s) (st_failed s) (st_renderer s).
Definition with_renderer (r : R) (s : Streaming) : Streaming :=
  mkStreaming (st_usage s) (st_ttft s) (st_conversion s) (st_committed s) (st_terminal s) (st_failed s) r.

(** The header and the status, before the first bytes. *)
Definition commit (a : Attempt) (s : Streaming) : ST Server Streaming :=
  if st_committed s then mret s
  else
    _ ← say (SetHeader "Content-Type" "text/event-stream");
    _ ← say (SetHeader "Cache-Control" "no-cache");
    _ ← say (WriteHeader 200);
    t ← on_collector now;
    _ ← on_collector MarkFirstToken;
    mret (mkStreaming (st_usage s) (Sub t (ra_started a)) (st_conversion s) true (st_terminal s) (st_failed s) (st_renderer s)).

(** The end of a stream whose client has seen its header. *)
Definition fail_committed (a : Attempt) (s : Streaming) (cause : error) (code : string) (recovery : bool) : ST Server bool :=
  c ← ctx_Err;
  _ ← on_collector (EndStreamAttempt c false (Some cause));
  code ← (if Is (Some cause) errClientWriteFailed then mret code
          else
            ok ← write (if recovery then StreamRecovery code else StreamInterrupted code);
            if (ok : bool) then _ ← say Flush; mret code
            else mret (streamFailureCode envelope (Some (sentinel errClientWriteFailed))));
  _ ← finish a code 200 (st_usage s) None true (st_ttft s);
  mret false.

Definition fail_uncommitted (a : Attempt) (last : bool) (s : Streaming) (cause : error) (code : string) : ST Server bool :=
  let status := errorStatus (Some cause) in
  retry ← (if is_Some_b (st_conversion s) then mret false else may_retry last status);
  _ ← endFailedAttempt (Some cause) 0 retry;
  _ ← finish a code status (st_usage s) None false (st_ttft s);
  if (retry : bool) then mret true else _ ← writeCodedError status "upstream stream failed" code; mret false.

Definition fail (a : Attempt) (last : bool) (s : Streaming) (cause : error) : ST Server bool :=
  let code := streamFailureCode envelope (Some cause) in
  let recovery := contains code known_codes in
  s ← (if (negb (st_committed s) && native (ra_target a) && recovery && Is (Some cause) ErrFailed)%bool then commit a s else mret s);
  if st_committed s then fail_committed a s cause code recovery else fail_uncommitted a last s cause code.

(** [return fail(cause)]. *)
Definition failing {X} (a : Attempt) (last : bool) (s : Streaming) (cause : error) : STE Server bool X :=
  r ← ste_lift (fail a last s cause); early r.

Definition usage_of_chunk (c : ChatChunk Ch) (u : option Usage.Usage) : option Usage.Usage :=
  let u := match ck_Message c with Some m => MergeUsage u (cr_Usage m) | None => u end in
  MergeUsage u (ck_Usage c).

Definition observe_chunk (c : option (ChatChunk Ch)) (s : Streaming) : Streaming :=
  match c with
  | None => s
  | Some c =>
      mkStreaming (usage_of_chunk c (st_usage s)) (st_ttft s) (st_conversion s) (st_committed s)
        (st_terminal s || bool_decide (ck_Type c = "message_stop"))%bool (st_failed s || bool_decide (ck_Type c = "error"))%bool (st_renderer s)
  end.

(** Write bytes; a failed write ends the stream. *)
Definition emit_bytes (a : Attempt) (last : bool) (s : Streaming) (p : Payload) : STE Server bool Streaming :=
  s ← ste_lift (commit a s);
  ok ← ste_lift (write p);
  if (ok : bool) then mret s else failing a last s (sentinel errClientWriteFailed).

Fixpoint emit_events (a : Attempt) (last : bool) (s : Streaming) (events : list WireEvent) : STE Server bool Streaming :=
  match events with
  | [] => mret s
  | e :: events => s ← emit_bytes a last s (Wire e); emit_events a last s events
  end.

Definition flush : STE Server bool unit := ste_lift (say Flush).

(** One event, not an error, of the provider's sequence. *)
Definition stream_event (a : Attempt) (last : bool) (s : Streaming) (e : StreamEvent Ch) : STE Server bool Streaming :=
  let s := observe_chunk (se_Chunk e) s in
  if is_Some_b (st_conversion s) then mret s
  else if native (ra_target a) then
    if bool_decide (se_Raw e = "") then mret s
    else s ← emit_bytes a last s (RawBytes (se_Raw e)); _ ← flush; mret s
  else match se_Chunk e with
  | None => mret s
  | Some c =>
      let '(converted, r) := Convert c (st_renderer s) in
      let s := with_renderer r s in
      match converted with
      | None => mret (with_conversion (sentinel (if (st_terminal s && negb (is_Some_b (st_usage s)))%bool then errUsageMissing else errResponseIncompatible)) s)
      | Some events =>
          s ← emit_events a last s events;
          _ ← (if (0 <? length events)%nat then flush else mret tt);
          mret s
      end
  end.

(** A truncated sequence is an incomplete stream. *)
Definition read_error (e : error) : error :=
  if Is (Some e) ErrTruncated then Join (sentinel errStreamIncomplete) e else e.

Fixpoint stream_loop (a : Attempt) (last : bool) (s : Streaming) (seq : list (result error (option (StreamEvent Ch)))) : STE Server bool Streaming :=
  match seq with
  | [] => mret s
  | Err e :: _ => failing a last s (read_error e)
  | Ok None :: seq => stream_loop a last s seq
  | Ok (Some e) :: seq => s ← stream_event a last s e; stream_loop a last s seq
  end.

Definition stream_end (a : Attempt) (last : bool) (s : Streaming) : STE Server bool bool :=
  match st_conversion s with
  | Some e => failing a last s e
  | None =>
      let finished := if native (ra_target a) then Ok tt else RendererFinish (st_renderer s) in
      match finished with
      | Err truncated => failing a last s (sentinel (if truncated then errStreamIncomplete else errResponseIncompatible))
      | Ok _ =>
          if (negb (st_committed s) || negb (st_terminal s) || st_failed s)%bool then failing a last s (sentinel errStreamIncomplete)
          else if negb (is_Some_b (st_usage s)) then failing a last s (sentinel errUsageMissing)
          else
            _ ← ste_lift (record_result (ra_target a) true);
            _ ← ste_lift (RecordSuccess (ra_ctx a));
            c ← ste_lift ctx_Err;
            _ ← ste_lift (on_collector (EndStreamAttempt c true None));
            _ ← ste_lift (finish a "" 200 (st_usage s) None false (st_ttft s));
            mret false
      end
  end.

Definition returned {X} (r : result X X) : X := match r with Ok x => x | Err x => x end.

Definition stream (a : Attempt) (last : bool) : ST Server bool :=
  if negb (en_flusher E) then
    _ ← writeError 500 "api_error" "streaming is unavailable" "";
    _ ← finish a "" 500 None None false 0;
    mret false
  else
    n ← call true a;
    match en_stream E n (ra_target a) (ra_proxy a) with
    | (Some seq, None) =>
        let s := mkStreaming None 0 None false false false (NewStreamState (ct_Model (ra_target a)) (px_Parsed (ra_proxy a))) in
        r ← (s ← stream_loop a last s seq; stream_end a last s : STE Server bool bool);
        mret (returned r)
    | (_, err) => failed_call a last err (streamFailureCode envelope err) "upstream stream failed"
    end.
End exchange.
Arguments Server _ _ _ _ _ _ {_ _}.
Arguments Streaming _ : clear implicits.
