(* ===== verification/Responses.v ===== *)
(** * Serving a request (internal/server/responsesapi/handler.go)

    [ServeHTTP]: identity, body, model resolution and access, the route, masking,
    the context window, the price guard, admission; then the chain, one attempt
    after the other, each with money reserved for it before its provider is
    called.  A function's deferred calls run last in, first out: they are the
    statements after what follows them.

    Also internal/server/requestpolicy/evidence.go: what a decision shows. *)

From S2P Require Import Prelude GoTime GoFloat Json Usage Pricing Budget Limiter Denial Governor LocalMoney Governance Live Router Boundary Affinity RequestRouting Shared Settlement Evidence Exchange.

(** ** What a decision shows (evidence.go) *)

Definition Active (d : RoutingDecision) : bool :=
  ((0 <? length (rd_Policies d))%nat || rd_Masked d
   || contains (rd_Reason d) ["mask_failed"; "policy_lookup_failed"; "budget_target"; "budget_target_unavailable"])%bool.

Definition mode_string (m : ClassifierMode) : string := match m with ClassifierShadow => "Shadow" | ClassifierEnforce => "Enforce" end.
Definition outcome_string (o : Outcome) : string :=
  match o with OutcomeFlagged => "flagged" | OutcomeClear => "clear" | OutcomeAbstain => "abstain" | OutcomeError => "error" | OutcomeSkipped => "skipped" end.

Definition policy_evidence (p : Affinity.RoutingPolicyRef) : Evidence.RoutingPolicyRef :=
  {| ro_Name := rp_Name p; ro_Generation := rp_Generation p; ro_Rule := rp_Rule p |}.
Definition recommendation_evidence (r : RequestRouting.RoutingRecommendation) : Evidence.RoutingRecommendation :=
  {| rr_Policy := policy_evidence (rc_Policy r); rr_Model := rc_Model r; rr_Reason := rc_Reason r |}.
Definition classifier_evidence (c : RequestRouting.ClassifierRef) : Evidence.ClassifierRef :=
  {| Evidence.cf_Name := RequestRouting.cf_Name c; Evidence.cf_Revision := RequestRouting.cf_Revision c;
     Evidence.cf_Boundary := RequestRouting.cf_Boundary c; Evidence.cf_Mode := mode_string (RequestRouting.cf_Mode c);
     Evidence.cf_Result := outcome_string (RequestRouting.cf_Result c); Evidence.cf_WouldRestrict := RequestRouting.cf_WouldRestrict c |}.

Definition routing_ref (d : RoutingDecision) (chain : list ChainTarget) : RoutingRef :=
  mkRouting (rd_RequestedModel d) (rd_SelectedModel d) (rd_ProposedModel d) (rd_Mode d) (rd_Reason d) (rd_Inspection d) (rd_Privacy d)
    (rd_Categories d) (map policy_evidence (rd_Policies d)) (map recommendation_evidence (rd_Recommendations d))
    (match chain with ct :: _ => ct_ProviderName ct | [] => "" end)
    (match chain with ct :: _ => if bool_decide (ct_DataBoundary ct = "") then "unknown" else ct_DataBoundary ct | [] => "" end)
    "" "" "" (rd_Masked d) (map classifier_evidence (rd_Classifiers d)) "" "".

Definition shows_model (d : RoutingDecision) : bool :=
  (negb (bool_decide (rd_SelectedModel d = ""))
   && (bool_decide (rd_Privacy d = "internal_only") || contains (rd_Reason d) ["context_selected"; "context_affinity"; "budget_target"]))%bool.

(** The window of the generation that routed the request; 0 if it declares none. *)
Definition ContextWindow (st : option Live.State) (model : string) : Z :=
  match st with Some st => match Route st model with Some m => mc_ContextWindow m | None => 0 end | None => 0 end.

(** ** The request *)

(** The team of the request: its regions and its guardrail. *)
Record Team := { tm_AllowedRegions : list string; tm_GuardrailID : string; tm_GuardrailVersion : string }.

(** Reading the body fails on its size or otherwise. *)
Inductive Body := BodyTooLarge | BodyUnreadable | BodyRead (raw : string).

(** One principal, as the money and as the router read it. *)
Record HTTPRequest := mkHTTP
  { rq_principal : option (Shared.Principal * Router.Principal); rq_body : Body; rq_team : Team; rq_session : string;
    rq_version : option string; rq_trace : string }.

Section handler.
Context {L F B A S D P Ch R : Type} `{!LimiterStore L F} `{!BudgetStore B} `{!BudgetAuthority A} `{!SharedAuthority S} `{!EqDecision D} `{!Countable D} `{!ResponsesWire P Ch R}.
Context (range_nat : gmap string nat → list (string * nat)) (decode : string → option json).
Context (envelope : string → option string) (identity : Shared.Principal → option string).
Context (h : Handler) (E : Env P Ch) (gates : Gates) (range_str : gmap string string → list (string * string)).
Abbreviation Sv := (Server L F B A S D).

(** A step that may have answered the client already. *)
Abbreviation Step := (STE Sv unit).

Definition do_ {X} (m : ST Sv X) : Step X := ste_lift m.

(** ** The chain *)

(** What every attempt of the request shares. *)
Record Routed := mkRouted
  { ro_ctx : Ctx D; ro_p : Shared.Principal; ro_rp : Router.Principal; ro_requested : string; ro_model : string;
    ro_state : option Live.State; ro_parsed : P; ro_raw : string; ro_stream : bool; ro_team : Team; ro_estimate : Z;
    ro_started : Time; ro_version : option string; ro_token : option (AffinityToken D) }.

Definition deny_with (rq : Routed) (status : Z) (reason kind message : string) : ST Sv unit :=
  _ ← denied identity h E (ro_ctx rq) (ro_p rq) (ro_model rq) status reason;
  writeError E status kind message "".

Definition deny_code (d : GovDecision) : string := match d_Code d with Some c => DenyReason_string c | None => "" end.

Definition deny_decision (rq : Routed) (d : GovDecision) (kind : string) : ST Sv unit :=
  _ ← on_collector (SetGovernance (d_Governance d));
  deny_with rq (d_Status d) (deny_code d) kind (d_Reason d).

(** Admission of one attempt; the refusal has been answered. *)
Definition admission_of (rq : Routed) (g : Governor) : Step (option nat) :=
  d ← do_ (on_money (on_gov (PreCheck g (subject (ro_p rq)) (keyPolicy (ro_p rq)) (ro_estimate rq))));
  if d_Allowed d then mret (d_Admission d)
  else _ ← do_ (deny_decision rq d (governanceErrorType (d_Status d))); early tt.

Definition proxy_request (rq : Routed) (ct : ChainTarget) (raw : string) (version : option string) : ProxyRequest P :=
  mkProxy (ct_Model ct) (ct_Upstream ct) (ro_parsed rq) raw (ro_stream rq) version (tm_GuardrailID (ro_team rq)) (tm_GuardrailVersion (ro_team rq)).

(** The request in the target's dialect. *)
Definition proxy_of (rq : Routed) (ct : ChainTarget) : option (ProxyRequest P) :=
  if bool_decide (pv_Name (ct_Provider ct) = "anthropic") then
    match anthropicRequest (ro_parsed rq) with
    | Some raw => Some (proxy_request rq ct raw (Some (match ro_version rq with Some v => if bool_decide (v = "") then "2023-06-01" else v | None => "2023-06-01" end)))
    | None => None
    end
  else Some (proxy_request rq ct (ro_raw rq) (ro_version rq)).

Definition fallback_headers (rq : Routed) (ct : ChainTarget) : ST Sv unit :=
  _ ← say (SetHeader "x-inferplane-fallback" (ct_ProviderName ct));
  if bool_decide (ct_Model ct = ro_model rq) then mret tt else say (SetHeader "x-inferplane-model-fallback" (ct_Model ct)).

Definition deny_budget (rq : Routed) (e : AdmissionError) : ST Sv unit :=
  _ ← match BudgetErrorHeaders e with Some n => say (SetHeader "Retry-After" (dec n)) | None => mret tt end;
  _ ← on_collector (SetGovernance (DenialGovernance e));
  deny_with rq (BudgetStatus e) (DenyReason_string DenyBudgetAuthorityUnavailable) "insufficient_quota" "budget authority unavailable".

(** The attempt's context: its money, its actual target, its session. *)
Definition attempt_ctx (rq : Routed) (ct : ChainTarget) (budget : option nat) : Ctx D :=
  let c := ro_ctx rq in
  mkCtx (WithRoutingAttempt (ct_Model ct) (ct_ProviderName ct) (ct_DataBoundary ct) (cx_routing c) (cx_fallback c))
    (cx_fallback c) (cx_substituted c) (cx_bundle c) budget
    (match ro_token rq with Some tk => Some (tk, ct) | None => cx_affinity c end) (cx_trace c).

Definition attempt_of (rq : Routed) (ct : ChainTarget) (pr : ProxyRequest P) (budget admission : option nat) : attempt D P :=
  mkAttemptOf (attempt_ctx rq ct budget) (ro_p rq) ct pr (match ro_state rq with Some st => pricing st | None => None end) (ro_started rq)
    admission (Some (ro_raw rq)).

Definition finish_budget (budget : option nat) : ST Sv unit :=
  match budget with Some i => on_money (finalize i) | None => mret tt end.

(** The call, and whether to go on. *)
Definition run_attempt (rq : Routed) (a : attempt D P) (budget : option nat) (last : bool) : ST Sv bool :=
  _ ← started identity h E a;
  retry ← (if ro_stream rq then stream envelope identity h E a last else complete envelope identity h E a last);
  _ ← finish_budget budget;
  mret retry.

(** [rest] is what follows of the chain, [next] its first provider. *)
Definition try_target (rq : Routed) (first : bool) (admission : option nat) (ct : ChainTarget) (next : option ChainTarget) (rest : ST Sv unit) : ST Sv unit :=
  match proxy_of rq ct with
  | None => deny_with rq 400 "unsupported_conversion" "invalid_request_error" "request cannot be represented on the selected provider"
  | Some pr =>
      _ ← (if first then mret tt else fallback_headers rq ct);
      r ← on_money (ReserveBudget range_nat decode (h_gov h) (ro_p rq) (cx_bundle (ro_ctx rq)) ct (ro_state rq) (ro_raw rq) [admission]);
      match r with
      | Err e => deny_budget rq e
      | Ok budget =>
          retry ← run_attempt rq (attempt_of rq ct pr budget admission) budget (negb (is_Some_b next));
          _ ← (if (retry : bool) then
                 _ ← EndOpen AttemptUpstreamError 0;
                 _ ← record_result ct false;
                 _ ← match next with
                     | Some n => say (Observed (ObserveFallback (ct_Model ct) (ct_ProviderName ct) (ct_ProviderName n) "upstream_error"))
                     | None => mret tt
                     end;
                 rest
               else mret tt);
          finish_budget budget
      end
  end.

(** An admission of its own for every attempt after the first. *)
Definition with_admission (rq : Routed) (first : bool) (admission : option nat) (k : option nat → ST Sv unit) : ST Sv unit :=
  match (if first then None else h_gov h) with
  | None => k admission
  | Some g =>
      r ← admission_of rq g;
      match r with
      | Err _ => mret tt
      | Ok admission => _ ← k admission; on_money (on_gov (Close admission))
      end
  end.

Definition deny_target (rq : Routed) : ST Sv unit :=
  _ ← say (SetHeader "x-inferplane-routing-reason" "budget_target_changed");
  _ ← say (DelHeader "x-inferplane-routed-model");
  deny_with rq 402 "budget_target_changed" "insufficient_quota" "budget routing changed; retry to select an eligible model".

Fixpoint chain_loop (rq : Routed) (first : bool) (admission : option nat) (chain : list ChainTarget) : ST Sv unit :=
  match chain with
  | [] => mret tt
  | ct :: chain =>
      if negb (BudgetTargetAllowed gates range_str (ro_rp rq) (ro_requested rq) (ct_Model ct) (ro_state rq)) then deny_target rq
      else with_admission rq first admission (λ admission, try_target rq first admission ct (head chain) (chain_loop rq false admission chain))
  end.

Definition priced_targets (chain : list ChainTarget) : list PricedTarget :=
  map (λ ct, {| pt_Provider := ct_ProviderName ct; pt_Upstream := ct_Upstream ct |}) chain.

(** From the price guard on. *)
Definition dispatch (rq : Routed) (chain : list ChainTarget) : ST Sv unit :=
  let d := PricingGuard decode (match ro_state rq with Some st => pricing st | None => None end) (priced_targets chain) (ro_raw rq) in
  if negb (d_Allowed d) then deny_decision rq d "insufficient_quota"
  else match h_gov h with
  | None => chain_loop rq true None chain
  | Some g =>
      r ← admission_of rq g;
      match r with
      | Err _ => mret tt
      | Ok admission => _ ← chain_loop rq true admission chain; on_money (on_gov (Close admission))
      end
  end.

(** ** From the body to the chain *)

Context (RequestToCanonical : string → option P) (requested_model : P → string) (wants_stream : P → bool).
Context (StoredReference ValidateConversion : string → bool) (StrictTools : string → option bool).
(** The masking of the team, if enabled, and the complete redactor of a text filter. *)
Context (mask_enabled : string → bool) (redact : string → option string).
(** The route, its parameters given. *)
Context (Estimate : string → string → Z) (range : gmap string ModelConfig → list (string * ModelConfig)).
Context (RouteRequest : RequestRoutingInput → ST (FullRouter (D := D)) (RequestRoutingResult D * option RequestRoutingError)).

Definition compatibleTarget (raw : string) (ct : ChainTarget) (st : option Live.State) : bool :=
  let name := pv_Name (ct_Provider ct) in
  if bool_decide (name = "openai_responses") then true
  else if negb (ValidateConversion raw) then false
  else match StrictTools raw with
  | None => false
  | Some strict =>
      let carried :=
        match st with
        | Some st => match Route st (ct_Model ct) with Some m => contains "structured_output" (mc_Capabilities m) | None => false end
        | None => false
        end in
      if (strict && (contains name ["anthropic"; "bedrock"] || negb carried))%bool then false
      else if contains name ["openai_compatible"; "anthropic"] then true
      else match pv_SupportsIngress (ct_Provider ct) with Some f => f "responses" | None => false end
  end.

(** [Observe]: the response's headers and the request's context. *)
Definition Observe (ctx : Ctx D) (team : string) (r : RequestRoutingResult D) : ST Sv (Ctx D) :=
  let d := o_Decision r in
  let bundle := if bool_decide (o_PolicyGeneration r = "") then cx_bundle ctx else Some (o_PolicyGeneration r, rd_RequestedModel d) in
  let with_routing x := mkCtx x (cx_fallback ctx) (cx_substituted ctx) bundle (cx_budget ctx) (cx_affinity ctx) (cx_trace ctx) in
  if negb (Active d) then mret (with_routing (cx_routing ctx))
  else
    _ ← say (Observed (ObserveRoutingDecision team (rd_Mode d) (rd_Reason d)));
    _ ← say (SetHeader "x-inferplane-routing-reason" (rd_Reason d));
    _ ← (if shows_model d then say (SetHeader "x-inferplane-routed-model" (rd_SelectedModel d)) else mret tt);
    mret (with_routing (Some (routing_ref d (o_Chain r)))).

(** A refusal before or after the route: [written] is the answer. *)
Definition refuse (ctx : Ctx D) (p : Shared.Principal) (model : string) (status : Z) (reason : string) (answer : ST Sv unit) {X} : Step X :=
  _ ← do_ (denied identity h E ctx p model status reason); _ ← do_ answer; early tt.

Definition context_too_long : ST Sv unit := writeCodedError E 400 "request exceeds the configured context window" "context_length_exceeded".
Definition not_masked : ST Sv unit := writeError E 403 "permission_error" "request could not be completely masked" "".

Definition answer_only {X} (m : ST Sv unit) : Step X := _ ← do_ m; early tt.

(** The model to serve and the context: fallback, access, budget tier. *)
Definition resolve_model (p : Shared.Principal) (rp : Router.Principal) (asked : string) (ctx : Ctx D) : Step (string * string * Ctx D) :=
  r ← do_ (λ sv, (fr_router (sv_router sv), sv));
  let '(model, source) := ResolveModelSource range r asked in
  ctx ← (if bool_decide (source = "") then mret ctx
         else
           _ ← do_ (say (SetHeader "x-inferplane-model-fallback" model));
           _ ← do_ (on_full (on_router (ObserveModelFallback asked model source)));
           mret (mkCtx (cx_routing ctx) (Some (WithModelFallback asked model source)) (cx_substituted ctx) (cx_bundle ctx) (cx_budget ctx) (cx_affinity ctx) (cx_trace ctx)));
  r ← do_ (λ sv, (fr_router (sv_router sv), sv));
  if negb (Allows gates r rp model) then
    refuse ctx p "_rejected" 403 "model_forbidden" (writeError E 403 "permission_error" "model is not allowed" "")
  else
    let '(selected, changed) := SubstituteTier gates r rp model in
    if (changed : bool) then
      _ ← do_ (say (Observed (ObserveModelSubstitution (Shared.pr_Team p) model selected)));
      _ ← do_ (say (SetHeader "x-inferplane-substituted-model" selected));
      mret (model, selected, mkCtx (cx_routing ctx) (cx_fallback ctx) model (cx_bundle ctx) (cx_budget ctx) (cx_affinity ctx) (cx_trace ctx))
    else mret (model, model, ctx).

(** The resolved chain within the key's models and the team's regions, and its generation. *)
Definition resolve_chain (p : Shared.Principal) (rp : Router.Principal) (ctx : Ctx D) (model : string) (team : Team) : Step (list ChainTarget * Live.State) :=
  r ← do_ (λ sv, (fr_router (sv_router sv), sv));
  chain ← do_ (on_full (on_router (ResolveChain range model)));
  match chain with
  | Err _ => refuse ctx p "_rejected" 404 "model_unavailable" (writeError E 404 "invalid_request_error" "model is unavailable" "")
  | Ok chain =>
      let st := r_live r in
      let chain := FilterModelAllowed chain (λ m, Allows gates r rp m) in
      mret (if (0 <? length (tm_AllowedRegions team))%nat then FilterRegions chain (tm_AllowedRegions team) else chain, st)
  end.

Definition route_input (rq : HTTPRequest) (rp : Router.Principal) (raw requested model : string) (chain : list ChainTarget) (st : Live.State) : RequestRoutingInput :=
  {| in_Principal := rp; in_Protocol := "responses"; in_RawBody := raw; in_RequestedModel := requested; in_Model := model;
     in_Chain := chain; in_State := Some st; in_AllowedRegions := tm_AllowedRegions (rq_team rq); in_CountOnly := false;
     in_SessionHint := if (1024 <? String.length (rq_session rq))%nat then "" else rq_session rq;
     in_Redactor := if mask_enabled (Router.pr_Team rp) then Some (λ _ raw, redact raw) else None;
     in_Compatible := Some (λ ct, compatibleTarget raw ct (Some st)) |}.

(** A route that was refused is answered by its reason. *)
Definition deny_route (ctx : Ctx D) (p : Shared.Principal) (model raw : string) (chain : list ChainTarget) (st : Live.State)
    (o : RequestRoutingResult D) {X} : Step X :=
  ctx ← do_ (Observe ctx (Shared.pr_Team p) o);
  let reason := rd_Reason (o_Decision o) in
  if bool_decide (reason = "context_window_exceeded") then refuse ctx p model 400 "context_window_exceeded" context_too_long
  else
    let unconvertible := (negb (Active (o_Decision o)) && (0 <? length chain)%nat
                          && negb (existsb (λ ct, compatibleTarget raw ct (Some st)) chain))%bool in
    let '(status, reason) := if unconvertible then (400, "unsupported_conversion") else (403, reason) in
    refuse ctx p model status reason (writeError E status "invalid_request_error" "no policy-permitted compatible Responses target" "").

(** The body that the policies masked. *)
Definition masked_body (ctx : Ctx D) (p : Shared.Principal) (o : RequestRoutingResult D) (raw : string) (parsed : P) : Step (string * P) :=
  if negb (o_MaskRequired o) then mret (raw, parsed)
  else match o_SanitizedBody o with
  | Some body =>
      match RequestToCanonical body with
      | Some parsed => if bool_decide (body = "") then refuse ctx p (o_Model o) 403 "masking_failed" not_masked else mret (body, parsed)
      | None => refuse ctx p (o_Model o) 403 "masking_failed" not_masked
      end
  | None => refuse ctx p (o_Model o) 403 "masking_failed" not_masked
  end.

Definition with_decision (f : RoutingDecision → RoutingDecision) (o : RequestRoutingResult D) : RequestRoutingResult D :=
  mkResult (o_PolicyGeneration o) (o_Model o) (o_Chain o) (o_State o) (f (o_Decision o)) (o_MaskRequired o) (o_SanitizedBody o) (o_AffinityToken o).

(** The separately enabled text filter, unless a policy has masked already. *)
Definition legacy_masked (ctx : Ctx D) (p : Shared.Principal) (o : RequestRoutingResult D) (raw : string) (parsed : P)
    : Step (string * P * RequestRoutingResult D) :=
  if (negb (mask_enabled (Shared.pr_Team p)) || rd_Masked (o_Decision o))%bool then mret (raw, parsed, o)
  else
    match (body ← redact raw; parsed ← RequestToCanonical body; Some (body, parsed)) with
    | None =>
        ctx ← do_ (Observe ctx (Shared.pr_Team p) (with_decision (d_reason "mask_failed") o));
        refuse ctx p (o_Model o) 403 "mask_failed" not_masked
    | Some (body, parsed) =>
        let changed := negb (bool_decide (body = raw)) in
        let o := if changed then with_decision d_masked o else o in
        mret (body, parsed, if (changed && (length (rd_Policies (o_Decision o)) =? 0)%nat)%bool then with_decision (d_reason "legacy_mask") o else o)
    end.

(** The last checks of a routed request. *)
Definition checked_route (ctx : Ctx D) (p : Shared.Principal) (o : RequestRoutingResult D) (raw : string) : Step Z :=
  if existsb (λ ct, negb (compatibleTarget raw ct (o_State o))) (o_Chain o) then
    refuse ctx p (o_Model o) 400 "unsupported_conversion" (writeError E 400 "invalid_request_error" "request requires a native Responses target" "")
  else
    let estimate := Estimate "responses" raw in
    let limit := ContextWindow (o_State o) (o_Model o) in
    if ((0 <? limit) && (limit <? estimate))%bool then refuse ctx p (o_Model o) 400 "context_window_exceeded" context_too_long
    else mret estimate.

Definition serve_parsed (rq : HTTPRequest) (p : Shared.Principal) (rp : Router.Principal) (raw : string) (parsed : P) (start : Time) : Step unit :=
  let ctx := mkCtx None None "" None None None (rq_trace rq) in
  _ ← (if StoredReference raw then
         refuse ctx p "_rejected" 400 "stored_reference_unsupported"
           (writeError E 400 "invalid_request_error" "stored response, conversation and item references are not supported; resend the full input" "")
       else mret tt);
  '(requested, model, ctx) ← resolve_model p rp (requested_model parsed) ctx;
  '(chain, st) ← resolve_chain p rp ctx model (rq_team rq);
  '(o, err) ← do_ (on_full (RouteRequest (route_input rq rp raw requested model chain st)));
  if is_Some_b err then deny_route ctx p model raw chain st o
  else
    '(raw, parsed) ← masked_body ctx p o raw parsed;
    '(raw, parsed, o) ← legacy_masked ctx p o raw parsed;
    ctx ← do_ (Observe ctx (Shared.pr_Team p) o);
    estimate ← checked_route ctx p o raw;
    do_ (dispatch
           (mkRouted ctx p rp requested (o_Model o) (o_State o) parsed raw (wants_stream parsed) (rq_team rq) estimate start
              (rq_version rq) (o_AffinityToken o)) (o_Chain o)).

Definition read_body (b : Body) : Step string :=
  match b with
  | BodyRead raw => mret raw
  | BodyTooLarge => answer_only (writeError E 413 "invalid_request_error" "request body too large" "")
  | BodyUnreadable => answer_only (writeError E 400 "invalid_request_error" "could not read request body" "")
  end.

Definition serve (rq : HTTPRequest) : Step unit :=
  match rq_principal rq with
  | None => answer_only (writeError E 401 "authentication_error" "authentication required" "")
  | Some (p, rp) =>
      start ← do_ (on_collector now);
      raw ← read_body (rq_body rq);
      match RequestToCanonical raw with
      | None => answer_only (writeError E 400 "invalid_request_error" "invalid Responses request" "")
      | Some parsed => serve_parsed rq p rp raw parsed start
      end
  end.

Definition ServeHTTP (rq : HTTPRequest) : ST Sv unit := λ sv, (tt, (serve rq sv).2).
End handler.
