(* ===== verification/ResponsesSafety.v ===== *)
(** * What the client and the outside see

    Theorems on the traces of [ServeHTTP]: a request is answered once, and no
    provider is called once its answer has begun.

    A proof follows the handler with [trip]: a relation between the server and
    a ghost state, kept by every step. *)

From S2P Require Import Prelude GoTime GoFloat Json Usage Pricing Budget Limiter Denial Governor LocalMoney Governance Live Router Boundary Affinity RequestRouting RoutingSafety Shared Settlement Evidence Exchange Responses.

(** ** Steps under a ghost state *)

Section trip.
Context {V G : Type} (I : V → G → Prop).

Definition trip {X} (m : ST V X) (g : G) (Q : X → G → Prop) : Prop :=
  ∀ sv, I sv g → wp m (λ x sv', ∃ g', I sv' g' ∧ Q x g') sv.

Lemma trip_ret {X} (x : X) g (Q : X → G → Prop) : Q x g → trip (mret x) g Q.
Proof. intros HQ sv Hi. apply wp_ret. eauto. Qed.

Lemma trip_mono {X} (m : ST V X) g (Q Q' : X → G → Prop) : trip m g Q → (∀ x g', Q x g' → Q' x g') → trip m g Q'.
Proof. intros Hm HQ sv Hi. eapply wp_mono; [by apply Hm|]. intros x sv' (g' & Hi' & Hx). eauto. Qed.

Lemma trip_bind {X Y} (m : ST V X) (f : X → ST V Y) g Q : trip m g (λ x g', trip (f x) g' Q) → trip (m ≫= f) g Q.
Proof. intros Hm sv Hi. rewrite wp_bind. eapply wp_mono; [by apply Hm|]. intros x sv' (g' & Hi' & Hx). by apply Hx. Qed.

(** With an early return: the body of [STE] is a step to a result. *)
Abbreviation tripe m := (trip (m : ST V (result _ _))).

Lemma tripe_ret {T X} (x : X) g (Q : result T X → G → Prop) : Q (Ok x) g → trip (mret x : STE V T X) g Q.
Proof. intros HQ sv Hi. unfold wp, mret, ste_mret. simpl. eauto. Qed.

Lemma tripe_early {T X} (e : T) g (Q : result T X → G → Prop) : Q (Err e) g → trip (early e : STE V T X) g Q.
Proof. intros HQ sv Hi. unfold wp, early. simpl. eauto. Qed.

Lemma tripe_bind {T X Y} (m : STE V T X) (f : X → STE V T Y) g (Q : result T Y → G → Prop) :
  trip m g (λ r g', match r with Ok x => trip (f x) g' Q | Err e => Q (Err e) g' end) → trip (m ≫= f : STE V T Y) g Q.
Proof.
  intros Hm sv Hi. specialize (Hm sv Hi). unfold wp, mbind, ste_mbind in *. destruct (m sv) as [[x|e] sv'].
  - destruct Hm as (g' & Hi' & Hx). exact (Hx sv' Hi').
  - exact Hm.
Qed.

Lemma tripe_lift {T X} (m : ST V X) g (Q : result T X → G → Prop) : trip m g (λ x, Q (Ok x)) → trip (ste_lift m : STE V T X) g Q.
Proof. intros Hm sv Hi. specialize (Hm sv Hi). unfold wp, ste_lift in *. by destruct (m sv). Qed.

Lemma trip_if {X} (b : bool) (m m' : ST V X) g Q : (b = true → trip m g Q) → (b = false → trip m' g Q) → trip (if b then m else m') g Q.
Proof. destruct b; auto. Qed.
End trip.

(** Follow the handler: binds, returns and conditionals. *)
Ltac trip_step :=
  lazymatch goal with
  | |- trip _ (match ?x with _ => _ end) _ _ => destruct x eqn:?
  | |- trip _ (mbind (M := STE _ _) _ _) _ _ => apply tripe_bind
  | |- trip _ (mbind (M := ST _) _ _) _ _ => apply trip_bind
  | |- trip _ (ste_lift _) _ _ => apply tripe_lift
  | |- trip _ (do_ _) _ _ => apply tripe_lift
  | |- trip _ (early _) _ _ => apply tripe_early
  | |- trip _ (mret (M := STE _ _) _) _ _ => apply tripe_ret
  | |- trip _ (mret (M := ST _) _) _ _ => apply trip_ret
  end.

(** ** The trace *)

Section traces.
Context {L F B A S D P Ch R : Type} `{!LimiterStore L F} `{!BudgetStore B} `{!BudgetAuthority A} `{!SharedAuthority S} `{!EqDecision D} `{!Countable D} `{!ResponsesWire P Ch R}.
Abbreviation Sv := (Server L F B A S D).

(** [m] adds acts of a kind to the trace. *)
Definition says (ok : Act → bool) {X} (m : ST Sv X) : Prop :=
  ∀ sv, ∃ l, sv_trace (m sv).2 = sv_trace sv ++ l ∧ forallb ok l = true.

Lemma says_ret ok {X} (x : X) : says ok (mret x : ST Sv X).
Proof. intros sv. exists []. by rewrite app_nil_r. Qed.
Lemma says_bind ok {X Y} (m : ST Sv X) (f : X → ST Sv Y) : says ok m → (∀ x, says ok (f x)) → says ok (m ≫= f).
Proof.
  intros Hm Hf sv. destruct (Hm sv) as (l & El & Hl). unfold mbind, st_mbind. destruct (m sv) as [x sv1]. destruct (Hf x sv1) as (k & Ek & Hk).
  exists (l ++ k). rewrite Ek. simpl in El. rewrite El, app_assoc, forallb_app, Hl, Hk. done.
Qed.
Lemma says_say ok a : ok a = true → says ok (say a : ST Sv unit).
Proof. intros Ha sv. exists [a]. simpl. by rewrite Ha. Qed.
Lemma says_money ok {X} (m : ST _ X) : says ok (on_money m : ST Sv X).
Proof. intros sv. exists []. unfold on_money. destruct (m _). by rewrite app_nil_r. Qed.
Lemma says_full ok {X} (m : ST _ X) : says ok (on_full m : ST Sv X).
Proof. intros sv. exists []. unfold on_full. destruct (m _). by rewrite app_nil_r. Qed.
Lemma says_collector ok {X} (m : ST _ X) : says ok (on_collector m : ST Sv X).
Proof. intros sv. exists []. unfold on_collector. destruct (m _). by rewrite app_nil_r. Qed.
Lemma says_tick ok : says ok (tick : ST Sv nat).
Proof. intros sv. exists []. simpl. by rewrite app_nil_r. Qed.
Lemma says_weaken (ok ok' : Act → bool) {X} (m : ST Sv X) : says ok m → (∀ a, ok a = true → ok' a = true) → says ok' m.
Proof.
  intros Hm Ho sv. destruct (Hm sv) as (l & El & Hl). exists l. split; [done|]. rewrite forallb_Forall in *. by eapply Forall_impl.
Qed.
End traces.

Create HintDb says discriminated.
#[export] Hint Resolve says_ret says_bind says_money says_full says_collector says_tick : says.
#[export] Hint Extern 2 (says _ (say _)) => apply says_say; reflexivity : says.
#[export] Hint Extern 3 (says _ (match ?x with _ => _ end)) => destruct x : says.

Ltac says_all := repeat first
  [ progress eauto 3 with says
  | apply says_bind; [|intros ?]
  | match goal with |- says _ (match ?x with _ => _ end) => destruct x end ].

Section behind.
Context {L F B A S D P Ch R : Type} `{!LimiterStore L F} `{!BudgetStore B} `{!BudgetAuthority A} `{!SharedAuthority S} `{!EqDecision D} `{!Countable D} `{!ResponsesWire P Ch R}.
Context (envelope : string → option string) (identity : Shared.Principal → option string) (h : Handler) (E : Env P Ch).
Abbreviation Sv := (Server L F B A S D).

(** Evidence, money and metrics: what the client does not see. *)
Definition behind (a : Act) : bool :=
  match a with Appended _ | Observed _ | UsageRecorded _ _ _ _ _ | ContentExported _ _ _ => true | _ => false end.

Lemma says_finish (a : attempt D P) code status u body partial ttft : says behind (finish identity h E a code status u body partial ttft : ST Sv unit).
Proof.
  unfold finish, finish_body, finish_usage, capture, append_finished, append, ctx_Err, ulid_New. says_all.
Qed.
Lemma says_denied (ctx : Ctx D) p model status reason : says behind (denied identity h E ctx p model status reason : ST Sv unit).
Proof. unfold denied, append_finished, append, ctx_Err, ulid_New. says_all. Qed.
Lemma says_started (a : attempt D P) : says behind (started identity h E a : ST Sv unit).
Proof. unfold started, append, ulid_New. says_all. Qed.
Lemma says_RecordSuccess (ctx : Ctx D) : says behind (RecordSuccess E ctx : ST Sv unit).
Proof. unfold RecordSuccess, ctx_alive, ctx_Err. says_all. Qed.
Lemma says_endFailed err status retried : says behind (endFailedAttempt E err status retried : ST Sv unit).
Proof. unfold endFailedAttempt, ctx_Err. says_all. Qed.
Lemma says_may_retry last status : says behind (may_retry E last status : ST Sv bool).
Proof. unfold may_retry, ctx_alive, ctx_Err. says_all. Qed.
Lemma says_record_result t ok : says behind (record_result t ok : ST Sv unit).
Proof. unfold record_result. says_all. Qed.
Lemma says_EndOpen status http : says behind (EndOpen status http : ST Sv unit).
Proof. unfold EndOpen. says_all. Qed.
Lemma says_ctx_Err : says behind (ctx_Err E : ST Sv _).
Proof. unfold ctx_Err. says_all. Qed.
End behind.

#[export] Hint Resolve says_finish says_denied says_started says_RecordSuccess says_endFailed says_may_retry says_record_result says_EndOpen says_ctx_Err : says.

(** ** The client: headers, one status, then bytes *)

(** Whether the status has been written; [None] is a violation. *)
Definition client_step (c : option bool) (a : Act) : option bool :=
  match c with
  | None => None
  | Some committed =>
      match a with
      | SetHeader _ _ | DelHeader _ | Dispatch _ _ _ _ => if committed then None else Some false
      | WriteHeader _ => if committed then None else Some true
      | Write _ | Flush => if committed then Some true else None
      | _ => Some committed
      end
  end.
Definition client (tr : list Act) : option bool := foldl client_step (Some false) tr.

Lemma client_app tr l : client (tr ++ l) = foldl client_step (client tr) l.
Proof. apply foldl_app. Qed.

Lemma client_behind c l : forallb behind l = true → foldl client_step (Some c) l = Some c.
Proof. induction l as [|a l IH]; simpl; [done|]. intros [Ha Hl]%andb_true_iff. destruct a; try done; by apply IH. Qed.

Section client.
Context {L F B A S D P Ch R : Type} `{!LimiterStore L F} `{!BudgetStore B} `{!BudgetAuthority A} `{!SharedAuthority S} `{!EqDecision D} `{!Countable D} `{!ResponsesWire P Ch R}.
Context (envelope : string → option string) (identity : Shared.Principal → option string) (h : Handler) (E : Env P Ch).
Abbreviation Sv := (Server L F B A S D).
Abbreviation Attempt := (attempt D P).

Definition shown (sv : Sv) (c : bool) : Prop := client (sv_trace sv) = Some c.
Abbreviation answers := (trip shown).

Lemma answers_behind {X} (m : ST Sv X) c (Q : X → bool → Prop) : says behind m → (∀ x, Q x c) → answers m c Q.
Proof.
  intros Hm HQ sv Hi. destruct (Hm sv) as (l & El & Hl). unfold wp. exists c. split; [|done].
  unfold shown in *. by rewrite El, client_app, Hi, client_behind.
Qed.

Lemma answers_say a c c' (Q : unit → bool → Prop) : client_step (Some c) a = Some c' → Q tt c' → answers (say a) c Q.
Proof. intros Hs HQ sv Hi. exists c'. split; [|done]. unfold shown in *. simpl. by rewrite client_app, Hi. Qed.

Lemma answers_write p (Q : bool → bool → Prop) : (∀ ok, Q ok true) → answers (write E p) true Q.
Proof. intros HQ. unfold write. apply trip_bind. eapply answers_say; [done|]. apply answers_behind; [says_all|]. done. Qed.

Lemma answers_error status kind message code (Q : unit → bool → Prop) : Q tt true → answers (writeError E status kind message code) false Q.
Proof.
  intros HQ. unfold writeError. do 2 (apply trip_bind; eapply answers_say; [done|]). apply trip_bind, answers_write. intros _. by apply trip_ret.
Qed.
Lemma answers_coded status message code (Q : unit → bool → Prop) : Q tt true → answers (writeCodedError E status message code) false Q.
Proof. apply answers_error. Qed.

(** A step that returns whether to go on: only uncommitted, and never past the last target. *)
Definition goes_on (last : bool) (r c : bool) : Prop := c = negb r ∧ (r = true → last = false).

Lemma goes_on_retry last c : last = false → c = false → goes_on last true c.
Proof. by intros -> ->. Qed.
Lemma goes_on_done last : goes_on last false true.
Proof. done. Qed.

Lemma may_retry_last last status c : answers (may_retry E last status : ST Sv bool) c (λ r c', c' = c ∧ (r = true → last = false)).
Proof.
  intros sv Hi. unfold may_retry. destruct last; simpl; [by exists c|]. destruct (retryStatus status); [|by exists c].
  by exists c.
Qed.

Lemma failed_call_answers (a : Attempt) last err code message : answers (failed_call identity h E a last err code message) false (goes_on last).
Proof.
  unfold failed_call. apply trip_bind. eapply trip_mono; [apply may_retry_last|]. intros retry c [-> Hr].
  do 2 (apply trip_bind, answers_behind; [says_all|intros _]). destruct retry.
  - apply trip_ret, goes_on_retry; auto.
  - apply trip_bind, answers_coded, trip_ret, goes_on_done.
Qed.

Lemma complete_response_answers (a : Attempt) last resp : answers (complete_response envelope identity h E a last resp) false (goes_on last).
Proof.
  assert (∀ u message, answers (unusable identity h E a resp u message) false (goes_on last)) as Hu.
  { intros u message. unfold unusable. do 2 (apply trip_bind, answers_behind; [says_all|intros _]).
    apply trip_bind, answers_error, trip_ret, goes_on_done. }
  unfold complete_response. destruct (negb _).
  { unfold refused_response. cbv zeta. destruct (negb last && _)%bool eqn:Er.
    - do 2 (apply trip_bind, answers_behind; [says_all|intros _]). apply trip_ret, goes_on_retry; [|done]. by apply andb_true_iff in Er as [?%negb_true_iff _].
    - do 2 (apply trip_bind, answers_behind; [says_all|intros _]). apply trip_bind, answers_coded, trip_ret, goes_on_done. }
  destruct (rs_Parsed resp) as [parsed|]; [|apply Hu]. destruct (cr_Usage parsed) as [u|]; [|apply Hu].
  set (rendered := if native _ then _ else _). destruct rendered as [body|]; [|apply Hu]. case_bool_decide; [apply Hu|].
  unfold accepted_response. apply trip_bind, answers_behind; [says_all|intros _]. do 2 (apply trip_bind; eapply answers_say; [done|]).
  apply trip_bind, answers_write. intros ok. do 3 (apply trip_bind, answers_behind; [says_all|intros _]). apply trip_ret, goes_on_done.
Qed.

Lemma call_answers streamed (a : Attempt) (Q : nat → bool → Prop) : (∀ n, Q n false) → answers (call streamed a : ST Sv nat) false Q.
Proof.
  intros HQ. unfold call. do 2 (apply trip_bind, answers_behind; [says_all|intros ?]). apply trip_bind. eapply answers_say; [done|]. by apply trip_ret.
Qed.

Lemma complete_answers (a : Attempt) last : answers (complete envelope identity h E a last) false (goes_on last).
Proof.
  unfold complete. apply trip_bind, call_answers. intros n. destruct (en_complete E n _ _) as [[resp|] [err|]];
    first [apply complete_response_answers | apply failed_call_answers].
Qed.

(** *** Streams *)

Lemma commit_answers (a : Attempt) (s : Streaming R) (Q : Streaming R → bool → Prop) :
  (∀ s', st_committed s' = true → Q s' true) → answers (commit a s) (st_committed s) Q.
Proof.
  intros HQ. unfold commit. destruct (st_committed s) eqn:Es; [apply trip_ret, HQ, Es|].
  do 3 (apply trip_bind; eapply answers_say; [done|]). do 2 (apply trip_bind, answers_behind; [says_all|intros ?]). by apply trip_ret, HQ.
Qed.

Lemma fail_answers (a : Attempt) last (s : Streaming R) cause : answers (fail envelope identity h E a last s cause) (st_committed s) (goes_on last).
Proof.
  assert (∀ (s : Streaming R) code recovery, answers (fail_committed envelope identity h E a s cause code recovery) true (goes_on last)) as Hc.
  { intros s0 code recovery. unfold fail_committed. do 2 (apply trip_bind, answers_behind; [says_all|intros ?]). apply trip_bind.
    eapply trip_mono with (Q := λ _ c, c = true).
    - destruct (Is _ _); [by apply trip_ret|]. apply trip_bind, answers_write. intros ok. destruct ok; [|by apply trip_ret].
      apply trip_bind. eapply answers_say; [done|]. by apply trip_ret.
    - intros code' c ->. apply trip_bind, answers_behind; [says_all|intros _]. apply trip_ret, goes_on_done. }
  unfold fail. cbv zeta. apply trip_bind. destruct (negb _ && _ && _ && _)%bool eqn:Eb.
  { apply commit_answers. intros s' Hs. rewrite Hs. apply Hc. }
  apply trip_ret. destruct (st_committed s) eqn:Es; [apply Hc|].
  unfold fail_uncommitted. apply trip_bind. eapply trip_mono with (Q := λ r c, c = false ∧ (r = true → last = false)).
  { destruct (is_Some_b _); [by apply trip_ret|apply may_retry_last]. }
  intros retry c [-> Hr]. do 2 (apply trip_bind, answers_behind; [says_all|intros _]). destruct retry.
  - apply trip_ret, goes_on_retry; auto.
  - apply trip_bind, answers_coded, trip_ret, goes_on_done.
Qed.

(** The stream goes on with what it has shown, or has ended. *)
Definition streams (last : bool) (r : result bool (Streaming R)) (c : bool) : Prop :=
  match r with Ok s => c = st_committed s | Err e => goes_on last e c end.

Lemma failing_answers {X} (a : Attempt) last (s : Streaming R) cause (Q : result bool X → bool → Prop) :
  (∀ e c, goes_on last e c → Q (Err e) c) → answers (failing envelope identity h E a last s cause) (st_committed s) Q.
Proof.
  intros HQ. unfold failing. apply tripe_bind, tripe_lift. eapply trip_mono; [apply fail_answers|]. intros r c Hr. apply tripe_early. auto.
Qed.

Lemma emit_committed (a : Attempt) last (s : Streaming R) p (Q : result bool (Streaming R) → bool → Prop) :
  (∀ s', st_committed s' = true → Q (Ok s') true) → (∀ e c, goes_on last e c → Q (Err e) c) →
  answers (emit_bytes envelope identity h E a last s p) (st_committed s) Q.
Proof.
  intros HQ Hend. unfold emit_bytes. apply tripe_bind, tripe_lift, commit_answers. intros s' Hs'. apply tripe_bind, tripe_lift, answers_write.
  intros ok. destruct ok; [by apply tripe_ret, HQ|]. rewrite <- Hs'. by apply failing_answers.
Qed.

Lemma emit_events_answers (a : Attempt) last (s : Streaming R) events (Q : result bool (Streaming R) → bool → Prop) :
  (∀ s' c, c = st_committed s' → (events ≠ [] ∨ st_committed s = true → c = true) → Q (Ok s') c) → (∀ e c, goes_on last e c → Q (Err e) c) →
  answers (emit_events envelope identity h E a last s events) (st_committed s) Q.
Proof.
  revert s Q. induction events as [|e events IH]; intros s Q HQ Hend; simpl; [apply tripe_ret, HQ; [done|]; by intros []|].
  apply tripe_bind, emit_committed; [|done]. intros s' Hs'. rewrite <- Hs'. apply IH; [|done]. intros s2 c Hc Hn. apply HQ; [done|]. intros _. by apply Hn; right.
Qed.

Lemma flush_answers (Q : result bool unit → bool → Prop) : Q (Ok tt) true → answers (flush : STE Sv bool unit) true Q.
Proof. intros HQ. unfold flush. apply tripe_lift. by eapply answers_say. Qed.

Lemma stream_event_answers (a : Attempt) last (s : Streaming R) e :
  answers (stream_event envelope identity h E a last s e) (st_committed s) (streams last).
Proof.
  unfold stream_event. cbv zeta. replace (st_committed s) with (st_committed (observe_chunk (se_Chunk e) s)) by by destruct (se_Chunk e).
  set (s1 := observe_chunk _ s). destruct (is_Some_b _); [by apply tripe_ret|]. destruct (native _).
  - case_bool_decide; [by apply tripe_ret|]. apply tripe_bind, emit_committed; [|done]. intros s' Hs'. apply tripe_bind, flush_answers, tripe_ret. by simpl.
  - destruct (se_Chunk e) as [c|]; [|by apply tripe_ret]. destruct (Convert c (st_renderer s1)) as [[events|] r]; [|by apply tripe_ret].
    change (st_committed s1) with (st_committed (with_renderer r s1)). apply tripe_bind, emit_events_answers; [|done].
    intros s' c' Hc Hn. apply tripe_bind. destruct events as [|ev events]; simpl; [by apply tripe_ret, tripe_ret|].
    rewrite Hn by by left. apply flush_answers, tripe_ret. simpl. rewrite <- Hc. symmetry. by apply Hn; left.
Qed.

Lemma stream_loop_answers (a : Attempt) last seq (s : Streaming R) :
  answers (stream_loop envelope identity h E a last s seq) (st_committed s) (streams last).
Proof.
  revert s. induction seq as [|[[e|]|e] seq IH]; intros s; simpl; [by apply tripe_ret| |apply IH|by apply failing_answers].
  apply tripe_bind. eapply trip_mono; [apply stream_event_answers|]. intros [s'|r] c Hc; [|exact Hc]. simpl in Hc. subst c. apply IH.
Qed.

Lemma stream_end_answers (a : Attempt) last (s : Streaming R) :
  answers (stream_end envelope identity h E a last s) (st_committed s) (λ r, goes_on last (returned r)).
Proof.
  unfold stream_end. destruct (st_conversion s); [by apply failing_answers|]. set (finished := if native _ then _ else _).
  destruct finished; [|by apply failing_answers]. destruct (negb _ || _ || _)%bool eqn:Eb; [by apply failing_answers|].
  destruct (negb (is_Some_b (st_usage s))); [by apply failing_answers|]. bsplit. rewrite H.
  do 5 (apply tripe_bind, tripe_lift, answers_behind; [says_all|intros ?]). apply tripe_ret, goes_on_done.
Qed.

Lemma stream_answers (a : Attempt) last : answers (stream envelope identity h E a last) false (goes_on last).
Proof.
  unfold stream. destruct (negb _).
  { apply trip_bind, answers_error, trip_bind, answers_behind; [says_all|intros _]. apply trip_ret, goes_on_done. }
  apply trip_bind, call_answers. intros n. destruct (en_stream E n _ _) as [[seq|] [err|]]; try apply failed_call_answers.
  apply trip_bind. set (s0 := mkStreaming _ _ _ _ _ _ _). change false with (st_committed s0) at 1.
  eapply trip_mono with (Q := λ r, goes_on last (returned r)); [|by intros r c Hr; apply trip_ret].
  apply tripe_bind. eapply trip_mono; [apply stream_loop_answers|]. intros [s'|r] c Hc; [|exact Hc]. simpl in Hc. subst c. apply stream_end_answers.
Qed.
End client.

(** ** The handler *)

Section serving.
Context {L F B A S D P Ch R : Type} `{!LimiterStore L F} `{!BudgetStore B} `{!BudgetAuthority A} `{!SharedAuthority S} `{!EqDecision D} `{!Countable D} `{!ResponsesWire P Ch R}.
Context (range_nat : gmap string nat → list (string * nat)) (decode : string → option json).
Context (envelope : string → option string) (identity : Shared.Principal → option string).
Context (h : Handler) (E : Env P Ch) (gates : Gates) (range_str : gmap string string → list (string * string)).
Abbreviation Sv := (Server L F B A S D).
Abbreviation answers := (trip (shown (L := L) (F := F) (B := B) (A := A) (S := S) (D := D))).
Abbreviation answered := (λ _ c, c = true).

Lemma deny_with_answers rq status reason kind message : answers (deny_with identity h E rq status reason kind message) false answered.
Proof. unfold deny_with. apply trip_bind, answers_behind; [says_all|intros _]. by apply answers_error. Qed.

Lemma deny_decision_answers rq d kind : answers (deny_decision identity h E rq d kind) false answered.
Proof. unfold deny_decision. apply trip_bind, answers_behind; [says_all|intros _]. apply deny_with_answers. Qed.

Lemma admission_answers rq g (Q : result unit (option nat) → bool → Prop) :
  (∀ a, Q (Ok a) false) → Q (Err tt) true → answers (admission_of identity h E rq g) false Q.
Proof.
  intros HQ He. unfold admission_of. apply tripe_bind, tripe_lift, answers_behind; [says_all|intros d]. destruct (d_Allowed d); [by apply tripe_ret|].
  apply tripe_bind, tripe_lift. eapply trip_mono; [apply deny_decision_answers|]. intros _ c ->. by apply tripe_early.
Qed.

Lemma headers_answers (b : bool) k v (Q : unit → bool → Prop) : Q tt false → answers (if b then mret tt else say (SetHeader k v)) false Q.
Proof. intros HQ. destruct b; [by apply trip_ret|]. by eapply answers_say. Qed.

Lemma fallback_headers_answers rq ct (Q : unit → bool → Prop) : Q tt false → answers (fallback_headers (P := P) rq ct) false Q.
Proof. intros HQ. unfold fallback_headers. apply trip_bind. eapply answers_say; [done|]. by apply headers_answers. Qed.

Lemma finish_budget_behind budget : says behind (finish_budget budget : ST Sv unit).
Proof. unfold finish_budget. says_all. Qed.

Lemma run_attempt_answers rq a budget last : answers (run_attempt envelope identity h E rq a budget last) false (goes_on last).
Proof.
  unfold run_attempt. apply trip_bind, answers_behind; [says_all|intros _]. apply trip_bind. eapply trip_mono with (Q := goes_on last).
  - destruct (ro_stream rq); [apply stream_answers|apply complete_answers].
  - intros retry c Hc. apply trip_bind, answers_behind; [apply finish_budget_behind|intros _]. by apply trip_ret.
Qed.

Lemma try_target_answers rq first admission ct next rest :
  (is_Some next → answers rest false answered) →
  answers (try_target range_nat decode envelope identity h E rq first admission ct next rest) false answered.
Proof.
  intros Hrest. unfold try_target. destruct (proxy_of rq ct) as [pr|]; [|apply deny_with_answers]. apply trip_bind.
  eapply trip_mono with (Q := λ _ c, c = false); [destruct first; [by apply trip_ret|by apply fallback_headers_answers]|]. intros _ c ->.
  apply trip_bind, answers_behind; [says_all|intros r]. destruct r as [budget|e].
  - apply trip_bind. eapply trip_mono; [apply run_attempt_answers|]. intros retry c [-> Hr].
    apply trip_bind. eapply trip_mono with (Q := answered).
    + destruct retry; [|by apply trip_ret]. destruct next as [n|]; [|by specialize (Hr eq_refl)].
      do 3 (apply trip_bind, answers_behind; [says_all|intros _]). by apply Hrest.
    + intros _ c ->. apply answers_behind; [apply finish_budget_behind|done].
  - unfold deny_budget. apply trip_bind. eapply trip_mono with (Q := λ _ c, c = false).
    { destruct (BudgetErrorHeaders e); [by eapply answers_say|by apply trip_ret]. }
    intros _ c ->. apply trip_bind, answers_behind; [says_all|intros _]. apply deny_with_answers.
Qed.

Lemma chain_loop_answers rq first admission chain : chain ≠ [] →
  answers (chain_loop range_nat decode envelope identity h E gates range_str rq first admission chain) false answered.
Proof.
  revert first admission. induction chain as [|ct chain IH]; intros first admission Hne; [done|]. simpl. clear Hne. destruct (negb _).
  { unfold deny_target. do 2 (apply trip_bind; eapply answers_say; [done|]). apply deny_with_answers. }
  assert (∀ a, answers (try_target range_nat decode envelope identity h E rq first a ct (head chain)
      (chain_loop range_nat decode envelope identity h E gates range_str rq false a chain)) false answered) as Ht.
  { intros a. apply try_target_answers. destruct chain; [intros []; done|]. intros _. by apply IH. }
  unfold with_admission. destruct (if first then None else h_gov h) as [g|]; [|apply Ht].
  apply trip_bind, admission_answers; [|by apply trip_ret]. intros a. apply trip_bind. eapply trip_mono; [apply Ht|].
  intros _ c ->. apply answers_behind; [says_all|done].
Qed.

Lemma dispatch_answers rq chain : chain ≠ [] →
  answers (dispatch range_nat decode envelope identity h E gates range_str rq chain) false answered.
Proof.
  intros Hne. unfold dispatch. cbv zeta. destruct (negb _); [apply deny_decision_answers|]. destruct (h_gov h) as [g|]; [|by apply chain_loop_answers].
  apply trip_bind, admission_answers; [|by apply trip_ret]. intros a. apply trip_bind. eapply trip_mono; [by apply chain_loop_answers|].
  intros _ c ->. apply answers_behind; [says_all|done].
Qed.
End serving.

(** ** From the request to its dispatch

    One walk along [serve] for every property of it: a property that the handler's
    front keeps, that its refusals establish, and that [dispatch] establishes
    from whatever the route allowed. *)

Section front.
Context {L F B A S D P Ch R : Type} `{!LimiterStore L F} `{!BudgetStore B} `{!BudgetAuthority A} `{!SharedAuthority S} `{!EqDecision D} `{!Countable D} `{!ResponsesWire P Ch R}.
Context (range_nat : gmap string nat → list (string * nat)) (decode : string → option json).
Context (envelope : string → option string) (identity : Shared.Principal → option string).
Context (h : Handler) (E : Env P Ch) (gates : Gates) (range_str : gmap string string → list (string * string)).
Context (RequestToCanonical : string → option P) (requested_model : P → string) (wants_stream : P → bool).
Context (StoredReference ValidateConversion : string → bool) (StrictTools : string → option bool).
Context (mask_enabled : string → bool) (redact : string → option string).
Context (Estimate : string → string → Z) (range : gmap string ModelConfig → list (string * ModelConfig)).
Context (RouteRequest : RequestRoutingInput → ST (FullRouter (D := D)) (RequestRoutingResult D * option RequestRoutingError)).
Abbreviation Sv := (Server L F B A S D).
Abbreviation Serve := (serve range_nat decode envelope identity h E gates range_str RequestToCanonical requested_model wants_stream
  StoredReference ValidateConversion StrictTools mask_enabled redact Estimate range RouteRequest).
Abbreviation ServeHTTP_ := (ServeHTTP range_nat decode envelope identity h E gates range_str RequestToCanonical requested_model wants_stream
  StoredReference ValidateConversion StrictTools mask_enabled redact Estimate range RouteRequest).
Abbreviation Dispatching := (dispatch range_nat decode envelope identity h E gates range_str).

(** The generation is well formed. *)
Definition wf_live (sv : Sv) : Prop := topology_wf (r_live (fr_router (sv_router sv))).
Abbreviation Full := (FullRouter (D := D)).

(** *** The route that a request is given *)

(** The model asked for and the one to serve, and the router once a fallback has
    been counted. *)
Definition resolved (rp : Router.Principal) (asked : string) (fr : Full) : option (string * string * Full) :=
  let '(model, source) := ResolveModelSource range (fr_router fr) asked in
  let fr := if bool_decide (source = "") then fr else (on_router (ObserveModelFallback asked model source) fr).2 in
  if Allows gates (fr_router fr) rp model then
    let '(selected, changed) := SubstituteTier gates (fr_router fr) rp model in Some (model, if changed : bool then selected else model, fr)
  else None.
(** The chain of a model within the key's models and the team's regions. *)
Definition chained (rp : Router.Principal) (model : string) (regions : list string) (fr : Full) : option (list ChainTarget * Full) :=
  match on_router (ResolveChain range model) fr with
  | (Err _, _) => None
  | (Ok chain, fr') =>
      let chain := FilterModelAllowed chain (λ m, Allows gates (fr_router fr) rp m) in
      Some (if (0 <? length regions)%nat then FilterRegions chain regions else chain, fr')
  end.
(** What a request asks of the route, on the router that it finds, and the router
    that the route starts from. *)
Definition planned (hq : HTTPRequest) (fr : Full) : option (RequestRoutingInput * Full) :=
  match rq_principal hq, rq_body hq with
  | Some (_, rp), BodyRead raw =>
      parsed ← RequestToCanonical raw;
      if StoredReference raw then None
      else
        '(requested, model, fr) ← resolved rp (requested_model parsed) fr;
        '(chain, fr') ← chained rp model (tm_AllowedRegions (rq_team hq)) fr;
        Some (route_input ValidateConversion StrictTools mask_enabled redact hq rp raw requested model chain (r_live (fr_router fr)), fr')
  | _, _ => None
  end.

Lemma healthy_live all (r : Router) : r_live (healthy all r).2 = r_live r.
Proof.
  revert r. induction all as [|ct all IH]; intros r; simpl; [done|]. unfold mbind, st_mbind, on_brk.
  destruct (Breaker.Allow _ _) as [ok b]. match goal with |- context [healthy all ?x] => specialize (IH x); destruct (healthy all x) end.
  simpl in *. by destruct ok.
Qed.
Lemma ResolveChain_live model (r : Router) : r_live (ResolveChain range model r).2 = r_live r.
Proof.
  unfold ResolveChain, mbind, st_mbind, st_get. destruct (configuredChain _ _ _) as [all|e]; [|done].
  pose proof (healthy_live all r) as Hh. by destruct (healthy all r).
Qed.

Lemma resolved_live rp asked fr requested model fr' : resolved rp asked fr = Some (requested, model, fr') →
  r_live (fr_router fr') = r_live (fr_router fr).
Proof.
  unfold resolved. destruct (ResolveModelSource _ _ _) as [m source]. cbv zeta. destruct (Allows _ _ _ _); [|done].
  destruct (SubstituteTier _ _ _ _) as [selected changed]. intros [= _ _ <-]. by destruct (bool_decide _).
Qed.
Lemma chained_live rp model regions fr chain fr' : chained rp model regions fr = Some (chain, fr') →
  r_live (fr_router fr') = r_live (fr_router fr).
Proof.
  unfold chained, on_router. pose proof (ResolveChain_live model (fr_router fr)) as Hl.
  destruct (ResolveChain range model (fr_router fr)) as [[c|e] r]; [|done]. by intros [= _ <-].
Qed.

(** The plan is the request's own, on the live generation. *)
Lemma planned_request hq fr i fr' : planned hq fr = Some (i, fr') →
  (∃ p, rq_principal hq = Some (p, in_Principal i)) ∧ rq_body hq = BodyRead (in_RawBody i) ∧ in_Protocol i = "responses"
  ∧ in_AllowedRegions i = tm_AllowedRegions (rq_team hq) ∧ in_State i = Some (r_live (fr_router fr))
  ∧ r_live (fr_router fr') = r_live (fr_router fr).
Proof.
  unfold planned. destruct (rq_principal hq) as [[p rp]|]; [|done]. destruct (rq_body hq) as [| |raw]; [done..|].
  destruct (RequestToCanonical raw) as [parsed|]; [|done]. simpl. destruct (StoredReference raw); [done|].
  destruct (resolved _ _ _) as [[[requested model] fr1]|] eqn:Er; [|done]. simpl.
  destruct (chained _ _ _ _) as [[chain fr2]|] eqn:Ec; [|done]. simpl. intros [= <- <-]. apply resolved_live in Er. apply chained_live in Ec.
  simpl. split_and!; try done; [by exists p|by rewrite Er|by rewrite Ec].
Qed.

(** What a dispatch comes from: the plan's route, that succeeded, and the body it
    may send. *)
Record from_route (hq : HTTPRequest) (fr : Full) (rq : Routed (D := D) (P := P)) (o : RequestRoutingResult D) : Prop := {
  fr_routed : ∃ i f o1, planned hq fr = Some (i, f) ∧ (RouteRequest i f).1 = (o1, None) ∧ in_Principal i = ro_rp rq
    ∧ in_RequestedModel i = ro_requested rq
    ∧ o_Chain o = o_Chain o1 ∧ o_State o = o_State o1 ∧ o_AffinityToken o = o_AffinityToken o1 ∧ o_Model o = o_Model o1
    (** The body is the policies' masked one when there is one; else the team's text filter answers for it. *)
    ∧ ∃ body, (if o_MaskRequired o1 then o_SanitizedBody o1 = Some body else body = in_RawBody i)
        ∧ (if (negb (mask_enabled (Shared.pr_Team (ro_p rq))) || rd_Masked (o_Decision o1))%bool then ro_raw rq = body else redact body = Some (ro_raw rq));
  fr_principal : rq_principal hq = Some (ro_p rq, ro_rp rq);
  fr_state : ro_state rq = o_State o;
  fr_parsed : RequestToCanonical (ro_raw rq) = Some (ro_parsed rq);
  fr_compatible : Forall (λ ct, compatibleTarget ValidateConversion StrictTools (ro_raw rq) ct (o_State o) = true) (o_Chain o) }.

Context {G : Type} (I : Sv → G → Prop) (g0 : G) (done_ : G → Prop).
Abbreviation keeps m := (trip I m g0 (λ _ g, g = g0)).

Record front : Prop := {
  ft_header k v : keeps (say (SetHeader k v));
  ft_observed m : keeps (say (Observed m));
  ft_router {X} (m : ST _ X) : keeps (on_full m);
  ft_clock : keeps (on_collector now);
  ft_error status kind message code : trip I (writeError E status kind message code) g0 (λ _, done_);
  ft_refuse (ctx : Ctx D) p model status reason kind message code :
    trip I (_ ← denied identity h E ctx p model status reason; writeError E status kind message code) g0 (λ _, done_) }.

(** The router is known until the request is dispatched. *)
Definition I' (sv : Sv) (g : G * option Full) : Prop := I sv g.1 ∧ ∀ fr, g.2 = Some fr → sv_router sv = fr.

Lemma I'_drop {X} (m : ST Sv X) g k Q : trip I m g (λ x g', Q x (g', None)) → trip I' m (g, k) Q.
Proof.
  intros Hm sv [Hi _]. eapply wp_mono; [by apply Hm|]. intros x sv' (g' & Hi' & HQ). exists (g', None). split; [|done]. by split.
Qed.

Lemma I'_keep {X} (m : ST Sv X) k (Q : X → G * option Full → Prop) :
  keeps m → (∀ sv, sv_router (m sv).2 = sv_router sv) → (∀ x, Q x (g0, k)) → trip I' m (g0, k) Q.
Proof.
  intros Hm Hj HQ sv [Hi Hk]. specialize (Hm sv Hi). unfold wp in *. destruct Hm as (g' & Hi' & ->). exists (g0, k). split; [|by apply HQ].
  split; [done|]. intros fr Ek. rewrite Hj. by apply Hk.
Qed.

Lemma I'_forget {X} (m : ST Sv X) g k Q : trip I' m (g, None) Q → trip I' m (g, k) Q.
Proof. intros Hm sv [Hi _]. apply Hm. by split. Qed.

(** A step of the router. *)
Lemma I'_router (Hf : front) {X} (m : ST Full X) fr (Q : X → G * option Full → Prop) :
  Q (m fr).1 (g0, Some (m fr).2) → trip I' (on_full m) (g0, Some fr) Q.
Proof.
  intros HQ sv [Hi Hk]. specialize (Hk fr eq_refl). pose proof (ft_router Hf m sv Hi) as Hm. unfold wp in *. destruct Hm as (g' & Hi' & ->).
  exists (g0, Some (m fr).2). revert Hi'. unfold on_full. rewrite Hk. destruct (m fr) as [x fr']. simpl in *. intros Hi'. split; [|done].
  split; [done|]. by intros ? [= <-].
Qed.

Abbreviation steps m fr Q := (trip I' (m : ST Sv (result unit _)) (g0, Some fr) Q).
(** A step goes on with what the plan answers, and the router it leaves, or the
    request is over. *)
Definition as_planned {X} (Q : X → Full → Prop) (r : result unit X) (g : G * option Full) : Prop :=
  match r with Ok x => ∃ fr, g = (g0, Some fr) ∧ Q x fr | Err _ => done_ g.1 end.

Context (Hf : front).

Lemma refuse_front {X} (ctx : Ctx D) p model status reason kind message code k (Q : result unit X → G * option Full → Prop) :
  (∀ g, done_ g.1 → Q (Err tt) g) →
  trip I' (refuse identity h E ctx p model status reason (writeError E status kind message code)) (g0, k) Q.
Proof.
  intros HQ. unfold refuse. apply I'_drop. intros sv Hi. pose proof (ft_refuse Hf ctx p model status reason kind message code sv Hi) as H.
  unfold wp, do_, ste_lift, early, mbind, st_mbind, ste_mbind in *. destruct (denied _ _ _ _ _ _ _ _ sv) as [[] sv1]. cbn [fst snd] in *.
  destruct (writeError _ _ _ _ _ sv1) as [[] sv2]. destruct H as (g' & Hi' & Hd). cbn [fst snd] in *. exists g'. split; [done|]. by apply HQ.
Qed.

Lemma answer_front {X} status kind message code k (Q : result unit X → G * option Full → Prop) :
  (∀ g, done_ g.1 → Q (Err tt) g) → trip I' (answer_only (writeError E status kind message code)) (g0, k) Q.
Proof.
  intros HQ. unfold answer_only. apply tripe_bind, tripe_lift, I'_drop. eapply trip_mono; [apply (ft_error Hf)|].
  intros [] g Hd. by apply tripe_early, HQ.
Qed.

Lemma header_front {k} key v (Q : unit → G * option Full → Prop) : Q tt (g0, k) → trip I' (say (SetHeader key v)) (g0, k) Q.
Proof. intros HQ. apply I'_keep; [apply (ft_header Hf)|done|by intros []]. Qed.
Lemma observed_front {k} m (Q : unit → G * option Full → Prop) : Q tt (g0, k) → trip I' (say (Observed m)) (g0, k) Q.
Proof. intros HQ. apply I'_keep; [apply (ft_observed Hf)|done|by intros []]. Qed.

(** Reading the router. *)
Lemma read_front fr (Q : Router → G * option Full → Prop) : Q (fr_router fr) (g0, Some fr) →
  trip I' (λ sv, (fr_router (sv_router sv), sv)) (g0, Some fr) Q.
Proof. intros HQ sv [Hi Hk]. exists (g0, Some fr). split; [by split|]. cbn [fst]. by rewrite (Hk fr eq_refl). Qed.

Lemma Observe_front {k} (ctx : Ctx D) team o (Q : Ctx D → G * option Full → Prop) : (∀ ctx, Q ctx (g0, k)) → trip I' (Observe ctx team o) (g0, k) Q.
Proof.
  intros HQ. unfold Observe. cbv zeta. destruct (negb _); [by apply trip_ret|].
  apply trip_bind, observed_front, trip_bind, header_front, trip_bind. destruct (shows_model _); [apply header_front|apply trip_ret]; by apply trip_ret.
Qed.

Lemma resolve_model_front p rp asked (ctx : Ctx D) fr :
  steps (resolve_model identity h E gates range p rp asked ctx) fr (as_planned (λ x fr', resolved rp asked fr = Some (x.1.1, x.1.2, fr'))).
Proof.
  unfold resolve_model, resolved. apply tripe_bind, tripe_lift, read_front. destruct (ResolveModelSource range (fr_router fr) asked) as [model source].
  cbv zeta. set (fr1 := if bool_decide (source = "") then fr else _).
  apply tripe_bind. eapply trip_mono with (Q := as_planned (λ _ fr', fr' = fr1)).
  { unfold fr1. destruct (bool_decide _); [by apply tripe_ret; exists fr|]. apply tripe_bind, tripe_lift, header_front. apply tripe_bind, tripe_lift.
    apply (I'_router Hf). apply tripe_ret. by eexists. }
  intros [ctx'|[]] g; [|done]. intros (fr' & -> & ->). apply tripe_bind, tripe_lift, read_front.
  destruct (Allows gates (fr_router fr1) rp model); cbn [negb]; [|by apply refuse_front].
  destruct (SubstituteTier _ _ _ _) as [selected changed]. destruct changed; [|by apply tripe_ret; exists fr1].
  apply tripe_bind, tripe_lift, observed_front. apply tripe_bind, tripe_lift, header_front. apply tripe_ret. by exists fr1.
Qed.

Lemma resolve_chain_front p rp (ctx : Ctx D) model team fr :
  steps (resolve_chain identity h E gates range p rp ctx model team) fr
    (as_planned (λ x fr', chained rp model (tm_AllowedRegions team) fr = Some (x.1, fr') ∧ x.2 = r_live (fr_router fr))).
Proof.
  unfold resolve_chain, chained. apply tripe_bind, tripe_lift, read_front. apply tripe_bind, tripe_lift, (I'_router Hf).
  destruct (on_router _ fr) as [[chain|e] fr']; cbn [fst snd]; [by apply tripe_ret; exists fr'|by apply refuse_front].
Qed.

(** After the route, the router is of no more account. *)
Definition after {X} (Q : X → Prop) (r : result unit X) (g : G * option Full) : Prop :=
  match r with Ok x => g = (g0, None) ∧ Q x | Err _ => done_ g.1 end.
Abbreviation later m Q := (trip I' (m : ST Sv (result unit _)) (g0, None) Q).

Lemma deny_route_front (ctx : Ctx D) p model raw chain st o (Q : unit → Prop) :
  later (deny_route identity h E ValidateConversion StrictTools ctx p model raw chain st o) (after Q).
Proof.
  unfold deny_route. apply tripe_bind, tripe_lift, Observe_front. intros ctx'. cbv zeta. destruct (bool_decide _); [by apply refuse_front|].
  by destruct (negb _ && _ && _)%bool; apply refuse_front.
Qed.

Lemma masked_body_front (ctx : Ctx D) p (o : RequestRoutingResult D) raw parsed : RequestToCanonical raw = Some parsed →
  later (masked_body identity h E RequestToCanonical ctx p o raw parsed)
    (after (λ r, RequestToCanonical r.1 = Some r.2 ∧ if o_MaskRequired o then o_SanitizedBody o = Some r.1 else r.1 = raw)).
Proof.
  intros Hp. unfold masked_body. destruct (o_MaskRequired o); cbn [negb]; [|by apply tripe_ret].
  destruct (o_SanitizedBody o) as [body|]; [|by apply refuse_front]. destruct (RequestToCanonical body) eqn:Eb; [|by apply refuse_front].
  case_bool_decide; [by apply refuse_front|]. by apply tripe_ret.
Qed.

Definition same_route (o o' : RequestRoutingResult D) : Prop :=
  o_Chain o' = o_Chain o ∧ o_State o' = o_State o ∧ o_AffinityToken o' = o_AffinityToken o ∧ o_Model o' = o_Model o.

Lemma legacy_masked_front (ctx : Ctx D) p (o : RequestRoutingResult D) raw parsed : RequestToCanonical raw = Some parsed →
  later (legacy_masked identity h E RequestToCanonical mask_enabled redact ctx p o raw parsed)
    (after (λ r, RequestToCanonical r.1.1 = Some r.1.2 ∧ same_route o r.2
       ∧ if (negb (mask_enabled (Shared.pr_Team p)) || rd_Masked (o_Decision o))%bool then r.1.1 = raw else redact raw = Some r.1.1)).
Proof.
  intros Hp. unfold legacy_masked. destruct (_ || _)%bool eqn:Em; [apply tripe_ret; by repeat split|].
  destruct (redact raw) as [body|]; simpl; [destruct (RequestToCanonical body) as [parsed'|] eqn:Eb; simpl|].
  - apply tripe_ret. split; [done|]. split; [done|]. split; [|done]. simpl.
    destruct (bool_decide _); cbn [negb andb]; [|case_match]; by repeat split.
  - apply tripe_bind, tripe_lift, Observe_front. intros ctx'. by apply refuse_front.
  - apply tripe_bind, tripe_lift, Observe_front. intros ctx'. by apply refuse_front.
Qed.

Lemma checked_route_front (ctx : Ctx D) p (o : RequestRoutingResult D) raw :
  later (checked_route identity h E ValidateConversion StrictTools Estimate ctx p o raw)
    (after (λ _, Forall (λ ct, compatibleTarget ValidateConversion StrictTools raw ct (o_State o) = true) (o_Chain o))).
Proof.
  unfold checked_route. destruct (existsb _ _) eqn:Ex; [by apply refuse_front|]. cbv zeta.
  destruct (_ && _)%bool; [by apply refuse_front|]. apply tripe_ret. split; [done|].
  apply existsb_Forall in Ex. eapply Forall_impl; [exact Ex|]. intros ct. by intros ?%negb_false_iff.
Qed.

Context (hq : HTTPRequest) (fr0 : Full).
Context (Hd : ∀ rq o, from_route hq fr0 rq o → trip I (Dispatching rq (o_Chain o)) g0 (λ _, done_)).

Lemma serve_parsed_front p rp raw parsed start :
  rq_principal hq = Some (p, rp) → rq_body hq = BodyRead raw → RequestToCanonical raw = Some parsed →
  trip I' (serve_parsed range_nat decode envelope identity h E gates range_str RequestToCanonical requested_model wants_stream
    StoredReference ValidateConversion StrictTools mask_enabled redact Estimate range RouteRequest hq p rp raw parsed start
    : ST Sv (result unit unit)) (g0, Some fr0) (λ _ g, done_ g.1).
Proof.
  intros Hp Hb Hc. unfold serve_parsed. cbv zeta. apply tripe_bind.
  eapply trip_mono with (Q := as_planned (λ _ fr, fr = fr0 ∧ StoredReference raw = false)).
  { destruct (StoredReference raw); [by apply refuse_front|by apply tripe_ret; exists fr0]. }
  intros [[]|[]] g; [|done]. intros (fr & -> & -> & Hsr). apply tripe_bind. eapply trip_mono; [apply resolve_model_front|].
  intros [[[requested model] ctx]|[]] g; [|done]. intros (fr1 & -> & Er). apply tripe_bind. eapply trip_mono; [apply resolve_chain_front|].
  intros [[chain st]|[]] g; [|done]. intros (fr2 & -> & Ec & Est). cbn [fst snd] in *. subst st. apply tripe_bind, tripe_lift.
  set (i := route_input _ _ _ _ _ _ _ _ _ _ _).
  assert (planned hq fr0 = Some (i, fr2)) as Hplan.
  { unfold planned. rewrite Hp, Hb, Hc. simpl. rewrite Hsr, Er. simpl. by rewrite Ec. }
  apply (I'_router Hf). destruct (RouteRequest i fr2) as [[o err] fr3] eqn:Hrun. cbn [fst snd].
  apply I'_forget. destruct err as [e|]; cbn [is_Some_b].
  { eapply trip_mono; [apply deny_route_front with (Q := λ _, False)|]. intros [[]|[]] g1; [|done]. by intros []. }
  apply tripe_bind. eapply trip_mono; [by apply masked_body_front|]. intros [[raw1 parsed1]|[]] g; [|done]. intros [-> [Hc1 Hb1]]. cbn [fst snd] in *.
  apply tripe_bind. eapply trip_mono; [by apply legacy_masked_front|]. intros [[[raw2 parsed2] o2]|[]] g; [|done].
  intros [-> (Hc2 & (E1 & E2 & E3 & E4) & Hb2)]. cbn [fst snd] in *.
  apply tripe_bind, tripe_lift, Observe_front. intros ctx2. apply tripe_bind. eapply trip_mono; [apply checked_route_front|].
  intros [estimate|[]] g; [|done]. intros [-> Hcompat]. apply tripe_lift, I'_drop. apply Hd. split; simpl; try done.
  exists i, fr2, o. rewrite Hrun. repeat split; try done. by exists raw1.
Qed.

(** The whole handler. *)
Lemma serve_front : ∀ sv, I sv g0 → sv_router sv = fr0 → ∃ g, I (ServeHTTP_ hq sv).2 g ∧ done_ g.
Proof.
  intros sv Hi Hfr.
  assert (trip I' (Serve hq : ST Sv (result unit unit)) (g0, Some fr0) (λ _ g, done_ g.1)) as Ht.
  { unfold serve. destruct (rq_principal hq) as [[p rp]|] eqn:Ep; [|by apply answer_front].
    apply tripe_bind, tripe_lift. apply I'_keep; [apply (ft_clock Hf)|intros sv0; unfold on_collector; by destruct (now _)|].
    intros start. apply tripe_bind. unfold read_body. destruct (rq_body hq) as [| |raw] eqn:Eb; [by apply answer_front|by apply answer_front|].
    apply tripe_ret. destruct (RequestToCanonical raw) as [parsed|] eqn:Ec; [|by apply answer_front]. by apply serve_parsed_front. }
  destruct (Ht sv) as (g & [Hi' _] & Hg); [split; [done|]; by intros ? [= <-]|]. exists g.1. by split.
Qed.
End front.

(** ** The calls of providers *)

Definition call_of (a : Act) : option (ChainTarget * string) := match a with Dispatch _ ct body _ => Some (ct, body) | _ => None end.
Definition calls (tr : list Act) : list (ChainTarget * string) := omap call_of tr.

Definition uncalled (a : Act) : bool := negb (is_Some_b (call_of a)).

Lemma calls_uncalled l : forallb uncalled l = true → calls l = [].
Proof. induction l as [|a l IH]; simpl; [done|]. intros [Ha Hl]%andb_true_iff. unfold uncalled in Ha. rewrite IH by done. by destruct (call_of a). Qed.

Section calling.
Context {L F B A S D P Ch R : Type} `{!LimiterStore L F} `{!BudgetStore B} `{!BudgetAuthority A} `{!SharedAuthority S} `{!EqDecision D} `{!Countable D} `{!ResponsesWire P Ch R}.
Context (range_nat : gmap string nat → list (string * nat)) (decode : string → option json).
Context (envelope : string → option string) (identity : Shared.Principal → option string).
Context (h : Handler) (E : Env P Ch) (gates : Gates) (range_str : gmap string string → list (string * string)).
Abbreviation Sv := (Server L F B A S D).
Abbreviation Attempt := (attempt D P).

Lemma says_tebind ok {T X Y} (m : STE Sv T X) (f : X → STE Sv T Y) :
  says ok (m : ST Sv (result T X)) → (∀ x, says ok (f x : ST Sv (result T Y))) → says ok (m ≫= f : ST Sv (result T Y)).
Proof.
  intros Hm Hf sv. destruct (Hm sv) as (l & El & Hl). unfold mbind, ste_mbind. destruct (m sv) as [[x|e] sv1]; [|by exists l].
  destruct (Hf x sv1) as (k & Ek & Hk). exists (l ++ k). simpl in El. rewrite Ek, El, app_assoc, forallb_app, Hl, Hk. done.
Qed.
Lemma says_telift ok {T X} (m : ST Sv X) : says ok m → says ok (ste_lift m : ST Sv (result T X)).
Proof. intros Hm sv. destruct (Hm sv) as (l & El & Hl). exists l. unfold ste_lift. by destruct (m sv). Qed.
Lemma says_teret ok {T X} (x : X) : says ok (mret x : STE Sv T X).
Proof. intros sv. exists []. by rewrite app_nil_r. Qed.
Lemma says_early ok {T X} (e : T) : says ok (early e : STE Sv T X).
Proof. intros sv. exists []. by rewrite app_nil_r. Qed.
#[local] Hint Resolve says_tebind says_telift says_teret says_early : says.

Lemma says_uncalled {X} (m : ST Sv X) : says behind m → says uncalled m.
Proof. intros Hm. eapply says_weaken; [exact Hm|]. by intros []. Qed.
#[local] Hint Resolve says_uncalled : says.

Lemma write_uncalled p : says uncalled (write E p : ST Sv bool).
Proof. unfold write. says_all. Qed.
#[local] Hint Resolve write_uncalled : says.
Lemma writeError_uncalled status kind message code : says uncalled (writeError E status kind message code : ST Sv unit).
Proof. unfold writeError. says_all. Qed.
#[local] Hint Resolve writeError_uncalled : says.
Lemma writeCoded_uncalled status message code : says uncalled (writeCodedError E status message code : ST Sv unit).
Proof. apply writeError_uncalled. Qed.
#[local] Hint Resolve writeCoded_uncalled : says.

Lemma failed_call_uncalled (a : Attempt) last err code message : says uncalled (failed_call identity h E a last err code message).
Proof. unfold failed_call. cbv zeta. says_all. Qed.

Lemma complete_response_uncalled (a : Attempt) last resp : says uncalled (complete_response envelope identity h E a last resp).
Proof. unfold complete_response, refused_response, unusable, accepted_response. cbv zeta. says_all. Qed.

Lemma commit_uncalled (a : Attempt) (s : Streaming R) : says uncalled (commit a s : ST Sv _).
Proof. unfold commit. says_all. Qed.
#[local] Hint Resolve commit_uncalled : says.

Lemma fail_uncalled (a : Attempt) last (s : Streaming R) cause : says uncalled (fail envelope identity h E a last s cause).
Proof. unfold fail, fail_committed, fail_uncommitted. cbv zeta. says_all. Qed.
Lemma failing_uncalled {X} (a : Attempt) last (s : Streaming R) cause : says uncalled (failing (X := X) envelope identity h E a last s cause).
Proof. unfold failing. apply says_tebind; [apply says_telift, fail_uncalled|]. eauto with says. Qed.
#[local] Hint Resolve failing_uncalled : says.

Lemma emit_bytes_uncalled (a : Attempt) last (s : Streaming R) p : says uncalled (emit_bytes envelope identity h E a last s p).
Proof. unfold emit_bytes. do 2 (apply says_tebind; [apply says_telift; eauto with says|intros ?]). case_match; eauto with says. Qed.
#[local] Hint Resolve emit_bytes_uncalled : says.

Lemma flush_uncalled : says uncalled (flush : STE Sv bool unit).
Proof. apply says_telift. eauto with says. Qed.
#[local] Hint Resolve flush_uncalled : says.

Lemma emit_events_uncalled (a : Attempt) last events (s : Streaming R) : says uncalled (emit_events envelope identity h E a last s events).
Proof. revert s. induction events as [|e events IH]; intros s; simpl; eauto with says. Qed.
#[local] Hint Resolve emit_events_uncalled : says.

Lemma stream_event_uncalled (a : Attempt) last (s : Streaming R) e : says uncalled (stream_event envelope identity h E a last s e).
Proof.
  unfold stream_event. cbv zeta. set (s1 := observe_chunk _ s). destruct (is_Some_b _); [eauto with says|]. destruct (native _).
  - case_bool_decide; [eauto with says|]. apply says_tebind; [eauto with says|intros s2]. apply says_tebind; eauto with says.
  - destruct (se_Chunk e) as [c|]; [|eauto with says]. destruct (Convert c (st_renderer s1)) as [[events|] r]; [|eauto with says].
    apply says_tebind; [eauto with says|intros s2]. apply says_tebind; [case_match; eauto with says|eauto with says].
Qed.

Lemma stream_loop_uncalled (a : Attempt) last seq (s : Streaming R) : says uncalled (stream_loop envelope identity h E a last s seq).
Proof.
  revert s. induction seq as [|[[e|]|e] seq IH]; intros s; simpl; eauto with says.
  apply says_tebind; [apply stream_event_uncalled|done].
Qed.

Lemma stream_end_uncalled (a : Attempt) last (s : Streaming R) : says uncalled (stream_end envelope identity h E a last s).
Proof.
  unfold stream_end. destruct (st_conversion s); [eauto with says|]. set (finished := if native _ then _ else _).
  destruct finished; [|eauto with says]. destruct (_ || _ || _)%bool; [eauto with says|]. destruct (negb _); [eauto with says|].
  repeat (apply says_tebind; [apply says_telift; says_all|intros ?]). apply says_teret.
Qed.

Definition sent (sv : Sv) (l : list (ChainTarget * string)) : Prop := calls (sv_trace sv) = l.
Abbreviation calling := (trip sent).

Lemma calling_uncalled {X} (m : ST Sv X) l (Q : X → list _ → Prop) : says uncalled m → (∀ x, Q x l) → calling m l Q.
Proof.
  intros Hm HQ sv Hi. destruct (Hm sv) as (k & Ek & Hk). exists l. split; [|done]. unfold sent, calls in *.
  rewrite Ek, omap_app, Hi. change (omap call_of k) with (calls k). by rewrite calls_uncalled, app_nil_r.
Qed.

Definition called (a : Attempt) : ChainTarget * string := (ra_target a, px_RawBody (ra_proxy a)).

Lemma calling_call streamed (a : Attempt) l (Q : nat → list _ → Prop) : (∀ n, Q n (l ++ [called a])) → calling (call streamed a : ST Sv nat) l Q.
Proof.
  intros HQ. unfold call. do 2 (apply trip_bind, calling_uncalled; [says_all|intros ?]). apply trip_bind.
  intros sv Hi. exists (l ++ [called a]). split; [|by apply trip_ret]. unfold sent, calls in *. simpl. by rewrite omap_app, Hi.
Qed.

(** One call; none only when the stream cannot be served. *)
Definition one_call (a : Attempt) (l : list (ChainTarget * string)) (retry : bool) (l' : list (ChainTarget * string)) : Prop :=
  l' = l ++ [called a] ∨ l' = l ∧ retry = false.

Lemma complete_calling (a : Attempt) last l : calling (complete envelope identity h E a last) l (one_call a l).
Proof.
  unfold complete. apply trip_bind, calling_call. intros n. destruct (en_complete E n _ _) as [[resp|] [err|]];
    (apply calling_uncalled; [first [apply complete_response_uncalled | apply failed_call_uncalled]|by left]).
Qed.

Lemma stream_calling (a : Attempt) last l : calling (stream envelope identity h E a last) l (one_call a l).
Proof.
  unfold stream. destruct (negb _).
  { do 2 (apply trip_bind, calling_uncalled; [says_all|intros _]). apply trip_ret. by right. }
  apply trip_bind, calling_call. intros n. destruct (en_stream E n _ _) as [[seq|] [err|]];
    try (apply calling_uncalled; [apply failed_call_uncalled|by left]).
  apply trip_bind, calling_uncalled; [|intros r; apply trip_ret; by left].
  apply says_tebind; [apply stream_loop_uncalled|intros s]. apply stream_end_uncalled.
Qed.

(** The calls that a request plans, up to a target whose dialect cannot carry it. *)
Fixpoint plan (rq : Routed (D := D) (P := P)) (chain : list ChainTarget) : list (ChainTarget * string) :=
  match chain with
  | [] => []
  | ct :: chain => match proxy_of rq ct with Some pr => (ct, px_RawBody pr) :: plan rq chain | None => [] end
  end.
Definition follows (l k l' : list (ChainTarget * string)) : Prop := ∃ n, l' = l ++ take n k.

Lemma follows_none l k : follows l k l.
Proof. exists 0%nat. by rewrite app_nil_r. Qed.

Lemma deny_with_uncalled rq status reason kind message : says uncalled (deny_with identity h E rq status reason kind message : ST Sv unit).
Proof. unfold deny_with. says_all. Qed.
#[local] Hint Resolve deny_with_uncalled : says.
Lemma deny_decision_uncalled rq d kind : says uncalled (deny_decision identity h E rq d kind : ST Sv unit).
Proof. unfold deny_decision. says_all. Qed.
#[local] Hint Resolve deny_decision_uncalled : says.
Lemma admission_uncalled rq g : says uncalled (admission_of identity h E rq g : ST Sv (result unit (option nat))).
Proof.
  unfold admission_of. apply says_tebind; [apply says_telift; says_all|intros d]. destruct (d_Allowed d); [eauto with says|].
  apply says_tebind; [apply says_telift; says_all|eauto with says].
Qed.
Lemma finish_budget_uncalled budget : says uncalled (finish_budget budget : ST Sv unit).
Proof. unfold finish_budget. says_all. Qed.
#[local] Hint Resolve finish_budget_uncalled : says.

Lemma proxy_plan rq ct pr chain : proxy_of rq ct = Some pr → plan rq (ct :: chain) = (ct, px_RawBody pr) :: plan rq chain.
Proof. intros Hp. simpl. by rewrite Hp. Qed.

Lemma try_target_calling rq first admission ct next rest chain l :
  (∀ l, calling rest l (λ _, follows l (plan rq chain))) →
  calling (try_target range_nat decode envelope identity h E rq first admission ct next rest) l (λ _, follows l (plan rq (ct :: chain))).
Proof.
  intros Hrest. unfold try_target. destruct (proxy_of rq ct) as [pr|] eqn:Ep.
  2: { apply calling_uncalled; [says_all|]. intros _. apply follows_none. }
  apply trip_bind, calling_uncalled; [unfold fallback_headers; says_all|intros _]. apply trip_bind, calling_uncalled; [says_all|intros r].
  destruct r as [budget|e].
  2: { apply calling_uncalled; [unfold deny_budget; says_all|]. intros _. apply follows_none. }
  rewrite (proxy_plan _ _ _ _ Ep). set (a := attempt_of _ _ _ _ _). apply trip_bind. unfold run_attempt.
  apply trip_bind, calling_uncalled; [says_all|intros _]. apply trip_bind. eapply trip_mono with (Q := one_call a l).
  { destruct (ro_stream rq); [apply stream_calling|apply complete_calling]. }
  intros retry l1 H1. apply trip_bind, calling_uncalled; [says_all|intros _]. apply trip_ret. apply trip_bind.
  eapply trip_mono with (Q := λ _, follows l ((ct, px_RawBody pr) :: plan rq chain)).
  - destruct retry.
    + destruct H1 as [->|[_ ?]]; [|done]. do 3 (apply trip_bind, calling_uncalled; [says_all|intros _]).
      eapply trip_mono; [apply Hrest|]. intros [] l2 (n & ->). exists (Datatypes.S n). by rewrite <- app_assoc.
    + apply trip_ret. destruct H1 as [->|[-> _]]; [by exists 1%nat|apply follows_none].
  - intros [] l2 Hl. by apply calling_uncalled; [says_all|].
Qed.

Lemma chain_loop_calling rq chain first admission l :
  calling (chain_loop range_nat decode envelope identity h E gates range_str rq first admission chain) l (λ _, follows l (plan rq chain)).
Proof.
  revert first admission l. induction chain as [|ct chain IH]; intros first admission l; simpl; [apply trip_ret, follows_none|].
  destruct (negb _).
  { apply calling_uncalled; [unfold deny_target; says_all|]. intros _. apply follows_none. }
  unfold with_admission. destruct (if first then None else h_gov h) as [g|]; [|apply try_target_calling; auto].
  apply trip_bind, calling_uncalled; [apply admission_uncalled|]. intros [a|[]]; [|apply trip_ret, follows_none].
  apply trip_bind. eapply trip_mono; [apply try_target_calling; auto|]. intros [] l' Hl. by apply calling_uncalled; [says_all|].
Qed.

Lemma dispatch_calling rq chain l : calling (dispatch range_nat decode envelope identity h E gates range_str rq chain) l (λ _, follows l (plan rq chain)).
Proof.
  unfold dispatch. cbv zeta. destruct (negb _); [apply calling_uncalled; [says_all|]; intros _; apply follows_none|].
  destruct (h_gov h) as [g|]; [|apply chain_loop_calling].
  apply trip_bind, calling_uncalled; [apply admission_uncalled|]. intros [a|[]]; [|apply trip_ret, follows_none].
  apply trip_bind. eapply trip_mono; [apply chain_loop_calling|]. intros [] l' Hl. by apply calling_uncalled; [says_all|].
Qed.
End calling.
