(* ===== verification/ResponsesAudit.v ===== *)
(** * What the audit trail says of a request

    Every provider call of a request lies between the record that announces it and
    the record that completes it, and every terminal record lists the calls made
    so far, each with how it ended: a status that the environment's answer to
    that very call justifies, the same in every record. *)

From S2P Require Import Prelude GoTime GoFloat Json Usage Pricing Budget Limiter Denial Governor LocalMoney Governance Live Router Boundary Affinity RequestRouting Shared Settlement Evidence Exchange Responses ResponsesSafety.

(** ** The trail *)

Inductive Phase := Idle | Announced | Calling.

#[export] Instance Phase_eq_dec : EqDecision Phase.
Proof. solve_decision. Defined.

(** A record closes a call, announces one, or is a denial between calls. *)
Definition record_step (ph : Phase) (r : Record_) : option Phase :=
  if bool_decide (rec_Event r = request_completed) then if negb (bool_decide (ph = Idle)) then Some Idle else None
  else if bool_decide (ph = Idle) then Some (if is_Some_b (rec_Outcome r) then Idle else Announced) else None.

Definition trail_step (s : option Phase) (a : Act) : option Phase :=
  match s with
  | None => None
  | Some ph =>
      match a with
      | Appended r => record_step ph r
      | Dispatch _ _ _ _ => if bool_decide (ph = Announced) then Some Calling else None
      | _ => Some ph
      end
  end.
(** [None]: a call or a record out of place. *)
Definition trail (tr : list Act) : option Phase := foldl trail_step (Some Idle) tr.

Lemma trail_snoc tr a : trail (tr ++ [a]) = trail_step (trail tr) a.
Proof. unfold trail. by rewrite foldl_app. Qed.

(** *** The calls *)

(** A call: whether it streams, its target, the body sent and its instant. *)
Definition Dispatched : Type := bool * ChainTarget * string * nat.
Definition dispatch_of (a : Act) : option Dispatched := match a with Dispatch streamed ct body n => Some (streamed, ct, body, n) | _ => None end.
Definition dispatches (tr : list Act) : list Dispatched := omap dispatch_of tr.
Definition dispatched_name (d : Dispatched) : string * string := (ct_ProviderName d.1.1.2, ct_Model d.1.1.2).

Lemma dispatches_snoc tr a : dispatches (tr ++ [a]) = dispatches tr ++ (match dispatch_of a with Some d => [d] | None => [] end).
Proof. unfold dispatches. rewrite omap_app. simpl. by destruct (dispatch_of a). Qed.

(** Every terminal record lists the calls before it, each with its status. *)
Definition accounts (tr : list Act) (ends : list string) : Prop := ∀ before r after,
  tr = before ++ Appended r :: after → terminalRecord r = true →
  (length (dispatches before) <= length ends)%nat
  ∧ map tale (rec_Attempts r) = boundedAttempts (zip (map dispatched_name (dispatches before)) ends).

Lemma accounts_snoc tr ends a : accounts tr ends →
  (∀ r, a = Appended r → terminalRecord r = true → (length (dispatches tr) <= length ends)%nat
     ∧ map tale (rec_Attempts r) = boundedAttempts (zip (map dispatched_name (dispatches tr)) ends)) →
  accounts (tr ++ [a]) ends.
Proof.
  intros Hacc Ha before r after. destruct after as [|x after _] using rev_ind.
  - intros [-> ->]%app_inj_tail Ht. by apply Ha.
  - rewrite app_comm_cons, app_assoc. intros [-> ->]%app_inj_tail. by apply Hacc with (after := after).
Qed.

Lemma zip_more {X Y} (l : list X) (k k' : list Y) : (length l <= length k)%nat → zip l (k ++ k') = zip l k.
Proof. revert k. induction l as [|x l IH]; intros [|y k]; simpl; try done; [lia|]. intros Hl. by rewrite IH by lia. Qed.
Lemma accounts_more tr ends k : accounts tr ends → accounts tr (ends ++ k).
Proof.
  intros Hacc before r after E Ht. destruct (Hacc before r after E Ht) as [Hl Hr]. rewrite length_app. split; [lia|].
  by rewrite zip_more by by rewrite length_map.
Qed.

(** ** How a call ends

    By what the provider answers, and what is read of the request's context. *)

Section verdicts.
Context {P Ch R : Type} `{!ResponsesWire P Ch R} (E : Env P Ch).

(** No answer: canceled, timed out or failed. *)
Definition failed_as (err : option error) (status : string) : Prop := ∃ m, status = failed_status (en_ctx E m) err.

(** A 2xx answer that the client can be given. *)
Definition usable (ct : ChainTarget) (px : ProxyRequest P) (resp : ProxyResponse Ch) : bool :=
  match rs_Parsed resp with
  | Some parsed =>
      match cr_Usage parsed, (if native ct then Some (rs_RawBody resp) else CanonicalToResponseForRequest parsed (px_Parsed px)) with
      | Some _, Some body => negb (bool_decide (body = ""))
      | _, _ => false
      end
  | None => false
  end.

(** An answer of the provider: it is ok when it can be given; otherwise its own
    status says how it ended, unless the client went away before a retry. *)
Definition told_response (ct : ChainTarget) (px : ProxyRequest P) (resp : ProxyResponse Ch) (status : string) : Prop :=
  let code := rs_StatusCode resp in
  if ok_status code then status = if usable ct px resp then AttemptOK else AttemptUpstreamError
  else status = AttemptStatusForHTTP code
       ∨ retryStatus code = true ∧ status = AttemptCanceled ∧ ∃ m, en_ctx E m = Some CtxCanceled.

Definition chunk_is (kind : string) (r : result error (option (StreamEvent Ch))) : bool :=
  match r with Ok (Some e) => match se_Chunk e with Some c => bool_decide (ck_Type c = kind) | None => false end | _ => false end.
Definition readable (r : result error (option (StreamEvent Ch))) : bool := match r with Ok _ => true | Err _ => false end.
(** A stream read to its end: its last message came, and no error. *)
Definition whole (seq : list (result error (option (StreamEvent Ch)))) : bool :=
  (forallb readable seq && existsb (chunk_is "message_stop") seq && negb (existsb (chunk_is "error") seq))%bool.

(** What its events report, and whether one has bytes for the client. *)
Definition reported_next (u : option Usage.Usage) (r : result error (option (StreamEvent Ch))) : option Usage.Usage :=
  match r with Ok (Some e) => match se_Chunk e with Some c => usage_of_chunk c u | None => u end | _ => u end.
Definition reported (seq : list (result error (option (StreamEvent Ch)))) : option Usage.Usage := foldl reported_next None seq.
Definition has_bytes (r : result error (option (StreamEvent Ch))) : bool :=
  match r with Ok (Some e) => negb (bool_decide (se_Raw e = "")) | _ => false end.

(** A stream that the client got: whole, with its usage, and bytes if it passes through. *)
Definition served_whole (ct : ChainTarget) (seq : list (result error (option (StreamEvent Ch)))) : Prop :=
  whole seq = true ∧ is_Some (reported seq) ∧ (native ct = true → existsb has_bytes seq = true).

(** What breaks a stream: an error of its sequence, an end before its time or
    without bytes, no usage, a translation that is refused or cut, or the client. *)
Definition broken (ct : ChainTarget) (seq : list (result error (option (StreamEvent Ch)))) (cause : error) : Prop :=
  (∃ e, Err e ∈ seq ∧ cause = read_error e)
  ∨ cause = sentinel errStreamIncomplete ∧ (native ct = true → (whole seq && existsb has_bytes seq)%bool = false)
  ∨ cause = sentinel errUsageMissing ∧ (native ct = true → reported seq = None)
  ∨ native ct = false ∧ cause = sentinel errResponseIncompatible
  ∨ cause = sentinel errClientWriteFailed ∧ ∃ m, en_write E m = false.

Definition cut_as (cause : error) (status : string) : Prop :=
  ∃ m, status = if canceled (en_ctx E m) (Some cause) then AttemptCanceled else AttemptStreamFailed.
Definition told_stream (ct : ChainTarget) (seq : list (result error (option (StreamEvent Ch)))) (status : string) : Prop :=
  served_whole ct seq ∧ status = AttemptOK ∨ ∃ cause, broken ct seq cause ∧ (cut_as cause status ∨ failed_as (Some cause) status).

(** What the answer to a call lets be told of it. *)
Definition verdict (d : Dispatched) (status : string) : Prop :=
  let '(streamed, ct, body, n) := d in
  ∃ px, px_RawBody px = body
    ∧ if streamed : bool then
        match en_stream E n ct px with (Some seq, None) => told_stream ct seq status | (_, err) => failed_as err status end
      else
        match en_complete E n ct px with (Some resp, None) => told_response ct px resp status | (_, err) => failed_as err status end.

Ltac in_statuses := unfold attempt_statuses; set_solver.

Lemma verdict_status d status : verdict d status → status ∈ attempt_statuses.
Proof.
  assert (∀ err, failed_as err status → status ∈ attempt_statuses) as Hf.
  { intros err [m ->]. unfold failed_status. repeat case_match; in_statuses. }
  destruct d as [[[streamed ct] body] n]. intros (px & _ & Hv). destruct streamed.
  - destruct (en_stream E n ct px) as [[seq|] [err|]]; eauto. destruct Hv as [[_ ->]|(cause & _ & [[m ->]|Hc])]; [in_statuses| |by eapply Hf].
    case_match; in_statuses.
  - destruct (en_complete E n ct px) as [[resp|] [err|]]; eauto. unfold told_response, AttemptStatusForHTTP in Hv.
    destruct (ok_status _); [subst; case_match; in_statuses|]. destruct Hv as [->|(_ & -> & _)]; [repeat case_match; in_statuses|in_statuses].
Qed.
End verdicts.

Section audit.
Context {L F B A S D P Ch R : Type} `{!LimiterStore L F} `{!BudgetStore B} `{!BudgetAuthority A} `{!SharedAuthority S} `{!EqDecision D} `{!Countable D} `{!ResponsesWire P Ch R}.
Context (E : Env P Ch).
Abbreviation Sv := (Server L F B A S D).

(** Where a request is: between calls, announced, calling, or with a call that has
    ended and is not yet recorded. *)
Inductive Stage := AtRest | AtCall | InCall (d : Dispatched) | AfterCall.
Definition phase_of (s : Stage) : Phase := match s with AtRest => Idle | AtCall => Announced | _ => Calling end.

(** The trail, the collector and the statuses told agree. *)
Record agrees (sv : Sv) (g : Stage * list string) : Prop := {
  ag_trail : trail (sv_trace sv) = Some (phase_of g.1);
  ag_verdicts : match g.1 with
                | InCall d => ∃ ds, dispatches (sv_trace sv) = ds ++ [d] ∧ Forall2 (verdict E) ds g.2
                | _ => Forall2 (verdict E) (dispatches (sv_trace sv)) g.2
                end;
  ag_accounts : accounts (sv_trace sv) g.2;
  ag_evidence : ∃ e, co_evidence (sv_collector sv) = Some e
    ∧ let l := zip (map dispatched_name (dispatches (sv_trace sv))) g.2 in
      match g.1 with InCall d => opened_as l (dispatched_name d) e | _ => closed_as l e end }.
Abbreviation trails := (trip agrees).

(** Steps that leave all of it alone. *)
Definition stays {X} (m : ST Sv X) : Prop := ∀ g, trails m g (λ _ g', g' = g).

Lemma stays_use {X} (m : ST Sv X) g (Q : X → _ → Prop) : stays m → (∀ x, Q x g) → trails m g Q.
Proof. intros Hm HQ. eapply trip_mono; [apply Hm|]. by intros x g' ->. Qed.
Lemma stays_ret {X} (x : X) : stays (mret x).
Proof. intros g. by apply trip_ret. Qed.
Lemma stays_bind {X Y} (m : ST Sv X) (f : X → ST Sv Y) : stays m → (∀ x, stays (f x)) → stays (m ≫= f).
Proof. intros Hm Hf g. apply trip_bind, stays_use; [done|]. intros x. apply Hf. Qed.

Definition mute (a : Act) : bool := match a with Appended _ | Dispatch _ _ _ _ => false | _ => true end.
Lemma stays_say a : mute a = true → stays (say a).
Proof.
  intros Ha g sv [H1 H2 H3 H4]. exists g. split; [|done].
  assert (dispatches (sv_trace sv ++ [a]) = dispatches (sv_trace sv)) as Hd by (rewrite dispatches_snoc; destruct a; simpl; by rewrite ?app_nil_r).
  split; simpl; rewrite ?Hd; [|done| |done].
  - rewrite trail_snoc, H1. by destruct a.
  - apply accounts_snoc; [done|]. intros r ->. done.
Qed.
Lemma stays_money {X} (m : ST _ X) : stays (on_money m).
Proof. intros g sv []. exists g. unfold on_money. destruct (m _). by split. Qed.
Lemma stays_full {X} (m : ST _ X) : stays (on_full m).
Proof. intros g sv []. exists g. unfold on_full. destruct (m _). by split. Qed.
Lemma stays_tick : stays tick.
Proof. intros g sv []. exists g. by split. Qed.
Lemma stays_collector {X} (m : ST Collector X) : tidy m → stays (on_collector m).
Proof.
  intros Hm g sv [H1 H2 H3 (e & He & Hl)]. exists g. unfold on_collector, wp.
  destruct (Hm (sv_collector sv) e He) as (e' & He' & Hc & Ho). destruct (m _) as [x co]. split; [|done]. split; [done..|].
  exists e'. split; [done|]. simpl in *. destruct (g.1); auto.
Qed.

(** A step that ends the open call. *)
Lemma trails_ends (m : ST Collector unit) d status ends (Q : unit → _ → Prop) : ends_with m status → verdict E d status →
  Q tt (AfterCall, ends ++ [status]) → trails (on_collector m) (InCall d, ends) Q.
Proof.
  intros Hm Hv HQ sv [H1 (ds & Ed & Hds) H3 (e & He & Hl)]. cbn [fst snd] in *. exists (AfterCall, ends ++ [status]). unfold on_collector, wp.
  destruct (Hm (sv_collector sv) e _ _ He Hl) as (e' & He' & Hc). destruct (m _) as [[] co]. split; [|exact HQ]. split; cbn [fst snd sv_trace sv_collector].
  - done.
  - rewrite Ed. apply Forall2_app; [done|]. by constructor.
  - by apply accounts_more.
  - exists e'. split; [done|]. rewrite Ed in *. apply Forall2_length in Hds. rewrite map_app in *. simpl in *.
    rewrite zip_with_app by by rewrite length_map. simpl. revert Hc. by rewrite <- (app_nil_r ends) at 1; rewrite zip_with_app, zip_with_nil_r, app_nil_r by by rewrite length_map.
Qed.
End audit.

Create HintDb stays discriminated.
#[export] Hint Resolve stays_ret stays_bind stays_money stays_full stays_tick stays_collector : stays.
#[export] Hint Resolve tidy_now tidy_MarkFirstToken tidy_SetGovernance : stays.
#[export] Hint Extern 2 (stays _ (say _)) => apply stays_say; reflexivity : stays.

Ltac stays_all := repeat first
  [ progress eauto 3 with stays
  | apply stays_bind; [|intros ?]
  | match goal with |- stays _ (match ?x with _ => _ end) => destruct x end ].

Section walking.
Context {L F B A S D P Ch R : Type} `{!LimiterStore L F} `{!BudgetStore B} `{!BudgetAuthority A} `{!SharedAuthority S} `{!EqDecision D} `{!Countable D} `{!ResponsesWire P Ch R}.
Context (range_nat : gmap string nat → list (string * nat)) (decode : string → option json).
Context (envelope : string → option string) (identity : Shared.Principal → option string).
Context (h : Handler) (E : Env P Ch) (gates : Gates) (range_str : gmap string string → list (string * string)).
Context (audited : h_aud h = true).
Abbreviation Sv := (Server L F B A S D).
Abbreviation Attempt := (attempt D P).
Abbreviation trails := (trip (agrees (L := L) (F := F) (B := B) (A := A) (S := S) (D := D) E)).
Abbreviation stays := (stays (L := L) (F := F) (B := B) (A := A) (S := S) (D := D) E).
Abbreviation verdict := (verdict E).

Lemma stays_ctx_Err : stays (ctx_Err E).
Proof. unfold ctx_Err. stays_all. Qed.
Lemma stays_ulid : stays (ulid_New E).
Proof. unfold ulid_New. stays_all. Qed.
#[local] Hint Resolve stays_ctx_Err stays_ulid : stays.
Lemma stays_write p : stays (write E p).
Proof. unfold write. stays_all. Qed.
#[local] Hint Resolve stays_write : stays.
Lemma stays_writeError status kind message code : stays (writeError E status kind message code).
Proof. unfold writeError. stays_all. Qed.
Lemma stays_coded status message code : stays (writeCodedError E status message code).
Proof. apply stays_writeError. Qed.
Lemma stays_RecordSuccess (ctx : Ctx D) : stays (RecordSuccess E ctx).
Proof. unfold RecordSuccess, ctx_alive. stays_all. Qed.
Lemma stays_may_retry last status : stays (may_retry E last status).
Proof. unfold may_retry, ctx_alive. stays_all. Qed.
Lemma stays_record_result t ok : stays (record_result t ok).
Proof. unfold record_result. stays_all. Qed.
Lemma stays_commit (a : Attempt) (s : Streaming R) : stays (commit a s).
Proof. unfold commit. stays_all. Qed.
Lemma stays_finish_budget budget : stays (finish_budget budget).
Proof. unfold finish_budget. stays_all. Qed.
#[local] Hint Resolve stays_writeError stays_coded stays_RecordSuccess stays_may_retry stays_record_result stays_commit stays_finish_budget : stays.

(** What is read of the environment. *)
Lemma reads_ctx g (Q : option CtxError → _ → Prop) : (∀ m, Q (en_ctx E m) g) → trails (ctx_Err E) g Q.
Proof. intros HQ sv []. exists g. split; [by split|]. apply HQ. Qed.
Lemma reads_write p g (Q : bool → _ → Prop) : (∀ m, Q (en_write E m) g) → trails (write E p) g Q.
Proof. intros HQ. unfold write. apply trip_bind, stays_use; [stays_all|intros _]. intros sv []. exists g. split; [by split|]. apply HQ. Qed.

(** *** Records *)

(** A record goes to the trail with the evidence so far. *)
Lemma trails_append_finished r st ends (Q : unit → _ → Prop) :
  terminalRecord r = true → rec_Attempts r = [] →
  (rec_Event r = request_completed ∧ (st = AtCall ∨ st = AfterCall) ∨ rec_Event r = request_started ∧ is_Some_b (rec_Outcome r) = true ∧ st = AtRest) →
  Q tt (AtRest, ends) → trails (append_finished E r) (st, ends) Q.
Proof.
  intros Ht Hn Hk HQ. unfold append_finished. apply trip_bind, stays_use; [auto with stays|]. intros c.
  intros sv [H1 H2 H3 (e & He & Hc)]. rewrite wp_bind. cbn [fst snd] in *.
  assert (Forall2 verdict (dispatches (sv_trace sv)) ends ∧ closed_as (zip (map dispatched_name (dispatches (sv_trace sv))) ends) e) as [Hv Hcl]
    by (destruct Hk as [[_ [->| ->]]|(_ & _ & ->)]; done).
  pose proof (Finish_spec c r (sv_collector sv) e _ He Hcl Ht Hn) as Hf. unfold wp, on_collector in *.
  destruct (Finish c r (sv_collector sv)) as [r' co']. cbn [fst snd] in *. destruct Hf as (e' & He' & Hc' & Ev & Eo & Hl).
  exists (AtRest, ends). split; [|done].
  assert (dispatches (sv_trace sv ++ [Appended r']) = dispatches (sv_trace sv)) as Hd by (rewrite dispatches_snoc; simpl; by rewrite app_nil_r).
  split; simpl; rewrite ?Hd; [|done| |by exists e'].
  - rewrite trail_snoc, H1. simpl. unfold record_step. rewrite Ev, Eo.
    destruct Hk as [[-> [->| ->]]|(-> & -> & ->)]; done.
  - apply accounts_snoc; [done|]. intros r0 [= <-] _. split; [by rewrite (Forall2_length _ _ _ Hv)|done].
Qed.

Lemma trails_finish (a : Attempt) code status u body partial ttft st ends (Q : unit → _ → Prop) : st = AtCall ∨ st = AfterCall →
  Q tt (AtRest, ends) → trails (finish identity h E a code status u body partial ttft) (st, ends) Q.
Proof.
  intros Hst HQ. unfold finish. apply trip_bind. unfold finish_body. apply trip_bind, stays_use.
  { destruct u; [unfold finish_usage; stays_all|auto with stays]. }
  intros [usage cost]. do 3 (apply trip_bind, stays_use; [stays_all|intros ?]).
  apply trip_bind, stays_use; [unfold capture; stays_all|intros bodyRef]. rewrite audited.
  do 2 (apply trip_bind, stays_use; [stays_all|intros ?]). apply trails_append_finished; [done|done|by left|].
  apply stays_use; [stays_all|by intros []].
Qed.

Lemma trails_denied (ctx : Ctx D) p model status reason ends (Q : unit → _ → Prop) :
  Q tt (AtRest, ends) → trails (denied identity h E ctx p model status reason) (AtRest, ends) Q.
Proof.
  intros HQ. unfold denied. apply trip_bind, stays_use; [stays_all|intros _]. rewrite audited.
  do 2 (apply trip_bind, stays_use; [stays_all|intros ?]). by apply trails_append_finished; [done|done|right|].
Qed.

Lemma trails_started (a : Attempt) ends (Q : unit → _ → Prop) : Q tt (AtCall, ends) → trails (started identity h E a) (AtRest, ends) Q.
Proof.
  intros HQ. unfold started. rewrite audited. do 2 (apply trip_bind, stays_use; [stays_all|intros ?]).
  intros sv [H1 H2 H3 H4]. exists (AtCall, ends). split; [|done]. unfold append. cbn [fst snd] in *. set (act := Appended _).
  assert (dispatches (sv_trace sv ++ [act]) = dispatches (sv_trace sv)) as Hd by (rewrite dispatches_snoc; simpl; by rewrite app_nil_r).
  split; simpl; rewrite ?Hd; [by rewrite trail_snoc, H1|done| |done].
  apply accounts_snoc; [done|]. by intros r [= <-].
Qed.

Lemma trails_call streamed (a : Attempt) ends (Q : nat → _ → Prop) :
  (∀ n, Q n (InCall (streamed, ra_target a, px_RawBody (ra_proxy a), n), ends)) → trails (call streamed a) (AtCall, ends) Q.
Proof.
  intros HQ sv [H1 H2 H3 (e & He & Hc)]. unfold call. rewrite wp_bind. cbn [fst snd] in *.
  destruct (BeginAttempt_spec (ct_ProviderName (ra_target a)) (ct_Model (ra_target a)) _ e _ He Hc) as (e' & He' & Ho).
  unfold wp, on_collector. destruct (BeginAttempt _ _ _) as [[] co]. cbn [fst snd] in *.
  set (d := (streamed, ra_target a, px_RawBody (ra_proxy a), sv_tick sv)). exists (InCall d, ends). split; [|apply HQ].
  assert (dispatches (sv_trace sv ++ [Dispatch streamed (ra_target a) (px_RawBody (ra_proxy a)) (sv_tick sv)]) = dispatches (sv_trace sv) ++ [d]) as Hd
    by by rewrite dispatches_snoc.
  split; simpl.
  - by rewrite trail_snoc, H1.
  - exists (dispatches (sv_trace sv)). by rewrite Hd.
  - by apply accounts_snoc.
  - exists e'. split; [done|]. rewrite Hd, map_app. apply Forall2_length in H2. rewrite <- (app_nil_r ends), zip_with_app by by rewrite length_map.
    simpl. by rewrite app_nil_r.
Qed.

(** *** A call that ends *)

Definition rest {X} (_ : X) (g : Stage * list string) : Prop := ∃ ends, g = (AtRest, ends).
(** What the call is told as if it broke by [cause]. *)
Definition failing_as (d : Dispatched) (err : option error) : Prop := ∀ status, failed_as E err status → verdict d status.
Definition breaking (d : Dispatched) (cause : error) : Prop := failing_as d (Some cause) ∧ ∀ status, cut_as E cause status → verdict d status.

Lemma trails_endFailed err retried d ends (Q : unit → _ → Prop) : failing_as d err →
  (∀ status, Q tt (AfterCall, ends ++ [status])) → trails (endFailedAttempt E err 0 retried) (InCall d, ends) Q.
Proof.
  intros Hd HQ. unfold endFailedAttempt. apply trip_bind, reads_ctx. intros m.
  apply (trails_ends E _ _ (failed_status (en_ctx E m) err)); [destruct retried; [apply ends_EndRetried|apply ends_EndOnError]|apply Hd; by exists m|done].
Qed.

Lemma failed_call_trails (a : Attempt) last err code message d ends : failing_as d err →
  trails (failed_call identity h E a last err code message) (InCall d, ends) rest.
Proof.
  intros Hd. unfold failed_call. cbv zeta. apply trip_bind, stays_use; [auto with stays|intros retry].
  apply trip_bind, trails_endFailed; [done|intros status]. apply trip_bind, trails_finish; [by right|].
  apply stays_use; [stays_all|intros x]. by eexists.
Qed.

Lemma trails_EndOpen status http d ends (Q : unit → _ → Prop) : verdict d status → Q tt (AfterCall, ends ++ [status]) →
  trails (EndOpen status http) (InCall d, ends) Q.
Proof. intros Hv HQ. by apply (trails_ends E _ _ status); [apply ends_EndOpen| |]. Qed.
(** Between calls there is none to end. *)
Lemma rest_EndOpen status http ends (Q : unit → _ → Prop) : Q tt (AtRest, ends) → trails (EndOpen status http) (AtRest, ends) Q.
Proof.
  intros HQ sv [H1 H2 H3 (e & He & Hc)]. exists (AtRest, ends). unfold EndOpen, on_collector, wp. cbn [fst snd] in *.
  pose proof (EndOpen_closed status http _ _ _ He Hc) as Ho. destruct (EndOpenAttempt _ _ _) as [[] co]. split; [|done]. split; [done..|]. by exists e.
Qed.

Lemma retryStatus_codes code : retryStatus code = true → 0 < code ∧ AttemptStatusForHTTP code = if code =? 504 then AttemptTimeout else AttemptUpstreamError.
Proof. unfold retryStatus, AttemptStatusForHTTP. intros Hc. replace (code <? 400) with false by lia. split; [lia|done]. Qed.

Lemma complete_response_trails (a : Attempt) last resp d ends : (∀ status, told_response E (ra_target a) (ra_proxy a) resp status → verdict d status) →
  trails (complete_response envelope identity h E a last resp) (InCall d, ends) rest.
Proof.
  intros Hd.
  assert (∀ u message, usable (ra_target a) (ra_proxy a) resp = false → ok_status (rs_StatusCode resp) = true →
    trails (unusable identity h E a resp u message) (InCall d, ends) rest) as Hu.
  { intros u message Hus Hok. unfold unusable. apply trip_bind, trails_EndOpen; [apply Hd; unfold told_response; by rewrite Hok, Hus|].
    apply trip_bind, trails_finish; [by right|]. apply stays_use; [stays_all|intros x]. by eexists. }
  unfold complete_response. destruct (ok_status (rs_StatusCode resp)) eqn:Hok; cbn [negb].
  2: { unfold refused_response. cbv zeta. apply trip_bind. eapply trip_mono with (Q := λ _ g, ∃ status, g = (AfterCall, ends ++ [status])).
       - destruct (negb last && retryStatus (rs_StatusCode resp))%bool eqn:Er.
         + apply andb_true_iff in Er as [_ Er]. destruct (retryStatus_codes _ Er) as [Hpos Hst]. apply trip_bind, reads_ctx. intros m.
           eapply trails_ends; [by apply ends_EndRefused| |by eexists]. apply Hd. unfold told_response. rewrite Hok, Hst, Er.
           case_bool_decide; [right; eauto|by left].
         + apply trails_EndOpen; [apply Hd; unfold told_response; rewrite Hok; by left|by eexists].
       - intros [] g [status ->]. apply trip_bind, trails_finish; [by right|]. apply stays_use; [stays_all|intros x]. by eexists. }
  unfold usable in Hu. destruct (rs_Parsed resp) as [parsed|] eqn:Ep; [|by apply Hu]. destruct (cr_Usage parsed) as [u|] eqn:Eu; [|by apply Hu].
  set (rendered := if native _ then _ else _) in *. destruct rendered as [body|] eqn:Eb; [|by apply Hu].
  case_bool_decide as Hb; [by apply Hu|].
  unfold accepted_response. apply trip_bind, trails_EndOpen.
  { apply Hd. unfold told_response, usable. rewrite Hok, Ep, Eu. fold rendered. rewrite Eb, bool_decide_false by done.
    unfold AttemptStatusForHTTP. unfold ok_status in Hok. replace (rs_StatusCode resp <? 400) with true; [done|]. symmetry. apply Z.ltb_lt.
    apply Z.eqb_eq in Hok. pose proof (Z.quot_rem' (rs_StatusCode resp) 100). pose proof (Z.rem_bound_abs (rs_StatusCode resp) 100). lia. }
  do 5 (apply trip_bind, stays_use; [stays_all|intros ?]). apply trip_bind, trails_finish; [by right|]. apply trip_ret. by eexists.
Qed.

Lemma complete_trails (a : Attempt) last ends : trails (complete envelope identity h E a last) (AtCall, ends) rest.
Proof.
  unfold complete. apply trip_bind, trails_call. intros n.
  assert (∀ status, match en_complete E n (ra_target a) (ra_proxy a) with (Some resp, None) => told_response E (ra_target a) (ra_proxy a) resp status
    | (_, err) => failed_as E err status end → verdict (false, ra_target a, px_RawBody (ra_proxy a), n) status) as Hv by (intros status Hs; by exists (ra_proxy a)).
  destruct (en_complete E n _ _) as [[resp|] [err|]]; first [by apply complete_response_trails | by apply failed_call_trails].
Qed.

(** *** A stream *)

Section streaming.
Context (a : Attempt) (last : bool) (d : Dispatched) (ends : list string) (seq : list (result error (option (StreamEvent Ch)))).
Context (Hbroken : ∀ cause, broken E (ra_target a) seq cause → breaking d cause).
Context (Hwhole : served_whole (ra_target a) seq → verdict d AttemptOK).

Lemma fail_trails (s : Streaming R) cause : breaking d cause → trails (fail envelope identity h E a last s cause) (InCall d, ends) rest.
Proof.
  intros [Hfail Hcut]. unfold fail. cbv zeta. apply trip_bind, stays_use; [stays_all|]. intros s'. destruct (st_committed s').
  - unfold fail_committed. apply trip_bind, reads_ctx. intros m. apply trip_bind.
    eapply trails_ends; [apply ends_EndStream|apply Hcut; by exists m|].
    apply trip_bind, stays_use; [stays_all|intros code']. apply trip_bind, trails_finish; [by right|]. apply trip_ret. by eexists.
  - unfold fail_uncommitted. cbv zeta. apply trip_bind, stays_use; [stays_all|intros retry]. apply trip_bind, trails_endFailed; [done|intros status].
    apply trip_bind, trails_finish; [by right|]. apply stays_use; [stays_all|intros x]. by eexists.
Qed.

(** The stream goes on, or its call has ended. *)
Definition goes {X} (Q : X → Prop) (r : result bool X) (g : Stage * list string) : Prop :=
  match r with Ok x => g = (InCall d, ends) ∧ Q x | Err e => rest e g end.

Lemma goes_bind {X Y} (m : STE Sv bool X) (f : X → STE Sv bool Y) (Qx : X → Prop) (Q : result bool Y → _ → Prop) :
  trails (m : ST Sv (result bool X)) (InCall d, ends) (goes Qx) → (∀ x, Qx x → trails (f x : ST Sv (result bool Y)) (InCall d, ends) Q) →
  (∀ (e : bool) g, rest e g → Q (Err e) g) → trails (m ≫= f : ST Sv (result bool Y)) (InCall d, ends) Q.
Proof.
  intros Hm Hf He. apply tripe_bind. eapply trip_mono; [exact Hm|]. intros [x|e] g Hg; [|by apply He]. destruct Hg as [-> Hx]. by apply Hf.
Qed.
Lemma goes_ok {X} (x : X) (Q : X → Prop) : Q x → trails (mret x : STE Sv bool X) (InCall d, ends) (goes Q).
Proof. intros HQ. by apply tripe_ret. Qed.
Lemma goes_step {X} (m : ST Sv X) (Q : X → Prop) : stays m → (∀ x, Q x) → trails (ste_lift m : ST Sv (result bool X)) (InCall d, ends) (goes Q).
Proof. intros Hm HQ. apply tripe_lift, stays_use; [done|]. intros x. by split. Qed.

Lemma failing_trails {X} (s : Streaming R) cause (Q : result bool X → _ → Prop) : breaking d cause → (∀ (e : bool) g, rest e g → Q (Err e) g) →
  trails (failing (X := X) envelope identity h E a last s cause) (InCall d, ends) Q.
Proof. intros Hc HQ. unfold failing. apply tripe_bind, tripe_lift. eapply trip_mono; [by apply fail_trails|]. intros r g Hr. by apply tripe_early, HQ. Qed.

(** What the events seen say of the stream. *)
Definition marks (s : Streaming R) : bool * bool * option error * option Usage.Usage := (st_terminal s, st_failed s, st_conversion s, st_usage s).
Definition sound (s : Streaming R) : Prop := ∀ cause, st_conversion s = Some cause → broken E (ra_target a) seq cause.

Lemma commit_marks (s : Streaming R) g (Q : Streaming R → _ → Prop) : (∀ s', marks s' = marks s → st_committed s' = true → Q s' g) → trails (commit a s) g Q.
Proof.
  intros HQ. unfold commit. destruct (st_committed s) eqn:Ec; [by apply trip_ret, HQ|].
  do 5 (apply trip_bind, stays_use; [stays_all|intros ?]). by apply trip_ret, HQ.
Qed.

Lemma emit_bytes_trails (s : Streaming R) p :
  trails (emit_bytes envelope identity h E a last s p) (InCall d, ends) (goes (λ s', marks s' = marks s ∧ st_committed s' = true)).
Proof.
  unfold emit_bytes. apply tripe_bind, tripe_lift, commit_marks. intros s' Hs' Hk. apply tripe_bind, tripe_lift, reads_write. intros m.
  destruct (en_write E m) eqn:Ew; [by apply goes_ok|]. apply failing_trails; [|done]. apply Hbroken. do 4 right. eauto.
Qed.

Lemma emit_events_trails events (s : Streaming R) :
  trails (emit_events envelope identity h E a last s events) (InCall d, ends) (goes (λ s', marks s' = marks s)).
Proof.
  revert s. induction events as [|e events IH]; intros s; simpl; [by apply goes_ok|].
  eapply goes_bind; [apply emit_bytes_trails| |done]. intros s' [Hs' _]. rewrite <- Hs'. apply IH.
Qed.

Definition after_event (e : StreamEvent Ch) (s s' : Streaming R) : Prop :=
  st_terminal s' = (st_terminal s || chunk_is "message_stop" (Ok (Some e)))%bool ∧ st_failed s' = (st_failed s || chunk_is "error" (Ok (Some e)))%bool
  ∧ st_usage s' = reported_next (st_usage s) (Ok (Some e)) ∧ sound s'.
(** A native stream is not translated, and is committed by its first bytes. *)
Definition native_at (seen : list (result error (option (StreamEvent Ch)))) (s : Streaming R) : Prop :=
  native (ra_target a) = true → st_conversion s = None ∧ st_committed s = existsb has_bytes seen.

Lemma marks_after e (s s1 s2 : Streaming R) : after_event e s s1 → marks s2 = marks s1 → after_event e s s2.
Proof. intros (H1 & H2 & H3 & H4) [= E1 E2 E3 E4]. unfold after_event, sound. by rewrite E1, E2, E3, E4. Qed.

Lemma native_silent seen s r : native_at seen s → has_bytes r = false → native_at (seen ++ [r]) s.
Proof. intros Hn Hr En. destruct (Hn En) as [Hc Hk]. split; [done|]. by rewrite existsb_app, Hk; simpl; rewrite Hr, !orb_false_r. Qed.

Lemma stream_event_trails seen (s : Streaming R) e : sound s → native_at seen s →
  trails (stream_event envelope identity h E a last s e) (InCall d, ends) (goes (λ s', after_event e s s' ∧ native_at (seen ++ [Ok (Some e)]) s')).
Proof.
  intros Hs Hn. unfold stream_event. cbv zeta.
  assert (after_event e s (observe_chunk (se_Chunk e) s)) as H1.
  { unfold after_event, chunk_is, observe_chunk, sound, reported_next. destruct (se_Chunk e); simpl; rewrite ?orb_false_r; auto. }
  assert (native_at seen (observe_chunk (se_Chunk e) s)) as Hn1 by (unfold native_at, observe_chunk in *; by destruct (se_Chunk e)).
  set (s1 := observe_chunk _ s) in *. destruct (is_Some_b _) eqn:Ec.
  { apply goes_ok. split; [done|]. intros En. destruct (Hn1 En) as [Hc _]. by rewrite Hc in Ec. }
  destruct (native _) eqn:En.
  - destruct (Hn1 En) as [Hc Hk]. case_bool_decide as Hb.
    { apply goes_ok. split; [done|]. apply native_silent; [done|]. simpl. by rewrite Hb. }
    eapply goes_bind; [apply emit_bytes_trails| |done]. intros s2 [H2 Hk2].
    eapply goes_bind with (Qx := λ _, True); [by apply goes_step; [auto with stays|]| |done]. intros _ _. apply goes_ok.
    split; [by eapply marks_after|]. intros _. injection H2 as _ _ Ec2 _. split; [by rewrite Ec2|]. rewrite Hk2, existsb_app. simpl.
    rewrite bool_decide_false by done. by rewrite orb_true_r.
  - assert (∀ seen s, native_at seen s) as Hno by (intros seen' s' En'; congruence).
    destruct (se_Chunk e) as [c|]; [|by apply goes_ok]. destruct (Convert c (st_renderer s1)) as [converted r].
    assert (after_event e s (with_renderer r s1)) as Hr by by eapply marks_after.
    destruct converted as [events|].
    + eapply goes_bind; [apply emit_events_trails| |done]. intros s2 H2.
      eapply goes_bind with (Qx := λ _, True); [destruct (_ <? _)%nat; [by apply goes_step; [auto with stays|]|by apply goes_ok]| |done].
      intros _ _. apply goes_ok. split; [by eapply marks_after|done].
    + apply goes_ok. split; [|done]. destruct Hr as (T1 & T2 & T3 & _). split; [done|]. split; [done|]. split; [done|].
      intros cause [= <-]. unfold broken. destruct (_ && _)%bool; [do 2 right; left; split; [done|congruence]|auto 6].
Qed.

(** The loop has seen all of it. *)
Lemma stream_loop_trails todo seen (s : Streaming R) : seq = seen ++ todo → forallb readable seen = true →
  st_terminal s = existsb (chunk_is "message_stop") seen → st_failed s = existsb (chunk_is "error") seen → st_usage s = reported seen →
  sound s → native_at seen s →
  trails (stream_loop envelope identity h E a last s todo) (InCall d, ends)
    (goes (λ s', whole seq = (st_terminal s' && negb (st_failed s'))%bool ∧ st_usage s' = reported seq ∧ sound s' ∧ native_at seq s')).
Proof.
  revert seen s. induction todo as [|r todo IH]; intros seen s Hseq Hread Ht Hfl Hu Hs Hn.
  { simpl. apply goes_ok. rewrite app_nil_r in Hseq. subst seen. unfold whole. by rewrite Hread, Ht, Hfl. }
  assert (seq = (seen ++ [r]) ++ todo) as Hseq' by by rewrite <- app_assoc.
  destruct r as [[e|]|e]; simpl.
  - eapply goes_bind; [by apply (stream_event_trails seen)| |done]. intros s' ((E1 & E2 & E3 & Hs') & Hn'). apply (IH (seen ++ [Ok (Some e)])); [done| | | | |done|done].
    + by rewrite forallb_app, Hread.
    + by rewrite E1, existsb_app, Ht; simpl; rewrite orb_false_r.
    + by rewrite E2, existsb_app, Hfl; simpl; rewrite orb_false_r.
    + unfold reported in *. by rewrite E3, foldl_app, Hu.
  - apply (IH (seen ++ [Ok None])); [done| | | | |done|by apply native_silent];
      unfold reported; rewrite ?forallb_app, ?existsb_app, ?foldl_app, ?Hread, ?Ht, ?Hfl, ?Hu; simpl; by rewrite ?orb_false_r.
  - apply failing_trails; [|done]. apply Hbroken. left. exists e. split; [|done]. rewrite Hseq. apply elem_of_app. right. by left.
Qed.

Lemma stream_end_trails (s : Streaming R) : whole seq = (st_terminal s && negb (st_failed s))%bool → st_usage s = reported seq → sound s → native_at seq s →
  trails (stream_end envelope identity h E a last s) (InCall d, ends) (λ r, rest (returned r)).
Proof.
  intros Hw Hu Hs Hn. assert (∀ cause, broken E (ra_target a) seq cause → trails (failing (X := bool) envelope identity h E a last s cause) (InCall d, ends) (λ r, rest (returned r))) as Hfail
    by (intros cause Hc; apply failing_trails; [by apply Hbroken|done]).
  unfold stream_end. destruct (st_conversion s) as [cause|] eqn:Ec; [by apply Hfail, Hs|].
  assert (negb (st_committed s) || negb (st_terminal s) || st_failed s = true → native (ra_target a) = true → whole seq && existsb has_bytes seq = false)%bool as Hcut.
  { intros Hb En. destruct (Hn En) as [_ <-]. rewrite Hw. by destruct (st_committed s), (st_terminal s), (st_failed s). }
  destruct (native (ra_target a)) eqn:En; [|destruct (RendererFinish _) as [[]|truncated]].
  3: { apply Hfail. unfold broken. destruct truncated; [right; left; split; [done|congruence]|auto 6]. }
  all: destruct (_ || _ || _)%bool eqn:Eb; [apply Hfail; right; left; split; [done|rewrite En; auto]|].
  all: destruct (is_Some_b (st_usage s)) eqn:Eu; cbn [negb];
    [|apply Hfail; do 2 right; left; split; [done|intros _; rewrite <- Hu; by destruct (st_usage s)]].
  all: apply orb_false_iff in Eb as [Eb Ef]; apply orb_false_iff in Eb as [Ek Et]; apply negb_false_iff in Et, Ek.
  all: do 3 (apply tripe_bind, tripe_lift, stays_use; [stays_all|intros ?]); apply tripe_bind, tripe_lift.
  all: eapply trails_ends; [apply ends_EndStream|apply Hwhole; split; [by rewrite Hw, Et, Ef|]; split; [by rewrite <- Hu; apply is_Some_b_spec|]; intros En'; rewrite En in En'; try discriminate En'; by destruct (Hn En) as [_ <-]|].
  all: apply tripe_bind, tripe_lift, trails_finish; [by right|]; apply tripe_ret; by eexists.
Qed.
End streaming.

Lemma stream_trails (a : Attempt) last ends : trails (stream envelope identity h E a last) (AtCall, ends) rest.
Proof.
  unfold stream. destruct (negb _).
  { apply trip_bind, stays_use; [auto with stays|intros _]. apply trip_bind, trails_finish; [by left|]. apply trip_ret. by eexists. }
  apply trip_bind, trails_call. intros n.
  assert (∀ status, match en_stream E n (ra_target a) (ra_proxy a) with (Some seq, None) => told_stream E (ra_target a) seq status
    | (_, err) => failed_as E err status end → verdict (true, ra_target a, px_RawBody (ra_proxy a), n) status) as Hv by (intros status Hs; by exists (ra_proxy a)).
  destruct (en_stream E n _ _) as [[seq|] [err|]]; try (by apply failed_call_trails).
  apply trip_bind. eapply trip_mono with (Q := λ r, rest (returned r)); [|intros r g Hr; by apply trip_ret].
  assert (∀ cause, broken E (ra_target a) seq cause → breaking (true, ra_target a, px_RawBody (ra_proxy a), n) cause) as Hbr.
  { intros cause Hc. split; intros status Hs; apply Hv; right; exists cause; auto. }
  eapply goes_bind; [by apply (stream_loop_trails a last _ _ seq Hbr seq [])| |done].
  intros s (Hw & Hu & Hs & Hn). apply (stream_end_trails a last _ _ seq); [exact Hbr|intros Hk; apply Hv; by left|done..].
Qed.

(** *** The chain *)

Lemma deny_with_trails rq status reason kind message ends : trails (deny_with identity h E rq status reason kind message) (AtRest, ends) rest.
Proof. unfold deny_with. apply trip_bind, trails_denied. apply stays_use; [auto with stays|]. by eexists. Qed.

Lemma deny_decision_trails rq d kind ends : trails (deny_decision identity h E rq d kind) (AtRest, ends) rest.
Proof. unfold deny_decision. apply trip_bind, stays_use; [auto with stays|intros _]. apply deny_with_trails. Qed.

Lemma admission_trails rq g ends : trails (admission_of identity h E rq g : ST Sv (result unit (option nat))) (AtRest, ends) rest.
Proof.
  unfold admission_of. apply tripe_bind, tripe_lift, stays_use; [auto with stays|intros d]. destruct (d_Allowed d); [apply tripe_ret; by eexists|].
  apply tripe_bind, tripe_lift. eapply trip_mono; [apply deny_decision_trails|]. intros x g' Hg. by apply tripe_early.
Qed.

Lemma run_attempt_trails rq a budget last ends : trails (run_attempt envelope identity h E rq a budget last) (AtRest, ends) rest.
Proof.
  unfold run_attempt. apply trip_bind, trails_started. apply trip_bind. eapply trip_mono with (Q := rest).
  - destruct (ro_stream rq); [apply stream_trails|apply complete_trails].
  - intros retry g Hg. apply trip_bind, stays_use; [auto with stays|intros _]. by apply trip_ret.
Qed.

Lemma try_target_trails rq first admission ct next rest_ ends :
  (∀ ends, trails rest_ (AtRest, ends) rest) →
  trails (try_target range_nat decode envelope identity h E rq first admission ct next rest_) (AtRest, ends) rest.
Proof.
  intros Hrest. unfold try_target. destruct (proxy_of rq ct) as [pr|]; [|apply deny_with_trails].
  apply trip_bind, stays_use; [unfold fallback_headers; stays_all|intros _]. apply trip_bind, stays_use; [stays_all|intros r].
  destruct r as [budget|e].
  - apply trip_bind. eapply trip_mono; [apply run_attempt_trails|]. intros retry g [ends' ->].
    apply trip_bind. eapply trip_mono with (Q := rest).
    + destruct retry; [|apply trip_ret; by eexists]. apply trip_bind, rest_EndOpen. do 2 (apply trip_bind, stays_use; [stays_all|intros ?]). apply Hrest.
    + intros x g' Hg'. by apply stays_use; [auto with stays|].
  - unfold deny_budget. do 2 (apply trip_bind, stays_use; [stays_all|intros ?]). apply deny_with_trails.
Qed.

Lemma closing_trails (m : ST Sv unit) a ends : trails m (AtRest, ends) rest → trails (_ ← m; on_money (on_gov (Close a))) (AtRest, ends) rest.
Proof. intros Hm. apply trip_bind. eapply trip_mono; [exact Hm|]. intros x g Hg. by apply stays_use; [auto with stays|]. Qed.

Lemma chain_loop_trails rq chain first admission ends :
  trails (chain_loop range_nat decode envelope identity h E gates range_str rq first admission chain) (AtRest, ends) rest.
Proof.
  revert first admission ends. induction chain as [|ct chain IH]; intros first admission ends; simpl; [apply trip_ret; by eexists|]. destruct (negb _).
  { unfold deny_target. do 2 (apply trip_bind, stays_use; [stays_all|intros ?]). apply deny_with_trails. }
  unfold with_admission. destruct (if first then None else h_gov h) as [g|]; [|apply try_target_trails; auto].
  apply trip_bind. eapply trip_mono; [apply admission_trails|]. intros [a|[]] g' [ends' ->]; [|apply trip_ret; by eexists].
  apply closing_trails, try_target_trails. auto.
Qed.

Lemma dispatch_trails rq chain ends : trails (dispatch range_nat decode envelope identity h E gates range_str rq chain) (AtRest, ends) rest.
Proof.
  unfold dispatch. cbv zeta. destruct (negb _); [apply deny_decision_trails|]. destruct (h_gov h) as [g|]; [|apply chain_loop_trails].
  apply trip_bind. eapply trip_mono; [apply admission_trails|]. intros [a|[]] g' [ends' ->]; [|apply trip_ret; by eexists].
  apply closing_trails, chain_loop_trails.
Qed.

(** The handler before its dispatch. *)
Lemma trails_front : front (P := P) (Ch := Ch) identity h E (agrees (L := L) (F := F) (B := B) (A := A) (S := S) (D := D) E) (AtRest, []) (λ g, g.1 = AtRest).
Proof.
  split; intros; try (by apply stays_use; [auto with stays|]). apply trip_bind, trails_denied. by apply stays_use; [auto with stays|].
Qed.
End walking.
