(* ===== verification/ResponsesLedger.v ===== *)
(** * Nothing of a request stays open

    Whatever its providers, its client and the authorities do, a request leaves
    no admission, no attempt and no permit of the node's ledger open. *)

From S2P Require Import Prelude GoTime GoFloat Json Usage Pricing Budget Limiter Denial Governor LocalMoney Governance Enforcement Live Router Boundary Affinity RequestRouting Escrow Shared Settlement SettlementTheorems AttemptSafety Evidence Exchange Responses ResponsesSafety.

(** ** The governor *)

Section books.
Context {L F B : Type} `{!LimiterStore L F} `{!BudgetStore B}.
Abbreviation Gov := (Governor.State L F B).

(** The open admissions are among [As]; the permits are [m0]. *)
Definition open_in (As : gset nat) (g : Gov) : Prop := ∀ i x, admissions g !! i = Some x → a_once x = false → i ∈ As.
Definition books (As : gset nat) (m0 : gmap nat LocalBudgetPermit) (g : Gov) : Prop := open_in As g ∧ permits g = m0.

Lemma open_in_robust As : robust (open_in As).
Proof. by split. Qed.
Lemma open_in_mono As As' g : As ⊆ As' → open_in As g → open_in As' g.
Proof. intros Hs Ho i x Hx Hn. apply Hs. by eapply Ho. Qed.

Lemma books_bud As m0 {X} (m : ST B X) : pres (books As m0) (on_bud m).
Proof. intros g Hg. rewrite wp_on_bud. by unfold wp. Qed.
Lemma books_lim As m0 {X} (m : ST L X) : pres (books As m0) (on_lim m).
Proof. intros g Hg. rewrite wp_on_lim. by unfold wp. Qed.
Lemma books_emit As m0 e : pres (books As m0) (emit e).
Proof. by intros g Hg. Qed.

(** An update never opens an admission. *)
Lemma open_update As i f (g : Gov) : (∀ x, a_once (f x) = false → a_once x = false) → open_in As g → open_in As (update_adm i f g).2.
Proof.
  intros Hf Ho k x. unfold update_adm, st_modify. simpl. intros [[<- <-]|[_ Hx]]%lookup_insert_Some Hn; [|by eapply Ho].
  apply Hf in Hn. unfold adm in Hn. destruct (admissions g !! i) as [y|] eqn:Ey; [|done]. by eapply Ho.
Qed.
Lemma books_update_adm As m0 i f : (∀ x, a_once (f x) = false → a_once x = false) → pres (books As m0) (update_adm (L := L) i f).
Proof. intros Hf g [Ho Hp]. split; [by apply open_update|done]. Qed.

Lemma books_finish_loop As m0 rates actual : pres (books As m0) (finish_loop (L := L) rates actual).
Proof. induction rates as [|f rates IH]; simpl; [apply pres_ret|]. apply pres_bind; [apply books_lim|done]. Qed.
Lemma books_finishRates As m0 a actual : pres (books As m0) (finishRates (L := L) a actual).
Proof. destruct a as [i|]; simpl; [|apply pres_ret]. apply pres_get. intros g. apply books_finish_loop. Qed.
Lemma books_once As m0 i body : pres (books As m0) body → pres (books As m0) (once_do (L := L) i body).
Proof.
  intros Hb. unfold once_do. apply pres_get. intros g. destruct (a_once _); [apply pres_ret|]. apply pres_bind; [by apply books_update_adm|done].
Qed.
Lemma books_Own As m0 a : pres (books As m0) (OwnLocalMoney (L := L) (F := F) (B := B) a).
Proof. destruct a; [by apply books_update_adm|apply pres_ret]. Qed.
Lemma books_Mark As m0 a : pres (books As m0) (MarkDispatched (L := L) (F := F) (B := B) a).
Proof. destruct a; [by apply books_update_adm|apply pres_ret]. Qed.
Lemma books_Cancel As m0 a : pres (books As m0) (CancelUndispatched (L := L) (F := F) (B := B) a).
Proof.
  destruct a as [i|]; [|apply pres_ret]. unfold CancelUndispatched. apply pres_get. intros g. destruct (a_dispatched _); [apply pres_ret|].
  apply books_once, books_finishRates.
Qed.

Create HintDb books discriminated.
#[local] Hint Resolve books_bud books_lim books_emit books_finishRates : books.

Lemma books_debit_window As m0 sc id l w c : pres (books As m0) (debit_window sc id l w c).
Proof. unfold debit_window. repeat pres_step; auto with books. Qed.
#[local] Hint Resolve books_debit_window : books.
Lemma books_settle As m0 g s kp pr mo u t a : pres (books As m0) (settle g s kp pr mo u t a).
Proof.
  unfold settle, settle_body, settle_quota, settle_rates, settle_team, settle_key, settle_user.
  repeat (pres_step || (progress cbv beta zeta)); auto with books.
Qed.

Lemma books_Settle As m0 g s kp pr mo u t a : pres (books As m0) (Governance.Settle g s kp pr mo u t a).
Proof.
  destruct a as [i|]; [|apply books_settle]. unfold Governance.Settle. apply pres_bind.
  - apply books_once, pres_bind; [apply books_settle|]. intros [cost missing]. by apply books_update_adm.
  - intros _. apply pres_get. intros st. destruct (a_moneyOwned _); apply pres_ret.
Qed.

(** Closing an admission closes it. *)
Lemma once_closes As m0 a actual (g : Gov) : books (As ∪ {[ a ]}) m0 g →
  books As m0 (once_do a (finishRates (Some a) actual) g).2.
Proof.
  intros Hg. assert (spent_handle a (once_do a (finishRates (Some a) actual) g).2) as Hs by (apply once_spends, spent_finish).
  destruct (books_once _ m0 a _ (books_finishRates _ m0 (Some a) actual) g Hg) as [Ho Hp]. split; [|done].
  intros i x Hx Hn. specialize (Ho i x Hx Hn). apply elem_of_union in Ho as [Ho| ->%elem_of_singleton]; [done|].
  unfold spent_handle in Hs. rewrite (adm_lookup _ _ _ Hx) in Hs. congruence.
Qed.

(** The handle of a request's admission, if it has one. *)
Definition handle (a : option nat) : gset nat := match a with Some i => {[ i ]} | None => ∅ end.

Lemma Close_closes As m0 a (g : Gov) : books (As ∪ handle a) m0 g → books As m0 (Close a g).2.
Proof. destruct a as [i|]; simpl; [apply once_closes|]. by rewrite union_empty_r_L. Qed.

(** Every early return of the body is a denial, or allows its own admission. *)
Definition own_decision (a : nat) (d : GovDecision) : Prop := d_Allowed d = true → d = allow (Some a).

Lemma precheck_decides g s kp e a (st : Gov) : wp (precheck_body g s kp e a) (λ r _, own_decision a (decided a r)) st.
Proof.
  assert (∀ (m : STE Gov GovDecision unit) (k : unit → STE Gov GovDecision unit),
    (∀ st, wpe m (λ r _, ∀ d, r = Err d → own_decision a d) st) → (∀ st, wpe (k tt) (λ r _, ∀ d, r = Err d → own_decision a d) st) →
    ∀ st, wpe (m ≫= k) (λ r _, ∀ d, r = Err d → own_decision a d) st) as Hseq.
  { intros m k Hm Hk st0. rewrite wpe_bind. eapply wpe_mono; [apply Hm|]. intros [[]|d] st1 Hd; [apply Hk|]. by intros d' [= <-]; apply Hd. }
  assert (∀ b d st, own_decision a d → wpe (return_if b d : STE Gov GovDecision unit) (λ r _, ∀ d, r = Err d → own_decision a d) st) as Hret.
  { intros b d st0 Hd. unfold return_if. destruct b; [by intros d' [= <-]|done]. }
  assert (∀ status reason code gov, own_decision a (deny status reason code gov)) as Hdeny by done.
  assert (∀ k r b d st, own_decision a d → wpe (rate_gate k r b d : STE Gov GovDecision unit) (λ r _, ∀ d, r = Err d → own_decision a d) st) as Hrate.
  { intros k r b d st0 Hd. unfold rate_gate. destruct (0 <? r); [|done]. rewrite wpe_bind, wpe_lift. unfold wp. by apply Hret. }
  assert (∀ k r d st, own_decision a d → wpe (token_gate a k e r d : STE Gov GovDecision unit) (λ r _, ∀ d, r = Err d → own_decision a d) st) as Htok.
  { intros k r d st0 Hd. unfold token_gate. destruct (0 <? r); [|done]. rewrite wpe_bind, wpe_lift. unfold wp. by apply Hret. }
  assert (∀ bs prev st, (∀ d t, prev = Some (d, t) → own_decision a d) →
    wp (check_gates (L := L) (F := F) g bs prev) (λ r _, ∀ d t, r = Some (d, t) → own_decision a d) st) as Hgates.
  { induction bs as [|b bs IH]; intros prev st0 Hp; simpl; [by rewrite wp_ret|]. rewrite wp_bind.
    eapply wp_mono with (Q := λ r _, ∀ d t, r = Some (d, t) → own_decision a d); [|intros r st1 Hr; by apply IH].
    unfold check_gate. destruct (0 <? _); [|done]. apply wp_skip. intros dec st1. destruct (mustDenyBudget _ _); [|done].
    apply wp_skip. intros t st2. rewrite wp_ret. destruct prev as [[d0 t0]|]; [destruct (Before _ _)|]; try (by intros ? ? [= <- <-]). done. }
  assert (∀ bs st, wpe (money_gates (L := L) (F := F) g bs) (λ r _, ∀ d, r = Err d → own_decision a d) st) as Hmoney.
  { intros bs st0. unfold money_gates. rewrite wpe_bind, wpe_lift. eapply wp_mono; [by apply Hgates|].
    intros [[d t]|] st1 Hd; [|done]. intros d' [= <-]. by eapply Hd. }
  eapply wp_mono with (Q := λ r _, ∀ d, r = Err d → own_decision a d); [|intros [[]|d] st' Hd; [done|by apply Hd]].
  change (wpe (precheck_body g s kp e a) (λ r _, ∀ d, r = Err d → own_decision a d) st).
  revert st. unfold precheck_body. apply Hseq; [intros; by apply Hret|]. apply Hseq; [intros; apply Hret; by intros|].
  apply Hseq.
  { intros st0. unfold lease_gate. destruct (leaseGate g); [|done]. destruct (_ (s_Team s)). by apply Hret. }
  apply Hseq.
  { intros st0. destruct (policyOf g (s_Team s)) as [p|]; [|done]. revert st0. unfold team_checks. apply Hseq; [intros; by apply Hrate|].
    apply Hseq; [intros; by apply Htok|]. apply Hseq; [|intros; apply Hmoney]. intros st0. unfold quota_gate. destruct (0 <? _); [|done].
    rewrite wpe_bind, wpe_lift. unfold wp. by apply Hret. }
  apply Hseq.
  { intros st0. revert st0. unfold key_checks. apply Hseq; [intros; by apply Hrate|]. apply Hseq; [intros; by apply Htok|intros; apply Hmoney]. }
  intros st0. destruct (userPolicyOf g s); [apply Hmoney|done].
Qed.

Lemma books_body As m0 g s kp e a : prese (books As m0) (precheck_body (L := L) (F := F) g s kp e a).
Proof.
  unfold precheck_body, team_checks, key_checks, money_gates, rate_gate, token_gate, quota_gate, lease_gate, return_if, reserve.
  assert (∀ bs prev, pres (books As m0) (check_gates (L := L) (F := F) g bs prev)) as Hgates.
  { induction bs as [|b bs IH]; intros prev; simpl; [apply pres_ret|]. apply pres_bind; [|intros; apply IH].
    unfold check_gate. repeat pres_step; auto with books. }
  assert (∀ f, pres (books As m0) (update_adm (L := L) a (add_rate f))) as Hadd by (intros f; by apply books_update_adm).
  repeat (pres_step || (progress cbv beta zeta)); auto with books.
Qed.

(** An admitted request has one more open admission, its own; a refused one none. *)
Lemma PreCheck_books As m0 g s kp e (st : Gov) : books As m0 st →
  wp (PreCheck g s kp e) (λ d st', if d_Allowed d then books (As ∪ handle (d_Admission d)) m0 st' else books As m0 st') st.
Proof.
  intros [Ho Hp]. unfold PreCheck. rewrite wp_bind. unfold new_admission, wp at 1. cbn [fst snd]. set (a := new_loc _). set (st1 := with_admissions _ st).
  assert (books (As ∪ {[ a ]}) m0 st1) as H1.
  { split; [|done]. intros i x. unfold st1. simpl. intros [[<- _]|[_ Hx]]%lookup_insert_Some Hn; [set_solver|]. apply elem_of_union_l. by eapply Ho. }
  rewrite wp_bind. eapply wp_mono; [apply (wp_and _ _ (λ _ g', books (As ∪ {[ a ]}) m0 g') _ (precheck_decides g s kp e a st1)); exact (books_body _ _ g s kp e a _ H1)|].
  intros r st2 [Hd Hb]. cbv zeta. destruct (d_Allowed (decided a r)) eqn:Ed.
  - rewrite wp_bind, wp_ret, wp_ret, Ed, (Hd Ed). done.
  - rewrite wp_bind. unfold Cancel, wp at 1. pose proof (once_closes As m0 a (Some 0) st2 Hb) as Hc. rewrite wp_ret, Ed. exact Hc.
Qed.
End books.

(** ** The money of attempts *)

Lemma ste_lift_run {S E X} (m : ST S X) s : (ste_lift m : STE S E X) s = (Ok (m s).1, (m s).2).
Proof. unfold ste_lift. by destruct (m s). Qed.

Section ledger.
Context {L F B A S : Type} `{!LimiterStore L F} `{!BudgetStore B} `{!BudgetAuthority A} `{!SharedAuthority S}.
Context (range : gmap string nat → list (string * nat)) (decode : string → option json).
Abbreviation Gov := (Governor.State L F B).
Abbreviation St := (Backends L F B A S).

Context (T0 : gset nat).

(** What is open: admissions of [As], attempts of [Ts], and permits of [P0] or
    of an open attempt that is not one of the old ones [T0]. *)
Record open_books (P0 As Ts : gset nat) (st : St) : Prop := {
  ob_admissions : open_in As (bk_gov st);
  ob_attempts i a : bk_attempts st !! i = Some a → at_done a = false → i ∈ Ts;
  ob_permits id p : permits (bk_gov st) !! id = Some p → p_once p = false →
    id ∈ P0 ∨ ∃ i a, i ∉ T0 ∧ bk_attempts st !! i = Some a ∧ at_done a = false ∧ at_local a = Some id ∧ at_shared a = None;
  ob_old : T0 ⊆ dom (bk_attempts st) }.

Definition keeps_books {X} (m : ST St X) : Prop := ∀ P0 As Ts st, open_books P0 As Ts st → open_books P0 As Ts (m st).2.

Lemma kb_ret {X} (x : X) : keeps_books (mret x).
Proof. by intros P0 As Ts st. Qed.
Lemma kb_bind {X Y} (m : ST St X) (f : X → ST St Y) : keeps_books m → (∀ x, keeps_books (f x)) → keeps_books (m ≫= f).
Proof. intros Hm Hf P0 As Ts st Hb. rewrite bind_snd. by apply Hf, Hm. Qed.
Lemma kb_auth {X} (m : A → X * A) : keeps_books (on_auth m).
Proof. intros P0 As Ts st [H1 H2 H3 H4]. unfold on_auth. by destruct (m _). Qed.
Lemma kb_shared {X} (m : S → X * S) : keeps_books (on_shared m).
Proof. intros P0 As Ts st [H1 H2 H3 H4]. unfold on_shared. by destruct (m _). Qed.
Lemma kb_observe o : keeps_books (observe o).
Proof. by intros P0 As Ts st [H1 H2 H3 H4]. Qed.

Lemma on_gov_open {X} (m : ST Gov X) P0 As As' Ts st :
  open_books P0 As Ts st → books As' (permits (bk_gov st)) (m (bk_gov st)).2 → open_books P0 As' Ts (on_gov m st).2.
Proof.
  intros [H1 H2 H3 H4] [Ho Hp]. unfold on_gov. destruct (m (bk_gov st)) as [x g]. split; simpl in *; [done|done| |done]. by rewrite Hp.
Qed.
Lemma kb_gov {X} (m : ST Gov X) : (∀ As m0, pres (books As m0) m) → keeps_books (on_gov m).
Proof. intros Hm P0 As Ts st Hb. eapply on_gov_open; [done|]. apply Hm. split; [apply Hb|done]. Qed.

Create HintDb kb discriminated.
#[local] Hint Resolve kb_ret kb_auth kb_shared kb_observe : kb.
#[local] Hint Extern 2 (keeps_books (on_gov (emit _))) => apply kb_gov; intros; apply books_emit : kb.

Lemma kb_each f l : (∀ a As m0, pres (books As m0) (f a)) → keeps_books (each_admission f l).
Proof. intros Hf. induction l as [|a l IH]; simpl; [auto with kb|]. apply kb_bind; [apply kb_gov; auto|done]. Qed.
Lemma kb_limits g s limits b q : keeps_books (observe_limits g s limits b q).
Proof.
  revert b q. induction limits as [|l limits IH]; intros b q; simpl; [auto with kb|]. destruct (_ <=? _); [done|].
  repeat (apply kb_bind; [case_match; auto with kb|intros _]). apply IH.
Qed.
Lemma kb_ObserveShared g s : keeps_books (ObserveShared g s).
Proof.
  unfold ObserveShared. case_match; [auto with kb|]. apply kb_bind; [auto with kb|]. intros [limits|e]; [|auto with kb].
  apply kb_bind; [apply kb_limits|]. intros r. apply kb_bind; auto with kb.
Qed.
Lemma kb_finish_authority a actual complete : keeps_books (finish_authority a actual complete).
Proof. unfold finish_authority. repeat case_match; auto with kb. apply kb_bind; auto with kb. Qed.

(** *** Finishing *)

(** The same attempt, as far as it is open. *)
Lemma put_same i a a' P0 As Ts st :
  bk_attempts st !! i = Some a → at_done a' = at_done a → at_local a' = at_local a → at_shared a' = at_shared a →
  open_books P0 As Ts st → open_books P0 As Ts (put_attempt i a' st).2.
Proof.
  intros Ha Ed El Es [H1 H2 H3 H4]. split; simpl; [done| | |rewrite ?dom_insert_L; set_solver].
  - intros j b [[<- <-]|[_ Hb]]%lookup_insert_Some Hd; [eapply H2; [exact Ha|congruence]|by eapply H2].
  - intros id p Hp Hn. destruct (H3 id p Hp Hn) as [|(j & b & Hj0 & Hj & Hd & Hl & Hs)]; [by left|right].
    destruct (decide (j = i)) as [->|Hne]; [|exists j, b; by rewrite lookup_insert_ne].
    exists i, a'. rewrite lookup_insert_eq. replace b with a in * by congruence. split; [done|]. split; [done|]. split_and!; congruence.
Qed.

(** A finished permit is open no more. *)
Lemma finished_permits g local actual complete invalid provider model (gv : Gov) id p :
  permits (FinishLocalBudget g local actual complete invalid provider model gv).2 !! id = Some p → p_once p = false →
  permits gv !! id = Some p ∧ local ≠ Some id.
Proof.
  destruct local as [k|]; [|done]. pose proof (FinishLocalBudget_permits g k actual complete invalid provider model gv) as Hf. unfold wp in Hf.
  rewrite Hf. destruct (permits gv !! k) as [q|] eqn:Eq; [|intros Hp Hn; split; [done|congruence]].
  destruct (p_once q) eqn:Eo.
  - intros Hp Hn. split; [done|]. intros [= ->]. congruence.
  - simpl. intros [[<- <-]|[Hne Hp]]%lookup_insert_Some Hn; [done|]. split; [done|congruence].
Qed.

Lemma open_Finish g local actual complete invalid provider model As (gv : Gov) : open_in As gv →
  open_in As (FinishLocalBudget g local actual complete invalid provider model gv).2.
Proof. intros Ho. apply (pres_Finish (open_in As)); [apply open_in_robust|done]. Qed.

(** Marking an attempt done frees it, once its permit is finished or shared. *)
Lemma done_open i a P0 As Ts st gv :
  bk_attempts st !! i = Some a → open_books P0 As Ts st → open_in As gv →
  (∀ id p, permits gv !! id = Some p → p_once p = false → permits (bk_gov st) !! id = Some p ∧ (at_shared a = None → at_local a ≠ Some id)) →
  open_books P0 As Ts (mkBackends gv (bk_auth st) (bk_shared st) (<[i := with_done a]> (bk_attempts st)) (bk_observed st)).
Proof.
  intros Ha [H1 H2 H3 H4] Ho Hp. split; simpl; [done| | |rewrite ?dom_insert_L; set_solver].
  - intros j b [[<- <-]|[_ Hb]]%lookup_insert_Some Hd; [done|by eapply H2].
  - intros id p Hid Hn. destruct (Hp id p Hid Hn) as [Hid' Hl]. destruct (H3 id p Hid' Hn) as [|(j & b & Hj0 & Hj & Hd & Hlb & Hs)]; [by left|right].
    exists j, b. split; [done|]. split; [|done]. destruct (decide (j = i)) as [->|Hne]; [|by rewrite lookup_insert_ne].
    replace b with a in * by congruence. by destruct (Hl Hs).
Qed.

Lemma finishShared_open i a permit settlement P0 As Ts st : at_shared a = Some permit →
  bk_attempts st !! i = Some a → open_books P0 As Ts st → open_books P0 As Ts (finishShared i a permit settlement st).2.
Proof.
  intros Hs Ha Hb. unfold finishShared, finish_once. destruct (at_done a); [done|]. rewrite bind_snd.
  assert (keeps_books (r ← on_shared (sa_FinishShared permit settlement); match r with Err _ => mret tt | Ok _ => ObserveShared (at_governor a) (at_subject a) end)) as Hk.
  { apply kb_bind; [auto with kb|]. intros []; [apply kb_ObserveShared|auto with kb]. }
  apply Hk. eapply done_open; [done|done|apply Hb|]. intros id p Hp _. split; [done|]. congruence.
Qed.

Lemma finishObserved_open i a la aa complete P0 As Ts st :
  bk_attempts st !! i = Some a → open_books P0 As Ts st → open_books P0 As Ts (finishObserved i a la aa complete st).2.
Proof.
  intros Ha Hb. unfold finishObserved. destruct (at_shared a) eqn:Es; [by apply finishShared_open|].
  unfold finish_once. destruct (at_done a) eqn:Ed; [done|]. rewrite !bind_snd. apply kb_finish_authority.
  set (m := FinishLocalBudget _ _ _ _ _ _ _).
  assert (open_books P0 As Ts (mkBackends (m (bk_gov st)).2 (bk_auth st) (bk_shared st) (<[i := with_done a]> (bk_attempts st)) (bk_observed st))) as Hd.
  { eapply done_open; [done|done|apply open_Finish, Hb|]. intros id p Hp Hn. destruct (finished_permits _ _ _ _ _ _ _ _ _ _ Hp Hn). auto. }
  unfold on_gov. simpl. destruct (m (bk_gov st)) as [[] gv]. exact Hd.
Qed.

Lemma run_op_open i op P0 As Ts st : open_books P0 As Ts st → open_books P0 As Ts (run_op i op st).2.
Proof.
  intros Hb. destruct (bk_attempts st !! i) as [a|] eqn:Ea.
  2: { destruct op; simpl; unfold SettleBudget, finalize; rewrite !bind_snd; unfold get_attempt; simpl; rewrite Ea; [by apply kb_observe|done]. }
  destruct op as [cost usage complete|]; simpl run_op.
  - unfold SettleBudget. rewrite bind_snd. unfold get_attempt at 1 2. simpl. rewrite Ea, bind_snd. apply kb_observe.
    unfold settle_attempt. destruct (at_shared a) as [permit|] eqn:Es; [unfold settleShared; rewrite bind_snd; by apply finishShared_open|].
    assert (∀ inv la aa c, open_books P0 As Ts (finishObserved i (with_invalid inv a) la aa c (put_attempt i (with_invalid inv a) st).2).2) as Hf.
    { intros inv la aa c. apply finishObserved_open; [simpl; by rewrite lookup_insert_eq|]. by apply (put_same i a). }
    destruct (authorityUsage usage (at_window a)) as [[u exact] invalid]. unfold settle_uncertain.
    destruct (_ || _)%bool; [rewrite !bind_snd; apply Hf|]. destruct (CostUSDMicrosChecked _ _ _ u); rewrite !bind_snd; apply Hf.
  - unfold finalize. rewrite bind_snd. unfold get_attempt at 1 2. simpl. rewrite Ea. destruct (at_shared a) eqn:Es.
    + by apply finishShared_open.
    + by apply finishObserved_open.
Qed.

Lemma SettleBudget_keeps i cost usage complete : keeps_books (SettleBudget i cost usage complete).
Proof.
  intros P0 As Ts st Hb. destruct i as [i|]; [by apply (run_op_open i (SettlementTheorems.Settle cost usage complete))|by apply kb_observe].
Qed.

(** The finalizer frees its attempt. *)
Lemma finalize_closes i P0 As Ts st : open_books P0 As (Ts ∪ {[ i ]}) st → open_books P0 As Ts (finalize i st).2.
Proof.
  intros Hb. pose proof (run_op_open i Finalize _ _ _ st Hb) as [H1 H2 H3 H4]. simpl in *. split; [done| |done|done].
  intros j b Hj Hd. specialize (H2 j b Hj Hd). apply elem_of_union in H2 as [H2| ->%elem_of_singleton]; [done|]. exfalso.
  destruct (bk_attempts st !! i) as [a|] eqn:Ea.
  - destruct (run_op_attempts i Finalize st a Ea) as (a' & Hat & _). simpl in Hat. rewrite Hat, lookup_insert_eq in Hj. by simplify_eq.
  - unfold finalize in Hj. rewrite bind_snd in Hj. unfold get_attempt in Hj. simpl in Hj. rewrite Ea in Hj. simpl in Hj. congruence.
Qed.

(** *** Reserving *)

Lemma new_attempt_open a P0 As Ts st : at_done a = false → (at_shared a = None ∨ at_local a = None) →
  open_books (P0 ∪ handle (at_local a)) As Ts st → wp (new_attempt a) (λ i, open_books P0 As (Ts ∪ {[ i ]})) st.
Proof.
  intros Hd Hs [H1 H2 H3 H4]. unfold new_attempt, wp. cbn [fst snd]. set (i := new_loc _). pose proof (new_loc_None (bk_attempts st)) as Hn. fold i in Hn.
  split; simpl; [done| | |rewrite ?dom_insert_L; set_solver].
  - intros j b [[<- <-]|[_ Hb]]%lookup_insert_Some Hdb; [set_solver|]. apply elem_of_union_l. by eapply H2.
  - intros id p Hp Ho. destruct (H3 id p Hp Ho) as [Hin|(j & b & Hj0 & Hj & Hrest)].
    + apply elem_of_union in Hin as [|Hin]; [by left|right]. exists i, a. split; [intros Hi%H4; apply elem_of_dom in Hi as [? Hi]; congruence|]. rewrite lookup_insert_eq.
      destruct (at_local a) as [k|] eqn:El; simpl in Hin; [|set_solver]. apply elem_of_singleton in Hin as ->.
      destruct Hs; [|congruence]. done.
    + right. exists j, b. split; [done|]. rewrite lookup_insert_ne; [done|]. congruence.
Qed.

(** What a reservation may leave open: its attempt. *)
Definition reserved_open (P0 As Ts : gset nat) (r : result AdmissionError (option nat)) (st : St) : Prop :=
  match r with Ok (Some i) => open_books P0 As (Ts ∪ {[ i ]}) st | _ => open_books P0 As Ts st end.

Lemma reserveShared_open g p bundle target table window bound P0 As Ts st : open_books P0 As Ts st →
  wp (reserveShared g p bundle target table window bound : ST St _) (reserved_open P0 As Ts) st.
Proof.
  intros Hb. unfold reserveShared. destruct (_ || _)%bool; [done|]. destruct (default _ bundle) as [generation requested].
  unfold wp. rewrite ste_bind_run. unfold checked. pose proof (kb_shared (sa_ReserveShared (mkSharedRequest
    (if pr_IdentityRequired p then pr_IdentityFingerprint p else "") (attempt_subject p) (pr_SharedRevision p) generation requested
    (ct_Model target) (wrap64 (5 * window)) bound)) _ _ _ _ Hb) as Hb1.
  destruct (on_shared _ st) as [[[permit|]|e] st1]; simpl in Hb1; [|done|done].
  rewrite ste_bind_run. unfold ste_lift. set (a := mkAttempt _ _ _ _ _ _ _ _ _ _ _).
  pose proof (new_attempt_open a P0 As Ts st1 eq_refl (or_intror eq_refl)) as Hn. unfold wp in Hn.
  destruct (new_attempt a st1) as [i st2]. simpl in *. apply Hn. by rewrite union_empty_r_L.
Qed.

Lemma kb_Own l : keeps_books (each_admission OwnLocalMoney l).
Proof. apply kb_each. intros. apply books_Own. Qed.

Lemma open_books_weaken P0 P1 As Ts st : P0 ⊆ P1 → open_books P0 As Ts st → open_books P1 As Ts st.
Proof. intros Hs [H1 H2 H3 H4]. split; [done|done| |done]. intros id p Hp Ho. destruct (H3 id p Hp Ho); [left; set_solver|by right]. Qed.

(** The node's ledger grants a permit, or changes no permit. *)
Lemma ReserveLocal_open g p bound bounded P0 As Ts st : open_books P0 As Ts st →
  wp (on_gov (ReserveLocalBudget range g (attempt_subject p) (attempt_key p) bound bounded))
    (λ r, open_books (P0 ∪ handle (match r with Ok local => local | Err _ => None end)) As Ts) st.
Proof.
  intros [H1 H2 H3 H4]. pose proof (ReserveLocalBudget_atomic range g (attempt_subject p) (attempt_key p) bound bounded (bk_gov st)) as Ha.
  pose proof (pres_Reserve range (open_in As) g (attempt_subject p) (attempt_key p) bound bounded (open_in_robust As) (bk_gov st) H1) as Ho.
  unfold wp, on_gov in *. destruct (ReserveLocalBudget _ _ _ _ _ _ _) as [r gv]. cbn [fst snd] in *. split; simpl; [done|done| |done].
  intros id q Hq Hn. destruct r as [[k|]|e].
  - destruct Ha as (_ & _ & Hk & holds & _ & Epm). rewrite Epm in Hq. apply lookup_insert_Some in Hq as [[<- <-]|[_ Hq]]; [left; set_solver|].
    destruct (H3 id q Hq Hn); [left; set_solver|by right].
  - destruct Ha as [_ ->]. destruct (H3 id q Hq Hn); [left; set_solver|by right].
  - destruct Ha as [E _]. rewrite E in Hq. destruct (H3 id q Hq Hn); [left; set_solver|by right].
Qed.

(** A grant that is given back is closed. *)
Lemma give_back_open g local actual complete invalid provider model P0 As Ts st : open_books (P0 ∪ handle local) As Ts st →
  open_books P0 As Ts (on_gov (FinishLocalBudget g local actual complete invalid provider model) st).2.
Proof.
  intros [H1 H2 H3 H4]. pose proof (open_Finish g local actual complete invalid provider model As (bk_gov st) H1) as Ho.
  pose proof (λ id p, finished_permits g local actual complete invalid provider model (bk_gov st) id p) as Hp.
  unfold on_gov. destruct (FinishLocalBudget _ _ _ _ _ _ _ _) as [[] gv]. split; simpl in *; [done|done| |done].
  intros id q Hq Hn. destruct (Hp id q Hq Hn) as [Hq' Hne]. destruct (H3 id q Hq' Hn) as [Hin|]; [|by right].
  apply elem_of_union in Hin as [|Hin]; [by left|]. destruct local as [k|]; simpl in Hin; [|set_solver].
  apply elem_of_singleton in Hin as ->. done.
Qed.

Lemma reserveLocal_open g p target table window bound bounded admissions P0 As Ts st : open_books P0 As Ts st →
  wp (reserveLocal range g p target table window bound bounded admissions : ST St _) (reserved_open P0 As Ts) st.
Proof.
  intros Hb. unfold reserveLocal, wp. rewrite ste_bind_run. pose proof (ReserveLocal_open g p bound bounded P0 As Ts st Hb) as Hl.
  unfold checked, wp in *. destruct (on_gov (ReserveLocalBudget _ _ _ _ _ _) st) as [[local|e1] st1]; cbn [fst snd] in *.
  2: { simpl in *. by rewrite union_empty_r_L in Hl. }
  set (own := if is_Some_b local then _ else _). rewrite ste_bind_run.
  assert (∃ st2, own st1 = (Ok tt, st2) ∧ open_books (P0 ∪ handle local) As Ts st2) as (st2 & -> & Hl2).
  { unfold own. destruct (is_Some_b local); [|by exists st1]. unfold ste_lift. pose proof (kb_Own admissions _ _ _ _ Hl) as Hk.
    destruct (each_admission _ _ _) as [[] st2]. by exists st2. }
  clear own. cbv zeta. set (attempt := λ permit : option BudgetPermit, mkAttempt g permit None local false {| s_Team := ""; s_KeyID := ""; s_User := "" |} false table
    (ct_ProviderName target) (ct_Upstream target) (if window <=? 0 then MaxInt64 else window)).
  assert (∀ permit st, open_books (P0 ∪ handle local) As Ts st →
    let r := (i ← ste_lift (new_attempt (attempt permit)); mret (Some i) : STE St AdmissionError (option nat)) st in reserved_open P0 As Ts r.1 r.2) as Hnew.
  { intros permit st3 H3. rewrite ste_bind_run. unfold ste_lift. pose proof (new_attempt_open (attempt permit) P0 As Ts st3 eq_refl (or_introl eq_refl) H3) as Hn.
    unfold wp in Hn. by destruct (new_attempt _ st3) as [i st4]. }
  destruct (negb _); [exact (Hnew None st2 Hl2)|]. rewrite ste_bind_run, ste_lift_run.
  pose proof (kb_auth (ba_Reserve (attempt_subject p) bound) _ _ _ _ Hl2) as Hl3. destruct (on_auth _ st2) as [r st3]. cbn [fst snd] in Hl3.
  assert (∀ e, let r := (_ ← ste_lift (on_gov (FinishLocalBudget g local None true false "" "")); early e : STE St AdmissionError (option nat)) st3 in
    reserved_open P0 As Ts r.1 r.2) as Hgive.
  { intros e. rewrite ste_bind_run. unfold ste_lift, early. pose proof (give_back_open g local None true false "" "" _ _ _ _ Hl3) as Hg.
    by destruct (on_gov _ st3) as [[] st4]. }
  destruct r as [[permit|]|e]; [exact (Hnew (Some permit) st3 Hl3)|exact (Hgive _)|exact (Hgive _)].
Qed.

Lemma reserve_body_open g p bundle target state raw admissions P0 As Ts st : open_books P0 As Ts st →
  wp (reserve_body range decode g p bundle target state raw admissions : ST St _) (reserved_open P0 As Ts) st.
Proof.
  intros Hb. unfold reserve_body. destruct g as [g|]; [|done]. destruct (negb _); [done|]. unfold wp. rewrite ste_bind_run.
  unfold checked, mret, st_mret. destruct (singleGeneration decode raw) as [[]|e]; [|done]. destruct state as [state|]; [|done].
  destruct (Route state (ct_Model target)) as [model|]; [|done]. destruct (bound_of _ _ _) as [bound bounded].
  destruct (_ && _)%bool; [done|]. destruct (HasSharedAuthority g); [by apply reserveShared_open|by apply reserveLocal_open].
Qed.

Lemma ReserveBudget_open g p bundle target state raw admissions P0 As Ts st : open_books P0 As Ts st →
  wp (ReserveBudget range decode g p bundle target state raw admissions) (reserved_open P0 As Ts) st.
Proof.
  intros Hb. unfold ReserveBudget. rewrite wp_bind. unfold observe, wp at 1. cbn [fst snd]. rewrite wp_bind.
  eapply wp_mono; [apply reserve_body_open; by apply (kb_observe ObservedAttempt) in Hb|]. intros r st1 Hr. rewrite wp_bind.
  assert (keeps_books (each_admission (match r with Err _ => CancelUndispatched | Ok _ => MarkDispatched end) admissions)) as Hk.
  { apply kb_each. intros. destruct r; [apply books_Mark|apply books_Cancel]. }
  unfold wp, mret, st_mret. cbn [fst snd]. destruct r as [[i|]|e]; by apply Hk.
Qed.
End ledger.

(** ** The handler *)

Section serving.
Context {L F B A S D P Ch R : Type} `{!LimiterStore L F} `{!BudgetStore B} `{!BudgetAuthority A} `{!SharedAuthority S} `{!EqDecision D} `{!Countable D} `{!ResponsesWire P Ch R}.
Context (T0 P0 : gset nat).
Abbreviation Sv := (Server L F B A S D).

(** The open admissions and attempts as the ghost state. *)
Definition ledgers (sv : Sv) (g : gset nat * gset nat) : Prop := open_books T0 P0 g.1 g.2 (sv_money sv).
Definition still {X} (m : ST Sv X) : Prop := ∀ g, trip ledgers m g (λ _ g', g' = g).

Lemma still_use {X} (m : ST Sv X) g (Q : X → _ → Prop) : still m → (∀ x, Q x g) → trip ledgers m g Q.
Proof. intros Hm HQ. eapply trip_mono; [apply Hm|]. by intros x g' ->. Qed.
Lemma still_ret {X} (x : X) : still (mret x).
Proof. intros g. by apply trip_ret. Qed.
Lemma still_bind {X Y} (m : ST Sv X) (f : X → ST Sv Y) : still m → (∀ x, still (f x)) → still (m ≫= f).
Proof. intros Hm Hf g. apply trip_bind, still_use; [done|]. intros x. apply Hf. Qed.
Lemma still_say a : still (say a).
Proof. intros g sv Hi. by exists g. Qed.
Lemma still_tick : still tick.
Proof. intros g sv Hi. by exists g. Qed.
Lemma still_full {X} (m : ST _ X) : still (on_full m).
Proof. intros g sv Hi. exists g. unfold on_full. by destruct (m _). Qed.
Lemma still_collector {X} (m : ST _ X) : still (on_collector m).
Proof. intros g sv Hi. exists g. unfold on_collector. by destruct (m _). Qed.
Lemma still_tebind {T X Y} (m : STE Sv T X) (f : X → STE Sv T Y) :
  still (m : ST Sv (result T X)) → (∀ x, still (f x : ST Sv (result T Y))) → still (m ≫= f : ST Sv (result T Y)).
Proof. intros Hm Hf g. apply tripe_bind, still_use; [done|]. intros [x|e]; [apply Hf|done]. Qed.
Lemma still_telift {T X} (m : ST Sv X) : still m → still (ste_lift m : ST Sv (result T X)).
Proof. intros Hm g. by apply tripe_lift, still_use. Qed.
Lemma still_teret {T X} (x : X) : still (mret x : STE Sv T X).
Proof. intros g. by apply tripe_ret. Qed.
Lemma still_early {T X} (e : T) : still (early e : STE Sv T X).
Proof. intros g. by apply tripe_early. Qed.

(** Money moves: a transition of what is open. *)
Lemma money_trip {X} (m : ST _ X) g (Q : X → _ → Prop) :
  (∀ st, open_books T0 P0 g.1 g.2 st → wp m (λ x st', ∃ g', open_books T0 P0 g'.1 g'.2 st' ∧ Q x g') st) → trip ledgers (on_money m : ST Sv X) g Q.
Proof. intros Hm sv Hi. specialize (Hm _ Hi). unfold wp, on_money in *. by destruct (m _). Qed.
Lemma still_money {X} (m : ST _ X) : keeps_books T0 m → still (on_money m : ST Sv X).
Proof. intros Hm g. apply money_trip. intros st Hb. exists g. split; [by apply Hm|done]. Qed.
Lemma still_Settle g s kp pr mo u t a : still (on_money (on_gov (Governance.Settle g s kp pr mo u t a)) : ST Sv _).
Proof. apply still_money, kb_gov. intros As m0. apply books_Settle. Qed.
Lemma still_SettleBudget i cost usage complete : still (on_money (SettleBudget i cost usage complete) : ST Sv unit).
Proof. apply still_money, SettleBudget_keeps. Qed.
Lemma still_Close a : still (on_money (on_gov (Close a)) : ST Sv unit).
Proof.
  apply still_money, kb_gov. intros As m0 g [Ho Hp]. apply Close_closes. split; [|done]. eapply open_in_mono; [|done]. set_solver.
Qed.
End serving.

Create HintDb still discriminated.
#[export] Hint Resolve still_ret still_bind still_say still_tick still_full still_collector still_tebind still_telift still_teret still_early
  still_Settle still_SettleBudget still_Close : still.

Ltac still_all := repeat lazymatch goal with
  | |- still _ _ (mbind (M := STE _ _) _ _) => apply still_tebind; [|intros ?]
  | |- still _ _ (mbind (M := ST _) _ _) => apply still_bind; [|intros ?]
  | |- still _ _ (ste_lift _) => apply still_telift
  | |- still _ _ (match ?x with _ => _ end) => destruct x
  | |- still _ _ _ => solve [eauto 3 with still]
  end.

Section walking.
Context {L F B A S D P Ch R : Type} `{!LimiterStore L F} `{!BudgetStore B} `{!BudgetAuthority A} `{!SharedAuthority S} `{!EqDecision D} `{!Countable D} `{!ResponsesWire P Ch R}.
Context (range_nat : gmap string nat → list (string * nat)) (decode : string → option json).
Context (envelope : string → option string) (identity : Shared.Principal → option string).
Context (h : Handler) (E : Env P Ch) (gates : Gates) (range_str : gmap string string → list (string * string)).
Context (T0 P0 : gset nat).
Abbreviation Sv := (Server L F B A S D).
Abbreviation Attempt := (attempt D P).
Abbreviation still := (still (L := L) (F := F) (B := B) (A := A) (S := S) (D := D) T0 P0).
Abbreviation ledgers := (ledgers (L := L) (F := F) (B := B) (A := A) (S := S) (D := D) T0 P0).

(** *** An exchange settles, and leaves what is open as it was *)

Lemma still_write p : still (write E p).
Proof. unfold write. still_all. Qed.
#[local] Hint Resolve still_write : still.
Lemma still_writeError status kind message code : still (writeError E status kind message code).
Proof. unfold writeError. still_all. Qed.
Lemma still_coded status message code : still (writeCodedError E status message code).
Proof. apply still_writeError. Qed.
Lemma still_finish (a : Attempt) code status u body partial ttft : still (finish identity h E a code status u body partial ttft).
Proof. unfold finish, finish_body, finish_usage, capture, append_finished, append, ctx_Err, ulid_New. still_all. Qed.
Lemma still_denied (ctx : Ctx D) p model status reason : still (denied identity h E ctx p model status reason).
Proof. unfold denied, append_finished, append, ctx_Err, ulid_New. still_all. Qed.
Lemma still_started (a : Attempt) : still (started identity h E a).
Proof. unfold started, append, ulid_New. still_all. Qed.
Lemma still_RecordSuccess (ctx : Ctx D) : still (RecordSuccess E ctx).
Proof. unfold RecordSuccess, ctx_alive, ctx_Err. still_all. Qed.
Lemma still_endFailed err status retried : still (endFailedAttempt E err status retried).
Proof. unfold endFailedAttempt, ctx_Err. still_all. Qed.
Lemma still_may_retry last status : still (may_retry E last status).
Proof. unfold may_retry, ctx_alive, ctx_Err. still_all. Qed.
Lemma still_commit (a : Attempt) (s : Streaming R) : still (commit a s).
Proof. unfold commit. still_all. Qed.
Lemma still_call streamed (a : Attempt) : still (call streamed a).
Proof. unfold call. still_all. Qed.
#[local] Hint Resolve still_writeError still_coded still_finish still_denied still_started still_RecordSuccess still_endFailed still_may_retry still_commit still_call : still.

Lemma still_failed_call (a : Attempt) last err code message : still (failed_call identity h E a last err code message).
Proof. unfold failed_call. cbv zeta. still_all. Qed.
#[local] Hint Resolve still_failed_call : still.
Lemma still_complete_response (a : Attempt) last resp : still (complete_response envelope identity h E a last resp).
Proof. unfold complete_response, refused_response, unusable, accepted_response, ctx_Err, record_result, EndOpen. cbv zeta. still_all. Qed.
#[local] Hint Resolve still_complete_response : still.
Lemma still_complete (a : Attempt) last : still (complete envelope identity h E a last).
Proof. unfold complete. still_all. Qed.

Lemma still_fail (a : Attempt) last (s : Streaming R) cause : still (fail envelope identity h E a last s cause).
Proof. unfold fail, fail_committed, fail_uncommitted, ctx_Err. cbv zeta. still_all. Qed.
Lemma still_failing {X} (a : Attempt) last (s : Streaming R) cause : still (failing (X := X) envelope identity h E a last s cause).
Proof. unfold failing. apply still_tebind; [apply still_telift, still_fail|]. eauto with still. Qed.
#[local] Hint Resolve still_failing : still.
Lemma still_flush : still (flush : STE Sv bool unit).
Proof. apply still_telift. eauto with still. Qed.
#[local] Hint Resolve still_flush : still.
Lemma still_emit_bytes (a : Attempt) last (s : Streaming R) p : still (emit_bytes envelope identity h E a last s p).
Proof. unfold emit_bytes. still_all. Qed.
#[local] Hint Resolve still_emit_bytes : still.
Lemma still_emit_events (a : Attempt) last events (s : Streaming R) : still (emit_events envelope identity h E a last s events).
Proof. revert s. induction events as [|e events IH]; intros s; simpl; eauto with still. Qed.
#[local] Hint Resolve still_emit_events : still.
Lemma still_stream_event (a : Attempt) last (s : Streaming R) e : still (stream_event envelope identity h E a last s e).
Proof. unfold stream_event. cbv zeta. still_all. Qed.
#[local] Hint Resolve still_stream_event : still.
Lemma still_stream_loop (a : Attempt) last seq (s : Streaming R) : still (stream_loop envelope identity h E a last s seq).
Proof. revert s. induction seq as [|[[e|]|e] seq IH]; intros s; simpl; eauto with still. Qed.
Lemma still_stream_end (a : Attempt) last (s : Streaming R) : still (stream_end envelope identity h E a last s).
Proof. unfold stream_end, ctx_Err, record_result. cbv zeta. still_all. Qed.
#[local] Hint Resolve still_stream_loop still_stream_end : still.
Lemma still_stream (a : Attempt) last : still (stream envelope identity h E a last).
Proof. unfold stream. still_all. Qed.
#[local] Hint Resolve still_complete still_stream : still.

(** *** What a request opens it closes *)

Lemma still_deny_with rq status reason kind message : still (deny_with (P := P) (Ch := Ch) identity h E rq status reason kind message).
Proof. unfold deny_with. still_all. Qed.
#[local] Hint Resolve still_deny_with : still.
Lemma still_deny_decision rq d kind : still (deny_decision (P := P) (Ch := Ch) identity h E rq d kind).
Proof. unfold deny_decision. still_all. Qed.
#[local] Hint Resolve still_deny_decision : still.

(** An admission opens at most its own. *)
Lemma admission_opens rq g As Ts : trip ledgers (admission_of (P := P) (Ch := Ch) identity h E rq g) (As, Ts)
  (λ r g', g' = (match r with Ok a => As ∪ handle a | Err _ => As end, Ts)).
Proof.
  unfold admission_of. apply tripe_bind, tripe_lift, money_trip. intros st Hb.
  pose proof (PreCheck_books As (permits (bk_gov st)) g (subject (ro_p rq)) (keyPolicy (ro_p rq)) (ro_estimate rq) (bk_gov st)) as Hp.
  specialize (Hp (conj (ob_admissions _ _ _ _ _ Hb) eq_refl)). pose proof (λ As', on_gov_open T0 (PreCheck g (subject (ro_p rq)) (keyPolicy (ro_p rq)) (ro_estimate rq)) P0 As As' Ts st Hb) as Ho.
  unfold wp, on_gov in *. destruct (PreCheck _ _ _ _ _) as [d gv]. cbn [fst snd] in *. destruct (d_Allowed d).
  - exists (As ∪ handle (d_Admission d), Ts). split; [by apply Ho|]. by apply tripe_ret.
  - exists (As, Ts). split; [by apply Ho|]. apply tripe_bind, tripe_lift, still_use; [auto with still|]. intros _. by apply tripe_early.
Qed.

Lemma closing_still (k : option nat → ST Sv unit) rq g : (∀ a, still (k a)) →
  still (r ← admission_of (P := P) (Ch := Ch) identity h E rq g;
         match r with Err _ => mret tt | Ok a => _ ← k a; on_money (on_gov (Close a)) end).
Proof.
  intros Hk [As Ts]. apply trip_bind. eapply trip_mono; [apply admission_opens|]. intros [a|e] g' ->; [|by apply trip_ret].
  apply trip_bind, still_use; [apply Hk|]. intros _. apply money_trip. intros st Hb. exists (As, Ts). split; [|done].
  eapply on_gov_open; [exact Hb|]. apply Close_closes. split; [apply (ob_admissions _ _ _ _ _ Hb)|done].
Qed.

(** The finalizer of a reservation frees it. *)
Lemma finish_budget_closes budget As Ts : trip ledgers (finish_budget budget) (As, Ts ∪ handle budget) (λ _ g, g = (As, Ts)).
Proof.
  destruct budget as [i|]; simpl; [|apply trip_ret; by rewrite union_empty_r_L].
  apply money_trip. intros st Hb. exists (As, Ts). split; [by apply finalize_closes|done].
Qed.
Lemma still_finish_budget budget : still (finish_budget budget).
Proof.
  destruct budget as [i|]; [|apply still_ret]. apply still_money. intros P1 As Ts st Hb. by apply (run_op_open T0 i Finalize).
Qed.
#[local] Hint Resolve still_finish_budget : still.

Lemma reserve_opens rq ct admissions As Ts :
  trip ledgers (on_money (ReserveBudget range_nat decode (h_gov h) (ro_p rq) (cx_bundle (ro_ctx rq)) ct (ro_state rq) (ro_raw (P := P) (D := D) rq) admissions)) (As, Ts)
    (λ r g', g' = (As, Ts ∪ match r with Ok budget => handle budget | Err _ => ∅ end)).
Proof.
  apply money_trip. intros st Hb. eapply wp_mono; [by apply ReserveBudget_open|]. unfold reserved_open.
  intros r st' Hr. eexists (As, Ts ∪ _). split; [|done]. cbn [fst snd]. destruct r as [[i|]|e]; simpl in *; by rewrite ?union_empty_r_L.
Qed.

Lemma run_attempt_closes rq a budget last As Ts :
  trip ledgers (run_attempt envelope identity h E rq a budget last) (As, Ts ∪ handle budget) (λ _ g, g = (As, Ts)).
Proof.
  unfold run_attempt. apply trip_bind, still_use; [auto with still|intros _].
  apply trip_bind, still_use; [destruct (ro_stream rq); auto with still|intros retry].
  apply trip_bind. eapply trip_mono; [apply finish_budget_closes|]. intros _ g ->. by apply trip_ret.
Qed.

Lemma still_try_target rq first admission ct next rest : still rest →
  still (try_target range_nat decode envelope identity h E rq first admission ct next rest).
Proof.
  intros Hrest [As Ts]. unfold try_target. destruct (proxy_of rq ct) as [pr|]; [|apply still_deny_with].
  apply trip_bind, still_use; [unfold fallback_headers; still_all|intros _].
  apply trip_bind. eapply trip_mono; [apply reserve_opens|]. intros [budget|e] g ->.
  2: { rewrite union_empty_r_L. apply still_use; [unfold deny_budget; still_all|done]. }
  apply trip_bind. eapply trip_mono; [apply run_attempt_closes|]. intros retry g ->.
  apply still_use; [|done]. apply still_bind; [|auto with still]. unfold record_result, EndOpen. still_all.
Qed.

Lemma still_chain_loop rq chain first admission :
  still (chain_loop range_nat decode envelope identity h E gates range_str rq first admission chain).
Proof.
  revert first admission. induction chain as [|ct chain IH]; intros first admission; simpl; [apply still_ret|].
  destruct (negb _); [unfold deny_target; still_all|]. unfold with_admission.
  destruct (if first then None else h_gov h) as [g|]; [apply closing_still; intros a|]; by apply still_try_target.
Qed.

Lemma still_dispatch rq chain : still (dispatch range_nat decode envelope identity h E gates range_str rq chain).
Proof.
  unfold dispatch. cbv zeta. destruct (negb _); [auto with still|]. destruct (h_gov h) as [g|]; [|apply still_chain_loop].
  apply (closing_still (λ a, chain_loop range_nat decode envelope identity h E gates range_str rq true a chain)). intros a. apply still_chain_loop.
Qed.

Lemma ledgers_front g : front (P := P) (Ch := Ch) identity h E ledgers g (λ g', g' = g).
Proof. split; intros; (apply still_use; [still_all|done]). Qed.
End walking.
