(* ===== verification/ResponsesTheorems.v ===== *)
(** * The Responses server, end to end

    [ServeHTTP] on top of [RouteRequest], from an empty trace: the client is
    answered once, providers are called along the route with the body that the
    policies allow, the audit trail accounts for every call, and no money stays
    reserved. *)

From S2P Require Import Prelude GoTime GoFloat Json Usage V1Alpha1 Policy Pricing Budget Limiter Denial Governor LocalMoney Governance Enforcement Breaker Live Router Boundary Affinity RequestRouting RoutingSafety Escrow Shared Settlement SettlementTheorems AttemptSafety Evidence Exchange Responses ResponsesSafety ResponsesAudit ResponsesLedger.

(** ** What a trace shows its client *)

(** Before the status: headers, calls and what the client does not see. *)
Definition unwritten (a : Act) : bool := match a with WriteHeader _ | Write _ | Flush => false | _ => true end.
(** After it: bytes. *)
Definition written (a : Act) : bool := match a with SetHeader _ _ | DelHeader _ | WriteHeader _ | Dispatch _ _ _ _ => false | _ => true end.

Lemma client_violated l : foldl client_step None l = None.
Proof. by induction l. Qed.
Lemma client_written l : foldl client_step (Some true) l = Some true → forallb written l = true.
Proof. induction l as [|a l IH]; simpl; [done|]. destruct a; simpl; try (by rewrite client_violated); auto. Qed.
Lemma client_spec l : foldl client_step (Some false) l = Some true →
  ∃ before status after, l = before ++ WriteHeader status :: after ∧ forallb unwritten before = true ∧ forallb written after = true.
Proof.
  induction l as [|a l IH]; simpl; [done|].
  destruct a; simpl; try (by rewrite client_violated);
    try (intros Hl; destruct (IH Hl) as (bef & code & aft & -> & Hb & Hk); eexists (_ :: bef), code, aft; split; [reflexivity|by split]).
  intros Hl%client_written. by eexists [], _, l.
Qed.

(** ** What is open *)

Section opened.
Context {L F B A S : Type}.
Abbreviation St := (Backends L F B A S).

Definition open_admission (st : St) (i : nat) : Prop := ∃ x, admissions (bk_gov st) !! i = Some x ∧ a_once x = false.
Definition open_attempt (st : St) (i : nat) : Prop := ∃ a, bk_attempts st !! i = Some a ∧ at_done a = false.
Definition open_permit (st : St) (id : nat) : Prop := ∃ p, Governor.permits (bk_gov st) !! id = Some p ∧ p_once p = false.

Lemma choose_open {X} (m : gmap nat X) (f : X → bool) : ∃ s : gset nat, ∀ i, i ∈ s ↔ ∃ x, m !! i = Some x ∧ f x = false.
Proof.
  exists (dom (filter (λ kv, f kv.2 = false) m)). intros i. rewrite elem_of_dom. split.
  - intros [x [Hm Hf]%map_lookup_filter_Some]. by exists x.
  - intros (x & Hm & Hf). exists x. by apply map_lookup_filter_Some.
Qed.

(** Whatever is open is open. *)
Lemma open_books_now (st : St) : ∃ P0 As Ts, open_books (dom (bk_attempts st)) P0 As Ts st ∧ (∀ i, i ∈ As → open_admission st i)
  ∧ (∀ i, i ∈ Ts → open_attempt st i) ∧ (∀ id, id ∈ P0 → open_permit st id).
Proof.
  destruct (choose_open (Governor.permits (bk_gov st)) p_once) as [P0 HP]. destruct (choose_open (admissions (bk_gov st)) a_once) as [As HA].
  destruct (choose_open (bk_attempts st) at_done) as [Ts HT]. exists P0, As, Ts. split; [split|split; [|split]].
  - intros i x Hx Hn. apply HA. eauto.
  - intros i a Ha Hn. apply HT. eauto.
  - intros id p Hp Hn. left. apply HP. eauto.
  - done.
  - intros i. apply HA.
  - intros i. apply HT.
  - intros i. apply HP.
Qed.
End opened.

(** ** The request *)

Section end_to_end.
Context {L F B A S D P Ch R : Type} `{!LimiterStore L F} `{!BudgetStore B} `{!BudgetAuthority A} `{!SharedAuthority S} `{!EqDecision D} `{!Countable D} `{!ResponsesWire P Ch R}.
Context (range_nat : gmap string nat → list (string * nat)) (decode : string → option json).
Context (envelope : string → option string) (identity : Shared.Principal → option string).
Context (h : Handler) (E : Env P Ch) (gates : Gates) (range_str : gmap string string → list (string * string)).
Context (RequestToCanonical : string → option P) (requested_model : P → string) (wants_stream : P → bool).
Context (StoredReference ValidateConversion : string → bool) (StrictTools : string → option bool).
Context (mask_enabled : string → bool) (redact : string → option string).
Context (Estimate : string → string → Z) (range : gmap string ModelConfig → list (string * ModelConfig)).
Context (RouteRequest : RequestRoutingInput → ST (FullRouter (D := D)) (RequestRoutingResult D * option RequestRoutingError)).
Abbreviation Sv := (Server L F B A S D).
Abbreviation Serve := (ServeHTTP range_nat decode envelope identity h E gates range_str RequestToCanonical requested_model wants_stream
  StoredReference ValidateConversion StrictTools mask_enabled redact Estimate range RouteRequest).
Abbreviation compatible := (compatibleTarget ValidateConversion StrictTools).

Abbreviation plan_on := (planned gates RequestToCanonical requested_model StoredReference ValidateConversion StrictTools mask_enabled redact range).

(** A target that the key may use and the policies admit, in an allowed region. *)
Definition authorised (rp : Router.Principal) (regions : list string) (st : Live.State) (ct : ChainTarget) : Prop :=
  allowsInState gates rp (Canonical st (ct_Model ct)) st = true ∧ region_ok regions (Region st (ct_ProviderName ct)) = true.

(** What the router promises: a route has a target, each is authorised, and the
    decision is marked as masked exactly when a policy masks. *)
Class Routes : Prop := routes_ok : ∀ i st f, topology_wf st → in_State i = Some st →
  (RouteRequest i f).1.2 = None → let o := (RouteRequest i f).1.1 in
  o_State o = Some st ∧ o_Chain o ≠ [] ∧ Forall (authorised (in_Principal i) (in_AllowedRegions i) st) (o_Chain o)
  ∧ rd_Masked (o_Decision o) = o_MaskRequired o.
Context `{!Routes}.

Lemma shown_front : front (P := P) (Ch := Ch) identity h E (shown (L := L) (F := F) (B := B) (A := A) (S := S) (D := D)) false (λ c, c = true).
Proof.
  split; intros; try (by eapply answers_say); try (by apply answers_behind; [says_all|]); [by apply answers_error|].
  apply trip_bind, answers_behind; [says_all|intros _]. by apply answers_error.
Qed.

Lemma client_answered hq (sv : Sv) : wf_live sv → sv_trace sv = [] → client (sv_trace (Serve hq sv).2) = Some true.
Proof.
  intros Hwf Ht. destruct (serve_front range_nat decode envelope identity h E gates range_str RequestToCanonical requested_model wants_stream
    StoredReference ValidateConversion StrictTools mask_enabled redact Estimate range RouteRequest _ _ _ shown_front hq (sv_router sv)) with (sv := sv) as (c & Hc & ->);
    [|by unfold shown; rewrite Ht|done|exact Hc].
  intros rq o Hr. apply dispatch_answers. destruct Hr as [(i & f & o1 & Hp & Ho & _ & _ & -> & _) _ _ _ _].
  apply planned_request in Hp as (_ & _ & _ & _ & Hs & _). destruct (routes_ok i _ f Hwf Hs) as (_ & Hne & _); rewrite Ho in *; done.
Qed.

(** The body that may be sent: the policies' masked one when a policy masks, else
    what the team's text filter answers for the request's own, if it has one. *)
Definition allowed_body (team raw : string) (o : RequestRoutingResult D) : option string :=
  if o_MaskRequired o then o_SanitizedBody o else if mask_enabled team then redact raw else Some raw.

(** Each call carries the body [sent], in the dialect of its target. *)
Definition carried (sent : string) (st : Live.State) (l : list (ChainTarget * string)) : Prop :=
  ∃ parsed, RequestToCanonical sent = Some parsed
    ∧ Forall (λ c, compatible sent c.1 (Some st) = true
                   ∧ if bool_decide (pv_Name (ct_Provider c.1) = "anthropic") then anthropicRequest parsed = Some c.2 else c.2 = sent) l.

(** What was sent to providers: the routed chain in its order, each target
    authorised, and the allowed body. *)
Record along_route (p : Shared.Principal) (rp : Router.Principal) (regions : list string) (raw : string)
    (l : list (ChainTarget * string)) (st : Live.State) (o : RequestRoutingResult D) : Prop := {
  al_chain : map fst l `prefix_of` o_Chain o;
  al_targets : Forall (λ c, authorised rp regions st c.1) l;
  al_body : ∃ sent, allowed_body (Shared.pr_Team p) raw o = Some sent ∧ carried sent st l }.

Lemma plan_chain (rq : Routed (D := D) (P := P)) chain : map fst (plan rq chain) `prefix_of` chain.
Proof.
  induction chain as [|ct chain IH]; simpl; [done|]. destruct (proxy_of rq ct); simpl; [by apply prefix_cons|apply prefix_nil].
Qed.
Lemma plan_bodies (rq : Routed (D := D) (P := P)) chain : Forall (λ c, c.1 ∈ chain
  ∧ if bool_decide (pv_Name (ct_Provider c.1) = "anthropic") then anthropicRequest (ro_parsed rq) = Some c.2 else c.2 = ro_raw rq) (plan rq chain).
Proof.
  induction chain as [|ct chain IH]; simpl; [done|]. destruct (proxy_of rq ct) as [pr|] eqn:Ep; [|done]. constructor; simpl.
  - split; [by left|]. unfold proxy_of in Ep. case_bool_decide; [|by injection Ep as <-]. destruct (anthropicRequest _) as [raw|]; [by injection Ep as <-|done].
  - eapply Forall_impl; [exact IH|]. intros c [Hc Hb]. split; [by right|done].
Qed.

Lemma prefix_take {X} n (l k : list X) : l `prefix_of` k → take n l `prefix_of` k.
Proof. intros Hl. etrans; [apply prefix_take|done]. Qed.

(** Calls along the route that is planned for the request on the router [fr]; none
    without one. *)
Definition routed_calls (hq : HTTPRequest) (fr : FullRouter (D := D)) (l : list (ChainTarget * string)) : Prop :=
  l = [] ∨ ∃ p rp raw i f, rq_principal hq = Some (p, rp) ∧ rq_body hq = BodyRead raw ∧ plan_on hq fr = Some (i, f)
    ∧ (RouteRequest i f).1.2 = None
    ∧ along_route p rp (tm_AllowedRegions (rq_team hq)) raw l (r_live (fr_router fr)) (RouteRequest i f).1.1.

Lemma follows_along hq fr rq o l : topology_wf (r_live (fr_router fr)) →
  from_route gates RequestToCanonical requested_model StoredReference ValidateConversion StrictTools mask_enabled redact range RouteRequest hq fr rq o →
  follows [] (plan rq (o_Chain o)) l → routed_calls hq fr l.
Proof.
  intros Hst [Hr Hp Hs Hc Hk] [n ->]. destruct Hr as (i & f & o1 & Hplan & Ho & Epr & _ & E1 & E2 & _ & _ & body & Hbase & Hsent).
  destruct (planned_request _ _ _ _ _ _ _ _ _ _ _ _ _ Hplan) as ((p & Hq) & Hraw & _ & Hreg & Hin & _).
  destruct (routes_ok i _ f Hst Hin) as (Hs1 & _ & Ha & Hm); [by rewrite Ho|]. rewrite Ho in *. cbn [fst snd] in *.
  rewrite Hq in Hp. injection Hp as -> Hrp. right. exists (ro_p rq), (in_Principal i), (in_RawBody i), i, f. split_and!; try done.
  { by rewrite Ho. }
  rewrite Ho. cbn [fst snd app]. pose proof (plan_bodies rq (o_Chain o)) as Hpl. rewrite Hreg, <- E1 in Ha.
  assert (Forall (λ c, c.1 ∈ o_Chain o ∧ if bool_decide (pv_Name (ct_Provider c.1) = "anthropic") then anthropicRequest (ro_parsed rq) = Some c.2 else c.2 = ro_raw rq)
    (take n (plan rq (o_Chain o)))) as Ht by by apply Forall_take.
  rewrite Forall_forall in Ha. rewrite Forall_forall in Hk. split.
  - rewrite <- E1, <- firstn_map. apply prefix_take, plan_chain.
  - eapply Forall_impl; [exact Ht|]. intros c [Hc1 _]. by apply Ha.
  - exists (ro_raw rq). split.
    + unfold allowed_body. rewrite Hm in Hsent. destruct (o_MaskRequired o1); [rewrite orb_true_r in Hsent; congruence|].
      rewrite orb_false_r in Hsent. destruct (mask_enabled _); cbn [negb] in Hsent; congruence.
    + exists (ro_parsed rq). split; [done|]. eapply Forall_impl; [exact Ht|]. intros c [Hc1 Hb]. split; [|done].
      rewrite <- Hs1, <- E2. by apply Hk.
Qed.

Lemma calls_front hq fr : front (P := P) (Ch := Ch) identity h E (sent (L := L) (F := F) (B := B) (A := A) (S := S) (D := D)) [] (routed_calls hq fr).
Proof.
  split; intros; try (by apply calling_uncalled; [says_all|]); [apply calling_uncalled; [apply writeError_uncalled|by left]|].
  apply calling_uncalled; [|by left]. apply says_bind; [apply says_uncalled, says_denied|intros _; apply writeError_uncalled].
Qed.

Lemma calls_routed hq (sv : Sv) : wf_live sv → sv_trace sv = [] → routed_calls hq (sv_router sv) (calls (sv_trace (Serve hq sv).2)).
Proof.
  intros Hwf Ht. destruct (serve_front range_nat decode envelope identity h E gates range_str RequestToCanonical requested_model wants_stream
    StoredReference ValidateConversion StrictTools mask_enabled redact Estimate range RouteRequest _ _ _ (calls_front hq (sv_router sv)) hq (sv_router sv)) with (sv := sv) as (l & <- & Hl);
    [|by unfold sent; rewrite Ht|done|exact Hl].
  intros rq o Hr. eapply trip_mono; [apply dispatch_calling|]. intros [] l Hl. by eapply follows_along.
Qed.

(** The audit trail. *)
Lemma trail_rests hq (sv : Sv) e : h_aud h = true → sv_trace sv = [] →
  co_evidence (sv_collector sv) = Some e → ev_attempts e = [] → ev_open e = None → ∃ ends, agrees E (Serve hq sv).2 (AtRest, ends).
Proof.
  intros Ha Ht He Hn Ho. destruct (serve_front range_nat decode envelope identity h E gates range_str RequestToCanonical requested_model wants_stream
    StoredReference ValidateConversion StrictTools mask_enabled redact Estimate range RouteRequest _ _ _ (trails_front identity h E Ha) hq (sv_router sv)) with (sv := sv) as ([st ends] & Hg & Hst).
  - intros rq o _. eapply trip_mono; [by apply dispatch_trails|]. by intros [] g [ends ->].
  - split; rewrite ?Ht; [done|constructor| |].
    + intros before r after E0. by destruct before.
    + exists e. split; [done|]. split; [done|]. by rewrite Hn.
  - done.
  - simpl in Hst. subst st. by exists ends.
Qed.

(** The money. *)
Lemma books_kept hq (sv : Sv) T0 P0 As Ts : open_books T0 P0 As Ts (sv_money sv) → open_books T0 P0 As Ts (sv_money (Serve hq sv).2).
Proof.
  intros Hb. destruct (serve_front range_nat decode envelope identity h E gates range_str RequestToCanonical requested_model wants_stream
    StoredReference ValidateConversion StrictTools mask_enabled redact Estimate range RouteRequest _ _ _ (ledgers_front identity h E T0 P0 (As, Ts)) hq (sv_router sv)) with (sv := sv) as (g & Hg & ->);
    [|done|done|exact Hg].
  intros rq o _. apply still_dispatch.
Qed.
End end_to_end.

(** ** On the router *)

Section served.
Context {L F B A S D P Ch R : Type} `{!LimiterStore L F} `{!BudgetStore B} `{!BudgetAuthority A} `{!SharedAuthority S} `{!EqDecision D} `{!Countable D} `{!ResponsesWire P Ch R}.
Context (range_nat : gmap string nat → list (string * nat)) (decode : string → option json).
Context (envelope : string → option string) (identity : Shared.Principal → option string).
Context (h : Handler) (E : Env P Ch) (gates : Gates) (range_str : gmap string string → list (string * string)).
Context (RequestToCanonical : string → option P) (requested_model : P → string) (wants_stream : P → bool).
Context (StoredReference ValidateConversion : string → bool) (StrictTools : string → option bool).
Context (mask_enabled : string → bool) (redact : string → option string).
Context (Estimate : string → string → Z) (range : gmap string ModelConfig → list (string * ModelConfig)).
Context (session_digest : list Field → D) (policy_digest : PolicyEvidence → D).
Context (parse_body : string → option SessionBody) (parse_string : string → option string) (parse_items : string → option (list (string * string))).
Context (inspector : Inspector) (router_redactor : option Redactor) (converse_safe : string → bool).
Context (MatchesContextKeywords : string → string → list string → bool) (MatchesKeywords : string → list string → bool).
Context (classifiers : list Entry) (run_classifiers : list Entry → string → string → list ClassifierResult).
Context (lookup : option (string → string → string * result LookupError (list Policy.Policy))) (cancelled : bool * bool).
Abbreviation Sv := (Server L F B A S D).
Abbreviation route := (RequestRouting.RouteRequest session_digest policy_digest parse_body parse_string parse_items range range_str
  Estimate gates inspector router_redactor converse_safe MatchesContextKeywords MatchesKeywords classifiers run_classifiers lookup cancelled).
Abbreviation Serve := (ServeHTTP range_nat decode envelope identity h E gates range_str RequestToCanonical requested_model wants_stream
  StoredReference ValidateConversion StrictTools mask_enabled redact Estimate range route).

#[local] Instance router_routes : Routes gates route.
Proof.
  intros i st f Hwf Hst Hok. pose proof (RouteRequest_routed session_digest policy_digest parse_body parse_string parse_items range range_str
    Estimate gates inspector router_redactor converse_safe MatchesContextKeywords MatchesKeywords classifiers run_classifiers cancelled lookup
    i st f Hwf Hst) as Hr.
  unfold wp in Hr. destruct (route i f) as [[o err] f1]. cbn [fst snd] in *. subst err.
  assert (rd_Masked (o_Decision o) = o_MaskRequired o) as Hm by (eapply routed_masked; exact Hr).
  destruct Hr as (gen & docs & budget & strict & _ & _ & _ & _ & _ & o0 & Hs & _ & Hd).
  destruct Hd as (Hs1 & _ & b & (Ei & Est & _) & [Hc Hp Hsel _] & _). cbn [fst snd] in *. split; [congruence|]. split; [by destruct (o_Chain o)|]. split; [|exact Hm].
  eapply Forall_impl; [exact Hp|]. intros ct [Ha Hre _ _ _]. unfold authorised. rewrite Ei, Est in *. done.
Qed.

(** C2: A request is answered exactly once.  Whatever the body, the route, the
    providers, the authorities and the client do, one status is written, headers
    only before it and bytes only after it; and no provider is called once it is
    written, so that no two providers answer the same client. *)
Theorem answered_once hq (sv : Sv) : wf_live sv → sv_trace sv = [] →
  ∃ before status after, sv_trace (Serve hq sv).2 = before ++ WriteHeader status :: after
    ∧ forallb unwritten before = true ∧ forallb written after = true.
Proof. intros Hwf Ht. apply client_spec. apply client_answered; [apply router_routes|done|done]. Qed.

(** C10: Nothing leaves the gateway but along the route.  A request is given one
    routing input on the router that it finds (its principal, body, requested
    model, chain and team's regions, on the live generation); unless the route of
    that input succeeds, no provider is called.  The providers called are a
    prefix of the chain that it plans, each target one that the key may use and
    the policies admit on that generation, in an allowed region, and compatible
    with the body; each is sent, in the dialect of the target, the masked body if a
    policy masks it, else what the team's text filter makes of the request's own
    body, and that body itself where the team has no filter. *)
Theorem calls_follow_route hq (sv : Sv) : wf_live sv → sv_trace sv = [] →
  let out := calls (sv_trace (Serve hq sv).2) in
  out = [] ∨ ∃ p rp raw i f, rq_principal hq = Some (p, rp) ∧ rq_body hq = BodyRead raw
    ∧ planned gates RequestToCanonical requested_model StoredReference ValidateConversion StrictTools mask_enabled redact range hq (sv_router sv) = Some (i, f)
    ∧ (route i f).1.2 = None
    ∧ along_route gates RequestToCanonical ValidateConversion StrictTools mask_enabled redact p rp (tm_AllowedRegions (rq_team hq)) raw
        out (r_live (fr_router (sv_router sv))) (route i f).1.1.
Proof. intros Hwf Ht. apply calls_routed; [apply router_routes|done|done]. Qed.


(** C8: A request leaves nothing reserved.  Whatever happens to it (refusals,
    retries, failed writes, broken streams), the admissions, the attempts and the
    permits of the node's ledger that are open after it were open before it. *)
Theorem nothing_left_open hq (sv : Sv) :
  let st := sv_money sv in let st' := sv_money (Serve hq sv).2 in
  (∀ i, open_admission st' i → open_admission st i) ∧ (∀ i, open_attempt st' i → open_attempt st i)
  ∧ (∀ id, open_permit st' id → open_permit st id).
Proof.
  intros st st'. destruct (open_books_now st) as (P0 & As & Ts & Hb & HA & HT & HP).
  destruct (books_kept range_nat decode envelope identity h E gates range_str RequestToCanonical requested_model wants_stream
    StoredReference ValidateConversion StrictTools mask_enabled redact Estimate range route hq sv (dom (bk_attempts st)) P0 As Ts Hb) as [H1 H2 H3 _].
  split; [|split].
  - intros i (x & Hx & Hn). by eapply HA, H1.
  - intros i (a & Ha & Hn). by eapply HT, H2.
  - intros id (p & Hp & Hn). destruct (H3 id p Hp Hn) as [|(i & a & Hi & Ha & Hd & _)]; [by apply HP|]. exfalso. apply Hi.
    destruct (HT i (H2 i a Ha Hd)) as (b & Hb' & _). apply elem_of_dom. eauto.
Qed.

(** What a sensitive-data rule lets out when its detectors find something. *)
Definition kept_private (sd : SensitiveData) (st : Live.State) (out : list (ChainTarget * string)) : Prop :=
  (OnDetected sd = v1alpha1.InternalOnly ∧ Forall (λ c, Canonical st (ct_Model c.1) ∈ map (Canonical st) (InternalModels sd)
     ∧ DataBoundary st (ct_ProviderName c.1) = "internal") out)
  ∨ (OnDetected sd = v1alpha1.Mask ∧ ∃ clean check, inspectForRoute inspector "responses" clean DetectSensitiveData = Some check
       ∧ i_Complete check = true ∧ i_Categories check = []
       ∧ carried RequestToCanonical ValidateConversion StrictTools clean st out).

(** C1: Sensitive data does not leave but as its policy says.  When a policy in
    force for the caller has a sensitive-data rule and the inspector finds a
    category in the body, then either no provider is called at all, or the rule is
    [InternalOnly] and every call goes to a provider that the router's live
    generation has as internal, on a model the rule approves, or it is [Mask] and
    every call carries, as it is or in the dialect of its target, one body that
    was inspected again and found complete and clean: the text filter does not
    change it after.  This holds for every retry and fallback. *)
Theorem sensitive_stays_inside hq (sv : Sv) p rp raw source gen docs doc rule sd s :
  wf_live sv → sv_trace sv = [] → rq_principal hq = Some (p, rp) → rq_body hq = BodyRead raw →
  lookup = Some source → source (Router.pr_Team rp) (Router.AccountSubject rp) = (gen, Ok docs) →
  doc ∈ docs → rule ∈ p_Rules doc → r_SensitiveData rule = Some sd →
  inspectForRoute inspector "responses" raw DetectSensitiveData = Some s → i_Categories s ≠ [] →
  let out := calls (sv_trace (Serve hq sv).2) in out = [] ∨ kept_private sd (r_live (fr_router (sv_router sv))) out.
Proof.
  intros Hwf Ht Hp Hb Hl Hdocs Hdoc Hrule Hsd Hs Hcat.
  assert (routed_calls gates RequestToCanonical requested_model StoredReference ValidateConversion StrictTools mask_enabled redact range route
      hq (sv_router sv) (calls (sv_trace (Serve hq sv).2)))
    as [|(p' & rp' & raw' & i & f & Hp' & Hb' & Hplan & Hok & [[k Hk] _ (base & Hbase & Hcar)])]
    by (apply calls_routed; [apply router_routes|done|done]); [by left|right].
  destruct (planned_request _ _ _ _ _ _ _ _ _ _ _ _ _ Hplan) as ((p2 & Hq) & Hraw & Hproto & _ & Hst & _).
  assert (in_Principal i = rp ∧ in_RawBody i = raw) as (Ei & Er) by (split; congruence).
  pose proof (RouteRequest_routed session_digest policy_digest parse_body parse_string parse_items range range_str
    Estimate gates inspector router_redactor converse_safe MatchesContextKeywords MatchesKeywords classifiers run_classifiers cancelled lookup
    i _ f Hwf Hst) as Ho. unfold wp in Ho. destruct (route i f) as [[o err] f1]. cbn [fst snd] in *. subst err.
  eapply routed_private in Ho as (s' & Hs' & Ha); [|unfold docs_of; rewrite Hl, Ei; exact Hdocs|done..].
  rewrite Hproto, Er, Hs in Hs'. injection Hs' as <-. destruct (Ha _ (tr_detected _ _ _ Hcat)) as [(E1 & Hin & _)|(E1 & body & check & Hm & Hbd & Hreq)].
  - left. split; [done|]. rewrite Hk, Forall_app, Forall_map in Hin. by destruct Hin.
  - right. split; [done|]. unfold allowed_body in Hbase. rewrite Hreq, Hbd in Hbase. injection Hbase as <-.
    destruct (masked_clean _ _ _ _ _ _ Hm) as (_ & _ & _ & Hc & H1 & H2). rewrite Hproto in Hc. by exists body, check.
Qed.
End served.

(** ** A request, end to end

    Two providers for the model: the first is busy, the second answers.  A policy
    sends a secret to the internal model only. *)

Module Demo.
#[local] Existing Instance SettlementTheorems.Demo.no_authority.
#[local] Existing Instance SettlementTheorems.Demo.no_shared.

Definition per_token : Rate := flat_rate 1000000 1000000 1000000 1000000 1000000.
Definition table : Pricing.Table :=
  New OnMissingBlock {[ {| Pricing.Provider := "busy"; Model := "u" |} := per_token; {| Pricing.Provider := "claude"; Model := "u" |} := per_token;
                        {| Pricing.Provider := "vllm"; Model := "u" |} := per_token ]}.
Definition config : Config :=
  {| cfg_Providers := {[ "busy" := {| pc_Type := "openai_responses"; pc_BaseURL := ""; pc_Region := ""; pc_DataBoundary := "external" |};
                         "claude" := {| pc_Type := "anthropic"; pc_BaseURL := ""; pc_Region := ""; pc_DataBoundary := "external" |};
                         "vllm" := {| pc_Type := "openai_compatible"; pc_BaseURL := ""; pc_Region := ""; pc_DataBoundary := "internal" |} ]};
     cfg_Models := {[ "big" := demo_model [] [demo_target "busy" "u"; demo_target "claude" "u"]; "safe" := demo_model [] [demo_target "vllm" "u"] ]};
     cfg_Overrides := []; cfg_Table := table; cfg_Fallbacks := ∅; cfg_FallbackFamily := false |}.
Definition generation : Live.State := match BuildState map_to_list map_to_list demo_provider config with Ok (st, _) => st | Err _ => empty_state end.

Lemma generation_wf : topology_wf generation.
Proof.
  apply (build_wf map_to_list map_to_list demo_provider config generation
    (identityOf "" <$> cfg_Providers config)); [reflexivity..|].
  vm_compute. reflexivity.
Qed.

#[local] Instance wire : ResponsesWire string unit unit :=
  {| anthropicRequest p := Some ("messages:" +:+ p); CanonicalToResponseForRequest _ _ := Some "answer"; NewStreamState _ _ := tt;
     Convert _ := λ r, (Some [], r); RendererFinish _ := Ok tt |}.

Definition usage : Usage.Usage :=
  {| InputTokens := Some 8; OutputTokens := Some 3; CacheReadInputTokens := None; CacheCreationInputTokens := None;
     CacheCreation_ := None; Usage.Extra := None; AccountingUncertain := false |}.
Definition env : Env string unit :=
  mkEnv (λ _, None) (λ _, true) (λ _, "id") (λ _, "")
    (λ _ ct _, if bool_decide (ct_ProviderName ct = "busy") then (Some (mkProxyResponse 429 "" None), None)
               else (Some (mkProxyResponse 200 "" (Some (mkResponse (Some usage) tt))), None))
    (λ _ _ _, (None, None)) true.

Definition team : TeamPolicy :=
  {| tp_RatePerMin := 0; tp_RateBurst := 1; tp_TokensPerMinute := 0; tp_TokensPerDay := 0;
     tp_QuotaExceeded := ""; tp_BudgetMicrosPerMonth := 1000000000; tp_BudgetExceeded := "block";
     tp_BudgetMicrosPerDay := 0; tp_BudgetDayExceeded := ""; tp_AdminContact := ""; tp_Sources := ConfigSources |}.
Definition handler : Handler := mkHandler (Some (NewGovernor {[ "acme" := team ]})) true false true false.
Definition evidence0 : evidence := WithEvidence demo_now None.
Definition server : Server Limiter.Memory Limiter.Finish Budget.Memory unit unit string :=
  mkServer
    (mkBackends {| lim := Limiter.NewMemory (λ _, demo_now); bud := Budget.NewMemory (λ _, demo_now); admissions := ∅; localMoney := ∅; cells := ∅;
                   Governor.permits := ∅; wall := λ _, demo_now; wall_reads := 0; events := [] |} tt tt ∅ [])
    {| fr_router := {| r_live := generation; r_brk := newBreaker 5 Second (λ _, 1000 * Second);
                       r_log := {| seen := ∅; capped := false; lines := [] |}; r_circuit := ∅; r_fallbacks := [] |}; fr_affinity := None |}
    (mkCollector (Some evidence0) (λ _, demo_now) 0) 0 [].
Definition principal : Shared.Principal := Shared.mkPrincipal "ik" "acme" 0 0 0 0 None "ann" false "" None false "" false.
Definition request (raw : string) : HTTPRequest :=
  mkHTTP (Some (principal,
                {| Router.pr_KeyID := "ik"; Router.pr_Team := "acme"; pr_AllowedModels := ["*"]; Router.pr_Owner := "ann"; pr_SnapshotRegions := None |}))
    (BodyRead raw) {| tm_AllowedRegions := []; tm_GuardrailID := ""; tm_GuardrailVersion := "" |} "" None "".

Definition rule : Rule :=
  mkRule "pii" "" None None None (Some {| OnDetected := v1alpha1.InternalOnly; OnUninspectable := v1alpha1.Block; InternalModels := ["safe"] |}) None None None.
Definition policy : Policy.Policy := {| p_Name := "privacy"; p_Generation := 1; p_Subject := {| Policy.Team := "acme"; Policy.User := "" |}; p_Rules := [rule] |}.
Definition source : string → string → string * result LookupError (list Policy.Policy) := λ _ _, ("gen", Ok [policy]).

Definition routing : RequestRoutingInput → ST (FullRouter (D := string)) (RequestRoutingResult string * option RequestRoutingError) :=
  RequestRouting.RouteRequest (λ _, "session") (λ _, "policy") (λ _, None) (λ _, None) (λ _, None) map_to_list map_to_list
      (λ _ _, 0) no_gates demo_inspector None (λ _, true) (λ _ _ _, false) (λ _ _, false) [] (λ _ _ _, []) (Some source) (false, false).
Definition served (raw : string) : Server Limiter.Memory Limiter.Finish Budget.Memory unit unit string :=
  (ServeHTTP map_to_list (λ _, Some (JObject [])) (λ _, None) (λ _, None) handler env no_gates map_to_list
    (λ raw, Some raw) (λ _, "big") (λ _, false) (λ _, false) (λ _, true) (λ _, Some false) (λ _, false) (λ _, None) (λ _ _, 0) map_to_list
    routing
    (request raw) server).2.
Definition out (raw : string) : list (string * string) := map (λ c, (ct_ProviderName c.1, c.2)) (calls (sv_trace (served raw))).
Definition statuses (raw : string) : list Z := omap (λ a, match a with WriteHeader s => Some s | _ => None end) (sv_trace (served raw)).

Lemma demo_calls : out "hello" = [("busy", "hello"); ("claude", "messages:hello")] ∧ statuses "hello" = [200].
Proof. by vm_compute. Qed.
Lemma demo_secret : out "123-45-6789" = [("vllm", "123-45-6789")] ∧ statuses "123-45-6789" = [200].
Proof. by vm_compute. Qed.

Lemma answered_once_witness : statuses "hello" = [200] ∧ ∃ before status after,
  sv_trace (served "hello") = before ++ WriteHeader status :: after ∧ forallb unwritten before = true ∧ forallb written after = true.
Proof. split; [apply demo_calls|]. apply answered_once; [exact generation_wf|reflexivity]. Defined.

Definition plan_of (raw : string) := planned no_gates (λ raw, Some raw) (λ _, "big") (λ _, false) (λ _, true) (λ _, Some false) (λ _, false) (λ _, None)
  map_to_list (request raw) (sv_router server).
Lemma demo_plan : match plan_of "hello" with
  | Some (i, f) => (map ct_ProviderName (in_Chain i), in_RequestedModel i, map ct_ProviderName (o_Chain (routing i f).1.1)) = (["busy"; "claude"], "big", ["busy"; "claude"])
  | None => False end.
Proof. by vm_compute. Qed.

Lemma demo_unmasked : match plan_of "hello" with Some (i, f) => o_MaskRequired (routing i f).1.1 = false | None => False end.
Proof. by vm_compute. Qed.

Lemma calls_follow_route_witness : map (λ c, (ct_ProviderName c.1, ct_Model c.1)) (calls (sv_trace (served "hello"))) = [("busy", "big"); ("claude", "big")]
  ∧ ∃ i f, plan_of "hello" = Some (i, f) ∧ map fst (calls (sv_trace (served "hello"))) `prefix_of` o_Chain (routing i f).1.1
      ∧ carried (λ raw, Some raw) (λ _, true) (λ _, Some false) "hello" generation (calls (sv_trace (served "hello"))).
Proof.
  split; [by vm_compute|].
  assert (calls (sv_trace (served "hello")) = [] ∨ ∃ p rp raw i f, rq_principal (request "hello") = Some (p, rp) ∧ rq_body (request "hello") = BodyRead raw
      ∧ plan_of "hello" = Some (i, f) ∧ (routing i f).1.2 = None
      ∧ along_route no_gates (λ raw, Some raw) (λ _, true) (λ _, Some false) (λ _, false) (λ _, None) p rp [] raw
          (calls (sv_trace (served "hello"))) generation (routing i f).1.1)
    as [H|(p & rp & raw & i & f & Hq & Hb & Hp & _ & [Hc _ (sent & Hs & Hcar)])] by (apply calls_follow_route; [exact generation_wf|reflexivity]).
  - exfalso. apply (f_equal length) in H. vm_compute in H. discriminate H.
  - exists i, f. split; [exact Hp|]. split; [exact Hc|]. pose proof demo_unmasked as Hm. rewrite Hp in Hm.
    injection Hb as <-. unfold allowed_body in Hs. rewrite Hm in Hs. injection Hs as <-. exact Hcar.
Defined.

Definition listed (raw : string) : list (list (string * string * string)) :=
  omap (λ a, match a with Appended r => if terminalRecord r then Some (map tale (rec_Attempts r)) else None | _ => None end) (sv_trace (served raw)).
Lemma demo_listed : listed "hello" = [[("busy", "big", "upstream_error")]; [("busy", "big", "upstream_error"); ("claude", "big", "ok")]].
Proof. by vm_compute. Qed.


Lemma nothing_left_open_witness : map fst (map_to_list (bk_attempts (sv_money (served "hello")))) = [2; 1]%nat
  ∧ ¬ open_attempt (sv_money (served "hello")) 1 ∧ ¬ open_admission (sv_money (served "hello")) 1.
Proof.
  split; [by vm_compute|].
  assert ((∀ i, open_admission (sv_money (served "hello")) i → open_admission (sv_money server) i)
    ∧ (∀ i, open_attempt (sv_money (served "hello")) i → open_attempt (sv_money server) i) ∧ (∀ id, open_permit (sv_money (served "hello")) id → open_permit (sv_money server) id))
    as (H1 & H2 & _) by apply nothing_left_open.
  split; [intros (a & Ha & _)%H2|intros (x & Hx & _)%H1]; done.
Defined.

Lemma sensitive_stays_inside_witness : out "123-45-6789" = [("vllm", "123-45-6789")]
  ∧ Forall (λ c, DataBoundary generation (ct_ProviderName c.1) = "internal") (calls (sv_trace (served "123-45-6789")))
  ∧ DataBoundary generation "claude" = "external".
Proof.
  split; [apply demo_secret|]. split; [|by vm_compute].
  assert (calls (sv_trace (served "123-45-6789")) = [] ∨
    kept_private (λ raw, Some raw) (λ _, true) (λ _, Some false) demo_inspector
      {| OnDetected := v1alpha1.InternalOnly; OnUninspectable := v1alpha1.Block; InternalModels := ["safe"] |}
      generation (calls (sv_trace (served "123-45-6789")))) as [H|[[_ H]|[E _]]].
  - eapply (sensitive_stays_inside _ _ _ _ _ _ _ _ _ _ _ _ _ _ _ _ _ _ _ _ _ _ _ _ _ _ _ _ _ _ _ _ (request "123-45-6789") server _ _ "123-45-6789" source "gen" [policy] policy rule);
      try reflexivity; [exact generation_wf|by left|by left|discriminate].
  - exfalso. apply (f_equal length) in H. vm_compute in H. discriminate H.
  - eapply Forall_impl; [exact H|]. by intros c [_ Hc].
  - discriminate E.
Defined.
End Demo.
